(* ===== verification/_CoqProject ===== *)
-Q . S2P
Prelude.v
Lifecycle.v
Runtime.v
Preview.v
Events.v
Journal.v
Policy.v
Boundary.v
Graphql.v
L7.v
Text.v
Render.v
Nft.v
Firewall.v
Enforcement.v
Sni.v
Store.v
Watchdog.v
Report.v
Proposals.v
Gateway.v
Canaries.v
Broker.v
Dns.v
ArtifactGc.v
GuardStore.v
Quarantine.v
Remote.v
RunStore.v
RunQueue.v
RunExecutor.v
RunLiveness.v
WorkerStore.v
Scheduler.v
