(* ===== verification/Prelude.v ===== *)
(** * AIec: a verification development

    AIec runs untrusted agent workloads in sandboxes.  A control plane
    ([crates/aiec-api]) keeps tenants, sandboxes, runs and snapshots in a metadata
    store ([crates/aiec-storage]) over the types of [crates/aiec-core]; runtimes place
    the machines; Guard ([crates/aiec-guard]) stands between a machine and the network,
    decides every destination from a compiled policy, journals what it decided, charges
    a durable budget and quarantines.  This library models the parts of that system
    that decide or keep state, as functions of Rocq, and proves what they promise.

    ** Files

    - [Prelude]: results and their notations, machine integers, strings as bytes, the
      stable sort, the tactics and the hint database [order].
    - [Lifecycle]: [SandboxState], [RunState] with its parser, [RetentionPolicy]
      ([aiec-core/src/lib.rs], [run.rs]) as transition tables and the step relations
      they induce, and the tenant quota.
    - [Runtime]: capability matching and [RuntimeRegistry::select]
      ([aiec-core/src/runtime.rs], [run.rs], [required_capabilities] of
      [aiec-api/src/runs.rs]).
    - [Preview]: the bounded previews of command output ([aiec-core/src/run.rs]) and
      [post_placement] ([aiec-api/src/runs.rs]), the part of an attempt that holds a
      machine.  The answers of the guest and of the store are inputs.
    - [Events]: Guard events, their canonical encoding, hash chain and verification
      ([aiec-guard/src/events.rs]).
    - [Journal]: the durable single-writer journal, over the bytes of its file
      ([aiec-guard/src/events/file.rs]).  The answers of the file system are inputs.
    - [Policy]: the Guard policy document, its validators, templates, normal form and
      [GuardConfig::effective_policy] ([aiec-guard/src/policy.rs]).
    - [Boundary]: the operator boundary and the policy compiler, with every decision a
      compiled policy takes ([aiec-guard/src/compiler.rs]).
    - [Graphql]: the parser of GraphQL documents ([Parser] of [aiec-guard/src/l7.rs]) and,
      in [Grammar], the grammar it accepts.
    - [L7]: the layer 7 rules of inspected destinations, their validation, the strict JSON
      reader and the verdicts on requests and tunnels ([aiec-guard/src/l7.rs]).
    - [Text]: decimal numbers, words and lines in texts.
    - [Render]: the firewall of an attachment, its decision on a packet and the text that
      enforces it ([aiec-guard/src/enforcement/render.rs]).
    - [Nft]: the fragment of nftables that text relies on, as a reference.
    - [Firewall]: what nftables reads in the text and how the installed tables decide.
    - [Enforcement]: the in-memory backend and the one that drives [nft]
      ([aiec-guard/src/enforcement.rs]).
    - [Sni]: the reader of a TLS hello and its visible name
      ([aiec-guard/src/gateway/connect.rs]).
    - [Store]: the tables of the in-memory metadata store ([aiec-storage/src/lib.rs]),
      its records, the operations on sandboxes, keys, nodes and leases, and paging.
    - [Watchdog]: the independent observer of a guest, its rules and incidents
      ([aiec-guard/src/watchdog.rs]).
    - [Report]: the Markdown report of an incident (the same file).
    - [Proposals]: policy proposals of agents, their human approval, verification,
      installation and replay ([aiec-guard/src/proposals.rs]), and the credential store
      that approvals are checked against ([aiec-guard/src/gateway.rs]).
    - [Gateway]: the state of a network attachment and the operations its tasks perform on
      it in any order: cuts, heartbeats, releases, the dead-man loop, budgets
      ([aiec-guard/src/gateway.rs]).
    - [Canaries]: tripwires, redaction and what a firing does
      ([aiec-guard/src/canaries.rs], the enforcer of [aiec-network-linux/src/guard.rs]).
    - [Broker]: [handle] of [aiec-guard/src/gateway.rs], the way of a request from the
      guest to an upstream, the metered copies of bodies, and CONNECT tunnels
      ([gateway/connect.rs]).
    - [Dns]: the resolver that answers for the policy ([aiec-guard/src/dns.rs]).
    - [ArtifactGc]: snapshot rows, object reference counts and the deletion ledger
      ([aiec-storage/src/memory_artifact_gc.rs]).
    - [GuardStore]: budgets, incidents, quarantine, proposals and tool approvals
      ([aiec-storage/src/guard.rs]), and the store as a whole: [op] lists the
      operations that write it and [run] performs a sequence of them.
    - [Quarantine]: the control plane's handlers from a watchdog's incident to a contained
      guest, and the release ([aiec-api/src/guard.rs], [guard_release.rs]).
    - [Remote]: the queue, worker and sink of the second copy of the event stream
      ([aiec-guard/src/events/remote.rs]).
    - [RunStore]: the tables of runs in PostgreSQL and the statements on them
      ([aiec-storage/src/postgres.rs], [migrations/0011_runs.sql]).
    - [RunQueue]: admission, claim, recovery and the writes under a lease
      ([aiec-storage/src/run_queue.rs], [migrations/0013_run_queue.sql]), and the queue it
      implements as a step relation ([qstep]).
    - [RunExecutor]: attempts, phases, teardown and settlement of a run and the dispatcher's
      turn ([aiec-api/src/runs.rs], [run_queue.rs]), between whose calls others write.
    - [RunLiveness]: the dispatcher on an abandoned queue, and the request that waits.
    - [WorkerStore]: workers, leases, assignments and placement in PostgreSQL
      ([aiec-storage/src/postgres.rs], [migrations/0002_control_plane.sql],
      [0016_host_cpu_budget.sql], [0018_guard_proposals.sql]).
    - [Scheduler]: these operations in any order ([op], [run]), and the ledger of capacity and
      leases they implement as a step relation ([lstep]).

    [Preview] uses the state machine of [Lifecycle]; [Journal] is over [Events];
    [Boundary] compiles the policies of [Policy] with its name matching; [Store] holds
    the states of [Lifecycle], the configurations of [Policy] and the events of
    [Events]; [L7] decides GraphQL bodies with [Graphql]; [Proposals] compiles candidates
    with [Boundary] and writes the policy cell that [Gateway] holds; [Canaries] fire into
    the cut of [Gateway]; [Broker] and [Dns] decide with [Boundary], [L7], [Sni] and
    [Canaries] under the budgets of [Gateway]; [ArtifactGc] and [GuardStore] are operations on [Store].
    [Enforcement] renders what [Boundary] compiled with [Render], and [Firewall] gives the
    text its meaning in [Nft]; [Quarantine] runs the rules of [Watchdog] against
    [GuardStore]; [Remote] copies the journal of [Journal]; [RunQueue] is over [RunStore],
    [RunExecutor] over both, and [RunLiveness] over all three.  [WorkerStore] places the
    sandboxes of [Store] and links them to the attempts of [RunStore]; [Scheduler] is over it.

    ** Conventions

    A fallible function returns [result E A]; [let?] is the source's [?] and [bail_if]
    its early returns, in the source's order.  Errors are kept by class, without their
    messages.  An operation on a store is a function to the new store and its answer;
    where the source returns before it writes, [commit] says so.  Integers are [Z] with
    their widths written where they matter; a string is its UTF-8 bytes; a [Uuid] is
    its number and an instant its nanoseconds.  [Utc::now()] and random identifiers are
    arguments.  A [HashMap] is a [gmap] whose iteration order is the parameter
    [Store.HashOrder].

    Third-party code is a class of operations with a class of laws: [Events.Host]
    (SHA-256, the printers of instants and UUIDs), [Journal.Json] (serde_json on
    events), [Boundary.IpNetLib] (CIDR blocks), [L7.SerdeJson] (JSON texts),
    [Broker.HttpLib] (header values and bodies), [Dns.DnsCodec] (DNS messages), [Nft.Nft] (nftables),
    [Enforcement.Texts], [NftJson] and [NftListing] (printed identifiers, what [nft] lists),
    [Watchdog.Entropy], [Remote.AckJson], [WorkerStore.Heap], [Numeric] and [Documents] (the
    order of rows and the arithmetic of PostgreSQL, digests of requests).  Each has a concrete
    instance at the end of its file, or of the one that proves with it, at which the theorems
    are applied.

    Loops over input run on fuel equal to what is left of the input: [Journal.read_loop]
    and its relatives, the GraphQL parser, [Sni.read_records] and [Dns.labels_valid]
    consume at least one byte per step, [Preview.floor_scan] and
    [ceil_scan] one position, so the fuel they are called with is never used up; the
    lemmas on each say so by giving its result.  [Store.walk] is a reader's loop over
    pages, shown to end within one call more than there are rows.  [RunLiveness.wait] polls at
    most 301 times, since its grace period is 30 seconds and a delay a tenth of one at least; the
    attempts, retries and claims of [RunExecutor] recurse on what is left of the bounds the
    source counts to.  A placement has [WorkerStore.PLACEMENT_ROUNDS] rounds and
    [HOST_LOCK_ATTEMPTS] tries of a lock, the source's own bounds, and a sweep recurses on the
    page it read.

    Concurrency is sequences of atomic steps.  A transaction is one step where the source
    locks the rows it decides on; between the calls of a handler ([Quarantine]) or an
    executor ([RunExecutor]) an arbitrary environment acts.  Steps are coarser than the source
    in these places: [Broker.handle] decides on one state of the gateway; the locked part of a
    heartbeat and a turn of the watchdog loop are one step of [Gateway] each; [Remote] sends a
    record and counts it at once; a quarantine and the task it spawns are one sequence of
    calls.  [RunQueue] starts from empty tables, so without the rows that migration 0013
    wrote for runs that were there before it.

    ** What the theorems show

    - Network: no non-public address is reachable except as a mapped test address, the
      precedence of the checks, soundness of compilation, exact DNS scope and zone
      matching, what validation and templates guarantee, one source of policy.
    - Requests: a request leaves only if a rule of the policy in force and the layer 7
      rules permit it, to addresses the boundary accepts, after its record; secrets reach
      only their own destination; tunnels reach the host that the request, the header and
      the TLS hello name; the JSON, GraphQL, TLS and DNS readers accept exactly the
      well-formed inputs; the layer 7 verdicts refine a declarative specification; DNS
      answers and lookups are confined to admitted names; bodies stay within limits.
    - Enforcement: nftables reads in the rendered text the rules that were meant, those
      rules decide every packet as the model does, and the backend that drives [nft] is
      simulated by the one in memory, failed runs included.
    - Containment: a held or dead-man cut is left only by an authorized release in every
      interleaving; silence of the watchdog contains; budgets are never exceeded; canaries
      are synthetic, exact, redacted unless they hold brackets, and contain before they record.
    - Change: the policy in force only grows by approved grants, and the installed rules
      are those of the policy in force.
    - Evidence: the encoding is injective, a head hash determines a journal up to a
      hash collision, acknowledged records replay and stay first in the file whatever
      fails later, pages and snapshots show the journal, rotation seals it, a failed fsync
      forks it.
    - Guard state: over all sequences of store operations, budgets book exactly what
      was granted within unchangeable caps, quarantine is entered only under a live
      fence and left only by its tenant's release, an approval authorises one call,
      proposals and incident evidence are final, reports may be retried.
    - Watchdog: a rule fires exactly when its window reaches the threshold; the stages of a
      quarantine come in order whatever else writes, and complete in a calm world.
    - Second copy: what is delivered is the journal in order, panics and failed writes
      included, an acknowledged head anchors it, a shutdown accounts for every record.
    - Objects: reference counts are exact, an object given to the collector is never
      referenced again, the bounded scan starves nothing, pages show every row once.
    - Run queue: limits are never exceeded, a run is dispatched at most once, only the holder
      of a lease writes, the claim is fair, states follow the lifecycle, every machine of an
      attempt is destroyed, retained or reported, an abandoned queue drains, and a request
      that waits is answered.
    - Placement: no worker is overcommitted unless it shrinks below what it has in use, a
      placement is admissible and within what its host reported under its lock, a lost lease
      is fenced for good, a sweep settles the expired leases of a page, oldest first,
      quarantine outlasts all of it.
    - Runs: legal state sequences, what a success implies, bounded stored evidence,
      sound runtime selection, exact quota arithmetic.

    Where the code falls short of its documentation the theorem states what it does:
    [Journal.fsync_failure_forks_journal], [Policy.template_refuses_second_port],
    [Policy.normalized_keeps_model_order], [Boundary.mapped_protected_range_ineffective],
    [GuardStore.foreign_proposal_readable],
    [Runtime.satisfied_by_differs_only_on_snapshots], [Gateway.second_cut_not_fenced],
    [Gateway.hold_interrupted_stays_open], [Gateway.authorized_release_opens_at_once],
    [Proposals.unrecorded_approval_in_force], [Proposals.denied_proposal_still_applied],
    [Proposals.unrecorded_submission_stays], [Proposals.decided_proposals_fill_the_queue],
    [L7.leading_blank_escapes_inspection], [Graphql.object_literal_refused],
    [Broker.respelled_model_host_is_proxied], [Dns.unobserved_canary_is_resolved],
    [Quarantine.quarantine_after_release_cuts_nothing],
    [Canaries.SampleCanaries.bracketed_value_survives],
    [RunQueue.set_failure_reopens_failed_run], [RunQueue.late_failure_rewrites_results],
    [RunExecutor.begun_attempt_is_never_settled],
    [RunExecutor.SampleExecutor.successful_work_is_recorded_as_failed],
    [Scheduler.isolation_not_required],
    [Scheduler.SampleWorkers.shrunk_worker_is_overcommitted].

    ** What is not modelled

    Input and output (HTTP, sockets, TLS, subprocesses, the kernel); the statements of the
    PostgreSQL store other than those on sandboxes, workers, leases, runs and their queue; the
    machine backends, the guest agent, clients and user interfaces; YAML and JSON parsing;
    error texts and log lines.  The watcher, whose verdicts come from a model service, the
    readers of kernel pressure files, the validation of requests and the rate limits
    decide little of what the other parts rely on, and are left out. *)

From stdpp Require Export base tactics list option numbers strings gmap fin_maps sorting.
From Stdlib Require Export ZArith Lia.
From Stdlib Require Ascii String.

#[global] Open Scope Z_scope.

(** ** Fallible computations *)

(** Rust's [Result<A, E>]. *)
Inductive result (E A : Type) : Type :=
| Ok (a : A)
| Err (e : E).
Arguments Ok {E A} a.
Arguments Err {E A} e.

Declare Scope result_scope.
Delimit Scope result_scope with result.

(** The [?] operator: continue with the value or return the error. *)
Notation "'let?' x := c 'in' k" :=
  (match c with Ok x => k | Err err => Err err end)
  (at level 10, x pattern, c at level 200, k at level 200,
   format "'[v' 'let?'  x  :=  c  'in' '/' k ']'") : result_scope.

(** An early [return Err(e)] guarded by a condition. *)
Notation "'bail_if' b 'with' e ; k" :=
  (if b then Err e else k)
  (at level 10, b at level 200, e at level 200, k at level 200,
   format "'[v' 'bail_if'  b  'with'  e ; '/' k ']'") : result_scope.

#[global] Open Scope result_scope.

Definition is_ok {E A} (r : result E A) : bool :=
  match r with Ok _ => true | Err _ => false end.

Definition ok_or {E A} (o : option A) (e : E) : result E A :=
  match o with Some a => Ok a | None => Err e end.

Definition map_err {E F A} (f : E → F) (r : result E A) : result F A :=
  match r with Ok a => Ok a | Err e => Err (f e) end.

#[global] Instance result_eq_dec {E A} `{EqDecision E, EqDecision A} :
  EqDecision (result E A).
Proof. solve_decision. Defined.

(** [for x in l { f(x)?; }]: the first error wins. *)
Fixpoint each {E A} (f : A → result E ()) (l : list A) : result E () :=
  match l with
  | [] => Ok ()
  | x :: l => let? _ := f x in each f l
  end.

Lemma each_ok {E A} (f : A → result E ()) l :
  each f l = Ok () ↔ Forall (λ x, f x = Ok ()) l.
Proof.
  induction l as [|x l IH]; simpl; [by split|].
  rewrite Forall_cons. destruct (f x) as [[]|e]; [|naive_solver].
  rewrite IH. naive_solver.
Qed.

(** The error classes of [crates/aiec-guard/src/lib.rs].  The message of an error is
    not modelled: the Guard's messages quote the offending value. *)
Module GuardError.
Inductive t := Policy | Denied | Integrity | Unavailable | Io | AlreadyApplied | Json | Yaml.
#[global] Instance t_eq_dec : EqDecision t.
Proof. solve_decision. Defined.
End GuardError.

Lemma NoDup_fmap_elem {A B} (f : A → B) l x y :
  NoDup (f <$> l) → x ∈ l → y ∈ l → f x = f y → x = y.
Proof.
  induction l as [|z l IH]; [by intros _ ?%elem_of_nil|]. rewrite fmap_cons, NoDup_cons.
  intros [Hz Hl] Hx Hy Hf.
  apply elem_of_cons in Hx as [->|Hx], Hy as [->|Hy]; [done| | |by apply IH].
  - destruct Hz. rewrite Hf. by apply list_elem_of_fmap_2.
  - destruct Hz. rewrite <-Hf. by apply list_elem_of_fmap_2.
Qed.

Lemma filter_all {T} (P : T → Prop) `{∀ x, Decision (P x)} (l : list T) :
  (∀ x, x ∈ l → P x) → filter P l = l.
Proof.
  induction l as [|x l IH]; intros Hl; [done|]. rewrite filter_cons, decide_True by (apply Hl; left).
  f_equal. apply IH. intros y Hy. apply Hl. by right.
Qed.

Lemma filter_none {T} (P : T → Prop) `{∀ x, Decision (P x)} (l : list T) :
  (∀ x, x ∈ l → ¬ P x) → filter P l = [].
Proof.
  induction l as [|x l IH]; intros Hl; [done|]. rewrite filter_cons, decide_False by (apply Hl; left).
  apply IH. intros y Hy. apply Hl. by right.
Qed.

(** Induction over trees whose nodes hold lists of trees. *)
Scheme All for list.
Scheme All for option.
Scheme All for prod.

Lemma list_all_elem {A} (P : A → Prop) (l : list A) x : list_all A P l → x ∈ l → P x.
Proof. induction 1 as [|y Hy l _ IH]; [by intros ?%elem_of_nil|]. intros [->|]%elem_of_cons; auto. Qed.

(** ** Boolean quantifiers *)
Lemma forallb_Forall {A} (p : A → bool) l :
  forallb p l = true ↔ Forall (λ x, p x = true) l.
Proof. rewrite Forall_forall, List.forallb_forall. by setoid_rewrite list_elem_of_In. Qed.

Lemma existsb_Exists {A} (p : A → bool) l :
  existsb p l = true ↔ Exists (λ x, p x = true) l.
Proof.
  rewrite Exists_exists, List.existsb_exists. by setoid_rewrite list_elem_of_In.
Qed.

Lemma existsb_false {A} (p : A → bool) l :
  existsb p l = false ↔ Forall (λ x, p x = false) l.
Proof.
  induction l as [|x l IH]; simpl; [by split|].
  rewrite orb_false_iff, Forall_cons, IH. done.
Qed.

(** ** Machine integers

    A [uN] or [iN] value is a [Z]; the operations that can leave the range say
    what Rust does there. *)
Definition u16_max : Z := 2 ^ 16 - 1.
Definition u32_max : Z := 2 ^ 32 - 1.
Definition u64_max : Z := 2 ^ 64 - 1.
Definition i64_max : Z := 2 ^ 63 - 1.

Definition checked_add (max a b : Z) : option Z :=
  if a + b <=? max then Some (a + b) else None.
Definition checked_sub (a b : Z) : option Z :=
  if b <=? a then Some (a - b) else None.
Definition saturating_add (max a b : Z) : Z := Z.min max (a + b).
Definition saturating_sub (a b : Z) : Z := Z.max 0 (a - b).

Lemma checked_add_Some max a b c :
  checked_add max a b = Some c ↔ c = a + b ∧ a + b ≤ max.
Proof. unfold checked_add. destruct (Z.leb_spec (a + b) max); naive_solver lia. Qed.

(** ** Identifiers and instants

    A [Uuid] is the 128-bit number its bytes spell, which is also its order.  A
    [DateTime<Utc>] is the number of nanoseconds since the epoch. *)
Abbreviation Uuid := N (only parsing).
Definition is_uuid (u : Uuid) : Prop := (u < 2 ^ 128)%N.
Abbreviation Instant := Z (only parsing).
Definition seconds (n : Z) : Z := n * 1000000000.

(** ** Strings

    A Rust [str] is the sequence of its UTF-8 bytes, so Stdlib's [string] of
    8-bit characters is the same data and [slen] is [str::len]. *)
Definition chars (s : string) : list Ascii.ascii := String.list_ascii_of_string s.
Definition slen (s : string) : Z := Z.of_nat (String.length s).
Definition byte_of (c : Ascii.ascii) : Z := Z.of_N (Ascii.N_of_ascii c).

Definition is_empty (s : string) : bool := bool_decide (s = ""%string).

Definition in_range (lo hi : Z) (c : Ascii.ascii) : bool :=
  (lo <=? byte_of c) && (byte_of c <=? hi).
Definition is_ascii_digit : Ascii.ascii → bool := in_range 48 57.
Definition is_ascii_uppercase : Ascii.ascii → bool := in_range 65 90.
Definition is_ascii_lowercase : Ascii.ascii → bool := in_range 97 122.
Definition is_ascii_alphabetic (c : Ascii.ascii) : bool :=
  is_ascii_uppercase c || is_ascii_lowercase c.
Definition is_ascii_alphanumeric (c : Ascii.ascii) : bool :=
  is_ascii_alphabetic c || is_ascii_digit c.
Definition is_ascii_control (c : Ascii.ascii) : bool :=
  in_range 0 31 c || (byte_of c =? 127).
Definition is_ascii_byte (c : Ascii.ascii) : bool := byte_of c <=? 127.
Definition is_ascii_hexdigit (c : Ascii.ascii) : bool :=
  is_ascii_digit c || in_range 97 102 c || in_range 65 70 c.
Definition is_char (d c : Ascii.ascii) : bool := Ascii.eqb c d.
Definition is_one_of (ds : string) (c : Ascii.ascii) : bool :=
  existsb (Ascii.eqb c) (chars ds).

Definition all_bytes (p : Ascii.ascii → bool) (s : string) : bool := forallb p (chars s).
Definition any_byte (p : Ascii.ascii → bool) (s : string) : bool := existsb p (chars s).

(** The grammar of a lowercase SHA-256 digest, stated at several places. *)
Definition is_lower_hex (c : Ascii.ascii) : bool := is_ascii_digit c || in_range 97 102 c.

Lemma length_chars s : length (chars s) = String.length s.
Proof. induction s as [|c s IH]; [done|]. simpl. by f_equal. Qed.

Lemma chars_inj s t : chars s = chars t → s = t.
Proof.
  intros H. rewrite <-(String.string_of_list_ascii_of_string s),
    <-(String.string_of_list_ascii_of_string t). unfold chars in H. by rewrite H.
Qed.

Lemma byte_of_range c : 0 ≤ byte_of c < 256.
Proof. unfold byte_of. pose proof (Ascii.N_ascii_bounded c). lia. Qed.

Lemma byte_of_inj c d : byte_of c = byte_of d → c = d.
Proof.
  unfold byte_of. intros H%N2Z.inj.
  by rewrite <-(Ascii.ascii_N_embedding c), <-(Ascii.ascii_N_embedding d), H.
Qed.

(** Bytewise order of strings, the order of Rust's [str]. *)
Fixpoint bytes_leb (a b : list Ascii.ascii) : bool :=
  match a, b with
  | [], _ => true
  | _ :: _, [] => false
  | x :: a, y :: b =>
      if byte_of x <? byte_of y then true
      else if byte_of y <? byte_of x then false
      else bytes_leb a b
  end.
Definition string_leb (a b : string) : bool := bytes_leb (chars a) (chars b).

Lemma bytes_leb_total a b : bytes_leb a b = true ∨ bytes_leb b a = true.
Proof.
  revert b. induction a as [|x a IH]; intros [|y b]; simpl; auto.
  destruct (Z.ltb_spec (byte_of x) (byte_of y)), (Z.ltb_spec (byte_of y) (byte_of x)); auto.
Qed.

Lemma bytes_leb_antisym a b : bytes_leb a b = true → bytes_leb b a = true → a = b.
Proof.
  revert b. induction a as [|x a IH]; intros [|y b]; simpl; try done.
  destruct (Z.ltb_spec (byte_of x) (byte_of y)), (Z.ltb_spec (byte_of y) (byte_of x));
    try done; try lia. intros. f_equal; [apply byte_of_inj; lia|auto].
Qed.

Lemma bytes_leb_trans a b c : bytes_leb a b = true → bytes_leb b c = true → bytes_leb a c = true.
Proof.
  revert b c. induction a as [|x a IH]; intros [|y b] [|z c]; simpl; try done.
  destruct (Z.ltb_spec (byte_of x) (byte_of y)), (Z.ltb_spec (byte_of y) (byte_of x)),
    (Z.ltb_spec (byte_of y) (byte_of z)), (Z.ltb_spec (byte_of z) (byte_of y)),
    (Z.ltb_spec (byte_of x) (byte_of z)), (Z.ltb_spec (byte_of z) (byte_of x));
    try done; try lia. apply IH.
Qed.

(** The laws of the orders the development sorts by. *)
Create HintDb order.
#[export] Hint Resolve bytes_leb_total bytes_leb_trans bytes_leb_antisym : order.

(** ** Stable sorting ([slice::sort_by])

    Insertion before the first element that is not smaller keeps equal elements in
    their order. *)
Section Sorting.
Context {A : Type} (leb : A → A → bool).

Fixpoint insert_sorted (x : A) (l : list A) : list A :=
  match l with
  | [] => [x]
  | y :: l => if leb x y then x :: y :: l else y :: insert_sorted x l
  end.

Definition sort_by (l : list A) : list A := foldr insert_sorted [] l.

Lemma insert_sorted_perm x l : insert_sorted x l ≡ₚ x :: l.
Proof.
  induction l as [|y l IH]; simpl; [done|]. case_match; [done|]. rewrite IH. constructor.
Qed.

Lemma sort_by_perm l : sort_by l ≡ₚ l.
Proof. induction l as [|x l IH]; simpl; [done|]. by rewrite insert_sorted_perm, IH. Qed.

Context (leb_total : ∀ x y, leb x y = true ∨ leb y x = true)
  (leb_trans : ∀ x y z, leb x y = true → leb y z = true → leb x z = true).

Lemma insert_sorted_sorted x l :
  StronglySorted (λ x y, leb x y = true) l →
  StronglySorted (λ x y, leb x y = true) (insert_sorted x l).
Proof.
  induction 1 as [|y l Hl IH Hy]; simpl; [by repeat constructor|].
  destruct (leb x y) eqn:Hxy.
  - constructor; [by constructor|]. constructor; [done|].
    eapply Forall_impl; [exact Hy|]. intros z Hz. by eapply leb_trans.
  - constructor; [done|]. rewrite insert_sorted_perm. constructor; [|done].
    destruct (leb_total x y); congruence.
Qed.

Lemma sort_by_sorted l : StronglySorted (λ x y, leb x y = true) (sort_by l).
Proof. induction l as [|x l IH]; simpl; [constructor|by apply insert_sorted_sorted]. Qed.

Lemma insert_sorted_least x l : Forall (λ y, leb x y = true) l → insert_sorted x l = x :: l.
Proof. intros [|y l' Hy _]; simpl; [done|]. by rewrite Hy. Qed.

Lemma sort_by_idem l : StronglySorted (λ x y, leb x y = true) l → sort_by l = l.
Proof. induction 1 as [|x l Hl IH Hx]; simpl; [done|]. rewrite IH. by apply insert_sorted_least. Qed.

(** Two orders of the same elements sort alike when no two elements tie. *)
Lemma sort_by_unique l m :
  (∀ x y, x ∈ l → y ∈ l → leb x y = true → leb y x = true → x = y) →
  l ≡ₚ m → sort_by l = sort_by m.
Proof.
  intros Hanti Hp. assert (Hlm : sort_by l ≡ₚ sort_by m) by (by rewrite !sort_by_perm).
  assert (Ha : ∀ x y, x ∈ sort_by l → y ∈ sort_by l → leb x y = true → leb y x = true → x = y).
  { intros x y. rewrite sort_by_perm. apply Hanti. }
  revert Hlm Ha. generalize (sort_by_sorted l), (sort_by_sorted m).
  generalize (sort_by l) as l', (sort_by m) as m'. clear -leb.
  induction l' as [|x l' IH]; intros m' Hl Hm Hp Ha; [by apply Permutation_nil_l in Hp|].
  destruct m' as [|y m']; [by apply Permutation_nil_r in Hp|].
  apply StronglySorted_inv in Hl as [Hl Hx], Hm as [Hm Hy].
  assert (x = y) as ->.
  { assert (Hxm : x ∈ y :: m') by (rewrite <-Hp; left).
    assert (Hyl : y ∈ x :: l') by (rewrite Hp; left).
    apply elem_of_cons in Hxm as [->|Hxm]; [done|]. pose proof Hyl as Hyl'.
    apply elem_of_cons in Hyl as [->|Hyl]; [done|].
    rewrite Forall_forall in Hx, Hy. apply Ha; [left|done|by apply Hx|by apply Hy]. }
  f_equal. apply IH; [done|done|by apply Permutation_cons_inv in Hp|].
  intros z w ??. apply Ha; by right.
Qed.

End Sorting.

Definition sort_strings : list string → list string := sort_by string_leb.

Lemma sort_strings_unique l m : l ≡ₚ m → sort_strings l = sort_strings m.
Proof.
  apply sort_by_unique; unfold string_leb.
  - intros; apply bytes_leb_total.
  - intros ???. apply bytes_leb_trans.
  - intros x y _ _ ??. by apply chars_inj, bytes_leb_antisym.
Qed.

(** Refusing duplicates by sorting and comparing neighbours ([windows(2)]). *)
Fixpoint adjacent_eq {A} `{EqDecision A} (l : list A) : bool :=
  match l with
  | x :: ((y :: _) as rest) => bool_decide (x = y) || adjacent_eq rest
  | _ => false
  end.

Lemma sorted_adjacent_NoDup {A} `{EqDecision A} (leb : A → A → bool) (l : list A) :
  (∀ x y, leb x y = true → leb y x = true → x = y) →
  StronglySorted (λ x y, leb x y = true) l → adjacent_eq l = false ↔ NoDup l.
Proof.
  intros Hanti. induction 1 as [|x l Hl IH Hx]; [split; [constructor|done]|].
  destruct l as [|y l]; [split; [intros _; repeat constructor; set_solver|done]|].
  simpl adjacent_eq. rewrite NoDup_cons. case_bool_decide as Hxy; simpl.
  - subst. split; [done|]. intros [Hn _]. set_solver.
  - simpl in IH. rewrite IH. split; [|tauto]. intros Hnd. split; [|done].
    intros [->|Hin]%elem_of_cons; [done|].
    apply StronglySorted_inv in Hl as [_ Hy]. rewrite Forall_forall in Hx, Hy.
    apply Hxy, Hanti; [apply Hx; left|by apply Hy].
Qed.

Definition has_duplicate (l : list string) : bool := adjacent_eq (sort_strings l).

Lemma has_duplicate_NoDup l : has_duplicate l = false ↔ NoDup l.
Proof.
  unfold has_duplicate. rewrite (sorted_adjacent_NoDup string_leb).
  - unfold sort_strings. by rewrite sort_by_perm.
  - intros x y ??. by apply chars_inj, bytes_leb_antisym.
  - apply sort_by_sorted; unfold string_leb; [intros; apply bytes_leb_total|].
    intros ???. apply bytes_leb_trans.
Qed.

(** ** Automation *)

(** Splits every [if] and [match] of the hypotheses and of the goal, and discards
    the branches whose result is not the expected one. *)
Ltac split_cases := repeat (simplify_eq/=; case_match); simplify_eq/=.

(** Follows a chain of [let?] and [bail_if] that returned [Ok], naming what each
    step established. *)
Ltac ok_inv H :=
  repeat match type of H with
  | (match ?c with Ok _ => _ | Err _ => _ end) = Ok _ =>
      let E := fresh "Hok" in destruct c eqn:E; [|discriminate H]
  | (if ?b then Err _ else _) = Ok _ =>
      let E := fresh "Hif" in destruct b eqn:E; [discriminate H|]
  end;
  repeat match goal with u : () |- _ => destruct u end.

Ltac bools :=
  repeat match goal with
  | H : _ && _ = true |- _ => apply andb_true_iff in H as [? ?]
  | H : _ || _ = false |- _ => apply orb_false_iff in H as [? ?]
  | H : negb _ = true |- _ => apply negb_true_iff in H
  | H : negb _ = false |- _ => apply negb_false_iff in H
  | H : bool_decide _ = true |- _ => apply bool_decide_eq_true in H
  | H : bool_decide _ = false |- _ => apply bool_decide_eq_false in H
  end.
