(* ===== verification/Lifecycle.v ===== *)
(** * Lifecycle: the sandbox and run state machines

    [crates/aiec-core/src/lib.rs] ([SandboxState], [RuntimeKind], the tenant
    quota) and [crates/aiec-core/src/run.rs] ([RunState], [RetentionPolicy]).  A
    state is an inductive with the source's variants; the transition tables are
    boolean functions, and [sandbox_step] and [run_step] are the step relations
    they induce. *)

From stdpp Require Import relations.
From S2P Require Import Prelude.

(** ** Sandbox states ([aiec-core/src/lib.rs]) *)
Module Sandboxes.

Inductive RuntimeKind := Firecracker | Docker | BwrapDev | Hosted.

#[global] Instance RuntimeKind_eq_dec : EqDecision RuntimeKind.
Proof. solve_decision. Defined.

Definition RuntimeKind_as_str (k : RuntimeKind) : string :=
  match k with
  | Docker => "docker"
  | Firecracker => "firecracker"
  | BwrapDev => "bwrap-dev"
  | Hosted => "hosted"
  end.

Inductive SandboxState :=
| Creating | Starting | Running | Paused | Quarantined | Stopping | Stopped
| Snapshotting | Restoring | Failed | Destroying | Destroyed.

#[global] Instance SandboxState_eq_dec : EqDecision SandboxState.
Proof. solve_decision. Defined.

Definition SandboxState_as_str (s : SandboxState) : string :=
  match s with
  | Creating => "creating"
  | Starting => "starting"
  | Running => "running"
  | Paused => "paused"
  | Quarantined => "quarantined"
  | Stopping => "stopping"
  | Stopped => "stopped"
  | Snapshotting => "snapshotting"
  | Restoring => "restoring"
  | Failed => "failed"
  | Destroying => "destroying"
  | Destroyed => "destroyed"
  end.

Definition consumes (s : SandboxState) : bool :=
  match s with
  | Creating | Starting | Running | Stopping | Snapshotting | Restoring => true
  | _ => false
  end.

Definition can_transition_to (self next : SandboxState) : bool :=
  match self, next with
  | Creating, (Starting | Failed | Destroying)
  | Starting, (Running | Failed | Destroying)
  | (Creating | Starting | Running | Paused | Stopping | Stopped | Snapshotting
     | Restoring | Failed), Quarantined
  | Running, (Stopping | Snapshotting | Failed | Destroying)
  | Running, Paused
  | Paused, Running
  | Stopping, (Stopped | Failed)
  | Stopped, (Starting | Destroying)
  | Snapshotting, (Running | Stopped | Failed)
  | Restoring, (Running | Failed)
  | Failed, (Starting | Destroying)
  | Destroying, (Destroyed | Failed)
  | Destroyed, Creating => true
  | _, _ => false
  end.

Definition sandbox_step (s t : SandboxState) : Prop := can_transition_to s t = true.

(** The states from which a machine may be contained: everything that is not
    already contained or on its way out. *)
Definition containable (s : SandboxState) : bool :=
  match s with Quarantined | Destroying | Destroyed => false | _ => true end.

Lemma step_quarantined s : sandbox_step s Quarantined ↔ containable s = true.
Proof. by destruct s. Qed.

Lemma quarantined_stuck t : ¬ sandbox_step Quarantined t.
Proof. by destruct t. Qed.

Lemma step_closer_to_destroyed s :
  s ≠ Quarantined → s ≠ Destroyed →
  ∃ l, Forall2 sandbox_step (s :: l) (l ++ [Destroyed]) ∧ (length l <= 3)%nat.
Proof.
  intros ??. destruct s; try done.
  - by exists [Destroying]; repeat constructor.
  - by exists [Destroying]; repeat constructor.
  - by exists [Destroying]; repeat constructor.
  - exists [Running; Destroying]; repeat constructor.
  - exists [Stopped; Destroying]; repeat constructor.
  - by exists [Destroying]; repeat constructor.
  - exists [Running; Destroying]; repeat constructor.
  - exists [Running; Destroying]; repeat constructor.
  - by exists [Destroying]; repeat constructor.
  - by exists []; repeat constructor.
Qed.

Lemma path_rtc s l t : Forall2 sandbox_step (s :: l) (l ++ [t]) → rtc sandbox_step s t.
Proof.
  revert s. induction l as [|x l IH]; intros s H; simpl in H.
  - apply Forall2_cons in H as [H _]. by apply rtc_once.
  - apply Forall2_cons in H as [H H']. eapply rtc_l; eauto.
Qed.

(** Quarantine is the one dead end of the sandbox lifecycle: a machine can be
    brought to [Destroyed] by legal transitions from every state except
    [Quarantined], which no transition leaves; and every machine that is neither
    contained nor on its way out can be contained in one step. *)
Theorem quarantine_is_the_only_dead_end (s : SandboxState) :
  (rtc sandbox_step s Destroyed ↔ s ≠ Quarantined)
  ∧ (∀ t, rtc sandbox_step Quarantined t → t = Quarantined)
  ∧ (sandbox_step s Quarantined ↔ containable s = true).
Proof.
  assert (Hq : ∀ t, rtc sandbox_step Quarantined t → t = Quarantined).
  { intros t Ht. inversion Ht; subst; [done|]. by exfalso; eapply quarantined_stuck. }
  split_and!; [split|exact Hq|apply step_quarantined].
  - intros Hr ->. by apply Hq in Hr.
  - intros Hs. destruct (decide (s = Destroyed)) as [->|Hd]; [done|].
    destruct (step_closer_to_destroyed s Hs Hd) as (l & Hl & _). by apply (path_rtc s l).
Qed.

End Sandboxes.

(** ** Run states ([aiec-core/src/run.rs]) *)
Module Runs.

Inductive RunState :=
| Queued | Preparing | Running | Validating | Collecting | Succeeded | Failed | Cancelled.

#[global] Instance RunState_eq_dec : EqDecision RunState.
Proof. solve_decision. Defined.

Definition as_str (s : RunState) : string :=
  match s with
  | Queued => "queued"
  | Preparing => "preparing"
  | Running => "running"
  | Validating => "validating"
  | Collecting => "collecting"
  | Succeeded => "succeeded"
  | Failed => "failed"
  | Cancelled => "cancelled"
  end.

Definition parse (raw : string) : option RunState :=
  if decide (raw = "queued") then Some Queued
  else if decide (raw = "preparing") then Some Preparing
  else if decide (raw = "running") then Some Running
  else if decide (raw = "validating") then Some Validating
  else if decide (raw = "collecting") then Some Collecting
  else if decide (raw = "succeeded") then Some Succeeded
  else if decide (raw = "failed") then Some Failed
  else if decide (raw = "cancelled") then Some Cancelled
  else None.

Definition is_active (s : RunState) : bool :=
  match s with
  | Queued | Preparing | Running | Validating | Collecting => true
  | _ => false
  end.

Definition is_terminal (s : RunState) : bool := negb (is_active s).

Definition can_transition_to (self next : RunState) : bool :=
  if decide (next = Cancelled) then is_active self
  else
    match self, next with
    | Queued, (Preparing | Failed)
    | Preparing, (Running | Validating | Failed)
    | Running, (Preparing | Validating | Collecting | Failed)
    | Validating, (Preparing | Collecting | Failed)
    | Collecting, (Preparing | Succeeded | Failed) => true
    | _, _ => false
    end.

Definition run_step (s t : RunState) : Prop := can_transition_to s t = true.

(** A history is the list of states a run went through, oldest first. *)
Fixpoint history (s : RunState) (l : list RunState) : Prop :=
  match l with
  | [] => True
  | t :: l => run_step s t ∧ history t l
  end.

Lemma terminal_stuck s t : is_terminal s = true → ¬ run_step s t.
Proof. by destruct s, t. Qed.

Lemma active_cancellable s : is_active s = true → run_step s Cancelled.
Proof. by destruct s. Qed.

(** Where a history that ended in success must have been. *)
Lemma history_visits s l :
  history s l → last (s :: l) = Some Succeeded → s ≠ Succeeded →
  Collecting ∈ s :: l ∧ (s = Queued → Preparing ∈ l).
Proof.
  revert s. induction l as [|t l IH]; intros s Hh Hl Hs; [by simplify_eq/=|].
  destruct Hh as [Hst Hh]. change (last (t :: l) = Some Succeeded) in Hl.
  destruct (decide (t = Succeeded)) as [->|Ht].
  - split; [|intros ->; by destruct l]. destruct s; try done. left.
  - destruct (IH t Hh Hl Ht) as [Hc Hp]. split; [by right|].
    intros ->. destruct t; try done; [by left| |];
      (destruct l as [|u l]; [done|]; destruct Hh as [Hh _]; by destruct u).
Qed.

Lemma parse_as_str s : parse (as_str s) = Some s.
Proof. by destruct s. Qed.

Inductive RetentionPolicy := Destroy | KeepOnFailure | KeepAlways.

#[global] Instance RetentionPolicy_eq_dec : EqDecision RetentionPolicy.
Proof. solve_decision. Defined.

Definition retention_as_str (r : RetentionPolicy) : string :=
  match r with
  | Destroy => "destroy"
  | KeepOnFailure => "keep_on_failure"
  | KeepAlways => "keep_always"
  end.

Definition retention_parse (raw : string) : option RetentionPolicy :=
  if decide (raw = "destroy") then Some Destroy
  else if decide (raw = "keep_on_failure") then Some KeepOnFailure
  else if decide (raw = "keep_always") then Some KeepAlways
  else None.

Definition should_retain (r : RetentionPolicy) (succeeded : bool) : bool :=
  match r with
  | Destroy => false
  | KeepOnFailure => negb succeeded
  | KeepAlways => true
  end.

(** The predicates of [Run] read only these two fields. *)
Record RunCleanup := { state : RunState; retained_until : option Instant }.

Definition needs_cleanup (r : RunCleanup) : bool :=
  is_terminal r.(state) && bool_decide (r.(retained_until) = None).

Definition retention_expired (r : RunCleanup) (now : Instant) : bool :=
  match r.(retained_until) with Some until => until <=? now | None => false end.

(** A run that ends in success from [Queued] was prepared and collected, every
    state it passed before the last was active, and it left no terminal state:
    cancellation is possible up to the end and impossible afterwards. *)
Theorem success_was_prepared_and_collected (l : list RunState) :
  history Queued l → last l = Some Succeeded →
  Preparing ∈ l ∧ Collecting ∈ l
  ∧ ∀ l1 s l2, Queued :: l = l1 ++ s :: l2 →
      (is_active s = true ↔ l2 ≠ []) ∧ (is_active s = true → run_step s Cancelled).
Proof.
  intros Hh Hl. assert (Hl' : last (Queued :: l) = Some Succeeded) by (by destruct l).
  destruct (history_visits _ _ Hh Hl') as [Hc Hp]; [done|].
  split_and!; [by apply Hp|by apply elem_of_cons in Hc as [?|?]|].
  intros l1 s l2 Heq. split; [|apply active_cancellable].
  destruct l2 as [|t l2].
  - rewrite Heq, last_snoc in Hl'. by simplify_eq.
  - split; [done|]. intros _. destruct (is_active s) eqn:Ha; [done|]. exfalso.
    assert (Hst : run_step s t); [|eapply terminal_stuck; [|exact Hst]; unfold is_terminal; by rewrite Ha].
    clear -Hh Heq. revert l1 Heq Hh. generalize Queued. induction l as [|u l IH]; intros q l1 Heq Hh.
    + by destruct l1 as [|? []].
    + destruct Hh as [Hqu Hh]. destruct l1 as [|? l1]; simplify_eq/=; [done|]. by eapply IH.
Qed.

Lemma success_was_prepared_and_collected_witness :
  let l := [Preparing; Running; Preparing; Running; Validating; Collecting; Succeeded] in
  Preparing ∈ l ∧ Collecting ∈ l.
Proof.
  intros l. destruct (success_was_prepared_and_collected l) as (? & ? & _);
    [by repeat split|reflexivity|]. by split.
Defined.

(** The stored spelling of a run state and its parser are inverse: a string
    parses to a state exactly when it is that state's spelling. *)
Theorem run_state_parse_exact (raw : string) (s : RunState) :
  parse raw = Some s ↔ raw = as_str s.
Proof.
  split; [|intros ->; apply parse_as_str].
  unfold parse. intros H. repeat case_decide; by simplify_eq.
Qed.

End Runs.

(** ** Tenant quota ([aiec-core/src/lib.rs]) *)
Module Quota.

Record QuotaLimits := {
  max_active_sandboxes : Z; max_vcpus : Z; max_memory_mb : Z; max_disk_mb : Z }.

Record QuotaUsage := { active_sandboxes : Z; vcpus : Z; memory_mb : Z; disk_mb : Z }.

Definition no_usage : QuotaUsage :=
  {| active_sandboxes := 0; vcpus := 0; memory_mb := 0; disk_mb := 0 |}.

(** The shape of a sandbox the quota reads: [cpu], [memory_mb] and [disk_mb] are
    [u32] fields, widened to [u64] where the total is one. *)
Record Shape := { cpu : Z; s_memory_mb : Z; s_disk_mb : Z }.

Definition add_sandbox (u : QuotaUsage) (s : Shape) : option QuotaUsage :=
  a ← checked_add u32_max u.(active_sandboxes) 1;
  v ← checked_add u32_max u.(vcpus) s.(cpu);
  m ← checked_add u64_max u.(memory_mb) s.(s_memory_mb);
  d ← checked_add u64_max u.(disk_mb) s.(s_disk_mb);
  Some {| active_sandboxes := a; vcpus := v; memory_mb := m; disk_mb := d |}.

Definition exceeds (u : QuotaUsage) (l : QuotaLimits) : bool :=
  (l.(max_active_sandboxes) <? u.(active_sandboxes))
  || (l.(max_vcpus) <? u.(vcpus))
  || (l.(max_memory_mb) <? u.(memory_mb))
  || (l.(max_disk_mb) <? u.(disk_mb)).

(** The usage of a set of sandboxes, as the running total of [checked_add]. *)
Definition usage_of (ss : list Shape) : option QuotaUsage :=
  foldl (λ u s, u ≫= λ u, add_sandbox u s) (Some no_usage) ss.

Definition total (f : Shape → Z) (ss : list Shape) : Z := foldr (λ s n, f s + n) 0 ss.

Lemma total_app f ss s : total f (ss ++ [s]) = total f ss + f s.
Proof. unfold total. induction ss as [|x ss IH]; simpl in *; lia. Qed.

Lemma usage_of_exact ss u :
  usage_of ss = Some u →
  u = {| active_sandboxes := Z.of_nat (length ss); vcpus := total cpu ss;
         memory_mb := total s_memory_mb ss; disk_mb := total s_disk_mb ss |}.
Proof.
  revert u. induction ss as [|s ss IH] using rev_ind; intros u; [by intros [= <-]|].
  unfold usage_of. rewrite foldl_app. simpl. fold (usage_of ss).
  destruct (usage_of ss) as [u'|]; [|done]. rewrite (IH u' eq_refl). simpl.
  unfold add_sandbox, checked_add. intros H. repeat (case_match; simplify_eq/=).
  rewrite length_app, !total_app. simpl. f_equal; lia.
Qed.

(** The quota total is exact: when the running total of a tenant's sandboxes is
    accepted, each of its numbers is the true sum and no addition wrapped; and it
    is refused exactly when a true sum leaves its machine width at some prefix. *)
Theorem quota_usage_exact (ss : list Shape) :
  Forall (λ s, 0 ≤ s.(cpu) ∧ 0 ≤ s.(s_memory_mb) ∧ 0 ≤ s.(s_disk_mb)) ss →
  usage_of ss =
    if decide (Z.of_nat (length ss) ≤ u32_max ∧ total cpu ss ≤ u32_max
               ∧ total s_memory_mb ss ≤ u64_max ∧ total s_disk_mb ss ≤ u64_max)
    then Some {| active_sandboxes := Z.of_nat (length ss); vcpus := total cpu ss;
                 memory_mb := total s_memory_mb ss; disk_mb := total s_disk_mb ss |}
    else None.
Proof.
  induction ss as [|s ss IH] using rev_ind; intros Hss.
  { rewrite decide_True; [done|]. unfold u32_max, u64_max; simpl; lia. }
  apply Forall_app in Hss as [Hss [Hs _]%Forall_cons]. specialize (IH Hss).
  unfold usage_of in *. rewrite foldl_app. simpl. rewrite IH, length_app, !total_app. simpl.
  case_decide as Hd; simpl.
  - unfold add_sandbox, checked_add. simpl.
    repeat (case_match; simpl); case_decide; try lia; try done. f_equal. f_equal; lia.
  - case_decide; [lia|done].
Qed.

Lemma quota_usage_exact_witness :
  usage_of [ {| cpu := 2; s_memory_mb := 512; s_disk_mb := 1024 |};
             {| cpu := 1; s_memory_mb := 256; s_disk_mb := 2048 |} ]
  = Some {| active_sandboxes := 2; vcpus := 3; memory_mb := 768; disk_mb := 3072 |}.
Proof.
  etransitivity; [apply quota_usage_exact; repeat constructor; simpl; lia|reflexivity].
Defined.

End Quota.
