(* ===== verification/Runtime.v ===== *)
(** * Runtime: capability matching and runtime selection

    [crates/aiec-core/src/runtime.rs] ([RuntimeCapabilities],
    [capabilities_satisfy], [RuntimeRegistry]), the run-side demand of
    [crates/aiec-core/src/run.rs] ([CapabilityRequirements]) and the mapping
    between the two in [crates/aiec-api/src/runs.rs].

    A registered runtime is a trait object; selection reads only what it
    advertises and whether it is healthy, so those two answers are its model. *)

From Stdlib Require Import Btauto.
From S2P Require Import Prelude Lifecycle.
Import Sandboxes.

Inductive RuntimeIsolation := Process | Container | MicroVm | FullVm.

#[global] Instance RuntimeIsolation_eq_dec : EqDecision RuntimeIsolation.
Proof. solve_decision. Defined.

Record RuntimeCapabilities := {
  isolation : RuntimeIsolation;
  exec : bool; files : bool; streaming : bool; pty : bool; docker_image : bool;
  guest_agent : bool; full_kernel_isolation : bool; portable_workspace : bool;
  vm_snapshot : bool; memory_resume : bool; network_policy : bool; gpu : bool;
  pause : bool; pause_reclaims_resources : bool; workspace_snapshot : bool;
  vsock : bool; coding_guest : bool; minimum_disk_mb : Z }.

(** [RuntimeCapabilities::default()]. *)
Definition no_capabilities : RuntimeCapabilities := {|
  isolation := Process;
  exec := false; files := false; streaming := false; pty := false; docker_image := false;
  guest_agent := false; full_kernel_isolation := false; portable_workspace := false;
  vm_snapshot := false; memory_resume := false; network_policy := false; gpu := false;
  pause := false; pause_reclaims_resources := false; workspace_snapshot := false;
  vsock := false; coding_guest := false; minimum_disk_mb := 0 |}.

Definition isolation_rank (i : RuntimeIsolation) : Z :=
  match i with Process => 0 | Container => 1 | MicroVm => 2 | FullVm => 3 end.

Definition capabilities_satisfy (actual required : RuntimeCapabilities)
    (minimum : option RuntimeIsolation) : bool :=
  (negb required.(exec) || actual.(exec))
  && (negb required.(files) || actual.(files))
  && (negb required.(streaming) || actual.(streaming))
  && (negb required.(pty) || actual.(pty))
  && (negb required.(docker_image) || actual.(docker_image))
  && (negb required.(guest_agent) || actual.(guest_agent))
  && (negb required.(coding_guest) || actual.(coding_guest))
  && (negb required.(full_kernel_isolation) || actual.(full_kernel_isolation))
  && (negb required.(portable_workspace) || actual.(portable_workspace))
  && (negb required.(vm_snapshot) || actual.(vm_snapshot))
  && (negb required.(memory_resume) || actual.(memory_resume))
  && (negb required.(network_policy) || actual.(network_policy))
  && (negb required.(pause) || actual.(pause))
  && (negb required.(workspace_snapshot) || actual.(workspace_snapshot))
  && match minimum with
     | None => true
     | Some m => isolation_rank m <=? isolation_rank actual.(isolation)
     end.

(** ** What a run demands *)
Record CapabilityRequirements := {
  r_full_kernel_isolation : bool; r_coding_guest : bool; r_network_policy : bool;
  r_workspace_snapshot : bool; r_portable_workspace : bool; r_memory_resume : bool;
  r_pty : bool; r_pause : bool }.

Definition satisfied_by (self : CapabilityRequirements) (c : RuntimeCapabilities) : bool :=
  (negb self.(r_full_kernel_isolation) || c.(full_kernel_isolation))
  && (negb self.(r_coding_guest) || c.(coding_guest))
  && (negb self.(r_network_policy) || c.(network_policy))
  && (negb self.(r_workspace_snapshot) || c.(vm_snapshot))
  && (negb self.(r_portable_workspace) || c.(portable_workspace))
  && (negb self.(r_memory_resume) || c.(memory_resume))
  && (negb self.(r_pty) || c.(pty))
  && (negb self.(r_pause) || c.(pause)).

Definition reasons (self : CapabilityRequirements) : list string :=
  (if self.(r_full_kernel_isolation) then ["full kernel isolation required"%string] else [])
  ++ (if self.(r_coding_guest) then ["coding guest required"%string] else [])
  ++ (if self.(r_network_policy) then ["network policy required"%string] else [])
  ++ (if self.(r_workspace_snapshot) then ["workspace snapshots required"%string] else [])
  ++ (if self.(r_portable_workspace) then ["portable workspace required"%string] else [])
  ++ (if self.(r_memory_resume) then ["memory resume required"%string] else [])
  ++ (if self.(r_pty) then ["pty required"%string] else [])
  ++ (if self.(r_pause) then ["pause required"%string] else []).

Definition required_capabilities (r : CapabilityRequirements) : RuntimeCapabilities := {|
  isolation := if r.(r_full_kernel_isolation) then MicroVm else Process;
  exec := true;
  files := true;
  full_kernel_isolation := r.(r_full_kernel_isolation);
  coding_guest := r.(r_coding_guest);
  network_policy := r.(r_network_policy);
  workspace_snapshot := r.(r_workspace_snapshot);
  portable_workspace := r.(r_portable_workspace);
  memory_resume := r.(r_memory_resume);
  pty := r.(r_pty);
  pause := r.(r_pause);
  streaming := false; docker_image := false; guest_agent := false; vm_snapshot := false;
  gpu := false; pause_reclaims_resources := false; vsock := false; minimum_disk_mb := 0 |}.

(** ** The registry *)
Record SandboxRuntime := { capabilities : RuntimeCapabilities; healthy : bool }.

Abbreviation RuntimeRegistry := (list (RuntimeKind * SandboxRuntime)) (only parsing).

(** [register] replaces the entry of that kind in place, or appends one. *)
Fixpoint register (kind : RuntimeKind) (rt : SandboxRuntime) (entries : RuntimeRegistry)
    : RuntimeRegistry :=
  match entries with
  | [] => [(kind, rt)]
  | (existing, old) :: rest =>
      if decide (existing = kind) then (existing, rt) :: rest
      else (existing, old) :: register kind rt rest
  end.

Fixpoint lookup_runtime (entries : RuntimeRegistry) (kind : RuntimeKind)
    : option SandboxRuntime :=
  match entries with
  | [] => None
  | (existing, rt) :: rest =>
      if decide (existing = kind) then Some rt else lookup_runtime rest kind
  end.

Inductive SelectError := RuntimeUnavailable | RuntimeUnsupported.

(** The candidate order: the strongest boundary first when one was demanded. *)
Definition preference (minimum : option RuntimeIsolation) : list RuntimeKind :=
  match minimum with
  | Some MicroVm | Some FullVm => [Firecracker; Hosted; Docker; BwrapDev]
  | _ => [Docker; Firecracker; Hosted; BwrapDev]
  end.

Fixpoint first_capable (entries : RuntimeRegistry) (required : RuntimeCapabilities)
    (minimum : option RuntimeIsolation) (order : list RuntimeKind)
    : option (RuntimeKind * RuntimeCapabilities) :=
  match order with
  | [] => None
  | kind :: order =>
      match lookup_runtime entries kind with
      | None => first_capable entries required minimum order
      | Some rt =>
          if negb rt.(healthy) then first_capable entries required minimum order
          else if capabilities_satisfy rt.(capabilities) required minimum
          then Some (kind, rt.(capabilities))
          else first_capable entries required minimum order
      end
  end.

Definition select (entries : RuntimeRegistry) (requested : option RuntimeKind)
    (required : RuntimeCapabilities) (minimum : option RuntimeIsolation)
    : result SelectError (RuntimeKind * RuntimeCapabilities) :=
  match requested with
  | Some kind =>
      let? rt := ok_or (lookup_runtime entries kind) RuntimeUnavailable in
      bail_if negb (capabilities_satisfy rt.(capabilities) required minimum)
        with RuntimeUnsupported;
      Ok (kind, rt.(capabilities))
  | None =>
      ok_or (first_capable entries required minimum (preference minimum)) RuntimeUnavailable
  end.

(** ** Lemmas *)

Lemma lookup_register_eq entries kind rt :
  lookup_runtime (register kind rt entries) kind = Some rt.
Proof. induction entries as [|[k old] rest IH]; simpl; repeat (case_decide; simpl); done. Qed.

Lemma lookup_register_ne entries kind kind' rt :
  kind ≠ kind' → lookup_runtime (register kind rt entries) kind' = lookup_runtime entries kind'.
Proof.
  intros. induction entries as [|[k old] rest IH]; simpl;
    repeat (case_decide; simplify_eq/=; try done).
Qed.

(** A kind the selection must pass over. *)
Definition passed_over (entries : RuntimeRegistry) (required : RuntimeCapabilities)
    (minimum : option RuntimeIsolation) (k : RuntimeKind) : Prop :=
  ∀ rt, lookup_runtime entries k = Some rt → rt.(healthy) = true →
    capabilities_satisfy rt.(capabilities) required minimum = false.

Lemma first_capable_Some entries required minimum order k c :
  first_capable entries required minimum order = Some (k, c) →
  ∃ l1 l2 rt, order = l1 ++ k :: l2 ∧ lookup_runtime entries k = Some rt
    ∧ rt.(healthy) = true ∧ c = rt.(capabilities)
    ∧ capabilities_satisfy c required minimum = true
    ∧ Forall (passed_over entries required minimum) l1.
Proof.
  induction order as [|k' order IH]; simpl; [done|]. intros H.
  assert (first_capable entries required minimum order = Some (k, c)
          ∧ passed_over entries required minimum k'
          ∨ ∃ rt, k = k' ∧ lookup_runtime entries k = Some rt ∧ rt.(healthy) = true
              ∧ c = rt.(capabilities) ∧ capabilities_satisfy c required minimum = true)
    as [[H' Hp]|(rt & -> & ?)].
  { unfold passed_over. destruct (lookup_runtime entries k') as [rt|] eqn:Hk; [|by left].
    destruct (healthy rt) eqn:Hh; simpl in H; [|left; split; congruence].
    destruct (capabilities_satisfy (capabilities rt) required minimum) eqn:Hc.
    - simplify_eq. right. by exists rt.
    - left. split; [done|]. intros; congruence. }
  - destruct (IH H') as (l1 & l2 & rt & -> & Hrt). exists (k' :: l1), l2, rt.
    destruct_and!. split_and!; try done. by constructor.
  - exists [], order, rt. by destruct_and!.
Qed.

Lemma first_capable_None entries required minimum order :
  first_capable entries required minimum order = None →
  Forall (passed_over entries required minimum) order.
Proof.
  induction order as [|k order IH]; simpl; intros H; constructor.
  - intros rt Hk Hh. rewrite Hk, Hh in H. simpl in H.
    by destruct (capabilities_satisfy _ _ _).
  - apply IH. by repeat case_match.
Qed.

Lemma preference_complete minimum k : k ∈ preference minimum.
Proof.
  apply (bool_decide_unpack _). destruct minimum as [[]|], k; reflexivity.
Qed.

Lemma satisfy_rank actual required m :
  capabilities_satisfy actual required (Some m) = true →
  isolation_rank m ≤ isolation_rank actual.(isolation).
Proof. unfold capabilities_satisfy. intros H. bools. lia. Qed.

(** ** Theorems *)

(** Runtime selection is sound and complete.  A selected runtime is registered,
    advertises every capability asked for and at least the demanded isolation;
    when the caller named none it is also healthy, and every kind preferred to it
    is absent, unhealthy or insufficient.  Selection fails only when no registered,
    healthy runtime would do, or when the one the caller named would not. *)
Theorem select_sound_and_complete entries requested required minimum :
  match select entries requested required minimum with
  | Ok (k, c) =>
      (∃ rt, lookup_runtime entries k = Some rt ∧ c = rt.(capabilities)
         ∧ (requested = None → rt.(healthy) = true))
      ∧ capabilities_satisfy c required minimum = true
      ∧ (∀ m, minimum = Some m → isolation_rank m ≤ isolation_rank c.(isolation))
      ∧ match requested with
        | Some k' => k = k'
        | None => ∃ l1 l2, preference minimum = l1 ++ k :: l2
                    ∧ Forall (passed_over entries required minimum) l1
        end
  | Err e =>
      match requested with
      | Some k => ∀ rt, lookup_runtime entries k = Some rt →
                    capabilities_satisfy rt.(capabilities) required minimum = false
                    ∧ e = RuntimeUnsupported
      | None => e = RuntimeUnavailable ∧ ∀ k, passed_over entries required minimum k
      end
  end.
Proof.
  assert (Hrank : ∀ c m, capabilities_satisfy c required minimum = true →
            minimum = Some m → isolation_rank m ≤ isolation_rank c.(isolation))
    by (intros ?? Hs ->; by eapply satisfy_rank).
  unfold select. destruct requested as [k|].
  - destruct (lookup_runtime entries k) as [rt|] eqn:Hk; simpl; [|by intros].
    destruct (capabilities_satisfy (capabilities rt) required minimum) eqn:Hs; simpl.
    + split_and!; [by exists rt|done|eauto|done].
    + intros rt' ?. by simplify_eq.
  - destruct (first_capable _ _ _ _) as [[k c]|] eqn:Hf; simpl.
    + apply first_capable_Some in Hf as (l1 & l2 & rt & Ho & Hk & Hh & -> & Hs & Hp).
      split_and!; [by exists rt|done|eauto|by exists l1, l2].
    + apply first_capable_None in Hf. split; [done|]. intros k.
      by eapply Forall_forall; [exact Hf|apply preference_complete].
Qed.

(** The two ways the code has of asking whether a runtime meets a run's
    requirements agree, for a runtime that can execute and move files, exactly up
    to workspace snapshots: placement asks for [workspace_snapshot], while
    [CapabilityRequirements::satisfied_by] asks for [vm_snapshot], so it refuses
    any runtime that offers the former without the latter. *)
Theorem satisfied_by_differs_only_on_snapshots (r : CapabilityRequirements) (c : RuntimeCapabilities) :
  c.(exec) = true → c.(files) = true →
  (satisfied_by r c ≠ capabilities_satisfy c (required_capabilities r) None →
   r.(r_workspace_snapshot) = true ∧ c.(vm_snapshot) ≠ c.(workspace_snapshot))
  ∧ (r.(r_workspace_snapshot) = true → c.(vm_snapshot) = false → satisfied_by r c = false).
Proof.
  intros He Hf. unfold satisfied_by, capabilities_satisfy, required_capabilities. simpl.
  rewrite He, Hf. split.
  - intros Hne. destruct (r_workspace_snapshot r), (vm_snapshot c), (workspace_snapshot c);
      try done; exfalso; apply Hne; simpl; btauto.
  - intros -> ->. simpl. by rewrite !andb_false_r.
Qed.

(** A runtime that copies workspaces but cannot snapshot a machine. *)
Definition container_runtime : RuntimeCapabilities := {|
  isolation := Container;
  exec := true; files := true; streaming := true; pty := false; docker_image := true;
  guest_agent := false; full_kernel_isolation := false; portable_workspace := true;
  vm_snapshot := false; memory_resume := false; network_policy := false; gpu := false;
  pause := true; pause_reclaims_resources := false; workspace_snapshot := true;
  vsock := false; coding_guest := false; minimum_disk_mb := 0 |}.

Definition wants_snapshots : CapabilityRequirements := {|
  r_full_kernel_isolation := false; r_coding_guest := false; r_network_policy := false;
  r_workspace_snapshot := true; r_portable_workspace := false; r_memory_resume := false;
  r_pty := false; r_pause := false |}.

Lemma satisfied_by_differs_only_on_snapshots_witness :
  capabilities_satisfy container_runtime (required_capabilities wants_snapshots) None = true
  ∧ satisfied_by wants_snapshots container_runtime = false.
Proof.
  split; [reflexivity|].
  by apply (satisfied_by_differs_only_on_snapshots wants_snapshots container_runtime).
Defined.
