(* ===== verification/Preview.v ===== *)
(** * Preview: the bounded evidence one run stores

    [crates/aiec-core/src/run.rs]: [clip_stream], [clip_output],
    [PreviewBudget::clip] and [bound_git_evidence], with the byte ceilings they
    are called with, and [crates/aiec-api/src/runs.rs]: [post_placement], the body
    of one attempt, which spends those ceilings phase by phase.  A text is its list of UTF-8 bytes, because every cut here is
    a byte offset; offsets and lengths are [Z].

    The scans of [floor_boundary] and [ceil_boundary] are loops over a byte
    offset.  Their fuel is the number of offsets left before the scan meets an end
    of the text, which is always a character boundary; [floor_scan_boundary] and
    [ceil_scan_boundary] prove the fuel is enough. *)

From S2P Require Import Prelude Lifecycle.
Import Runs.

Abbreviation text := (list Z) (only parsing).

Definition blen (t : text) : Z := Z.of_nat (length t).

(** ** Ceilings *)
Definition MAX_SETUP_COMMANDS : Z := 32.
Definition MAX_VALIDATION_COMMANDS : Z := 32.
Definition MAX_ARTIFACTS : Z := 64.
Definition MAX_SETUP_COMMAND_PREVIEW_BYTES : Z := 1024.
Definition MAX_VALIDATION_COMMAND_PREVIEW_BYTES : Z := 1024.
Definition MAX_SETUP_PREVIEW_BYTES : Z := MAX_SETUP_COMMANDS * MAX_SETUP_COMMAND_PREVIEW_BYTES.
Definition MAX_VALIDATION_PREVIEW_BYTES : Z :=
  MAX_VALIDATION_COMMANDS * MAX_VALIDATION_COMMAND_PREVIEW_BYTES.
Definition MAX_TASK_PREVIEW_BYTES : Z := 128 * 1024.
Definition MAX_GIT_EVIDENCE_BYTES : Z := 64 * 1024.
Definition MAX_RESULTS_PREVIEW_BYTES : Z :=
  MAX_SETUP_PREVIEW_BYTES + MAX_VALIDATION_PREVIEW_BYTES
  + MAX_TASK_PREVIEW_BYTES + MAX_GIT_EVIDENCE_BYTES.

(** ** Clipping one stream *)

(** ["\n[...]\n"]. *)
Definition PREVIEW_ELISION : text := [10; 91; 46; 46; 46; 93; 10].

Definition is_continuation (b : Z) : bool := (128 <=? b) && (b <? 192).

(** [str::is_char_boundary]. *)
Definition is_char_boundary (t : text) (i : Z) : bool :=
  if i =? 0 then true
  else
    match t !! Z.to_nat i with
    | None => i =? blen t
    | Some b => negb (is_continuation b)
    end.

Fixpoint floor_scan (fuel : nat) (t : text) (i : Z) : Z :=
  if is_char_boundary t i then i
  else match fuel with O => i | S fuel => floor_scan fuel t (i - 1) end.

Definition floor_boundary (t : text) (i : Z) : text :=
  take (Z.to_nat (floor_scan (Z.to_nat i) t i)) t.

Fixpoint ceil_scan (fuel : nat) (t : text) (i : Z) : Z :=
  if is_char_boundary t i then i
  else match fuel with O => i | S fuel => ceil_scan fuel t (i + 1) end.

Definition ceil_boundary (t : text) (i : Z) : Z := ceil_scan (Z.to_nat (blen t - i)) t i.

Definition clip_stream (t : text) (cap : Z) : text :=
  if blen t <=? cap then t
  else
    let room := saturating_sub cap (blen PREVIEW_ELISION) in
    if room <? 8 then floor_boundary t cap
    else
      let head := floor_boundary t (room / 2) in
      let tail_start := ceil_boundary t (blen t - (room - room / 2)) in
      if tail_start <=? blen head then floor_boundary t cap
      else head ++ PREVIEW_ELISION ++ drop (Z.to_nat tail_start) t.

(** ** Clipping one command *)
Definition clip_output (stdout stderr : text) (budget : Z) : text * text * bool :=
  if blen stdout + blen stderr <=? budget then (stdout, stderr, false)
  else
    let stdout_cap := Z.min (blen stdout) (budget / 2) in
    let stderr_cap := Z.min (blen stderr) (budget - stdout_cap) in
    let spare := budget - stdout_cap - stderr_cap in
    let '(stdout_cap, stderr_cap) :=
      if stdout_cap <? blen stdout
      then (stdout_cap + Z.min spare (blen stdout - stdout_cap), stderr_cap)
      else (stdout_cap, stderr_cap + Z.min spare (blen stderr - stderr_cap)) in
    (clip_stream stdout stdout_cap, clip_stream stderr stderr_cap, true).

Record CommandOutcome := {
  command : list text; exit_code : Z; stdout : text; stderr : text; duration_ms : Z;
  truncated : bool; output_preview_truncated : bool; ok : bool }.

Record PreviewBudget := { remaining : Z }.

Definition clip (self : PreviewBudget) (o : CommandOutcome) (per_command : Z)
    : PreviewBudget * CommandOutcome :=
  let cap := Z.min per_command self.(remaining) in
  let '(out, err, tr) := clip_output o.(stdout) o.(stderr) cap in
  let o' := {| command := o.(command); exit_code := o.(exit_code); stdout := out; stderr := err;
               duration_ms := o.(duration_ms); truncated := o.(truncated);
               output_preview_truncated := o.(output_preview_truncated) || tr;
               ok := o.(ok) |} in
  ({| remaining := saturating_sub self.(remaining) (blen out + blen err) |}, o').

(** ** The phases of a run

    The outcome of each command is what [run_command] answered, [None] when it
    failed with an error; a phase stops at an error, and setup also stops at the
    first command that is not [ok].  The boolean says whether the phase ran to its
    end. *)
Fixpoint setup_phase (budget : PreviewBudget) (answers : list (option CommandOutcome))
    : list CommandOutcome * bool :=
  match answers with
  | [] => ([], true)
  | None :: _ => ([], false)
  | Some outcome :: answers =>
      let '(budget, outcome) := clip budget outcome MAX_SETUP_COMMAND_PREVIEW_BYTES in
      if negb outcome.(ok) then ([outcome], false)
      else let '(rest, done) := setup_phase budget answers in (outcome :: rest, done)
  end.

Fixpoint validation_phase (budget : PreviewBudget) (answers : list (option CommandOutcome))
    : list CommandOutcome * bool :=
  match answers with
  | [] => ([], true)
  | None :: _ => ([], false)
  | Some outcome :: answers =>
      let '(budget, outcome) := clip budget outcome MAX_VALIDATION_COMMAND_PREVIEW_BYTES in
      let '(rest, done) := validation_phase budget answers in (outcome :: rest, done)
  end.

(** ** Git evidence *)
Record GitEvidencePreview := {
  status : text; diff : text; changed_files : list text; git_truncated : bool }.

(** The path loop: kept paths, bytes used, and whether the list was cut. *)
Fixpoint keep_paths (share used : Z) (paths : list text) : list text * Z * bool :=
  match paths with
  | [] => ([], used, false)
  | p :: paths =>
      if share <? used + blen p then ([], used, true)
      else
        let '(kept, used', cut) := keep_paths share (used + blen p) paths in
        (p :: kept, used', cut)
  end.

Definition bound_git_evidence (st df : text) (files : list text) : GitEvidencePreview :=
  let share := MAX_GIT_EVIDENCE_BYTES / 4 in
  let '(st', _, status_clipped) := clip_output st [] share in
  let '(kept, used, paths_clipped) := keep_paths share 0 files in
  let '(df', _, diff_clipped) :=
    clip_output df [] (saturating_sub MAX_GIT_EVIDENCE_BYTES (blen st' + used)) in
  {| status := st'; diff := df'; changed_files := kept;
     git_truncated := status_clipped || paths_clipped || diff_clipped |}.

(** ** One attempt ([aiec-api/src/runs.rs]) *)
Record RunArtifactRef := {
  name : text; object_key : text; size_bytes : Z;
  checksum_sha256 : option text; content_type : option text }.

(** The evidence [post_placement] leaves in [RunResults]. *)
Record RunResults := {
  setup : list CommandOutcome; task : option CommandOutcome;
  validations : list CommandOutcome; git : option GitEvidencePreview;
  artifacts : list RunArtifactRef }.

Definition no_results : RunResults :=
  {| setup := []; task := None; validations := []; git := None; artifacts := [] |}.

(** What the environment answers to the calls of [post_placement]: the runtime
    lookup, each [advance] (whether the store moved the run to that state), each
    command, the git evidence ([None] inside when the secrets could not be
    resolved, [None] outside when the workload asked for none), and the artifacts
    with whether collecting them succeeded. *)
Record Answers := {
  runtime_found : bool;
  moved : RunState → bool;
  setup_answers : list (option CommandOutcome);
  task_answer : option CommandOutcome;
  validation_answers : list (option CommandOutcome);
  git_answer : option (option (text * text * list text));
  collected : list RunArtifactRef * bool }.

(** The results so far, the states the run was moved to, and whether the attempt
    is still going; every early return leaves the first two as they are. *)
Record Progress := { results : RunResults; visited : list RunState; going : bool }.

Definition stop (p : Progress) : Progress :=
  {| results := p.(results); visited := p.(visited); going := false |}.

(** [advance]: on success the run is in the state asked for. *)
Definition advance (a : Answers) (next : RunState) (p : Progress) : Progress :=
  if negb p.(going) then p
  else if a.(moved) next
  then {| results := p.(results); visited := p.(visited) ++ [next]; going := true |}
  else stop p.

(** A phase that runs only while no earlier step returned. *)
Definition while_going (p : Progress) (k : RunResults → RunResults * bool) : Progress :=
  if negb p.(going) then p
  else
    let '(r, go) := k p.(results) in
    {| results := r; visited := p.(visited); going := go |}.

Definition do_setup (a : Answers) (r : RunResults) : RunResults * bool :=
  let '(ss, done) := setup_phase {| remaining := MAX_SETUP_PREVIEW_BYTES |} a.(setup_answers) in
  ({| setup := ss; task := r.(task); validations := r.(validations); git := r.(git);
      artifacts := r.(artifacts) |}, done).

Definition do_task (a : Answers) (r : RunResults) : RunResults * bool :=
  match a.(task_answer) with
  | None => (r, false)
  | Some t =>
      let t := snd (clip {| remaining := MAX_TASK_PREVIEW_BYTES |} t MAX_TASK_PREVIEW_BYTES) in
      ({| setup := r.(setup); task := Some t; validations := r.(validations); git := r.(git);
          artifacts := r.(artifacts) |}, true)
  end.

Definition do_validations (a : Answers) (r : RunResults) : RunResults * bool :=
  let '(vs, done) :=
    validation_phase {| remaining := MAX_VALIDATION_PREVIEW_BYTES |} a.(validation_answers) in
  ({| setup := r.(setup); task := r.(task); validations := vs; git := r.(git);
      artifacts := r.(artifacts) |}, done).

Definition do_git (a : Answers) (r : RunResults) : RunResults * bool :=
  match a.(git_answer) with
  | None => (r, true)
  | Some None => (r, false)
  | Some (Some (st, df, files)) =>
      ({| setup := r.(setup); task := r.(task); validations := r.(validations);
          git := Some (bound_git_evidence st df files); artifacts := r.(artifacts) |}, true)
  end.

Definition do_artifacts (a : Answers) (r : RunResults) : RunResults * bool :=
  let '(refs, done) := a.(collected) in
  ({| setup := r.(setup); task := r.(task); validations := r.(validations); git := r.(git);
      artifacts := refs |}, done).

(** [execute] has advanced the run to [Preparing] before it calls
    [post_placement], whose phases follow. *)
Definition started (a : Answers) : Progress :=
  {| results := no_results; visited := []; going := a.(runtime_found) |}.

Definition after_setup (a : Answers) : Progress :=
  match a.(setup_answers) with
  | [] => started a
  | _ :: _ => while_going (advance a Running (started a)) (do_setup a)
  end.

(** [if run.state == RunState::Preparing]. *)
Definition ensure_running (a : Answers) (p : Progress) : Progress :=
  if decide (last (Preparing :: p.(visited)) = Some Preparing) then advance a Running p else p.

Definition after_task (a : Answers) : Progress :=
  while_going (ensure_running a (after_setup a)) (do_task a).

Definition after_validations (a : Answers) : Progress :=
  match a.(validation_answers) with
  | [] => after_task a
  | _ :: _ => while_going (advance a Validating (after_task a)) (do_validations a)
  end.

Definition post_placement (a : Answers) : Progress :=
  while_going (while_going (advance a Collecting (after_validations a)) (do_git a))
    (do_artifacts a).

(** [execute]: the verdict on the attempt. *)
Definition succeeded (p : Progress) : bool :=
  p.(going)
  && match p.(results).(task) with Some t => t.(ok) | None => false end
  && forallb ok p.(results).(validations).

(** ** Specification vocabulary *)

(** UTF-8 as the encoding of a sequence of Unicode scalar values. *)
Definition is_scalar (c : Z) : Prop := 0 ≤ c < 1114112 ∧ ¬ (55296 ≤ c < 57344).

Definition encode_char (c : Z) : text :=
  if c <? 128 then [c]
  else if c <? 2048 then [192 + c / 64; 128 + c mod 64]
  else if c <? 65536 then [224 + c / 4096; 128 + (c / 64) mod 64; 128 + c mod 64]
  else [240 + c / 262144; 128 + (c / 4096) mod 64; 128 + (c / 64) mod 64; 128 + c mod 64].

Definition utf8 (t : text) : Prop :=
  ∃ cs, Forall is_scalar cs ∧ t = concat (encode_char <$> cs).

Definition stored (o : CommandOutcome) : Z := blen o.(stdout) + blen o.(stderr).
Definition sum (l : list Z) : Z := foldr Z.add 0 l.

Definition stored_git (g : GitEvidencePreview) : Z :=
  blen g.(status) + blen g.(diff) + sum (blen <$> g.(changed_files)).

Definition stored_results (r : RunResults) : Z :=
  sum (stored <$> r.(setup)) + from_option stored 0 r.(task)
  + sum (stored <$> r.(validations)) + from_option stored_git 0 r.(git).

(** ** Lemmas: boundaries *)

Lemma blen_app (s t : text) : blen (s ++ t) = blen s + blen t.
Proof. unfold blen. rewrite length_app. lia. Qed.

Lemma blen_nonneg (t : text) : 0 ≤ blen t.
Proof. unfold blen. lia. Qed.

Lemma blen_take (t : text) i : 0 ≤ i → blen (take (Z.to_nat i) t) = Z.min i (blen t).
Proof. unfold blen. rewrite length_take. lia. Qed.

Lemma blen_drop (t : text) i : 0 ≤ i ≤ blen t → blen (drop (Z.to_nat i) t) = blen t - i.
Proof. unfold blen. rewrite length_drop. lia. Qed.

Lemma boundary_at_end t : is_char_boundary t (blen t) = true.
Proof.
  unfold is_char_boundary. case_match; [done|].
  rewrite lookup_ge_None_2; [by rewrite Z.eqb_refl|]. unfold blen. lia.
Qed.

(** The fuel of the downward scan is enough: offset 0 is a boundary. *)
Lemma floor_scan_boundary fuel t i :
  0 ≤ i ≤ Z.of_nat fuel →
  let j := floor_scan fuel t i in 0 ≤ j ≤ i ∧ is_char_boundary t j = true.
Proof.
  revert i. induction fuel as [|fuel IH]; simpl; intros i Hi.
  - assert (i = 0) as -> by lia. change (is_char_boundary t 0) with true. done.
  - destruct (is_char_boundary t i) eqn:Hb; [split; [lia|done]|].
    assert (i ≠ 0) by (intros ->; done).
    destruct (IH (i - 1)) as [? ?]; [lia|]. split; [lia|done].
Qed.

(** The fuel of the upward scan is enough: the end of the text is a boundary. *)
Lemma ceil_scan_boundary fuel t i :
  0 ≤ i ≤ blen t → blen t - i ≤ Z.of_nat fuel →
  let j := ceil_scan fuel t i in i ≤ j ≤ blen t ∧ is_char_boundary t j = true.
Proof.
  revert i. induction fuel as [|fuel IH]; simpl; intros i Hi Hf.
  - assert (i = blen t) as -> by lia. rewrite boundary_at_end. split; [lia|apply boundary_at_end].
  - destruct (is_char_boundary t i) eqn:Hb; [split; [lia|done]|].
    assert (i ≠ blen t) by (intros ->; by rewrite boundary_at_end in Hb).
    destruct (IH (i + 1)) as [? ?]; [lia..|]. split; [lia|done].
Qed.

Lemma ceil_boundary_spec t i :
  0 ≤ i ≤ blen t →
  i ≤ ceil_boundary t i ≤ blen t ∧ is_char_boundary t (ceil_boundary t i) = true.
Proof. intros. apply ceil_scan_boundary; lia. Qed.

Lemma floor_boundary_spec t i :
  0 ≤ i →
  ∃ j, 0 ≤ j ≤ i ∧ is_char_boundary t j = true ∧ floor_boundary t i = take (Z.to_nat j) t.
Proof.
  intros. destruct (floor_scan_boundary (Z.to_nat i) t i) as [? ?]; [lia|].
  by exists (floor_scan (Z.to_nat i) t i).
Qed.

(** ** Lemmas: UTF-8 *)

Lemma utf8_nil : utf8 [].
Proof. by exists []. Qed.

Lemma utf8_app s t : utf8 s → utf8 t → utf8 (s ++ t).
Proof.
  intros (cs & ? & ->) (ds & ? & ->). exists (cs ++ ds).
  split; [by apply Forall_app_2|]. by rewrite fmap_app, concat_app.
Qed.

Lemma utf8_elision : utf8 PREVIEW_ELISION.
Proof.
  exists PREVIEW_ELISION. split; [|reflexivity]. repeat constructor; unfold is_scalar; lia.
Qed.

Lemma continuation_low c : is_continuation (128 + c mod 64) = true.
Proof. unfold is_continuation. pose proof (Z.mod_pos_bound c 64). lia. Qed.

Lemma encode_char_tail c : is_scalar c → Forall (λ b, is_continuation b = true) (tail (encode_char c)).
Proof.
  intros _. unfold encode_char. repeat case_match; simpl;
    repeat constructor; apply continuation_low.
Qed.

Lemma lookup_encode_tail c i b :
  is_scalar c → encode_char c !! S i = Some b → is_continuation b = true.
Proof.
  intros Hc%encode_char_tail. destruct (encode_char c) as [|x l]; [done|]. simpl in *.
  intros Hl. by apply (Forall_lookup_1 _ _ _ _ Hc Hl).
Qed.

(** A text cut at a character boundary is two texts. *)
Lemma utf8_cut t i :
  utf8 t → 0 ≤ i → is_char_boundary t i = true →
  utf8 (take (Z.to_nat i) t) ∧ utf8 (drop (Z.to_nat i) t).
Proof.
  intros (cs & Hcs & ->) Hi Hb. revert i Hi Hb.
  induction Hcs as [|c cs Hc Hcs IH]; intros i Hi Hb; [|rewrite fmap_cons in *; cbn [concat] in *].
  { rewrite fmap_nil. cbn [concat]. rewrite take_nil, drop_nil. split; apply utf8_nil. }
  set (e := encode_char c) in *. set (rest := concat (encode_char <$> cs)) in *.
  assert (He : utf8 e) by (exists [c]; split; [by constructor|]; simpl; by rewrite app_nil_r).
  assert (Hr : utf8 rest) by (by exists cs).
  destruct (Z.eq_dec i 0) as [->|Hi0]; [split; [apply utf8_nil|by apply utf8_app]|].
  destruct (Z_lt_le_dec i (blen e)) as [Hlt|Hge].
  - exfalso. unfold is_char_boundary in Hb. apply Z.eqb_neq in Hi0 as Hi1. rewrite Hi1 in Hb.
    unfold blen in Hlt. rewrite lookup_app_l in Hb by lia.
    destruct (lookup_lt_is_Some_2 e (Z.to_nat i)) as [b Hl]; [lia|]. rewrite Hl in Hb.
    replace (Z.to_nat i) with (S (Z.to_nat (i - 1))) in Hl by lia.
    apply lookup_encode_tail in Hl; [by rewrite Hl in Hb|done].
  - unfold blen in Hge. rewrite take_app_ge, drop_app_ge by lia.
    replace (Z.to_nat i - length e)%nat with (Z.to_nat (i - blen e)) by (unfold blen; lia).
    destruct (IH (i - blen e)) as [? ?]; [unfold blen; lia| |by split; [apply utf8_app|]].
    unfold is_char_boundary in *. destruct (Z.eqb_spec (i - blen e) 0); [done|].
    apply Z.eqb_neq in Hi0 as Hi1. rewrite Hi1, lookup_app_r in Hb by lia.
    replace (Z.to_nat (i - blen e)) with (Z.to_nat i - length e)%nat by (unfold blen; lia).
    destruct (rest !! (Z.to_nat i - length e)%nat); [done|]. rewrite blen_app in Hb. lia.
Qed.

(** ** Lemmas: clipping *)

(** A clipped text is the text itself, a prefix of it, or its two ends around the
    marker, always cut on character boundaries and always within the cap. *)
Inductive excerpt (t : text) : text → Prop :=
| excerpt_whole : excerpt t t
| excerpt_prefix i :
    0 ≤ i ≤ blen t → is_char_boundary t i = true → excerpt t (take (Z.to_nat i) t)
| excerpt_ends i j :
    0 ≤ i < j → j ≤ blen t → is_char_boundary t i = true → is_char_boundary t j = true →
    excerpt t (take (Z.to_nat i) t ++ PREVIEW_ELISION ++ drop (Z.to_nat j) t).

Lemma excerpt_utf8 t t' : excerpt t t' → utf8 t → utf8 t'.
Proof.
  intros [|i Hi Hb|i j Hi Hj Hbi Hbj] Ht; [done|apply utf8_cut; done || lia|].
  apply utf8_app; [apply utf8_cut; done || lia|].
  apply utf8_app; [apply utf8_elision|]. apply utf8_cut; done || lia.
Qed.

Lemma floor_boundary_clips t cap :
  0 ≤ cap < blen t →
  excerpt t (floor_boundary t cap) ∧ blen (floor_boundary t cap) ≤ cap.
Proof.
  intros Hc. destruct (floor_boundary_spec t cap) as (j & Hj & Hb & ->); [lia|].
  split; [constructor; [lia|done]|]. rewrite blen_take by lia. lia.
Qed.

Lemma clip_stream_spec t cap :
  0 ≤ cap → excerpt t (clip_stream t cap) ∧ blen (clip_stream t cap) ≤ cap.
Proof.
  intros Hc. unfold clip_stream. destruct (Z.leb_spec (blen t) cap) as [?|Hlt]; [by split; [constructor|]|].
  set (room := saturating_sub cap (blen PREVIEW_ELISION)).
  destruct (Z.ltb_spec room 8) as [?|Hroom]; [apply floor_boundary_clips; lia|].
  assert (Hr : room = cap - 7) by (unfold room, saturating_sub in *; change (blen PREVIEW_ELISION) with 7 in *; lia).
  pose proof (Z.div_pos room 2). pose proof (Z.mul_div_le room 2).
  destruct (floor_boundary_spec t (room / 2)) as (i & Hi & Hbi & ->); [lia|].
  destruct (ceil_boundary_spec t (blen t - (room - room / 2))) as [Hj Hbj]; [lia|].
  set (j := ceil_boundary _ _) in *.
  destruct (Z.leb_spec j (blen (take (Z.to_nat i) t))); [apply floor_boundary_clips; lia|].
  rewrite blen_take in * by lia. split; [constructor; done || lia|].
  rewrite !blen_app, blen_take, blen_drop by lia.
  change (blen PREVIEW_ELISION) with 7. lia.
Qed.

Lemma clip_stream_fits t cap : blen t ≤ cap → clip_stream t cap = t.
Proof. intros ?%Z.leb_le. unfold clip_stream. by case_match. Qed.

Lemma clip_output_spec out err budget out' err' tr :
  0 ≤ budget → clip_output out err budget = (out', err', tr) →
  blen out' + blen err' ≤ budget ∧ excerpt out out' ∧ excerpt err err'
  ∧ tr = bool_decide (budget < blen out + blen err)
  ∧ (tr = false → out' = out ∧ err' = err).
Proof.
  intros Hb. unfold clip_output.
  pose proof (blen_nonneg out). pose proof (blen_nonneg err).
  pose proof (Z.div_pos budget 2). pose proof (Z.mul_div_le budget 2).
  destruct (Z.leb_spec (blen out + blen err) budget) as [?|Hlt].
  { intros [= <- <- <-]. rewrite bool_decide_false by lia. split_and!; done || constructor. }
  rewrite bool_decide_true by lia.
  set (c1 := Z.min (blen out) (budget / 2)). set (c2 := Z.min (blen err) (budget - c1)).
  destruct (c1 <? blen out) eqn:?;
    match goal with |- (clip_stream _ ?a, clip_stream _ ?b, _) = _ → _ =>
      destruct (clip_stream_spec out a) as [? ?]; [lia|];
      destruct (clip_stream_spec err b) as [? ?]; [lia|]
    end; intros [= <- <- <-]; split_and!; done || lia.
Qed.

Lemma clip_spec b o per b' o' :
  0 ≤ per → 0 ≤ b.(remaining) → clip b o per = (b', o') →
  stored o' ≤ per ∧ 0 ≤ b'.(remaining) ∧ stored o' + b'.(remaining) = b.(remaining)
  ∧ excerpt o.(stdout) o'.(stdout) ∧ excerpt o.(stderr) o'.(stderr)
  ∧ o'.(ok) = o.(ok) ∧ o'.(truncated) = o.(truncated) ∧ o'.(exit_code) = o.(exit_code).
Proof.
  intros Hp Hb. unfold clip. destruct (clip_output _ _ _) as [[out err] tr] eqn:Hc.
  apply clip_output_spec in Hc as (Hl & ? & ? & _); [|lia]. intros [= <- <-].
  unfold stored. simpl. pose proof (blen_nonneg out). pose proof (blen_nonneg err).
  unfold saturating_sub. split_and!; done || lia.
Qed.

Lemma sum_cons x l : sum (x :: l) = x + sum l.
Proof. done. Qed.

Lemma stored_nonneg o : 0 ≤ stored o.
Proof. unfold stored. pose proof (blen_nonneg o.(stdout)). pose proof (blen_nonneg o.(stderr)). lia. Qed.

(** Within one phase the stored bytes come out of one budget, however many
    commands it ran. *)
Lemma setup_phase_bounded b answers :
  0 ≤ b.(remaining) → sum (stored <$> fst (setup_phase b answers)) ≤ b.(remaining).
Proof.
  revert b. induction answers as [|[o|] answers IH]; intros b Hb; [done| |done].
  cbn [setup_phase]. destruct (clip b o _) as [b' o'] eqn:Hc.
  apply clip_spec in Hc as (_ & Hb' & Heq & _); [|done..].
  destruct (negb (ok o')); [cbn [fst fmap list_fmap]; rewrite sum_cons; cbn; lia|].
  specialize (IH b' Hb'). destruct (setup_phase b' answers) as [rest d].
  cbn [fst] in *. rewrite fmap_cons, sum_cons. lia.
Qed.

Lemma validation_phase_bounded b answers :
  0 ≤ b.(remaining) → sum (stored <$> fst (validation_phase b answers)) ≤ b.(remaining).
Proof.
  revert b. induction answers as [|[o|] answers IH]; intros b Hb; [done| |done].
  cbn [validation_phase]. destruct (clip b o _) as [b' o'] eqn:Hc.
  apply clip_spec in Hc as (_ & Hb' & Heq & _); [|done..].
  specialize (IH b' Hb'). destruct (validation_phase b' answers) as [rest d].
  cbn [fst] in *. rewrite fmap_cons, sum_cons. lia.
Qed.

Lemma keep_paths_spec share used paths kept used' cut :
  used ≤ share → keep_paths share used paths = (kept, used', cut) →
  kept `prefix_of` paths ∧ used' = used + sum (blen <$> kept) ∧ used' ≤ share
  ∧ (cut = false → kept = paths).
Proof.
  revert used kept used' cut.
  induction paths as [|p paths IH]; intros used kept used' cut Hu; simpl.
  { intros [= <- <- <-]. split_and!; [done|cbn; lia|done|done]. }
  destruct (Z.ltb_spec share (used + blen p)) as [?|Hle].
  { intros [= <- <- <-]. split_and!; [apply prefix_nil|cbn; lia|done|done]. }
  destruct (keep_paths share (used + blen p) paths) as [[k u] c] eqn:Hk.
  intros [= <- <- <-]. apply IH in Hk as (? & ? & ? & Hc); [|lia].
  rewrite fmap_cons, sum_cons. split_and!; [by apply prefix_cons|lia|lia|].
  intros ?. f_equal. auto.
Qed.

Lemma bound_git_evidence_spec st df files :
  let g := bound_git_evidence st df files in
  stored_git g ≤ MAX_GIT_EVIDENCE_BYTES
  ∧ excerpt st g.(status) ∧ excerpt df g.(diff) ∧ g.(changed_files) `prefix_of` files
  ∧ (g.(git_truncated) = false →
     g.(status) = st ∧ g.(diff) = df ∧ g.(changed_files) = files).
Proof.
  unfold bound_git_evidence.
  destruct (clip_output st [] _) as [[st' e1] c1] eqn:H1.
  apply clip_output_spec in H1 as (L1 & X1 & _ & _ & F1); [|done].
  destruct (keep_paths _ _ _) as [[kept used] c2] eqn:H2.
  apply keep_paths_spec in H2 as (P2 & U2 & L2 & F2); [|done].
  destruct (clip_output df [] _) as [[df' e3] c3] eqn:H3.
  apply clip_output_spec in H3 as (L3 & X3 & _ & _ & F3); [|unfold saturating_sub; lia].
  pose proof (blen_nonneg e1). pose proof (blen_nonneg e3). pose proof (blen_nonneg st').
  change (MAX_GIT_EVIDENCE_BYTES / 4) with 16384 in *.
  unfold stored_git, saturating_sub in *. cbn [status diff changed_files git_truncated].
  change MAX_GIT_EVIDENCE_BYTES with 65536 in *. split_and!; [lia|done..|].
  intros [[->->]%orb_false_iff ->]%orb_false_iff. naive_solver.
Qed.

(** ** Lemmas: one attempt *)

(** Every part of the evidence is within its own ceiling. *)
Definition evidence_bounded (r : RunResults) : Prop :=
  sum (stored <$> r.(setup)) ≤ MAX_SETUP_PREVIEW_BYTES
  ∧ from_option stored 0 r.(task) ≤ MAX_TASK_PREVIEW_BYTES
  ∧ sum (stored <$> r.(validations)) ≤ MAX_VALIDATION_PREVIEW_BYTES
  ∧ from_option stored_git 0 r.(git) ≤ MAX_GIT_EVIDENCE_BYTES.

Lemma do_setup_bounded a r : evidence_bounded r → evidence_bounded (fst (do_setup a r)).
Proof.
  intros (_ & ? & ? & ?). unfold do_setup.
  pose proof (setup_phase_bounded {| remaining := MAX_SETUP_PREVIEW_BYTES |} a.(setup_answers)) as Hs.
  destruct (setup_phase _ _) as [ss d]. split_and!; try done. by apply Hs.
Qed.

Lemma do_task_bounded a r : evidence_bounded r → evidence_bounded (fst (do_task a r)).
Proof.
  intros (? & ? & ? & ?). unfold do_task. destruct (task_answer a) as [t|]; [|by split_and!].
  destruct (clip _ t _) as [b' t'] eqn:Ht. apply clip_spec in Ht as (? & _); [|done..].
  by split_and!.
Qed.

Lemma do_validations_bounded a r :
  evidence_bounded r → evidence_bounded (fst (do_validations a r)).
Proof.
  intros (? & ? & _ & ?). unfold do_validations.
  pose proof (validation_phase_bounded {| remaining := MAX_VALIDATION_PREVIEW_BYTES |}
                a.(validation_answers)) as Hs.
  destruct (validation_phase _ _) as [vs d]. split_and!; try done. by apply Hs.
Qed.

Lemma do_git_bounded a r : evidence_bounded r → evidence_bounded (fst (do_git a r)).
Proof.
  intros (? & ? & ? & ?). unfold do_git.
  destruct (git_answer a) as [[[[st df] files]|]|]; split_and!; try done.
  apply bound_git_evidence_spec.
Qed.

Lemma do_artifacts_bounded a r : evidence_bounded r → evidence_bounded (fst (do_artifacts a r)).
Proof. unfold do_artifacts. by destruct (collected a). Qed.

Create HintDb attempt.
#[export] Hint Resolve do_setup_bounded do_task_bounded do_validations_bounded do_git_bounded
  do_artifacts_bounded : attempt.

Lemma while_going_bounded p k :
  (∀ r, evidence_bounded r → evidence_bounded (fst (k r))) →
  evidence_bounded p.(results) → evidence_bounded (while_going p k).(results).
Proof.
  intros Hk Hp. unfold while_going. destruct (negb _); [done|].
  specialize (Hk _ Hp). by destruct (k _).
Qed.

Lemma advance_results a next p : (advance a next p).(results) = p.(results).
Proof. unfold advance, stop. by repeat case_match. Qed.

#[export] Hint Resolve while_going_bounded : attempt.

Lemma post_placement_bounded a : evidence_bounded (post_placement a).(results).
Proof.
  unfold post_placement, after_validations, after_task, ensure_running, after_setup, started.
  repeat first
    [ apply while_going_bounded; [by auto with attempt|]
    | rewrite advance_results | case_match | case_decide ]; by split_and!.
Qed.

Lemma while_going_visited p k : (while_going p k).(visited) = p.(visited).
Proof. unfold while_going. by repeat case_match. Qed.

Lemma while_going_true p k :
  (while_going p k).(going) = true → p.(going) = true ∧ snd (k p.(results)) = true
    ∧ (while_going p k).(results) = fst (k p.(results)).
Proof.
  unfold while_going. destruct (going p) eqn:Hg; simpl; [|congruence].
  destruct (k _) as [r go]. naive_solver.
Qed.

Lemma advance_true a next p :
  (advance a next p).(going) = true →
  p.(going) = true ∧ (advance a next p).(visited) = p.(visited) ++ [next].
Proof.
  unfold advance, stop. destruct (going p) eqn:?; simpl; [|congruence].
  by destruct (moved a next).
Qed.

(** An [advance] either appends the state asked for or ends the attempt. *)
Lemma advance_cases a next p :
  (advance a next p).(visited) = p.(visited) ++ [next] ∧ (advance a next p).(going) = true
  ∨ (advance a next p).(visited) = p.(visited) ∧ (advance a next p).(going) = false.
Proof.
  unfold advance, stop. destruct (going p) eqn:?; simpl; [|by right].
  destruct (moved a next); [by left|by right].
Qed.

Lemma while_going_stopped p k : p.(going) = false → while_going p k = p.
Proof. intros H. unfold while_going. by rewrite H. Qed.

Lemma advance_stopped a next p : p.(going) = false → advance a next p = p.
Proof. intros H. unfold advance. by rewrite H. Qed.

Lemma setup_phase_done b answers :
  snd (setup_phase b answers) = true →
  length (fst (setup_phase b answers)) = length answers
  ∧ Forall (λ o, ok o = true) (fst (setup_phase b answers)).
Proof.
  revert b. induction answers as [|[o|] answers IH]; intros b; [by split|cbn [setup_phase]|done].
  destruct (clip b o _) as [b' o']. destruct (ok o') eqn:Ho; simpl; [|done].
  specialize (IH b'). destruct (setup_phase b' answers) as [rest d]. simpl in *.
  intros [? ?]%IH. split; [congruence|by constructor].
Qed.

Lemma validation_phase_done b answers :
  snd (validation_phase b answers) = true →
  length (fst (validation_phase b answers)) = length answers.
Proof.
  revert b. induction answers as [|[o|] answers IH]; intros b; [done|cbn [validation_phase]|done].
  destruct (clip b o _) as [b' o']. specialize (IH b').
  destruct (validation_phase b' answers) as [rest d]. simpl in *. intros ?%IH. congruence.
Qed.

(** Where each stage of an attempt can leave the run. *)
Lemma ensure_running_cases a :
  let p := ensure_running a (after_setup a) in
  p.(visited) = [Running] ∨ p.(visited) = [] ∧ p.(going) = false.
Proof.
  unfold ensure_running, after_setup. destruct (setup_answers a) as [|x l].
  { simpl. destruct (advance_cases a Running (started a)) as [[-> _]|[-> ->]]; auto. }
  destruct (advance_cases a Running (started a)) as [[Hv Hg]|[Hv Hg]].
  - rewrite while_going_visited, Hv. simpl. rewrite while_going_visited, Hv. by left.
  - rewrite while_going_visited, Hv. simpl.
    rewrite (while_going_stopped _ _ Hg), (advance_stopped _ _ _ Hg), Hv. by right.
Qed.

Lemma after_validations_cases a :
  let p := after_validations a in
  p.(visited) = [Running] ∨ p.(visited) = [Running; Validating]
  ∨ p.(visited) = [] ∧ p.(going) = false.
Proof.
  unfold after_validations, after_task.
  destruct (ensure_running_cases a) as [Hv|[Hv Hg]]; set (p := ensure_running _ _) in *.
  - destruct (validation_answers a) as [|x l]; [by left; rewrite while_going_visited|].
    rewrite while_going_visited.
    destruct (advance_cases a Validating (while_going p (do_task a))) as [[-> _]|[-> _]];
      rewrite while_going_visited, Hv; simpl; auto.
  - rewrite (while_going_stopped _ _ Hg), (advance_stopped _ _ _ Hg), (while_going_stopped _ _ Hg).
    destruct (validation_answers a); simpl; auto.
Qed.

Lemma post_placement_visited a :
  (post_placement a).(visited) ∈
    [[]; [Running]; [Running; Validating]; [Running; Collecting]; [Running; Validating; Collecting]].
Proof.
  unfold post_placement. rewrite !while_going_visited.
  destruct (after_validations_cases a) as [Hv|[Hv|[Hv Hg]]].
  1,2: destruct (advance_cases a Collecting (after_validations a)) as [[-> _]|[-> _]]; rewrite Hv;
    set_solver.
  rewrite (advance_stopped _ _ _ Hg), Hv. set_solver.
Qed.

(** What an attempt that is still going has done so far. *)
Lemma after_setup_true a :
  (after_setup a).(going) = true →
  length (after_setup a).(results).(setup) = length a.(setup_answers)
  ∧ Forall (λ o, ok o = true) (after_setup a).(results).(setup).
Proof.
  unfold after_setup. destruct (setup_answers a) as [|x l] eqn:Hl; [done|].
  intros (_ & Hd & ->)%while_going_true. rewrite <-Hl. clear Hl. unfold do_setup in *.
  pose proof (setup_phase_done {| remaining := MAX_SETUP_PREVIEW_BYTES |} (setup_answers a)) as Hs.
  destruct (setup_phase _ _) as [ss d]. by apply Hs.
Qed.

Lemma after_task_true a :
  (after_task a).(going) = true →
  (after_task a).(results).(setup) = (after_setup a).(results).(setup)
  ∧ (after_task a).(results).(validations) = [] ∧ (after_setup a).(going) = true.
Proof.
  unfold after_task. intros (Hg & _ & ->)%while_going_true.
  assert (Hv : (after_setup a).(results).(validations) = []).
  { unfold after_setup. destruct (setup_answers a); [done|].
    unfold while_going. case_match; rewrite advance_results; [done|].
    unfold do_setup. by destruct (setup_phase _ _). }
  unfold ensure_running in *. revert Hg. case_decide; intros Hg.
  - rewrite advance_results. apply advance_true in Hg as [? _].
    unfold do_task. by destruct (task_answer a).
  - unfold do_task. by destruct (task_answer a).
Qed.

Lemma after_validations_true a :
  (after_validations a).(going) = true →
  (after_validations a).(results).(setup) = (after_task a).(results).(setup)
  ∧ length (after_validations a).(results).(validations) = length a.(validation_answers)
  ∧ (after_task a).(going) = true.
Proof.
  unfold after_validations. destruct (validation_answers a) as [|x l] eqn:Hl.
  { intros Hg. pose proof (after_task_true a Hg) as (_ & -> & _). by split_and!. }
  intros (Hg & Hd & ->)%while_going_true. apply advance_true in Hg as [Hg _].
  rewrite <-Hl. clear Hl. rewrite advance_results in *. unfold do_validations in *.
  pose proof (validation_phase_done {| remaining := MAX_VALIDATION_PREVIEW_BYTES |}
                (validation_answers a)) as Hs.
  destruct (validation_phase _ _) as [vs d]. split_and!; [done|by apply Hs|done].
Qed.

Lemma post_placement_true a :
  (post_placement a).(going) = true →
  (post_placement a).(results).(setup) = (after_validations a).(results).(setup)
  ∧ (post_placement a).(results).(validations) = (after_validations a).(results).(validations)
  ∧ (after_validations a).(going) = true ∧ last (post_placement a).(visited) = Some Collecting.
Proof.
  unfold post_placement. intros (Hg & _ & ->)%while_going_true. rewrite !while_going_visited.
  apply while_going_true in Hg as (Hg & _ & ->). apply advance_true in Hg as [Hg ->].
  rewrite advance_results, last_snoc. unfold do_artifacts, do_git.
  destruct (collected a), (git_answer a) as [[[[]]|]|]; by split_and!.
Qed.

(** ** Theorems *)

(** [clip_stream] never stores more than its cap, leaves a text that fits
    alone, never breaks a UTF-8 character, and from a cap of 15 bytes on always
    keeps both ends of a text that does not fit, around the marker: the second
    fallback to a prefix in the code cannot be reached. *)
Theorem clip_stream_bounded_excerpt (t : text) (cap : Z) :
  0 ≤ cap →
  blen (clip_stream t cap) ≤ cap
  ∧ (utf8 t → utf8 (clip_stream t cap))
  ∧ (blen t ≤ cap → clip_stream t cap = t)
  ∧ (15 ≤ cap < blen t → ∃ i j,
       0 ≤ i ≤ (cap - 7) / 2 ∧ blen t - (cap - 7 - (cap - 7) / 2) ≤ j ≤ blen t
       ∧ clip_stream t cap = take (Z.to_nat i) t ++ PREVIEW_ELISION ++ drop (Z.to_nat j) t).
Proof.
  intros Hc. destruct (clip_stream_spec t cap Hc) as [Hx Hl].
  split_and!; [done|by apply excerpt_utf8|apply clip_stream_fits|].
  intros Hlong. unfold clip_stream, saturating_sub. change (blen PREVIEW_ELISION) with 7.
  rewrite Z.max_r by lia. destruct (Z.leb_spec (blen t) cap); [lia|].
  destruct (Z.ltb_spec (cap - 7) 8); [lia|]. set (room := cap - 7) in *.
  pose proof (Z.div_pos room 2). pose proof (Z.mul_div_le room 2).
  destruct (floor_boundary_spec t (room / 2)) as (i & Hi & Hbi & ->); [lia|].
  destruct (ceil_boundary_spec t (blen t - (room - room / 2))) as [Hj Hbj]; [lia|].
  set (j := ceil_boundary _ _) in *. rewrite blen_take by lia.
  destruct (Z.leb_spec j (Z.min i (blen t))); [lia|]. exists i, j. split_and!; done || lia.
Qed.

Lemma clip_stream_bounded_excerpt_witness :
  let t := [240; 159; 166; 128; 97; 98; 99; 100; 101; 102; 103; 104; 105; 106; 107; 226; 130; 172] in
  clip_stream t 15 = [240; 159; 166; 128; 10; 91; 46; 46; 46; 93; 10; 107; 226; 130; 172]
  ∧ blen (clip_stream t 15) ≤ 15.
Proof.
  intros t. split; [reflexivity|]. apply (clip_stream_bounded_excerpt t 15). lia.
Defined.

(** [PreviewBudget::clip] charges a phase exactly what it keeps, never keeps
    more than the per-command cap, and changes neither the verdict, the exit code
    nor the machine's own truncation flag; the preview flag rises exactly when
    something was dropped. *)
Theorem clip_charges_what_it_keeps b o per b' o' :
  0 ≤ per → 0 ≤ b.(remaining) → clip b o per = (b', o') →
  stored o' ≤ per ∧ stored o' + b'.(remaining) = b.(remaining) ∧ 0 ≤ b'.(remaining)
  ∧ o'.(ok) = o.(ok) ∧ o'.(truncated) = o.(truncated) ∧ o'.(exit_code) = o.(exit_code)
  ∧ o'.(output_preview_truncated)
    = o.(output_preview_truncated) || bool_decide (Z.min per b.(remaining) < stored o).
Proof.
  intros Hp Hb Hc. pose proof Hc as Hs. apply clip_spec in Hs as (?&?&?&_&_&?&?&?); [|done..].
  split_and!; try done. unfold clip in Hc.
  destruct (clip_output _ _ _) as [[out err] tr] eqn:Ho.
  apply clip_output_spec in Ho as (_ & _ & _ & -> & _); [|lia]. by simplify_eq/=.
Qed.

Lemma clip_charges_what_it_keeps_witness :
  let o := {| command := []; exit_code := 0; stdout := repeat 97 20; stderr := [98; 99];
              duration_ms := 5; truncated := false; output_preview_truncated := false;
              ok := true |} in
  let '(b', o') := clip {| remaining := 10 |} o 16 in
  stored o' ≤ 16 ∧ stored o' + b'.(remaining) = 10 ∧ o'.(ok) = true.
Proof.
  intros o. destruct (clip {| remaining := 10 |} o 16) as [b' o'] eqn:Hc.
  destruct (clip_charges_what_it_keeps {| remaining := 10 |} o 16 b' o') as (? & ? & _ & ? & _);
    [lia|simpl; lia|exact Hc|]. split_and!; done.
Defined.

(** Git evidence is bounded as a whole, its paths are a prefix of the changed
    paths and are never shortened, its texts stay valid UTF-8, and the flag is
    clear only when nothing at all was dropped. *)
Theorem git_evidence_bounded (st df : text) (files : list text) :
  let g := bound_git_evidence st df files in
  stored_git g ≤ MAX_GIT_EVIDENCE_BYTES
  ∧ g.(changed_files) `prefix_of` files
  ∧ (utf8 st → utf8 g.(status)) ∧ (utf8 df → utf8 g.(diff))
  ∧ (g.(git_truncated) = false →
     g.(status) = st ∧ g.(diff) = df ∧ g.(changed_files) = files).
Proof.
  intros g. destruct (bound_git_evidence_spec st df files) as (?&?&?&?&?).
  split_and!; try done; by apply excerpt_utf8.
Qed.

(** Whatever the commands of a run print and however many of them there are,
    the evidence an attempt stores stays within the published ceiling of 256 KiB,
    also when the attempt stops early. *)
Theorem run_results_bounded (a : Answers) :
  stored_results (post_placement a).(results) ≤ MAX_RESULTS_PREVIEW_BYTES
  ∧ MAX_RESULTS_PREVIEW_BYTES = 256 * 1024.
Proof.
  split; [|done]. destruct (post_placement_bounded a) as (? & ? & ? & ?).
  unfold stored_results, MAX_RESULTS_PREVIEW_BYTES. lia.
Qed.

(** However an attempt ends, the states it moves the run through, starting from
    [Preparing], are legal transitions in the order Running, Validating,
    Collecting, and it never moves the run to a terminal state itself. *)
Theorem attempt_moves_legally (a : Answers) :
  history Preparing (post_placement a).(visited)
  ∧ (post_placement a).(visited) `sublist_of` [Running; Validating; Collecting]
  ∧ Forall (λ s, is_active s = true) (post_placement a).(visited).
Proof.
  pose proof (post_placement_visited a) as Hv.
  repeat (apply elem_of_cons in Hv as [Hv|Hv]; [rewrite Hv|]).
  6: by apply elem_of_nil in Hv.
  all: split_and!; repeat constructor.
Qed.

(** An attempt that counts as a success ran every setup and every validation
    command and the task, and every one of them was [ok]; the run was moved all
    the way to [Collecting]. *)
Theorem succeeded_means_everything_ran (a : Answers) :
  succeeded (post_placement a) = true →
  let p := post_placement a in
  length p.(results).(setup) = length a.(setup_answers)
  ∧ Forall (λ o, ok o = true) p.(results).(setup)
  ∧ (∃ t, p.(results).(task) = Some t ∧ ok t = true)
  ∧ length p.(results).(validations) = length a.(validation_answers)
  ∧ Forall (λ o, ok o = true) p.(results).(validations)
  ∧ last p.(visited) = Some Collecting.
Proof.
  unfold succeeded. intros H. bools.
  destruct (post_placement_true a) as (Hs & Hv & Hg & Hlast); [done|].
  destruct (after_validations_true a Hg) as (Hs' & Hl & Hg').
  destruct (after_task_true a Hg') as (Hs'' & _ & Hg'').
  destruct (after_setup_true a Hg'') as [? ?].
  simpl. rewrite Hs, Hs', Hs''. split_and!; [done|done| |by rewrite Hv| |done].
  - case_match; [eauto|done].
  - by apply forallb_Forall.
Qed.

Definition sample_outcome : CommandOutcome := {|
  command := [[108; 115]]; exit_code := 0; stdout := [111; 107]; stderr := [];
  duration_ms := 3; truncated := false; output_preview_truncated := false; ok := true |}.

Definition sample_answers : Answers := {|
  runtime_found := true; moved := λ _, true; setup_answers := [Some sample_outcome];
  task_answer := Some sample_outcome; validation_answers := [Some sample_outcome];
  git_answer := Some (Some ([77], [43], [[97]])); collected := ([], true) |}.

Lemma succeeded_means_everything_ran_witness :
  succeeded (post_placement sample_answers) = true
  ∧ Forall (λ o, ok o = true) (post_placement sample_answers).(results).(validations).
Proof. split; [reflexivity|]. by apply (succeeded_means_everything_ran sample_answers). Defined.
