(* ===== verification/Events.v ===== *)
(** * Events: tamper-evident Guard telemetry

    [crates/aiec-guard/src/events.rs]: the metadata of one decision
    ([EventInput]), the chained record ([GuardEvent]), its canonical encoding and
    [verify_chain].

    SHA-256 and the textual forms of instants and identifiers come from other
    crates: they are the operations of [Host], and [HostLaws] states what the
    encoding relies on, that the two textual forms name their value.  Nothing is
    assumed of the hash: where a statement depends on collisions the collision is
    part of the conclusion. *)

From stdpp Require Import pretty.
From S2P Require Import Prelude.

Abbreviation Byte := Ascii.ascii (only parsing).

Definition byte (z : Z) : Byte := Ascii.ascii_of_N (Z.to_N z).

(** ** Bounds *)
Definition MAX_LINE_BYTES : Z := 4096.
Definition MAX_JOURNAL_BYTES : Z := 64 * 1024 * 1024.
Definition MAX_PAGE_EVENTS : Z := 4096.
Definition MAX_EVENTS : Z := 1000000.
Definition MAX_REASON_BYTES : Z := 256.
Definition MAX_DESTINATION_BYTES : Z := 512.
Definition MAX_POLICY_HASH_BYTES : Z := 128.

Definition GENESIS_HASH : string :=
  "0000000000000000000000000000000000000000000000000000000000000000".

Definition CANONICAL_DOMAIN : list Byte := chars "aiec.guard.event.v1" ++ [byte 0].

(** ** Decisions *)
Inductive Category := Dns | Network | Model | Credential | Policy | Lifecycle | CQuarantine.

Definition Category_as_str (c : Category) : string :=
  match c with
  | Dns => "dns"
  | Network => "network"
  | Model => "model"
  | Credential => "credential"
  | Policy => "policy"
  | Lifecycle => "lifecycle"
  | CQuarantine => "quarantine"
  end.

Inductive Decision := Allow | Deny | Warn | Cut | Pause | Quarantine.

Definition Decision_as_str (d : Decision) : string :=
  match d with
  | Allow => "allow"
  | Deny => "deny"
  | Warn => "warn"
  | Cut => "cut"
  | Pause => "pause"
  | Quarantine => "quarantine"
  end.

#[global] Instance Category_eq_dec : EqDecision Category.
Proof. solve_decision. Defined.
#[global] Instance Decision_eq_dec : EqDecision Decision.
Proof. solve_decision. Defined.

Record EventInput := {
  i_sandbox_id : Uuid; i_tenant_id : Uuid; i_policy_hash : string; i_category : Category;
  i_decision : Decision; i_reason : string; i_destination : option string;
  i_request_bytes : Z; i_response_bytes : Z; i_duration_ms : Z }.

(** [char::is_whitespace] on the ASCII range; the callers have already required
    printable ASCII. *)
Definition is_whitespace (c : Byte) : bool := in_range 9 13 c || (byte_of c =? 32).

Definition printable (c : Byte) : bool := in_range 32 126 c.

Definition bounded_metadata (value : string) (max_bytes : Z) (allow_empty : bool)
    : result GuardError.t () :=
  if is_empty value then if allow_empty then Ok () else Err GuardError.Denied
  else
    bail_if max_bytes <? slen value with GuardError.Denied;
    bail_if negb (all_bytes printable value) with GuardError.Denied;
    Ok ().

Definition validate (i : EventInput) : result GuardError.t () :=
  let? _ := bounded_metadata i.(i_policy_hash) MAX_POLICY_HASH_BYTES true in
  let? _ := bounded_metadata i.(i_reason) MAX_REASON_BYTES true in
  match i.(i_destination) with
  | None => Ok ()
  | Some destination =>
      let? _ := bounded_metadata destination MAX_DESTINATION_BYTES false in
      bail_if any_byte is_whitespace destination with GuardError.Denied;
      Ok ()
  end.

Definition is_sha256_hex (value : string) : bool :=
  (slen value =? 64) && all_bytes is_lower_hex value.

Record GuardEvent := {
  timestamp : Instant; event_id : Uuid; sandbox_id : Uuid; tenant_id : Uuid;
  policy_hash : string; category : Category; decision : Decision; reason : string;
  destination : option string; request_bytes : Z; response_bytes : Z; duration_ms : Z;
  previous_hash : string; current_hash : string }.

#[global] Instance GuardEvent_eq_dec : EqDecision GuardEvent.
Proof. solve_decision. Defined.

(** ** The encoding *)

(** [u64::to_be_bytes] for [k = 8]. *)
Fixpoint be_bytes (k : nat) (n : Z) : list Byte :=
  match k with
  | O => []
  | S k => be_bytes k (n / 256) ++ [byte (n mod 256)]
  end.

Definition push_bytes (bytes : list Byte) : list Byte :=
  be_bytes 8 (Z.of_nat (length bytes)) ++ bytes.

Definition push_str_field (tag : Z) (value : string) : list Byte :=
  byte tag :: push_bytes (chars value).

(** [u64::to_string]. *)
Definition u64_to_string (v : Z) : string := pretty (Z.to_N v).

Definition push_u64_field (tag : Z) (value : Z) : list Byte :=
  byte tag :: push_bytes (chars (u64_to_string value)).

Definition push_option_field (tag : Z) (value : option string) : list Byte :=
  byte tag ::
  match value with
  | Some value => byte 1 :: push_bytes (chars value)
  | None => [byte 0]
  end.

(** What the encoding uses of other crates: [hex::encode(Sha256::digest(..))], the
    nanosecond RFC 3339 form of an instant and the hyphenated form of a UUID. *)
Class Host := {
  sha256_hex : list Byte → string;
  to_rfc3339 : Instant → string;
  uuid_to_string : Uuid → string }.

(** The values Rust can hold: chrono's [DateTime<Utc>] spans about 262,000 years
    either side of the epoch, a UUID has 128 bits. *)
Definition chrono_bound : Z := 2 ^ 73.
Definition is_instant (t : Instant) : Prop := - chrono_bound < t < chrono_bound.

Class HostLaws (H : Host) : Prop := {
  rfc3339_inj t u :
    is_instant t → is_instant u → to_rfc3339 t = to_rfc3339 u → t = u;
  rfc3339_length t : is_instant t → slen (to_rfc3339 t) ≤ 64;
  uuid_string_inj u v : is_uuid u → is_uuid v → uuid_to_string u = uuid_to_string v → u = v;
  uuid_string_length u : is_uuid u → slen (uuid_to_string u) = 36;
  sha256_hex_shape bytes : is_sha256_hex (sha256_hex bytes) = true }.

Section WithHost.
Context `{Host}.

Definition canonical_bytes (e : GuardEvent) : list Byte :=
  CANONICAL_DOMAIN
  ++ push_str_field 1 (to_rfc3339 e.(timestamp))
  ++ push_str_field 2 (uuid_to_string e.(event_id))
  ++ push_str_field 3 (uuid_to_string e.(sandbox_id))
  ++ push_str_field 4 (uuid_to_string e.(tenant_id))
  ++ push_str_field 5 e.(policy_hash)
  ++ push_str_field 6 (Category_as_str e.(category))
  ++ push_str_field 7 (Decision_as_str e.(decision))
  ++ push_str_field 8 e.(reason)
  ++ push_option_field 9 e.(destination)
  ++ push_u64_field 10 e.(request_bytes)
  ++ push_u64_field 11 e.(response_bytes)
  ++ push_u64_field 12 e.(duration_ms)
  ++ push_str_field 13 e.(previous_hash).

Definition compute_hash (e : GuardEvent) : string := sha256_hex (canonical_bytes e).

(** [GuardEvent::new]: [current_hash] is computed over the other fields. *)
Definition with_hash (e : GuardEvent) : GuardEvent := {|
  timestamp := e.(timestamp); event_id := e.(event_id); sandbox_id := e.(sandbox_id);
  tenant_id := e.(tenant_id); policy_hash := e.(policy_hash); category := e.(category);
  decision := e.(decision); reason := e.(reason); destination := e.(destination);
  request_bytes := e.(request_bytes); response_bytes := e.(response_bytes);
  duration_ms := e.(duration_ms); previous_hash := e.(previous_hash);
  current_hash := compute_hash e |}.

Definition new (now : Instant) (id : Uuid) (input : EventInput) (previous : string)
    : result GuardError.t GuardEvent :=
  let? _ := validate input in
  bail_if negb (is_sha256_hex previous) with GuardError.Integrity;
  Ok (with_hash {|
    timestamp := now; event_id := id; sandbox_id := input.(i_sandbox_id);
    tenant_id := input.(i_tenant_id); policy_hash := input.(i_policy_hash);
    category := input.(i_category); decision := input.(i_decision);
    reason := input.(i_reason); destination := input.(i_destination);
    request_bytes := input.(i_request_bytes); response_bytes := input.(i_response_bytes);
    duration_ms := input.(i_duration_ms); previous_hash := previous; current_hash := "" |}).

Definition input_of (e : GuardEvent) : EventInput := {|
  i_sandbox_id := e.(sandbox_id); i_tenant_id := e.(tenant_id);
  i_policy_hash := e.(policy_hash); i_category := e.(category);
  i_decision := e.(decision); i_reason := e.(reason); i_destination := e.(destination);
  i_request_bytes := e.(request_bytes); i_response_bytes := e.(response_bytes);
  i_duration_ms := e.(duration_ms) |}.

Definition verify_self_hash (e : GuardEvent) : result GuardError.t () :=
  bail_if negb (bool_decide (e.(current_hash) = compute_hash e)) with GuardError.Integrity;
  Ok ().

Definition verify_bounds (e : GuardEvent) : result GuardError.t () :=
  let? _ := validate (input_of e) in
  bail_if negb (is_sha256_hex e.(previous_hash)) || negb (is_sha256_hex e.(current_hash))
    with GuardError.Integrity;
  Ok ().

Fixpoint verify_from (expected : string) (events : list GuardEvent) : result GuardError.t () :=
  match events with
  | [] => Ok ()
  | event :: events =>
      bail_if negb (bool_decide (event.(previous_hash) = expected)) with GuardError.Integrity;
      let? _ := verify_self_hash event in
      verify_from event.(current_hash) events
  end.

Definition verify_chain (events : list GuardEvent) : result GuardError.t () :=
  bail_if MAX_EVENTS <? Z.of_nat (length events) with GuardError.Integrity;
  verify_from GENESIS_HASH events.

End WithHost.

(** ** Specification vocabulary *)

(** The range invariants of the Rust types of a record. *)
Definition is_u64 (v : Z) : Prop := 0 ≤ v ≤ u64_max.
Definition fits (s : string) : Prop := slen s ≤ u64_max.

Record representable (e : GuardEvent) : Prop := {
  rep_timestamp : is_instant e.(timestamp);
  rep_event_id : is_uuid e.(event_id);
  rep_sandbox_id : is_uuid e.(sandbox_id);
  rep_tenant_id : is_uuid e.(tenant_id);
  rep_policy_hash : fits e.(policy_hash);
  rep_reason : fits e.(reason);
  rep_destination : from_option fits True e.(destination);
  rep_request : is_u64 e.(request_bytes);
  rep_response : is_u64 e.(response_bytes);
  rep_duration : is_u64 e.(duration_ms);
  rep_previous : fits e.(previous_hash) }.

(** The hash the next record has to chain to. *)
Definition head_of (events : list GuardEvent) : string :=
  from_option current_hash GENESIS_HASH (last events).

(** ** Lemmas: the encoding is prefix-free *)

Lemma byte_of_byte z : 0 ≤ z < 256 → byte_of (byte z) = z.
Proof. intros. unfold byte, byte_of. rewrite Ascii.N_ascii_embedding; lia. Qed.

Lemma byte_inj y z : 0 ≤ y < 256 → 0 ≤ z < 256 → byte y = byte z → y = z.
Proof. intros Hy Hz Heq. by rewrite <-(byte_of_byte y Hy), <-(byte_of_byte z Hz), Heq. Qed.

Lemma length_be_bytes k n : length (be_bytes k n) = k.
Proof. revert n. induction k as [|k IH]; intros; simpl; [done|]. rewrite length_app, IH. simpl. lia. Qed.

Lemma be_bytes_inj k m n :
  0 ≤ m < 256 ^ Z.of_nat k → 0 ≤ n < 256 ^ Z.of_nat k → be_bytes k m = be_bytes k n → m = n.
Proof.
  revert m n. induction k as [|k IH]; simpl be_bytes; intros m n Hm Hn Heq; [simpl in *; lia|].
  rewrite Nat2Z.inj_succ, Z.pow_succ_r in * by lia.
  apply app_inj_tail in Heq as [Heq Hb].
  apply byte_inj in Hb; [|apply Z.mod_pos_bound; lia..].
  apply IH in Heq; [|split; [apply Z.div_pos|apply Z.div_lt_upper_bound]; lia..].
  pose proof (Z.div_mod m 256). pose proof (Z.div_mod n 256). lia.
Qed.

Lemma push_bytes_inj a b r r' :
  Z.of_nat (length a) ≤ u64_max → Z.of_nat (length b) ≤ u64_max →
  push_bytes a ++ r = push_bytes b ++ r' → a = b ∧ r = r'.
Proof.
  intros Ha Hb. unfold push_bytes. rewrite <-!app_assoc. intros Heq.
  apply app_inj_1 in Heq as [Hl Heq]; [|by rewrite !length_be_bytes].
  apply be_bytes_inj in Hl; [|unfold u64_max in *; simpl; lia..].
  apply app_inj_1 in Heq; [done|lia].
Qed.

Lemma length_chars_Z s : Z.of_nat (length (chars s)) = slen s.
Proof. unfold slen. by rewrite length_chars. Qed.

Lemma str_field_inj tag a b r r' :
  fits a → fits b → push_str_field tag a ++ r = push_str_field tag b ++ r' → a = b ∧ r = r'.
Proof.
  unfold fits. intros Ha Hb Heq. apply (f_equal tail) in Heq. unfold push_str_field in Heq.
  cbn [tail app] in Heq.
  apply push_bytes_inj in Heq as [Heq ?]; [|by rewrite length_chars_Z..].
  by apply chars_inj in Heq.
Qed.

Lemma length_pretty_N_go k x s :
  (x < 10 ^ N.of_nat k)%N → (String.length (pretty_N_go x s) <= k + String.length s)%nat.
Proof.
  revert x s. induction k as [|k IH]; intros x s Hx.
  { simpl in Hx. assert (x = 0%N) as -> by lia. rewrite pretty_N_go_0. lia. }
  assert (x = 0 ∨ 0 < x)%N as [->|Hpos] by lia; [rewrite pretty_N_go_0; lia|].
  rewrite pretty_N_go_step by done. etrans; [apply IH|simpl; lia].
  rewrite Nat2N.inj_succ, N.pow_succ_r' in Hx. apply N.Div0.div_lt_upper_bound. lia.
Qed.

Lemma u64_to_string_fits v : is_u64 v → fits (u64_to_string v).
Proof.
  unfold is_u64, fits, slen, u64_to_string, u64_max. intros Hv. unfold pretty, pretty_N.
  case_decide; [simpl; lia|].
  pose proof (length_pretty_N_go 20 (Z.to_N v) "") as Hl. simpl String.length in Hl at 2.
  change (10 ^ N.of_nat 20)%N with 100000000000000000000%N in Hl. lia.
Qed.

Lemma u64_to_string_inj v w : is_u64 v → is_u64 w → u64_to_string v = u64_to_string w → v = w.
Proof. unfold is_u64, u64_to_string. intros ?? ?%(inj pretty). lia. Qed.

Lemma u64_field_inj tag v w r r' :
  is_u64 v → is_u64 w → push_u64_field tag v ++ r = push_u64_field tag w ++ r' → v = w ∧ r = r'.
Proof.
  intros Hv Hw Heq. apply (str_field_inj tag (u64_to_string v) (u64_to_string w)) in Heq as [? ?];
    [|by apply u64_to_string_fits..]. split; [by apply u64_to_string_inj|done].
Qed.

Lemma option_field_inj tag a b r r' :
  from_option fits True a → from_option fits True b →
  push_option_field tag a ++ r = push_option_field tag b ++ r' → a = b ∧ r = r'.
Proof.
  intros Ha Hb Heq. apply (f_equal tail) in Heq. unfold push_option_field in Heq.
  cbn [tail app] in Heq. unfold fits in *. destruct a as [a|], b as [b|]; simpl in Ha, Hb; [| | |].
  - apply (f_equal tail) in Heq. cbn [tail app] in Heq.
    apply push_bytes_inj in Heq as [Heq ?]; [|by rewrite length_chars_Z..].
    apply chars_inj in Heq. by subst.
  - apply (f_equal head) in Heq. done.
  - apply (f_equal head) in Heq. done.
  - apply (f_equal tail) in Heq. done.
Qed.

Lemma Category_as_str_inj c d : Category_as_str c = Category_as_str d → c = d.
Proof. by destruct c, d. Qed.

Lemma Decision_as_str_inj c d : Decision_as_str c = Decision_as_str d → c = d.
Proof. by destruct c, d. Qed.

Section Encoding.
Context `{HostLaws}.

Lemma rfc3339_fits t : is_instant t → fits (to_rfc3339 t).
Proof. intros ?%rfc3339_length. unfold fits, u64_max. lia. Qed.

Lemma uuid_fits u : is_uuid u → fits (uuid_to_string u).
Proof. intros ?%uuid_string_length. unfold fits, u64_max. lia. Qed.

Lemma category_fits c : fits (Category_as_str c).
Proof. by destruct c. Qed.

Lemma decision_fits c : fits (Decision_as_str c).
Proof. by destruct c. Qed.

#[local] Hint Resolve rfc3339_fits uuid_fits category_fits decision_fits rep_timestamp
  rep_event_id rep_sandbox_id rep_tenant_id rep_policy_hash rep_reason rep_destination
  rep_request rep_response rep_duration rep_previous : core.

(** Strips one field of two equal encodings. *)
Ltac next_field H F :=
  lazymatch type of H with
  | push_str_field _ _ ++ _ = _ => apply str_field_inj in H as [F H]
  | push_u64_field _ _ ++ _ = _ => apply u64_field_inj in H as [F H]
  | _ => apply option_field_inj in H as [F H]
  end; [|by auto..].

(** The canonical encoding determines every field but [current_hash]. *)
Lemma canonical_bytes_inj e f :
  representable e → representable f → canonical_bytes e = canonical_bytes f →
  timestamp e = timestamp f ∧ event_id e = event_id f ∧ sandbox_id e = sandbox_id f
  ∧ tenant_id e = tenant_id f ∧ policy_hash e = policy_hash f ∧ category e = category f
  ∧ decision e = decision f ∧ reason e = reason f ∧ destination e = destination f
  ∧ request_bytes e = request_bytes f ∧ response_bytes e = response_bytes f
  ∧ duration_ms e = duration_ms f ∧ previous_hash e = previous_hash f.
Proof.
  intros He Hf Heq. unfold canonical_bytes in Heq. apply app_inv_head in Heq.
  next_field Heq H1. next_field Heq H2. next_field Heq H3. next_field Heq H4.
  next_field Heq H5. next_field Heq H6. next_field Heq H7. next_field Heq H8.
  next_field Heq H9. next_field Heq H10. next_field Heq H11. next_field Heq H12.
  rewrite <-(app_nil_r (push_str_field 13 (previous_hash e))),
    <-(app_nil_r (push_str_field 13 (previous_hash f))) in Heq. next_field Heq H13.
  apply rfc3339_inj in H1; [|by auto..]. apply uuid_string_inj in H2, H3, H4; [|by auto..].
  apply Category_as_str_inj in H6. apply Decision_as_str_inj in H7. by split_and!.
Qed.

Lemma event_determined e f :
  representable e → representable f → canonical_bytes e = canonical_bytes f →
  current_hash e = current_hash f → e = f.
Proof.
  intros He Hf Hc Hh. apply canonical_bytes_inj in Hc; [|done..].
  destruct e, f; simpl in *. by destruct_and!; subst.
Qed.

End Encoding.

(** ** Lemmas: the chain *)
Section Chain.
Context `{HostLaws}.

Lemma verify_self_hash_ok e : verify_self_hash e = Ok () ↔ current_hash e = compute_hash e.
Proof. unfold verify_self_hash. case_bool_decide; naive_solver. Qed.

Lemma verify_from_snoc h es e :
  verify_from h (es ++ [e]) = Ok () ↔
  verify_from h es = Ok () ∧ previous_hash e = from_option current_hash h (last es)
  ∧ current_hash e = compute_hash e.
Proof.
  revert h. induction es as [|x es IH]; intros h; cbn [verify_from app].
  - rewrite <-verify_self_hash_ok. case_bool_decide; simpl; [|naive_solver].
    destruct (verify_self_hash e) as [[]|]; naive_solver.
  - case_bool_decide; simpl; [|naive_solver].
    destruct (verify_self_hash x) as [[]|]; [|naive_solver].
    rewrite IH, last_cons. by destruct (last es).
Qed.

Lemma verify_from_prefix h es fs : verify_from h (es ++ fs) = Ok () → verify_from h es = Ok ().
Proof.
  revert h. induction es as [|x es IH]; intros h; simpl; [done|].
  repeat (case_match; simplify_eq/=; try done). apply IH.
Qed.

Lemma verify_from_self_hash h es e : verify_from h es = Ok () → e ∈ es → current_hash e = compute_hash e.
Proof.
  intros Hv (l1 & l2 & ->)%list_elem_of_split.
  rewrite (assoc_L (++) l1 [e] l2 : l1 ++ e :: l2 = (l1 ++ [e]) ++ l2) in Hv.
  apply verify_from_prefix, verify_from_snoc in Hv. tauto.
Qed.

Lemma head_of_snoc es e : head_of (es ++ [e]) = current_hash e.
Proof. unfold head_of. by rewrite last_snoc. Qed.

Lemma verify_chain_ok es :
  verify_chain es = Ok () ↔
  Z.of_nat (length es) ≤ MAX_EVENTS ∧ verify_from GENESIS_HASH es = Ok ().
Proof.
  unfold verify_chain. destruct (Z.ltb_spec MAX_EVENTS (Z.of_nat (length es))).
  - split; [done|lia].
  - split; [by split|tauto].
Qed.

(** Two records of the journals whose encodings differ and hash alike. *)
Definition collision (es fs : list GuardEvent) : Prop :=
  ∃ e f, e ∈ es ∧ f ∈ fs ∧ canonical_bytes e ≠ canonical_bytes f
    ∧ sha256_hex (canonical_bytes e) = sha256_hex (canonical_bytes f).

(** A record that hashes to the genesis constant. *)
Definition genesis_preimage (es : list GuardEvent) : Prop :=
  ∃ e, e ∈ es ∧ sha256_hex (canonical_bytes e) = GENESIS_HASH.

Lemma collision_app es es' fs fs' : collision es fs → collision (es ++ es') (fs ++ fs').
Proof. intros (e & f & ? & ? & ?). exists e, f. set_solver. Qed.

Lemma head_determines_chain es fs :
  Forall representable es → Forall representable fs →
  verify_from GENESIS_HASH es = Ok () → verify_from GENESIS_HASH fs = Ok () →
  head_of es = head_of fs →
  es = fs ∨ collision es fs ∨ (length es ≠ length fs ∧ genesis_preimage (es ++ fs)).
Proof.
  revert fs. induction es as [|e es IH] using rev_ind; intros fs Res Rfs Ves Vfs Hh.
  - destruct fs as [|f fs _] using rev_ind; [by left|]. do 2 right.
    rewrite head_of_snoc in Hh. apply verify_from_snoc in Vfs as (_ & _ & Hf).
    split; [rewrite length_app; simpl; lia|]. exists f. split; [set_solver|]. by rewrite Hf in Hh.
  - apply verify_from_snoc in Ves as (Ves & Pe & He). rewrite head_of_snoc in Hh.
    destruct fs as [|f fs _] using rev_ind.
    { do 2 right. split; [rewrite length_app; simpl; lia|]. exists e.
      split; [set_solver|]. by rewrite He in Hh. }
    apply verify_from_snoc in Vfs as (Vfs & Pf & Hf). rewrite head_of_snoc in Hh.
    apply Forall_app in Res as [Res [Re _]%Forall_cons].
    apply Forall_app in Rfs as [Rfs [Rf _]%Forall_cons].
    destruct (decide (canonical_bytes e = canonical_bytes f)) as [Hc|Hc].
    + assert (e = f) as -> by (by apply event_determined).
      destruct (IH fs) as [->|[Hcol|[Hl (g & Hg & ?)]]]; [done..| | | |].
      * unfold head_of. by rewrite <-Pe, <-Pf.
      * by left.
      * right; left. by apply collision_app.
      * do 2 right. split; [rewrite !length_app; simpl; lia|]. exists g. set_solver.
    + right; left. exists e, f. split_and!; [set_solver..|done|].
      by rewrite He, Hf in Hh.
Qed.

End Chain.

(** ** Theorems *)

(** C12: The journal is tamper evident.  Two journals that replay as valid chains and
    end in the same hash are the same list of records, field by field: nothing was
    changed, reordered, inserted or removed, or else SHA-256 collided on two of
    their records, or (only when the lengths differ) hashed a record to the
    genesis constant. *)
Theorem same_head_same_journal `{HostLaws} (es fs : list GuardEvent) :
  Forall representable es → Forall representable fs →
  verify_chain es = Ok () → verify_chain fs = Ok () → head_of es = head_of fs →
  es = fs ∨ collision es fs ∨ (length es ≠ length fs ∧ genesis_preimage (es ++ fs)).
Proof.
  intros ?? [_ ?]%verify_chain_ok [_ ?]%verify_chain_ok ?. by apply head_determines_chain.
Qed.

(** The canonical encoding is injective: equal encodings come from records that
    agree on every field except the hash of the encoding itself. *)
Theorem canonical_encoding_injective `{HostLaws} (e f : GuardEvent) :
  representable e → representable f → canonical_bytes e = canonical_bytes f →
  with_hash e = with_hash f.
Proof.
  intros He Hf Hc. pose proof Hc as Hi. apply canonical_bytes_inj in Hi; [|done..].
  unfold with_hash, compute_hash. rewrite Hc. destruct e, f; simpl in *. by destruct_and!; subst.
Qed.

(** A record built on the head of a valid chain extends it: the longer chain
    verifies within the replay bound, the record passes its own bounds, and the
    new head is its hash.  Every prefix of a valid chain verifies, which is why a
    removed tail shows only against an anchored head. *)
Theorem new_extends_chain `{HostLaws} (es : list GuardEvent) now id input e :
  verify_chain es = Ok () → new now id input (head_of es) = Ok e →
  (verify_chain (es ++ [e]) = Ok () ↔ Z.of_nat (length es) < MAX_EVENTS)
  ∧ verify_bounds e = Ok () ∧ head_of (es ++ [e]) = compute_hash e
  ∧ (∀ fs, fs `prefix_of` es → verify_chain fs = Ok ()).
Proof.
  rewrite !verify_chain_ok. intros [Hl Hv]. unfold new.
  destruct (validate input) as [[]|] eqn:Hi; [|done].
  destruct (is_sha256_hex (head_of es)) eqn:Hh; simpl; [|done]. intros [= <-].
  split_and!.
  - rewrite verify_from_snoc, length_app. simpl. unfold head_of. split; [lia|].
    intros. split_and!; done || lia.
  - unfold verify_bounds. simpl. unfold input_of. simpl.
    replace (validate _) with (validate input) by (by destruct input). rewrite Hi, Hh.
    unfold compute_hash. by rewrite sha256_hex_shape.
  - apply head_of_snoc.
  - intros fs [gs ->]. rewrite length_app in Hl. apply verify_chain_ok.
    split; [lia|]. by eapply verify_from_prefix.
Qed.

(** ** A concrete host

    An instance of [Host] that satisfies [HostLaws], for evaluating examples: a
    polynomial hash written as 64 hexadecimal digits, and fixed-width names. *)
Module Sample.

Definition hex_digit (z : Z) : Byte := byte (if z <? 10 then 48 + z else 87 + z).

Fixpoint hex (k : nat) (n : Z) : list Byte :=
  match k with
  | O => []
  | S k => hex k (n / 16) ++ [hex_digit (n mod 16)]
  end.

Definition poly (bytes : list Byte) : Z :=
  foldl (λ h c, (h * 31 + byte_of c + 1) mod 2 ^ 31) 7 bytes.

#[global] Instance host : Host := {|
  sha256_hex bytes := String.string_of_list_ascii (hex 64 (poly bytes));
  to_rfc3339 t := String.string_of_list_ascii (be_bytes 10 (t + chrono_bound));
  uuid_to_string u := String.string_of_list_ascii (be_bytes 36 (Z.of_N u)) |}.

Lemma chars_of_list_ascii l : chars (String.string_of_list_ascii l) = l.
Proof. apply String.list_ascii_of_string_of_list_ascii. Qed.

Lemma length_hex k n : length (hex k n) = k.
Proof. revert n. induction k as [|k IH]; intros; simpl; [done|]. rewrite length_app, IH. simpl. lia. Qed.

Lemma hex_digit_shape z : 0 ≤ z < 16 → is_lower_hex (hex_digit z) = true.
Proof.
  intros Hz. unfold is_lower_hex, is_ascii_digit, in_range, hex_digit.
  destruct (Z.ltb_spec z 10); rewrite byte_of_byte by lia; lia.
Qed.

Lemma hex_shape k n : forallb is_lower_hex (hex k n) = true.
Proof.
  revert n. induction k as [|k IH]; intros; [done|]. simpl. rewrite forallb_app, IH. simpl.
  rewrite hex_digit_shape; [done|]. apply Z.mod_pos_bound. lia.
Qed.

Lemma string_of_inj l m :
  String.string_of_list_ascii l = String.string_of_list_ascii m → l = m.
Proof. intros Heq. by rewrite <-(chars_of_list_ascii l), <-(chars_of_list_ascii m), Heq. Qed.

#[global] Instance host_laws : HostLaws host.
Proof.
  split; unfold is_instant, is_uuid; cbn [to_rfc3339 uuid_to_string sha256_hex host].
  - intros t u Ht Hu Heq%string_of_inj. revert Ht Hu.
    assert (Hw : 2 * chrono_bound < 256 ^ Z.of_nat 10) by (vm_compute; reflexivity).
    revert Hw Heq. generalize chrono_bound as c. intros c Hw Heq Ht Hu.
    apply be_bytes_inj in Heq; revert Hw; generalize (256 ^ Z.of_nat 10); lia.
  - intros t Ht. rewrite <-length_chars_Z, chars_of_list_ascii, length_be_bytes. lia.
  - intros u v Hu Hv Heq%string_of_inj. revert Hu Hv.
    assert (Hw : Z.of_N (2 ^ 128) < 256 ^ Z.of_nat 36) by (vm_compute; reflexivity).
    revert Hw. generalize (2 ^ 128)%N as c. intros c Hw Hu Hv.
    apply be_bytes_inj in Heq; revert Hw; generalize (256 ^ Z.of_nat 36); lia.
  - intros u Hu. by rewrite <-length_chars_Z, chars_of_list_ascii, length_be_bytes.
  - intros bytes. unfold is_sha256_hex, all_bytes.
    by rewrite <-length_chars_Z, chars_of_list_ascii, length_hex, hex_shape.
Qed.

Definition input (n : Z) : EventInput := {|
  i_sandbox_id := 7; i_tenant_id := 9; i_policy_hash := ""; i_category := Dns;
  i_decision := Deny; i_reason := "zone not allowed"; i_destination := Some "example.com"%string;
  i_request_bytes := n; i_response_bytes := 0; i_duration_ms := 2 |}.

Definition first : GuardEvent := with_hash {|
  timestamp := 1000; event_id := 1; sandbox_id := 7; tenant_id := 9; policy_hash := "";
  category := Dns; decision := Deny; reason := "zone not allowed";
  destination := Some "example.com"%string; request_bytes := 10; response_bytes := 0;
  duration_ms := 2; previous_hash := GENESIS_HASH; current_hash := "" |}.

Lemma first_representable : representable first.
Proof. by split. Qed.

Lemma same_head_same_journal_witness :
  verify_chain [first] = Ok () ∧
  ([first] = [first] ∨ collision [first] [first]
   ∨ (length [first] ≠ length [first] ∧ genesis_preimage ([first] ++ [first]))).
Proof.
  split; [vm_compute; reflexivity|].
  apply same_head_same_journal;
    [by repeat constructor|by repeat constructor|vm_compute; reflexivity|vm_compute; reflexivity|done].
Defined.

Lemma canonical_encoding_injective_witness : with_hash first = with_hash first.
Proof.
  apply canonical_encoding_injective; [apply first_representable|apply first_representable|done].
Defined.

Lemma new_extends_chain_witness :
  is_ok (new 2000 2 (input 11) (head_of [first])) = true
  ∧ (∀ e, new 2000 2 (input 11) (head_of [first]) = Ok e → verify_chain [first; e] = Ok ()).
Proof.
  split; [vm_compute; reflexivity|]. intros e He.
  destruct (new_extends_chain [first] 2000 2 (input 11) e) as [[_ Hv] _];
    [vm_compute; reflexivity|exact He|]. apply Hv. vm_compute. reflexivity.
Defined.

End Sample.
