(* ===== verification/Journal.v ===== *)
(** * Journal: the append-only event file

    [crates/aiec-guard/src/events/file.rs]: the sink that appends records to a
    newline-delimited file, the replay that reads them back, rotation, and the two
    paged readers.

    The live file is the list of its bytes; path checks, permissions and the
    advisory lock are not modelled, and what the kernel answers to a write, an
    fsync or a rename is an argument of the operation.  The remote queue a record
    is offered to after it is durable does not change the journal; it is in [Remote].
    serde's JSON form of a record is the operations of [Json]; [JsonLaws] states
    that it reads back what it wrote and writes no newline. *)

From S2P Require Import Prelude Events.

Definition newline : Byte := byte 10.

Class Json := {
  to_vec : GuardEvent → option (list Byte);
  from_slice : list Byte → option GuardEvent }.

Class JsonLaws (J : Json) : Prop := {
  json_round_trip e l : representable e → to_vec e = Some l → from_slice l = Some e;
  json_no_newline e l : to_vec e = Some l → newline ∉ l;
  json_nonempty e l : to_vec e = Some l → l ≠ [] }.

Definition flen (bytes : list Byte) : Z := Z.of_nat (length bytes).

Record Journal := {
  content : list Byte; head : string; count : Z; broken : bool; poisoned : bool }.

Inductive WriteOutcome := Written | Torn (n : nat).

(** [EventPage] and [Rotation]. *)
Record EventPage := {
  offset : Z; events : list GuardEvent; first_previous_hash : option string;
  last_hash : option string; has_more : bool }.

Record Rotation := { archive : list Byte; records : Z; previous_head : option string }.

Section WithJson.
Context `{Host, Json}.

Definition lock (j : Journal) : result GuardError.t () :=
  bail_if j.(poisoned) with GuardError.Integrity; Ok ().

Definition refuse_if_broken (j : Journal) : result GuardError.t () :=
  bail_if j.(broken) with GuardError.Integrity; Ok ().

(** The record [append_locked] is about to write. *)
Definition prepare (now : Instant) (id : Uuid) (input : EventInput) (j : Journal)
    : result GuardError.t (GuardEvent * list Byte) :=
  let? _ := validate input in
  let? _ := lock j in
  let? _ := refuse_if_broken j in
  let? event := new now id input j.(head) in
  let? line := ok_or (to_vec event) GuardError.Json in
  bail_if MAX_LINE_BYTES <? flen line + 1 with GuardError.Denied;
  Ok (event, line ++ [newline]).

Definition with_content (j : Journal) (c : list Byte) : Journal := {|
  content := c; head := j.(head); count := j.(count); broken := j.(broken);
  poisoned := j.(poisoned) |}.

Definition append_locked (io : WriteOutcome) (fsync : bool) (now : Instant) (id : Uuid)
    (input : EventInput) (j : Journal) : Journal * result GuardError.t GuardEvent :=
  match prepare now id input j with
  | Err e => (j, Err e)
  | Ok (event, record) =>
      match io with
      | Torn n => (with_content j (j.(content) ++ take n record), Err GuardError.Io)
      | Written =>
          if negb fsync then (with_content j (j.(content) ++ record), Err GuardError.Io)
          else
            ({| content := j.(content) ++ record; head := event.(current_hash);
                count := j.(count) + 1; broken := j.(broken); poisoned := j.(poisoned) |},
             Ok event)
      end
  end.

(** ** Reading *)

(** [BufRead::read_until(b'\n')]: the bytes up to and including the newline. *)
Fixpoint read_until (bytes : list Byte) : list Byte * list Byte :=
  match bytes with
  | [] => ([], [])
  | b :: bytes =>
      if decide (b = newline) then ([b], bytes)
      else let '(line, rest) := read_until bytes in (b :: line, rest)
  end.

Definition next_record (bytes : list Byte)
    : result GuardError.t (option (list Byte * list Byte)) :=
  let '(buffer, rest) := read_until bytes in
  if decide (buffer = []) then Ok None
  else
    bail_if negb (bool_decide (last buffer = Some newline)) with GuardError.Integrity;
    let record := removelast buffer in
    bail_if bool_decide (record = []) with GuardError.Integrity;
    bail_if MAX_LINE_BYTES <? flen record with GuardError.Integrity;
    Ok (Some (record, rest)).

Definition parse_record (record : list Byte) : result GuardError.t GuardEvent :=
  let? event := ok_or (from_slice record) GuardError.Integrity in
  let? _ := verify_bounds event in
  let? _ := map_err (λ _, GuardError.Integrity) (verify_self_hash event) in
  Ok event.

(** Each record consumes at least one byte, so a fuel above the length of the
    file is enough; running out is reported as an I/O error. *)
Fixpoint read_loop (fuel : nat) (seen : Z) (bytes : list Byte)
    : result GuardError.t (list GuardEvent) :=
  match fuel with
  | O => Err GuardError.Io
  | S fuel =>
      let? next := next_record bytes in
      match next with
      | None => Ok []
      | Some (record, rest) =>
          bail_if MAX_EVENTS <=? seen with GuardError.Integrity;
          let? event := parse_record record in
          let? events := read_loop fuel (seen + 1) rest in
          Ok (event :: events)
      end
  end.

(** The file is [None] when it does not exist. *)
Definition read_events (file : option (list Byte)) : result GuardError.t (list GuardEvent) :=
  match file with
  | None => Ok []
  | Some bytes =>
      bail_if MAX_JOURNAL_BYTES <? flen bytes with GuardError.Integrity;
      let? events := read_loop (S (length bytes)) 0 bytes in
      let? _ := verify_chain events in
      Ok events
  end.

Definition verify_file (file : option (list Byte)) : result GuardError.t Z :=
  let? events := read_events file in Ok (Z.of_nat (length events)).

Definition open (file : option (list Byte)) : result GuardError.t Journal :=
  let? existing := read_events file in
  Ok {| content := default [] file; head := head_of existing;
        count := Z.of_nat (length existing); broken := false; poisoned := false |}.

(** ** Rotation *)
Definition validated_suffix (suffix : string) : result GuardError.t () :=
  bail_if is_empty suffix || (32 <? slen suffix) with GuardError.Denied;
  bail_if negb (all_bytes (λ b, is_ascii_alphanumeric b || is_one_of ".-_" b) suffix)
    with GuardError.Denied;
  Ok ().

Definition reopen_after_rename (j : Journal) : Journal := {|
  content := []; head := GENESIS_HASH; count := 0; broken := j.(broken);
  poisoned := j.(poisoned) |}.

(** [sync_ok], [rename_ok] and [reopen_ok] are the answers of the file system.  A sink that
    could not reopen is broken: its [content], still the file that was renamed, is written no
    more. *)
Definition rotate (suffix : string) (archive_exists sync_ok rename_ok reopen_ok : bool)
    (j : Journal) : Journal * result GuardError.t Rotation :=
  match
    (let? _ := validated_suffix suffix in
     bail_if archive_exists with GuardError.Denied;
     let? _ := lock j in
     let? _ := refuse_if_broken j in
     let? sealed := read_events (Some j.(content)) in
     bail_if negb sync_ok with GuardError.Io;
     bail_if negb rename_ok with GuardError.Io;
     Ok sealed)
  with
  | Err e => (j, Err e)
  | Ok sealed =>
      if negb reopen_ok
      then ({| content := j.(content); head := j.(head); count := j.(count); broken := true;
               poisoned := j.(poisoned) |}, Err GuardError.Io)
      else (reopen_after_rename j,
            Ok {| archive := j.(content); records := Z.of_nat (length sealed);
                  previous_head := current_hash <$> last sealed |})
  end.

(** ** Pages *)
Definition page_of (off : Z) (es : list GuardEvent) (more : bool) : EventPage := {|
  offset := off; events := es;
  first_previous_hash := previous_hash <$> (List.hd_error es);
  last_hash := current_hash <$> last es; has_more := more |}.

(** [skipped] and [taken] are the counters of the loop. *)
Fixpoint page_loop (fuel : nat) (off limit skipped taken : Z) (bytes : list Byte)
    : result GuardError.t (list GuardEvent * bool) :=
  match fuel with
  | O => Err GuardError.Io
  | S fuel =>
      let? next := next_record bytes in
      match next with
      | None => Ok ([], false)
      | Some (record, rest) =>
          if skipped <? off then page_loop fuel off limit (skipped + 1) taken rest
          else if taken =? limit then Ok ([], true)
          else
            let? event := parse_record record in
            let? page := page_loop fuel off limit skipped (taken + 1) rest in
            Ok (event :: fst page, snd page)
      end
  end.

Definition read_events_page (file : option (list Byte)) (off limit : Z)
    : result GuardError.t EventPage :=
  bail_if (limit =? 0) || (MAX_PAGE_EVENTS <? limit) with GuardError.Denied;
  bail_if MAX_EVENTS <=? off with GuardError.Denied;
  match file with
  | None => Ok (page_of off [] false)
  | Some bytes =>
      bail_if MAX_JOURNAL_BYTES <? flen bytes with GuardError.Integrity;
      let? page := page_loop (S (length bytes)) off limit 0 0 bytes in
      Ok (page_of off (fst page) (snd page))
  end.

(** [reader.take(n).read_until(b'\n')]. *)
Definition read_until_bounded (n : Z) (bytes : list Byte) : list Byte * list Byte :=
  let '(line, _) := read_until (take (Z.to_nat n) bytes) in
  (line, drop (length line) bytes).

(** The verification loop of [verified_snapshot]: it returns the records after
    [off], and the count and hash it ended at. *)
Fixpoint snapshot_loop (fuel : nat) (off n total held : Z) (expected : string)
    (bytes : list Byte) : result GuardError.t (list GuardEvent * Z * string) :=
  match fuel with
  | O => Err GuardError.Io
  | S fuel =>
      let '(record, rest) := read_until_bounded (MAX_LINE_BYTES + 2) bytes in
      let size := flen record in
      if size =? 0 then Ok ([], n, expected)
      else
        let total := saturating_add u64_max total size in
        let n := n + 1 in
        bail_if negb (bool_decide (last record = Some newline)) || (MAX_LINE_BYTES + 1 <? size)
                || (MAX_EVENTS <? n) || (MAX_JOURNAL_BYTES <? total) with GuardError.Integrity;
        let? event := parse_record (removelast record) in
        bail_if negb (bool_decide (event.(previous_hash) = expected)) with GuardError.Integrity;
        if off <? n then
          bail_if held =? MAX_PAGE_EVENTS with GuardError.Integrity;
          let? out := snapshot_loop fuel off n total (held + 1) event.(current_hash) rest in
          Ok (event :: out.1.1, out.1.2, out.2)
        else snapshot_loop fuel off n total held event.(current_hash) rest
  end.

(** [same_file]: the path still names the regular file the sink owns. *)
Definition verified_snapshot (after : Z) (same_file : bool) (j : Journal)
    : result GuardError.t (EventPage * (Z * string)) :=
  let? _ := lock j in
  let? _ := refuse_if_broken j in
  bail_if (j.(count) <? after) || ((0 <? after) && (MAX_PAGE_EVENTS <? j.(count) - after))
    with GuardError.Integrity;
  bail_if negb same_file || (MAX_JOURNAL_BYTES <? flen j.(content)) with GuardError.Integrity;
  let off := if after =? 0 then saturating_sub j.(count) MAX_PAGE_EVENTS else after in
  let? out := snapshot_loop (S (length j.(content))) off 0 0 0 GENESIS_HASH j.(content) in
  let '(es, n, expected) := out in
  bail_if negb (n =? j.(count)) || negb (bool_decide (expected = j.(head)))
    with GuardError.Integrity;
  Ok (page_of off es false, (n, expected)).

End WithJson.

#[global] Arguments read_events : simpl never.
#[global] Arguments prepare : simpl never.

(** ** Lemmas: what the file holds *)
Section Stored.
Context `{HostLaws, JsonLaws}.

(** A file that holds exactly the records [es], one per line. *)
Inductive stored : list GuardEvent → list Byte → Prop :=
| stored_nil : stored [] []
| stored_cons e l es bytes :
    to_vec e = Some l → flen l < MAX_LINE_BYTES → representable e →
    verify_bounds e = Ok () → current_hash e = compute_hash e →
    stored es bytes → stored (e :: es) (l ++ newline :: bytes).

Lemma stored_snoc es bytes e l :
  stored es bytes → to_vec e = Some l → flen l < MAX_LINE_BYTES → representable e →
  verify_bounds e = Ok () → current_hash e = compute_hash e →
  stored (es ++ [e]) (bytes ++ l ++ [newline]).
Proof.
  intros Hs Hl Hm Hr Hb Hh. induction Hs; simpl; [exact (stored_cons e l [] [] Hl Hm Hr Hb Hh stored_nil)|].
  rewrite <-app_assoc. simpl. by constructor.
Qed.

Lemma read_until_line l rest :
  newline ∉ l → read_until (l ++ newline :: rest) = (l ++ [newline], rest).
Proof.
  induction l as [|b l IH]; intros Hl; cbn [app read_until]; [by rewrite decide_True|].
  rewrite decide_False by set_solver. rewrite IH by set_solver. done.
Qed.

Lemma removelast_snoc {A} (l : list A) x : removelast (l ++ [x]) = l.
Proof. apply List.removelast_last. Qed.

Lemma next_record_line e l rest :
  to_vec e = Some l → flen l < MAX_LINE_BYTES →
  next_record (l ++ newline :: rest) = Ok (Some (l, rest)).
Proof.
  intros Hl Hm. unfold next_record.
  rewrite read_until_line by (by eapply json_no_newline).
  rewrite decide_False by (by destruct l). rewrite last_snoc, bool_decide_true by done. simpl.
  rewrite removelast_snoc, bool_decide_false by (by eapply json_nonempty).
  destruct (Z.ltb_spec MAX_LINE_BYTES (flen l)); [lia|done].
Qed.

Lemma parse_record_line e l :
  to_vec e = Some l → representable e → verify_bounds e = Ok () →
  current_hash e = compute_hash e → parse_record l = Ok e.
Proof.
  intros Hl Hr Hb Hh. unfold parse_record. rewrite (json_round_trip e l Hr Hl). simpl.
  rewrite Hb. by apply verify_self_hash_ok in Hh as ->.
Qed.

Lemma flen_app a b : flen (a ++ b) = flen a + flen b.
Proof. unfold flen. rewrite length_app. lia. Qed.

Lemma length_line (l bytes : list Byte) :
  length (l ++ newline :: bytes) = (length l + S (length bytes))%nat.
Proof. by rewrite length_app. Qed.

Lemma read_loop_stored es bytes fuel seen :
  stored es bytes → (length bytes < fuel)%nat → seen + Z.of_nat (length es) ≤ MAX_EVENTS →
  read_loop fuel seen bytes = Ok es.
Proof.
  intros Hs. revert fuel seen. induction Hs as [|e l es bytes Hl Hm Hr Hb Hh Hs IH];
    intros [|fuel] seen Hf Hn; simpl in Hf; try lia; [done|].
  cbn [read_loop]. rewrite (next_record_line e) by done.
  destruct (Z.leb_spec MAX_EVENTS seen); [simpl in Hn; lia|].
  rewrite (parse_record_line e) by done.
  rewrite length_line in Hf. rewrite IH; [done|lia|]. simpl in Hn. lia.
Qed.

Lemma read_loop_stored_inv es bytes fuel seen es' :
  stored es bytes → read_loop fuel seen bytes = Ok es' → es' = es.
Proof.
  intros Hs. revert fuel seen es'. induction Hs as [|e l es bytes Hl Hm Hr Hb Hh Hs IH];
    intros [|fuel] seen es'; try done; [by intros [= <-]|].
  cbn [read_loop]. rewrite (next_record_line e) by done. destruct (_ <=? _); [done|].
  rewrite (parse_record_line e) by done.
  destruct (read_loop fuel _ _) as [es''|] eqn:Hl'; [|done]. intros [= <-].
  by apply IH in Hl' as ->.
Qed.

(** What follows stored records does not hide them. *)
Lemma read_loop_stored_prefix es bytes tail fuel seen all :
  stored es bytes → read_loop fuel seen (bytes ++ tail) = Ok all → ∃ later, all = es ++ later.
Proof.
  intros Hs. revert fuel seen all. induction Hs as [|e l es bytes Hl Hm Hr Hb Hh Hs IH];
    intros [|fuel] seen all; try done; [by exists all|].
  rewrite <-(assoc_L (++)). cbn [app read_loop]. rewrite (next_record_line e) by done. destruct (_ <=? _); [done|].
  rewrite (parse_record_line e) by done.
  destruct (read_loop fuel _ _) as [es'|] eqn:Hl'; [|done]. intros [= <-].
  apply IH in Hl' as [later ->]. by exists later.
Qed.

Lemma read_events_stored_prefix es bytes tail all :
  stored es bytes → read_events (Some (bytes ++ tail)) = Ok all → ∃ later, all = es ++ later.
Proof.
  intros Hs. unfold read_events. generalize (S (length (bytes ++ tail))) as fuel. intros fuel.
  destruct (_ <? _); [done|]. destruct (read_loop fuel 0 _) as [es'|] eqn:Hl; [|done].
  destruct (verify_chain es') as [[]|]; [|done]. intros [= <-]. by eapply read_loop_stored_prefix.
Qed.

Lemma read_events_stored_inv es bytes es' :
  stored es bytes → read_events (Some bytes) = Ok es' → es' = es ∧ verify_chain es = Ok ().
Proof.
  intros Hs. unfold read_events. generalize (S (length bytes)) as fuel. intros fuel.
  destruct (_ <? _); [done|]. destruct (read_loop fuel 0 bytes) as [es''|] eqn:Hl; [|done].
  apply (read_loop_stored_inv es) in Hl as ->; [|done].
  destruct (verify_chain es) as [[]|]; [|done]. by intros [= <-].
Qed.

Lemma page_loop_stored es bytes fuel off limit skipped taken :
  stored es bytes → (length bytes < fuel)%nat → 0 ≤ skipped ≤ off → 0 ≤ taken ≤ limit →
  let es' := drop (Z.to_nat (off - skipped)) es in
  page_loop fuel off limit skipped taken bytes
  = Ok (take (Z.to_nat (limit - taken)) es', bool_decide (limit - taken < Z.of_nat (length es'))).
Proof.
  intros Hs. revert fuel skipped taken. induction Hs as [|e l es bytes Hl Hm Hr Hb Hh Hs IH];
    intros [|fuel] skipped taken Hf Hsk Ht; try (simpl in Hf; lia).
  { cbn [page_loop]. simpl. rewrite drop_nil, take_nil. simpl. by rewrite bool_decide_false by lia. }
  rewrite length_line in Hf. cbn [page_loop]. rewrite (next_record_line e) by done.
  destruct (Z.ltb_spec skipped off).
  { rewrite IH by lia. replace (Z.to_nat (off - skipped)) with (S (Z.to_nat (off - (skipped + 1)))) by lia.
    done. }
  replace (Z.to_nat (off - skipped)) with 0%nat by lia. rewrite drop_0.
  destruct (Z.eqb_spec taken limit) as [->|Hne].
  { rewrite Z.sub_diag, bool_decide_true by (cbn [length]; lia). done. }
  rewrite (parse_record_line e) by done. rewrite IH by lia.
  replace (Z.to_nat (off - skipped)) with 0%nat by lia. rewrite drop_0. simpl.
  replace (Z.to_nat (limit - taken)) with (S (Z.to_nat (limit - (taken + 1)))) by lia. simpl.
  do 2 f_equal. apply bool_decide_ext. lia.
Qed.

Lemma read_until_bounded_line l rest n :
  newline ∉ l → flen l < n →
  read_until_bounded n (l ++ newline :: rest) = (l ++ [newline], rest).
Proof.
  intros Hl Hn. unfold read_until_bounded, flen in *. rewrite take_app.
  rewrite (take_ge l) by lia.
  replace (Z.to_nat n - length l)%nat with (S (Z.to_nat n - length l - 1)) by lia.
  cbn [take]. rewrite read_until_line by done. rewrite length_app. simpl.
  f_equal. rewrite drop_app_ge by lia. replace (length l + 1 - length l)%nat with 1%nat by lia. done.
Qed.

Lemma snapshot_loop_stored es bytes fuel off n total held expected :
  stored es bytes → verify_from expected es = Ok () → (length bytes < fuel)%nat →
  0 ≤ n → 0 ≤ total → total + flen bytes ≤ MAX_JOURNAL_BYTES →
  n + Z.of_nat (length es) ≤ MAX_EVENTS →
  held = Z.max 0 (n - off) → n + Z.of_nat (length es) - off ≤ MAX_PAGE_EVENTS →
  snapshot_loop fuel off n total held expected bytes
  = Ok (drop (Z.to_nat (off - n)) es, n + Z.of_nat (length es),
        from_option current_hash expected (last es)).
Proof.
  intros Hs. revert fuel n total held expected.
  induction Hs as [|e l es bytes Hl Hm Hr Hb Hh Hs IH];
    intros [|fuel] n total held expected Hv Hf Hn Ht Hj He Hheld Hp; try (simpl in Hf; lia).
  { simpl. rewrite drop_nil. by rewrite Z.add_0_r. }
  rewrite length_line in Hf. cbn [snapshot_loop].
  assert (Hnl : newline ∉ l) by (by eapply json_no_newline).
  rewrite (read_until_bounded_line l) by (done || lia). rewrite flen_app in *.
  change (flen (newline :: bytes)) with (Z.of_nat (S (length bytes))) in *.
  change (flen [newline]) with 1. cbn [length] in *.
  assert (0 ≤ flen l) by (unfold flen; lia). assert (0 ≤ flen bytes) by (unfold flen; lia).
  destruct (Z.eqb_spec (flen l + 1) 0); [lia|].
  unfold saturating_add, MAX_JOURNAL_BYTES in *. rewrite Z.min_r by (unfold u64_max; lia).
  rewrite last_snoc, bool_decide_true by done. cbn [negb orb].
  destruct (Z.ltb_spec (MAX_LINE_BYTES + 1) (flen l + 1)); [lia|]. cbn [orb].
  destruct (Z.ltb_spec MAX_EVENTS (n + 1)); [lia|]. cbn [orb].
  destruct (Z.ltb_spec (64 * 1024 * 1024) (total + (flen l + 1))); [lia|].
  rewrite removelast_snoc, (parse_record_line e) by done.
  cbn [verify_from] in Hv. destruct (bool_decide (previous_hash e = expected)); [|done].
  cbn [negb] in *. destruct (verify_self_hash e) as [[]|]; [|done]. rewrite last_cons.
  assert (Hlast : from_option current_hash (current_hash e) (last es)
          = from_option current_hash expected
              match last es with Some y => Some y | None => Some e end) by (by destruct (last es)).
  unfold flen in *.
  destruct (Z.ltb_spec off (n + 1)).
  - destruct (Z.eqb_spec held MAX_PAGE_EVENTS); [lia|].
    rewrite IH by (done || lia). cbn [fst snd].
    replace (Z.to_nat (off - (n + 1))) with 0%nat by lia.
    replace (Z.to_nat (off - n)) with 0%nat by lia. rewrite !drop_0, Hlast. do 3 f_equal. lia.
  - rewrite IH by (done || lia).
    replace (Z.to_nat (off - n)) with (S (Z.to_nat (off - (n + 1)))) by lia.
    rewrite Hlast. cbn [drop]. do 3 f_equal. lia.
Qed.

End Stored.

(** ** Lemmas: the sink's invariant *)
Section Healthy.
Context `{HostLaws, JsonLaws}.

(** The sink agrees with its file: it holds the records [es], they chain from
    genesis, and the head and count in memory are theirs. *)
Record healthy (j : Journal) (es : list GuardEvent) : Prop := {
  healthy_stored : stored es j.(content);
  healthy_chain : verify_from GENESIS_HASH es = Ok ();
  healthy_head : j.(head) = head_of es;
  healthy_count : j.(count) = Z.of_nat (length es);
  healthy_broken : j.(broken) = false;
  healthy_poisoned : j.(poisoned) = false }.

Definition empty_journal : Journal :=
  {| content := []; head := GENESIS_HASH; count := 0; broken := false; poisoned := false |}.

Lemma empty_healthy : healthy empty_journal [].
Proof. split; done || constructor. Qed.

(** The range invariants of the arguments of an append. *)
Definition request_ok (now : Instant) (id : Uuid) (i : EventInput) : Prop :=
  is_instant now ∧ is_uuid id ∧ is_uuid i.(i_sandbox_id) ∧ is_uuid i.(i_tenant_id)
  ∧ is_u64 i.(i_request_bytes) ∧ is_u64 i.(i_response_bytes) ∧ is_u64 i.(i_duration_ms).

Lemma bounded_metadata_ok v m ae :
  bounded_metadata v m ae = Ok () → slen v ≤ Z.max 0 m.
Proof.
  unfold bounded_metadata, is_empty. case_bool_decide; [subst; unfold slen; simpl; lia|].
  destruct (Z.ltb_spec m (slen v)); [done|lia].
Qed.

Lemma new_representable now id i prev e :
  request_ok now id i → new now id i prev = Ok e → representable e.
Proof.
  intros (?&?&?&?&?&?&?). unfold new, validate.
  destruct (bounded_metadata (i_policy_hash i) _ _) as [[]|] eqn:M1; [|done].
  apply bounded_metadata_ok in M1.
  destruct (bounded_metadata (i_reason i) _ _) as [[]|] eqn:M2; [|done].
  apply bounded_metadata_ok in M2. intros Hn.
  assert (Hd : from_option fits True (i_destination i)).
  { destruct (i_destination i) as [d|]; [|done]. simpl.
    destruct (bounded_metadata d _ _) as [[]|] eqn:M3; [|done].
    apply bounded_metadata_ok in M3. unfold fits, u64_max, MAX_DESTINATION_BYTES in *. lia. }
  destruct (is_sha256_hex prev) eqn:Hp; [|by repeat case_match].
  unfold is_sha256_hex in Hp. bools.
  unfold MAX_POLICY_HASH_BYTES, MAX_REASON_BYTES in *.
  repeat case_match; simplify_eq; split; simpl; try done; unfold fits, u64_max; lia.
Qed.

Lemma new_previous now id i prev e :
  new now id i prev = Ok e →
  previous_hash e = prev ∧ current_hash e = compute_hash e ∧ verify_bounds e = Ok ().
Proof.
  unfold new. destruct (validate i) as [[]|] eqn:Hi; [|done].
  destruct (is_sha256_hex prev) eqn:Hp; [|done]. intros [= <-]. split_and!; [done..|].
  unfold verify_bounds, input_of. simpl.
  replace (validate _) with (validate i) by (by destruct i). rewrite Hi, Hp.
  unfold compute_hash. by rewrite sha256_hex_shape.
Qed.

Lemma prepare_ok now id i j e record :
  prepare now id i j = Ok (e, record) →
  new now id i j.(head) = Ok e ∧ ∃ l, to_vec e = Some l ∧ flen l < MAX_LINE_BYTES
  ∧ record = l ++ [newline].
Proof.
  unfold prepare. repeat (case_match; simplify_eq/=; try done).
  intros [= <- <-]. unfold ok_or in *. repeat case_match; simplify_eq. split; [done|].
  eexists. split_and!; [done|lia|done].
Qed.

(** The record an append writes extends what the file holds, acknowledged or not. *)
Lemma prepare_stored now id i j e record es :
  request_ok now id i → prepare now id i j = Ok (e, record) →
  stored es j.(content) → stored (es ++ [e]) (j.(content) ++ record).
Proof.
  intros Hq Hp Hs. apply prepare_ok in Hp as (Hn & l & Hl & Hm & ->).
  pose proof (new_representable _ _ _ _ _ Hq Hn). apply new_previous in Hn as (_ & ? & ?).
  by apply stored_snoc.
Qed.

Lemma append_healthy now id i j es j' e :
  request_ok now id i → healthy j es →
  append_locked Written true now id i j = (j', Ok e) → healthy j' (es ++ [e]).
Proof.
  intros Hq Hj. unfold append_locked. destruct (prepare now id i j) as [[e' record]|] eqn:Hp; [|done].
  simpl. intros [= <- <-]. pose proof (prepare_stored _ _ _ _ _ _ _ Hq Hp (healthy_stored _ _ Hj)).
  apply prepare_ok in Hp as (Hn & _). apply new_previous in Hn as (Hprev & Hh & _).
  destruct Hj as [? Hv Hhead Hcount ? ?]. rewrite Hhead in Hprev.
  split; simpl; [done| | | |done|done].
  - by apply verify_from_snoc.
  - by rewrite head_of_snoc.
  - rewrite length_app. simpl. lia.
Qed.

Lemma append_refused now id i j j' err :
  append_locked Written true now id i j = (j', Err err) → j' = j.
Proof. unfold append_locked. repeat case_match; naive_solver. Qed.

Abbreviation Request := (Instant * Uuid * EventInput)%type (only parsing).

(** A run of appends with no I/O failure: the sink it leads to and the records it
    acknowledged, oldest first. *)
Fixpoint append_all (reqs : list Request) (j : Journal) : Journal * list GuardEvent :=
  match reqs with
  | [] => (j, [])
  | (now, id, i) :: reqs =>
      match append_locked Written true now id i j with
      | (j, Ok e) => let '(j, acked) := append_all reqs j in (j, e :: acked)
      | (j, Err _) => append_all reqs j
      end
  end.

Lemma append_all_healthy reqs j es j' acked :
  Forall (λ '(now, id, i), request_ok now id i) reqs → healthy j es →
  append_all reqs j = (j', acked) → healthy j' (es ++ acked).
Proof.
  intros Hq. revert j es j' acked. induction Hq as [|[[now id] i] reqs Hr Hq IH];
    intros j es j' acked Hj; simpl; [intros [= <- <-]; by rewrite app_nil_r|].
  destruct (append_locked Written true now id i j) as [j1 [e|err]] eqn:Ha.
  - destruct (append_all reqs j1) as [j2 acked'] eqn:Hall. intros [= <- <-].
    rewrite (assoc_L (++) es [e] acked' : es ++ e :: acked' = (es ++ [e]) ++ acked').
    eapply IH; [by eapply append_healthy|done].
  - apply append_refused in Ha as ->. by apply IH.
Qed.

(** Appends whatever the file system answers. *)
Fixpoint append_each (calls : list (WriteOutcome * bool * Request)) (j : Journal) : Journal :=
  match calls with
  | [] => j
  | (io, fsync, (now, id, i)) :: calls => append_each calls (append_locked io fsync now id i j).1
  end.

Lemma append_each_extends calls j : ∃ tail, (append_each calls j).(content) = j.(content) ++ tail.
Proof.
  revert j. induction calls as [|[[io fsync] [[now id] i]] calls IH]; intros j; simpl; [exists []; by rewrite app_nil_r|].
  destruct (IH (append_locked io fsync now id i j).1) as [tail ->].
  assert (∃ new, (append_locked io fsync now id i j).1.(content) = j.(content) ++ new) as [new ->].
  { unfold append_locked. destruct (prepare now id i j) as [[e record]|]; [|exists []; by rewrite app_nil_r].
    destruct io, fsync; by eexists. }
  exists (new ++ tail). by rewrite (assoc_L (++)).
Qed.

Lemma healthy_replays j es :
  healthy j es → flen j.(content) ≤ MAX_JOURNAL_BYTES → Z.of_nat (length es) ≤ MAX_EVENTS →
  read_events (Some j.(content)) = Ok es.
Proof.
  intros [Hs Hv _ _ _ _] Hf He. unfold read_events.
  destruct (Z.ltb_spec MAX_JOURNAL_BYTES (flen j.(content))); [lia|].
  rewrite (read_loop_stored es) by (done || lia).
  by assert (verify_chain es = Ok ()) as -> by (by apply verify_chain_ok).
Qed.

End Healthy.

(** ** Theorems *)

(** C11: Replay returns exactly the acknowledged records, up to the first I/O error.  After
    any sequence of appends none of which met an I/O error, as long as the file is within the
    replay bounds, reading it back yields the acknowledged records in order, and reopening it
    yields the same sink.  Appends that come later, whatever the file system answers them,
    only add bytes after these records: as long as the file can be read at all, it begins with
    them.  (What an error does to the records after it is [fsync_failure_forks_journal].) *)
Theorem acknowledged_records_replay `{HostLaws, JsonLaws} reqs j acked more :
  Forall (λ '(now, id, i), request_ok now id i) reqs →
  append_all reqs empty_journal = (j, acked) →
  (flen j.(content) ≤ MAX_JOURNAL_BYTES → Z.of_nat (length acked) ≤ MAX_EVENTS →
     read_events (Some j.(content)) = Ok acked ∧ open (Some j.(content)) = Ok j ∧ verify_chain acked = Ok ())
  ∧ let j' := append_each more j in
    (∃ tail, j'.(content) = j.(content) ++ tail)
    ∧ ∀ all, read_events (Some j'.(content)) = Ok all → ∃ later, all = acked ++ later.
Proof.
  intros Hq Ha. apply (append_all_healthy _ _ [] _ _ Hq empty_healthy) in Ha. simpl in Ha. split.
  - intros Hf He. pose proof (healthy_replays j acked Ha Hf He) as Hr. unfold open. rewrite Hr. simpl.
    split_and!; [done| |apply verify_chain_ok; split; [done|by apply healthy_chain with j]].
    destruct Ha as [_ _ Hh Hc Hb Hp]. destruct j; simpl in *. by subst.
  - cbv zeta. destruct (append_each_extends more j) as [tail Ht]. split; [by exists tail|]. intros all. rewrite Ht.
    apply read_events_stored_prefix, healthy_stored, Ha.
Qed.

(** An fsync failure forks the journal.  The failed append has already written
    its record but leaves the in-memory head where it was, and the sink is not
    marked broken, so the next append that succeeds is acknowledged and chains to
    the same predecessor: from then on the file no longer replays, unless the
    unacknowledged record hashes to its own predecessor. *)
Theorem fsync_failure_forks_journal `{HostLaws, JsonLaws} j es now1 id1 i1 e1 r1 j1 now2 id2 i2 j2 e2 :
  healthy j es → request_ok now1 id1 i1 → request_ok now2 id2 i2 →
  prepare now1 id1 i1 j = Ok (e1, r1) → compute_hash e1 ≠ j.(head) →
  append_locked Written false now1 id1 i1 j = (j1, Err GuardError.Io) →
  append_locked Written true now2 id2 i2 j1 = (j2, Ok e2) →
  e2.(previous_hash) = e1.(previous_hash) ∧ is_ok (read_events (Some j2.(content))) = false.
Proof.
  intros Hj Hq1 Hq2 Hp1 Hne Ha1 Ha2. unfold append_locked in Ha1. rewrite Hp1 in Ha1.
  simplify_eq/=. pose proof (prepare_stored _ _ _ _ _ _ _ Hq1 Hp1 (healthy_stored _ _ Hj)) as Hs1.
  unfold append_locked in Ha2. destruct (prepare now2 id2 i2 _) as [[e2' r2]|] eqn:Hp2; [|done].
  simplify_eq/=. pose proof (prepare_stored _ _ _ _ _ _ _ Hq2 Hp2 Hs1) as Hs2. simpl in Hs2.
  apply prepare_ok in Hp1 as (Hn1 & _), Hp2 as (Hn2 & _). simpl in Hn2.
  apply new_previous in Hn1 as (Hv1 & Hh1 & _), Hn2 as (Hv2 & _ & _).
  split; [by rewrite Hv1, Hv2|].
  destruct (read_events _) as [es'|] eqn:Hr; [|done]. exfalso.
  apply (read_events_stored_inv _ _ _ Hs2) in Hr as [_ Hv].
  apply verify_chain_ok in Hv as [_ Hv]. apply verify_from_snoc in Hv as (_ & Hv & _).
  rewrite last_snoc in Hv. simpl in Hv. congruence.
Qed.

(** The paged readers show the journal as it is.  On a sink that agrees with its
    file, an operator's page is exactly the records from [off] on, at most [limit]
    of them, and says whether more follow; a watcher's snapshot is exactly the
    records after its position (the latest page for a cold watcher) together with
    the sink's own head, so no evidence is skipped. *)
Theorem pages_show_the_journal `{HostLaws, JsonLaws} j es off limit after :
  healthy j es → flen j.(content) ≤ MAX_JOURNAL_BYTES → Z.of_nat (length es) ≤ MAX_EVENTS →
  0 ≤ off < MAX_EVENTS → 0 < limit ≤ MAX_PAGE_EVENTS →
  0 ≤ after ≤ j.(count) → (0 < after → j.(count) - after ≤ MAX_PAGE_EVENTS) →
  read_events_page (Some j.(content)) off limit
    = Ok (page_of off (take (Z.to_nat limit) (drop (Z.to_nat off) es))
            (bool_decide (off + limit < Z.of_nat (length es))))
  ∧ let from := if after =? 0 then Z.max 0 (j.(count) - MAX_PAGE_EVENTS) else after in
    verified_snapshot after true j
    = Ok (page_of from (drop (Z.to_nat from) es) false, (j.(count), j.(head))).
Proof.
  intros [Hs Hv Hh Hc Hb Hp] Hf He Ho Hl Ha Hpage. split.
  - unfold read_events_page. destruct (Z.eqb_spec limit 0); [lia|].
    destruct (Z.ltb_spec MAX_PAGE_EVENTS limit); [lia|]. cbn [orb].
    destruct (Z.leb_spec MAX_EVENTS off); [lia|].
    destruct (Z.ltb_spec MAX_JOURNAL_BYTES (flen j.(content))); [lia|].
    rewrite (page_loop_stored es) by (done || lia). rewrite !Z.sub_0_r. cbn [fst snd].
    do 2 f_equal. apply bool_decide_ext. rewrite length_drop. lia.
  - unfold verified_snapshot, lock, refuse_if_broken. rewrite Hb, Hp.
    destruct (Z.ltb_spec j.(count) after); [lia|].
    destruct ((0 <? after) && _) eqn:Hx; [bools; lia|]. cbn [orb negb].
    destruct (Z.ltb_spec MAX_JOURNAL_BYTES (flen j.(content))); [lia|].
    unfold saturating_sub. set (from := if after =? 0 then _ else after).
    assert (Hfrom : 0 ≤ from ∧ j.(count) - from ≤ MAX_PAGE_EVENTS).
    { unfold from. destruct (Z.eqb_spec after 0); [|lia]. unfold MAX_PAGE_EVENTS. lia. }
    rewrite (snapshot_loop_stored es) by (done || lia). rewrite Z.sub_0_r, Z.add_0_l.
    rewrite Hc, Z.eqb_refl, Hh. unfold head_of. by rewrite bool_decide_true.
Qed.

(** Rotation seals the journal whole: the archive is the live file byte for
    byte and replays to the same records, the sink continues from genesis on an
    empty file, and a failure after the rename leaves a sink that refuses every
    further append.  A file above the replay bound can no longer be rotated, while
    appends to it are still accepted. *)
Theorem rotate_seals_journal `{HostLaws, JsonLaws} j es suffix :
  healthy j es → Z.of_nat (length es) ≤ MAX_EVENTS → validated_suffix suffix = Ok () →
  (flen j.(content) ≤ MAX_JOURNAL_BYTES →
     ∃ j' r, rotate suffix false true true true j = (j', Ok r)
       ∧ r.(archive) = j.(content) ∧ r.(records) = j.(count)
       ∧ read_events (Some r.(archive)) = Ok es
       ∧ r.(previous_head) = current_hash <$> last es ∧ healthy j' []
     ∧ ∃ j'', rotate suffix false true true false j = (j'', Err GuardError.Io)
       ∧ ∀ io sync now id i, ∃ err, append_locked io sync now id i j'' = (j'', Err err))
  ∧ (MAX_JOURNAL_BYTES < flen j.(content) →
     (∀ s a b c, ∃ err, rotate suffix s a b c j = (j, Err err))
     ∧ ∀ now id i e record, prepare now id i j = Ok (e, record) →
         ∃ j', append_locked Written true now id i j = (j', Ok e)).
Proof.
  intros Hj He Hsuf. pose proof Hj as [Hs Hv Hh Hc Hb Hp].
  unfold rotate, lock, refuse_if_broken. rewrite Hsuf, Hb, Hp. split.
  - intros Hf. rewrite (healthy_replays j es) by done. cbn [negb].
    do 2 eexists. split; [done|]. cbn [archive records previous_head].
    split_and!; [done|by rewrite Hc|by apply healthy_replays|done| |].
    + split; simpl; try done. constructor.
    + eexists. split; [done|]. intros io sync now id i. unfold append_locked, prepare.
      destruct (validate i) as [[]|]; [|by eexists]. unfold lock, refuse_if_broken. simpl.
      rewrite ?Hp. by eexists.
  - intros Hf. split.
    + intros s a b c. destruct s; [by eexists|]. unfold read_events.
      destruct (Z.ltb_spec MAX_JOURNAL_BYTES (flen j.(content))); [by eexists|lia].
    + intros now id i e record Hpr. unfold append_locked. rewrite Hpr. by eexists.
Qed.

(** ** A concrete codec

    An instance of [Json] that satisfies [JsonLaws] on the records the examples
    use: a table of one record under a one-byte name, and nothing else. *)
Module SampleJson.
Import Events.Sample.

Definition second : GuardEvent := with_hash {|
  timestamp := 2000; event_id := 2; sandbox_id := 7; tenant_id := 9; policy_hash := "";
  category := Dns; decision := Deny; reason := "zone not allowed";
  destination := Some "example.com"%string; request_bytes := 11; response_bytes := 0;
  duration_ms := 2; previous_hash := GENESIS_HASH; current_hash := "" |}.

#[global] Instance json : Json := {|
  to_vec e := if decide (e = first) then Some [byte 65]
              else if decide (e = second) then Some [byte 66] else None;
  from_slice l := if decide (l = [byte 65]) then Some first
                  else if decide (l = [byte 66]) then Some second else None |}.

#[global] Instance json_laws : JsonLaws json.
Proof.
  split; cbn [to_vec from_slice json].
  - intros e l _. destruct (decide (e = first)) as [->|]; [by intros [= <-]|].
    destruct (decide (e = second)) as [->|]; [by intros [= <-]|done].
  - intros e l. destruct (decide (e = first)); [intros [= <-]; by apply (bool_decide_unpack _)|].
    destruct (decide (e = second)); [intros [= <-]; by apply (bool_decide_unpack _)|done].
  - intros e l. destruct (decide (e = first)); [by intros [= <-]|].
    destruct (decide (e = second)); [by intros [= <-]|done].
Qed.

Definition req1 := (1000, 1%N, input 10).
Definition after_first : Journal := (append_all [req1] empty_journal).1.

Lemma request_ok_1 : request_ok 1000 1 (input 10).
Proof. by split_and!. Qed.
Lemma request_ok_2 : request_ok 2000 2 (input 11).
Proof. by split_and!. Qed.

Lemma after_first_healthy : healthy after_first [first].
Proof.
  apply (append_all_healthy [req1] empty_journal []); [|apply empty_healthy|vm_compute; reflexivity].
  constructor; [apply request_ok_1|constructor].
Qed.

Lemma acknowledged_records_replay_witness :
  read_events (Some after_first.(content)) = Ok [first] ∧ flen after_first.(content) = 2
  ∧ ∃ tail, (append_each [(Written, false, (2000, 2%N, input 11))] after_first).(content) = after_first.(content) ++ tail.
Proof.
  destruct (acknowledged_records_replay [req1] after_first [first] [(Written, false, (2000, 2%N, input 11))])
    as [Hr [Ht _]];
    [constructor; [apply request_ok_1|constructor]|vm_compute; reflexivity|].
  split; [apply Hr; vm_compute; discriminate|]. split; [vm_compute; reflexivity|exact Ht].
Defined.

Lemma fsync_failure_forks_journal_witness :
  let j1 := (append_locked Written false 1000 1 (input 10) empty_journal).1 in
  let j2 := (append_locked Written true 2000 2 (input 11) j1).1 in
  second.(previous_hash) = first.(previous_hash) ∧ is_ok (read_events (Some j2.(content))) = false.
Proof.
  intros j1 j2.
  apply (fsync_failure_forks_journal empty_journal [] 1000 1 (input 10) first [byte 65; newline] j1
           2000 2 (input 11) j2 second);
    [apply empty_healthy|apply request_ok_1|apply request_ok_2|vm_compute; reflexivity
    |vm_compute; discriminate|vm_compute; reflexivity|vm_compute; reflexivity].
Defined.

Lemma pages_show_the_journal_witness :
  read_events_page (Some after_first.(content)) 0 1 = Ok (page_of 0 [first] false).
Proof.
  apply (pages_show_the_journal after_first [first] 0 1 1 after_first_healthy);
    vm_compute; repeat split; discriminate.
Defined.

Lemma rotate_seals_journal_witness :
  ∃ j' r, rotate ".1" false true true true after_first = (j', Ok r)
    ∧ r.(archive) = after_first.(content) ∧ healthy j' [].
Proof.
  destruct (rotate_seals_journal after_first [first] ".1") as [Hr _];
    [apply after_first_healthy|vm_compute; discriminate|vm_compute; reflexivity|].
  destruct Hr as (j' & r & Hrot & Harch & _ & _ & _ & Hok & _); [vm_compute; discriminate|].
  exact (ex_intro _ j' (ex_intro _ r (conj Hrot (conj Harch Hok)))).
Defined.

End SampleJson.
