(* ===== verification/Policy.v ===== *)
(** * Policy: the strict, versioned Guard policy

    [crates/aiec-guard/src/policy.rs]: the policy documents as records, the
    validation of every field, the four templates, normalization and the selection
    of an effective policy.  Every refusal of this file is the error class
    [GuardError.Policy]; YAML parsing, JSON serialization and hashing are other
    crates and are left out, except that [hash] is a function of [normalized]. *)

From Stdlib Require Import Ascii.
From stdpp Require Import pretty.
From S2P Require Import Prelude.

Abbreviation perr := GuardError.Policy (only parsing).

(** ** Constants *)
Definition POLICY_VERSION : Z := 1.
Definition MAX_HOST_BYTES : Z := 253.
Definition MAX_LABEL_BYTES : Z := 63.
Definition MAX_PATH_BYTES : Z := 512.
Definition MAX_METHOD_BYTES : Z := 32.
Definition MAX_LIST_ITEMS : Z := 32.
Definition MAX_EGRESS_RULES : Z := 128.
Definition MAX_DNS_ZONES : Z := 64.
Definition MAX_CREDENTIAL_BINDINGS : Z := 32.
Definition MAX_RECORD_TYPES : Z := 4.
Definition DEFAULT_CREDENTIAL_BINDING : string := "model-main".
Definition DEFAULT_CREDENTIAL_HEADER : string := "authorization".
Definition EGRESS_PROTOCOL_TCP : string := "tcp".
Definition MODEL_SCHEME_HTTPS : string := "https".
Definition MODEL_SCHEME_HTTP : string := "http".
Definition ALLOWED_CREDENTIAL_HEADERS : list string := ["authorization"; "x-api-key"]%string.
Definition ALLOWED_RECORD_TYPES : list string := ["A"; "AAAA"]%string.
Definition READ_ONLY_METHODS : list string := ["GET"; "HEAD"; "OPTIONS"]%string.
Definition LIMIT_MAX_REQUESTS_PER_MINUTE : Z := 100000.
Definition LIMIT_MAX_DNS_QUERIES_PER_MINUTE : Z := 100000.
Definition LIMIT_MAX_BYTES : Z := Z.shiftl 1 40.
Definition LIMIT_MAX_REQUEST_BYTES : Z := Z.shiftl 64 20.
Definition LIMIT_MAX_RESPONSE_BYTES : Z := Z.shiftl 512 20.
Definition LIMIT_MAX_CONCURRENT_REQUESTS : Z := 1024.

(** ** Names *)
Definition dot : ascii := "."%char.

Definition is_rule_name (name : string) : bool :=
  negb (is_empty name)
  && all_bytes (λ b, is_ascii_alphanumeric b || is_one_of "-_." b) name.

Definition check_count (len max : Z) : result GuardError.t () :=
  bail_if max <? len with perr; Ok ().

Definition count {A} (l : list A) : Z := Z.of_nat (length l).

Definition to_ascii_lowercase (c : ascii) : ascii :=
  if is_ascii_uppercase c then ascii_of_N (N_of_ascii c + 32) else c.

(** [<[u8]>::eq_ignore_ascii_case]. *)
Definition eq_ignore_ascii_case (a b : list ascii) : bool :=
  bool_decide (to_ascii_lowercase <$> a = to_ascii_lowercase <$> b).

(** [str::strip_suffix('.')], or the name itself. *)
Definition strip_trailing_dot (name : list ascii) : list ascii :=
  if bool_decide (last name = Some dot) then removelast name else name.

Definition eq_ignore_case (canonical query : list ascii) : bool :=
  let query := strip_trailing_dot query in
  (count canonical =? count query) && eq_ignore_ascii_case canonical query.

Definition ends_with_ignore_case (text suffix : list ascii) : bool :=
  (count suffix <=? count text)
  && eq_ignore_ascii_case (drop (length text - length suffix) text) suffix.

(** [str::split('.')]. *)
Fixpoint split_on (c : ascii) (s : list ascii) : list (list ascii) :=
  match s with
  | [] => [[]]
  | b :: s =>
      if decide (b = c) then [] :: split_on c s
      else
        match split_on c s with
        | [] => [[b]]
        | label :: rest => (b :: label) :: rest
        end
  end.

Definition validate_label (label : list ascii) : result GuardError.t () :=
  bail_if bool_decide (label = []) || (MAX_LABEL_BYTES <? count label) with perr;
  bail_if negb (from_option is_ascii_alphanumeric false (List.hd_error label))
          || negb (from_option is_ascii_alphanumeric false (last label)) with perr;
  bail_if negb (forallb (λ b, is_ascii_alphanumeric b || is_char "-" b) label) with perr;
  Ok ().

Definition validate_dns_name (raw : string) (min_labels : Z) : result GuardError.t () :=
  bail_if is_empty raw with perr;
  bail_if MAX_HOST_BYTES <? slen raw with perr;
  bail_if negb (all_bytes is_ascii_byte raw) with perr;
  bail_if any_byte is_ascii_uppercase raw with perr;
  bail_if any_byte (is_char "*") raw with perr;
  bail_if any_byte (is_one_of "/@: ") raw with perr;
  bail_if bool_decide (last (chars raw) = Some dot) with perr;
  let labels := split_on dot (chars raw) in
  bail_if count labels <? min_labels with perr;
  let? _ := each validate_label labels in
  bail_if (2 <=? min_labels)
          && negb (forallb is_ascii_alphabetic (default [] (last labels))) with perr;
  Ok ().

Definition validate_query_host (raw : string) (min_labels : Z) : result GuardError.t () :=
  let stripped := strip_trailing_dot (chars raw) in
  let canonical_case := negb (any_byte is_ascii_uppercase raw) in
  if (count stripped =? slen raw) && canonical_case then validate_dns_name raw min_labels
  else
    validate_dns_name (String.string_of_list_ascii (to_ascii_lowercase <$> stripped)) min_labels.

(** ** Fields *)
Definition validate_port (port : Z) : result GuardError.t () :=
  bail_if port =? 0 with perr; Ok ().

Definition validate_protocol (protocol : string) : result GuardError.t () :=
  bail_if negb (bool_decide (protocol = EGRESS_PROTOCOL_TCP)) with perr; Ok ().

Definition validate_scheme (scheme : string) : result GuardError.t () :=
  bail_if negb (bool_decide (scheme = MODEL_SCHEME_HTTPS))
          && negb (bool_decide (scheme = MODEL_SCHEME_HTTP)) with perr;
  Ok ().

Definition validate_method (method : string) : result GuardError.t () :=
  bail_if is_empty method || (MAX_METHOD_BYTES <? slen method) with perr;
  bail_if negb (all_bytes is_ascii_uppercase method) with perr;
  Ok ().

(** The bytes of backslash, [?], [#], [*], [;], the two quotes, [<], [>], [|] and the braces. *)
Definition unmatched_path_bytes : list Z := [92; 63; 35; 42; 59; 39; 34; 60; 62; 124; 123; 125].

(** Whether two adjacent bytes are both [c], as in [contains("..")]. *)
Fixpoint doubled (c : ascii) (s : list ascii) : bool :=
  match s with
  | x :: ((y :: _) as rest) => (Ascii.eqb x c && Ascii.eqb y c) || doubled c rest
  | _ => false
  end.

Definition validate_path (path : string) : result GuardError.t () :=
  bail_if is_empty path with perr;
  bail_if MAX_PATH_BYTES <? slen path with perr;
  bail_if negb (all_bytes is_ascii_byte path) with perr;
  bail_if negb (bool_decide (List.hd_error (chars path) = Some "/"%char)) with perr;
  bail_if any_byte (λ b, is_ascii_control b || is_char " " b) path with perr;
  bail_if any_byte (λ b, bool_decide (byte_of b ∈ unmatched_path_bytes)) path with perr;
  bail_if doubled "." (chars path) || doubled "/" (chars path) with perr;
  Ok ().

Definition validate_binding_name (name : string) : result GuardError.t () :=
  bail_if is_empty name || (64 <? slen name) with perr;
  bail_if negb (is_rule_name name) with perr;
  Ok ().

Definition validate_list (items : list string) (max : Z) : result GuardError.t () :=
  let? _ := check_count (count items) max in
  bail_if existsb is_empty items with perr;
  bail_if has_duplicate items with perr;
  Ok ().

(** ** Documents *)
Inductive L7Mode := Sni | Intercept.

Record HttpRule := { h_host : string; h_methods : list string; h_paths : list string }.

Record McpRules := {
  allowed_methods : list string; allowed_tools : list string; denied_tools : list string }.

Record GraphqlRules := {
  allow_mutations : bool; operations : list string; root_fields : list string }.

Record L7Policy := {
  mode : L7Mode; http : list HttpRule; mcp : McpRules; graphql : GraphqlRules;
  intercept_ack : bool }.

Inductive WatcherFailureMode := ContinueWithRules | PauseIfUnavailable.

Record WatcherConfig := {
  enabled : bool; failure_mode : WatcherFailureMode; sample_rate : Z; batch_size : Z;
  token_budget : Z; cost_budget_micros : Z }.

Record CanarySpec := { cs_path : string; cs_value : string }.
Record CanaryConfig := {
  canary_files : list CanarySpec; hostnames : list string; canary_credentials : list string }.

Inductive Topology := Outside | Inside.
Inductive PolicyTemplate := NoNetwork | ModelOnly | ModelPlusAllowlist | ReadOnlyApi.

Record DnsPolicy := { allowed_zones : list string; allowed_record_types : list string }.

Record EgressRule := {
  e_host : string; e_port : Z; e_protocol : string; e_methods : list string;
  e_paths : list string }.

Record ModelEndpoint := {
  m_host : string; m_port : Z; m_scheme : string; m_methods : list string;
  m_paths : list string; m_credential : string }.

Record CredentialBinding := {
  c_name : string; c_host : string; c_port : Z; c_header : string }.

Record Limits := {
  requests_per_minute : Z; dns_queries_per_minute : Z; bytes_out : Z; bytes_in : Z;
  max_request_bytes : Z; max_response_bytes : Z; max_concurrent_requests : Z }.

Record NetworkPolicy := { dns : DnsPolicy; egress : list EgressRule }.

Record GuardPolicy := {
  version : Z; network : NetworkPolicy; model : option ModelEndpoint;
  credentials : list CredentialBinding; limits : Limits }.

Record GuardConfig := {
  topology : Topology; policy_template : PolicyTemplate; policy : option GuardPolicy;
  model_endpoint : option ModelEndpoint; allowlist : list EgressRule;
  watchdog_timeout_ms : Z; max_model_requests : Z; l7 : option L7Policy;
  watcher : WatcherConfig; canaries : CanaryConfig; require_signed_image : bool }.

#[global] Instance L7Mode_eq_dec : EqDecision L7Mode. Proof. solve_decision. Defined.
#[global] Instance HttpRule_eq_dec : EqDecision HttpRule. Proof. solve_decision. Defined.
#[global] Instance McpRules_eq_dec : EqDecision McpRules. Proof. solve_decision. Defined.
#[global] Instance GraphqlRules_eq_dec : EqDecision GraphqlRules. Proof. solve_decision. Defined.
#[global] Instance L7Policy_eq_dec : EqDecision L7Policy. Proof. solve_decision. Defined.
#[global] Instance WatcherFailureMode_eq_dec : EqDecision WatcherFailureMode.
Proof. solve_decision. Defined.
#[global] Instance WatcherConfig_eq_dec : EqDecision WatcherConfig. Proof. solve_decision. Defined.
#[global] Instance CanarySpec_eq_dec : EqDecision CanarySpec. Proof. solve_decision. Defined.
#[global] Instance CanaryConfig_eq_dec : EqDecision CanaryConfig. Proof. solve_decision. Defined.
#[global] Instance Topology_eq_dec : EqDecision Topology. Proof. solve_decision. Defined.
#[global] Instance PolicyTemplate_eq_dec : EqDecision PolicyTemplate. Proof. solve_decision. Defined.
#[global] Instance DnsPolicy_eq_dec : EqDecision DnsPolicy. Proof. solve_decision. Defined.
#[global] Instance EgressRule_eq_dec : EqDecision EgressRule. Proof. solve_decision. Defined.
#[global] Instance ModelEndpoint_eq_dec : EqDecision ModelEndpoint. Proof. solve_decision. Defined.
#[global] Instance CredentialBinding_eq_dec : EqDecision CredentialBinding.
Proof. solve_decision. Defined.
#[global] Instance Limits_eq_dec : EqDecision Limits. Proof. solve_decision. Defined.
#[global] Instance NetworkPolicy_eq_dec : EqDecision NetworkPolicy. Proof. solve_decision. Defined.
#[global] Instance GuardPolicy_eq_dec : EqDecision GuardPolicy. Proof. solve_decision. Defined.
#[global] Instance GuardConfig_eq_dec : EqDecision GuardConfig. Proof. solve_decision. Defined.

(** ** Zones *)
Definition zone_matches (zone host : string) : bool :=
  match chars zone with
  | c :: suffix =>
      if decide (c = dot)
      then (count suffix <? slen host)
           && bool_decide (chars host !! (length (chars host) - length suffix - 1)%nat = Some dot)
           && ends_with_ignore_case (chars host) suffix
      else eq_ignore_case (chars zone) (chars host)
  | [] => eq_ignore_case [] (chars host)
  end.

Definition allows_name (d : DnsPolicy) (name : string) : bool :=
  let name := String.string_of_list_ascii (strip_trailing_dot (chars name)) in
  existsb (λ zone, zone_matches zone name) d.(allowed_zones).

(** ** Validation *)
Definition validate_zone (zone : string) : result GuardError.t () :=
  match zone with
  | String.String c suffix =>
      if decide (c = dot) then validate_dns_name suffix 1 else validate_dns_name zone 2
  | String.EmptyString => validate_dns_name zone 2
  end.

Definition DnsPolicy_validate (d : DnsPolicy) : result GuardError.t () :=
  let? _ := check_count (count d.(allowed_zones)) MAX_DNS_ZONES in
  let? _ := check_count (count d.(allowed_record_types)) MAX_RECORD_TYPES in
  let? _ := each validate_zone d.(allowed_zones) in
  let? _ := each (λ t, if decide (t ∈ ALLOWED_RECORD_TYPES) then Ok () else Err perr)
              d.(allowed_record_types) in
  let? _ := validate_list d.(allowed_zones) MAX_DNS_ZONES in
  validate_list d.(allowed_record_types) MAX_RECORD_TYPES.

Definition EgressRule_validate (r : EgressRule) : result GuardError.t () :=
  let? _ := validate_dns_name r.(e_host) 2 in
  let? _ := validate_port r.(e_port) in
  let? _ := validate_protocol r.(e_protocol) in
  let? _ := validate_list r.(e_methods) MAX_LIST_ITEMS in
  let? _ := validate_list r.(e_paths) MAX_LIST_ITEMS in
  let? _ := each validate_method r.(e_methods) in
  each validate_path r.(e_paths).

Definition ModelEndpoint_validate (m : ModelEndpoint) : result GuardError.t () :=
  let? _ := validate_dns_name m.(m_host) 2 in
  let? _ := validate_port m.(m_port) in
  let? _ := validate_scheme m.(m_scheme) in
  bail_if bool_decide (m.(m_methods) = []) with perr;
  bail_if bool_decide (m.(m_paths) = []) with perr;
  let? _ := validate_list m.(m_methods) MAX_LIST_ITEMS in
  let? _ := validate_list m.(m_paths) MAX_LIST_ITEMS in
  let? _ := each validate_method m.(m_methods) in
  let? _ := each validate_path m.(m_paths) in
  validate_binding_name m.(m_credential).

Definition CredentialBinding_validate (b : CredentialBinding) : result GuardError.t () :=
  let? _ := validate_binding_name b.(c_name) in
  let? _ := validate_dns_name b.(c_host) 2 in
  let? _ := validate_port b.(c_port) in
  let header := String.string_of_list_ascii (to_ascii_lowercase <$> chars b.(c_header)) in
  bail_if negb (bool_decide (header ∈ ALLOWED_CREDENTIAL_HEADERS)) with perr;
  Ok ().

Definition Limits_validate (l : Limits) : result GuardError.t () :=
  let? _ :=
    each (λ '(value, max),
            bail_if value =? 0 with perr;
            bail_if max <? value with perr;
            Ok ())
      [ (l.(requests_per_minute), LIMIT_MAX_REQUESTS_PER_MINUTE);
        (l.(dns_queries_per_minute), LIMIT_MAX_DNS_QUERIES_PER_MINUTE);
        (l.(bytes_out), LIMIT_MAX_BYTES);
        (l.(bytes_in), LIMIT_MAX_BYTES);
        (l.(max_request_bytes), LIMIT_MAX_REQUEST_BYTES);
        (l.(max_response_bytes), LIMIT_MAX_RESPONSE_BYTES);
        (l.(max_concurrent_requests), LIMIT_MAX_CONCURRENT_REQUESTS) ] in
  bail_if l.(bytes_out) <? l.(max_request_bytes) with perr;
  bail_if l.(bytes_in) <? l.(max_response_bytes) with perr;
  Ok ().

Definition default_limits : Limits := {|
  requests_per_minute := 60; dns_queries_per_minute := 120; bytes_out := Z.shiftl 64 20;
  bytes_in := Z.shiftl 256 20; max_request_bytes := Z.shiftl 1 20;
  max_response_bytes := Z.shiftl 64 20; max_concurrent_requests := 4 |}.

(** Whether some rule permits exactly this destination. *)
Definition has_rule (rules : list EgressRule) (host : string) (port : Z) : bool :=
  existsb (λ r, bool_decide (r.(e_host) = host) && (r.(e_port) =? port)) rules.

Definition validate_model_binding (p : GuardPolicy) : result GuardError.t () :=
  match p.(model) with
  | None =>
      each (λ b, bail_if negb (has_rule p.(network).(egress) b.(c_host) b.(c_port)) with perr;
                 Ok ()) p.(credentials)
  | Some m =>
      let? _ := ModelEndpoint_validate m in
      let? binding :=
        ok_or (List.find (λ b, bool_decide (b.(c_name) = m.(m_credential))) p.(credentials)) perr in
      bail_if negb (bool_decide (binding.(c_host) = m.(m_host)))
              || negb (binding.(c_port) =? m.(m_port)) with perr;
      bail_if negb (has_rule p.(network).(egress) m.(m_host) m.(m_port)) with perr;
      Ok ()
  end.

Definition validate_dns_egress_consistency (p : GuardPolicy) : result GuardError.t () :=
  let zones := p.(network).(dns).(allowed_zones) in
  let? _ :=
    each (λ r, bail_if negb (existsb (λ z, zone_matches z r.(e_host)) zones) with perr; Ok ())
      p.(network).(egress) in
  each (λ z, bail_if negb (existsb (λ r, zone_matches z r.(e_host)) p.(network).(egress))
               with perr; Ok ()) zones.

(** [format!("{}:{}", rule.host, rule.port)]. *)
Definition destination (r : EgressRule) : string :=
  r.(e_host) +:+ ":" +:+ pretty (Z.to_N r.(e_port)).

Definition GuardPolicy_validate (p : GuardPolicy) : result GuardError.t () :=
  bail_if negb (p.(version) =? POLICY_VERSION) with perr;
  let? _ := DnsPolicy_validate p.(network).(dns) in
  let? _ := check_count (count p.(network).(egress)) MAX_EGRESS_RULES in
  let? _ := each EgressRule_validate p.(network).(egress) in
  bail_if has_duplicate (destination <$> p.(network).(egress)) with perr;
  let? _ := check_count (count p.(credentials)) MAX_CREDENTIAL_BINDINGS in
  let? _ := each CredentialBinding_validate p.(credentials) in
  bail_if has_duplicate (c_name <$> p.(credentials)) with perr;
  let? _ := validate_model_binding p in
  let? _ := validate_dns_egress_consistency p in
  Limits_validate p.(limits).

(** ** Templates *)
Definition from_model (m : ModelEndpoint) : EgressRule := {|
  e_host := m.(m_host); e_port := m.(m_port); e_protocol := EGRESS_PROTOCOL_TCP;
  e_methods := m.(m_methods); e_paths := m.(m_paths) |}.

Definition model_binding (m : ModelEndpoint) : CredentialBinding := {|
  c_name := m.(m_credential); c_host := m.(m_host); c_port := m.(m_port);
  c_header := DEFAULT_CREDENTIAL_HEADER |}.

(** The loop of the read-only template over one rule. *)
Definition read_only_rule (r : EgressRule) : result GuardError.t () :=
  bail_if bool_decide (r.(e_methods) = []) with perr;
  bail_if negb (forallb (λ m, bool_decide (m ∈ READ_ONLY_METHODS)) r.(e_methods)) with perr;
  Ok ().

(** The zones, rules and bindings a template selects. *)
Definition template_parts (t : PolicyTemplate) (m : option ModelEndpoint) (al : list EgressRule)
    : result GuardError.t (list string * list EgressRule * list CredentialBinding) :=
  match t with
  | NoNetwork =>
      bail_if bool_decide (m ≠ None) || negb (bool_decide (al = [])) with perr;
      Ok ([], [], [])
  | ModelOnly =>
      let? md := ok_or m perr in
      let? _ := check_count (count al) MAX_EGRESS_RULES in
      Ok ([md.(m_host)], [from_model md], [model_binding md])
  | ModelPlusAllowlist =>
      let? md := ok_or m perr in
      bail_if bool_decide (al = []) with perr;
      let? _ := check_count (count al + 1) MAX_EGRESS_RULES in
      Ok (md.(m_host) :: (e_host <$> al), from_model md :: al, [model_binding md])
  | ReadOnlyApi =>
      bail_if bool_decide (m ≠ None) with perr;
      bail_if bool_decide (al = []) with perr;
      let? _ := check_count (count al) MAX_EGRESS_RULES in
      let? _ := each read_only_rule al in
      Ok (e_host <$> al, al, [])
  end.

Definition template (t : PolicyTemplate) (m : option ModelEndpoint) (al : list EgressRule)
    : result GuardError.t GuardPolicy :=
  let? parts := template_parts t m al in
  let '(zones, rules, bindings) := parts in
  let p := {|
    version := POLICY_VERSION;
    network := {| dns := {| allowed_zones := zones;
                            allowed_record_types := ALLOWED_RECORD_TYPES |};
                  egress := rules |};
    model := m; credentials := bindings; limits := default_limits |} in
  let? _ := GuardPolicy_validate p in
  Ok p.

(** ** Normalization *)

(** The order of the key [(host, port, protocol)]. *)
Definition rule_leb (a b : EgressRule) : bool :=
  if bool_decide (a.(e_host) = b.(e_host))
  then if a.(e_port) =? b.(e_port) then string_leb a.(e_protocol) b.(e_protocol)
       else a.(e_port) <? b.(e_port)
  else string_leb a.(e_host) b.(e_host).

Definition binding_leb (a b : CredentialBinding) : bool := string_leb a.(c_name) b.(c_name).

Definition normalize_rule (r : EgressRule) : EgressRule := {|
  e_host := r.(e_host); e_port := r.(e_port); e_protocol := r.(e_protocol);
  e_methods := sort_strings r.(e_methods); e_paths := sort_strings r.(e_paths) |}.

Definition normalized (p : GuardPolicy) : GuardPolicy := {|
  version := p.(version);
  network := {|
    dns := {| allowed_zones := sort_strings p.(network).(dns).(allowed_zones);
              allowed_record_types := sort_strings p.(network).(dns).(allowed_record_types) |};
    egress := normalize_rule <$> sort_by rule_leb p.(network).(egress) |};
  model := p.(model);
  credentials := sort_by binding_leb p.(credentials);
  limits := p.(limits) |}.

Definition effective_policy (c : GuardConfig) : result GuardError.t GuardPolicy :=
  bail_if negb ((1000 <=? c.(watchdog_timeout_ms)) && (c.(watchdog_timeout_ms) <=? 60000))
    with perr;
  bail_if (c.(max_model_requests) =? 0) || (i64_max <? c.(max_model_requests)) with perr;
  let template_inputs_present :=
    bool_decide (c.(policy_template) ≠ NoNetwork) || bool_decide (c.(model_endpoint) ≠ None)
    || bool_decide (c.(allowlist) ≠ []) in
  match c.(policy) with
  | Some p =>
      bail_if template_inputs_present with perr;
      let? _ := GuardPolicy_validate p in
      Ok (normalized p)
  | None => template c.(policy_template) c.(model_endpoint) c.(allowlist)
  end.

(** ** Specification vocabulary *)

(** Labels joined by dots. *)
Fixpoint join (labels : list (list ascii)) : list ascii :=
  match labels with
  | [] => []
  | [label] => label
  | label :: rest => label ++ dot :: join rest
  end.

Definition ldh (b : ascii) : bool :=
  is_ascii_lowercase b || is_ascii_digit b || is_char "-" b.

(** A canonical host label: 1 to 63 lowercase letters, digits or hyphens, no hyphen
    at either end. *)
Definition good_label (label : list ascii) : Prop :=
  1 ≤ count label ≤ 63 ∧ Forall (λ b, ldh b = true) label
  ∧ List.hd_error label ≠ Some "-"%char ∧ last label ≠ Some "-"%char.

(** ** Lemmas: splitting and joining *)

Lemma split_on_nonempty c s : split_on c s ≠ [].
Proof. destruct s; simpl; [done|]. repeat case_match; done. Qed.

Lemma join_split s : join (split_on dot s) = s.
Proof.
  induction s as [|b s IH]; simpl; [done|]. case_decide as Hb.
  - subst. pose proof (split_on_nonempty dot s). destruct (split_on dot s); [done|]. by rewrite <-IH.
  - pose proof (split_on_nonempty dot s). destruct (split_on dot s) as [|label rest]; [done|].
    rewrite <-IH. by destruct rest.
Qed.

Lemma split_on_plain label : dot ∉ label → split_on dot label = [label].
Proof.
  induction label as [|b label IH]; simpl; [done|]. intros Hn.
  rewrite decide_False by set_solver. by rewrite IH by set_solver.
Qed.

Lemma split_on_app label rest :
  dot ∉ label → split_on dot (label ++ dot :: rest) = label :: split_on dot rest.
Proof.
  induction label as [|b label IH]; cbn [app split_on]; intros Hn; [by rewrite decide_True|].
  rewrite decide_False by set_solver. by rewrite IH by set_solver.
Qed.

Lemma split_join labels :
  labels ≠ [] → Forall (λ l, dot ∉ l) labels → split_on dot (join labels) = labels.
Proof.
  intros Hne Hf. induction Hf as [|label labels Hl Hf IH]; [done|].
  destruct labels as [|label' labels]; [by apply split_on_plain|].
  change (join (label :: label' :: labels)) with (label ++ dot :: join (label' :: labels)).
  rewrite split_on_app by done. by rewrite IH.
Qed.

(** The labels of a name hold no dot. *)
Lemma split_on_no_dot s : Forall (λ l, dot ∉ l) (split_on dot s).
Proof.
  induction s as [|b s IH]; simpl; [by repeat constructor; set_solver|].
  case_decide; [constructor; [set_solver|done]|].
  destruct (split_on dot s) as [|label rest]; [repeat constructor; set_solver|].
  apply Forall_cons in IH as [? ?]. constructor; [set_solver|done].
Qed.

(** ** Lemmas: names *)

Lemma byte_class b : is_ascii_byte b = true → 0 ≤ byte_of b ≤ 127.
Proof. unfold is_ascii_byte. pose proof (byte_of_range b). lia. Qed.

(** The bytes of a name that reached the labels are the ones a label may hold. *)
Lemma alnum_lower b :
  is_ascii_uppercase b = false →
  is_ascii_alphanumeric b || is_char "-" b = true ↔ ldh b = true.
Proof.
  intros Hu. unfold ldh, is_ascii_alphanumeric, is_ascii_alphabetic. rewrite Hu. simpl.
  by destruct (is_ascii_lowercase b), (is_ascii_digit b).
Qed.

Lemma ldh_not_upper b : ldh b = true → is_ascii_uppercase b = false.
Proof.
  unfold ldh, is_ascii_uppercase, is_ascii_lowercase, is_ascii_digit, in_range, is_char.
  intros H. destruct (Ascii.eqb_spec b "-"); [by subst|]. lia.
Qed.

Lemma alnum_not_hyphen b : is_ascii_alphanumeric b = true → b ≠ "-"%char.
Proof. by intros H ->. Qed.

Lemma ldh_alnum b : ldh b = true → b ≠ "-"%char → is_ascii_alphanumeric b = true.
Proof.
  unfold ldh, is_char, is_ascii_alphanumeric, is_ascii_alphabetic. intros H Hne.
  destruct (Ascii.eqb_spec b "-"); [done|]. rewrite orb_false_r in H.
  destruct (is_ascii_lowercase b), (is_ascii_digit b); simpl in *; try done; by rewrite ?orb_true_r.
Qed.

Lemma validate_label_ok label :
  Forall (λ b, is_ascii_uppercase b = false) label →
  validate_label label = Ok () ↔ good_label label.
Proof.
  intros Hu. unfold validate_label, good_label, MAX_LABEL_BYTES.
  assert (Hall : forallb (λ b, is_ascii_alphanumeric b || is_char "-" b) label = true
                 ↔ Forall (λ b, ldh b = true) label).
  { rewrite forallb_Forall. induction Hu as [|b l Hb Hu IH]; [by rewrite !Forall_nil|].
    by rewrite !Forall_cons, IH, alnum_lower. }
  case_bool_decide as Hn; simpl.
  { subst. split; [done|]. unfold count. simpl. lia. }
  destruct (Z.ltb_spec 63 (count label)); simpl; [split; [done|lia]|].
  assert (Hc : 1 ≤ count label ≤ 63).
  { unfold count in *. destruct label; [done|]. simpl in *. lia. }
  destruct (forallb _ label) eqn:Hf.
  - assert (Hf0 : Forall (λ b, ldh b = true) label) by (by apply Hall).
    pose proof Hf0 as Hf'. rewrite Forall_forall in Hf'.
    assert (Hends : ∀ o : option ascii, o ≠ None → (∀ b, o = Some b → b ∈ label) →
              from_option is_ascii_alphanumeric false o = true ↔ o ≠ Some "-"%char).
    { intros [b|] Ho Hin; [|done]. simpl. specialize (Hin b eq_refl). split.
      - intros Hb [= ->]. by apply alnum_not_hyphen in Hb.
      - intros Hne. apply ldh_alnum; [by apply Hf'|congruence]. }
    assert (Hhd := Hends (List.hd_error label)). assert (Hlast := Hends (last label)).
    destruct label as [|x l]; [done|].
    destruct Hhd as [Hh1 Hh2]; [done|intros b [= <-]; left|].
    destruct Hlast as [Hl1 Hl2];
      [by rewrite last_cons; destruct (last l)|intros b; apply last_Some_elem_of|].
    cbn [negb]. destruct (from_option _ _ (List.hd_error (x :: l))),
      (from_option _ _ (last (x :: l))); simpl; naive_solver.
  - split; [by repeat case_match|]. intros (_ & Hf' & _). by apply Hall in Hf'.
Qed.

Lemma join_cons l l' ls : join (l :: l' :: ls) = l ++ dot :: join (l' :: ls).
Proof. done. Qed.

Lemma elem_of_join_1 labels l b : l ∈ labels → b ∈ l → b ∈ join labels.
Proof.
  induction labels as [|x labels IH]; [by intros ?%elem_of_nil|].
  intros Hl Hb. destruct labels as [|y labels].
  - apply list_elem_of_singleton in Hl as ->. done.
  - rewrite join_cons. apply elem_of_cons in Hl as [->|Hl]; set_solver.
Qed.

Lemma elem_of_join_2 labels b : b ∈ join labels → b = dot ∨ ∃ l, l ∈ labels ∧ b ∈ l.
Proof.
  induction labels as [|x labels IH]; [by intros ?%elem_of_nil|].
  destruct labels as [|y labels]; [simpl; intros; right; exists x; set_solver|].
  rewrite join_cons. intros [Hb|[Hb|Hb]%elem_of_cons]%elem_of_app; [right; exists x; set_solver|by left|].
  destruct (IH Hb) as [?|(l & ? & ?)]; [by left|right; exists l; set_solver].
Qed.

Lemma last_join labels l :
  last labels = Some l → l ≠ [] → last (join labels) = last l.
Proof.
  induction labels as [|x labels IH]; [done|]. destruct labels as [|y labels]; [by intros [= ->]|].
  intros Hl Hne. change (last (y :: labels) = Some l) in Hl. rewrite join_cons.
  specialize (IH Hl Hne). rewrite last_app, last_cons, IH. by destruct l using rev_ind; rewrite ?last_snoc.
Qed.

Lemma good_label_nonempty l : good_label l → l ≠ [].
Proof. intros [Hc _] ->. unfold count in Hc. simpl in Hc. lia. Qed.

(** What the bytes of a name made of good labels are. *)
Lemma good_labels_bytes labels b :
  Forall good_label labels → b ∈ join labels → b = dot ∨ ldh b = true.
Proof.
  intros Hf [?|(l & Hl & Hb)]%elem_of_join_2; [by left|right].
  rewrite Forall_forall in Hf. destruct (Hf l Hl) as (_ & Hall & _).
  rewrite Forall_forall in Hall. by apply Hall.
Qed.

Lemma ldh_no_dot l : good_label l → dot ∉ l.
Proof. intros (_ & Hall & _) Hd. rewrite Forall_forall in Hall. by apply Hall in Hd. Qed.

Lemma good_labels_last labels :
  labels ≠ [] → Forall good_label labels → last (join labels) ≠ Some dot.
Proof.
  intros Hne Hf. destruct (last labels) as [l|] eqn:Hl; [|by apply last_None in Hl].
  assert (Hin : l ∈ labels) by (by apply last_Some_elem_of).
  rewrite Forall_forall in Hf. pose proof (Hf l Hin) as Hg.
  rewrite (last_join _ l) by (done || by apply good_label_nonempty).
  intros Hd%last_Some_elem_of. by eapply ldh_no_dot.
Qed.

Lemma any_byte_false p s : any_byte p s = false ↔ ∀ b, b ∈ chars s → p b = false.
Proof. unfold any_byte. by rewrite existsb_false, Forall_forall. Qed.

Lemma all_bytes_true p s : all_bytes p s = true ↔ ∀ b, b ∈ chars s → p b = true.
Proof. unfold all_bytes. by rewrite forallb_Forall, Forall_forall. Qed.

(** A byte of a canonical name passes every character check. *)
Lemma name_byte b :
  b = dot ∨ ldh b = true →
  is_ascii_byte b = true ∧ is_ascii_uppercase b = false ∧ is_char "*" b = false
  ∧ is_one_of "/@: " b = false.
Proof.
  intros [->|H]; [done|]. split_and!; [|by apply ldh_not_upper|..].
  - unfold ldh, is_ascii_lowercase, is_ascii_digit, in_range, is_char, is_ascii_byte in *.
    destruct (Ascii.eqb_spec b "-"); [by subst|]. lia.
  - unfold is_char. destruct (Ascii.eqb_spec b "*"); [by subst|done].
  - unfold is_one_of. apply existsb_false. repeat constructor;
      match goal with |- Ascii.eqb ?x ?y = false => destruct (Ascii.eqb_spec x y); [by subst|done] end.
Qed.

(** The grammar [validate_dns_name] accepts. *)
Definition canonical_name (raw : string) (min_labels : Z) : Prop :=
  slen raw ≤ 253 ∧ ∃ labels, labels ≠ [] ∧ chars raw = join labels ∧ min_labels ≤ count labels
    ∧ Forall good_label labels
    ∧ (2 ≤ min_labels → ∀ l, last labels = Some l → Forall (λ b, is_ascii_alphabetic b = true) l).

Lemma canonical_name_labels raw n : canonical_name raw n → Forall good_label (split_on dot (chars raw)).
Proof.
  intros (_ & labels & ? & -> & _ & Hf & _). rewrite split_join; [done|done|].
  eapply Forall_impl; [exact Hf|]. apply ldh_no_dot.
Qed.

Lemma validate_dns_name_1 raw n : validate_dns_name raw n = Ok () → canonical_name raw n.
Proof.
  unfold validate_dns_name. intros H.
  destruct (is_empty raw) eqn:He; [done|].
  destruct (Z.ltb_spec MAX_HOST_BYTES (slen raw)); [done|].
  destruct (all_bytes is_ascii_byte raw); [|done]. cbn [negb] in H.
  destruct (any_byte is_ascii_uppercase raw) eqn:Hu; [done|].
  destruct (any_byte (is_char "*") raw); [done|].
  destruct (any_byte (is_one_of "/@: ") raw); [done|].
  destruct (bool_decide _); [done|].
  destruct (Z.ltb_spec (count (split_on dot (chars raw))) n); [done|].
  destruct (each validate_label _) as [[]|] eqn:Hl; [|done].
  split; [done|]. exists (split_on dot (chars raw)).
  split_and!; [apply split_on_nonempty|by rewrite join_split|done| |].
  - apply each_ok in Hl. rewrite Forall_forall in Hl |- *. intros l Hin.
    apply validate_label_ok; [|by apply Hl]. apply Forall_forall. intros b Hb.
    rewrite any_byte_false in Hu. apply Hu. rewrite <-(join_split (chars raw)).
    by eapply elem_of_join_1.
  - intros Hn l Hlast. rewrite Hlast in H. destruct (Z.leb_spec 2 n); [|lia]. simpl in H.
    apply forallb_Forall. by destruct (forallb _ l).
Qed.

Lemma validate_dns_name_2 raw n : canonical_name raw n → validate_dns_name raw n = Ok ().
Proof.
  intros (Hlen & labels & Hne & Hraw & Hn & Hf & Htld).
  assert (Hb : ∀ b, b ∈ chars raw → b = dot ∨ ldh b = true)
    by (intros b Hb; rewrite Hraw in Hb; by eapply good_labels_bytes).
  assert (Hsplit : split_on dot (chars raw) = labels).
  { rewrite Hraw. apply split_join; [done|]. eapply Forall_impl; [exact Hf|]. apply ldh_no_dot. }
  unfold validate_dns_name, is_empty. rewrite bool_decide_false.
  2:{ intros ->. destruct labels as [|l ls]; [done|]. apply Forall_cons in Hf as [Hg _].
      apply good_label_nonempty in Hg. simpl in Hraw. destruct ls, l; done. }
  destruct (Z.ltb_spec MAX_HOST_BYTES (slen raw)); [unfold MAX_HOST_BYTES in *; lia|].
  rewrite (proj2 (all_bytes_true _ _)) by (intros b ?%Hb%name_byte; tauto). cbn [negb].
  rewrite !(proj2 (any_byte_false _ _)) by (intros b ?%Hb%name_byte; tauto).
  rewrite bool_decide_false by (rewrite Hraw; by apply good_labels_last).
  rewrite Hsplit. destruct (Z.ltb_spec (count labels) n); [lia|].
  assert (each validate_label labels = Ok ()) as ->.
  { apply each_ok. rewrite Forall_forall in Hf |- *. intros l Hl. apply validate_label_ok; [|by apply Hf].
    apply Forall_forall. intros b Hbl. apply ldh_not_upper. destruct (Hf l Hl) as (_ & Hall & _).
    rewrite Forall_forall in Hall. by apply Hall. }
  destruct (Z.leb_spec 2 n); [|done]. simpl.
  destruct (last labels) as [l|] eqn:Hl; [|by apply last_None in Hl]. simpl.
  by rewrite (proj2 (forallb_Forall _ _)) by (by apply (Htld ltac:(done) l)).
Qed.

Lemma validate_dns_name_iff raw n : validate_dns_name raw n = Ok () ↔ canonical_name raw n.
Proof. split; [apply validate_dns_name_1|apply validate_dns_name_2]. Qed.

(** ** Lemmas: zones *)
Definition lower (s : string) : list ascii := to_ascii_lowercase <$> chars s.

Lemma lowercase_dot c : to_ascii_lowercase c = dot ↔ c = dot.
Proof.
  split; [|by intros ->]. unfold to_ascii_lowercase. case_match eqn:Hu; [|done].
  intros Heq. exfalso. unfold is_ascii_uppercase, in_range, byte_of in Hu.
  apply (f_equal N_of_ascii) in Heq. rewrite N_ascii_embedding in Heq by lia.
  change (N_of_ascii dot) with 46%N in Heq. lia.
Qed.

Lemma lower_split host (pre suffix : list ascii) :
  length pre = (length (chars host) - length suffix - 1)%nat →
  (length suffix < length (chars host))%nat →
  chars host !! length pre = Some dot ∧ drop (length (chars host) - length suffix) (lower host) = suffix →
  take (length pre) (lower host) ++ dot :: suffix = lower host.
Proof.
  intros Hp Hs [Hd Hsuf]. rewrite <-(take_drop (length pre) (lower host)) at 2. f_equal.
  unfold lower in *. erewrite (drop_S _ dot (length pre));
    [|rewrite list_lookup_fmap, Hd; done]. f_equal. rewrite <-Hsuf at 1. f_equal. lia.
Qed.

Lemma zone_matches_suffix suffix host :
  zone_matches (String.String dot suffix) host = true ↔
  ∃ pre, lower host = pre ++ dot :: lower suffix.
Proof.
  unfold zone_matches. cbn [chars String.list_ascii_of_string]. fold (chars suffix).
  rewrite decide_True by done. unfold ends_with_ignore_case, eq_ignore_ascii_case.
  rewrite fmap_drop. fold (lower host) (lower suffix).
  assert (Hll : length (lower suffix) = length (chars suffix)) by apply length_fmap.
  assert (Hlh : length (lower host) = length (chars host)) by apply length_fmap.
  split.
  - intros H. bools. unfold count, slen in *. rewrite <-length_chars in *.
    set (n := (length (chars host) - length (chars suffix) - 1)%nat) in *.
    exists (take n (lower host)). symmetry.
    replace n with (length (take n (lower host))) at 1 by (rewrite length_take; lia).
    apply lower_split; [rewrite length_take; lia|lia|]. rewrite length_take.
    replace (n `min` length (lower host))%nat with n by lia. rewrite Hll. done.
  - intros [pre Hh].
    assert (Hl : length (chars host) = (length pre + S (length (chars suffix)))%nat)
      by (rewrite <-Hlh, Hh, length_app; simpl; lia).
    unfold count, slen. rewrite <-length_chars.
    rewrite !andb_true_iff, !bool_decide_eq_true, Z.ltb_lt, Z.leb_le.
    split_and!; [lia| |lia|].
    + replace (length (chars host) - length (chars suffix) - 1)%nat with (length pre) by lia.
      assert (Hd : lower host !! length pre = Some dot) by (by rewrite Hh, list_lookup_middle).
      unfold lower in Hd. rewrite list_lookup_fmap in Hd.
      destruct (chars host !! length pre) as [c|]; [|done]. simpl in Hd.
      injection Hd as Hd. f_equal. by apply lowercase_dot.
    + rewrite Hh. replace (length (chars host) - length (chars suffix))%nat with (length (pre ++ [dot]))
        by (rewrite length_app; simpl; lia).
      change (pre ++ dot :: lower suffix) with (pre ++ [dot] ++ lower suffix).
      by rewrite (assoc_L (++)), drop_app_length.
Qed.

Lemma zone_matches_exact zone host :
  List.hd_error (chars zone) ≠ Some dot →
  zone_matches zone host = true ↔
  lower zone = to_ascii_lowercase <$> strip_trailing_dot (chars host).
Proof.
  intros Hz. unfold zone_matches.
  assert (Heq : ∀ q, eq_ignore_case (chars zone) q = true ↔
            lower zone = to_ascii_lowercase <$> strip_trailing_dot q).
  { intros q. unfold eq_ignore_case, eq_ignore_ascii_case, lower.
    rewrite andb_true_iff, bool_decide_eq_true, Z.eqb_eq. split; [tauto|]. intros H. split; [|done].
    apply (f_equal length) in H. rewrite !length_fmap in H. unfold count. lia. }
  destruct (chars zone) as [|c suffix] eqn:Hc; [apply Heq|].
  rewrite decide_False by (intros ->; done). apply Heq.
Qed.

(** ** Lemmas: validation *)

Lemma doubled_false c s :
  doubled c s = false ↔ ∀ l1 l2, s ≠ l1 ++ c :: c :: l2.
Proof.
  induction s as [|x s IH]; [split; [by intros _ [] ?|done]|].
  destruct s as [|y s]; [split; [by intros _ [|? []] ?|done]|].
  change (doubled c (x :: y :: s)) with ((Ascii.eqb x c && Ascii.eqb y c) || doubled c (y :: s)).
  rewrite orb_false_iff, IH, andb_false_iff. split.
  - intros [Hxy Hr] [|z l1] l2 Heq; simplify_eq/=; [|by eapply Hr].
    rewrite Ascii.eqb_refl in Hxy. naive_solver.
  - intros Hn. split; [|intros l1 l2 Heq; apply (Hn (x :: l1) l2); by rewrite Heq].
    destruct (Ascii.eqb_spec x c) as [->|]; [|by left].
    destruct (Ascii.eqb_spec y c) as [->|]; [|by right]. by destruct (Hn [] s).
Qed.

(** A path Guard can match by prefix: absolute, and without traversal or empty
    segments. *)
Definition plain_path (path : string) : Prop :=
  slen path ≤ 512 ∧ List.hd_error (chars path) = Some "/"%char
  ∧ (∀ l1 l2, chars path ≠ l1 ++ "."%char :: "."%char :: l2)
  ∧ (∀ l1 l2, chars path ≠ l1 ++ "/"%char :: "/"%char :: l2)
  ∧ ∀ b, b ∈ chars path → is_ascii_control b = false ∧ byte_of b ∉ unmatched_path_bytes.

Lemma validate_path_ok path : validate_path path = Ok () → plain_path path.
Proof.
  unfold validate_path. intros H. ok_inv H. bools.
  match goal with H : doubled _ _ || _ = false |- _ => apply orb_false_iff in H as [??] end || idtac.
  rewrite !doubled_false in *. rewrite !any_byte_false in *.
  unfold MAX_PATH_BYTES in *. split_and!; try done; [lia|].
  intros b Hb. split; [|eapply bool_decide_eq_false; eauto].
  match goal with Hc : ∀ b, _ → is_ascii_control b || _ = false |- _ =>
    specialize (Hc b Hb); apply orb_false_iff in Hc; tauto end.
Qed.

Lemma validate_list_ok items max :
  validate_list items max = Ok () → count items ≤ max ∧ NoDup items ∧ ""%string ∉ items.
Proof.
  unfold validate_list, check_count. intros H.
  destruct (Z.ltb_spec max (count items)); [done|]. ok_inv H.
  split_and!; [done|by apply has_duplicate_NoDup|].
  intros Hin. rewrite existsb_false, Forall_forall in Hif. by apply Hif in Hin.
Qed.

Definition rule_ok (r : EgressRule) : Prop :=
  canonical_name r.(e_host) 2 ∧ r.(e_port) ≠ 0 ∧ r.(e_protocol) = EGRESS_PROTOCOL_TCP
  ∧ NoDup r.(e_methods) ∧ NoDup r.(e_paths)
  ∧ Forall (λ m, validate_method m = Ok ()) r.(e_methods) ∧ Forall plain_path r.(e_paths).

Lemma EgressRule_validate_ok r : EgressRule_validate r = Ok () → rule_ok r.
Proof.
  unfold EgressRule_validate, validate_port, validate_protocol. intros H. ok_inv H. bools.
  apply each_ok in H, Hok4. apply validate_list_ok in Hok2 as (_ & ? & _), Hok3 as (_ & ? & _).
  apply validate_dns_name_iff in Hok.
  split_and!; try done.
  - intros Hp. rewrite Hp in Hok0. done.
  - by destruct (bool_decide_reflect (e_protocol r = EGRESS_PROTOCOL_TCP)).
  - eapply Forall_impl; [exact H|]. apply validate_path_ok.
Qed.

Lemma has_rule_true rules host port :
  has_rule rules host port = true ↔ ∃ r, r ∈ rules ∧ r.(e_host) = host ∧ r.(e_port) = port.
Proof.
  unfold has_rule. rewrite existsb_Exists, Exists_exists.
  split; intros (r & ? & H); exists r; split; try done.
  - bools. split; [done|lia].
  - destruct H as [-> ->]. rewrite bool_decide_true, Z.eqb_refl by done. done.
Qed.

(** What a validated policy promises to the gateway that enforces it. *)
Record well_formed (p : GuardPolicy) : Prop := {
  wf_version : p.(version) = POLICY_VERSION;
  wf_rules : Forall rule_ok p.(network).(egress);
  wf_destinations : NoDup ((λ r, (r.(e_host), r.(e_port))) <$> p.(network).(egress));
  wf_resolvable : ∀ r, r ∈ p.(network).(egress) →
    ∃ z, z ∈ p.(network).(dns).(allowed_zones) ∧ zone_matches z r.(e_host) = true;
  wf_zones_used : ∀ z, z ∈ p.(network).(dns).(allowed_zones) →
    ∃ r, r ∈ p.(network).(egress) ∧ zone_matches z r.(e_host) = true;
  wf_zones : NoDup p.(network).(dns).(allowed_zones);
  wf_record_types : NoDup p.(network).(dns).(allowed_record_types)
    ∧ Forall (λ t, t ∈ ALLOWED_RECORD_TYPES) p.(network).(dns).(allowed_record_types);
  wf_bindings : NoDup (c_name <$> p.(credentials));
  wf_model : ∀ m, p.(model) = Some m →
    m.(m_methods) ≠ [] ∧ m.(m_paths) ≠ []
    ∧ (∃ b, b ∈ p.(credentials) ∧ b.(c_name) = m.(m_credential)
         ∧ b.(c_host) = m.(m_host) ∧ b.(c_port) = m.(m_port))
    ∧ has_rule p.(network).(egress) m.(m_host) m.(m_port) = true;
  wf_unbound : p.(model) = None → Forall (λ b,
    has_rule p.(network).(egress) b.(c_host) b.(c_port) = true) p.(credentials);
  wf_limits : 0 < p.(limits).(max_request_bytes) ≤ p.(limits).(bytes_out)
    ∧ 0 < p.(limits).(max_response_bytes) ≤ p.(limits).(bytes_in)
    ∧ p.(limits).(bytes_out) ≤ 2 ^ 40 ∧ p.(limits).(bytes_in) ≤ 2 ^ 40
    ∧ 0 < p.(limits).(max_concurrent_requests) ≤ 1024 }.

(** [u16], [u32] and [u64] fields are never negative. *)
Definition unsigned_limits (l : Limits) : Prop :=
  0 ≤ l.(requests_per_minute) ∧ 0 ≤ l.(dns_queries_per_minute) ∧ 0 ≤ l.(bytes_out)
  ∧ 0 ≤ l.(bytes_in) ∧ 0 ≤ l.(max_request_bytes) ∧ 0 ≤ l.(max_response_bytes)
  ∧ 0 ≤ l.(max_concurrent_requests).

Lemma validate_model_binding_ok p m :
  validate_model_binding p = Ok () → p.(model) = Some m →
  m.(m_methods) ≠ [] ∧ m.(m_paths) ≠ []
  ∧ (∃ b, b ∈ p.(credentials) ∧ b.(c_name) = m.(m_credential)
       ∧ b.(c_host) = m.(m_host) ∧ b.(c_port) = m.(m_port))
  ∧ has_rule p.(network).(egress) m.(m_host) m.(m_port) = true.
Proof.
  unfold validate_model_binding. intros H Hm. rewrite Hm in H. ok_inv H. bools.
  unfold ok_or in Hok0. destruct (List.find _ _) as [b|] eqn:Hf; [|done]. injection Hok0 as <-.
  apply List.find_some in Hf as [Hin Hname]. bools.
  unfold ModelEndpoint_validate in Hok. ok_inv Hok. bools.
  split_and!; [done|done| |by destruct (has_rule _ _ _)]. exists b.
  split_and!; [by apply list_elem_of_In|done| |lia].
  by destruct (bool_decide_reflect (c_host b = m_host m)).
Qed.

Lemma Limits_validate_ok l :
  unsigned_limits l → Limits_validate l = Ok () →
  0 < l.(max_request_bytes) ≤ l.(bytes_out) ∧ 0 < l.(max_response_bytes) ≤ l.(bytes_in)
  ∧ l.(bytes_out) ≤ 2 ^ 40 ∧ l.(bytes_in) ≤ 2 ^ 40 ∧ 0 < l.(max_concurrent_requests) ≤ 1024.
Proof.
  intros Hu. unfold Limits_validate. intros H.
  destruct (each _ _) as [[]|] eqn:He; [|done]. apply each_ok in He.
  destruct (Z.ltb_spec l.(bytes_out) l.(max_request_bytes)); [done|].
  destruct (Z.ltb_spec l.(bytes_in) l.(max_response_bytes)); [done|].
  rewrite !Forall_cons in He. unfold LIMIT_MAX_BYTES, LIMIT_MAX_CONCURRENT_REQUESTS in He.
  change (Z.shiftl 1 40) with (2 ^ 40) in He. destruct Hu as (?&?&?&?&?&?&?).
  repeat match goal with Hx : _ ∧ _ |- _ => destruct Hx end.
  repeat match goal with
  | Hx : context [?v =? 0] |- _ => destruct (Z.eqb_spec v 0); [done|]
  | Hx : context [?m <? ?v] |- _ => destruct (Z.ltb_spec m v); [done|]
  end. lia.
Qed.

Lemma consistency_ok p :
  validate_dns_egress_consistency p = Ok () →
  (∀ r, r ∈ p.(network).(egress) →
     ∃ z, z ∈ p.(network).(dns).(allowed_zones) ∧ zone_matches z r.(e_host) = true)
  ∧ (∀ z, z ∈ p.(network).(dns).(allowed_zones) →
     ∃ r, r ∈ p.(network).(egress) ∧ zone_matches z r.(e_host) = true).
Proof.
  unfold validate_dns_egress_consistency. intros H. ok_inv H.
  apply each_ok in H, Hok. rewrite Forall_forall in H. rewrite Forall_forall in Hok. split.
  - intros r Hr. apply Hok in Hr. destruct (existsb _ _) eqn:He; [|done].
    by apply existsb_Exists, Exists_exists in He.
  - intros z Hz. apply H in Hz. destruct (existsb _ _) eqn:He; [|done].
    by apply existsb_Exists, Exists_exists in He.
Qed.

Lemma validate_well_formed p :
  unsigned_limits p.(limits) → GuardPolicy_validate p = Ok () → well_formed p.
Proof.
  intros Hu. unfold GuardPolicy_validate. intros H. ok_inv H. bools.
  apply each_ok in Hok1. apply consistency_ok in Hok5 as [? ?].
  apply has_duplicate_NoDup in Hif0, Hif1.
  unfold DnsPolicy_validate in Hok. ok_inv Hok. apply each_ok in Hok8.
  apply validate_list_ok in Hok as (_ & ? & _), Hok9 as (_ & ? & _).
  pose proof (Limits_validate_ok _ Hu H). split; try done.
  - by apply Z.eqb_eq.
  - eapply Forall_impl; [exact Hok1|]. apply EgressRule_validate_ok.
  - apply (NoDup_fmap_1 (λ '(h, q), h +:+ ":" +:+ pretty (Z.to_N q))).
    by rewrite <-list_fmap_compose.
  - split; [done|]. eapply Forall_impl; [exact Hok8|]. intros t. cbv beta. by case_decide.
  - intros m. by apply validate_model_binding_ok.
  - intros Hm. unfold validate_model_binding in Hok4. rewrite Hm in Hok4.
    apply each_ok in Hok4. eapply Forall_impl; [exact Hok4|]. simpl. intros b.
    by destruct (has_rule _ _ _).
Qed.

Lemma default_limits_unsigned : unsigned_limits default_limits.
Proof. by vm_compute. Qed.

(** ** Lemmas: normalization *)

Lemma string_leb_total a b : string_leb a b = true ∨ string_leb b a = true.
Proof. apply bytes_leb_total. Qed.
Lemma string_leb_trans a b c : string_leb a b = true → string_leb b c = true → string_leb a c = true.
Proof. apply bytes_leb_trans. Qed.
Lemma string_leb_antisym a b : string_leb a b = true → string_leb b a = true → a = b.
Proof. intros. by apply chars_inj, bytes_leb_antisym. Qed.
#[export] Hint Resolve string_leb_total string_leb_trans string_leb_antisym : order.

Lemma rule_leb_total a b : rule_leb a b = true ∨ rule_leb b a = true.
Proof.
  unfold rule_leb. destruct (decide (e_host a = e_host b)) as [Heq|Hne].
  - rewrite !bool_decide_true by done. rewrite (Z.eqb_sym (e_port b)).
    destruct (Z.eqb_spec (e_port a) (e_port b)); [apply string_leb_total|lia].
  - rewrite !bool_decide_false by congruence. apply string_leb_total.
Qed.

Lemma rule_leb_key a b :
  rule_leb a b = true → rule_leb b a = true → (e_host a, e_port a) = (e_host b, e_port b).
Proof.
  unfold rule_leb. destruct (decide (e_host a = e_host b)) as [Heq|Hne].
  - rewrite !bool_decide_true by done. rewrite (Z.eqb_sym (e_port b)).
    destruct (Z.eqb_spec (e_port a) (e_port b)); [congruence|lia].
  - rewrite !bool_decide_false by congruence. intros. by destruct Hne; apply string_leb_antisym.
Qed.

Lemma rule_leb_trans a b c : rule_leb a b = true → rule_leb b c = true → rule_leb a c = true.
Proof.
  unfold rule_leb. intros Hab Hbc.
  destruct (decide (e_host a = e_host b)) as [Eab|Eab], (decide (e_host b = e_host c)) as [Ebc|Ebc].
  - rewrite bool_decide_true in Hab, Hbc by congruence. rewrite bool_decide_true by congruence.
    destruct (Z.eqb_spec (e_port a) (e_port b)), (Z.eqb_spec (e_port b) (e_port c)),
      (Z.eqb_spec (e_port a) (e_port c)); try lia. by eapply string_leb_trans.
  - rewrite bool_decide_false by congruence. rewrite bool_decide_false in Hbc by congruence. congruence.
  - rewrite bool_decide_false by congruence. rewrite bool_decide_false in Hab by congruence. congruence.
  - rewrite bool_decide_false in Hab, Hbc by congruence.
    rewrite bool_decide_false; [by eapply string_leb_trans|]. intros Eac. apply Ebc.
    rewrite Eac in Hab. by apply string_leb_antisym.
Qed.

Lemma sort_rules_normalize l :
  sort_by rule_leb (normalize_rule <$> l) = normalize_rule <$> sort_by rule_leb l.
Proof.
  induction l as [|r l IH]; [done|]. rewrite fmap_cons. cbn [sort_by foldr].
  change (foldr (insert_sorted rule_leb) []) with (sort_by rule_leb). rewrite IH.
  generalize (sort_by rule_leb l). clear. intros l. induction l as [|x l IH]; [done|].
  rewrite fmap_cons. cbn [insert_sorted].
  change (rule_leb (normalize_rule r) (normalize_rule x)) with (rule_leb r x).
  case_match; [done|]. by rewrite fmap_cons, IH.
Qed.

(** Rules and policies up to the order of the lists that are sets. *)
Definition rule_equiv (a b : EgressRule) : Prop :=
  e_host a = e_host b ∧ e_port a = e_port b ∧ e_protocol a = e_protocol b
  ∧ e_methods a ≡ₚ e_methods b ∧ e_paths a ≡ₚ e_paths b.

#[global] Instance rule_equiv_equivalence : Equivalence rule_equiv.
Proof.
  split.
  - intros a. by split_and!.
  - intros a b (?&?&?&?&?). by split_and!.
  - intros a b c (?&?&?&?&?) (?&?&?&?&?). split_and!; by etrans.
Qed.

#[global] Instance normalize_rule_proper : Proper (rule_equiv ==> eq) normalize_rule.
Proof.
  intros a b (Hh & Hp & Hq & Hm & Hs). unfold normalize_rule.
  by rewrite Hh, Hp, Hq, (sort_strings_unique _ _ Hm), (sort_strings_unique _ _ Hs).
Qed.

Definition same_policy (p q : GuardPolicy) : Prop :=
  version p = version q
  ∧ allowed_zones (dns (network p)) ≡ₚ allowed_zones (dns (network q))
  ∧ allowed_record_types (dns (network p)) ≡ₚ allowed_record_types (dns (network q))
  ∧ (∃ l, egress (network p) ≡ₚ l ∧ Forall2 rule_equiv l (egress (network q)))
  ∧ model p = model q ∧ credentials p ≡ₚ credentials q ∧ limits p = limits q.

Lemma normalize_rules_perm (l m : list EgressRule) :
  NoDup ((λ r, (r.(e_host), r.(e_port))) <$> l) →
  (∃ l', l ≡ₚ l' ∧ Forall2 rule_equiv l' m) →
  normalize_rule <$> sort_by rule_leb l = normalize_rule <$> sort_by rule_leb m.
Proof.
  intros Hnd (l' & Hp & Hf). rewrite <-!sort_rules_normalize.
  assert (normalize_rule <$> l' = normalize_rule <$> m) as <-.
  { clear -Hf. induction Hf as [|a b ?? Hab _ IH]; [done|]. rewrite !fmap_cons, IH. f_equal.
    by apply normalize_rule_proper. }
  apply sort_by_unique; [apply rule_leb_total|apply rule_leb_trans| |by rewrite Hp].
  intros x y Hx Hy H1 H2. apply (NoDup_fmap_elem (λ r, (e_host r, e_port r)) (normalize_rule <$> l));
    [by rewrite <-list_fmap_compose|done|done|by apply rule_leb_key].
Qed.

Lemma normalized_unique p q :
  well_formed p → same_policy p q → normalized p = normalized q.
Proof.
  intros Hwf (Hv & Hz & Ht & He & Hm & Hc & Hl). unfold normalized.
  rewrite Hv, Hm, Hl, (sort_strings_unique _ _ Hz), (sort_strings_unique _ _ Ht).
  rewrite (normalize_rules_perm _ _ (wf_destinations _ Hwf) He). f_equal.
  apply sort_by_unique; [intros; apply string_leb_total|intros ???; apply string_leb_trans| |done].
  intros x y Hx Hy H1 H2. apply (NoDup_fmap_elem c_name (credentials p));
    [apply wf_bindings, Hwf|done|done|by apply string_leb_antisym].
Qed.

Lemma normalized_idem p : normalized (normalized p) = normalized p.
Proof.
  assert (Hs : ∀ l, sort_strings (sort_strings l) = sort_strings l).
  { intros l. apply sort_by_idem, sort_by_sorted; [apply string_leb_total|apply string_leb_trans]. }
  unfold normalized. cbn [version network dns egress allowed_zones allowed_record_types model
    credentials limits]. rewrite !Hs. f_equal.
  - f_equal. rewrite sort_rules_normalize, <-list_fmap_compose.
    rewrite (sort_by_idem _ (sort_by rule_leb _)) by
      (apply sort_by_sorted; [apply rule_leb_total|apply rule_leb_trans]).
    apply list_fmap_ext. intros i r _. unfold compose, normalize_rule. simpl. by rewrite !Hs.
  - apply sort_by_idem, sort_by_sorted;
      [intros; apply string_leb_total|intros ???; apply string_leb_trans].
Qed.

(** ** Theorems *)

(** [validate_dns_name] accepts exactly the canonical names: at most 253 bytes,
    dot-separated labels of 1 to 63 lowercase letters, digits and inner hyphens,
    at least [min_labels] of them, the last one alphabetic when two are required.
    No address, port, path, wildcard, uppercase or trailing-dot spelling passes. *)
Theorem validate_dns_name_exact (raw : string) (min_labels : Z) :
  validate_dns_name raw min_labels = Ok () ↔ canonical_name raw min_labels.
Proof. apply validate_dns_name_iff. Qed.

(** Zone matching.  A leading-dot zone covers a host exactly when the host ends in
    a dot and the zone's suffix, case folded, so it never covers the suffix itself
    nor a name that merely ends in the same letters; any other zone covers exactly
    its own name, case folded and up to one trailing dot. *)
Theorem zone_matches_exactly (zone host : string) :
  (∀ suffix, zone = String.String dot suffix →
     zone_matches zone host = true ↔ ∃ pre, lower host = pre ++ dot :: lower suffix)
  ∧ (List.hd_error (chars zone) ≠ Some dot →
     zone_matches zone host = true ↔
     lower zone = to_ascii_lowercase <$> strip_trailing_dot (chars host)).
Proof.
  split; [intros suffix ->; apply zone_matches_suffix|apply zone_matches_exact].
Qed.

(** A validated policy is well formed: canonical hosts, no destination stated
    twice, every destination resolvable and no zone without a destination, unique
    bindings, a model credential bound to exactly the model's destination, and
    limits inside their enforced ranges. *)
Theorem validated_policy_well_formed (p : GuardPolicy) :
  unsigned_limits p.(limits) → GuardPolicy_validate p = Ok () → well_formed p.
Proof. apply validate_well_formed. Qed.

(** The templates permit what they promise.  Every accepted template policy is
    well formed; no-network permits nothing; model-only permits exactly the model
    endpoint; model-plus-allowlist exactly the model endpoint and the listed
    rules; read-only-api exactly the listed rules, each with explicit read-only
    methods and no credential. *)
Theorem template_permits_what_it_promises t m al p :
  template t m al = Ok p →
  well_formed p ∧ p.(model) = m ∧
  match t with
  | NoNetwork => m = None ∧ p.(network).(egress) = [] ∧ p.(credentials) = []
                 ∧ p.(network).(dns).(allowed_zones) = []
  | ModelOnly => ∃ md, m = Some md ∧ p.(network).(egress) = [from_model md]
                 ∧ p.(credentials) = [model_binding md]
  | ModelPlusAllowlist => ∃ md, m = Some md ∧ p.(network).(egress) = from_model md :: al
                 ∧ p.(credentials) = [model_binding md]
  | ReadOnlyApi => m = None ∧ p.(network).(egress) = al ∧ p.(credentials) = []
                 ∧ Forall (λ r, r.(e_methods) ≠ []
                            ∧ Forall (λ v, v ∈ READ_ONLY_METHODS) r.(e_methods)) al
  end.
Proof.
  unfold template. intros H. ok_inv H. destruct a as [[zones rules] bindings].
  ok_inv H. injection H as <-. split_and!; [|done|].
  { apply validate_well_formed; [apply default_limits_unsigned|done]. }
  simpl. unfold template_parts in Hok. destruct t; ok_inv Hok; bools; injection Hok as <- <- <-.
  - destruct (decide (m = None)); [by split_and!|tauto].
  - destruct m; [|done]. simplify_eq/=. eauto.
  - destruct m; [|done]. simplify_eq/=. eauto.
  - destruct (decide (m = None)); [|tauto]. split_and!; try done.
    match goal with He : each _ _ = Ok () |- _ => apply each_ok in He; eapply Forall_impl; [exact He|] end.
    intros r Hr. unfold read_only_rule in Hr. ok_inv Hr. bools. split; [done|].
    match goal with Hf : forallb _ _ = true |- _ =>
      apply forallb_Forall in Hf; eapply Forall_impl; [exact Hf|] end.
    intros v Hv. by apply bool_decide_eq_true in Hv.
Qed.

(** No template accepts an allowlist that names one host on two ports, or the
    model's host again: the zones are built one per rule and a repeated zone is
    refused, although two ports of one host are two destinations. *)
Theorem template_refuses_second_port t m al p :
  template t m al = Ok p → t ≠ ModelOnly →
  NoDup (e_host <$> al) ∧ (∀ md, m = Some md → m_host md ∉ e_host <$> al).
Proof.
  unfold template. intros H Ht. ok_inv H. destruct a as [[zones rules] bindings].
  ok_inv H. injection H as <-. apply validate_well_formed in Hok0; [|apply default_limits_unsigned].
  apply wf_zones in Hok0. simpl in Hok0. unfold template_parts in Hok.
  destruct t; ok_inv Hok; bools; injection Hok as <- <- <-; try done.
  - destruct (decide (al = [])) as [->|]; [|tauto]. split; [constructor|set_solver].
  - apply NoDup_cons in Hok0 as [Hn ?]. split; [done|]. intros md ->. by simplify_eq/=.
  - split; [done|]. intros md ->. exfalso. by destruct (decide (Some md = None)).
Qed.

(** Normalization forgets exactly the order of the sets it sorts.  Two spellings
    of one policy that differ in the order of zones, record types, rules, methods
    and paths of rules, or bindings, normalize to the same document, hence hash
    alike; and normalizing twice changes nothing. *)
Theorem normalized_order_independent (p q : GuardPolicy) :
  unsigned_limits p.(limits) → GuardPolicy_validate p = Ok () → same_policy p q →
  normalized p = normalized q ∧ normalized (normalized p) = normalized p.
Proof.
  intros Hu Hv Hs. split; [|apply normalized_idem].
  apply normalized_unique; [by apply validate_well_formed|done].
Qed.

(** A model-only policy whose model path list is [paths]. *)
Definition model_with_paths (paths : list string) : ModelEndpoint := {|
  m_host := "api.example.com"; m_port := 443; m_scheme := MODEL_SCHEME_HTTPS;
  m_methods := ["POST"%string]; m_paths := paths; m_credential := DEFAULT_CREDENTIAL_BINDING |}.

(** The model endpoint's own method and path lists are not sorted: two policies
    that differ only in the order of [model.allowed_paths] (the egress rules of
    both list the same paths) are both valid and normalize to different
    documents, so they hash differently although they permit the same requests. *)
Theorem normalized_keeps_model_order :
  ∃ p q, template ModelOnly (Some (model_with_paths ["/v1/"; "/v2/"]%string)) [] = Ok p
    ∧ template ModelOnly (Some (model_with_paths ["/v2/"; "/v1/"]%string)) [] = Ok q
    ∧ network (normalized p) = network (normalized q)
    ∧ credentials (normalized p) = credentials (normalized q)
    ∧ normalized p ≠ normalized q.
Proof. do 2 eexists. split_and!; [vm_compute; reflexivity..|]. by vm_compute. Qed.

(** Exactly one source of permissions.  A configuration's effective policy is
    either its explicit policy, validated and normalized, with no template input
    beside it, or the policy of its template; and the default selection, with
    neither, permits no destination at all. *)
Theorem effective_policy_has_one_source (c : GuardConfig) p :
  effective_policy c = Ok p →
  1000 ≤ c.(watchdog_timeout_ms) ≤ 60000 ∧ c.(max_model_requests) ≤ i64_max
  ∧ ((∃ q, c.(policy) = Some q ∧ GuardPolicy_validate q = Ok () ∧ p = normalized q
        ∧ c.(policy_template) = NoNetwork ∧ c.(model_endpoint) = None ∧ c.(allowlist) = [])
     ∨ (c.(policy) = None ∧ well_formed p ∧ p.(model) = c.(model_endpoint)
        ∧ (c.(policy_template) = NoNetwork → p.(network).(egress) = [] ∧ p.(credentials) = []))).
Proof.
  unfold effective_policy. intros H.
  destruct (negb _) eqn:Hw in H; [done|]. bools.
  destruct (_ || _) eqn:Hr in H; [done|]. bools. split_and!; [lia..|].
  destruct (policy c) as [q|] eqn:Hq.
  - left. exists q. ok_inv H. injection H as <-. bools. repeat match goal with
    | Hx : _ || _ = false |- _ => apply orb_false_iff in Hx as [? ?] end. bools.
    split_and!; try done; by apply dec_stable.
  - right. unfold template in H. ok_inv H. destruct a as [[zones rules] bindings]. ok_inv H.
    injection H as <-. split_and!; [done| |done|].
    + apply validate_well_formed; [apply default_limits_unsigned|done].
    + intros Ht. rewrite Ht in *. unfold template_parts in Hok. ok_inv Hok. by injection Hok as <- <- <-.
Qed.

(** ** Examples *)
Definition sample_rule : EgressRule := {|
  e_host := "files.example.com"; e_port := 8443; e_protocol := EGRESS_PROTOCOL_TCP;
  e_methods := ["HEAD"; "GET"]%string; e_paths := ["/v1/"%string] |}.

Definition sample_policy : GuardPolicy := {|
  version := 1;
  network := {| dns := {| allowed_zones := [".example.com"%string];
                          allowed_record_types := ["AAAA"; "A"]%string |};
                egress := [sample_rule] |};
  model := None; credentials := []; limits := default_limits |}.

Definition reordered_policy : GuardPolicy := {|
  version := 1;
  network := {| dns := {| allowed_zones := [".example.com"%string];
                          allowed_record_types := ["A"; "AAAA"]%string |};
                egress := [ {| e_host := "files.example.com"; e_port := 8443;
                               e_protocol := EGRESS_PROTOCOL_TCP;
                               e_methods := ["GET"; "HEAD"]%string; e_paths := ["/v1/"%string] |} ] |};
  model := None; credentials := []; limits := default_limits |}.

Definition sample_config : GuardConfig := {|
  topology := Outside; policy_template := ReadOnlyApi; policy := None; model_endpoint := None;
  allowlist := [sample_rule]; watchdog_timeout_ms := 10000; max_model_requests := 10000;
  l7 := None;
  watcher := {| enabled := false; failure_mode := ContinueWithRules; sample_rate := 10;
                batch_size := 20; token_budget := 200000; cost_budget_micros := 0 |};
  canaries := {| canary_files := []; hostnames := []; canary_credentials := [] |};
  require_signed_image := false |}.

Lemma validated_policy_well_formed_witness :
  GuardPolicy_validate sample_policy = Ok () ∧ well_formed sample_policy.
Proof.
  split; [vm_compute; reflexivity|].
  apply validated_policy_well_formed; [apply default_limits_unsigned|vm_compute; reflexivity].
Defined.

Lemma template_permits_what_it_promises_witness :
  ∃ p, template ReadOnlyApi None [sample_rule] = Ok p ∧ p.(network).(egress) = [sample_rule].
Proof.
  eexists. split; [vm_compute; reflexivity|].
  eapply (template_permits_what_it_promises ReadOnlyApi None [sample_rule]).
  vm_compute. reflexivity.
Defined.

Lemma template_refuses_second_port_witness :
  is_ok (template ReadOnlyApi None [sample_rule]) = true ∧ NoDup (e_host <$> [sample_rule])
  ∧ is_ok (template ReadOnlyApi None
      [ sample_rule; {| e_host := "files.example.com"; e_port := 443;
                        e_protocol := EGRESS_PROTOCOL_TCP; e_methods := ["GET"%string];
                        e_paths := [] |} ]) = false.
Proof.
  split; [vm_compute; reflexivity|]. split; [|vm_compute; reflexivity].
  eapply (template_refuses_second_port ReadOnlyApi None [sample_rule]); [vm_compute; reflexivity|done].
Defined.

Lemma normalized_order_independent_witness : normalized sample_policy = normalized reordered_policy.
Proof.
  apply (normalized_order_independent sample_policy reordered_policy);
    [apply default_limits_unsigned|vm_compute; reflexivity|].
  split_and!; [done|done|apply Permutation_swap| |done|done|done].
  exists [sample_rule]. split; [done|]. repeat constructor.
Defined.

Lemma effective_policy_has_one_source_witness :
  ∃ p, effective_policy sample_config = Ok p ∧ well_formed p.
Proof.
  destruct (effective_policy sample_config) as [p|] eqn:He; [|vm_compute in He; discriminate].
  exists p. split; [done|].
  destruct (effective_policy_has_one_source sample_config p He)
    as (_ & _ & [(q & Hq & _)|(_ & Hwf & _)]); [discriminate Hq|exact Hwf].
Defined.
