(* ===== verification/Boundary.v ===== *)
(** * Boundary: the policy compiler and the operator boundary

    [crates/aiec-guard/src/compiler.rs]: address classification, the operator
    boundary and its validation, the checks the gateway makes on a resolved
    address, and [compile] with its verifier.

    An address is a number of 32 or 128 bits.  The network type comes from the
    [ipnet] crate: [IpNetLib] holds the three functions used of it and [IpNetLaws]
    what its documentation says of them.  A [BTreeMap] is the list of its entries
    in key order.  Refusals are the error class [GuardError.Policy]; the
    counterexample texts are not modelled. *)

From Stdlib Require Import Ascii.
From stdpp Require Import pretty.
From S2P Require Import Prelude Policy.

Definition MAX_BOUNDARY_CIDRS : Z := 256.
Definition MAX_BLOCKED_HOSTS : Z := 256.
Definition MAX_TEST_DESTINATIONS : Z := 64.
Definition MAX_TEST_ADDRESSES : Z := 16.

(** ** Addresses *)
Inductive IpAddr := V4 (n : Z) | V6 (n : Z).

(** A network address with its prefix length. *)
Inductive IpNet := V4Net (addr prefix : Z) | V6Net (addr prefix : Z).

#[global] Instance IpAddr_eq_dec : EqDecision IpAddr. Proof. solve_decision. Defined.
#[global] Instance IpNet_eq_dec : EqDecision IpNet. Proof. solve_decision. Defined.

Class IpNetLib := {
  contains : IpNet → IpAddr → bool;
  network_of : IpNet → Z;
  broadcast_of : IpNet → Z }.

(** [IpNet::contains]: same family and the same leading [prefix] bits. *)
Class IpNetLaws (L : IpNetLib) : Prop := {
  contains_v4 a p n : contains (V4Net a p) (V4 n) = (a / 2 ^ (32 - p) =? n / 2 ^ (32 - p));
  contains_v6 a p n : contains (V6Net a p) (V6 n) = (a / 2 ^ (128 - p) =? n / 2 ^ (128 - p));
  contains_v4_v6 a p n : contains (V4Net a p) (V6 n) = false;
  contains_v6_v4 a p n : contains (V6Net a p) (V4 n) = false }.

(** [Ipv4Addr::octets] and [Ipv6Addr::segments]. *)
Definition octet (n i : Z) : Z := (n / 256 ^ (3 - i)) mod 256.
Definition segment (n i : Z) : Z := (n / 65536 ^ (7 - i)) mod 65536.

Definition ip4 (a b c d : Z) : Z := ((a * 256 + b) * 256 + c) * 256 + d.

(** The first segments of an IPv6 address, the others zero. *)
Definition ip6 (s0 s1 : Z) : Z := (s0 * 65536 + s1) * 2 ^ 96.

(** [Ipv6Addr::to_ipv4_mapped] and [Ipv6Addr::to_ipv4]. *)
Definition to_ipv4_mapped (n : Z) : option Z :=
  if n / 2 ^ 32 =? 65535 then Some (n mod 2 ^ 32) else None.
Definition to_ipv4 (n : Z) : option Z :=
  if (n / 2 ^ 32 =? 65535) || (n / 2 ^ 32 =? 0) then Some (n mod 2 ^ 32) else None.

Definition dns_record_type_name (record_type : Z) : option string :=
  if record_type =? 1 then Some "A"%string
  else if record_type =? 28 then Some "AAAA"%string
  else None.

Definition default_blocked_cidrs : list IpNet :=
  [ V4Net (ip4 0 0 0 0) 8; V4Net (ip4 10 0 0 0) 8; V4Net (ip4 100 64 0 0) 10;
    V4Net (ip4 127 0 0 0) 8; V4Net (ip4 169 254 0 0) 16; V4Net (ip4 172 16 0 0) 12;
    V4Net (ip4 192 0 0 0) 24; V4Net (ip4 192 0 2 0) 24; V4Net (ip4 192 88 99 0) 24;
    V4Net (ip4 192 168 0 0) 16; V4Net (ip4 198 18 0 0) 15; V4Net (ip4 198 51 100 0) 24;
    V4Net (ip4 203 0 113 0) 24; V4Net (ip4 224 0 0 0) 4; V4Net (ip4 240 0 0 0) 4;
    V6Net 0 128; V6Net 1 128; V6Net (ip6 100 65435) 96; V6Net (ip6 256 0) 64;
    V6Net (ip6 8193 0) 32; V6Net (ip6 8193 3512) 32; V6Net (ip6 64512 0) 7;
    V6Net (ip6 65152 0) 10; V6Net (ip6 65280 0) 8 ].

Definition normalize_addr (ip : IpAddr) : IpAddr :=
  match ip with
  | V6 n =>
      match to_ipv4_mapped n with
      | Some v4 => V4 v4
      | None =>
          match to_ipv4 n with
          | Some v4 => if v4 =? 0 then V6 n else V4 v4
          | None => V6 n
          end
      end
  | other => other
  end.

Definition is_non_public (ip : IpAddr) : bool :=
  match normalize_addr ip with
  | V4 n =>
      let o := octet n in
      (o 0 =? 127)                                       (* is_loopback *)
      || ((o 0 =? 169) && (o 1 =? 254))                  (* is_link_local *)
      || ((o 0 =? 10) || ((o 0 =? 172) && (16 <=? o 1) && (o 1 <=? 31))
          || ((o 0 =? 192) && (o 1 =? 168)))             (* is_private *)
      || (n =? 0)                                        (* is_unspecified *)
      || ((224 <=? o 0) && (o 0 <=? 239))                (* is_multicast *)
      || (n =? 2 ^ 32 - 1)                               (* is_broadcast *)
      || (o 0 =? 0)
      || ((o 0 =? 100) && ((64 <=? o 1) && (o 1 <=? 127)))
      || ((o 0 =? 192) && (o 1 =? 0) && (o 2 =? 2))
      || ((o 0 =? 198) && (Z.land (o 1) 254 =? 18))
      || ((o 0 =? 198) && (o 1 =? 51) && (o 2 =? 100))
      || ((o 0 =? 203) && (o 1 =? 0) && (o 2 =? 113))
      || (240 <=? o 0)
  | V6 n =>
      (n =? 1)                                           (* is_loopback *)
      || (n =? 0)                                        (* is_unspecified *)
      || (Z.land (segment n 0) 65280 =? 65280)           (* is_multicast *)
      || (Z.land (segment n 0) 65024 =? 64512)
      || (Z.land (segment n 0) 65472 =? 65152)
      || bool_decide (to_ipv4_mapped n ≠ None)
  end.

(** ** The operator boundary *)
Record OperatorBoundary := {
  blocked_cidrs : list IpNet; protected_cidrs : list IpNet; blocked_hosts : list string;
  test_destinations : list (string * list IpAddr) }.

(** [str::rsplit_once(':')]. *)
Fixpoint rsplit_once (c : ascii) (s : list ascii) : option (list ascii * list ascii) :=
  match s with
  | [] => None
  | b :: s =>
      match rsplit_once c s with
      | Some (l, r) => Some (b :: l, r)
      | None => if decide (b = c) then Some ([], s) else None
      end
  end.

(** [u16::from_str]: an optional plus sign, at least one digit, at most 65535. *)
Fixpoint parse_digits (acc : Z) (s : list ascii) : option Z :=
  match s with
  | [] => Some acc
  | b :: s =>
      if is_ascii_digit b then
        let acc := acc * 10 + (byte_of b - 48) in
        if u16_max <? acc then None else parse_digits acc s
      else None
  end.

Definition parse_u16 (s : list ascii) : option Z :=
  match s with
  | [] => None
  | b :: rest =>
      if decide (b = "+"%char)
      then match rest with [] => None | _ => parse_digits 0 rest end
      else parse_digits 0 s
  end.

Definition string_of (l : list ascii) : string := String.string_of_list_ascii l.

(** [TestDestination::parse]. *)
Definition parse_test_destination (key : string) : result GuardError.t (string * Z) :=
  let? parts := ok_or (rsplit_once ":" (chars key)) perr in
  let host := string_of parts.1 in
  let? _ := validate_dns_name host 2 in
  bail_if MAX_HOST_BYTES <? slen host with perr;
  let? port := ok_or (parse_u16 parts.2) perr in
  bail_if port =? 0 with perr;
  Ok (host, port).

(** [list[..index].contains(x)] refused at every index. *)
Fixpoint distinct_prefix {A} `{EqDecision A} (seen l : list A) : bool :=
  match l with
  | [] => true
  | x :: l => negb (bool_decide (x ∈ seen)) && distinct_prefix (seen ++ [x]) l
  end.

(** [EndpointKey::new(host, port).as_bytes()]. *)
Definition endpoint_key (host : list ascii) (port : Z) : list ascii :=
  take (Z.to_nat MAX_HOST_BYTES) (strip_trailing_dot host)
  ++ ":"%char :: chars (pretty (Z.to_N port)).

Section WithNets.
Context `{IpNetLib}.

(** The first network that holds the address. *)
Definition covering (nets : list IpNet) (ip : IpAddr) : option IpNet :=
  List.find (λ net, contains net ip) nets.

Definition validate_test_address (b : OperatorBoundary) (ip : IpAddr) : result GuardError.t () :=
  bail_if negb (is_non_public ip) with perr;
  bail_if existsb (λ net, contains net ip) b.(protected_cidrs) with perr;
  bail_if existsb (λ net, contains net ip) b.(blocked_cidrs) with perr;
  Ok ().

Definition validate_test_destination (b : OperatorBoundary) (entry : string * list IpAddr)
    : result GuardError.t () :=
  let '(key, addresses) := entry in
  let? parsed := parse_test_destination key in
  bail_if MAX_TEST_ADDRESSES <? count addresses with perr;
  bail_if bool_decide (addresses = []) with perr;
  bail_if bool_decide (parsed.1 ∈ b.(blocked_hosts)) with perr;
  let? _ := each (validate_test_address b) addresses in
  bail_if negb (distinct_prefix [] addresses) with perr;
  Ok ().

Definition validate_boundary (b : OperatorBoundary) : result GuardError.t () :=
  bail_if MAX_BOUNDARY_CIDRS <? count b.(blocked_cidrs) with perr;
  bail_if negb (distinct_prefix [] b.(blocked_cidrs)) with perr;
  bail_if MAX_BOUNDARY_CIDRS <? count b.(protected_cidrs) with perr;
  bail_if negb (distinct_prefix [] b.(protected_cidrs)) with perr;
  bail_if MAX_BLOCKED_HOSTS <? count b.(blocked_hosts) with perr;
  let? _ := each (λ host, validate_dns_name host 1) b.(blocked_hosts) in
  bail_if negb (distinct_prefix [] b.(blocked_hosts)) with perr;
  bail_if MAX_TEST_DESTINATIONS <? count b.(test_destinations) with perr;
  each (validate_test_destination b) b.(test_destinations).

Definition blocks_host (b : OperatorBoundary) (host : string) : bool :=
  existsb (λ blocked, eq_ignore_case (chars blocked) (chars host)) b.(blocked_hosts).

Definition operator_blocked (b : OperatorBoundary) (ip : IpAddr) : option IpNet :=
  covering b.(blocked_cidrs) (normalize_addr ip).

Definition default_blocked (ip : IpAddr) : option IpNet :=
  covering default_blocked_cidrs (normalize_addr ip).

Definition protected_range (b : OperatorBoundary) (ip : IpAddr) : option IpNet :=
  covering b.(protected_cidrs) (normalize_addr ip).

Definition test_addresses (b : OperatorBoundary) (host : string) (port : Z) : list IpAddr :=
  let key := endpoint_key (chars host) port in
  match List.find (λ e, eq_ignore_ascii_case (chars e.1) key) b.(test_destinations) with
  | Some e => e.2
  | None => []
  end.

Definition is_test_address (b : OperatorBoundary) (host : string) (ip : IpAddr) : bool :=
  let ip := normalize_addr ip in
  let host := strip_trailing_dot (chars host) in
  existsb (λ e, let bytes := chars e.1 in
     (count host <? count bytes)
     && bool_decide (bytes !! length host = Some ":"%char)
     && eq_ignore_ascii_case (take (length host) bytes) host
     && bool_decide (ip ∈ e.2)) b.(test_destinations).

(** ** The compiled policy *)
Record CompiledPolicy := {
  cp_policy : GuardPolicy; policy_hash : string; boundary : OperatorBoundary }.

Definition allows_dns (c : CompiledPolicy) (name : string) (record_type : Z) : bool :=
  match dns_record_type_name record_type with
  | None => false
  | Some record =>
      allows_name c.(cp_policy).(network).(dns) name
      && bool_decide (record ∈ c.(cp_policy).(network).(dns).(allowed_record_types))
  end.

Definition endpoint (c : CompiledPolicy) (host : string) (port : Z) : option EgressRule :=
  List.find (λ r, (r.(e_port) =? port) && eq_ignore_case (chars r.(e_host)) (chars host))
    c.(cp_policy).(network).(egress).

Definition allows_host (c : CompiledPolicy) (host : string) (port : Z) : bool :=
  bool_decide (endpoint c host port ≠ None).

Definition is_model_endpoint (c : CompiledPolicy) (host : string) (port : Z) : bool :=
  match c.(cp_policy).(model) with
  | Some m => eq_ignore_case (chars m.(m_host)) (chars host) && (m.(m_port) =? port)
  | None => false
  end.

Definition check_destination (c : CompiledPolicy) (host : string) (ip : IpAddr)
    : result GuardError.t () :=
  let? _ := validate_query_host host 2 in
  let ip := normalize_addr ip in
  bail_if bool_decide (protected_range c.(boundary) ip ≠ None) with perr;
  bail_if blocks_host c.(boundary) host with perr;
  bail_if bool_decide (operator_blocked c.(boundary) ip ≠ None) with perr;
  bail_if bool_decide (default_blocked ip ≠ None) && negb (is_test_address c.(boundary) host ip)
    with perr;
  Ok ().

Definition allows_plain_http_upstream (c : CompiledPolicy) (host : string) (port : Z) (ip : IpAddr)
    : bool :=
  let ip := normalize_addr ip in
  if negb (allows_host c host port) && negb (is_model_endpoint c host port) then false
  else if blocks_host c.(boundary) host
          || bool_decide (protected_range c.(boundary) ip ≠ None) then false
  else if bool_decide (operator_blocked c.(boundary) ip ≠ None) then false
  else bool_decide (ip ∈ test_addresses c.(boundary) host port).

(** Representative addresses of a range; only the last octet or segment moves, and
    it wraps at its width. *)
Definition representative_addresses (net : IpNet) : list IpAddr :=
  match net with
  | V4Net _ prefix =>
      let base := network_of net in
      [V4 base]
      ++ (if prefix <? 32 then [V4 (base - base mod 256 + (base + 1) mod 256)] else [])
      ++ (if prefix <=? 1 then [V4 (broadcast_of net)] else [])
  | V6Net _ prefix =>
      let base := network_of net in
      [V6 base]
      ++ (if prefix <? 128 then [V6 (base - base mod 65536 + (base + 1) mod 65536)] else [])
      ++ (if prefix <=? 1 then [V6 (broadcast_of net)] else [])
  end.

Definition verify_host_name (c : CompiledPolicy) (host : string) : result GuardError.t () :=
  bail_if blocks_host c.(boundary) host with perr;
  each (λ net,
    each (λ address,
      if is_test_address c.(boundary) host address then Ok ()
      else (bail_if is_ok (check_destination c host address) with perr; Ok ()))
      (representative_addresses net))
    (c.(boundary).(blocked_cidrs) ++ default_blocked_cidrs).

Definition verify_rule_boundaries (c : CompiledPolicy) : result GuardError.t () :=
  let p := c.(cp_policy) in
  let? _ := each (λ r, verify_host_name c r.(e_host)) p.(network).(egress) in
  let? _ := match p.(model) with
            | Some m => verify_host_name c m.(m_host)
            | None => Ok ()
            end in
  let? _ := each (λ b, verify_host_name c b.(c_host)) p.(credentials) in
  each (λ zone,
    if existsb (λ r, zone_matches zone r.(e_host)) p.(network).(egress) then Ok () else Err perr)
    p.(network).(dns).(allowed_zones).

Definition verify_model_upstreams (c : CompiledPolicy) : result GuardError.t () :=
  match c.(cp_policy).(model) with
  | None => Ok ()
  | Some m =>
      let addresses := test_addresses c.(boundary) m.(m_host) m.(m_port) in
      if decide (m.(m_scheme) = MODEL_SCHEME_HTTP) then
        bail_if bool_decide (addresses = []) with perr;
        each (λ a, bail_if negb (allows_plain_http_upstream c m.(m_host) m.(m_port) a) with perr;
                   Ok ()) addresses
      else
        each (λ a, bail_if negb (allows_host c m.(m_host) m.(m_port)) with perr; Ok ()) addresses
  end.

Definition verify (c : CompiledPolicy) : result GuardError.t () :=
  let? _ := verify_rule_boundaries c in
  verify_model_upstreams c.

(** [hash] stands for [GuardPolicy::hash], the SHA-256 of the canonical JSON. *)
Definition compile (hash : GuardPolicy → result GuardError.t string) (p : GuardPolicy)
    (b : OperatorBoundary) : result GuardError.t CompiledPolicy :=
  let? _ := GuardPolicy_validate p in
  let? _ := validate_boundary b in
  let normal := normalized p in
  let? h := hash normal in
  let compiled := {| cp_policy := normal; policy_hash := h; boundary := b |} in
  let? _ := verify compiled in
  Ok compiled.

End WithNets.

(** ** Lemmas: address arithmetic *)

Definition is_ip (ip : IpAddr) : Prop :=
  match ip with V4 n => 0 ≤ n < 2 ^ 32 | V6 n => 0 ≤ n < 2 ^ 128 end.

(** Comparing the bits under a mask of the high bits compares the quotient. *)
Lemma land_high w k x c :
  0 ≤ k ≤ w → 0 ≤ x < 2 ^ w →
  Z.land x (Z.shiftl (Z.ones (w - k)) k) = Z.shiftl c k → x / 2 ^ k = c.
Proof.
  intros Hk Hx Hl. assert (0 < 2 ^ k) by (apply Z.pow_pos_nonneg; lia).
  apply (f_equal (λ z, Z.shiftr z k)) in Hl.
  rewrite Z.shiftr_land, !Z.shiftr_shiftl_l, !Z.sub_diag, !Z.shiftl_0_r, Z.land_ones in Hl by lia.
  rewrite Z.shiftr_div_pow2 in Hl by lia. rewrite Z.mod_small in Hl; [done|].
  split; [apply Z.div_pos; lia|].
  apply Z.div_lt_upper_bound; [lia|]. rewrite <-Z.pow_add_r by lia.
  replace (k + (w - k)) with w by lia. lia.
Qed.

Lemma land_benchmark x : 0 ≤ x < 256 → Z.land x 254 = 18 → x / 2 = 9.
Proof. intros Hx Hl. by apply (land_high 8 1 x 9). Qed.

Lemma land_segment x :
  0 ≤ x < 65536 →
  (Z.land x 65280 = 65280 → x / 256 = 255)
  ∧ (Z.land x 65024 = 64512 → x / 512 = 126)
  ∧ (Z.land x 65472 = 65152 → x / 64 = 1018).
Proof.
  intros Hx. split_and!; intros Hl;
    [by apply (land_high 16 8 x 255)|by apply (land_high 16 9 x 126)|by apply (land_high 16 6 x 1018)].
Qed.

Lemma normalize_is_ip ip : is_ip ip → is_ip (normalize_addr ip).
Proof.
  destruct ip as [n|n]; [done|]. unfold normalize_addr, to_ipv4_mapped, to_ipv4. intros Hn.
  pose proof (Z.mod_pos_bound n (2 ^ 32)). repeat case_match; simplify_eq; try done; simpl; lia.
Qed.

Lemma normalize_idem ip : normalize_addr (normalize_addr ip) = normalize_addr ip.
Proof.
  destruct ip as [n|n]; [done|]. unfold normalize_addr at 2 3.
  destruct (to_ipv4_mapped n) eqn:Hm; [done|].
  destruct (to_ipv4 n) as [v4|] eqn:Hc; [destruct (v4 =? 0) eqn:Hz; [|done]|];
    unfold normalize_addr; by rewrite Hm, Hc, ?Hz.
Qed.

Section NonPublic.
Context `{IpNetLaws}.

Lemma covering_None nets ip :
  covering nets ip = None ↔ ∀ net, net ∈ nets → contains net ip = false.
Proof.
  unfold covering. induction nets as [|net nets IH]; simpl; [split; [by intros _ ? ?%elem_of_nil|done]|].
  destruct (contains net ip) eqn:Hc.
  - split; [done|]. intros Hn. by rewrite Hn in Hc by left.
  - rewrite IH. setoid_rewrite elem_of_cons. naive_solver.
Qed.

(** Brings one entry of the default ranges forward. *)
Lemma blocked_by net ip :
  net ∈ default_blocked_cidrs → contains net ip = true → covering default_blocked_cidrs ip ≠ None.
Proof. intros Hin Hc Hn. rewrite covering_None in Hn. rewrite Hn in Hc; done. Qed.

(** The leading bits of an IPv4 address, by octets. *)
Lemma v4_prefixes n :
  0 ≤ n < 2 ^ 32 →
  ∃ o0 o1 o2, octet n 0 = o0 ∧ octet n 1 = o1 ∧ octet n 2 = o2
    ∧ 0 ≤ o0 < 256 ∧ 0 ≤ o1 < 256 ∧ 0 ≤ o2 < 256
    ∧ n / 2 ^ 24 = o0 ∧ n / 2 ^ 28 = o0 / 16 ∧ n / 2 ^ 22 = o0 * 4 + o1 / 64
    ∧ n / 2 ^ 20 = o0 * 16 + o1 / 16 ∧ n / 2 ^ 17 = o0 * 128 + o1 / 2
    ∧ n / 2 ^ 16 = o0 * 256 + o1 ∧ n / 2 ^ 8 = (o0 * 256 + o1) * 256 + o2.
Proof.
  intros Hn. exists (n / 2 ^ 24), ((n / 2 ^ 16) mod 256), ((n / 2 ^ 8) mod 256).
  assert (H0 : 0 ≤ n / 2 ^ 24 < 256)
    by (split; [apply Z.div_pos|apply Z.div_lt_upper_bound]; lia).
  assert (D : ∀ a b, 0 ≤ a → 0 < b → n / (2 ^ a * b) = n / 2 ^ a / b).
  { intros a b Ha Hb. assert (0 < 2 ^ a) by (apply Z.pow_pos_nonneg; lia).
    by rewrite Z.div_div by lia. }
  assert (D24 : n / 2 ^ 24 = n / 2 ^ 16 / 256) by (rewrite <-(D 16 256) by lia; reflexivity).
  assert (D16 : n / 2 ^ 16 = n / 2 ^ 8 / 256) by (rewrite <-(D 8 256) by lia; reflexivity).
  assert (D28 : n / 2 ^ 28 = n / 2 ^ 24 / 16) by (rewrite <-(D 24 16) by lia; reflexivity).
  assert (D22 : n / 2 ^ 22 = n / 2 ^ 16 / 64) by (rewrite <-(D 16 64) by lia; reflexivity).
  assert (D20 : n / 2 ^ 20 = n / 2 ^ 16 / 16) by (rewrite <-(D 16 16) by lia; reflexivity).
  assert (D17 : n / 2 ^ 17 = n / 2 ^ 16 / 2) by (rewrite <-(D 16 2) by lia; reflexivity).
  unfold octet. change (256 ^ (3 - 0)) with (2 ^ 24). change (256 ^ (3 - 1)) with (2 ^ 16).
  change (256 ^ (3 - 2)) with (2 ^ 8). rewrite (Z.mod_small (n / 2 ^ 24)) by done.
  rewrite D28, D22, D20, D17. rewrite D24 in *. revert D16 H0. clear.
  generalize (n / 2 ^ 16) as b, (n / 2 ^ 8) as c. intros b c D16 H0.
  pose proof (Z.mod_pos_bound b 256). pose proof (Z.mod_pos_bound c 256).
  pose proof (Z.div_mod b 256). pose proof (Z.div_mod c 256).
  split_and!; try lia; clear; Z.to_euclidean_division_equations; lia.
Qed.

Ltac by_range net := apply (blocked_by net); [apply (bool_decide_unpack _); vm_compute; exact I|];
  first [rewrite contains_v4 | rewrite contains_v6]; apply Z.eqb_eq;
  match goal with |- ?x / ?d = ?n / ?d =>
    let y := eval vm_compute in (x / d) in change (x / d) with y
  end.

Ltac div_lia := repeat match goal with D : _ / 2 ^ _ = _ |- _ => clear D end;
  Z.to_euclidean_division_equations; lia.

Lemma non_public_v4 n :
  0 ≤ n < 2 ^ 32 → is_non_public (V4 n) = true → covering default_blocked_cidrs (V4 n) ≠ None.
Proof.
  intros Hn. unfold is_non_public, normalize_addr. cbv zeta.
  destruct (v4_prefixes n Hn)
    as (o0 & o1 & o2 & -> & -> & -> & B0 & B1 & B2 & D24 & D28 & D22 & D20 & D17 & D16 & D8).
  intros Hnp.
  repeat match goal with Hx : _ || _ = true |- _ => apply orb_true_iff in Hx as [Hx|Hx] end; bools.
  - by_range (V4Net (ip4 127 0 0 0) 8). change (32 - 8) with 24. lia.
  - by_range (V4Net (ip4 169 254 0 0) 16). change (32 - 16) with 16. lia.
  - by_range (V4Net (ip4 10 0 0 0) 8). change (32 - 8) with 24. lia.
  - by_range (V4Net (ip4 172 16 0 0) 12). change (32 - 12) with 20. rewrite D20. div_lia.
  - by_range (V4Net (ip4 192 168 0 0) 16). change (32 - 16) with 16. lia.
  - by_range (V4Net (ip4 0 0 0 0) 8). apply Z.eqb_eq in Hnp as ->. done.
  - by_range (V4Net (ip4 224 0 0 0) 4). change (32 - 4) with 28. rewrite D28. div_lia.
  - by_range (V4Net (ip4 240 0 0 0) 4). apply Z.eqb_eq in Hnp as ->. done.
  - by_range (V4Net (ip4 0 0 0 0) 8). change (32 - 8) with 24. lia.
  - by_range (V4Net (ip4 100 64 0 0) 10). change (32 - 10) with 22. rewrite D22. div_lia.
  - by_range (V4Net (ip4 192 0 2 0) 24). change (32 - 24) with 8. lia.
  - by_range (V4Net (ip4 198 18 0 0) 15). change (32 - 15) with 17. rewrite D17.
    pose proof (land_benchmark o1 B1). lia.
  - by_range (V4Net (ip4 198 51 100 0) 24). change (32 - 24) with 8. lia.
  - by_range (V4Net (ip4 203 0 113 0) 24). change (32 - 24) with 8. lia.
  - by_range (V4Net (ip4 240 0 0 0) 4). change (32 - 4) with 28. rewrite D28. div_lia.
Qed.

Lemma non_public_v6 n :
  0 ≤ n < 2 ^ 128 → normalize_addr (V6 n) = V6 n → is_non_public (V6 n) = true →
  covering default_blocked_cidrs (V6 n) ≠ None.
Proof.
  intros Hn Hnorm. unfold is_non_public. rewrite Hnorm. intros Hnp.
  assert (Hs : segment n 0 = n / 2 ^ 112).
  { unfold segment. change (65536 ^ (7 - 0)) with (2 ^ 112). apply Z.mod_small.
    split; [apply Z.div_pos; lia|apply Z.div_lt_upper_bound; lia]. }
  assert (B : 0 ≤ segment n 0 < 65536) by (apply Z.mod_pos_bound; lia).
  destruct (land_segment _ B) as (L1 & L2 & L3). rewrite Hs in *.
  assert (D : ∀ b, 0 < b → n / (2 ^ 112 * b) = n / 2 ^ 112 / b)
    by (intros b Hb; by rewrite Z.div_div by lia).
  repeat match goal with Hx : _ || _ = true |- _ => apply orb_true_iff in Hx as [Hx|Hx] end; bools.
  - by_range (V6Net 1 128). apply Z.eqb_eq in Hnp as ->. done.
  - by_range (V6Net 0 128). apply Z.eqb_eq in Hnp as ->. done.
  - by_range (V6Net (ip6 65280 0) 8). change (2 ^ (128 - 8)) with (2 ^ 112 * 256).
    rewrite D by lia. symmetry. apply L1. lia.
  - by_range (V6Net (ip6 64512 0) 7). change (2 ^ (128 - 7)) with (2 ^ 112 * 512).
    rewrite D by lia. symmetry. apply L2. lia.
  - by_range (V6Net (ip6 65152 0) 10). change (2 ^ (128 - 10)) with (2 ^ 112 * 64).
    rewrite D by lia. symmetry. apply L3. lia.
  - exfalso. unfold normalize_addr in Hnorm. by destruct (to_ipv4_mapped n).
Qed.

(** Every address the source calls non-public is inside a range it blocks by
    default: the two lists, kept apart in the code, agree in this direction. *)
Lemma non_public_covered ip :
  is_ip ip → is_non_public ip = true → default_blocked ip ≠ None.
Proof.
  intros Hip. pose proof (normalize_is_ip ip Hip) as Hn. unfold default_blocked.
  assert (Heq : is_non_public ip = is_non_public (normalize_addr ip))
    by (unfold is_non_public; by rewrite normalize_idem).
  rewrite Heq. pose proof (normalize_idem ip) as Hi.
  destruct (normalize_addr ip) as [n|n]; [by apply non_public_v4|by apply non_public_v6].
Qed.
End NonPublic.

(** ** Lemmas: what the checks establish *)
Section Checks.
Context `{IpNetLaws}.

(** Some operator test mapping names this host, on whatever port, and lists this
    address. *)
Definition mapped_for (b : OperatorBoundary) (host : string) (ip : IpAddr) : Prop :=
  ∃ key addresses, (key, addresses) ∈ b.(test_destinations) ∧ normalize_addr ip ∈ addresses
    ∧ ∃ port, lower key = (to_ascii_lowercase <$> strip_trailing_dot (chars host)) ++ ":"%char :: port.

Lemma is_test_address_mapped b host ip : is_test_address b host ip = true → mapped_for b host ip.
Proof.
  unfold is_test_address, mapped_for. rewrite existsb_Exists, Exists_exists.
  intros ([key addresses] & Hin & Hx). cbn [fst snd] in Hx. bools.
  exists key, addresses. split_and!; [done|done|].
  set (h := strip_trailing_dot (chars host)) in *.
  exists (to_ascii_lowercase <$> drop (S (length h)) (chars key)). unfold lower.
  rewrite <-(take_drop (length h) (chars key)) at 1. rewrite fmap_app.
  unfold eq_ignore_ascii_case in *. bools. f_equal; [done|].
  by erewrite drop_S by done.
Qed.

Lemma existsb_contains nets ip :
  existsb (λ net, contains net ip) nets = false ↔ ∀ net, net ∈ nets → contains net ip = false.
Proof. by rewrite existsb_false, Forall_forall. Qed.

Lemma check_destination_ok c host ip :
  check_destination c host ip = Ok () ↔
  validate_query_host host 2 = Ok () ∧ blocks_host c.(boundary) host = false
  ∧ (∀ net, net ∈ c.(boundary).(protected_cidrs) ++ c.(boundary).(blocked_cidrs) →
       contains net (normalize_addr ip) = false)
  ∧ (default_blocked ip = None ∨ is_test_address c.(boundary) host ip = true).
Proof.
  unfold check_destination, protected_range, operator_blocked, default_blocked. cbv zeta.
  rewrite !normalize_idem. setoid_rewrite elem_of_app.
  assert (Ht : is_test_address c.(boundary) host (normalize_addr ip)
               = is_test_address c.(boundary) host ip)
    by (unfold is_test_address; by rewrite normalize_idem).
  rewrite Ht. clear Ht. pose proof (covering_None c.(boundary).(protected_cidrs) (normalize_addr ip)).
  pose proof (covering_None c.(boundary).(blocked_cidrs) (normalize_addr ip)).
  destruct (validate_query_host host 2) as [[]|]; [|naive_solver].
  case_bool_decide as Hp; [split; [done|]; intros (_ & _ & Hn & _); exfalso; naive_solver|].
  destruct (blocks_host _ host); [naive_solver|].
  case_bool_decide as Hb; [split; [done|]; intros (_ & _ & Hn & _); exfalso; naive_solver|].
  destruct (is_test_address _ host ip); simpl.
  - rewrite andb_false_r. split; [|done]. intros _. split_and!; try done; [naive_solver|by right].
  - rewrite andb_true_r. case_bool_decide as Hd; [naive_solver|].
    split; [|done]. intros _. split_and!; try done; [naive_solver|by left].
Qed.

Lemma normalized_egress p r :
  r ∈ (normalized p).(network).(egress) → ∃ r', r' ∈ p.(network).(egress) ∧ r = normalize_rule r'.
Proof.
  cbn [normalized network egress]. intros (r' & -> & Hr)%list_elem_of_fmap_1.
  exists r'. by rewrite sort_by_perm in Hr.
Qed.

Lemma normalized_egress_2 p r :
  r ∈ p.(network).(egress) → normalize_rule r ∈ (normalized p).(network).(egress).
Proof.
  intros Hr. cbn [normalized network egress]. apply list_elem_of_fmap_2. by rewrite sort_by_perm.
Qed.

Lemma endpoint_rule c host port r :
  endpoint c host port = Some r →
  r ∈ c.(cp_policy).(network).(egress) ∧ r.(e_port) = port
  ∧ lower r.(e_host) = to_ascii_lowercase <$> strip_trailing_dot (chars host).
Proof.
  unfold endpoint. intros [Hin Hr]%List.find_some. bools. apply list_elem_of_In in Hin.
  unfold eq_ignore_case, eq_ignore_ascii_case in *. bools. split_and!; [done|lia|done].
Qed.

(** A host that passes is not blocked, and no representative of a closed range is a
    destination it may have unless the operator mapped it. *)
Lemma verify_host_name_ok c host : verify_host_name c host = Ok () →
  blocks_host c.(boundary) host = false
  ∧ ∀ net address, net ∈ c.(boundary).(blocked_cidrs) ++ default_blocked_cidrs → address ∈ representative_addresses net →
      is_test_address c.(boundary) host address = true ∨ is_ok (check_destination c host address) = false.
Proof.
  unfold verify_host_name. intros Hok. ok_inv Hok. split; [done|]. intros net address Hn Ha.
  apply each_ok in Hok. rewrite Forall_forall in Hok. apply Hok, each_ok in Hn. rewrite Forall_forall in Hn. apply Hn in Ha.
  destruct (is_test_address _ _ _); [by left|]. destruct (is_ok _); [done|by right].
Qed.

Lemma verify_ok_hosts c :
  verify c = Ok () →
  (∀ r, r ∈ c.(cp_policy).(network).(egress) → verify_host_name c r.(e_host) = Ok ())
  ∧ (∀ m, c.(cp_policy).(model) = Some m → verify_host_name c m.(m_host) = Ok ())
  ∧ (∀ b, b ∈ c.(cp_policy).(credentials) → verify_host_name c b.(c_host) = Ok ())
  ∧ (∀ m, c.(cp_policy).(model) = Some m → m.(m_scheme) = MODEL_SCHEME_HTTP →
       test_addresses c.(boundary) m.(m_host) m.(m_port) ≠ []
       ∧ ∀ a, a ∈ test_addresses c.(boundary) m.(m_host) m.(m_port) →
           allows_plain_http_upstream c m.(m_host) m.(m_port) a = true)
  ∧ (∀ m, c.(cp_policy).(model) = Some m → m.(m_scheme) ≠ MODEL_SCHEME_HTTP →
       test_addresses c.(boundary) m.(m_host) m.(m_port) ≠ [] → allows_host c m.(m_host) m.(m_port) = true).
Proof.
  unfold verify, verify_rule_boundaries. intros Hok. ok_inv Hok. ok_inv Hok0.
  apply each_ok in Hok1, Hok3. rewrite Forall_forall in Hok1. rewrite Forall_forall in Hok3.
  split_and!; [auto| |auto| |].
  - intros m Hm. rewrite Hm in Hok2. auto.
  - intros m Hm Hs. unfold verify_model_upstreams in Hok. rewrite Hm, decide_True in Hok by done.
    ok_inv Hok. bools. apply each_ok in Hok. rewrite Forall_forall in Hok. split; [done|].
    intros a Ha. apply Hok in Ha. by destruct (allows_plain_http_upstream _ _ _ a).
  - intros m Hm Hs Hne. unfold verify_model_upstreams in Hok. rewrite Hm, decide_False in Hok by done.
    apply each_ok in Hok. destruct (test_addresses _ _ _) as [|a l]; [done|]. apply Forall_cons in Hok as [Hok _].
    by destruct (allows_host _ _ _).
Qed.

Lemma validate_boundary_tests b key addresses ip :
  validate_boundary b = Ok () → (key, addresses) ∈ b.(test_destinations) → ip ∈ addresses →
  is_non_public ip = true
  ∧ ∀ net, net ∈ b.(protected_cidrs) ++ b.(blocked_cidrs) → contains net ip = false.
Proof.
  unfold validate_boundary. intros Hv Hin Hip. ok_inv Hv. apply each_ok in Hv.
  rewrite Forall_forall in Hv. apply Hv in Hin. unfold validate_test_destination in Hin. ok_inv Hin.
  apply each_ok in Hok1. rewrite Forall_forall in Hok1. apply Hok1 in Hip.
  unfold validate_test_address in Hip. ok_inv Hip. bools. split; [by destruct (is_non_public ip)|].
  rewrite existsb_contains in *. setoid_rewrite elem_of_app. naive_solver.
Qed.

Lemma distinct_prefix_spec {A} `{EqDecision A} (seen l : list A) :
  distinct_prefix seen l = true → NoDup l ∧ ∀ x, x ∈ l → x ∉ seen.
Proof.
  revert seen. induction l as [|x l IH]; intros seen Hd; cbn in Hd; [split; [constructor|by intros x ?%elem_of_nil]|].
  bools. destruct (IH _ H1) as [Hnd Hs]. split.
  - constructor; [|done]. intros Hx%Hs. apply Hx. apply elem_of_app. right. apply list_elem_of_here.
  - intros y [->|Hy]%elem_of_cons; [done|]. intros Hin. apply (Hs y Hy). apply elem_of_app. by left.
Qed.

Lemma unblocked_host b host : blocks_host b host = false →
  ∀ blocked, blocked ∈ b.(blocked_hosts) → lower blocked ≠ to_ascii_lowercase <$> strip_trailing_dot (chars host).
Proof.
  unfold blocks_host. rewrite existsb_false, Forall_forall. intros Hb blocked Hin Heq. specialize (Hb blocked Hin). cbn in Hb.
  unfold eq_ignore_case, eq_ignore_ascii_case in Hb. unfold lower in Heq. rewrite (bool_decide_true _ Heq), andb_true_r in Hb.
  apply Z.eqb_neq in Hb. apply Hb. unfold count. f_equal. apply (f_equal length) in Heq. by rewrite !length_fmap in Heq.
Qed.

(** What a boundary that passes validation is. *)
Record boundary_well_formed (b : OperatorBoundary) : Prop := {
  bw_ranges : count b.(blocked_cidrs) ≤ 256 ∧ count b.(protected_cidrs) ≤ 256 ∧ NoDup b.(blocked_cidrs) ∧ NoDup b.(protected_cidrs);
  bw_hosts : count b.(blocked_hosts) ≤ 256 ∧ NoDup b.(blocked_hosts) ∧ Forall (λ h, canonical_name h 1) b.(blocked_hosts);
  bw_tests : count b.(test_destinations) ≤ 64 ∧ ∀ key addresses, (key, addresses) ∈ b.(test_destinations) →
    0 < count addresses ≤ 16 ∧ NoDup addresses
    ∧ (∃ host port, parse_test_destination key = Ok (host, port) ∧ canonical_name host 2 ∧ host ∉ b.(blocked_hosts) ∧ port ≠ 0)
    ∧ ∀ ip, ip ∈ addresses → is_non_public ip = true
        ∧ ∀ net, net ∈ b.(protected_cidrs) ++ b.(blocked_cidrs) → contains net ip = false }.

Lemma validated_test b key addresses : validate_test_destination b (key, addresses) = Ok () →
  0 < count addresses ≤ 16 ∧ NoDup addresses
  ∧ ∃ host port, parse_test_destination key = Ok (host, port) ∧ canonical_name host 2 ∧ host ∉ b.(blocked_hosts) ∧ port ≠ 0.
Proof.
  unfold validate_test_destination. intros Hv. ok_inv Hv. bools. destruct a as [host port]. cbn [fst] in *.
  split; [|split; [by eapply distinct_prefix_spec|]].
  { apply Z.ltb_ge in Hif. unfold MAX_TEST_ADDRESSES, count in *. destruct addresses; [done|cbn [length] in *; lia]. }
  exists host, port. split_and!; [done| |done|].
  - unfold parse_test_destination in Hok. ok_inv Hok. injection Hok as <- <-. by apply validate_dns_name_iff.
  - unfold parse_test_destination in Hok. ok_inv Hok. injection Hok as <- <-. by apply Z.eqb_neq.
Qed.

Lemma validated_boundary b : validate_boundary b = Ok () → boundary_well_formed b.
Proof.
  intros Hv. pose proof Hv as Hv'. unfold validate_boundary in Hv. ok_inv Hv. bools. unfold MAX_BOUNDARY_CIDRS, MAX_BLOCKED_HOSTS, MAX_TEST_DESTINATIONS in *.
  apply each_ok in Hv, Hok. split.
  - split_and!; [lia|lia|by eapply distinct_prefix_spec..].
  - split_and!; [lia|by eapply distinct_prefix_spec|]. eapply Forall_impl; [exact Hok|]. intros h Hh. by apply validate_dns_name_iff.
  - split; [lia|]. intros key addresses Hin. rewrite Forall_forall in Hv. pose proof (Hv _ Hin) as Ht.
    apply validated_test in Ht as (? & ? & ?). split; [done|]. split; [done|]. split; [done|].
    intros ip Hip. by eapply validate_boundary_tests.
Qed.

(** A range written in the IPv4-mapped form holds no normalized address. *)
Lemma mapped_range_empty a prefix ip :
  a / 2 ^ 32 = 65535 → 96 ≤ prefix ≤ 128 → contains (V6Net a prefix) (normalize_addr ip) = false.
Proof.
  intros Ha Hp. pose proof (normalize_idem ip) as Hi.
  destruct (normalize_addr ip) as [n|n]; [apply contains_v6_v4|]. rewrite contains_v6.
  apply Z.eqb_neq. intros Heq. assert (Hm : n / 2 ^ 32 = 65535).
  { rewrite <-Ha. replace (2 ^ 32) with (2 ^ (128 - prefix) * 2 ^ (32 - (128 - prefix)))
      by (rewrite <-Z.pow_add_r by lia; f_equal; lia).
    assert (0 < 2 ^ (128 - prefix)) by (apply Z.pow_pos_nonneg; lia).
    assert (0 < 2 ^ (32 - (128 - prefix))) by (apply Z.pow_pos_nonneg; lia).
    by rewrite <-!Z.div_div, Heq by lia. }
  unfold normalize_addr, to_ipv4_mapped in Hi. by rewrite Hm in Hi.
Qed.

End Checks.

(** ** Theorems *)

(** C1: No address the Guard calls non-public (loopback, link-local and metadata,
    private, shared, multicast, documentation, reserved) passes the destination
    check for a host without an operator test mapping of that very address, in
    any of its spellings: plain, IPv4-mapped or IPv4-compatible. *)
Theorem non_public_unreachable `{IpNetLaws} (c : CompiledPolicy) (host : string) (ip : IpAddr) :
  is_ip ip → is_non_public ip = true → ¬ mapped_for c.(boundary) host ip →
  is_ok (check_destination c host ip) = false
  ∧ ∀ n, ip = V4 n →
      is_ok (check_destination c host (V6 (65535 * 2 ^ 32 + n))) = false
      ∧ (n ≠ 0 → is_ok (check_destination c host (V6 n)) = false).
Proof.
  intros Hip Hnp Hm.
  assert (Hdeny : ∀ ip', normalize_addr ip' = normalize_addr ip →
            is_ok (check_destination c host ip') = false).
  { intros ip' Heq. destruct (check_destination c host ip') as [[]|] eqn:Hc; [|done]. exfalso.
    apply check_destination_ok in Hc as (_ & _ & _ & [Hd|Hd]).
    - apply (non_public_covered ip); [done|done|]. unfold default_blocked in *. congruence.
    - apply is_test_address_mapped in Hd. apply Hm. unfold mapped_for in *. by rewrite <-Heq. }
  split; [by apply Hdeny|]. intros n ->. simpl in Hip.
  split; [|intros Hn0]; apply Hdeny; unfold normalize_addr, to_ipv4_mapped, to_ipv4.
  - rewrite Z.div_add_l, (Z.div_small n) by lia. simpl.
    by rewrite Z.add_comm, Z.mod_add, Z.mod_small by lia.
  - rewrite Z.div_small by lia. simpl. rewrite Z.mod_small by lia.
    by apply Z.eqb_neq in Hn0 as ->.
Qed.

(** The destination check decides exactly the documented precedence: a valid
    name; not a blocked host; no protected or operator-blocked range, with no
    exception; and no default range unless the operator mapped this host to this
    address, which never overrides the ranges before. *)
Theorem check_destination_precedence `{IpNetLaws} (c : CompiledPolicy) (host : string) (ip : IpAddr) :
  check_destination c host ip = Ok () →
  validate_query_host host 2 = Ok () ∧ blocks_host c.(boundary) host = false
  ∧ (∀ net, net ∈ c.(boundary).(protected_cidrs) ++ c.(boundary).(blocked_cidrs) →
       contains net (normalize_addr ip) = false)
  ∧ (∀ net, net ∈ default_blocked_cidrs → contains net (normalize_addr ip) = true →
       mapped_for c.(boundary) host ip).
Proof.
  intros (? & ? & ? & Hd)%check_destination_ok. split_and!; [done..|].
  intros net Hin Hc. destruct Hd as [Hd|Hd]; [|by apply is_test_address_mapped].
  unfold default_blocked in Hd. rewrite covering_None in Hd. by rewrite Hd in Hc.
Qed.

(** C34: What [compile] accepts is valid and safe against its boundary.  The policy is well
    formed (canonical hosts, no destination twice, every destination resolvable and no zone
    without one, unique bindings, a model's credential bound to it, limits in their ranges)
    and so is the boundary (bounded, without duplicates, canonical hosts, and only non-public
    test addresses outside the operator's ranges); the compiled rules are the policy's own
    rules; no host of a rule, of the model or of a credential is blocked; a plain-HTTP model
    endpoint has an operator mapping all of whose addresses are authorized, and a mapped TLS
    endpoint is itself permitted; no sampled address of a blocked range is a destination of
    such a host unless the operator mapped it; and whatever the gateway later finds permitted
    is a rule of the policy. *)
Theorem compile_sound `{IpNetLaws} hash (p : GuardPolicy) (b : OperatorBoundary) (c : CompiledPolicy) :
  compile hash p b = Ok c →
  (unsigned_limits p.(limits) → well_formed p) ∧ boundary_well_formed b
  ∧ c.(cp_policy) = normalized p ∧ c.(boundary) = b ∧ hash (normalized p) = Ok c.(policy_hash)
  ∧ (∀ host, host ∈ (e_host <$> p.(network).(egress)) ++ (c_host <$> p.(credentials)) ++ (m_host <$> option_list p.(model)) →
       (∀ blocked, blocked ∈ b.(blocked_hosts) → lower blocked ≠ to_ascii_lowercase <$> strip_trailing_dot (chars host))
       ∧ ∀ net address, net ∈ b.(blocked_cidrs) ++ default_blocked_cidrs → address ∈ representative_addresses net →
           is_test_address b host address = true ∨ is_ok (check_destination c host address) = false)
  ∧ (∀ m, p.(model) = Some m → m.(m_scheme) = MODEL_SCHEME_HTTP →
       test_addresses b m.(m_host) m.(m_port) ≠ []
       ∧ ∀ a, a ∈ test_addresses b m.(m_host) m.(m_port) →
           allows_plain_http_upstream c m.(m_host) m.(m_port) a = true)
  ∧ (∀ m, p.(model) = Some m → m.(m_scheme) ≠ MODEL_SCHEME_HTTP →
       test_addresses b m.(m_host) m.(m_port) ≠ [] → allows_host c m.(m_host) m.(m_port) = true)
  ∧ (∀ host port, allows_host c host port = true →
       ∃ r, r ∈ p.(network).(egress) ∧ r.(e_port) = port
         ∧ lower r.(e_host) = to_ascii_lowercase <$> strip_trailing_dot (chars host)).
Proof.
  unfold compile. intros Hc. ok_inv Hc. injection Hc as <-. cbn [cp_policy boundary policy_hash].
  pose proof (verify_ok_hosts _ Hok2) as (He & Hm & Hcr & Hh & Ht). cbn [cp_policy boundary] in *.
  split_and!; [intros Hu; by apply validate_well_formed|by apply validated_boundary|done|done|done| |done|done|].
  - intros host Hin. match goal with |- _ ∧ ?P => enough (Hv : blocks_host b host = false ∧ P)
      by (destruct Hv; split; [by apply unblocked_host|done]) end.
    eapply (verify_host_name_ok {| cp_policy := _; policy_hash := _; boundary := b |}). rewrite !elem_of_app, !list_elem_of_fmap in Hin.
    destruct Hin as [(r & -> & Hr)|[(x & -> & Hx)|(m & -> & Hx)]].
    + by apply (He (normalize_rule r)), normalized_egress_2.
    + apply Hcr. cbn. by rewrite sort_by_perm.
    + apply Hm. cbn. destruct (model p); [|by apply elem_of_nil in Hx]. by apply list_elem_of_singleton in Hx as ->.
  - intros host port Ha. unfold allows_host in Ha. bools.
    destruct (endpoint _ host port) as [r|] eqn:Hr; [|done].
    apply endpoint_rule in Hr as (Hin & Hp & Hl). apply normalized_egress in Hin as (r' & ? & ->).
    by exists r'.
Qed.

(** DNS scope.  A question is permitted only for record types A and AAAA that
    the policy lists, and only for a name some configured zone covers. *)
Theorem allows_dns_scope (c : CompiledPolicy) (name : string) (record_type : Z) :
  allows_dns c name record_type = true ↔
  ∃ record, (record_type = 1 ∧ record = "A"%string ∨ record_type = 28 ∧ record = "AAAA"%string)
    ∧ record ∈ c.(cp_policy).(network).(dns).(allowed_record_types)
    ∧ ∃ zone, zone ∈ c.(cp_policy).(network).(dns).(allowed_zones)
        ∧ zone_matches zone (string_of (strip_trailing_dot (chars name))) = true.
Proof.
  unfold allows_dns, dns_record_type_name, allows_name.
  set (zones := allowed_zones _). set (types := allowed_record_types _).
  assert (Hz : existsb (λ z, zone_matches z (string_of (strip_trailing_dot (chars name)))) zones = true
    ↔ ∃ zone, zone ∈ zones
        ∧ zone_matches zone (string_of (strip_trailing_dot (chars name))) = true)
    by (by rewrite existsb_Exists, Exists_exists).
  fold (string_of (strip_trailing_dot (chars name))).
  destruct (Z.eqb_spec record_type 1) as [->|H1]; [|destruct (Z.eqb_spec record_type 28) as [->|H28]].
  - rewrite andb_true_iff, bool_decide_eq_true, Hz. naive_solver.
  - rewrite andb_true_iff, bool_decide_eq_true, Hz. naive_solver.
  - split; [done|]. naive_solver.
Qed.

(** A protected range written in the IPv4-mapped form protects nothing: the
    check normalizes the address to IPv4 before it looks at the ranges, so adding
    such a range changes no decision, although the same addresses are reachable. *)
Theorem mapped_protected_range_ineffective `{IpNetLaws} (c : CompiledPolicy) a prefix :
  a / 2 ^ 32 = 65535 → 96 ≤ prefix ≤ 128 →
  ∀ host ip,
    check_destination
      {| cp_policy := c.(cp_policy); policy_hash := c.(policy_hash);
         boundary := {| blocked_cidrs := c.(boundary).(blocked_cidrs);
                        protected_cidrs := V6Net a prefix :: c.(boundary).(protected_cidrs);
                        blocked_hosts := c.(boundary).(blocked_hosts);
                        test_destinations := c.(boundary).(test_destinations) |} |} host ip
    = check_destination c host ip.
Proof.
  intros Ha Hp host ip. unfold check_destination, protected_range. cbv zeta. cbn [boundary].
  assert (Hc : covering (V6Net a prefix :: protected_cidrs (boundary c))
                 (normalize_addr (normalize_addr ip))
               = covering (protected_cidrs (boundary c)) (normalize_addr (normalize_addr ip))).
  { unfold covering. cbn [List.find]. by rewrite (mapped_range_empty a prefix (normalize_addr ip)). }
  cbn [protected_cidrs]. rewrite Hc. done.
Qed.

(** ** A concrete network library and examples *)
Module SampleNet.

#[global] Instance nets : IpNetLib := {|
  contains net ip :=
    match net, ip with
    | V4Net a p, V4 n => a / 2 ^ (32 - p) =? n / 2 ^ (32 - p)
    | V6Net a p, V6 n => a / 2 ^ (128 - p) =? n / 2 ^ (128 - p)
    | _, _ => false
    end;
  network_of net :=
    match net with
    | V4Net a p => a / 2 ^ (32 - p) * 2 ^ (32 - p)
    | V6Net a p => a / 2 ^ (128 - p) * 2 ^ (128 - p)
    end;
  broadcast_of net :=
    match net with
    | V4Net a p => a / 2 ^ (32 - p) * 2 ^ (32 - p) + 2 ^ (32 - p) - 1
    | V6Net a p => a / 2 ^ (128 - p) * 2 ^ (128 - p) + 2 ^ (128 - p) - 1
    end |}.

#[global] Instance nets_laws : IpNetLaws nets.
Proof. by split. Qed.

(** A boundary with one protected address and a local mock for one host. *)
Definition sample_boundary : OperatorBoundary := {|
  blocked_cidrs := [V4Net (ip4 8 8 8 0) 24]; protected_cidrs := [V4Net (ip4 10 0 0 1) 32];
  blocked_hosts := ["control.internal"%string];
  test_destinations := [("files.example.com:8443"%string, [V4 (ip4 127 0 0 1)])] |}.

Definition sample_compiled : CompiledPolicy := {|
  cp_policy := normalized sample_policy; policy_hash := "h"; boundary := sample_boundary |}.

Lemma not_mapped : ¬ mapped_for sample_boundary "files.example.com" (V4 (ip4 169 254 169 254)).
Proof.
  intros (key & addresses & Hin & Hip & _). apply list_elem_of_singleton in Hin.
  injection Hin as -> ->. by apply list_elem_of_singleton in Hip.
Qed.

Lemma non_public_unreachable_witness :
  is_ok (check_destination sample_compiled "files.example.com" (V4 (ip4 169 254 169 254))) = false
  ∧ is_ok (check_destination sample_compiled "files.example.com" (V4 (ip4 127 0 0 1))) = true.
Proof.
  split; [|vm_compute; reflexivity].
  apply (non_public_unreachable sample_compiled "files.example.com" (V4 (ip4 169 254 169 254)));
    [vm_compute; by split|vm_compute; reflexivity|apply not_mapped].
Defined.

Lemma check_destination_precedence_witness :
  blocks_host sample_boundary "files.example.com" = false.
Proof.
  apply (check_destination_precedence sample_compiled "files.example.com" (V4 (ip4 1 1 1 1))).
  vm_compute. reflexivity.
Defined.

Lemma compile_sound_witness :
  ∃ c, compile (λ _, Ok "h"%string) sample_policy sample_boundary = Ok c
    ∧ c.(cp_policy) = normalized sample_policy ∧ allows_host c "FILES.example.com." 8443 = true.
Proof.
  exists sample_compiled. split; [vm_compute; reflexivity|]. split; [|vm_compute; reflexivity].
  apply (compile_sound (λ _, Ok "h"%string) sample_policy sample_boundary sample_compiled).
  vm_compute. reflexivity.
Defined.

Lemma mapped_protected_range_ineffective_witness :
  is_ok (check_destination
    {| cp_policy := normalized sample_policy; policy_hash := "h";
       boundary := {| blocked_cidrs := [V4Net (ip4 8 8 8 0) 24];
                      protected_cidrs := [V6Net (65535 * 2 ^ 32 + ip4 1 1 1 1) 128;
                                          V4Net (ip4 10 0 0 1) 32];
                      blocked_hosts := ["control.internal"%string];
                      test_destinations := test_destinations sample_boundary |} |}
    "files.example.com" (V4 (ip4 1 1 1 1))) = true.
Proof.
  erewrite (mapped_protected_range_ineffective sample_compiled (65535 * 2 ^ 32 + ip4 1 1 1 1) 128);
    [vm_compute; reflexivity|vm_compute; reflexivity|lia].
Defined.

End SampleNet.
