(* ===== verification/Graphql.v ===== *)
(** * Graphql: the bounded parser for inspected GraphQL documents

    The parser of [crates/aiec-guard/src/l7.rs], from [parse_graphql] to the last
    helper of [Parser], and the proof that it reads exactly a small grammar.

    The parser's [input] and [pos] are modelled by the bytes from [pos] on ([rest]);
    a position past the end of the input is an empty rest, as [Parser::rest] has it.
    Reasons are the static strings of the code.

    - Module [Parser]: the code, as a state and error monad.  Loops and recursion run
      on fuel; [document_terminates] shows that the fuel is never used up.
    - Module [Grammar]: documents as syntax trees, their tokens, and what it means for
      bytes to spell tokens, with blanks, commas and comments in between.
    - The theorems: the parser accepts exactly the spellings of the trees within its
      bounds, and reports of a tree exactly its operations and root fields. *)

From Stdlib Require Import Ascii.
From S2P Require Import Prelude.

(** ** Results of the parser *)
Inductive Refusal := Forbidden | Malformed | TooLarge.
#[global] Instance Refusal_eq_dec : EqDecision Refusal. Proof. solve_decision. Defined.

Record GraphqlParseError := { refusal : Refusal; reason : string }.
#[global] Instance GraphqlParseError_eq_dec : EqDecision GraphqlParseError.
Proof. solve_decision. Defined.

Inductive GraphqlKind := Query | Mutation | Subscription.
#[global] Instance GraphqlKind_eq_dec : EqDecision GraphqlKind. Proof. solve_decision. Defined.

Definition GraphqlKind_as_str (k : GraphqlKind) : string :=
  match k with
  | Query => "query" | Mutation => "mutation" | Subscription => "subscription"
  end.

Record GraphqlOperation := {
  op_kind : GraphqlKind; op_name : option string; op_root_fields : list string }.
#[global] Instance GraphqlOperation_eq_dec : EqDecision GraphqlOperation.
Proof. solve_decision. Defined.

Definition MAX_INSPECTED_BODY_BYTES : Z := 64 * 1024.
Definition MAX_GRAPHQL_DEPTH : Z := 12.
Definition MAX_GRAPHQL_FIELDS : Z := 256.
Definition MAX_GRAPHQL_OPERATIONS : Z := 8.
Definition MAX_OPERATION_NAME_BYTES : Z := 64.

Definition malformed (reason : string) : GraphqlParseError :=
  {| refusal := Malformed; reason := reason |}.
Definition unsupported (reason : string) : GraphqlParseError :=
  {| refusal := Forbidden; reason := reason |}.

Definition newline : ascii := "010"%char.
Definition quote : ascii := "034"%char.
Definition backslash : ascii := "092"%char.
Definition name_start (b : ascii) : bool := is_ascii_alphabetic b || is_char "_" b.
Definition name_byte (b : ascii) : bool := is_ascii_alphanumeric b || is_char "_" b.
Definition number_byte (b : ascii) : bool := is_ascii_digit b || is_one_of "-+.eE" b.

(** The run of bytes a [while] loop over [p] consumes, and what it leaves. *)
Fixpoint span (p : ascii → bool) (s : list ascii) : list ascii * list ascii :=
  match s with
  | b :: s' => if p b then (b :: (span p s').1, (span p s').2) else ([], s)
  | [] => ([], [])
  end.

Definition not_parsable : GraphqlParseError := malformed "l7 graphql: document is not parsable".

(** ** The parser *)
Module Parser.

(** How a computation of the parser ends early. *)
Inductive stop := Refused (e : GraphqlParseError) | OutOfFuel.
#[global] Instance stop_eq_dec : EqDecision stop. Proof. solve_decision. Defined.

Record Parser := { rest : list ascii; selected : Z }.

Definition M (A : Type) : Type := Parser → result stop (A * Parser).

#[global] Instance M_ret : MRet M := λ A a p, Ok (a, p).
#[global] Instance M_bind : MBind M := λ A B f m p,
  match m p with Ok (a, p') => f a p' | Err e => Err e end.

Definition fail {A} (e : GraphqlParseError) : M A := λ _, Err (Refused e).
Definition out_of_fuel {A} : M A := λ _, Err OutOfFuel.
Definition set_rest (s : list ascii) : M () := λ p, Ok ((), {| rest := s; selected := p.(selected) |}).
Definition get_rest : M (list ascii) := λ p, Ok (p.(rest), p).

(** Blanks and commas are skipped one by one, a comment up to and with its newline. *)
Fixpoint skip (in_comment : bool) (s : list ascii) : list ascii :=
  match s with
  | [] => []
  | b :: s' =>
      if in_comment then skip (negb (is_char newline b)) s'
      else if is_one_of " ," b || is_char "009" b || is_char "013" b || is_char newline b
      then skip false s'
      else if is_char "#" b then skip true s'
      else s
  end.

Definition skip_trivia : M () := s ← get_rest; set_rest (skip false s).

(** [self.input.get(self.pos)], without skipping. *)
Definition current : M (option ascii) := s ← get_rest; mret (head s).
Definition advance (n : nat) : M () := s ← get_rest; set_rest (drop n s).

Definition peek : M (option ascii) := skip_trivia ;; current.

Definition eat (byte : ascii) : M bool :=
  b ← peek;
  if decide (b = Some byte) then advance 1 ;; mret true else mret false.

Definition expect (byte : ascii) : M () :=
  ok ← eat byte;
  if (ok : bool) then mret () else fail not_parsable.

Definition keyword (word : string) : M bool :=
  skip_trivia ;;
  s ← get_rest;
  mret (bool_decide (take (String.length word) s = chars word)
        && negb (from_option name_byte false (head (drop (String.length word) s)))).

Definition name : M string :=
  b ← peek;
  if from_option name_start false b then
    s ← get_rest;
    let run := (span name_byte s).1 in
    set_rest (span name_byte s).2 ;;
    if MAX_OPERATION_NAME_BYTES <? Z.of_nat (length run)
    then fail (unsupported "l7 graphql: name exceeds the length bound")
    else mret (String.string_of_list_ascii run)
  else fail not_parsable.

Definition number : M () := s ← get_rest; set_rest (span number_byte s).2.

Definition triple : list ascii := [quote; quote; quote].

(** The loop of a block string, from after the opening quotes. *)
Fixpoint block_end (s : list ascii) : option (list ascii) :=
  match s with
  | [] => None
  | b :: s' =>
      if is_char backslash b then match s' with [] => None | _ :: s'' => block_end s'' end
      else if bool_decide (take 3 s = triple) then Some (drop 3 s)
      else block_end s'
  end.

(** The loop of a plain string, from after the opening quote. *)
Fixpoint string_end (s : list ascii) : option (list ascii) :=
  match s with
  | [] => None
  | b :: s' =>
      if is_char newline b then None
      else if is_char backslash b then match s' with [] => None | _ :: s'' => string_end s'' end
      else if is_char quote b then Some s'
      else string_end s'
  end.

Definition string_literal : M () :=
  s ← get_rest;
  let left := if bool_decide (take 3 s = triple) then block_end (drop 3 s)
              else string_end (drop 1 s) in
  match left with Some s' => set_rest s' | None => fail not_parsable end.

(** The loops of the parser: items up to a closing byte. *)
Fixpoint until {A} (fuel : nat) (close : ascii) (item : A → M A) (acc : A) : M A :=
  match fuel with
  | O => out_of_fuel
  | S fuel =>
      b ← peek;
      match b with
      | None => fail not_parsable
      | Some b =>
          if decide (b = close) then advance 1 ;; mret acc
          else acc ← item acc; until fuel close item acc
      end
  end.

Fixpoint value (fuel : nat) (depth : Z) : M () :=
  match fuel with
  | O => out_of_fuel
  | S fuel =>
      if MAX_GRAPHQL_DEPTH <? depth then fail (unsupported "l7 graphql: value nests too deeply")
      else
        b ← peek;
        match b with
        | None => fail not_parsable
        | Some b =>
            if is_char quote b then string_literal
            else if is_one_of "[{" b then
              advance 1 ;;
              until fuel (if is_char "[" b then "]" else "}")%char (λ _, value fuel (depth + 1)) ()
            else if is_char "$" b then advance 1 ;; name ;; mret ()
            else if name_start b then name ;; mret ()
            else if is_ascii_digit b || is_one_of "-+" b then number
            else fail not_parsable
        end
  end.

Definition arguments (fuel : nat) (depth : Z) : M () :=
  expect "(" ;;
  until fuel ")" (λ _, name ;; expect ":" ;; value fuel depth) ().

Fixpoint type_ref (fuel : nat) (depth : Z) : M () :=
  match fuel with
  | O => out_of_fuel
  | S fuel =>
      if MAX_GRAPHQL_DEPTH <? depth then fail (unsupported "l7 graphql: type nests too deeply")
      else
        b ← peek;
        (if decide (b = Some "["%char)
         then advance 1 ;; type_ref fuel (depth + 1) ;; expect "]"
         else name ;; mret ()) ;;
        b ← current;
        if decide (b = Some "!"%char) then advance 1 else mret ()
  end.

Definition variable_definitions (fuel : nat) (depth : Z) : M () :=
  expect "(" ;;
  until fuel ")" (λ _,
    b ← current;
    if decide (b = Some "$"%char) then
      advance 1 ;; name ;; expect ":" ;; type_ref fuel depth ;;
      b ← current;
      if decide (b = Some "="%char) then advance 1 ;; value fuel depth else mret ()
    else fail not_parsable) ().

Fixpoint directives (fuel : nat) : M () :=
  match fuel with
  | O => out_of_fuel
  | S fuel =>
      b ← peek;
      if decide (b = Some "@"%char) then
        advance 1 ;; name ;;
        b ← peek;
        (if decide (b = Some "("%char) then arguments fuel 0 else mret ()) ;;
        directives fuel
      else mret ()
  end.

Definition add_root (roots : list string) (field : string) : list string :=
  if decide (field ∈ roots) then roots else roots ++ [field].

Definition count_field : M () := λ p,
  let selected := p.(selected) + 1 in
  if MAX_GRAPHQL_FIELDS <? selected
  then Err (Refused (unsupported "l7 graphql: document selects too many fields"))
  else Ok ((), {| rest := p.(rest); selected := selected |}).

(** One field of a selection set; [nested] reads the selection set below it. *)
Definition selection (nested : M ()) (fuel : nat) (depth : Z) (roots : list string) : M (list string) :=
  b ← current;
  if decide (b = Some "."%char)
  then fail (unsupported "l7 graphql: fragment spreads are not inspected")
  else
    first ← name;
    count_field ;;
    aliased ← eat ":";
    field ← (if (aliased : bool) then name else mret first);
    let roots := if decide (depth = 1) then add_root roots field else roots in
    b ← peek;
    (if decide (b = Some "("%char) then arguments fuel 0 else mret ()) ;;
    directives fuel ;;
    b ← peek;
    (if decide (b = Some "{"%char) then nested else mret ()) ;;
    mret roots.

Fixpoint selection_set (fuel : nat) (depth : Z) : M (list string) :=
  match fuel with
  | O => out_of_fuel
  | S fuel =>
      if MAX_GRAPHQL_DEPTH <? depth
      then fail (unsupported "l7 graphql: selection set nests too deeply")
      else
        expect "{" ;;
        until fuel "}" (selection (selection_set fuel (depth + 1) ;; mret ()) fuel depth) []
  end.

Definition operation (fuel : nat) (kind : GraphqlKind) : M GraphqlOperation :=
  b ← peek;
  name ← (if decide (b = Some "("%char ∨ b = Some "@"%char ∨ b = Some "{"%char)
          then mret None else n ← name; mret (Some n));
  b ← peek;
  (if decide (b = Some "("%char) then variable_definitions fuel 0 else mret ()) ;;
  directives fuel ;;
  root_fields ← selection_set fuel 1;
  mret {| op_kind := kind; op_name := name; op_root_fields := root_fields |}.

(** One definition of the document, from its first byte. *)
Definition definition (fuel : nat) (byte : ascii) : M GraphqlOperation :=
  if decide (byte = "{"%char) then
    root_fields ← selection_set fuel 1;
    mret {| op_kind := Query; op_name := None; op_root_fields := root_fields |}
  else
    fragment ← keyword "fragment";
    if (fragment : bool) then fail (unsupported "l7 graphql: fragment definitions are not inspected")
    else
      query ← keyword "query";
      if (query : bool) then advance 5 ;; operation fuel Query
      else
        mutation ← keyword "mutation";
        if (mutation : bool) then advance 8 ;; operation fuel Mutation
        else
          subscription ← keyword "subscription";
          if (subscription : bool) then advance 12 ;; operation fuel Subscription
          else fail not_parsable.

(** The loop of [parse_graphql]. *)
Fixpoint document (fuel : nat) (operations : list GraphqlOperation) : M (list GraphqlOperation) :=
  match fuel with
  | O => out_of_fuel
  | S fuel =>
      b ← peek;
      match b with
      | None => mret operations
      | Some byte =>
          op ← definition (S fuel) byte;
          let operations := operations ++ [op] in
          if MAX_GRAPHQL_OPERATIONS <? Z.of_nat (length operations)
          then fail (unsupported "l7 graphql: document declares too many operations")
          else document fuel operations
      end
  end.

End Parser.

(** Fuel is one more than the number of bytes; [document_terminates] shows that the
    last case does not occur. *)
Definition parse_graphql (document : string) : result GraphqlParseError (list GraphqlOperation) :=
  if MAX_INSPECTED_BODY_BYTES <? slen document
  then Err {| refusal := TooLarge; reason := "l7 graphql: document exceeds the inspection bound" |}
  else
    match Parser.document (S (String.length document)) []
            {| Parser.rest := chars document; Parser.selected := 0 |} with
    | Ok (operations, _) => Ok operations
    | Err (Parser.Refused e) => Err e
    | Err Parser.OutOfFuel => Err not_parsable
    end.

(** ** The grammar

    Syntax trees of the documents the parser can read, without its bounds.  An input
    object has no keys here: [{] and [}] enclose values, as in the code. *)
Module Grammar.

(** [glued] is what follows the token with nothing in between. *)
Inductive token :=
| TName (n : string) (glued : list ascii)
| TPunct (c : ascii) (glued : list ascii)
| TNum (raw : list ascii)
| TStr (raw : list ascii).

Definition lexeme (t : token) : list ascii :=
  match t with
  | TName n g => chars n ++ g
  | TPunct c g => c :: g
  | TNum raw | TStr raw => raw
  end.

(** What a plain string holds between its quotes, and a block string. *)
Inductive string_body : list ascii → Prop :=
| string_nil : string_body []
| string_escape c s : string_body s → string_body (backslash :: c :: s)
| string_plain c s :
    c ≠ newline → c ≠ backslash → c ≠ quote → string_body s → string_body (c :: s).

Inductive block_body : list ascii → Prop :=
| block_nil : block_body []
| block_escape c s : block_body s → block_body (backslash :: c :: s)
| block_plain c s :
    c ≠ backslash → take 3 (c :: s ++ Parser.triple) ≠ Parser.triple → block_body s →
    block_body (c :: s).

Definition string_ok (raw : list ascii) : Prop :=
  (∃ s, string_body s ∧ raw = quote :: s ++ [quote])
  ∨ (∃ s, block_body s ∧ raw = Parser.triple ++ s ++ Parser.triple).

Definition glue_ok (g : list ascii) : Prop :=
  g ∈ [[]; ["!"]; ["="]; ["!"; "="]]%char.

Definition name_ok (n : string) : Prop :=
  from_option name_start false (head (chars n)) = true ∧ forallb name_byte (chars n) = true
  ∧ slen n ≤ MAX_OPERATION_NAME_BYTES.

Definition token_ok (t : token) : Prop :=
  match t with
  | TName n g => name_ok n ∧ glue_ok g
  | TPunct c g => is_one_of "{}()[]:@$" c = true ∧ glue_ok g
  | TNum raw =>
      from_option (λ b, is_ascii_digit b || is_one_of "-+" b) false (head raw) = true
      ∧ forallb number_byte raw = true
  | TStr raw => string_ok raw
  end.

(** A name ends where no byte of a name follows, and so on. *)
Definition separated (t : token) (next : option ascii) : Prop :=
  match t with
  | TName _ [] => from_option name_byte false next = false
  | TNum _ => from_option number_byte false next = false
  | TStr raw => raw = [quote; quote] → next ≠ Some quote
  | _ => True
  end.

Definition blank (b : ascii) : bool :=
  is_one_of " ," b || is_char "009" b || is_char "013" b || is_char newline b.

(** Blanks, commas and comments between tokens. *)
Inductive Skips : list ascii → list ascii → Prop :=
| skips_refl s : Skips s s
| skips_blank b s r : blank b = true → Skips s r → Skips (b :: s) r
| skips_comment body s r :
    newline ∉ body → Skips s r → Skips ("#"%char :: body ++ newline :: s) r
| skips_last body : newline ∉ body → Skips ("#"%char :: body) [].

(** [s] spells the tokens and leaves [r]. *)
Inductive Reads : list ascii → list token → list ascii → Prop :=
| reads_nil s r : Skips s r → Reads s [] r
| reads_cons s t s' ts r :
    Skips s (lexeme t ++ s') → token_ok t → separated t (head s') →
    Reads s' ts r → Reads s (t :: ts) r.

Definition punct (c : ascii) : token := TPunct c [].
Definition word (n : string) : token := TName n [].

Inductive val :=
| VStr (raw : list ascii)
| VGroup (square : bool) (vs : list val)
| VVar (n : string)
| VName (n : string)
| VNum (raw : list ascii).

Fixpoint val_tokens (v : val) : list token :=
  match v with
  | VStr raw => [TStr raw]
  | VGroup square vs =>
      punct (if square then "[" else "{")%char :: flat_map val_tokens vs
      ++ [punct (if square then "]" else "}")%char]
  | VVar n => [punct "$"; word n]
  | VName n => [word n]
  | VNum raw => [TNum raw]
  end.

(** Whether no value nests beyond the bound when [v] stands at [depth]. *)
Fixpoint val_within (depth : Z) (v : val) : bool :=
  (depth <=? MAX_GRAPHQL_DEPTH)
  && match v with VGroup _ vs => forallb (val_within (depth + 1)) vs | _ => true end.

Inductive ty := TyName (n : string) (bang : bool) | TyList (t : ty) (bang : bool).

Definition bang_byte (bang : bool) : list ascii := if bang then ["!"%char] else [].

Fixpoint ty_tokens (t : ty) (glued : list ascii) : list token :=
  match t with
  | TyName n bang => [TName n (bang_byte bang ++ glued)]
  | TyList t bang => punct "[" :: ty_tokens t [] ++ [TPunct "]" (bang_byte bang ++ glued)]
  end.

Fixpoint ty_within (depth : Z) (t : ty) : bool :=
  (depth <=? MAX_GRAPHQL_DEPTH)
  && match t with TyList t _ => ty_within (depth + 1) t | TyName _ _ => true end.

Definition arg : Type := string * val.
Definition arg_tokens (a : arg) : list token := word a.1 :: punct ":" :: val_tokens a.2.
Definition args_tokens (args : option (list arg)) : list token :=
  match args with
  | Some args => punct "(" :: flat_map arg_tokens args ++ [punct ")"]
  | None => []
  end.
Definition args_within (args : option (list arg)) : bool :=
  forallb (λ a, val_within 0 a.2) (default [] args).

Record directive := { d_name : string; d_args : option (list arg) }.
Definition directive_tokens (d : directive) : list token :=
  punct "@" :: word d.(d_name) :: args_tokens d.(d_args).

Record variable := { v_name : string; v_type : ty; v_default : option val }.
Definition variable_tokens (v : variable) : list token :=
  punct "$" :: word v.(v_name) :: punct ":"
  :: ty_tokens v.(v_type) (match v.(v_default) with Some _ => ["="%char] | None => [] end)
  ++ from_option val_tokens [] v.(v_default).
Definition variable_within (v : variable) : bool :=
  ty_within 0 v.(v_type) && from_option (val_within 0) true v.(v_default).

Inductive sel :=
| Sel (alias : option string) (field : string) (args : option (list arg))
    (dirs : list directive) (sub : option (list sel)).

Definition sel_field (s : sel) : string := let 'Sel _ field _ _ _ := s in field.

Definition braces (ts : list token) : list token := punct "{" :: ts ++ [punct "}"].

Fixpoint sel_tokens (s : sel) : list token :=
  let 'Sel alias field args dirs sub := s in
  match alias with Some a => [word a; punct ":"] | None => [] end ++ word field :: args_tokens args
  ++ flat_map directive_tokens dirs
  ++ match sub with Some sels => braces (flat_map sel_tokens sels) | None => [] end.

Fixpoint sel_within (depth : Z) (s : sel) : bool :=
  let 'Sel _ _ args dirs sub := s in
  args_within args && forallb (λ d, args_within d.(d_args)) dirs
  && match sub with
     | Some sels => (depth + 1 <=? MAX_GRAPHQL_DEPTH) && forallb (sel_within (depth + 1)) sels
     | None => true
     end.

(** The number of fields a selection selects, itself included. *)
Fixpoint sel_size (s : sel) : Z :=
  let 'Sel _ _ _ _ sub := s in
  1 + match sub with Some sels => foldr (λ s n, sel_size s + n) 0 sels | None => 0 end.
Definition sels_size (sels : list sel) : Z := foldr (λ s n, sel_size s + n) 0 sels.

Inductive definition :=
| Bare (sels : list sel)
| Operation (kind : GraphqlKind) (name : option string) (vars : option (list variable))
    (dirs : list directive) (sels : list sel).

Definition sels_of (d : definition) : list sel :=
  match d with Bare sels | Operation _ _ _ _ sels => sels end.

Definition definition_tokens (d : definition) : list token :=
  match d with
  | Bare sels => braces (flat_map sel_tokens sels)
  | Operation kind name vars dirs sels =>
      word (GraphqlKind_as_str kind) :: match name with Some n => [word n] | None => [] end
      ++ match vars with
         | Some vars => punct "(" :: flat_map variable_tokens vars ++ [punct ")"]
         | None => []
         end
      ++ flat_map directive_tokens dirs ++ braces (flat_map sel_tokens sels)
  end.

Definition definition_within (d : definition) : bool :=
  forallb (sel_within 1) (sels_of d)
  && match d with
     | Bare _ => true
     | Operation _ _ vars dirs _ =>
         forallb variable_within (default [] vars)
         && forallb (λ d, args_within d.(d_args)) dirs
     end.

(** A document within the bounds of the parser. *)
Definition document_within (ds : list definition) : bool :=
  forallb definition_within ds
  && (foldr (λ d n, sels_size (sels_of d) + n) 0 ds <=? MAX_GRAPHQL_FIELDS)
  && (Z.of_nat (length ds) <=? MAX_GRAPHQL_OPERATIONS).

(** The top-level fields of a selection, each once, in their order. *)
Definition root_fields_of (sels : list sel) : list string :=
  foldl Parser.add_root [] (sel_field <$> sels).

Definition operation_of (d : definition) : GraphqlOperation :=
  match d with
  | Bare sels =>
      {| op_kind := Query; op_name := None; op_root_fields := root_fields_of sels |}
  | Operation kind name _ _ sels =>
      {| op_kind := kind; op_name := name; op_root_fields := root_fields_of sels |}
  end.

(** The bytes of a document spell a list of definitions. *)
Definition spells (document : string) (ds : list definition) : Prop :=
  Reads (chars document) (flat_map definition_tokens ds) [].

End Grammar.
Import Grammar.

(** ** Lemmas: spelling *)
Lemma skips_trans s t r : Skips s t → Skips t r → Skips s r.
Proof.
  induction 1; [done|by constructor; auto|by constructor; auto|].
  inversion 1; by constructor.
Qed.

Lemma reads_skip s t ts r : Skips s t → Reads t ts r → Reads s ts r.
Proof.
  intros Hs. destruct 1; [constructor|econstructor; try done]; by eapply skips_trans.
Qed.

Lemma reads_app s ts t us r : Reads s ts t → Reads t us r → Reads s (ts ++ us) r.
Proof.
  induction 1 as [s r' Hs|]; simpl; intros Hr; [by eapply reads_skip|].
  econstructor; eauto.
Qed.

Lemma skips_length s r : Skips s r → (length r ≤ length s)%nat.
Proof. induction 1; simpl; rewrite ?length_app; simpl; lia. Qed.

Lemma lexeme_nonempty t : token_ok t → (0 < length (lexeme t))%nat.
Proof.
  destruct t as [n g|c g|raw|raw]; simpl; intros Ht.
  - destruct Ht as [[Hh _] _]. rewrite length_app. destruct (chars n); simpl in *; [done|lia].
  - lia.
  - destruct Ht as [Hh _]. destruct raw; simpl in *; [done|lia].
  - destruct Ht as [(s & _ & ->)|(s & _ & ->)]; simpl; lia.
Qed.

Lemma reads_length s ts r : Reads s ts r → (length r + length ts ≤ length s)%nat.
Proof.
  induction 1 as [s r Hs|s t s' ts r Hs Ht _ _ IH]; simpl.
  - apply skips_length in Hs. lia.
  - apply skips_length in Hs. apply lexeme_nonempty in Ht. rewrite length_app in Hs. lia.
Qed.

Lemma skip_spec s : Skips s (Parser.skip false s).
Proof.
  enough (Skips s (Parser.skip false s)
          ∧ ∀ pre, newline ∉ pre → Skips ("#"%char :: pre ++ s) (Parser.skip true s)) by naive_solver.
  induction s as [|b s [IH1 IH2]]; simpl.
  { split; [constructor|]. intros pre Hpre. rewrite app_nil_r. by constructor. }
  split.
  - fold (blank b). destruct (blank b) eqn:Hb; [by constructor|].
    unfold is_char. destruct (Ascii.eqb_spec b "#"%char) as [->|]; [|constructor].
    by apply (IH2 []), not_elem_of_nil.
  - intros pre Hpre. unfold is_char. destruct (Ascii.eqb_spec b newline) as [->|Hne]; simpl.
    + by constructor.
    + rewrite (cons_middle b pre s), app_assoc. apply IH2. set_solver.
Qed.

Lemma skip_false_cons b s :
  Parser.skip false (b :: s)
  = if blank b then Parser.skip false s else if is_char "#" b then Parser.skip true s else b :: s.
Proof. done. Qed.

Lemma skip_comment body s :
  newline ∉ body → Parser.skip true (body ++ newline :: s) = Parser.skip false s.
Proof.
  induction body as [|b body IH]; intros Hb; [done|]. apply not_elem_of_cons in Hb as [Hb ?]. simpl.
  unfold is_char. destruct (Ascii.eqb_spec b newline); [congruence|]. simpl. by apply IH.
Qed.

Lemma skip_comment_last body : newline ∉ body → Parser.skip true body = [].
Proof.
  induction body as [|b body IH]; intros Hb; [done|]. apply not_elem_of_cons in Hb as [Hb ?]. simpl.
  unfold is_char. destruct (Ascii.eqb_spec b newline); [congruence|]. simpl. by apply IH.
Qed.

Lemma skips_skip s r : Skips s r → Parser.skip false s = Parser.skip false r.
Proof.
  induction 1 as [|b s r Hb _ IH|body s r Hb _ IH|body Hb]; [done| | |].
  - by rewrite skip_false_cons, Hb.
  - rewrite skip_false_cons. change (blank "#") with false. simpl. by rewrite skip_comment.
  - rewrite skip_false_cons. change (blank "#") with false. simpl. by rewrite skip_comment_last.
Qed.

(** ** Lemmas: what each part of the parser accepts

    [wp m Q p]: run from [p], [m] ends in [Q] or refuses, and does not run out of fuel. *)
Section Sound.
Import Parser.

Definition wp {A} (m : M A) (Q : A → Parser → Prop) (p : Parser) : Prop :=
  match m p with Ok (a, p') => Q a p' | Err e => e ≠ OutOfFuel end.

Definition at_rest (s : list ascii) (p : Parser) : Parser :=
  {| rest := s; selected := p.(selected) |}.

Lemma wp_bind {A B} (m : M A) (f : A → M B) Q p :
  wp m (λ a, wp (f a) Q) p → wp (m ≫= f) Q p.
Proof. unfold wp, mbind, M_bind. by destruct (m p) as [[a p']|e]. Qed.

Lemma wp_mono {A} (m : M A) (Q R : A → Parser → Prop) p :
  wp m Q p → (∀ a p', Q a p' → R a p') → wp m R p.
Proof. unfold wp. destruct (m p) as [[a p']|e]; auto. Qed.

Lemma wp_ret {A} (a : A) Q p : Q a p → wp (mret a) Q p.
Proof. done. Qed.
Lemma wp_fail {A} e (Q : A → Parser → Prop) p : wp (fail e) Q p.
Proof. by unfold wp, fail. Qed.
Lemma wp_current Q p : Q (head p.(rest)) p → wp current Q p.
Proof. done. Qed.
Lemma wp_peek Q p :
  (∀ s, Skips p.(rest) s → Q (head s) (at_rest s p)) → wp peek Q p.
Proof. intros H. apply (H (skip false p.(rest))), skip_spec. Qed.
Lemma wp_advance n (Q : () → Parser → Prop) p : Q () (at_rest (drop n p.(rest)) p) → wp (advance n) Q p.
Proof. done. Qed.

Lemma one_of_token c g r :
  is_one_of "{}()[]:@$" c = true → glue_ok g → Reads (c :: g ++ r) [TPunct c g] r.
Proof.
  intros Hc Hg. apply (reads_cons _ _ r); [constructor|done|done|repeat constructor].
Qed.

Lemma glue_nil : glue_ok [].
Proof. by left. Qed.

Lemma reads_punct c r : is_one_of "{}()[]:@$" c = true → Reads (c :: r) [punct c] r.
Proof. intros Hc. by apply (one_of_token c [] r), glue_nil. Qed.

Lemma wp_eat c (Q : bool → Parser → Prop) p :
  (∀ s, Skips p.(rest) (c :: s) → Q true (at_rest s p)) →
  (∀ s, Skips p.(rest) s → head s ≠ Some c → Q false (at_rest s p)) →
  wp (eat c) Q p.
Proof.
  intros Ht Hf. apply wp_bind, wp_peek. intros s Hs. simpl.
  destruct (decide (head s = Some c)) as [Hh|Hh]; [|by apply wp_ret, Hf].
  destruct s as [|b s]; [done|]. injection Hh as ->. by apply wp_bind, wp_advance, wp_ret, Ht.
Qed.

Lemma skips_punct s c r : Skips s (c :: r) → is_one_of "{}()[]:@$" c = true → Reads s [punct c] r.
Proof. intros Hs Hc. eapply reads_skip; [done|]. by apply reads_punct. Qed.

Lemma wp_expect_byte c (Q : () → Parser → Prop) p :
  (∀ s, Skips p.(rest) (c :: s) → Q () (at_rest s p)) → wp (expect c) Q p.
Proof. intros HQ. apply wp_bind, wp_eat; [done|]. intros. apply wp_fail. Qed.

Lemma wp_expect c (Q : () → Parser → Prop) p :
  is_one_of "{}()[]:@$" c = true →
  (∀ s, Reads p.(rest) [punct c] s → Q () (at_rest s p)) → wp (expect c) Q p.
Proof. intros Hc HQ. apply wp_expect_byte. intros s Hs. by apply HQ, skips_punct. Qed.

Lemma span_app q s : s = (span q s).1 ++ (span q s).2.
Proof. induction s as [|b s IH]; [done|]. simpl. destruct (q b); simpl; [by f_equal|done]. Qed.

Lemma span_all q s : forallb q (span q s).1 = true.
Proof. induction s as [|b s IH]; [done|]. simpl. destruct (q b) eqn:Hb; simpl; [by rewrite Hb|done]. Qed.

Lemma span_stop q s : from_option q false (head (span q s).2) = false.
Proof. induction s as [|b s IH]; [done|]. simpl. destruct (q b) eqn:Hb; simpl; done. Qed.

Lemma name_start_byte b : name_start b = true → name_byte b = true.
Proof.
  unfold name_start, name_byte, is_ascii_alphanumeric. intros [->| ->]%orb_true_iff; [done|].
  by rewrite orb_true_r.
Qed.

Lemma chars_of l : chars (String.string_of_list_ascii l) = l.
Proof. apply String.list_ascii_of_string_of_list_ascii. Qed.

Lemma wp_name (Q : string → Parser → Prop) p :
  (∀ n s s', Skips p.(rest) (chars n ++ s) → s' = s → name_ok n →
     from_option name_byte false (head s) = false → Q n (at_rest s' p)) →
  wp name Q p.
Proof.
  intros HQ. apply wp_bind, wp_peek. intros s Hs. simpl.
  destruct (from_option name_start false (head s)) eqn:Hh; [|apply wp_fail].
  apply wp_bind. change (wp get_rest ?R (at_rest s p)) with (R s (at_rest s p)). cbv zeta beta.
  apply wp_bind. change (wp (set_rest ?t) ?R (at_rest s p)) with (R () (at_rest t p)). cbv beta.
  destruct (Z.ltb_spec MAX_OPERATION_NAME_BYTES (Z.of_nat (length (span name_byte s).1)));
    [apply wp_fail|].
  apply wp_ret, (HQ _ (span name_byte s).2).
  - by rewrite chars_of, <-span_app.
  - done.
  - unfold name_ok. rewrite chars_of, span_all. split_and!; [|done|].
    + destruct s as [|b s]; [done|]. simpl in *. by rewrite name_start_byte.
    + unfold slen. by rewrite <-length_chars, chars_of.
  - apply span_stop.
Qed.

Lemma reads_word s n r :
  Skips s (chars n ++ r) → name_ok n → from_option name_byte false (head r) = false →
  Reads s [word n] r.
Proof.
  intros Hs Hn Hr. apply (reads_cons _ _ r); simpl.
  - by rewrite app_nil_r.
  - split; [done|apply glue_nil].
  - done.
  - repeat constructor.
Qed.

Lemma wp_word (Q : string → Parser → Prop) p :
  (∀ n s, Reads p.(rest) [word n] s → Q n (at_rest s p)) → wp name Q p.
Proof. intros HQ. apply wp_name. intros n s s' Hs -> Hn Hr. by apply HQ, reads_word. Qed.

Lemma string_end_body s s' :
  string_end s = Some s' → ∃ body, string_body body ∧ s = body ++ quote :: s'.
Proof.
  remember (length s) as n eqn:Hn. revert s Hn. induction (lt_wf n) as [n _ IH]. intros s -> He.
  destruct s as [|b s]; [done|]. cbn [string_end] in He. unfold is_char in He.
  destruct (Ascii.eqb_spec b newline); [done|]. destruct (Ascii.eqb_spec b backslash) as [->|].
  - destruct s as [|c s]; [done|].
    destruct (IH (length s) ltac:(simpl; lia) s eq_refl He) as (body & Hb & ->).
    exists (backslash :: c :: body). by split; [constructor|].
  - destruct (Ascii.eqb_spec b quote) as [->|].
    + injection He as ->. exists []. by split; [constructor|].
    + destruct (IH (length s) ltac:(simpl; lia) s eq_refl He) as (body & Hb & ->).
      exists (b :: body). by split; [constructor|].
Qed.

Lemma take_triple (l r : list ascii) : (3 ≤ length l)%nat → take 3 (l ++ r) = take 3 l.
Proof. intros Hl. by apply take_app_le. Qed.

Lemma block_end_body s s' :
  block_end s = Some s' → ∃ body, block_body body ∧ s = body ++ triple ++ s'.
Proof.
  remember (length s) as n eqn:Hn. revert s Hn. induction (lt_wf n) as [n _ IH]. intros s -> He.
  destruct s as [|b s]; [done|]. cbn [block_end] in He. unfold is_char in He.
  destruct (Ascii.eqb_spec b backslash) as [->|].
  - destruct s as [|c s]; [done|].
    destruct (IH (length s) ltac:(simpl; lia) s eq_refl He) as (body & Hb & ->).
    exists (backslash :: c :: body). by split; [constructor|].
  - case_bool_decide as Ht.
    + injection He as <-. exists []. split; [constructor|].
      transitivity (take 3 (b :: s) ++ drop 3 (b :: s)); [by rewrite take_drop|by rewrite Ht].
    + destruct (IH (length s) ltac:(simpl; lia) s eq_refl He) as (body & Hb & ->).
      exists (b :: body). split; [|done]. constructor; [done| |done].
      rewrite app_assoc, (app_comm_cons _ _ b), take_triple in Ht; [done|].
      simpl. rewrite length_app. simpl. lia.
Qed.

Lemma wp_string_literal (Q : () → Parser → Prop) p :
  head p.(rest) = Some quote →
  (∀ raw s, Reads p.(rest) [TStr raw] s → Q () (at_rest s p)) → wp string_literal Q p.
Proof.
  intros Hh HQ. unfold string_literal. apply wp_bind.
  change (wp get_rest ?R p) with (R p.(rest) p). cbv beta zeta.
  assert (Hstr : ∀ raw s, p.(rest) = raw ++ s → string_ok raw → separated (TStr raw) (head s) →
                   wp (set_rest s) Q p).
  { intros raw s Hr Hok Hsep. change (Q () (at_rest s p)). apply (HQ raw).
    apply (reads_cons _ _ s); [rewrite Hr; constructor|done|done|repeat constructor]. }
  case_bool_decide as Ht.
  - destruct (block_end _) as [s'|] eqn:He; [|apply wp_fail].
    apply block_end_body in He as (body & Hb & He).
    apply (Hstr (triple ++ body ++ triple)).
    + rewrite <-(take_drop 3 p.(rest)), Ht, He. by rewrite <-!app_assoc.
    + right. by exists body.
    + done.
  - destruct (string_end _) as [s'|] eqn:He; [|apply wp_fail].
    apply string_end_body in He as (body & Hb & He).
    destruct (rest p) as [|b s] eqn:Hr; [done|]. injection Hh as ->.
    change (s = body ++ quote :: s') in He. subst s.
    apply (Hstr (quote :: body ++ [quote])).
    + simpl. by rewrite <-app_assoc.
    + left. by exists body.
    + simpl. intros Heq Hq. destruct body as [|c body]; [|destruct body; discriminate Heq].
      destruct s' as [|c s']; [done|]. injection Hq as ->. done.
Qed.

Lemma wp_number (Q : () → Parser → Prop) p b :
  head p.(rest) = Some b → is_ascii_digit b || is_one_of "-+" b = true →
  (∀ raw s, Reads p.(rest) [TNum raw] s → Q () (at_rest s p)) → wp number Q p.
Proof.
  intros Hh Hb HQ. change (Q () (at_rest (span number_byte p.(rest)).2 p)).
  apply (HQ (span number_byte p.(rest)).1). destruct (rest p) as [|b' s] eqn:Hr; [done|].
  injection Hh as ->. apply (reads_cons _ _ (span number_byte (b :: s)).2).
  - cbn [lexeme]. rewrite <-span_app. constructor.
  - split; [|apply span_all]. simpl. assert (number_byte b = true) as ->; [|done].
    unfold number_byte. apply orb_true_iff in Hb as [->|Hb]; [done|].
    unfold is_one_of in *. simpl in *. destruct (Ascii.eqb b "-"), (Ascii.eqb b "+"); try done.
    all: by rewrite orb_true_r.
  - apply span_stop.
  - repeat constructor.
Qed.

Lemma wp_until {A X} (toks : X → list token) (Q : A → Z → list X → Prop)
    (n : nat) close (item : A → M A) :
  is_one_of "{}()[]:@$" close = true →
  (∀ acc p xs, (length p.(rest) < n)%nat → head p.(rest) ≠ None → skip false p.(rest) = p.(rest) →
     Q acc p.(selected) xs →
     wp (item acc) (λ acc' p', ∃ x, Reads p.(rest) (toks x) p'.(rest) ∧ toks x ≠ []
                                 ∧ Q acc' p'.(selected) (xs ++ [x])) p) →
  ∀ fuel acc p xs, (length p.(rest) < fuel)%nat → (length p.(rest) < n)%nat →
  Q acc p.(selected) xs →
  wp (until fuel close item acc)
     (λ acc' p', ∃ ys, Reads p.(rest) (flat_map toks ys ++ [punct close]) p'.(rest)
                       ∧ Q acc' p'.(selected) (xs ++ ys)) p.
Proof.
  intros Hc Hitem. induction fuel as [|fuel IH]; intros acc p xs Hf Hn HQ; [lia|].
  cbn [until]. apply wp_bind. change (wp peek ?R p) with (R (head (skip false p.(rest))) (at_rest (skip false p.(rest)) p)).
  pose proof (skip_spec p.(rest)) as Hs. pose proof (skips_skip _ _ Hs) as Hss.
  set (s := skip false (rest p)) in *. cbv beta.
  destruct (head s) as [b|] eqn:Hh; [|apply wp_fail].
  pose proof (skips_length _ _ Hs).
  destruct (decide (b = close)) as [->|].
  - apply wp_bind, wp_advance, wp_ret. exists []. rewrite app_nil_r. split; [|done].
    destruct s as [|? s]; [done|]. injection Hh as ->. eapply reads_skip; [done|]. by apply reads_punct.
  - apply wp_bind. eapply wp_mono; [apply (Hitem acc (at_rest s p) xs)|]; simpl;
      [lia|by rewrite Hh|done|done|].
    intros acc' p' (x & Hx & Hne & HQ'). apply reads_length in Hx as Hlen.
    destruct (toks x) eqn:Htx; [done|]. rewrite <-Htx in Hx. simpl in Hlen.
    eapply wp_mono; [apply (IH acc' p' (xs ++ [x])); [lia|lia|done]|].
    intros acc'' p'' (ys & Hy & HQ''). exists (x :: ys). rewrite <-app_assoc in HQ''. split; [|done].
    simpl. rewrite <-app_assoc. eapply reads_app; [|done]. by eapply reads_skip.
Qed.

(** The bytes between two states spell some [x] within its bounds. *)
Definition found {X} (toks : X → list token) (ok : X → bool) (p p' : Parser) : Prop :=
  ∃ x, Reads p.(rest) (toks x) p'.(rest) ∧ ok x = true ∧ p'.(selected) = p.(selected).

Lemma wp_until_found {X} (toks : X → list token) (ok : X → bool) n close (item : () → M ()) fuel p :
  is_one_of "{}()[]:@$" close = true → (∀ x, toks x ≠ []) →
  (∀ p, (length p.(rest) < n)%nat → wp (item ()) (λ _, found toks ok p) p) →
  (length p.(rest) < fuel)%nat → (length p.(rest) < n)%nat →
  wp (until fuel close item ()) (λ _, found (λ xs, flat_map toks xs ++ [punct close]) (forallb ok) p) p.
Proof.
  intros Hc Hne Hitem Hf Hn. eapply wp_mono.
  - apply (wp_until toks (λ _ sel xs, sel = p.(selected) ∧ forallb ok xs = true) n) with (xs := []);
      [done| |done|done|done].
    intros [] p1 xs Hn1 _ _ [Hsel Hxs]. eapply wp_mono; [by apply Hitem|].
    intros [] p2 (x & Hx & Hok & Hs). exists x. rewrite forallb_app, Hxs. simpl. rewrite Hok, Hs.
    split_and!; [done|apply Hne|done|done].
  - intros [] p' (ys & Hy & Hs & Hok). by exists ys.
Qed.

Lemma val_tokens_nonempty v : val_tokens v ≠ [].
Proof. by destruct v. Qed.

Lemma wp_value fuel depth p :
  (length p.(rest) < fuel)%nat →
  wp (value fuel depth) (λ _, found val_tokens (val_within depth) p) p.
Proof.
  revert depth p. induction fuel as [|fuel IH]; intros depth p Hf; [lia|]. cbn [value].
  destruct (Z.ltb_spec MAX_GRAPHQL_DEPTH depth) as [|Hd]; [apply wp_fail|].
  apply Z.leb_le in Hd. apply wp_bind, wp_peek. intros s Hs. pose proof (skips_length _ _ Hs).
  destruct (head s) as [b|] eqn:Hh; [|apply wp_fail].
  assert (Hleaf : ∀ v t, match v with VGroup _ _ => False | _ => True end →
                    Reads s (val_tokens v) t → found val_tokens (val_within depth) p (at_rest t p)).
  { intros v t Hv Hr. exists v. split_and!; [by eapply reads_skip| |done].
    destruct v; [| done| | |]; cbn [val_within]; by rewrite Hd. }
  unfold is_char at 1. destruct (Ascii.eqb_spec b quote) as [->|].
  { apply wp_string_literal; [done|]. intros raw t Hr. by apply (Hleaf (VStr raw)). }
  destruct (is_one_of "[{" b) eqn:Hopen.
  { destruct s as [|? s]; [done|]. injection Hh as ->. simpl in *.
    apply wp_bind, wp_advance. simpl. rewrite drop_0.
    eapply wp_mono.
    - apply (wp_until_found val_tokens (val_within (depth + 1)) fuel);
        [by destruct (is_char "[" b)|apply val_tokens_nonempty|intros; by apply IH|simpl; lia..].
    - intros [] p' (vs & Hvs & Hok & Hsel). exists (VGroup (is_char "[" b) vs). simpl in *.
      rewrite Hd, Hok. split_and!; [|done|done]. eapply reads_skip; [done|].
      apply (reads_app _ [_] s); [|exact Hvs].
      assert (b = if is_char "[" b then "[" else "{")%char as Hb.
      { unfold is_one_of, is_char in *. simpl in Hopen. destruct (Ascii.eqb_spec b "["); [done|].
        simpl in Hopen. by destruct (Ascii.eqb_spec b "{"). }
      rewrite <-Hb. apply reads_punct. rewrite Hb. by destruct (is_char "[" b). }
  unfold is_char at 1. destruct (Ascii.eqb_spec b "$"%char) as [->|].
  { destruct s as [|? s]; [done|]. injection Hh as ->. apply wp_bind, wp_advance.
    apply wp_bind, wp_word. intros m t Hm. apply wp_ret, (Hleaf (VVar m)); [done|].
    apply (reads_app _ [_] s); [by apply reads_punct|exact Hm]. }
  destruct (name_start b).
  { apply wp_bind, wp_word. intros m t Hm. by apply wp_ret, (Hleaf (VName m)). }
  destruct (is_ascii_digit b || is_one_of "-+" b) eqn:Hnum; [|apply wp_fail].
  eapply wp_number; [exact Hh|done|]. intros raw t Hr. by apply (Hleaf (VNum raw)).
Qed.

Lemma wp_arguments fuel p :
  (length p.(rest) < fuel)%nat →
  wp (arguments fuel 0) (λ _, found (λ args, args_tokens (Some args)) (λ args, args_within (Some args)) p) p.
Proof.
  intros Hf. apply wp_bind, wp_expect; [done|]. intros s Hs. apply reads_length in Hs as Hl. simpl in Hl.
  eapply wp_mono.
  - apply (wp_until_found arg_tokens (λ a, val_within 0 a.2) fuel); [done|done| |simpl; lia..].
    intros p1 Hn1. apply wp_bind, wp_word. intros n t Hn. apply wp_bind, wp_expect; [done|].
    intros u Hu. apply reads_length in Hn as Hl1. apply reads_length in Hu as Hl2. simpl in *.
    eapply wp_mono; [apply wp_value; simpl; lia|]. intros [] p2 (v & Hv & Hok & Hsel).
    exists (n, v). split_and!; [|done|done].
    apply (reads_app _ [_] t); [done|]. by apply (reads_app _ [_] u).
  - intros [] p' (args & Ha & Hok & Hsel). exists args. split_and!; [|done|done].
    by apply (reads_app _ [_] s).
Qed.

(** A type ends in its last token, to which [=] may be glued. *)
Definition found_ty (depth : Z) (p p' : Parser) : Prop :=
  p'.(selected) = p.(selected) ∧
  ∃ t, ty_within depth t = true ∧
  ∀ g r, g = [] ∨ g = ["="%char] → p'.(rest) = g ++ r → Reads p.(rest) (ty_tokens t g) r.

Lemma wp_type_ref fuel depth p :
  (length p.(rest) < fuel)%nat → wp (type_ref fuel depth) (λ _, found_ty depth p) p.
Proof.
  revert depth p. induction fuel as [|fuel IH]; intros depth p Hf; [lia|]. cbn [type_ref].
  destruct (Z.ltb_spec MAX_GRAPHQL_DEPTH depth) as [|Hd]; [apply wp_fail|]. apply Z.leb_le in Hd.
  apply wp_bind, wp_peek. intros s Hs. pose proof (skips_length _ _ Hs).
  assert (Hend : ∀ t (tok : list ascii → list token) q, q.(selected) = p.(selected) →
    (∀ b g, ty_tokens (t b) g = tok (bang_byte b ++ g)) → (∀ b, ty_within depth (t b) = true) →
    (∀ g r, glue_ok g → q.(rest) = g ++ r → Reads p.(rest) (tok g) r) →
    wp (b ← current; if decide (b = Some "!"%char) then advance 1 else mret ())
       (λ _, found_ty depth p) q).
  { intros t tok q Hsel Htok Hin Hq. apply wp_bind, wp_current.
    destruct (decide (head (rest q) = Some "!"%char)) as [Hh|Hh].
    - destruct (rest q) as [|c u] eqn:Hr; [done|]. injection Hh as ->. apply wp_advance.
      split; [done|]. exists (t true). split; [done|]. intros g r Hg Hu. rewrite Htok. simpl.
      change (drop 1 (rest q) = g ++ r) in Hu. rewrite Hr in Hu. change (u = g ++ r) in Hu.
      apply Hq; [|simpl; by f_equal].
      unfold glue_ok. destruct Hg as [->| ->]; simpl; set_solver.
    - apply wp_ret. split; [done|]. exists (t false). split; [done|]. intros g r Hg Hu. rewrite Htok.
      apply Hq; [|done]. unfold glue_ok. destruct Hg as [->| ->]; simpl; set_solver. }
  apply wp_bind. destruct (decide (head s = Some "["%char)) as [Hh|Hh].
  - destruct s as [|c s]; [done|]. injection Hh as ->. simpl in *. apply wp_bind, wp_advance.
    apply wp_bind. eapply wp_mono; [apply IH; simpl; rewrite drop_0; lia|].
    intros [] q (Hsel & t & Hin & Ht). apply wp_expect_byte. intros u Hu.
    apply (Hend (TyList t) (λ g, punct "[" :: ty_tokens t [] ++ [TPunct "]" g])); [done|done| |].
    + intros b. cbn [ty_within]. by rewrite Hd, Hin.
    + intros g r Hg Hr. simpl in Hr. subst u. eapply reads_skip; [done|].
      apply (reads_app _ [_] s); [by apply reads_punct|].
      eapply reads_app; [apply (Ht [] q.(rest)); auto|].
      by apply (reads_cons _ _ r); [|split| |repeat constructor].
  - apply wp_bind, wp_name. intros n u ? Hu -> Hn Hsep. apply wp_ret.
    apply (Hend (TyName n) (λ g, [TName n g])); [done|done| |].
    + intros b. cbn [ty_within]. by rewrite Hd.
    + intros g r Hg Hr. simpl in Hr. subst u. apply (reads_cons _ _ r); [|done| |repeat constructor].
      * cbn [lexeme]. rewrite <-app_assoc. by eapply skips_trans.
      * by destruct g.
Qed.

Lemma wp_variable_definitions fuel p :
  (length p.(rest) < fuel)%nat →
  wp (variable_definitions fuel 0)
     (λ _, found (λ vars, punct "(" :: flat_map variable_tokens vars ++ [punct ")"])
             (forallb variable_within) p) p.
Proof.
  intros Hf. apply wp_bind, wp_expect; [done|]. intros s Hs. apply reads_length in Hs as Hl. simpl in Hl.
  eapply wp_mono; [apply (wp_until_found variable_tokens variable_within fuel); [done|done| |simpl; lia..]|].
  2: { intros [] p' (vars & Ha & Hok & Hsel). exists vars. split_and!; [|done|done].
       by apply (reads_app _ [_] s). }
  intros q Hq. apply wp_bind, wp_current.
  destruct (decide (head (rest q) = Some "$"%char)) as [Hh|]; [|apply wp_fail].
  destruct (rest q) as [|c t] eqn:Hr; [done|]. injection Hh as ->. apply wp_bind, wp_advance.
  rewrite Hr. change (drop 1 ("$"%char :: t)) with t. simpl in Hq.
  apply wp_bind, wp_word. intros n u Hn. apply wp_bind, wp_expect; [done|]. intros w Hw.
  apply reads_length in Hn as Hl1. apply reads_length in Hw as Hl2. simpl in *.
  assert (Hpre : ∀ ts r, Reads w ts r → Reads (rest q) (punct "$" :: word n :: punct ":" :: ts) r).
  { intros ts r Hts. rewrite Hr. apply (reads_app _ [_] t); [by apply reads_punct|].
    apply (reads_app _ [_] u); [done|]. by apply (reads_app _ [_] w). }
  apply wp_bind. eapply wp_mono; [apply wp_type_ref; simpl; lia|].
  intros [] q1 (Hsel & ty & Hin & Hty). simpl in Hsel. apply wp_bind, wp_current.
  destruct (decide (head (rest q1) = Some "="%char)) as [Hh|].
  - destruct (rest q1) as [|c v] eqn:Hr1; [done|]. injection Hh as ->.
    specialize (Hty ["="%char] v (or_intror eq_refl) eq_refl). simpl in Hty.
    apply reads_length in Hty as Hl3. apply wp_bind, wp_advance. rewrite Hr1.
    change (drop 1 ("="%char :: v)) with v.
    eapply wp_mono; [apply wp_value; simpl; lia|]. intros [] q2 (x & Hx & Hok & Hs2). simpl in *.
    exists {| v_name := n; v_type := ty; v_default := Some x |}. split_and!; [|unfold variable_within; simpl; by rewrite Hin|by rewrite Hs2, Hsel].
    apply Hpre. by eapply reads_app.
  - apply wp_ret. exists {| v_name := n; v_type := ty; v_default := None |}.
    split_and!; [|unfold variable_within; simpl; by rewrite Hin|done].
    apply Hpre. simpl. rewrite app_nil_r. apply Hty; auto.
Qed.

Lemma found_shrinks {X} (toks : X → list token) ok p p' :
  found toks ok p p' → (length p'.(rest) ≤ length p.(rest))%nat.
Proof. intros (x & Hx & _). apply reads_length in Hx. lia. Qed.

Lemma wp_optional_arguments {A} fuel (k : M A) Q p :
  (length p.(rest) < fuel)%nat →
  (∀ p', found args_tokens args_within p p' → wp k Q p') →
  wp (b ← peek; (if decide (b = Some "("%char) then arguments fuel 0 else mret ()) ;; k) Q p.
Proof.
  intros Hf HQ. apply wp_bind, wp_peek. intros s Hs. pose proof (skips_length _ _ Hs).
  apply wp_bind. destruct (decide (head s = Some "("%char)).
  - eapply wp_mono; [apply wp_arguments; simpl; lia|].
    intros [] p' (args & Ha & Hok & Hsel). apply HQ. exists (Some args). split_and!; [|done|done].
    by eapply reads_skip.
  - apply wp_ret, HQ. exists None. by split_and!; [constructor| |].
Qed.

Lemma wp_directives fuel p :
  (length p.(rest) < fuel)%nat →
  wp (directives fuel)
     (λ _, found (flat_map directive_tokens) (forallb (λ d, args_within d.(d_args))) p) p.
Proof.
  revert p. induction fuel as [|fuel IH]; intros p Hf; [lia|]. cbn [directives].
  apply wp_bind, wp_peek. intros s Hs. pose proof (skips_length _ _ Hs).
  destruct (decide (head s = Some "@"%char)) as [Hh|].
  2: { apply wp_ret. exists []. by split_and!; [constructor| |]. }
  destruct s as [|c s]; [done|]. injection Hh as ->. simpl in *. apply wp_bind, wp_advance.
  change (drop 1 (rest _)) with s. apply wp_bind, wp_word. intros n t Hn.
  apply reads_length in Hn as Hl. simpl in *.
  apply wp_optional_arguments; [simpl; lia|]. intros q Hq. pose proof (found_shrinks _ _ _ _ Hq) as Hl2.
  destruct Hq as (args & Ha & Hok & Hsel). simpl in *.
  eapply wp_mono; [apply IH; lia|]. intros [] q2 (ds & Hds & Hok2 & Hsel2).
  exists ({| d_name := n; d_args := args |} :: ds). simpl. rewrite Hok, Hok2, Hsel2, Hsel.
  split_and!; [|done|done]. eapply reads_skip; [done|]. apply (reads_app _ [_] s); [by apply reads_punct|].
  apply (reads_app _ [_] t); [done|]. by eapply reads_app.
Qed.

Lemma foldr_app_sum {X} (f : X → Z) xs ys :
  foldr (λ x n, f x + n) 0 (xs ++ ys) = foldr (λ x n, f x + n) 0 xs + foldr (λ x n, f x + n) 0 ys.
Proof. induction xs as [|x xs IH]; simpl; [lia|]. rewrite IH. lia. Qed.

(** Between the states stand selections; their fields were counted and, at the top of
    an operation, collected. *)
Definition found_sels (depth : Z) (s0 : Z) (roots : list string) (sel' : Z) (xs : list sel) : Prop :=
  sel' = s0 + sels_size xs ∧ sel' ≤ MAX_GRAPHQL_FIELDS
  ∧ forallb (sel_within depth) xs = true ∧ (depth = 1 → roots = root_fields_of xs).

Lemma found_sels_snoc depth s0 roots field sel' xs x sel'' :
  found_sels depth s0 roots sel' xs → sel'' = sel' + sel_size x → sel'' ≤ MAX_GRAPHQL_FIELDS →
  sel_within depth x = true → sel_field x = field →
  found_sels depth s0 (if decide (depth = 1) then add_root roots field else roots) sel'' (xs ++ [x]).
Proof.
  intros (-> & _ & Hall & Hroots) -> Hmax Hx <-. unfold found_sels, sels_size, root_fields_of in *.
  rewrite foldr_app_sum, forallb_app, fmap_app, foldl_app, Hall. simpl. rewrite Hx.
  split_and!; [lia|done|done|]. intros ->. rewrite decide_True by done. by rewrite Hroots.
Qed.

Lemma wp_count_field (Q : () → Parser → Prop) p :
  (p.(selected) + 1 ≤ MAX_GRAPHQL_FIELDS →
   Q () {| rest := p.(rest); selected := p.(selected) + 1 |}) → wp count_field Q p.
Proof.
  intros HQ. unfold wp, count_field. destruct (Z.ltb_spec MAX_GRAPHQL_FIELDS (selected p + 1)); auto.
Qed.

Lemma wp_field_name {A} (k : string → M A) R p :
  (∀ alias field p',
     Reads p.(rest) (match alias with Some a => [word a; punct ":"] | None => [] end ++ [word field]) p'.(rest) →
     p'.(selected) = p.(selected) + 1 → p'.(selected) ≤ MAX_GRAPHQL_FIELDS → wp (k field) R p') →
  wp (first ← name; count_field ;; aliased ← eat ":";
      field ← (if (aliased : bool) then name else mret first); k field) R p.
Proof.
  intros HQ. apply wp_bind, wp_word. intros n s Hn. apply wp_bind, wp_count_field. simpl. intros Hmax.
  apply wp_bind, wp_eat; simpl.
  - intros t Ht. apply wp_bind, wp_word. intros m u Hm. apply (HQ (Some n)); [|done|done].
    apply (reads_app _ [_] s); [done|]. apply (reads_app _ [_] t); [|done]. by apply skips_punct.
  - intros t Ht _. apply wp_bind, wp_ret. apply (HQ None); [|done|done]. simpl.
    rewrite <-(app_nil_r [word n]). apply (reads_app _ _ s); [done|by constructor].
Qed.

Lemma wp_selection nested fuel depth s0 roots xs p :
  (length p.(rest) < fuel)%nat → found_sels depth s0 roots p.(selected) xs →
  (∀ q, (length q.(rest) < length p.(rest))%nat → q.(selected) ≤ MAX_GRAPHQL_FIELDS →
     wp nested (λ _ q', ∃ sels,
       Reads q.(rest) (braces (flat_map sel_tokens sels)) q'.(rest)
       ∧ (depth + 1 <=? MAX_GRAPHQL_DEPTH) && forallb (sel_within (depth + 1)) sels = true
       ∧ q'.(selected) = q.(selected) + sels_size sels ∧ q'.(selected) ≤ MAX_GRAPHQL_FIELDS) q) →
  wp (selection nested fuel depth roots) (λ roots' p', ∃ x,
       Reads p.(rest) (sel_tokens x) p'.(rest) ∧ sel_tokens x ≠ []
       ∧ found_sels depth s0 roots' p'.(selected) (xs ++ [x])) p.
Proof.
  intros Hf Hfound Hnested. apply wp_bind, wp_current.
  destruct (decide (head (rest p) = Some "."%char)); [apply wp_fail|].
  apply wp_field_name. intros alias field q1 Hname Hsel1 Hmax1.
  apply reads_length in Hname as Hl1. rewrite length_app in Hl1. simpl in Hl1.
  apply wp_optional_arguments; [lia|]. intros q2 Ha. pose proof (found_shrinks _ _ _ _ Ha) as Hl2.
  destruct Ha as (args & Hargs & Hok2 & Hsel2). apply wp_bind.
  eapply wp_mono; [apply wp_directives; lia|]. intros [] q3 Hdirs.
  pose proof (found_shrinks _ _ _ _ Hdirs) as Hl3. destruct Hdirs as (ds & Hds & Hok3 & Hsel3).
  apply wp_bind, wp_peek. intros t Ht. apply skips_length in Ht as Hl4. apply wp_bind.
  assert (Hdone : ∀ sub q4,
    Reads t (match sub with Some sels => braces (flat_map sel_tokens sels) | None => [] end) q4.(rest) →
    q4.(selected) = p.(selected) + sel_size (Sel alias field args ds sub) →
    q4.(selected) ≤ MAX_GRAPHQL_FIELDS → sel_within depth (Sel alias field args ds sub) = true →
    ∃ x, Reads (rest p) (sel_tokens x) (rest q4) ∧ sel_tokens x ≠ []
         ∧ found_sels depth s0 (if decide (depth = 1) then add_root roots field else roots)
             (selected q4) (xs ++ [x])).
  { intros sub q4 Hsub Hsel4 Hmax4 Hin. exists (Sel alias field args ds sub). split_and!.
    - cbn [sel_tokens]. rewrite (cons_middle (word field)), app_assoc.
      eapply reads_app; [done|]. eapply reads_app; [done|]. eapply reads_app; [done|]. by eapply reads_skip.
    - simpl. by destruct alias.
    - by eapply found_sels_snoc. }
  destruct (decide (head t = Some "{"%char)).
  - eapply wp_mono; [apply Hnested; simpl; lia|].
    intros [] q4 (sels & Hsels & Hin & Hs4 & Hm4). apply wp_ret, (Hdone (Some sels)); [done| |done|].
    + rewrite Hs4. simpl. fold (sels_size sels). lia.
    + simpl. by rewrite Hok2, Hok3.
  - apply wp_ret, (Hdone None); [repeat constructor|simpl; lia|simpl; lia|simpl; by rewrite Hok2, Hok3].
Qed.

Lemma wp_selection_set fuel depth p :
  (length p.(rest) < fuel)%nat → p.(selected) ≤ MAX_GRAPHQL_FIELDS →
  wp (selection_set fuel depth) (λ roots p', ∃ sels,
       Reads p.(rest) (braces (flat_map sel_tokens sels)) p'.(rest)
       ∧ (depth <=? MAX_GRAPHQL_DEPTH) = true
       ∧ found_sels depth p.(selected) roots p'.(selected) sels) p.
Proof.
  revert depth p. induction fuel as [|fuel IH]; intros depth p Hf Hmax; [lia|]. cbn [selection_set].
  destruct (Z.ltb_spec MAX_GRAPHQL_DEPTH depth) as [|Hd]; [apply wp_fail|]. apply Z.leb_le in Hd.
  apply wp_bind, wp_expect; [done|]. intros s Hs. apply reads_length in Hs as Hl. simpl in Hl.
  eapply wp_mono;
    [apply (wp_until sel_tokens (found_sels depth p.(selected)) fuel) with (xs := []);
       [done| |simpl; lia|simpl; lia|]|].
  - intros roots q xs Hq _ _ Hfound. apply wp_selection; [done|done|]. intros q1 Hl1 Hm1.
    apply wp_bind. eapply wp_mono; [apply IH; [lia|done]|].
    intros roots' q2 (sels & Hsels & Hd' & Hs2 & Hm2 & Hall & _). apply wp_ret. exists sels.
    by rewrite Hd', Hall.
  - unfold found_sels, sels_size. simpl. split_and!; [lia|lia|done|done].
  - intros roots p' (sels & Hr & Hfound). exists sels. split_and!; [|done|done].
    by apply (reads_app _ [_] s).
Qed.

Lemma wp_keyword w (Q : bool → Parser → Prop) p :
  name_ok w →
  (∀ s, Reads p.(rest) [word w] s → s = drop (String.length w) (skip false p.(rest)) →
     Q true (at_rest (skip false p.(rest)) p)) →
  Q false (at_rest (skip false p.(rest)) p) →
  wp (keyword w) Q p.
Proof.
  intros Hw Ht Hf. unfold wp, keyword, mbind, M_bind. simpl.
  change (Q (bool_decide (take (String.length w) (skip false p.(rest)) = chars w)
             && negb (from_option name_byte false (head (drop (String.length w) (skip false p.(rest))))))
            (at_rest (skip false p.(rest)) p)).
  case_bool_decide as Htake; simpl; [|done].
  destruct (from_option _ _ _) eqn:Hsep; simpl; [done|]. eapply Ht; [|done].
  apply reads_word; [|done|done]. rewrite <-Htake, take_drop. apply skip_spec.
Qed.

(** What an operation or a bare selection adds to the document. *)
Definition found_definition (p : Parser) (d : Grammar.definition) (op : GraphqlOperation) (p' : Parser) : Prop :=
  definition_within d = true ∧ op = operation_of d
  ∧ p'.(selected) = p.(selected) + sels_size (sels_of d) ∧ p'.(selected) ≤ MAX_GRAPHQL_FIELDS.

Lemma wp_operation fuel kind p :
  (length p.(rest) < fuel)%nat → p.(selected) ≤ MAX_GRAPHQL_FIELDS →
  wp (operation fuel kind) (λ op p', ∃ name vars dirs sels,
       let d := Operation kind name vars dirs sels in
       Reads p.(rest) (List.tl (definition_tokens d)) p'.(rest) ∧ found_definition p d op p') p.
Proof.
  intros Hf Hmax. apply wp_bind, wp_peek. intros s Hs. apply skips_length in Hs as Hl. apply wp_bind.
  assert (Hrest : ∀ oname t, Reads s (match oname with Some n => [word n] | None => [] end) t →
    wp (b ← peek;
        (if decide (b = Some "("%char) then variable_definitions fuel 0 else mret ()) ;;
        directives fuel ;;
        root_fields ← selection_set fuel 1;
        mret {| op_kind := kind; op_name := oname; op_root_fields := root_fields |})
       (λ op p', ∃ name vars dirs sels,
          let d := Operation kind name vars dirs sels in
          Reads p.(rest) (List.tl (definition_tokens d)) p'.(rest) ∧ found_definition p d op p')
       (at_rest t p)).
  { intros oname t Ht. apply reads_length in Ht as Hl1. apply wp_bind, wp_peek. intros u Hu.
    apply skips_length in Hu as Hl2. simpl in Hl2. apply wp_bind.
    assert (Hvars : ∀ vars q, q.(selected) = p.(selected) →
      Reads u (match vars with Some vars => punct "(" :: flat_map variable_tokens vars ++ [punct ")"] | None => [] end) q.(rest) →
      forallb variable_within (default [] vars) = true →
      wp (directives fuel ;; root_fields ← selection_set fuel 1;
          mret {| op_kind := kind; op_name := oname; op_root_fields := root_fields |})
         (λ op p', ∃ name vars dirs sels,
            let d := Operation kind name vars dirs sels in
            Reads p.(rest) (List.tl (definition_tokens d)) p'.(rest) ∧ found_definition p d op p') q).
    { intros vars q Hsel Hq Hok. apply reads_length in Hq as Hl3. apply wp_bind.
      eapply wp_mono; [apply wp_directives; lia|]. intros [] q1 Hdirs.
      pose proof (found_shrinks _ _ _ _ Hdirs). destruct Hdirs as (ds & Hds & Hok1 & Hsel1).
      apply wp_bind. eapply wp_mono; [apply wp_selection_set; lia|].
      intros roots q2 (sels & Hsels & _ & Hsel2 & Hm & Hall & Hroots). apply wp_ret.
      exists oname, vars, ds, sels. simpl. split.
      - eapply reads_skip; [done|]. eapply reads_app; [done|]. eapply reads_skip; [exact Hu|].
        eapply reads_app; [done|]. by eapply reads_app.
      - unfold found_definition, definition_within. simpl. rewrite Hall, Hok, Hok1, (Hroots eq_refl).
        split_and!; [done|done|lia|done]. }
    destruct (decide (head u = Some "("%char)).
    - eapply wp_mono; [apply wp_variable_definitions; simpl; lia|].
      intros [] q (vars & Hq & Hok & Hsel). by apply (Hvars (Some vars)).
    - apply wp_ret, (Hvars None); [done|repeat constructor|done]. }
  destruct (decide _).
  - apply wp_ret, Hrest. repeat constructor.
  - apply wp_bind, wp_word. intros m t Hm. by apply wp_ret, (Hrest (Some m)).
Qed.

Lemma wp_definition fuel byte p :
  (length p.(rest) < fuel)%nat → p.(selected) ≤ MAX_GRAPHQL_FIELDS →
  wp (Parser.definition fuel byte) (λ op p', ∃ d,
       Reads p.(rest) (definition_tokens d) p'.(rest) ∧ found_definition p d op p') p.
Proof.
  intros Hf Hmax. unfold Parser.definition. destruct (decide _).
  { apply wp_bind. eapply wp_mono; [by apply wp_selection_set|].
    intros roots q (sels & Hsels & _ & Hsel & Hm & Hall & Hroots). apply wp_ret.
    exists (Bare sels). split; [done|]. unfold found_definition, definition_within. simpl.
    by rewrite Hall, (Hroots eq_refl). }
  assert (Hop : ∀ kind s, Reads p.(rest) [word (GraphqlKind_as_str kind)] s →
    wp (operation fuel kind) (λ op p', ∃ d,
       Reads p.(rest) (definition_tokens d) p'.(rest) ∧ found_definition p d op p') (at_rest s p)).
  { intros kind s Hs. apply reads_length in Hs as Hl. eapply wp_mono; [apply wp_operation; simpl; lia|].
    intros op q (nm & vars & ds & sels & Hr & Hd). exists (Operation kind nm vars ds sels).
    split; [|done]. by apply (reads_app _ [_] s). }
  assert (Hidem : ∀ s, skip false (skip false s) = skip false s).
  { intros s. symmetry. apply skips_skip, skip_spec. }
  apply wp_bind, wp_keyword; [done|intros; apply wp_fail|].
  apply wp_bind, wp_keyword; [done| |].
  { intros s Hs ->. apply wp_bind, wp_advance. simpl in *. rewrite !Hidem in *.
    apply (Hop Query). eapply reads_skip; [apply skip_spec|done]. }
  apply wp_bind, wp_keyword; [done| |].
  { intros s Hs ->. apply wp_bind, wp_advance. simpl in *. rewrite !Hidem in *.
    apply (Hop Mutation). eapply reads_skip; [apply skip_spec|done]. }
  apply wp_bind, wp_keyword; [done| |apply wp_fail].
  intros s Hs ->. apply wp_bind, wp_advance. simpl in *. rewrite !Hidem in *.
  apply (Hop Subscription). eapply reads_skip; [apply skip_spec|done].
Qed.

Definition document_size (ds : list Grammar.definition) : Z :=
  foldr (λ d n, sels_size (sels_of d) + n) 0 ds.

Lemma wp_document fuel ops p :
  (length p.(rest) < fuel)%nat → p.(selected) ≤ MAX_GRAPHQL_FIELDS →
  Z.of_nat (length ops) ≤ MAX_GRAPHQL_OPERATIONS →
  wp (document fuel ops) (λ ops' p', ∃ ds,
       Reads p.(rest) (flat_map definition_tokens ds) [] ∧ forallb definition_within ds = true
       ∧ ops' = ops ++ (operation_of <$> ds)
       ∧ p.(selected) + document_size ds ≤ MAX_GRAPHQL_FIELDS
       ∧ Z.of_nat (length ops') ≤ MAX_GRAPHQL_OPERATIONS) p.
Proof.
  revert ops p. induction fuel as [|fuel IH]; intros ops p Hf Hmax Hops; [lia|]. cbn [document].
  apply wp_bind, wp_peek. intros s Hs. apply skips_length in Hs as Hl.
  destruct (head s) as [byte|] eqn:Hh.
  2: { destruct s; [|done]. apply wp_ret. exists []. simpl. rewrite app_nil_r.
       split_and!; [by constructor|done|done|lia|done]. }
  apply wp_bind. eapply wp_mono; [apply wp_definition; simpl; [lia|done]|].
  intros op q (d & Hd & Hin & -> & Hsel & Hm). simpl in *. apply reads_length in Hd as Hl1.
  assert (0 < length (definition_tokens d))%nat by (destruct d; simpl; lia).
  destruct (Z.ltb_spec MAX_GRAPHQL_OPERATIONS (Z.of_nat (length (ops ++ [operation_of d]))));
    [apply wp_fail|].
  eapply wp_mono; [apply IH; [lia|lia|done]|].
  intros ops' q' (ds & Hds & Hall & -> & Hsum & Hlen). exists (d :: ds). simpl.
  rewrite Hin, <-app_assoc. fold (document_size ds). split_and!; [|done|done|lia|by rewrite <-app_assoc in Hlen].
  eapply reads_skip; [done|]. by eapply reads_app.
Qed.

End Sound.

(** ** Lemmas: the parser accepts every spelling within its bounds

    [wpt m Q p]: run from [p], [m] ends in [Q]. *)
Section Complete.
Import Parser.

Definition wpt {A} (m : M A) (Q : A → Parser → Prop) (p : Parser) : Prop :=
  match m p with Ok (a, p') => Q a p' | Err _ => False end.

Lemma wpt_bind {A B} (m : M A) (f : A → M B) Q p :
  wpt m (λ a, wpt (f a) Q) p → wpt (m ≫= f) Q p.
Proof. unfold wpt, mbind, M_bind. by destruct (m p) as [[a p']|e]. Qed.
Lemma wpt_ret {A} (a : A) Q p : Q a p → wpt (mret a) Q p.
Proof. done. Qed.
Lemma wpt_current Q p : Q (head p.(rest)) p → wpt current Q p.
Proof. done. Qed.
Lemma wpt_advance n (Q : () → Parser → Prop) p : Q () (at_rest (drop n p.(rest)) p) → wpt (advance n) Q p.
Proof. done. Qed.

(** The byte the next token starts with. *)
Definition first (k : list token) : option ascii :=
  match k with t :: _ => head (lexeme t) | [] => None end.

(** The bytes a token can start with. *)
Definition starts (b : ascii) : bool :=
  name_start b || is_one_of "{}()[]:@$-+" b || is_ascii_digit b || is_char quote b.

Lemma starts_not_trivia b :
  starts b = true → blank b = false ∧ is_char "#" b = false ∧ is_one_of "!=." b = false.
Proof. destruct b as [[] [] [] [] [] [] [] []]; by vm_compute. Qed.

Lemma token_starts t : token_ok t → ∃ b l, lexeme t = b :: l ∧ starts b = true.
Proof.
  unfold starts. destruct t as [n g|c g|raw|raw]; simpl.
  - intros [[Hh _] _]. destruct (chars n) as [|b l]; [done|]. exists b, (l ++ g). split; [done|].
    simpl in Hh. by rewrite Hh.
  - intros [Hc _]. exists c, g. split; [done|]. unfold is_one_of in *. simpl in *.
    repeat (apply orb_true_iff in Hc as [Hc|Hc]; [rewrite Hc, ?orb_true_r; done|]). done.
  - intros [Hh _]. destruct raw as [|b l]; [done|]. exists b, l. split; [done|]. simpl in Hh.
    unfold is_one_of in *. simpl in *.
    apply orb_true_iff in Hh as [Hh|Hh]; [rewrite Hh, ?orb_true_r; done|].
    repeat (apply orb_true_iff in Hh as [Hh|Hh]; [rewrite Hh, ?orb_true_r; done|]). done.
  - intros Hs. exists quote. destruct Hs as [(s & _ & ->)|(s & _ & ->)]; by eexists.
Qed.

Lemma skip_token t s : token_ok t → skip false (lexeme t ++ s) = lexeme t ++ s.
Proof.
  intros (b & l & -> & Hb)%token_starts. apply starts_not_trivia in Hb as (Hb & Hc & _).
  simpl app. by rewrite skip_false_cons, Hb, Hc.
Qed.

Lemma reads_inv s t k r :
  Reads s (t :: k) r →
  ∃ s', skip false s = lexeme t ++ s' ∧ token_ok t ∧ separated t (head s') ∧ Reads s' k r
        ∧ (length s' < length s)%nat.
Proof.
  inversion 1 as [|? ? s' ? ? Hs Ht Hsep Hr]; subst. exists s'.
  rewrite (skips_skip _ _ Hs), skip_token by done. split_and!; try done.
  apply skips_length in Hs. apply lexeme_nonempty in Ht. rewrite length_app in Hs. lia.
Qed.

Lemma reads_skipped s k : Reads s k [] → Reads (skip false s) k [].
Proof.
  inversion 1 as [? ? Hs|? t s' ? ? Hs Ht Hsep Hr]; subst.
  - rewrite (skips_skip _ _ Hs). repeat constructor.
  - rewrite (skips_skip _ _ Hs), skip_token by done. econstructor; [constructor|done..].
Qed.

Lemma head_first s k : Reads s k [] → head (skip false s) = first k.
Proof.
  inversion 1 as [? ? Hs|? t s' ? ? Hs Ht Hsep Hr]; subst; rewrite (skips_skip _ _ Hs); [done|].
  rewrite skip_token by done. apply token_starts in Ht as (b & l & Hb & _). simpl. by rewrite Hb.
Qed.

Lemma reads_tokens s ts r : Reads s ts r → Forall token_ok ts.
Proof. induction 1; by constructor. Qed.

(** No token starts with a glued byte. *)
Lemma head_not_glued s k b : Reads s k [] → is_one_of "!=" b = true → head s ≠ Some b.
Proof.
  intros Hr Hb Hh. destruct s as [|c s]; [done|]. injection Hh as ->.
  assert (Hblank : blank b = false ∧ is_char "#" b = false).
  { revert Hb. clear. destruct b as [[] [] [] [] [] [] [] []]; by vm_compute. }
  apply head_first in Hr as Hf. destruct Hblank as [Hb1 Hb2]. rewrite skip_false_cons, Hb1, Hb2 in Hf.
  destruct k as [|t k]; [done|]. apply reads_tokens in Hr. inversion Hr as [|? ? Ht _]; subst.
  apply token_starts in Ht as (c & l & Hl & Hc). simpl in Hf. rewrite Hl in Hf. injection Hf as ->.
  revert Hb Hc. clear. destruct c as [[] [] [] [] [] [] [] []]; by vm_compute.
Qed.

Lemma wpt_peek k (Q : option ascii → Parser → Prop) p :
  Reads p.(rest) k [] →
  (∀ s, Reads s k [] → head s = first k → (length s ≤ length p.(rest))%nat → skip false s = s →
     Q (first k) (at_rest s p)) →
  wpt peek Q p.
Proof.
  intros Hr HQ. change (Q (head (skip false p.(rest))) (at_rest (skip false p.(rest)) p)).
  rewrite (head_first _ _ Hr). apply HQ; [by apply reads_skipped|by apply head_first| |].
  - apply skips_length, skip_spec.
  - symmetry. apply skips_skip, skip_spec.
Qed.

Lemma wpt_eat_yes c g k (Q : bool → Parser → Prop) p :
  Reads p.(rest) (TPunct c g :: k) [] →
  (∀ s, Reads s k [] → (length (g ++ s) < length p.(rest))%nat → Q true (at_rest (g ++ s) p)) →
  wpt (eat c) Q p.
Proof.
  intros Hr HQ. apply reads_inv in Hr as (s' & Hs & _ & _ & Hr & _).
  pose proof (skips_length _ _ (skip_spec (rest p))) as Hl. rewrite Hs in Hl. simpl in Hl.
  unfold wpt, eat, peek, mbind, M_bind. simpl. rewrite Hs. simpl. rewrite decide_True by done.
  apply HQ; [done|lia].
Qed.

Lemma wpt_eat_no c k (Q : bool → Parser → Prop) p :
  Reads p.(rest) k [] → first k ≠ Some c →
  (∀ s, Reads s k [] → (length s ≤ length p.(rest))%nat → Q false (at_rest s p)) → wpt (eat c) Q p.
Proof.
  intros Hr Hne HQ. apply wpt_bind, (wpt_peek k); [done|]. intros s Hs Hh Hl _.
  rewrite decide_False by done. by apply wpt_ret, HQ.
Qed.

Lemma wpt_expect_glued c g k (Q : () → Parser → Prop) p :
  Reads p.(rest) (TPunct c g :: k) [] →
  (∀ s, Reads s k [] → (length (g ++ s) < length p.(rest))%nat → Q () (at_rest (g ++ s) p)) →
  wpt (expect c) Q p.
Proof. intros Hr HQ. apply wpt_bind. eapply wpt_eat_yes; [exact Hr|]. intros. by apply wpt_ret, HQ. Qed.

Lemma wpt_expect c k (Q : () → Parser → Prop) p :
  Reads p.(rest) (punct c :: k) [] →
  (∀ s, Reads s k [] → (length s < length p.(rest))%nat → Q () (at_rest s p)) → wpt (expect c) Q p.
Proof. intros Hr HQ. by eapply wpt_expect_glued. Qed.

Lemma span_exact q l s :
  forallb q l = true → from_option q false (head s) = false → span q (l ++ s) = (l, s).
Proof.
  induction l as [|b l IH]; simpl.
  - intros _. destruct s as [|b s]; [done|]. simpl. by intros ->.
  - intros [Hb Hl]%andb_true_iff Hs. by rewrite Hb, IH.
Qed.

Lemma name_span n g s :
  name_ok n → (g = [] → from_option name_byte false (head s) = false) →
  from_option name_byte false (head g) = false →
  span name_byte (chars n ++ g ++ s) = (chars n, g ++ s).
Proof.
  intros (_ & Hall & _) Hs Hg. apply span_exact; [done|]. destruct g as [|b g]; [|done]. by apply Hs.
Qed.

(** A name with what is glued to it. *)
Lemma wpt_glued_name n g k (Q : string → Parser → Prop) p :
  Reads p.(rest) (TName n g :: k) [] →
  (∀ s, Reads s k [] → (length (g ++ s) < length p.(rest))%nat → Q n (at_rest (g ++ s) p)) → wpt name Q p.
Proof.
  intros Hr HQ. apply reads_inv in Hr as (s & Hs & [Hn Hg] & Hsep & Hr & Hl). cbn [lexeme] in Hs.
  rewrite <-app_assoc in Hs. pose proof (skips_length _ _ (skip_spec (rest p))) as Hlen.
  rewrite Hs, length_app in Hlen. destruct Hn as (Hh & Hall & Hlen2) eqn:Hn'. clear Hn'.
  assert (Hhd : from_option name_start false (head (chars n ++ g ++ s)) = true).
  { destruct (chars n); [done|]. exact Hh. }
  unfold wpt, name, peek, mbind, M_bind. simpl. rewrite Hs, Hhd. simpl.
  rewrite name_span; [|done| |].
  2: { intros ->. exact Hsep. }
  2: { revert Hg. clear. unfold glue_ok. rewrite !elem_of_cons, elem_of_nil. by intros [->|[->|[->|[->|[]]]]]. }
  simpl. unfold slen in Hlen2. rewrite <-length_chars in Hlen2.
  destruct (Z.ltb_spec MAX_OPERATION_NAME_BYTES (Z.of_nat (length (chars n)))); [lia|]. simpl.
  unfold chars at 1. rewrite String.string_of_list_ascii_of_string. apply HQ; [done|].
  destruct (chars n); [done|]. simpl in Hlen. lia.
Qed.

Lemma wpt_name n k (Q : string → Parser → Prop) p :
  Reads p.(rest) (word n :: k) [] →
  (∀ s, Reads s k [] → (length s < length p.(rest))%nat → Q n (at_rest s p)) → wpt name Q p.
Proof. intros Hr HQ. by eapply wpt_glued_name. Qed.

Lemma string_body_end s t : string_body s → string_end (s ++ quote :: t) = Some t.
Proof.
  induction 1 as [|c s _ IH|c s Hn Hb Hq _ IH]; [done|done|]. simpl. unfold is_char.
  destruct (Ascii.eqb_spec c newline); [done|]. destruct (Ascii.eqb_spec c backslash); [done|].
  by destruct (Ascii.eqb_spec c quote).
Qed.

Lemma block_body_end s t : block_body s → block_end (s ++ triple ++ t) = Some t.
Proof.
  induction 1 as [|c s _ IH|c s Hb Hq _ IH]; [done|done|].
  rewrite <-app_comm_cons. cbn [block_end]. unfold is_char. destruct (Ascii.eqb_spec c backslash); [done|].
  rewrite bool_decide_false; [done|].
  rewrite app_assoc, (app_comm_cons _ _ c), take_triple; [done|].
  simpl. rewrite length_app. simpl. lia.
Qed.

Lemma wpt_string_literal raw k (Q : () → Parser → Prop) p :
  Reads p.(rest) (TStr raw :: k) [] → skip false p.(rest) = p.(rest) →
  (∀ s, Reads s k [] → (length s < length p.(rest))%nat → Q () (at_rest s p)) →
  wpt string_literal Q p.
Proof.
  intros Hr Hskip HQ. apply reads_inv in Hr as (s & Hs & Hraw & Hsep & Hr & Hl).
  rewrite Hskip in Hs. cbn [lexeme] in Hs. specialize (HQ s Hr Hl).
  unfold wpt, string_literal, mbind, M_bind. simpl. rewrite Hs.
  destruct Hraw as [(body & Hb & ->)|(body & Hb & ->)].
  - rewrite bool_decide_false.
    + change (drop 1 ((quote :: body ++ [quote]) ++ s)) with ((body ++ [quote]) ++ s).
      rewrite <-app_assoc. simpl. by rewrite string_body_end.
    + destruct Hb as [|c body' Hb|c body' Hn Hbs Hq Hb]; [|discriminate|].
      * destruct s as [|c s]; [discriminate|]. simpl in *. intros Ht. injection Ht as ->. by destruct Hsep.
      * intros Ht. by injection Ht.
  - rewrite <-!app_assoc. rewrite bool_decide_true by done.
    change (drop 3 (triple ++ ?l)) with l. by rewrite block_body_end.
Qed.

Lemma wpt_number raw k (Q : () → Parser → Prop) p :
  Reads p.(rest) (TNum raw :: k) [] → skip false p.(rest) = p.(rest) →
  (∀ s, Reads s k [] → (length s < length p.(rest))%nat → Q () (at_rest s p)) → wpt number Q p.
Proof.
  intros Hr Hskip HQ. apply reads_inv in Hr as (s & Hs & [Hh Hall] & Hsep & Hr & Hl).
  rewrite Hskip in Hs. cbn [lexeme] in Hs. specialize (HQ s Hr Hl).
  unfold wpt, number, mbind, M_bind. simpl. by rewrite Hs, span_exact.
Qed.

Lemma Forall_flat_map {X Y} (P : Y → Prop) (f : X → list Y) xs x :
  Forall P (flat_map f xs) → x ∈ xs → Forall P (f x).
Proof.
  rewrite !Forall_forall. intros H Hx y Hy. apply H.
  apply list_elem_of_In, List.in_flat_map. exists x. by rewrite <-!list_elem_of_In.
Qed.

Definition with_cost (s : list ascii) (p : Parser) (c : Z) : Parser :=
  {| rest := s; selected := p.(selected) + c |}.

Lemma with_cost_0 s p : with_cost s p 0 = at_rest s p.
Proof. unfold with_cost, at_rest. by rewrite Z.add_0_r. Qed.

Definition sum {X} (cost : X → Z) (xs : list X) : Z := foldr (λ x n, cost x + n) 0 xs.

Lemma sum_nonneg {X} (cost : X → Z) xs : (∀ x, 0 ≤ cost x) → 0 ≤ sum cost xs.
Proof. intros H. induction xs as [|x xs IH]; simpl; [lia|]. pose proof (H x). lia. Qed.

(** What every item of a loop has to do, for the loop to read the whole list. *)
Definition reads_item {A X} (toks : X → list token) (cost : X → Z) (step : A → X → A)
    (F : ascii → Prop) (n : nat) (item : A → M A) (x : X) : Prop :=
  ∀ acc p b k R, (length p.(rest) < n)%nat → Reads p.(rest) (toks x ++ k) [] →
    skip false p.(rest) = p.(rest) → first k = Some b → F b →
    p.(selected) + cost x ≤ MAX_GRAPHQL_FIELDS →
    (∀ s, Reads s k [] → (length s < length p.(rest))%nat → R (step acc x) (with_cost s p (cost x))) →
    wpt (item acc) R p.

Lemma wpt_until {A X} (toks : X → list token) (cost : X → Z) (step : A → X → A)
    (F : ascii → Prop) n close item xs k :
  (∀ x, 0 ≤ cost x) → F close →
  (∀ x, Forall token_ok (toks x) → ∃ b, first (toks x) = Some b ∧ b ≠ close ∧ F b) →
  (∀ x, x ∈ xs → reads_item toks cost step F n item x) →
  ∀ fuel acc p Q, (length p.(rest) < fuel)%nat → (length p.(rest) < n)%nat →
  p.(selected) + sum cost xs ≤ MAX_GRAPHQL_FIELDS →
  Reads p.(rest) (flat_map toks xs ++ punct close :: k) [] →
  (∀ s, Reads s k [] → (length s < length p.(rest))%nat → Q (foldl step acc xs) (with_cost s p (sum cost xs))) →
  wpt (until fuel close item acc) Q p.
Proof.
  intros Hcost HF Hstart. induction xs as [|x xs IH]; intros Hitems fuel acc p Q Hf Hn Hmax Hr HQ;
    (destruct fuel as [|fuel]; [lia|]); cbn [until].
  - simpl in Hr. apply wpt_bind, (wpt_peek (punct close :: k)); [done|]. intros s Hs Hh Hl Hsk.
    cbn [first lexeme punct head]. rewrite decide_True by done. apply wpt_bind, wpt_advance, wpt_ret.
    apply reads_inv in Hs as (s' & Hs' & _ & _ & Hr' & Hl'). rewrite Hsk in Hs'. subst s.
    change (drop 1 _) with s'. rewrite <-(with_cost_0 s'). apply (HQ s'); [done|simpl in *; lia].
  - cbn [flat_map] in Hr. rewrite <-app_assoc in Hr. set (k' := flat_map toks xs ++ punct close :: k) in Hr.
    pose proof (reads_tokens _ _ _ Hr) as Hok. apply Forall_app in Hok as [Hokx Hokk].
    destruct (Hstart x Hokx) as (b & Hb & Hne & _).
    apply wpt_bind, (wpt_peek (toks x ++ k')); [done|]. intros s Hs Hh Hl Hsk.
    assert (Hfirst : first (toks x ++ k') = Some b) by (destruct (toks x); [done|exact Hb]).
    rewrite Hfirst. rewrite decide_False by done. apply wpt_bind.
    assert (Hk' : ∃ b', first k' = Some b' ∧ F b').
    { unfold k'. destruct xs as [|y ys]; [by eexists|]. cbn [flat_map] in Hokk |- *.
      apply Forall_app in Hokk as [[Hoky _]%Forall_app _].
      destruct (Hstart y Hoky) as (b' & Hb' & _ & ?). exists b'. split; [|done].
      rewrite <-app_assoc. by destruct (toks y). }
    destruct Hk' as (b' & Hb' & HFb'). simpl in Hmax. pose proof (sum_nonneg cost xs Hcost).
    apply (Hitems x ltac:(left) acc (at_rest s p) b' k'); simpl; [lia|done|done|done|done|unfold sum in *; lia|].
    intros t Ht Hlt. simpl in *. apply IH; [by intros y Hy; apply Hitems; right|simpl;lia|simpl;lia|unfold sum in *;simpl;lia|done|].
    intros u Hu Hlu. simpl in *.
    replace (with_cost u (with_cost t (at_rest s p) (cost x)) (sum cost xs))
      with (with_cost u p (cost x + sum cost xs)); [apply HQ; [done|lia]|].
    unfold with_cost. simpl. f_equal. lia.
Qed.

(** The same for loops that keep nothing. *)
Lemma wpt_until_unit {X} (toks : X → list token) n close (item : () → M ()) xs k fuel p Q :
  (∀ x, Forall token_ok (toks x) → ∃ b, first (toks x) = Some b ∧ b ≠ close) →
  (∀ x, x ∈ xs → ∀ p k R, (length p.(rest) < n)%nat → p.(selected) ≤ MAX_GRAPHQL_FIELDS →
     Reads p.(rest) (toks x ++ k) [] → skip false p.(rest) = p.(rest) →
     (∀ s, Reads s k [] → (length s < length p.(rest))%nat → R () (at_rest s p)) → wpt (item ()) R p) →
  (length p.(rest) < fuel)%nat → (length p.(rest) < n)%nat → p.(selected) ≤ MAX_GRAPHQL_FIELDS →
  Reads p.(rest) (flat_map toks xs ++ punct close :: k) [] →
  (∀ s, Reads s k [] → (length s < length p.(rest))%nat → Q () (at_rest s p)) →
  wpt (until fuel close item ()) Q p.
Proof.
  intros Hstart Hitems Hf Hn Hmax Hr HQ.
  assert (Hsum : sum (λ _ : X, 0) xs = 0) by (clear; induction xs; simpl; lia).
  apply (wpt_until toks (λ _, 0) (λ _ _, ()) (λ _, True) n close item xs k); try done.
  - intros x Hx. destruct (Hstart x Hx) as (b & ? & ?). eauto.
  - intros x Hx [] q b k' R Hq Hrq Hsk _ _ Hm HR. apply (Hitems x Hx q k'); [done|lia|done|done|].
    intros s Hs Hl. rewrite <-with_cost_0. by apply HR.
  - rewrite Hsum. lia.
  - intros s Hs Hl. rewrite Hsum, with_cost_0. destruct (foldl _ _ xs). by apply HQ.
Qed.

Lemma word_start n : token_ok (word n) → ∃ b, first [word n] = Some b ∧ name_start b = true.
Proof.
  intros [(Hh & _) _]. cbn [first word lexeme]. rewrite app_nil_r.
  destruct (chars n) as [|b l]; [done|]. by exists b.
Qed.

Lemma number_start raw :
  token_ok (TNum raw) →
  ∃ b, head raw = Some b ∧ is_ascii_digit b || is_one_of "-+" b = true.
Proof. intros [Hh _]. destruct raw as [|b l]; [done|]. by exists b. Qed.

Lemma number_start_plain b :
  is_ascii_digit b || is_one_of "-+" b = true →
  is_char quote b = false ∧ is_one_of "[{" b = false ∧ is_char "$" b = false ∧ name_start b = false
  ∧ is_one_of "]})" b = false.
Proof. destruct b as [[] [] [] [] [] [] [] []]; by vm_compute. Qed.

Lemma not_closing b c : is_one_of "]})" b = false → is_one_of "]})" c = true → b ≠ c.
Proof. congruence. Qed.

Lemma name_start_value b :
  name_start b = true →
  is_char quote b = false ∧ is_one_of "[{" b = false ∧ is_char "$" b = false ∧ is_one_of "]})" b = false.
Proof. destruct b as [[] [] [] [] [] [] [] []]; by vm_compute. Qed.

Lemma val_start v :
  Forall token_ok (val_tokens v) → ∃ b, first (val_tokens v) = Some b ∧ is_one_of "]})" b = false.
Proof.
  destruct v as [raw|sq vs|n|n|raw]; cbn [val_tokens]; intros Hok; inversion Hok as [|? ? Ht _]; subst.
  - exists quote. split; [|done]. by destruct Ht as [(s & _ & ->)|(s & _ & ->)].
  - exists (if sq then "[" else "{")%char. by destruct sq.
  - by exists "$"%char.
  - destruct (word_start n Ht) as (b & Hb & Hn). exists b. split; [done|]. by apply name_start_value.
  - destruct (number_start raw Ht) as (b & Hb & Hn). exists b. split; [done|].
    by apply number_start_plain.
Qed.

Lemma wpt_value v depth fuel p k (Q : () → Parser → Prop) :
  val_within depth v = true → (length p.(rest) < fuel)%nat → p.(selected) ≤ MAX_GRAPHQL_FIELDS →
  Reads p.(rest) (val_tokens v ++ k) [] →
  (∀ s, Reads s k [] → (length s < length p.(rest))%nat → Q () (at_rest s p)) →
  wpt (value fuel depth) Q p.
Proof.
  revert depth fuel p k Q. induction v as [raw|sq vs IH|n|n|raw];
    intros depth fuel p k Q Hin Hf Hmax Hr HQ; (destruct fuel as [|fuel]; [lia|]);
    cbn [value]; simpl in Hin; apply andb_true_iff in Hin as [Hd Hin];
    apply Z.leb_le in Hd; (destruct (Z.ltb_spec MAX_GRAPHQL_DEPTH depth); [lia|]);
    pose proof (reads_tokens _ _ _ Hr) as Hok; apply Forall_app in Hok as [Hok _];
    (apply wpt_bind, (wpt_peek _ _ _ Hr); intros s Hs Hh Hl Hsk);
    cbn [val_tokens app] in *; inversion Hok as [|? ? Ht Hok']; subst.
  - assert (first (TStr raw :: k) = Some quote) as ->
      by (destruct Ht as [(t & _ & ->)|(t & _ & ->)]; done). simpl.
    apply (wpt_string_literal raw k); [done|done|]. intros t Htr Hlt. apply (HQ t); [done|simpl in *; lia].
  - cbn [first lexeme punct head]. rewrite <-app_assoc in Hs.
    apply reads_inv in Hs as (t & Ht' & _ & _ & Hrt & Hlt). rewrite Hsk in Ht'. cbn [lexeme punct app] in Ht'.
    subst s.
    replace (is_char quote (if sq then "[" else "{")) with false by (by destruct sq).
    replace (is_one_of "[{" (if sq then "[" else "{")) with true by (by destruct sq).
    replace (is_char "[" (if sq then "[" else "{")) with sq by (by destruct sq). cbv iota.
    apply wpt_bind, wpt_advance. change (drop 1 _) with t. simpl in *.
    apply (wpt_until_unit val_tokens fuel _ _ vs k); simpl.
    + intros x Hx. destruct (val_start x Hx) as (b & Hb & Hnb). exists b. split; [done|].
      apply (not_closing _ _ Hnb). by destruct sq.
    + intros x Hx q k' R Hq Hm Hrq _ HR. apply (list_all_elem _ _ x IH Hx (depth + 1) fuel q k'); try done.
      rewrite forallb_forall in Hin. apply Hin. by apply list_elem_of_In.
    + lia.
    + lia.
    + lia.
    + done.
    + intros u Hu Hlu. apply (HQ u); [done|lia].
  - apply reads_inv in Hs as (t & Ht' & _ & _ & Hrt & Hlt). rewrite Hsk in Ht'. cbn [lexeme punct app] in Ht'.
    subst s. simpl. apply wpt_bind, wpt_advance. change (drop 1 _) with t.
    apply wpt_bind, (wpt_name n k); [done|]. intros u Hu Hlu. apply wpt_ret, (HQ u); [done|simpl in *; lia].
  - destruct (word_start n Ht) as (b & Hb & Hn). change (first (word n :: k)) with (first [word n]).
    rewrite Hb. destruct (name_start_value b Hn) as (-> & -> & -> & _). rewrite Hn. simpl.
    apply wpt_bind, (wpt_name n k); [done|]. intros u Hu Hlu. apply wpt_ret, (HQ u); [done|simpl in *; lia].
  - destruct (number_start raw Ht) as (b & Hb & Hn). cbn [first lexeme]. rewrite Hb.
    destruct (number_start_plain b Hn) as (-> & -> & -> & -> & _). rewrite Hn. simpl.
    apply (wpt_number raw k); [done|done|]. intros u Hu Hlu. apply (HQ u); [done|simpl in *; lia].
Qed.

Lemma wpt_arguments args fuel p k (Q : () → Parser → Prop) :
  args_within (Some args) = true → (length p.(rest) < fuel)%nat → p.(selected) ≤ MAX_GRAPHQL_FIELDS →
  Reads p.(rest) (args_tokens (Some args) ++ k) [] →
  (∀ s, Reads s k [] → (length s < length p.(rest))%nat → Q () (at_rest s p)) →
  wpt (arguments fuel 0) Q p.
Proof.
  intros Hin Hf Hmax Hr HQ. cbn [args_tokens app] in Hr. rewrite <-app_assoc in Hr.
  apply wpt_bind. eapply wpt_expect; [exact Hr|]. intros s Hs Hl.
  apply (wpt_until_unit arg_tokens fuel _ _ args k); simpl; try done; try lia.
  - intros [n v] Hok. inversion Hok as [|? ? Ht _]; subst.
    destruct (word_start n Ht) as (b & Hb & Hn). exists b. split; [done|].
    destruct (name_start_value b Hn) as (_ & _ & _ & Hc). by apply (not_closing b).
  - intros [n v] Hx q k' R Hq Hm Hrq _ HR. cbn [arg_tokens app fst snd] in Hrq.
    apply wpt_bind. eapply wpt_name; [exact Hrq|]. intros t Ht Hlt. apply wpt_bind. eapply wpt_expect; [exact Ht|].
    intros u Hu Hlu. simpl in *.
    apply (wpt_value v 0 fuel _ k'); simpl; [|lia|done|done|].
    + unfold args_within in Hin. simpl in Hin. rewrite forallb_forall in Hin. by apply (Hin (n, v)), list_elem_of_In.
    + intros w Hw Hlw. apply (HR w); [done|lia].
  - intros t Ht Hlt. apply (HQ t); [done|lia].
Qed.

Lemma wpt_optional_arguments {A} args fuel p k b (m : M A) Q :
  args_within args = true → (length p.(rest) < fuel)%nat → p.(selected) ≤ MAX_GRAPHQL_FIELDS →
  Reads p.(rest) (args_tokens args ++ k) [] → first k = Some b → b ≠ "("%char →
  (∀ s, Reads s k [] → (length s ≤ length p.(rest))%nat → wpt m Q (at_rest s p)) →
  wpt (b ← peek; (if decide (b = Some "("%char) then arguments fuel 0 else mret ()) ;; m) Q p.
Proof.
  intros Hin Hf Hmax Hr Hk Hb HQ. apply wpt_bind, (wpt_peek _ _ _ Hr). intros s Hs Hh Hl Hsk.
  apply wpt_bind. destruct args as [args|].
  - cbn [args_tokens app first punct lexeme head]. rewrite decide_True by done.
    apply (wpt_arguments args fuel _ k); simpl; [done|lia|done|done|]. intros t Ht Hlt. apply (HQ t); [done|lia].
  - cbn [args_tokens app] in *. rewrite Hk, decide_False by congruence. apply wpt_ret, (HQ s); [done|lia].
Qed.

Lemma first_app ts k b : first ts = Some b → first (ts ++ k) = Some b.
Proof. by destruct ts. Qed.

Lemma wpt_directives ds fuel p k b (Q : () → Parser → Prop) :
  forallb (λ d, args_within d.(d_args)) ds = true → (length p.(rest) < fuel)%nat →
  p.(selected) ≤ MAX_GRAPHQL_FIELDS → Reads p.(rest) (flat_map directive_tokens ds ++ k) [] →
  first k = Some b → is_one_of "@(" b = false →
  (∀ s, Reads s k [] → (length s ≤ length p.(rest))%nat → Q () (at_rest s p)) →
  wpt (directives fuel) Q p.
Proof.
  intros Hin Hf Hmax Hr Hk Hb HQ. revert fuel p Hin Hf Hmax Hr HQ.
  assert (Hnb : b ≠ "@"%char ∧ b ≠ "("%char) by (split; intros ->; done). destruct Hnb as [Hb1 Hb2].
  induction ds as [|d ds IH]; intros fuel p Hin Hf Hmax Hr HQ; (destruct fuel as [|fuel]; [lia|]);
    cbn [directives]; (apply wpt_bind, (wpt_peek _ _ _ Hr); intros s Hs Hh Hl Hsk).
  - simpl. rewrite Hk, decide_False by congruence. by apply wpt_ret, HQ.
  - cbn [flat_map directive_tokens app first punct lexeme head] in *. rewrite decide_True by done.
    apply andb_true_iff in Hin as [Hd Hin].
    apply reads_inv in Hs as (t & Ht' & _ & _ & Hrt & Hlt). rewrite Hsk in Ht'. cbn [lexeme punct app] in Ht'.
    subst s. apply wpt_bind, wpt_advance. change (drop 1 _) with t.
    apply wpt_bind. eapply wpt_name; [exact Hrt|]. intros u Hu Hlu. simpl in *. rewrite <-app_assoc in Hu.
    assert (Hnext : ∃ b', first (flat_map directive_tokens ds ++ k) = Some b' ∧ b' ≠ "("%char).
    { destruct ds; simpl; eauto. }
    destruct Hnext as (b' & Hb' & Hne).
    apply (wpt_optional_arguments d.(d_args) fuel _ (flat_map directive_tokens ds ++ k) b' _ _ Hd); simpl; [lia|done|exact Hu|done|done|].
    intros w Hw Hlw. apply IH; simpl; [done|lia|done|done|]. intros x Hx Hlx. apply (HQ x); [done|simpl in *; lia].
Qed.

Lemma wpt_bang bang g k (Q : () → Parser → Prop) s p :
  g = [] ∨ g = ["="%char] → Reads s k [] → Q () (at_rest (g ++ s) p) →
  wpt (b ← current; if decide (b = Some "!"%char) then advance 1 else mret ()) Q
    (at_rest ((bang_byte bang ++ g) ++ s) p).
Proof.
  intros Hg Hr HQ. apply wpt_bind, wpt_current.
  destruct (decide _) as [Hh|Hh], bang; [exact HQ| |done|exact HQ].
  destruct Hg as [->| ->]; [|done]. by destruct (head_not_glued s k "!").
Qed.

Lemma wpt_type_ref t depth fuel p g k (Q : () → Parser → Prop) :
  ty_within depth t = true → (length p.(rest) < fuel)%nat → g = [] ∨ g = ["="%char] →
  Reads p.(rest) (ty_tokens t g ++ k) [] →
  (∀ s, Reads s k [] → (length (g ++ s) < length p.(rest))%nat → Q () (at_rest (g ++ s) p)) →
  wpt (type_ref fuel depth) Q p.
Proof.
  revert depth fuel p g k Q. induction t as [n bang|t IH bang];
    intros depth fuel p g k Q Hin Hf Hg Hr HQ; (destruct fuel as [|fuel]; [lia|]);
    cbn [type_ref ty_within] in *; apply andb_true_iff in Hin as [Hd Hin]; apply Z.leb_le in Hd;
    (destruct (Z.ltb_spec MAX_GRAPHQL_DEPTH depth); [lia|]); cbn [ty_tokens app] in Hr;
    (apply wpt_bind; eapply wpt_peek; [exact Hr|]; intros s Hs Hh Hl Hsk); apply wpt_bind.
  - pose proof (reads_tokens _ _ _ Hs) as Hok. apply Forall_cons in Hok as [[Hn _] _].
    rewrite decide_False.
    + apply wpt_bind. eapply wpt_glued_name; [exact Hs|]. intros u Hu Hlu. apply wpt_ret. simpl in Hlu.
      apply (wpt_bang bang g k Q u p); [done|done|]. apply HQ; [done|].
      rewrite <-app_assoc, length_app in Hlu. lia.
    + cbn [first lexeme]. destruct Hn as (Hh' & _). destruct (chars n) as [|b l]; [done|].
      intros [= ->]. done.
  - cbn [first lexeme punct head]. rewrite decide_True by done.
    apply reads_inv in Hs as (u & Hu & _ & _ & Hru & Hlu). rewrite Hsk in Hu. cbn [lexeme punct app] in Hu.
    subst s. apply wpt_bind, wpt_advance. change (drop 1 _) with u. apply wpt_bind.
    rewrite <-app_assoc in Hru.
    apply (IH (depth + 1) fuel _ [] ([TPunct "]" (bang_byte bang ++ g)] ++ k)); simpl in *; [done|lia|auto|exact Hru|].
    intros w Hw Hlw. eapply wpt_expect_glued; [exact Hw|]. intros x Hx Hlx. simpl in Hlx.
    apply (wpt_bang bang g k Q x p); [done|done|]. apply HQ; [done|].
    rewrite <-app_assoc, length_app in Hlx. lia.
Qed.

Lemma wpt_variable_definitions vars fuel p k (Q : () → Parser → Prop) :
  forallb variable_within vars = true → (length p.(rest) < fuel)%nat →
  p.(selected) ≤ MAX_GRAPHQL_FIELDS →
  Reads p.(rest) ((punct "(" :: flat_map variable_tokens vars ++ [punct ")"]) ++ k) [] →
  (∀ s, Reads s k [] → (length s < length p.(rest))%nat → Q () (at_rest s p)) →
  wpt (variable_definitions fuel 0) Q p.
Proof.
  intros Hin Hf Hmax Hr HQ. cbn [app] in Hr. rewrite <-app_assoc in Hr.
  apply wpt_bind. eapply wpt_expect; [exact Hr|]. intros s Hs Hl.
  apply (wpt_until_unit variable_tokens fuel _ _ vars k); simpl; try done; try lia.
  { intros v _. by exists "$"%char. }
  2: { intros t Ht Hlt. apply (HQ t); [done|lia]. }
  intros [n ty dflt] Hx q k' R Hq Hm Hrq Hsk HR. rewrite forallb_forall in Hin.
  apply list_elem_of_In, Hin, andb_true_iff in Hx as [Hty Hdflt]. simpl in Hty, Hdflt.
  cbn [variable_tokens app v_name v_type v_default] in Hrq. rewrite <-app_assoc in Hrq.
  apply reads_inv in Hrq as (u & Hu & _ & _ & Hru & Hlu). rewrite Hsk in Hu. cbn [lexeme punct app] in Hu.
  apply wpt_bind, wpt_current. rewrite Hu. cbn [head]. rewrite decide_True by done.
  apply wpt_bind, wpt_advance. rewrite Hu. change (drop 1 _) with u. rewrite Hu in Hq, Hlu, HR.
  apply wpt_bind. eapply wpt_name; [exact Hru|]. intros w Hw Hlw.
  apply wpt_bind. eapply wpt_expect; [exact Hw|]. intros x Hx Hlx. simpl in *.
  apply wpt_bind. eapply (wpt_type_ref ty 0 fuel); [done|simpl; lia| |exact Hx|]; [destruct dflt; auto|].
  intros y Hy Hly. simpl in Hly. apply wpt_bind, wpt_current. destruct (decide _) as [Hh|Hh], dflt as [v|]; [| |done|].
  - apply wpt_bind, wpt_advance. change (drop 1 _) with y. simpl in *.
    apply (wpt_value v 0 fuel _ k'); simpl; [done|lia|done|done|].
    intros z Hz Hlz. apply (HR z); [done|lia].
  - by destruct (head_not_glued y k' "=").
  - simpl in *. apply wpt_ret, (HR y); [done|lia].
Qed.

Lemma one_of_sub ds ds' c :
  forallb (is_one_of ds) (chars ds') = true → is_one_of ds c = false → is_one_of ds' c = false.
Proof.
  intros Hsub Hc. unfold is_one_of at 1. apply existsb_false, Forall_forall. intros d Hd.
  destruct (Ascii.eqb_spec c d) as [->|]; [|done]. rewrite forallb_forall in Hsub.
  apply list_elem_of_In, Hsub in Hd. congruence.
Qed.

(** What can stand after a field: another one, or the end of the selection set. *)
Definition after_field (b : ascii) : Prop := is_one_of "(@{:" b = false.

Lemma sel_start x :
  Forall token_ok (sel_tokens x) →
  ∃ b, first (sel_tokens x) = Some b ∧ b ≠ "}"%char ∧ after_field b.
Proof.
  destruct x as [alias field args ds sub]. intros Hok.
  assert (∃ n, token_ok (word n) ∧ first (sel_tokens (Sel alias field args ds sub)) = first [word n])
    as (n & Hn & ->).
  { cbn [sel_tokens] in *. destruct alias as [a|]; apply Forall_cons in Hok as [Hok _]; eauto. }
  destruct (word_start n Hn) as (b & Hb & Hs). exists b.
  split; [done|]. unfold after_field. revert Hs. clear.
  destruct b as [[] [] [] [] [] [] [] []]; by vm_compute.
Qed.

Lemma wpt_count_field (Q : () → Parser → Prop) p :
  p.(selected) + 1 ≤ MAX_GRAPHQL_FIELDS → Q () (with_cost p.(rest) p 1) → wpt count_field Q p.
Proof.
  intros Hm HQ. unfold wpt, count_field. by destruct (Z.ltb_spec MAX_GRAPHQL_FIELDS (selected p + 1)); [lia|].
Qed.

Lemma wpt_field_name {A} alias field (k : string → M A) ks R p b :
  Reads p.(rest) (match alias with Some a => [word a; punct ":"] | None => [] end ++ word field :: ks) [] →
  first ks = Some b → b ≠ ":"%char → p.(selected) + 1 ≤ MAX_GRAPHQL_FIELDS →
  (∀ s, Reads s ks [] → (length s < length p.(rest))%nat → wpt (k field) R (with_cost s p 1)) →
  wpt (first ← name; count_field ;; aliased ← eat ":";
       field ← (if (aliased : bool) then name else mret first); k field) R p.
Proof.
  intros Hr Hk Hb Hm HR. apply wpt_bind. destruct alias as [a|]; cbn [app] in Hr.
  - eapply wpt_name; [exact Hr|]. intros s Hs Hl. apply wpt_bind, wpt_count_field; [done|].
    apply wpt_bind. eapply wpt_eat_yes; [exact Hs|]. intros t Ht Hlt.
    apply wpt_bind. eapply wpt_name; [exact Ht|]. intros u Hu Hlu. simpl in *. apply (HR u); [done|lia].
  - eapply wpt_name; [exact Hr|]. intros s Hs Hl. apply wpt_bind, wpt_count_field; [done|].
    apply wpt_bind. eapply (wpt_eat_no _ ks); [exact Hs|by rewrite Hk; intros [= ->]|]. intros t Ht Hlt.
    apply wpt_bind, wpt_ret. simpl in *. apply (HR t); [done|lia].
Qed.

Lemma sel_size_pos x : 0 ≤ sel_size x.
Proof.
  induction x as [alias field args ds sub IH]. destruct IH as [sels IH|]; simpl; [|lia].
  enough (0 ≤ foldr (λ s n, sel_size s + n) 0 sels) by lia.
  induction IH; simpl in *; lia.
Qed.

Definition sub_tokens (sub : option (list sel)) : list token :=
  match sub with Some sels => braces (flat_map sel_tokens sels) | None => [] end.
Definition sub_size (sub : option (list sel)) : Z :=
  match sub with Some sels => sels_size sels | None => 0 end.

(** The byte after each part of a field never is one the part could go on with. *)
Lemma field_follow args ds sub k b :
  first k = Some b → after_field b →
  let k3 := sub_tokens sub ++ k in
  let k2 := flat_map directive_tokens ds ++ k3 in
  (∃ c, first (args_tokens args ++ k2) = Some c ∧ c ≠ ":"%char)
  ∧ (∃ c, first k2 = Some c ∧ c ≠ "("%char)
  ∧ (∃ c, first k3 = Some c ∧ is_one_of "@(" c = false).
Proof.
  intros Hk Hb k3 k2.
  assert (H3 : ∃ c, first k3 = Some c ∧ is_one_of "@(:" c = false).
  { subst k3. destruct sub; [by eexists|]. exists b. split; [done|]. by apply (one_of_sub "(@{:"). }
  assert (H2 : ∃ c, first k2 = Some c ∧ is_one_of "(:" c = false).
  { subst k2. destruct ds; [|by eexists]. destruct H3 as (c & ? & ?). exists c. split; [done|].
    by apply (one_of_sub "@(:"). }
  split_and!.
  - destruct args as [args|]; [by eexists|]. destruct H2 as (c & Hc & Hn). exists c.
    split; [done|]. by intros ->.
  - destruct H2 as (c & Hc & Hn). exists c. split; [done|]. by intros ->.
  - destruct H3 as (c & Hc & Hn). exists c. split; [done|]. by apply (one_of_sub "@(:").
Qed.

Lemma field_not_dot p alias field k :
  Reads p.(rest) (match alias with Some a => [word a; punct ":"] | None => [] end ++ word field :: k) [] →
  skip false p.(rest) = p.(rest) → head p.(rest) ≠ Some "."%char.
Proof.
  intros Hr Hsk. rewrite <-Hsk, (head_first _ _ Hr). pose proof (reads_tokens _ _ _ Hr) as Hok.
  destruct alias as [a|]; cbn [app first] in *; apply Forall_cons in Hok as [Hok _];
    apply token_starts in Hok as (c & l & -> & Hc); apply starts_not_trivia in Hc as (_ & _ & Hc);
    by intros [= ->].
Qed.

Lemma wpt_selection nested fuel depth alias field args ds sub :
  sel_within depth (Sel alias field args ds sub) = true →
  (∀ sels, sub = Some sels →
     ∀ p k R, (length p.(rest) < fuel)%nat → p.(selected) + sels_size sels ≤ MAX_GRAPHQL_FIELDS →
     Reads p.(rest) (braces (flat_map sel_tokens sels) ++ k) [] →
     (∀ s, Reads s k [] → (length s < length p.(rest))%nat → R () (with_cost s p (sels_size sels))) →
     wpt nested R p) →
  reads_item sel_tokens sel_size
    (λ roots x, if decide (depth = 1) then add_root roots (sel_field x) else roots)
    after_field fuel (selection nested fuel depth) (Sel alias field args ds sub).
Proof.
  intros Hin Hnested roots p b k R Hf Hr Hsk Hk Hb Hmax HR.
  cbn [sel_within] in Hin. apply andb_true_iff in Hin as [[Hargs Hds]%andb_true_iff _].
  assert (Hsub : 0 ≤ sub_size sub) by (destruct sub; [apply (sum_nonneg sel_size), sel_size_pos|done]).
  change (sel_size _) with (1 + sub_size sub) in Hmax, HR. cbn [sel_tokens] in Hr.
  fold (sub_tokens sub) in Hr. rewrite <-!app_assoc in Hr. cbn [app] in Hr. rewrite <-!app_assoc in Hr.
  destruct (field_follow args ds sub k b Hk Hb) as ((b1 & Hb1 & Hn1) & (b2 & Hb2 & Hn2) & (b3 & Hb3 & Hn3)).
  apply wpt_bind, wpt_current. rewrite decide_False by (by eapply field_not_dot).
  apply (wpt_field_name alias field _ _ _ _ b1 Hr Hb1 Hn1); [lia|]. intros s Hs Hl.
  apply (wpt_optional_arguments args fuel _ (flat_map directive_tokens ds ++ sub_tokens sub ++ k) b2 _ _ Hargs);
    simpl; [lia|lia|exact Hs|done|done|].
  intros t Ht Hlt. apply wpt_bind.
  apply (wpt_directives ds fuel _ (sub_tokens sub ++ k) b3 _ Hds); simpl; [lia|lia|exact Ht|done|done|]. intros u Hu Hlu.
  apply wpt_bind. eapply wpt_peek; [exact Hu|]. intros w Hw Hhw Hlw Hskw. simpl in *. apply wpt_bind.
  destruct sub as [sels|]; cbn [sub_tokens sub_size] in *.
  - change (first (braces ?l ++ k)) with (Some "{"%char). rewrite decide_True by done.
    apply (Hnested sels eq_refl _ k); simpl; [lia|lia|done|]. intros x Hx Hlx. apply wpt_ret.
    unfold with_cost. simpl. rewrite <-Z.add_assoc. apply (HR x); [done|lia].
  - simpl in *. rewrite Hk, decide_False by (intros [= ->]; done).
    apply wpt_ret, wpt_ret. rewrite Z.add_0_r in HR. apply (HR w); [done|lia].
Qed.

Lemma wpt_selection_set_of sels depth fuel p k (Q : list string → Parser → Prop) :
  (∀ x, x ∈ sels → ∀ n, (n ≤ fuel)%nat →
     reads_item sel_tokens sel_size
       (λ roots x, if decide (depth = 1) then add_root roots (sel_field x) else roots)
       after_field n (selection (selection_set n (depth + 1) ;; mret ()) n depth) x) →
  (depth <=? MAX_GRAPHQL_DEPTH) = true → (length p.(rest) < fuel)%nat →
  p.(selected) + sels_size sels ≤ MAX_GRAPHQL_FIELDS →
  Reads p.(rest) (braces (flat_map sel_tokens sels) ++ k) [] →
  (∀ s, Reads s k [] → (length s < length p.(rest))%nat →
     Q (foldl (λ roots x, if decide (depth = 1) then add_root roots (sel_field x) else roots) [] sels)
       (with_cost s p (sels_size sels))) →
  wpt (selection_set fuel depth) Q p.
Proof.
  intros Hitems Hd Hf Hmax Hr HQ. destruct fuel as [|fuel]; [lia|]. cbn [selection_set].
  apply Z.leb_le in Hd. destruct (Z.ltb_spec MAX_GRAPHQL_DEPTH depth); [lia|].
  unfold braces in Hr. cbn [app] in Hr. rewrite <-app_assoc in Hr.
  apply wpt_bind. eapply wpt_expect; [exact Hr|]. intros s Hs Hl.
  eapply (wpt_until sel_tokens sel_size _ after_field fuel _ _ sels k); simpl; try done; try lia.
  - apply sel_size_pos.
  - intros x Hx. apply sel_start in Hx as (c & ? & ? & ?). eauto.
  - intros x Hx. apply Hitems; [done|lia].
  - intros t Ht Hlt. unfold with_cost. simpl. apply (HQ t); [done|lia].
Qed.

Lemma wpt_item x depth fuel :
  sel_within depth x = true →
  reads_item sel_tokens sel_size
    (λ roots x, if decide (depth = 1) then add_root roots (sel_field x) else roots)
    after_field fuel (selection (selection_set fuel (depth + 1) ;; mret ()) fuel depth) x.
Proof.
  revert depth fuel. induction x as [alias field args ds sub IH]; intros depth fuel Hin.
  apply wpt_selection; [done|]. intros sels -> p k R Hf Hmax Hr HR. inversion IH as [? Hall|]; subst.
  cbn [sel_within] in Hin. apply andb_true_iff in Hin as [_ [Hd Hin]%andb_true_iff].
  apply wpt_bind. apply (wpt_selection_set_of sels _ _ _ k); try done.
  - intros x Hx n _. apply (list_all_elem _ _ x Hall Hx). rewrite forallb_forall in Hin.
    by apply Hin, list_elem_of_In.
Qed.

Lemma roots_foldl sels roots :
  foldl (λ roots x, if decide (1 = 1) then add_root roots (sel_field x) else roots) roots sels
  = foldl add_root roots (sel_field <$> sels).
Proof.
  revert roots. induction sels as [|x sels IH]; intros roots; [done|]. simpl.
  rewrite IH. done.
Qed.

Lemma wpt_selection_set sels fuel p k (Q : list string → Parser → Prop) :
  forallb (sel_within 1) sels = true → (length p.(rest) < fuel)%nat →
  p.(selected) + sels_size sels ≤ MAX_GRAPHQL_FIELDS →
  Reads p.(rest) (braces (flat_map sel_tokens sels) ++ k) [] →
  (∀ s, Reads s k [] → (length s < length p.(rest))%nat →
     Q (root_fields_of sels) (with_cost s p (sels_size sels))) →
  wpt (selection_set fuel 1) Q p.
Proof.
  intros Hin Hf Hmax Hr HQ. apply (wpt_selection_set_of sels 1 fuel p k); try done.
  - intros x Hx n _. apply wpt_item. rewrite forallb_forall in Hin. by apply Hin, list_elem_of_In.
  - intros s Hs Hl. rewrite roots_foldl. by apply HQ.
Qed.

Lemma wpt_operation kind name vars dirs sels fuel p k (Q : GraphqlOperation → Parser → Prop) :
  let d := Operation kind name vars dirs sels in
  definition_within d = true → (length p.(rest) < fuel)%nat →
  p.(selected) + sels_size sels ≤ MAX_GRAPHQL_FIELDS →
  Reads p.(rest) (List.tl (definition_tokens d) ++ k) [] →
  (∀ s, Reads s k [] → (length s < length p.(rest))%nat → Q (operation_of d) (with_cost s p (sels_size sels))) →
  wpt (operation fuel kind) Q p.
Proof.
  intros d Hin Hf Hmax Hr HQ. unfold definition_within in Hin. simpl in Hin, Hr.
  apply andb_true_iff in Hin as [Hsels [Hvars Hdirs]%andb_true_iff]. rewrite <-!app_assoc in Hr.
  pose proof (sum_nonneg sel_size sels sel_size_pos) as Hpos. fold (sels_size sels) in Hpos.
  change (sum sel_size sels) with (sels_size sels) in Hpos.
  set (k3 := braces (flat_map sel_tokens sels) ++ k) in Hr.
  set (k2 := flat_map directive_tokens dirs ++ k3) in Hr.
  set (k1 := match vars with
             | Some vars => punct "(" :: flat_map variable_tokens vars ++ [punct ")"]
             | None => [] end ++ k2) in Hr.
  assert (H2 : first k2 = Some "@"%char ∨ first k2 = Some "{"%char) by (subst k2; destruct dirs; auto).
  assert (Htail : ∀ q, q.(selected) = p.(selected) → (length q.(rest) ≤ length p.(rest))%nat →
    Reads q.(rest) k1 [] →
    wpt (b ← peek;
         (if decide (b = Some "("%char) then variable_definitions fuel 0 else mret ()) ;;
         directives fuel ;;
         root_fields ← selection_set fuel 1;
         mret {| op_kind := kind; op_name := name; op_root_fields := root_fields |}) Q q).
  { intros q Hsel Hl Hq. apply wpt_bind. eapply wpt_peek; [exact Hq|]. intros s Hs _ Hls _. apply wpt_bind.
    assert (Hafter : ∀ t, Reads t k2 [] → (length t ≤ length q.(rest))%nat →
      wpt (directives fuel ;; root_fields ← selection_set fuel 1;
           mret {| op_kind := kind; op_name := name; op_root_fields := root_fields |}) Q (at_rest t q)).
    { intros t Ht Hlt. apply wpt_bind.
      apply (wpt_directives dirs fuel _ k3 "{"%char); simpl; [done|lia|lia|exact Ht|done|done|].
      intros u Hu Hlu. apply wpt_bind. apply (wpt_selection_set sels fuel _ k); simpl; [done|lia|lia|done|].
      intros w Hw Hlw. apply wpt_ret. unfold with_cost. simpl. rewrite Hsel. apply (HQ w); [done|lia]. }
    destruct vars as [vars|].
    - change (first k1) with (Some "("%char). rewrite decide_True by done.
      apply (wpt_variable_definitions vars fuel _ k2); simpl; [done|lia|lia|exact Hs|].
      intros t Ht Hlt. apply (Hafter t); [done|lia].
    - change k1 with k2 in *. rewrite decide_False by (destruct H2 as [-> | ->]; done).
      apply wpt_ret. by apply Hafter. }
  apply wpt_bind. eapply wpt_peek; [exact Hr|]. intros s Hs _ Hls _. apply wpt_bind.
  destruct name as [n|]; cbn [app] in *.
  - pose proof (reads_tokens _ _ _ Hs) as Hok. apply Forall_cons in Hok as [Hok _].
    destruct (word_start n Hok) as (b & Hb & Hn). change (first (word n :: k1)) with (first [word n]).
    rewrite Hb, decide_False by (intros [[= ->]|[[= ->]|[= ->]]]; done).
    apply wpt_bind. eapply wpt_name; [exact Hs|]. intros t Ht Hlt. apply wpt_ret. simpl in *.
    apply Htail; simpl; [done|lia|done].
  - rewrite decide_True; [by apply wpt_ret, Htail|].
    subst k1. destruct vars; [auto|]. destruct H2; auto.
Qed.

Lemma wpt_keyword w n k (Q : bool → Parser → Prop) p :
  Reads p.(rest) (word n :: k) [] → (w ≠ ""%string ∧ head (chars w) ≠ head (chars n)) ∨ w = n →
  Q (bool_decide (w = n)) (at_rest (skip false p.(rest)) p) → wpt (keyword w) Q p.
Proof.
  intros Hr Hw HQ. apply reads_inv in Hr as (s & Hs & [Hn _] & Hsep & _ & _). cbn [lexeme word] in Hs.
  rewrite app_nil_r in Hs. unfold wpt, keyword, mbind, M_bind. simpl. unfold at_rest in HQ.
  rewrite Hs in HQ |- *.
  destruct Hw as [[Hw Hne]| ->].
  - rewrite bool_decide_false in HQ by (intros ->; done).
    rewrite bool_decide_false; [exact HQ|].
    destruct Hn as (Hh & _). destruct (chars n) as [|c l] eqn:Hcn; [done|].
    destruct w as [|d w]; [done|]. simpl in *. congruence.
  - rewrite bool_decide_true in HQ by done. rewrite <-length_chars, take_app_length, drop_app_length.
    rewrite bool_decide_true by done. simpl in Hsep. rewrite Hsep. exact HQ.
Qed.

Lemma wpt_definition d fuel byte p k (Q : GraphqlOperation → Parser → Prop) :
  definition_within d = true → (length p.(rest) < fuel)%nat →
  p.(selected) + sels_size (sels_of d) ≤ MAX_GRAPHQL_FIELDS →
  Reads p.(rest) (definition_tokens d ++ k) [] → first (definition_tokens d) = Some byte →
  (∀ s, Reads s k [] → (length s < length p.(rest))%nat →
     Q (operation_of d) (with_cost s p (sels_size (sels_of d)))) →
  wpt (Parser.definition fuel byte) Q p.
Proof.
  intros Hin Hf Hmax Hr Hbyte HQ. unfold Parser.definition. destruct d as [sels|kind name vars dirs sels].
  { injection Hbyte as <-. rewrite decide_True by done. apply wpt_bind.
    unfold definition_within in Hin. simpl in Hin. rewrite andb_true_r in Hin.
    apply (wpt_selection_set sels fuel _ k); [done|done|done|done|].
    intros s Hs Hl. apply wpt_ret. by apply HQ. }
  rewrite decide_False by (destruct kind; injection Hbyte as <-; done).
  set (ts := List.tl (definition_tokens (Operation kind name vars dirs sels)) ++ k).
  assert (Hr' : ∀ s, Skips s (skip false (rest p)) → Reads s (word (GraphqlKind_as_str kind) :: ts) []).
  { intros s Hs. eapply reads_skip; [done|]. apply reads_skipped in Hr. exact Hr. }
  assert (Hop : wpt (advance (String.length (GraphqlKind_as_str kind)) ;; operation fuel kind) Q
                    (at_rest (skip false (rest p)) p)).
  { specialize (Hr' _ (skips_refl _)). apply reads_inv in Hr' as (s & Hs & _ & _ & Hrs & Hl).
    assert (Hidem : skip false (skip false (rest p)) = skip false (rest p))
      by (symmetry; apply skips_skip, skip_spec).
    rewrite Hidem in Hs. cbn [lexeme word] in Hs. rewrite app_nil_r in Hs.
    pose proof (skips_length _ _ (skip_spec (rest p))) as Hle.
    apply wpt_bind, wpt_advance. simpl rest. rewrite Hs, <-length_chars, drop_app_length.
    apply (wpt_operation kind name vars dirs sels fuel _ k); simpl; [done|lia|done|exact Hrs|].
    intros t Ht Hlt. apply (HQ t); [done|lia]. }
  assert (Hkw : ∀ w n, Skips (rest n) (skip false (rest p)) →
    (w ≠ ""%string ∧ head (chars w) ≠ head (chars (GraphqlKind_as_str kind)))
    ∨ w = GraphqlKind_as_str kind →
    ∀ R, R (bool_decide (w = GraphqlKind_as_str kind)) (at_rest (skip false (rest p)) n) → wpt (keyword w) R n).
  { intros w n Hn Hw R HR. eapply wpt_keyword; [by apply Hr'|done|].
    rewrite (skips_skip _ _ Hn), <-(skips_skip _ _ (skip_spec (rest p))). exact HR. }
  apply wpt_bind, Hkw; [apply skip_spec|destruct kind; by left|]. rewrite bool_decide_false by (by destruct kind).
  apply wpt_bind, Hkw; [constructor|destruct kind; (by left) || (by right)|].
  destruct kind; cbn [GraphqlKind_as_str] in *; rewrite ?bool_decide_true by done; [exact Hop| |].
  all: rewrite bool_decide_false by done; apply wpt_bind, Hkw; [constructor|(by left) || (by right)|].
  - rewrite bool_decide_true by done. exact Hop.
  - rewrite bool_decide_false by done. apply wpt_bind, Hkw; [constructor|by right|].
    rewrite bool_decide_true by done. exact Hop.
Qed.

Lemma wpt_document ds fuel ops p (Q : list GraphqlOperation → Parser → Prop) :
  forallb definition_within ds = true → (length p.(rest) < fuel)%nat →
  p.(selected) + document_size ds ≤ MAX_GRAPHQL_FIELDS →
  Z.of_nat (length ops + length ds) ≤ MAX_GRAPHQL_OPERATIONS →
  Reads p.(rest) (flat_map definition_tokens ds) [] →
  (∀ p', Q (ops ++ (operation_of <$> ds)) p') →
  wpt (document fuel ops) Q p.
Proof.
  revert ops fuel p. induction ds as [|d ds IH]; intros ops fuel p Hin Hf Hmax Hops Hr HQ;
    (destruct fuel as [|fuel]; [lia|]); cbn [document];
    (apply wpt_bind; eapply wpt_peek; [exact Hr|]; intros s Hs _ Hl _).
  - apply wpt_ret. specialize (HQ (at_rest s p)). by rewrite app_nil_r in HQ.
  - cbn [forallb flat_map] in *. apply andb_true_iff in Hin as [Hd Hin].
    assert (Hsizes : ∀ l, 0 ≤ document_size l).
    { intros l. apply (sum_nonneg (λ d, sels_size (sels_of d))). intros x.
      apply (sum_nonneg sel_size), sel_size_pos. }
    cbn [document_size foldr] in Hmax. pose proof (Hsizes ds). unfold document_size in *.
    assert (∃ b, first (definition_tokens d) = Some b) as (b & Hb)
      by (destruct d as [|[]]; by eexists).
    rewrite (first_app _ _ _ Hb). apply wpt_bind.
    apply (wpt_definition d (S fuel) b _ (flat_map definition_tokens ds)); simpl; [done|lia|lia|done|done|].
    intros t Ht Hlt. rewrite length_app. simpl in *.
    destruct (Z.ltb_spec MAX_GRAPHQL_OPERATIONS (Z.of_nat (length ops + 1))); [lia|].
    apply IH; simpl; [done|lia|lia|rewrite length_app; simpl; lia|done|].
    intros p'. rewrite <-app_assoc. apply HQ.
Qed.

End Complete.

(** ** Theorems *)

Definition start (document : string) : Parser.Parser :=
  {| Parser.rest := chars document; Parser.selected := 0 |}.

(** The loop of [parse_graphql] and every loop below it ends on every input. *)
Lemma document_terminates document :
  Parser.document (S (String.length document)) [] (start document) ≠ Err Parser.OutOfFuel.
Proof.
  pose proof (wp_document (S (String.length document)) [] (start document)) as H.
  unfold wp in H. intros Heq. rewrite Heq in H. apply H; simpl; [|done|done|done].
  rewrite length_chars. lia.
Qed.

Lemma parse_graphql_iff (document : string) (ops : list GraphqlOperation) :
  parse_graphql document = Ok ops ↔
  slen document ≤ MAX_INSPECTED_BODY_BYTES ∧
  ∃ ds, spells document ds ∧ document_within ds = true ∧ ops = operation_of <$> ds.
Proof.
  unfold parse_graphql, spells, document_within. fold (start document).
  destruct (Z.ltb_spec MAX_INSPECTED_BODY_BYTES (slen document)) as [|Hlen].
  { split; [done|]. intros [? _]. lia. }
  pose proof (length_chars document) as Hl. split.
  - pose proof (wp_document (S (String.length document)) [] (start document)) as H.
    unfold wp in H. simpl Parser.rest in H. simpl Parser.selected in H.
    destruct (Parser.document _ _ _) as [[ops' p']|[e|]]; [|done|]; [|destruct H; [lia|done..]].
    intros [= <-]. destruct H as (ds & Hr & Hall & -> & Hsize & Hops); [lia|done|done|].
    split; [done|]. exists ds. rewrite Hall. fold (document_size ds). simpl in *.
    rewrite length_fmap in Hops. split_and!; [done| |done].
    apply andb_true_iff. split; apply Z.leb_le; lia.
  - intros (_ & ds & Hr & [[Hall Hsize]%andb_true_iff Hops]%andb_true_iff & ->).
    apply Z.leb_le in Hsize, Hops. fold (document_size ds) in Hsize.
    pose proof (wpt_document ds (S (String.length document)) [] (start document)
                  (λ ops _, ops = operation_of <$> ds)) as H.
    unfold wpt in H. destruct (Parser.document _ _ _) as [[ops' p']|e].
    + rewrite H; simpl; [done|done|lia|lia|lia|done|done].
    + destruct H; simpl; [done|lia|lia|lia|done|done].
Qed.

(** Two readings of the same bytes within the bounds report the same operations, so
    that an upstream that follows the grammar executes what was inspected. *)
Lemma reading_unambiguous document ds ds' :
  slen document ≤ MAX_INSPECTED_BODY_BYTES → spells document ds → spells document ds' →
  document_within ds = true → document_within ds' = true →
  operation_of <$> ds = operation_of <$> ds'.
Proof.
  intros Hlen H1 H2 Hw1 Hw2.
  assert (parse_graphql document = Ok (operation_of <$> ds)) as E1 by (apply parse_graphql_iff; eauto).
  assert (parse_graphql document = Ok (operation_of <$> ds')) as E2 by (apply parse_graphql_iff; eauto).
  congruence.
Qed.

Lemma elem_of_root_fields sels f :
  f ∈ root_fields_of sels ↔ ∃ x, x ∈ sels ∧ sel_field x = f.
Proof.
  unfold root_fields_of.
  assert (H : ∀ fs roots, f ∈ foldl Parser.add_root roots fs ↔ f ∈ roots ∨ f ∈ fs).
  { induction fs as [|g fs IH]; intros roots; simpl; [set_solver|]. rewrite IH. unfold Parser.add_root.
    case_decide; set_solver. }
  rewrite H, list_elem_of_fmap. set_solver.
Qed.

Lemma name_skip n s :
  name_ok n →
  ∃ c l, chars n = c :: l ∧ name_start c = true ∧ Parser.skip false (chars n ++ s) = chars n ++ s.
Proof.
  intros Hn. pose proof (skip_token (word n) s (conj Hn glue_nil)) as Hsk. cbn [lexeme word] in Hsk.
  rewrite app_nil_r in Hsk. destruct Hn as (Hh & _). destruct (chars n) as [|c l]; [done|]. eauto.
Qed.

Definition at_bytes (s : list ascii) (sel : Z) : Parser.Parser :=
  {| Parser.rest := s; Parser.selected := sel |}.

Lemma peek_at s sel : Parser.peek (at_bytes s sel) = Ok (head (Parser.skip false s), at_bytes (Parser.skip false s) sel).
Proof. done. Qed.

Lemma name_at n s sel :
  name_ok n → from_option name_byte false (head s) = false →
  Parser.name (at_bytes (chars n ++ s) sel) = Ok (n, at_bytes s sel).
Proof.
  intros Hn Hs. pose proof (name_skip n s Hn) as (c & l & Hc & Hstart & Hsk).
  unfold Parser.name, mbind, Parser.M_bind. rewrite peek_at, Hsk.
  replace (head (chars n ++ s)) with (Some c) by (by rewrite Hc). cbn [from_option]. rewrite Hstart.
  cbn [Parser.get_rest at_bytes Parser.rest].
  pose proof (name_span n [] s Hn (λ _, Hs) eq_refl) as Hspan. simpl app in Hspan. rewrite Hspan. simpl.
  destruct Hn as (_ & _ & Hlen). unfold slen in Hlen. rewrite <-length_chars in Hlen.
  destruct (Z.ltb_spec MAX_OPERATION_NAME_BYTES (Z.of_nat (length (chars n)))); [lia|].
  unfold chars. by rewrite String.string_of_list_ascii_of_string.
Qed.

Lemma value_name n s fuel depth sel :
  name_ok n → depth ≤ MAX_GRAPHQL_DEPTH → from_option name_byte false (head s) = false →
  Parser.value (S fuel) depth (at_bytes (chars n ++ s) sel) = Ok ((), at_bytes s sel).
Proof.
  intros Hn Hd Hs. pose proof (name_skip n s Hn) as (c & l & Hc & Hstart & Hsk).
  cbn [Parser.value]. destruct (Z.ltb_spec MAX_GRAPHQL_DEPTH depth); [lia|].
  unfold mbind, Parser.M_bind. rewrite peek_at, Hsk.
  replace (head (chars n ++ s)) with (Some c) by (by rewrite Hc).
  apply name_start_value in Hstart as Hp. destruct Hp as (-> & -> & -> & _). rewrite Hstart.
  by rewrite name_at.
Qed.

(** C31: a document is accepted exactly when its bytes spell, with any blanks, commas and
    comments, a list of operation definitions that nests at most 12 deep, selects at most
    256 fields and holds at most 8 operations; the operations reported are those of the
    document, each with its kind, its name and the real names of all its top-level fields. *)
Theorem parse_graphql_exact (document : string) (ops : list GraphqlOperation) :
  parse_graphql document = Ok ops ↔
  slen document ≤ MAX_INSPECTED_BODY_BYTES ∧
  ∃ ds, spells document ds ∧ document_within ds = true ∧ ops = operation_of <$> ds.
Proof. apply parse_graphql_iff. Qed.

Lemma value_brace s fuel depth sel :
  depth ≤ MAX_GRAPHQL_DEPTH →
  Parser.value (S fuel) depth (at_bytes ("{"%char :: s) sel)
  = Parser.until fuel "}" (λ _, Parser.value fuel (depth + 1)) () (at_bytes s sel).
Proof. intros Hd. cbn [Parser.value]. by destruct (Z.ltb_spec MAX_GRAPHQL_DEPTH depth); [lia|]. Qed.

Lemma value_colon s fuel depth sel :
  depth ≤ MAX_GRAPHQL_DEPTH →
  Parser.value (S fuel) depth (at_bytes (":"%char :: s) sel) = Err (Parser.Refused not_parsable).
Proof. intros Hd. cbn [Parser.value]. by destruct (Z.ltb_spec MAX_GRAPHQL_DEPTH depth); [lia|]. Qed.

Lemma until_item {A} fuel close (item : A → Parser.M A) acc s sel c :
  Parser.skip false s = s → head s = Some c → c ≠ close →
  Parser.until (S fuel) close item acc (at_bytes s sel)
  = match item acc (at_bytes s sel) with
    | Ok (acc', p') => Parser.until fuel close item acc' p'
    | Err e => Err e
    end.
Proof.
  intros Hs Hh Hc. cbn [Parser.until]. unfold mbind, Parser.M_bind. rewrite peek_at, Hs, Hh.
  by rewrite decide_False.
Qed.

(** no argument may hold an input object: after [{], a name and a colon the parser
    refuses the document as not parsable, whatever follows. *)
Theorem object_literal_refused (n : string) (r : list ascii) (depth selected : Z) (fuel : nat) :
  name_ok n → depth < MAX_GRAPHQL_DEPTH →
  Parser.value (S (S (S fuel))) depth (at_bytes ("{"%char :: chars n ++ ":"%char :: r) selected)
  = Err (Parser.Refused not_parsable).
Proof.
  intros Hn Hd. pose proof (name_skip n (":"%char :: r) Hn) as (c & l & Hc & Hstart & Hsk).
  rewrite value_brace by lia. rewrite (until_item _ _ _ _ _ _ c); [|done|by rewrite Hc|by intros ->].
  rewrite value_name by (done || lia).
  rewrite (until_item _ _ _ _ _ _ ":"%char) by done. by rewrite value_colon by lia.
Qed.

(** A default value is read only when nothing stands before its equals sign. *)
Lemma default_needs_no_space :
  parse_graphql "query($n: Int = 3) { user }" = Err not_parsable
  ∧ parse_graphql "query($n: Int= 3) { user }"
    = Ok [{| op_kind := Query; op_name := None; op_root_fields := ["user"%string] |}].
Proof. split; vm_compute; reflexivity. Qed.

Lemma object_literal_refused_witness :
  Parser.value 9 0 (at_bytes (chars "{title:1}") 0) = Err (Parser.Refused not_parsable)
  ∧ parse_graphql "mutation { create(input: {title: 1}) { id } }" = Err not_parsable.
Proof.
  split; [|vm_compute; reflexivity].
  apply (object_literal_refused "title" (chars "1}") 0 0 6); [by split_and!|done].
Defined.
