(* ===== verification/L7.v ===== *)
(** * L7: rules for requests the Guard can read

    [crates/aiec-guard/src/l7.rs]: validation of an L7 policy, the verdicts on opaque
    tunnels, HTTP request lines, JSON-RPC and MCP messages and GraphQL documents, and the
    reader of JSON bodies that refuses duplicate keys.  The GraphQL parser is in
    Graphql.v.

    A verdict is total and carries the code's static reason.  [serde_json] is a parameter
    ([SerdeJson]): its parser, seen as the tree of the calls it makes on the visitor.  The
    visitor [StrictJsonVisitor] is modelled.  [permitted] says in one predicate what an L7
    policy lets through, and [request_verdict] decides it. *)

From Stdlib Require Import Ascii.
From S2P Require Import Prelude Policy Graphql.

Definition MAX_JSONRPC_MESSAGES : Z := 64.
Definition MAX_L7_METHOD_BYTES : Z := 64.
Definition MAX_TOOL_NAME_BYTES : Z := 128.
Definition MAX_TARGET_BYTES : Z := 2048.
Definition MAX_L7_RULES : Z := 32.

Inductive Layer := Http | Mcp | LGraphql.
#[global] Instance Layer_eq_dec : EqDecision Layer. Proof. solve_decision. Defined.

Inductive Verdict :=
| VAllow (reason : string)
| VDeny (layer : Layer) (refusal : Refusal) (reason : string).
#[global] Instance Verdict_eq_dec : EqDecision Verdict. Proof. solve_decision. Defined.

Definition allowed (v : Verdict) : bool :=
  match v with VAllow _ => true | VDeny _ _ _ => false end.

Record VisibleRequest := {
  vr_host : string; vr_method : string; vr_path : string; vr_content_type : option string;
  vr_body : option (list ascii) }.

(** ** Text *)
Definition starts_with (p s : list ascii) : bool := bool_decide (take (length p) s = p).
Definition strip_prefix (p s : list ascii) : option (list ascii) :=
  if starts_with p s then Some (drop (length p) s) else None.

(** [str::contains] with a string. *)
Fixpoint contains (needle s : list ascii) : bool :=
  starts_with needle s || match s with [] => false | _ :: s => contains needle s end.

(** [std::str::from_utf8]: the well-formed byte sequences of the Unicode standard. *)
Definition continuation : ascii → bool := in_range 128 191.
Fixpoint valid_utf8 (s : list ascii) : bool :=
  match s with
  | [] => true
  | a :: s1 =>
      if in_range 0 127 a then valid_utf8 s1
      else
        match s1 with
        | b :: s2 =>
            if in_range 194 223 a then continuation b && valid_utf8 s2
            else
              match s2 with
              | c :: s3 =>
                  if (byte_of a =? 224) then in_range 160 191 b && continuation c && valid_utf8 s3
                  else if in_range 225 236 a || in_range 238 239 a
                  then continuation b && continuation c && valid_utf8 s3
                  else if (byte_of a =? 237) then in_range 128 159 b && continuation c && valid_utf8 s3
                  else
                    match s3 with
                    | d :: s4 =>
                        (((byte_of a =? 240) && in_range 144 191 b)
                         || (in_range 241 243 a && continuation b)
                         || ((byte_of a =? 244) && in_range 128 143 b))
                        && continuation c && continuation d && valid_utf8 s4
                    | [] => false
                    end
              | [] => false
              end
        | [] => false
        end
  end.

(** ** Grammars of the rules *)
Definition slash : ascii := "/"%char.

Definition safe_path (path : string) : bool :=
  bool_decide (head (chars path) = Some slash)
  && (slen path <=? MAX_TARGET_BYTES)
  && negb (any_byte (is_char "%") path)
  && negb (any_byte (is_char backslash) path)
  && negb (existsb (λ segment, bool_decide (segment = ["."%char] ∨ segment = [".";"."]%char))
             (split_on slash (chars path)))
  && negb (any_byte (λ b, (byte_of b <=? 32) || (byte_of b =? 127)) path).

Definition valid_rule_path (path : string) : bool := safe_path path && (slen path <=? MAX_PATH_BYTES).

Definition path_matches (rule path : string) : bool :=
  bool_decide (path = rule)
  || (bool_decide (last (chars rule) = Some slash) && starts_with (chars rule) (chars path))
  || match strip_prefix (chars rule) (chars path) with
     | Some rest => bool_decide (head rest = Some slash)
     | None => false
     end.

Definition valid_method (method : string) : bool :=
  negb (is_empty method)
  && (slen method <=? MAX_L7_METHOD_BYTES)
  && all_bytes (λ b, is_ascii_uppercase b || is_ascii_digit b || is_one_of "-_." b) method
  && from_option is_ascii_uppercase false (head (chars method)).

Definition valid_json_rpc_method (method : string) : bool :=
  negb (is_empty method)
  && (slen method <=? MAX_L7_METHOD_BYTES)
  && all_bytes (λ b, is_ascii_alphanumeric b || is_one_of "-_./" b) method.

Definition valid_tool_name (name : string) : bool :=
  negb (is_empty name)
  && (slen name <=? MAX_TOOL_NAME_BYTES)
  && all_bytes (λ b, is_ascii_alphanumeric b || is_one_of "-_." b) name.

Definition valid_graphql_name (name : string) : bool :=
  negb (is_empty name)
  && (slen name <=? MAX_OPERATION_NAME_BYTES)
  && from_option name_start false (head (chars name))
  && all_bytes name_byte name.

Definition media (content_type : string) : list ascii := to_ascii_lowercase <$> chars content_type.

Definition is_json (content_type : option string) (body : list ascii) : bool :=
  match content_type with
  | Some value => contains (chars "json") (media value) || contains (chars "graphql") (media value)
  | None => bool_decide (head body = Some "{"%char ∨ head body = Some "["%char)
  end.

Definition graphql_media_type (content_type : option string) : bool :=
  match content_type with
  | Some value => contains (chars "graphql") (media value)
  | None => false
  end.

(** ** Policies *)
Definition effective_mode (policy : L7Policy) : result GuardError.t L7Mode :=
  match policy.(mode) with
  | Sni => Ok Sni
  | Intercept => if policy.(intercept_ack) then Ok Intercept else Err perr
  end.

Definition validate_http_rule (rule : HttpRule) : result GuardError.t () :=
  let? _ := validate_dns_name rule.(h_host) 2 in
  bail_if (MAX_L7_RULES <? count rule.(h_methods)) || (MAX_L7_RULES <? count rule.(h_paths)) with perr;
  let? _ := each (λ method, bail_if negb (valid_method method) with perr; Ok ()) rule.(h_methods) in
  each (λ path, bail_if negb (valid_rule_path path) with perr; Ok ()) rule.(h_paths).

Definition lowercase (s : string) : string :=
  String.string_of_list_ascii (to_ascii_lowercase <$> chars s).

(** Whether a rule repeats the host of an earlier one. *)
Fixpoint repeats_host (before rules : list HttpRule) : bool :=
  match rules with
  | [] => false
  | r :: rules =>
      existsb (λ b, eq_ignore_case (chars b.(h_host)) (chars (lowercase r.(h_host)))) before
      || repeats_host (before ++ [r]) rules
  end.

Definition validate (policy : L7Policy) : result GuardError.t () :=
  let? _ := effective_mode policy in
  bail_if MAX_L7_RULES <? count policy.(http) with perr;
  let? _ := each validate_http_rule policy.(http) in
  bail_if repeats_host [] policy.(http) with perr;
  let m := policy.(mcp) in
  let? _ := each (λ l, bail_if MAX_L7_RULES <? count l with perr; Ok ())
              [m.(allowed_methods); m.(allowed_tools); m.(denied_tools)] in
  let? _ := each (λ method, bail_if negb (valid_json_rpc_method method) with perr; Ok ())
              m.(allowed_methods) in
  let? _ := each (λ tool, bail_if negb (valid_tool_name tool) with perr; Ok ())
              (m.(allowed_tools) ++ m.(denied_tools)) in
  bail_if existsb (λ tool, bool_decide (tool ∈ m.(denied_tools))) m.(allowed_tools) with perr;
  let g := policy.(graphql) in
  bail_if (MAX_L7_RULES <? count g.(operations)) || (MAX_L7_RULES <? count g.(root_fields)) with perr;
  each (λ name, bail_if negb (valid_graphql_name name) with perr; Ok ())
    (g.(operations) ++ g.(root_fields)).

(** ** JSON bodies *)

(** The calls a JSON document makes on a visitor, as a tree; numbers are opaque. *)
Inductive json (Num : Type) :=
| JNull
| JBool (b : bool)
| JNumber (n : Num)
| JString (s : string)
| JSeq (items : list (json Num))
| JMap (entries : list (string * json Num)).
Arguments JNull {Num}.
Arguments JBool {Num} b.
Arguments JNumber {Num} n.
Arguments JString {Num} s.
Arguments JSeq {Num} items.
Arguments JMap {Num} entries.

(** [serde_json::Value]; an object is a map from keys to values. *)
Inductive Value (Num : Type) :=
| Null
| Bool (b : bool)
| Number (n : Num)
| VString (s : string)
| Array (items : list (Value Num))
| Object (entries : list (string * Value Num)).
Arguments Null {Num}.
Arguments Bool {Num} b.
Arguments Number {Num} n.
Arguments VString {Num} s.
Arguments Array {Num} items.
Arguments Object {Num} entries.

(** [Map::get] and [Map::insert]. *)
Fixpoint get {A} (key : string) (entries : list (string * A)) : option A :=
  match entries with
  | [] => None
  | (k, v) :: entries => if decide (k = key) then Some v else get key entries
  end.
Fixpoint map_insert {A} (key : string) (value : A) (entries : list (string * A)) : list (string * A) :=
  match entries with
  | [] => [(key, value)]
  | (k, v) :: entries =>
      if decide (k = key) then (k, value) :: entries else (k, v) :: map_insert key value entries
  end.
Definition contains_key {A} (key : string) (entries : list (string * A)) : bool :=
  bool_decide (is_Some (get key entries)).

(** The visitor: [None] is the error of a duplicate key. *)
Fixpoint strict {Num} (j : json Num) : option (Value Num) :=
  match j with
  | JNull => Some Null
  | JBool b => Some (Bool b)
  | JNumber n => Some (Number n)
  | JString s => Some (VString s)
  | JSeq items =>
      Array <$> (fix visit_seq items :=
        match items with
        | [] => Some []
        | j :: items => v ← strict j; vs ← visit_seq items; Some (v :: vs)
        end) items
  | JMap entries =>
      Object <$> (fix visit_map seen object entries :=
        match entries with
        | [] => Some object
        | (key, j) :: entries =>
            if bool_decide (key ∈ seen) then None
            else v ← strict j; visit_map (key :: seen) (map_insert key v object) entries
        end) [] [] entries
  end.

(** The JSON parser the visitor is driven by. *)
Class SerdeJson := { Num : Type; parse_json : string → option (json Num) }.

Definition from_str `{SerdeJson} (text : string) : option (Value Num) :=
  j ← parse_json text; strict j.

Definition as_object {Num} (v : Value Num) : option (list (string * Value Num)) :=
  match v with Object entries => Some entries | _ => None end.
Definition as_str {Num} (v : Value Num) : option string :=
  match v with VString s => Some s | _ => None end.

(** [params.name] of a JSON-RPC message. *)
Definition tool_name {Num} (object : list (string * Value Num)) : option string :=
  params ← get "params" object; params ← as_object params; name ← get "name" params; as_str name.

(** ** Verdicts *)
Definition member (name : string) (names : list string) : bool := bool_decide (name ∈ names).

Definition INTERCEPTION_REFUSAL : string :=
  "l7: interception requires l7.intercept_ack: Guard holds a key able to read this traffic".

Definition rule_for (policy : L7Policy) (host : string) : option HttpRule :=
  List.find (λ r, eq_ignore_case (chars r.(h_host)) (chars host)) policy.(http).

Definition tunnel_verdict (policy : option L7Policy) (host : string) : Verdict :=
  match policy with
  | None => VAllow "l7: no layer 7 policy is configured"
  | Some policy =>
      if negb (is_ok (effective_mode policy)) then VDeny Http Forbidden INTERCEPTION_REFUSAL
      else
        match rule_for policy host with
        | None => VAllow "l7: opaque tunnel to a host no http rule governs"
        | Some rule =>
            let governed := negb (bool_decide (rule.(h_methods) = []))
                            || negb (bool_decide (rule.(h_paths) = [])) in
            if bool_decide (policy.(mode) = Intercept) || governed
            then VDeny Http Forbidden
                   "l7: TLS tunnel refused because Guard cannot read this host's method and path"
            else VAllow "l7: opaque tunnel forwarded to a host with no method or path rule"
        end
  end.

Definition http_verdict (policy : L7Policy) (host method path : string) : Verdict :=
  match rule_for policy host with
  | None => VAllow "l7 http: no http rule governs this host"
  | Some rule =>
      if negb (valid_method method)
      then VDeny Http Malformed "l7 http: request method is not an uppercase token"
      else if negb (safe_path path)
      then VDeny Http Malformed "l7 http: request target is not a bounded absolute path"
      else if negb (bool_decide (rule.(h_methods) = [])) && negb (member method rule.(h_methods))
      then VDeny Http Forbidden "l7 http: method is not allowed for this host"
      else if negb (bool_decide (rule.(h_paths) = []))
              && negb (existsb (λ p, path_matches p path) rule.(h_paths))
      then VDeny Http Forbidden "l7 http: path is not allowed for this host"
      else VAllow "l7 http: method and path are allowed for this host"
  end.

Definition message_verdict {Num} (rules : McpRules) (message : Value Num) : Verdict :=
  match message with
  | Object object =>
      if negb (bool_decide (get "jsonrpc" object ≫= as_str = Some "2.0"%string))
      then VDeny Mcp Malformed "l7 mcp: request is not JSON-RPC 2.0"
      else
        match get "method" object with
        | Some (VString method) =>
            if negb (valid_json_rpc_method method)
            then VDeny Mcp Malformed "l7 mcp: method name is not valid"
            else if member method rules.(denied_tools)
            then VDeny Mcp Forbidden "l7 mcp: method name is explicitly denied"
            else if negb (member method rules.(allowed_methods))
            then VDeny Mcp Forbidden "l7 mcp: method is not in the allowed set"
            else if negb (bool_decide (method = "tools/call"%string))
            then VAllow "l7 mcp: method is allowed"
            else
              match tool_name object with
              | None => VDeny Mcp Malformed "l7 mcp: tools/call carries no params.name"
              | Some tool =>
                  if negb (valid_tool_name tool)
                  then VDeny Mcp Malformed "l7 mcp: tool name is not valid"
                  else if member tool rules.(denied_tools)
                  then VDeny Mcp Forbidden "l7 mcp: tool name is explicitly denied"
                  else if negb (member tool rules.(allowed_tools))
                  then VDeny Mcp Forbidden "l7 mcp: tool name is not in the allowed set"
                  else VAllow "l7 mcp: method and tool name are allowed"
              end
        | _ => VDeny Mcp Malformed "l7 mcp: request carries no method name"
        end
  | _ => VDeny Mcp Malformed "l7 mcp: batch member is not a JSON-RPC object"
  end.

Fixpoint batch_verdict {Num} (rules : McpRules) (messages : list (Value Num)) : Verdict :=
  match messages with
  | [] => VAllow "l7 mcp: every message in the batch is allowed"
  | message :: messages =>
      let verdict := message_verdict rules message in
      if negb (allowed verdict) then verdict else batch_verdict rules messages
  end.

Definition mcp_verdict {Num} (rules : McpRules) (value : Value Num) : Verdict :=
  match value with
  | Array messages =>
      if bool_decide (length messages = 0%nat)
      then VDeny Mcp Malformed "l7 mcp: JSON-RPC batch is empty"
      else if MAX_JSONRPC_MESSAGES <? count messages
      then VDeny Mcp TooLarge "l7 mcp: JSON-RPC batch exceeds the message bound"
      else batch_verdict rules messages
  | Object _ => message_verdict rules value
  | _ => VDeny Mcp Malformed "l7 mcp: request body is not a JSON-RPC object or batch"
  end.

(** The checks on one operation; [None] lets it pass. *)
Definition operation_refusal (rules : GraphqlRules) (op : GraphqlOperation) : option Verdict :=
  if bool_decide (op.(op_kind) = Subscription)
  then Some (VDeny LGraphql Forbidden "l7 graphql: subscription is not supported")
  else if bool_decide (op.(op_kind) = Mutation) && negb rules.(allow_mutations)
  then Some (VDeny LGraphql Forbidden "l7 graphql: mutation is not allowed")
  else if negb (bool_decide (rules.(operations) = []))
          && negb (from_option (λ name, member name rules.(operations)) false op.(op_name))
  then Some (VDeny LGraphql Forbidden "l7 graphql: operation name is not allowed")
  else if negb (bool_decide (rules.(root_fields) = [])) && bool_decide (op.(op_root_fields) = [])
  then Some (VDeny LGraphql Forbidden "l7 graphql: operation selects no root field")
  else if negb (bool_decide (rules.(root_fields) = []))
          && existsb (λ field, negb (member field rules.(root_fields))) op.(op_root_fields)
  then Some (VDeny LGraphql Forbidden "l7 graphql: root field is not allowed")
  else None.

Fixpoint operations_verdict (rules : GraphqlRules) (ops : list GraphqlOperation) : Verdict :=
  match ops with
  | [] => VAllow "l7 graphql: every declared operation is allowed"
  | op :: ops =>
      match operation_refusal rules op with
      | Some verdict => verdict
      | None => operations_verdict rules ops
      end
  end.

Definition graphql_verdict (rules : GraphqlRules) (document : string) : Verdict :=
  match parse_graphql document with
  | Err error => VDeny LGraphql error.(refusal) error.(reason)
  | Ok ops =>
      if bool_decide (ops = [])
      then VDeny LGraphql Malformed "l7 graphql: document declares no operation"
      else operations_verdict rules ops
  end.

(** The decision on a parsed JSON body. *)
Definition value_verdict {Num} (policy : L7Policy) (value : Value Num) : Verdict :=
  match value with
  | Object object =>
      if contains_key "query" object && negb (contains_key "method" object)
      then
        match get "query" object with
        | Some (VString document) => graphql_verdict policy.(graphql) document
        | Some _ => VDeny LGraphql Malformed "l7 graphql: query is not a string"
        | None => VAllow "l7: request line allowed and the body governs nothing"
        end
      else if contains_key "method" object || contains_key "jsonrpc" object
      then mcp_verdict policy.(mcp) value
      else VAllow "l7: request line allowed and the body governs nothing"
  | Array messages =>
      if negb (bool_decide (length messages = 0%nat)) then mcp_verdict policy.(mcp) value
      else VAllow "l7: request line allowed and the body governs nothing"
  | _ => VAllow "l7: request line allowed and the body governs nothing"
  end.

Definition body_verdict `{SerdeJson} (policy : L7Policy) (content_type : option string)
    (body : list ascii) : Verdict :=
  let graphql_media := graphql_media_type content_type in
  let text := String.string_of_list_ascii body in
  if negb graphql_media && negb (is_json content_type body)
  then VAllow "l7: request line allowed and the body is not an inspected type"
  else if MAX_INSPECTED_BODY_BYTES <? count body
  then VDeny Mcp TooLarge "l7: request body exceeds the inspection bound"
  else if graphql_media
  then
    if valid_utf8 body then graphql_verdict policy.(graphql) text
    else VDeny LGraphql Malformed "l7 graphql: document is not valid UTF-8"
  else if negb (valid_utf8 body)
  then VDeny Mcp Malformed "l7: request body is not valid UTF-8"
  else
    match from_str text with
    | None => VDeny Mcp Malformed "l7: request body is not JSON without duplicate keys"
    | Some value => value_verdict policy value
    end.

Definition request_verdict `{SerdeJson} (policy : option L7Policy) (request : VisibleRequest) : Verdict :=
  match policy with
  | None => VAllow "l7: no layer 7 policy is configured"
  | Some policy =>
      if negb (is_ok (effective_mode policy)) then VDeny Http Forbidden INTERCEPTION_REFUSAL
      else
        let http := http_verdict policy request.(vr_host) request.(vr_method) request.(vr_path) in
        if negb (allowed http) then http
        else
          match request.(vr_body) with
          | Some ((_ :: _) as body) => body_verdict policy request.(vr_content_type) body
          | _ => VAllow "l7: request line allowed and no body is visible to inspect"
          end
  end.

(** ** What a policy permits *)

(** The document a value was read from. *)
Fixpoint erase {Num} (v : Value Num) : json Num :=
  match v with
  | Null => JNull
  | Bool b => JBool b
  | Number n => JNumber n
  | VString s => JString s
  | Array items => JSeq (List.map erase items)
  | Object entries => JMap (List.map (λ '(k, v), (k, erase v)) entries)
  end.

(** No object of a document, at any depth, repeats a key. *)
Fixpoint distinct_keys {Num} (j : json Num) : bool :=
  match j with
  | JSeq items => forallb distinct_keys items
  | JMap entries => bool_decide (NoDup (List.map fst entries)) && forallb (λ '(_, j), distinct_keys j) entries
  | _ => true
  end.

(** A rule's path covers itself and what lies below it. *)
Definition below (rule path : string) : Prop :=
  ∃ r, chars path = chars rule ++ r
       ∧ (r = [] ∨ last (chars rule) = Some slash ∨ head r = Some slash).

Definition http_permits (policy : L7Policy) (host method path : string) : Prop :=
  ∀ rule, rule_for policy host = Some rule →
    valid_method method = true ∧ safe_path path = true
    ∧ (rule.(h_methods) ≠ [] → method ∈ rule.(h_methods))
    ∧ (rule.(h_paths) ≠ [] → ∃ p, p ∈ rule.(h_paths) ∧ below p path).

Definition mcp_permits {Num} (rules : McpRules) (message : Value Num) : Prop :=
  ∃ object method, message = Object object
    ∧ get "jsonrpc" object = Some (VString "2.0") ∧ get "method" object = Some (VString method)
    ∧ valid_json_rpc_method method = true
    ∧ (method ∉ rules.(denied_tools)) ∧ method ∈ rules.(allowed_methods)
    ∧ (method = "tools/call"%string → ∃ tool, tool_name object = Some tool
         ∧ valid_tool_name tool = true ∧ (tool ∉ rules.(denied_tools)) ∧ tool ∈ rules.(allowed_tools)).

Definition kind_of (d : Grammar.definition) : GraphqlKind := (Grammar.operation_of d).(op_kind).
Definition name_of (d : Grammar.definition) : option string := (Grammar.operation_of d).(op_name).

Definition definition_permitted (rules : GraphqlRules) (d : Grammar.definition) : Prop :=
  kind_of d ≠ Subscription
  ∧ (kind_of d = Mutation → rules.(allow_mutations) = true)
  ∧ (rules.(operations) ≠ [] → ∃ name, name_of d = Some name ∧ name ∈ rules.(operations))
  ∧ (rules.(root_fields) ≠ [] →
       Grammar.sels_of d ≠ []
       ∧ ∀ x, x ∈ Grammar.sels_of d → Grammar.sel_field x ∈ rules.(root_fields)).

Definition graphql_permits (rules : GraphqlRules) (document : string) : Prop :=
  slen document ≤ MAX_INSPECTED_BODY_BYTES ∧
  ∃ ds, Grammar.spells document ds ∧ Grammar.document_within ds = true ∧ ds ≠ []
        ∧ ∀ d, d ∈ ds → definition_permitted rules d.

Definition value_permits {Num} (policy : L7Policy) (value : Value Num) : Prop :=
  match value with
  | Object object =>
      if contains_key "query" object && negb (contains_key "method" object)
      then (∃ document, get "query" object = Some (VString document)
                        ∧ graphql_permits policy.(graphql) document)
      else (contains_key "method" object || contains_key "jsonrpc" object = true →
            mcp_permits policy.(mcp) value)
  | Array messages =>
      messages ≠ [] →
      (count messages ≤ MAX_JSONRPC_MESSAGES ∧ ∀ m, m ∈ messages → mcp_permits policy.(mcp) m)
  | _ => True
  end.

(** Whether the body is of a kind that is inspected at all. *)
Definition inspected (content_type : option string) (body : list ascii) : bool :=
  graphql_media_type content_type || is_json content_type body.

Definition body_permits `{SerdeJson} (policy : L7Policy) (content_type : option string)
    (body : list ascii) : Prop :=
  let text := String.string_of_list_ascii body in
  inspected content_type body = true →
  count body ≤ MAX_INSPECTED_BODY_BYTES ∧ valid_utf8 body = true
  ∧ (if graphql_media_type content_type then graphql_permits policy.(graphql) text
     else ∃ j v, parse_json text = Some j ∧ distinct_keys j = true ∧ erase v = j
                 ∧ value_permits policy v).

Definition permitted `{SerdeJson} (policy : L7Policy) (r : VisibleRequest) : Prop :=
  (policy.(mode) = Intercept → policy.(intercept_ack) = true)
  ∧ http_permits policy r.(vr_host) r.(vr_method) r.(vr_path)
  ∧ ∀ body, r.(vr_body) = Some body → body ≠ [] → body_permits policy r.(vr_content_type) body.

(** ** Lemmas *)
Lemma starts_with_spec p s : starts_with p s = true ↔ ∃ r, s = p ++ r.
Proof.
  unfold starts_with. rewrite bool_decide_eq_true. split.
  - intros H. exists (drop (length p) s). by rewrite <-H at 1; rewrite take_drop.
  - intros [r ->]. by rewrite take_app_length.
Qed.

Lemma path_matches_below rule path : path_matches rule path = true ↔ below rule path.
Proof.
  unfold path_matches, below, strip_prefix.
  rewrite !orb_true_iff, andb_true_iff, !bool_decide_eq_true, starts_with_spec. split.
  - intros [[->|[Hl [r Hr]]]|H].
    + exists []. rewrite app_nil_r. auto.
    + exists r. auto.
    + destruct (starts_with _ _) eqn:Hs; [|done]. apply bool_decide_eq_true in H.
      apply starts_with_spec in Hs as [r Hr]. rewrite Hr, drop_app_length in H. exists r. auto.
  - intros (r & Hr & [->|[Hl|Hh]]).
    + left; left. apply chars_inj. by rewrite Hr, app_nil_r.
    + left; right. eauto.
    + right. assert (starts_with (chars rule) (chars path) = true) as ->
        by (apply starts_with_spec; eauto).
      apply bool_decide_eq_true. by rewrite Hr, drop_app_length.
Qed.

Lemma map_insert_fresh {A} k (v : A) l : k ∉ List.map fst l → map_insert k v l = l ++ [(k, v)].
Proof.
  induction l as [|[k' v'] l IH]; simpl; intros Hk; [done|]. apply not_elem_of_cons in Hk as [Hne Hk].
  rewrite decide_False by congruence. by rewrite IH.
Qed.

(** The loops of the visitor, by themselves. *)
Definition strict_ok {Num} (j : json Num) : Prop :=
  ∀ v, strict j = Some v ↔ (distinct_keys j = true ∧ erase v = j).

Lemma visit_seq_exact {Num} (items : list (json Num)) vs :
  list_all _ strict_ok items →
  ((fix visit_seq items :=
     match items with
     | [] => Some []
     | j :: items => v ← strict j; vs ← visit_seq items; Some (v :: vs)
     end) items = Some vs)
  ↔ (forallb distinct_keys items = true ∧ List.map erase vs = items).
Proof.
  intros Hall. revert vs. induction Hall as [|j Hj items _ IH]; intros vs.
  { simpl. split; [by intros [= <-]|]. intros [_ H]. by destruct vs. }
  simpl. split.
  - intros (v & Hv & (vs' & Hvs & [= <-])%bind_Some)%bind_Some. apply Hj in Hv as [Hd <-].
    apply IH in Hvs as [Hds <-]. simpl. by rewrite Hd, Hds.
  - intros [[Hd Hds]%andb_true_iff Hm]. destruct vs as [|v vs]; [done|]. injection Hm as <- <-.
    destruct (Hj v) as [_ Hv]. rewrite (Hv (conj Hd eq_refl)). simpl.
    destruct (IH vs) as [_ Hvs]. by rewrite (Hvs (conj Hds eq_refl)).
Qed.

Definition keys {A} (entries : list (string * A)) : list string := List.map fst entries.

Lemma visit_map_exact {Num} (entries : list (string * json Num)) seen object out :
  list_all _ (prod_all _ (λ _, unit) _ strict_ok) entries →
  (∀ k, k ∈ seen ↔ k ∈ keys object) →
  ((fix visit_map seen object entries :=
     match entries with
     | [] => Some object
     | (key, j) :: entries =>
         if bool_decide (key ∈ seen) then None
         else v ← strict j; visit_map (key :: seen) (map_insert key v object) entries
     end) seen object entries = Some out)
  ↔ (NoDup (keys entries) ∧ (∀ k, k ∈ keys entries → k ∉ seen)
     ∧ forallb (λ '(_, j), distinct_keys j) entries = true
     ∧ ∃ vs, out = object ++ vs ∧ List.map (λ '(k, v), (k, erase v)) vs = entries).
Proof.
  intros Hall. revert seen object out. induction Hall as [|[key j] Hj entries _ IH]; intros seen object out Hseen.
  { simpl. split.
    - intros [= <-]. split_and!; [constructor|set_solver|done|]. exists []. by rewrite app_nil_r.
    - intros (_ & _ & _ & vs & -> & Hvs). destruct vs; [|done]. by rewrite app_nil_r. }
  inversion Hj as [? _ ? Hok]; subst. simpl. unfold keys in *. case_bool_decide as Hkey.
  { split; [done|]. intros (_ & Hno & _). by destruct (Hno key ltac:(left)). }
  assert (Hfresh : key ∉ List.map fst object) by (by rewrite <-Hseen).
  rewrite NoDup_cons, andb_true_iff. split.
  - intros (v & Hv & Hrest)%bind_Some. apply Hok in Hv as [Hd <-].
    rewrite map_insert_fresh in Hrest by done. apply IH in Hrest as (Hnd & Hno & Hds & vs & -> & <-).
    + split_and!; [|done| |done|done|].
      * intros Hin. by apply (Hno key); [|left].
      * set_solver.
      * exists ((key, v) :: vs). by rewrite <-app_assoc.
    + intros k. rewrite List.map_app. simpl. set_solver.
  - intros ([Hnk Hnd] & Hno & [Hd Hds] & vs & -> & Hvs). destruct vs as [|[k v] vs]; [done|].
    injection Hvs as -> <- <-. destruct (Hok v) as [_ Hv]. rewrite (Hv (conj Hd eq_refl)). simpl.
    rewrite map_insert_fresh by done. apply IH.
    + intros k. rewrite List.map_app. simpl. set_solver.
    + split_and!; [done| |done|].
      * intros k Hk. apply not_elem_of_cons. split; [by intros ->|]. apply Hno. by right.
      * exists vs. by rewrite <-app_assoc.
Qed.

Lemma strict_exact {Num} (j : json Num) : strict_ok j.
Proof.
  induction j as [|b|n|s|items IH|entries IH]; intros v.
  1-4: simpl; split; [by intros [= <-]|]; intros [_ H]; destruct v; simpl in H; congruence.
  - cbn [strict distinct_keys]. split.
    + intros (vs & [Hd <-]%visit_seq_exact & ->)%fmap_Some; [|done]. by rewrite Hd.
    + intros [Hd He]. destruct v; try discriminate He. injection He as <-.
      apply fmap_Some. eexists. split; [by apply visit_seq_exact|done].
  - cbn [strict distinct_keys]. split.
    + intros (vs & (Hnd & _ & Hd & vs' & -> & <-)%visit_map_exact & ->)%fmap_Some; [|done|by intros].
      split; [|done]. by rewrite Hd, bool_decide_true.
    + intros [[Hnd Hd]%andb_true_iff He]. apply bool_decide_eq_true in Hnd.
      destruct v; try discriminate He. injection He as <-.
      apply fmap_Some. eexists. split; [|done]. apply visit_map_exact; [done|by intros|].
      split_and!; [done|intros ? _; apply not_elem_of_nil|done|by eexists].
Qed.

Lemma member_true name names : member name names = true ↔ name ∈ names.
Proof. apply bool_decide_eq_true. Qed.

Lemma allowed_unless (b : bool) layer refusal reason v :
  allowed (if b then VDeny layer refusal reason else v) = negb b && allowed v.
Proof. by destruct b. Qed.

Lemma unless_listed {A} `{EqDecision A} (l : list A) (b : bool) (P : Prop) :
  (b = true ↔ P) → negb (negb (bool_decide (l = [])) && negb b) = true ↔ (l ≠ [] → P).
Proof. intros <-. case_bool_decide; destruct b; simpl; tauto. Qed.

Lemma http_verdict_permits policy host method path :
  allowed (http_verdict policy host method path) = true ↔ http_permits policy host method path.
Proof.
  unfold http_verdict, http_permits. destruct (rule_for policy host) as [rule|]; [|by split].
  rewrite !allowed_unless, !andb_true_iff, !negb_involutive.
  rewrite (unless_listed _ _ _ (member_true method _)).
  rewrite (unless_listed _ _ (∃ p, p ∈ rule.(h_paths) ∧ below p path)).
  2: { rewrite existsb_Exists, Exists_exists. by setoid_rewrite path_matches_below. }
  split; [|intros H; specialize (H rule eq_refl); simpl; tauto].
  intros (? & ? & ? & ? & _) rule' [= <-]. tauto.
Qed.

Lemma tool_verdict {Num} rules (object : list (string * Value Num)) :
  allowed (match tool_name object with
           | None => VDeny Mcp Malformed "l7 mcp: tools/call carries no params.name"
           | Some tool =>
               if negb (valid_tool_name tool)
               then VDeny Mcp Malformed "l7 mcp: tool name is not valid"
               else if member tool rules.(denied_tools)
               then VDeny Mcp Forbidden "l7 mcp: tool name is explicitly denied"
               else if negb (member tool rules.(allowed_tools))
               then VDeny Mcp Forbidden "l7 mcp: tool name is not in the allowed set"
               else VAllow "l7 mcp: method and tool name are allowed"
           end) = true
  ↔ ∃ tool, tool_name object = Some tool
       ∧ valid_tool_name tool = true ∧ (tool ∉ rules.(denied_tools)) ∧ tool ∈ rules.(allowed_tools).
Proof.
  destruct (tool_name object) as [tool|]; [|split; [done|by intros (? & ? & _)]].
  rewrite !allowed_unless, !andb_true_iff, !negb_involutive, negb_true_iff, member_true.
  unfold member. rewrite bool_decide_eq_false. split; [naive_solver|].
  intros (tool' & [= <-] & ? & ? & ?). auto.
Qed.

Lemma message_verdict_permits {Num} rules (message : Value Num) :
  allowed (message_verdict rules message) = true ↔ mcp_permits rules message.
Proof.
  unfold message_verdict, mcp_permits.
  destruct message as [|b|n|s|items|object]; try (by split; [|intros (? & ? & ? & _)]).
  assert (Hrpc : get "jsonrpc" object ≫= as_str = Some "2.0"%string
                 ↔ get "jsonrpc" object = Some (VString "2.0")).
  { destruct (get "jsonrpc" object) as [[]|]; simpl; split; congruence. }
  rewrite allowed_unless, andb_true_iff, negb_involutive, bool_decide_eq_true, Hrpc.
  destruct (get "method" object) as [[| | |method| |]|] eqn:Hmethod;
    try (by split; [intros [_ ?]|intros (? & ? & [= <-] & _ & H & _); rewrite Hmethod in H]).
  rewrite !allowed_unless, !andb_true_iff, !negb_involutive, negb_true_iff, member_true.
  unfold member at 1. rewrite bool_decide_eq_false. split.
  - intros (Hj & Hv & Hd & Ha & Ht). exists object, method. split_and!; try done.
    intros ->. rewrite bool_decide_true in Ht by done. by apply tool_verdict.
  - intros (object' & method' & [= <-] & Hj & Hm & Hv & Hd & Ha & Ht). rewrite Hmethod in Hm.
    injection Hm as <-. split_and!; try done. case_bool_decide; [|done]. by apply tool_verdict, Ht.
Qed.

Lemma batch_verdict_permits {Num} rules (messages : list (Value Num)) :
  allowed (batch_verdict rules messages) = true ↔ ∀ m, m ∈ messages → mcp_permits rules m.
Proof.
  induction messages as [|m messages IH]; simpl; [split; [by intros _ ? ?%elem_of_nil|done]|].
  setoid_rewrite elem_of_cons. pose proof (message_verdict_permits rules m) as Hm.
  destruct (allowed (message_verdict rules m)) eqn:Ha; simpl; [rewrite IH|rewrite Ha]; naive_solver.
Qed.

Lemma root_fields_nil sels : Grammar.root_fields_of sels = [] ↔ sels = [].
Proof.
  split; [|by intros ->]. intros H. destruct sels as [|x l]; [done|].
  assert (Hx : Grammar.sel_field x ∈ Grammar.root_fields_of (x :: l))
    by (apply elem_of_root_fields; exists x; split; [left|done]).
  rewrite H in Hx. by apply elem_of_nil in Hx.
Qed.

Lemma none_unless {A} (b : bool) (v : A) k : (if b then Some v else k) = None ↔ b = false ∧ k = None.
Proof. destruct b; naive_solver. Qed.

Lemma operation_refusal_none rules d :
  operation_refusal rules (Grammar.operation_of d) = None ↔ definition_permitted rules d.
Proof.
  unfold operation_refusal, definition_permitted. fold (kind_of d) (name_of d).
  replace (Grammar.operation_of d).(op_root_fields) with (Grammar.root_fields_of (Grammar.sels_of d))
    by (by destruct d).
  rewrite !none_unless, bool_decide_eq_false.
  rewrite <-(negb_true_iff (negb (bool_decide (operations rules = [])) && _)).
  rewrite (unless_listed _ _ (∃ name, name_of d = Some name ∧ name ∈ operations rules)).
  2: { destruct (name_of d); simpl; [rewrite member_true|]; naive_solver. }
  set (no_root := bool_decide (Grammar.root_fields_of _ = [])).
  assert (Hroot : no_root = true ↔ Grammar.sels_of d = [])
    by (unfold no_root; rewrite bool_decide_eq_true; apply root_fields_nil).
  set (bad := existsb _ (Grammar.root_fields_of _)).
  assert (Hall : bad = false ↔ ∀ x, x ∈ Grammar.sels_of d → Grammar.sel_field x ∈ root_fields rules).
  { unfold bad. rewrite existsb_false, Forall_forall. setoid_rewrite elem_of_root_fields.
    setoid_rewrite negb_false_iff. setoid_rewrite member_true. naive_solver. }
  clearbody no_root bad. destruct no_root, bad, (allow_mutations rules), (kind_of d);
    simpl; repeat case_bool_decide; simpl in *; intuition congruence.
Qed.

Lemma operation_refusal_denies rules op v : operation_refusal rules op = Some v → allowed v = false.
Proof.
  unfold operation_refusal. intros H.
  repeat match type of H with (if ?b then _ else _) = _ => destruct b; [by injection H as <-|] end.
  done.
Qed.

Lemma operations_verdict_permits rules ds :
  allowed (operations_verdict rules (Grammar.operation_of <$> ds)) = true
  ↔ ∀ d, d ∈ ds → definition_permitted rules d.
Proof.
  induction ds as [|d ds IH]; [split; [by intros _ ? ?%elem_of_nil|done]|].
  rewrite fmap_cons. cbn [operations_verdict]. setoid_rewrite elem_of_cons.
  pose proof (operation_refusal_none rules d) as Hd.
  destruct (operation_refusal rules (Grammar.operation_of d)) as [v|] eqn:Hv; [|rewrite IH; naive_solver].
  split; [|naive_solver]. intros Ha.
  assert (allowed v = false) by (by eapply operation_refusal_denies). congruence.
Qed.

Lemma graphql_verdict_permits rules document :
  allowed (graphql_verdict rules document) = true ↔ graphql_permits rules document.
Proof.
  unfold graphql_verdict, graphql_permits. destruct (parse_graphql document) as [ops|e] eqn:Hp.
  - pose proof Hp as Hp'. apply parse_graphql_iff in Hp as (Hlen & ds & Hs & Hw & ->).
    case_bool_decide as Hnil.
    + split; [done|]. intros (_ & ds' & Hs' & Hw' & Hne & _). exfalso. apply Hne.
      apply (reading_unambiguous _ ds ds' Hlen Hs Hs' Hw) in Hw'. rewrite Hnil in Hw'.
      by destruct ds'.
    + rewrite operations_verdict_permits. split.
      * intros Hall. split; [done|]. exists ds. split_and!; [done|done|by intros ->|done].
      * intros (_ & ds' & Hs' & Hw' & _ & Hall). apply operations_verdict_permits.
        rewrite (reading_unambiguous _ _ _ Hlen Hs Hs' Hw Hw'). by apply operations_verdict_permits.
  - split; [done|]. intros (Hlen & ds & Hs & Hw & _).
    assert (parse_graphql document = Ok (Grammar.operation_of <$> ds)) by (apply parse_graphql_iff; eauto).
    congruence.
Qed.

Lemma value_verdict_permits {Num} policy (v : Value Num) :
  allowed (value_verdict policy v) = true ↔ value_permits policy v.
Proof.
  unfold value_verdict, value_permits. destruct v as [|b|n|s|messages|object]; try by split.
  - assert (Hn : length messages = 0%nat ↔ messages = []) by (destruct messages; split; done).
    case_bool_decide as Hnil; simpl; [split; [by intros _ []; apply Hn|done]|].
    rewrite bool_decide_false, allowed_unless, andb_true_iff, negb_true_iff, Z.ltb_ge,
      batch_verdict_permits by done.
    split; [by intros H _|]. intros H. apply H. by rewrite <-Hn.
  - destruct (contains_key "query" object && negb (contains_key "method" object)) eqn:Hq.
    + destruct (get "query" object) as [[| | |document| |]|] eqn:Hget;
        try (split; [done|by intros (? & ? & _)]).
      * rewrite graphql_verdict_permits. split; [eauto|]. by intros (? & [= <-] & ?).
      * apply andb_true_iff in Hq as [Hq _]. unfold contains_key in Hq. rewrite Hget in Hq. done.
    + destruct (contains_key "method" object || contains_key "jsonrpc" object) eqn:Hm; [|by split].
      cbn [mcp_verdict]. rewrite message_verdict_permits. split; [done|auto].
Qed.

Lemma body_verdict_permits `{SerdeJson} policy content_type body :
  allowed (body_verdict policy content_type body) = true ↔ body_permits policy content_type body.
Proof.
  unfold body_verdict, body_permits, inspected. rewrite <-negb_orb.
  destruct (graphql_media_type content_type || is_json content_type body) eqn:Hi; simpl; [|by split].
  rewrite allowed_unless, andb_true_iff, negb_true_iff, Z.ltb_ge.
  destruct (graphql_media_type content_type).
  - destruct (valid_utf8 body); [|split; [by intros [_ ?]|intros Hp; by destruct (Hp eq_refl) as (_ & ? & _)]].
    rewrite graphql_verdict_permits. naive_solver.
  - rewrite allowed_unless, andb_true_iff, negb_involutive. unfold from_str.
    split.
    + intros (Hlen & Hutf & Hv) _. split_and!; [done|done|].
      destruct (parse_json _) as [j|]; [|done]. simpl in Hv. destruct (strict j) as [v|] eqn:Hs; [|done].
      apply strict_exact in Hs as [Hd He]. exists j, v. split_and!; try done. by apply value_verdict_permits.
    + intros Hp. destruct (Hp eq_refl) as (Hlen & Hutf & j & v & Hj & Hd & He & Hv).
      split_and!; [done|done|]. rewrite Hj. simpl.
      assert (strict j = Some v) as -> by (by apply strict_exact). by apply value_verdict_permits.
Qed.

(** ** Segments of a path *)
(** The segments a rule names: a trailing slash stands for whatever follows. *)
Definition rule_segments (rule : string) : list (list ascii) :=
  let segments := split_on slash (chars rule) in
  if bool_decide (last (chars rule) = Some slash) then removelast segments else segments.

Fixpoint join_on (c : ascii) (parts : list (list ascii)) : list ascii :=
  match parts with
  | [] => []
  | [p] => p
  | p :: parts => p ++ c :: join_on c parts
  end.

Lemma split_on_cons c s : ∃ p ps, split_on c s = p :: ps.
Proof. pose proof (split_on_nonempty c s). destruct (split_on c s); [done|eauto]. Qed.

Lemma join_split_on c s : join_on c (split_on c s) = s.
Proof.
  induction s as [|b s IH]; [done|]. simpl. destruct (split_on_cons c s) as (p & ps & Hs).
  rewrite Hs in IH |- *. destruct (decide (b = c)) as [->|]; [by rewrite <-IH|].
  destruct ps; simpl in *; by rewrite <-IH.
Qed.

Lemma join_on_app c ps qs : ps ≠ [] → qs ≠ [] → join_on c (ps ++ qs) = join_on c ps ++ c :: join_on c qs.
Proof.
  intros Hp Hq. induction ps as [|p ps IH]; [done|]. destruct ps as [|p' ps].
  - destruct qs; [done|]. done.
  - change (join_on c ((p :: p' :: ps) ++ qs)) with (p ++ c :: join_on c ((p' :: ps) ++ qs)).
    rewrite IH by done. by rewrite app_comm_cons, app_assoc.
Qed.

Lemma split_on_mid c s t : split_on c (s ++ c :: t) = split_on c s ++ split_on c t.
Proof.
  induction s as [|b s IH]; simpl; [by rewrite decide_True|]. rewrite IH.
  case_decide; [done|]. by destruct (split_on_cons c s) as (p & ps & ->).
Qed.

Lemma below_segments rule path :
  below rule path ↔ ∃ tail, split_on slash (chars path) = rule_segments rule ++ tail
                            ∧ (last (chars rule) = Some slash → tail ≠ []).
Proof.
  unfold below, rule_segments. case_bool_decide as Hl.
  - apply last_Some in Hl as Hr. destruct Hr as [r0 Hr]. rewrite Hr, split_on_mid.
    change (split_on slash []) with ([[]] : list (list ascii)). rewrite List.removelast_last. split.
    + intros (r & Hp & _). exists (split_on slash r). rewrite Hp, <-app_assoc. simpl.
      rewrite split_on_mid. split; [done|]. intros _. apply split_on_nonempty.
    + intros (tail & Ht & Hne). rewrite last_snoc in Hne. specialize (Hne eq_refl).
      exists (join_on slash tail). rewrite last_snoc. split; [|auto].
      rewrite <-(join_split_on slash (chars path)), Ht, join_on_app, join_split_on, <-app_assoc;
        [done|apply split_on_nonempty|done].
  - split.
    + intros (r & Hp & [->|[?|Hh]]); [|done|].
      * exists []. rewrite app_nil_r in Hp. by rewrite Hp, app_nil_r.
      * destruct r as [|b r]; [done|]. injection Hh as ->. exists (split_on slash r).
        by rewrite Hp, split_on_mid.
    + intros (tail & Ht & _). destruct (decide (tail = [])) as [->|Hne].
      * exists []. split; [|auto]. rewrite app_nil_r in *.
        by rewrite <-(join_split_on slash (chars path)), Ht, join_split_on.
      * exists (slash :: join_on slash tail). split; [|auto].
        rewrite <-(join_split_on slash (chars path)), Ht, join_on_app, join_split_on;
          [done|apply split_on_nonempty|done].
Qed.

(** ** Well-formed policies *)
Definition http_rule_ok (r : HttpRule) : Prop :=
  canonical_name r.(h_host) 2
  ∧ count r.(h_methods) ≤ MAX_L7_RULES ∧ count r.(h_paths) ≤ MAX_L7_RULES
  ∧ Forall (λ m, valid_method m = true) r.(h_methods)
  ∧ Forall (λ p, valid_rule_path p = true) r.(h_paths).

(** What validation guarantees of an L7 policy; in particular no host is governed by
    two rules, and no tool is both allowed and denied. *)
Definition l7_well_formed (p : L7Policy) : Prop :=
  (p.(mode) = Intercept → p.(intercept_ack) = true)
  ∧ count p.(http) ≤ MAX_L7_RULES ∧ Forall http_rule_ok p.(http)
  ∧ (∀ i j r s host, p.(http) !! i = Some r → p.(http) !! j = Some s →
       eq_ignore_case (chars r.(h_host)) (chars host) = true →
       eq_ignore_case (chars s.(h_host)) (chars host) = true → i = j)
  ∧ Forall (λ m, valid_json_rpc_method m = true) p.(mcp).(allowed_methods)
  ∧ Forall (λ t, valid_tool_name t = true) p.(mcp).(allowed_tools)
  ∧ (∀ t, t ∈ p.(mcp).(allowed_tools) → t ∉ p.(mcp).(denied_tools))
  ∧ Forall (λ n, valid_graphql_name n = true) (p.(graphql).(operations) ++ p.(graphql).(root_fields)).

Lemma bail_each {A} (f : A → bool) l :
  each (λ x, bail_if negb (f x) with perr; Ok ()) l = Ok () ↔ Forall (λ x, f x = true) l.
Proof.
  rewrite each_ok. apply Forall_proper; [|done]. intros x. destruct (f x); simpl; by split.
Qed.

Lemma eq_ignore_case_iff canonical query :
  eq_ignore_case canonical query = true
  ↔ to_ascii_lowercase <$> canonical = to_ascii_lowercase <$> strip_trailing_dot query.
Proof.
  unfold eq_ignore_case, eq_ignore_ascii_case.
  rewrite andb_true_iff, bool_decide_eq_true, Z.eqb_eq. split; [tauto|]. intros H. split; [|done].
  apply (f_equal length) in H. rewrite !length_fmap in H. unfold count. lia.
Qed.

Lemma canonical_lower raw n :
  canonical_name raw n → lower raw = chars raw ∧ strip_trailing_dot (chars raw) = chars raw.
Proof.
  intros (_ & labels & Hne & Hraw & _ & Hf & _). split.
  - unfold lower. rewrite <-(map_id (chars raw)) at 2. apply list_fmap_ext. intros _ b Hb%list_elem_of_lookup_2.
    rewrite Hraw in Hb. apply good_labels_bytes in Hb; [|done]. apply Policy.name_byte in Hb as (_ & Hb & _).
    unfold to_ascii_lowercase. by rewrite Hb.
  - unfold strip_trailing_dot. rewrite bool_decide_false; [done|]. rewrite Hraw. by apply good_labels_last.
Qed.

Lemma repeats_host_false before rules :
  repeats_host before rules = false →
  ∀ i r, rules !! i = Some r →
  Forall (λ b, eq_ignore_case (chars b.(h_host)) (chars (lowercase r.(h_host))) = false)
    (before ++ take i rules).
Proof.
  revert before. induction rules as [|r0 rules IH]; intros before H i r Hi; [done|]. simpl in H.
  apply orb_false_iff in H as [H1 H2]. destruct i as [|i]; simpl in Hi.
  - injection Hi as ->. rewrite app_nil_r. by apply existsb_false.
  - specialize (IH _ H2 i r Hi). by rewrite <-app_assoc in IH.
Qed.

Lemma same_host_again r s host n m :
  canonical_name r.(h_host) n → canonical_name s.(h_host) m →
  eq_ignore_case (chars r.(h_host)) (chars host) = true →
  eq_ignore_case (chars s.(h_host)) (chars host) = true →
  eq_ignore_case (chars r.(h_host)) (chars (lowercase s.(h_host))) = true.
Proof.
  intros Hr%canonical_lower Hs%canonical_lower H1%eq_ignore_case_iff H2%eq_ignore_case_iff.
  destruct Hr as [Hr _], Hs as [Hs Hstrip]. apply eq_ignore_case_iff. unfold lowercase, lower in *.
  rewrite chars_of, Hs, Hstrip. congruence.
Qed.

Lemma validate_http_rule_ok r : validate_http_rule r = Ok () → http_rule_ok r.
Proof.
  unfold validate_http_rule. intros H. ok_inv H. bools.
  split_and!; [by apply validate_dns_name_iff|by apply Z.ltb_ge|by apply Z.ltb_ge|by apply bail_each|by apply bail_each].
Qed.

Lemma validate_l7_ok p : validate p = Ok () → l7_well_formed p.
Proof.
  unfold validate. intros H. cbv zeta in H. ok_inv H. bools.
  apply each_ok in Hok0. assert (Hrules : Forall http_rule_ok p.(http)).
  { eapply Forall_impl; [exact Hok0|]. apply validate_http_rule_ok. }
  apply bail_each in Hok2, Hok3, H. apply Forall_app in Hok3 as [Ht _]. split_and!; try done.
  - intros Hm. unfold effective_mode in Hok. rewrite Hm in Hok. by destruct (intercept_ack p).
  - by apply Z.ltb_ge.
  - rewrite Forall_forall in Hrules.
    assert (Hlt : ∀ i j r s host, (i < j)%nat → http p !! i = Some r → http p !! j = Some s →
      eq_ignore_case (chars r.(h_host)) (chars host) = true →
      eq_ignore_case (chars s.(h_host)) (chars host) = true → False).
    { intros i j r s host Hij Hr Hs Hm1 Hm2. pose proof (repeats_host_false _ _ Hif0 j s Hs) as Hall.
      rewrite Forall_forall in Hall. simpl in Hall.
      destruct (Hrules r) as [Hcr _]; [by eapply list_elem_of_lookup_2|].
      destruct (Hrules s) as [Hcs _]; [by eapply list_elem_of_lookup_2|].
      pose proof (same_host_again r s host 2 2 Hcr Hcs Hm1 Hm2) as Heq. rewrite (Hall r) in Heq; [done|].
      apply (list_elem_of_lookup_2 _ i). by rewrite lookup_take_lt. }
    intros i j r s host Hr Hs Hm1 Hm2. destruct (Nat.lt_total i j) as [Hl|[Hl|Hl]]; [|done|].
    + by destruct (Hlt i j r s host).
    + by destruct (Hlt j i s r host).
  - intros t Ht' Hd. rewrite existsb_false, Forall_forall in Hif1. specialize (Hif1 t Ht').
    by apply bool_decide_eq_false in Hif1.
Qed.

(** ** Theorems *)

(** C27: a request the Guard can read is let through exactly when the policy permits it:
    the interception mode is acknowledged, the rule for the host lists the method and a
    path the target lies below, and a non-empty body of an inspected kind is UTF-8, within
    the bound, JSON without a repeated key or a GraphQL document, and each JSON-RPC
    message and each operation in it is one the rules allow. *)
Theorem request_allowed_iff_permitted `{SerdeJson} (policy : L7Policy) (r : VisibleRequest) :
  allowed (request_verdict (Some policy) r) = true ↔ permitted policy r.
Proof.
  unfold request_verdict, permitted. rewrite allowed_unless, andb_true_iff, negb_involutive.
  assert (Hmode : is_ok (effective_mode policy) = true
                  ↔ (mode policy = Intercept → intercept_ack policy = true)).
  { unfold effective_mode. destruct (mode policy), (intercept_ack policy); simpl; naive_solver. }
  rewrite Hmode. apply and_iff_compat_l. rewrite <-http_verdict_permits.
  destruct (allowed (http_verdict policy (vr_host r) (vr_method r) (vr_path r))) eqn:Hh; cbn [negb].
  2: { rewrite Hh. split; [done|by intros [? _]]. }
  destruct (vr_body r) as [[|b body]|].
  - split; [|done]. intros _. split; [done|]. by intros ? [= <-] [].
  - rewrite body_verdict_permits. split.
    + intros Hb. split; [done|]. by intros ? [= <-] _.
    + intros [_ Hb]. by apply Hb.
  - by split.
Qed.

(** the JSON reader accepts a document exactly when no object in it, at any depth,
    repeats a key, and then the value it returns is the document unchanged, so that a
    server that keeps the first and one that keeps the last of two equal keys read the
    same request as the Guard. *)
Theorem from_str_exact `{SerdeJson} (text : string) (v : Value Num) :
  from_str text = Some v ↔
  ∃ j, parse_json text = Some j ∧ distinct_keys j = true ∧ erase v = j.
Proof.
  unfold from_str. rewrite bind_Some. split; intros (j & Hj & Hv); exists j.
  - apply strict_exact in Hv as [Hd He]. auto.
  - destruct Hv as [Hd He]. split; [done|]. by apply strict_exact.
Qed.

(** a rule's path covers a target exactly when its segments are the first segments of
    the target, with at least one more where the rule ends in a slash; never when it is
    only a prefix of the text. *)
Theorem path_matches_segments (rule path : string) :
  path_matches rule path = true ↔
  ∃ tail, split_on slash (chars path) = rule_segments rule ++ tail
          ∧ (last (chars rule) = Some slash → tail ≠ []).
Proof. by rewrite path_matches_below, below_segments. Qed.

(** a validated L7 policy is well formed: bounded lists, canonical hosts, no host under
    two rules, every listed method, path, tool and name in its grammar, no tool both
    allowed and denied, and interception only where it was acknowledged. *)
Theorem validated_l7_well_formed (policy : L7Policy) :
  validate policy = Ok () → l7_well_formed policy.
Proof. apply validate_l7_ok. Qed.

(** an opaque tunnel gives a guest nothing its requests would not be given: where the
    tunnel is allowed, every well-formed request line to the host is allowed too. *)
Theorem tunnel_grants_no_more (policy : L7Policy) (host method path : string) :
  allowed (tunnel_verdict (Some policy) host) = true →
  valid_method method = true → safe_path path = true →
  allowed (http_verdict policy host method path) = true
  ∧ (rule_for policy host ≠ None → mode policy = Sni).
Proof.
  unfold tunnel_verdict. rewrite allowed_unless, andb_true_iff. intros [_ Ht] Hm Hp.
  rewrite http_verdict_permits. unfold http_permits. destruct (rule_for policy host) as [rule|]; [|done].
  rewrite allowed_unless, andb_true_iff, negb_true_iff in Ht. destruct Ht as [Ht _]. bools.
  split; [|intros _; by destruct (mode policy)]. by intros rule' [= <-].
Qed.

(** a body without a media type that does not start with a brace or a bracket is not
    inspected, whatever the MCP and GraphQL rules say; a blank before a JSON-RPC message
    is enough. *)
Theorem leading_blank_escapes_inspection `{SerdeJson} (policy : L7Policy) (r : VisibleRequest) b body :
  r.(vr_content_type) = None → r.(vr_body) = Some (b :: body) →
  b ≠ "{"%char → b ≠ "["%char →
  is_ok (effective_mode policy) = true →
  allowed (http_verdict policy r.(vr_host) r.(vr_method) r.(vr_path)) = true →
  allowed (request_verdict (Some policy) r) = true.
Proof.
  intros Hct Hbody Hb1 Hb2 Hm Hh. unfold request_verdict. rewrite Hm, Hh, Hct, Hbody. simpl negb. cbv iota zeta.
  unfold body_verdict. simpl. rewrite bool_decide_false; [done|]. by intros [[= ->]|[= ->]].
Qed.

(** ** A concrete policy *)
Module SampleL7.

(** JSON text, with single quotes for double ones. *)
Definition json_text (s : string) : string :=
  String.string_of_list_ascii ((λ c, if decide (c = "'"%char) then quote else c) <$> chars s).

Definition call : string :=
  json_text "{'jsonrpc':'2.0','method':'tools/call','params':{'name':'delete_repository'}}".
Definition blank_call : string := String.String " "%char call.

#[global] Instance serde : SerdeJson := {|
  Num := Z;
  parse_json text :=
    if decide (text = call ∨ text = blank_call)
    then Some (JMap [("jsonrpc", JString "2.0"); ("method", JString "tools/call");
                     ("params", JMap [("name", JString "delete_repository")])]%string)
    else None |}.

Definition policy : L7Policy := {|
  mode := Sni;
  http := [{| h_host := "api.example.com"; h_methods := ["POST"]; h_paths := ["/v1/"] |}]%string;
  mcp := {| allowed_methods := ["tools/call"]; allowed_tools := ["read_file"];
            denied_tools := ["delete_repository"] |}%string;
  graphql := {| allow_mutations := false; operations := []; root_fields := [] |};
  intercept_ack := false |}.

Definition request (body : string) : VisibleRequest := {|
  vr_host := "api.example.com"; vr_method := "POST"; vr_path := "/v1/mcp";
  vr_content_type := None; vr_body := Some (chars body) |}.

Lemma validated_l7_well_formed_witness :
  validate policy = Ok () ∧ l7_well_formed policy.
Proof.
  split; [vm_compute; reflexivity|]. apply (validated_l7_well_formed policy). vm_compute; reflexivity.
Defined.

Lemma tunnel_grants_no_more_witness :
  allowed (http_verdict policy "other.example.com" "DELETE" "/") = true
  ∧ allowed (tunnel_verdict (Some policy) "api.example.com") = false.
Proof.
  split; [|vm_compute; reflexivity].
  apply (tunnel_grants_no_more policy "other.example.com" "DELETE" "/"); vm_compute; reflexivity.
Defined.

Lemma leading_blank_escapes_inspection_witness :
  allowed (request_verdict (Some policy) (request call)) = false
  ∧ allowed (request_verdict (Some policy) (request blank_call)) = true.
Proof.
  split; [vm_compute; reflexivity|].
  apply (leading_blank_escapes_inspection policy (request blank_call) " "%char (chars call));
    [reflexivity|reflexivity|discriminate|discriminate|reflexivity|vm_compute; reflexivity].
Defined.

End SampleL7.
