(* ===== verification/Text.v ===== *)
(** * Text: numbers and words in texts

    The parts of Rust's [str] that several components read and print with: decimal
    numbers, words and lines. *)

From Stdlib Require Import Ascii.
From stdpp Require Import pretty.
From S2P Require Import Prelude Policy Boundary L7.

(** [str::parse] of an unsigned type. *)
Fixpoint parse_within (max acc : Z) (s : list ascii) : option Z :=
  match s with
  | [] => Some acc
  | b :: s =>
      if is_ascii_digit b then
        let acc := acc * 10 + (byte_of b - 48) in
        if max <? acc then None else parse_within max acc s
      else None
  end.

Definition parse_unsigned (max : Z) (s : list ascii) : option Z :=
  match s with
  | [] => None
  | b :: rest =>
      if decide (b = "+"%char)
      then match rest with [] => None | _ => parse_within max 0 rest end
      else parse_within max 0 s
  end.

(** [Display] of an unsigned number. *)
Definition decimal (n : Z) : string := pretty (Z.to_N n).

(** [str::split_once]. *)
Fixpoint split_once (c : ascii) (s : list ascii) : option (list ascii * list ascii) :=
  match s with
  | [] => None
  | b :: s => if decide (b = c) then Some ([], s)
              else (λ '(l, r), (b :: l, r)) <$> split_once c s
  end.

(** ** Lemmas *)
Lemma count_app {A} (l m : list A) : count (l ++ m) = count l + count m.
Proof. unfold count. rewrite length_app. lia. Qed.
Lemma count_cons {A} (x : A) l : count (x :: l) = 1 + count l.
Proof. unfold count. simpl. lia. Qed.
Lemma count_nonneg {A} (l : list A) : 0 ≤ count l.
Proof. unfold count. lia. Qed.

Lemma slen_chars s : slen s = count (chars s).
Proof. unfold slen, count. f_equal. induction s as [|c s IH]; [done|]. cbn. by f_equal. Qed.

Lemma chars_string_of l : chars (string_of l) = l.
Proof. apply String.list_ascii_of_string_of_list_ascii. Qed.

Lemma string_of_chars s : string_of (chars s) = s.
Proof. apply String.string_of_list_ascii_of_string. Qed.

Lemma chars_app s t : chars (s +:+ t) = chars s ++ chars t.
Proof. induction s as [|c s IH]; [done|]. change (c :: chars (s +:+ t) = c :: chars s ++ chars t). by rewrite IH. Qed.

Lemma split_once_app c s t : c ∉ s → split_once c (s ++ c :: t) = Some (s, t).
Proof.
  induction s as [|b s IH]; cbn [app split_once]; intros Hn; [by rewrite decide_True|].
  rewrite decide_False by set_solver. by rewrite IH by set_solver.
Qed.

Lemma split_once_none c s : c ∉ s → split_once c s = None.
Proof.
  induction s as [|b s IH]; cbn [split_once]; intros Hn; [done|].
  rewrite decide_False by set_solver. by rewrite IH by set_solver.
Qed.

Lemma split_on_single c s : c ∉ s → split_on c s = [s].
Proof.
  induction s as [|b s IH]; cbn [split_on]; intros Hn; [done|].
  rewrite decide_False by set_solver. by rewrite IH by set_solver.
Qed.

Lemma split_join_on c parts :
  parts ≠ [] → Forall (λ p, c ∉ p) parts → split_on c (join_on c parts) = parts.
Proof.
  intros Hne Hf. induction Hf as [|p parts Hp Hf IH]; [done|].
  destruct parts as [|p' parts]; [by apply split_on_single|].
  change (join_on c (p :: p' :: parts)) with (p ++ c :: join_on c (p' :: parts)).
  rewrite split_on_mid, split_on_single by done. cbn [app]. by rewrite IH.
Qed.

(** ** Decimal numbers *)
Lemma digit_value d : (d < 10)%N →
  is_ascii_digit (pretty_N_char d) = true ∧ byte_of (pretty_N_char d) = 48 + Z.of_N d.
Proof.
  intros Hd. assert (d = 0 ∨ d = 1 ∨ d = 2 ∨ d = 3 ∨ d = 4 ∨ d = 5 ∨ d = 6 ∨ d = 7 ∨ d = 8 ∨ d = 9)%N
    as Hcases by lia.
  repeat destruct Hcases as [->|Hcases]; subst; by vm_compute.
Qed.

Lemma parse_pretty_go max x s :
  Z.of_N x ≤ max → parse_within max 0 (chars (pretty_N_go x s)) = parse_within max (Z.of_N x) (chars s).
Proof.
  revert s. induction (N.lt_wf_0 x) as [x _ IH]; intros s Hx.
  destruct (decide (x = 0%N)) as [->|Hne]; [done|]. rewrite pretty_N_go_step by lia.
  assert (x `div` 10 < x)%N by (apply N.div_lt; lia).
  rewrite IH by (done || lia). cbn [chars String.list_ascii_of_string parse_within].
  destruct (digit_value (x `mod` 10)) as [-> ->]; [apply N.mod_lt; lia|].
  assert (Hv : Z.of_N (x `div` 10) * 10 + (48 + Z.of_N (x `mod` 10) - 48) = Z.of_N x).
  { pose proof (N.div_mod x 10 ltac:(done)). lia. }
  rewrite Hv, (proj2 (Z.ltb_ge _ _)) by lia. done.
Qed.

Lemma digits_pretty_go x s :
  Forall (λ b, is_ascii_digit b = true) (chars s) → Forall (λ b, is_ascii_digit b = true) (chars (pretty_N_go x s)).
Proof.
  revert s. induction (N.lt_wf_0 x) as [x _ IH]; intros s Hs.
  destruct (decide (x = 0%N)) as [->|Hne]; [done|]. rewrite pretty_N_go_step by lia.
  apply IH; [apply N.div_lt; lia|]. constructor; [|done]. apply digit_value, N.mod_lt. done.
Qed.

Lemma decimal_digits n : Forall (λ b, is_ascii_digit b = true) (chars (decimal n)).
Proof.
  unfold decimal, pretty, pretty_N. case_decide; [by repeat constructor|]. apply digits_pretty_go. constructor.
Qed.

Lemma pretty_go_suffix x s : ∃ l, chars (pretty_N_go x s) = l ++ chars s.
Proof.
  revert s. induction (N.lt_wf_0 x) as [x _ IH]; intros s.
  destruct (decide (x = 0%N)) as [->|Hne]; [by exists []|]. rewrite pretty_N_go_step by lia.
  destruct (IH (x `div` 10)%N ltac:(apply N.div_lt; lia) (String.String (pretty_N_char (x `mod` 10)) s)) as [l Hl].
  exists (l ++ [pretty_N_char (x `mod` 10)]). rewrite Hl, <-app_assoc. done.
Qed.

Lemma decimal_nonempty n : chars (decimal n) ≠ [].
Proof.
  unfold decimal, pretty, pretty_N. case_decide; [done|]. rewrite pretty_N_go_step by lia.
  destruct (pretty_go_suffix (Z.to_N n `div` 10) (String.String (pretty_N_char (Z.to_N n `mod` 10)) "")) as [l Hl].
  rewrite Hl. by destruct l.
Qed.

(** A printed number is read back by every type that holds it. *)
Lemma parse_decimal max n : 0 ≤ n ≤ max → parse_unsigned max (chars (decimal n)) = Some n.
Proof.
  intros Hn. pose proof (decimal_digits n) as Hd.
  assert (Hw : parse_within max 0 (chars (decimal n)) = Some n).
  { unfold decimal, pretty, pretty_N. case_decide as Hz.
    - assert (n = 0) as -> by lia. change (parse_within max 0 (chars "0")) with (if max <? 0 then None else Some 0).
      by rewrite (proj2 (Z.ltb_ge _ _)) by lia.
    - rewrite parse_pretty_go by lia. cbn. f_equal. lia. }
  pose proof (decimal_nonempty n) as Hne. destruct (chars (decimal n)) as [|b s]; [done|].
  apply Forall_cons in Hd as [Hb _]. cbn [parse_unsigned]. rewrite decide_False; [exact Hw|]. by intros ->.
Qed.

Lemma decimal_inj m n : 0 ≤ m → 0 ≤ n → decimal m = decimal n → m = n.
Proof. unfold decimal. intros ?? ?%(inj pretty). lia. Qed.

Lemma pretty_go_length (k : nat) x s :
  (x < 10 ^ N.of_nat k)%N → (length (chars (pretty_N_go x s)) ≤ k + length (chars s))%nat.
Proof.
  revert x s. induction k as [|k IH]; intros x s Hx.
  { change (x < 1)%N in Hx. assert (x = 0)%N as -> by lia. done. }
  destruct (decide (x = 0)%N) as [->|Hne]; [change (pretty_N_go 0 s) with s; lia|]. rewrite pretty_N_go_step by lia.
  etrans; [apply IH|].
  - apply N.Div0.div_lt_upper_bound. rewrite Nat2N.inj_succ, N.pow_succ_r' in Hx. lia.
  - change (chars (String.String ?c s)) with (c :: chars s). cbn [length]. lia.
Qed.

(** A number below 10^k has at most k digits. *)
Lemma decimal_length k n : 0 < k → 0 ≤ n < 10 ^ k → count (chars (decimal n)) ≤ k.
Proof.
  intros Hk Hn. unfold decimal, pretty, pretty_N. case_decide; [change (1 ≤ k); lia|].
  assert (Hlt : (Z.to_N n < 10 ^ N.of_nat (Z.to_nat k))%N).
  { apply N2Z.inj_lt. rewrite N2Z.inj_pow, Z2N.id, nat_N_Z, Z2Nat.id by lia. apply Hn. }
  pose proof (pretty_go_length (Z.to_nat k) (Z.to_N n) "" Hlt) as Hl. cbn [chars String.list_ascii_of_string length] in Hl.
  unfold count. lia.
Qed.

(** No punctuation in a number. *)
Lemma decimal_free c n : is_ascii_digit c = false → c ∉ chars (decimal n).
Proof. intros Hc Hin. pose proof (decimal_digits n) as Hd. rewrite Forall_forall in Hd. apply Hd in Hin. congruence. Qed.

(** The words of a line and the lines of a text. *)
Definition space : ascii := " "%char.
Definition line_feed : ascii := "010"%char.
Definition unwords (ws : list string) : list ascii := join_on space (chars <$> ws).
Definition words (s : list ascii) : list string := string_of <$> split_on space s.

Definition one_word (w : string) : Prop := space ∉ chars w ∧ line_feed ∉ chars w.

Lemma words_unwords ws : ws ≠ [] → Forall one_word ws → words (unwords ws) = ws.
Proof.
  intros Hne Hf. unfold words, unwords. rewrite split_join_on.
  - rewrite <-list_fmap_compose. rewrite <-(list_fmap_id ws) at 2. apply list_fmap_ext. intros ???. apply string_of_chars.
  - by destruct ws.
  - rewrite Forall_fmap. eapply Forall_impl; [exact Hf|]. by intros w [? _].
Qed.

Lemma unwords_one_line ws : Forall one_word ws → line_feed ∉ unwords ws.
Proof.
  unfold unwords. induction 1 as [|w ws [_ Hw] _ IH]; [by intros ?%elem_of_nil|].
  rewrite fmap_cons. destruct ws as [|w' ws]; [done|].
  change (join_on space (chars w :: (chars <$> w' :: ws)))
    with (chars w ++ space :: join_on space (chars <$> w' :: ws)).
  rewrite elem_of_app, elem_of_cons. intros [?|[?|?]]; [done| |done]. done.
Qed.
