(* ===== verification/Render.v ===== *)
(** * Render: the firewall of one attachment

    [crates/aiec-guard/src/enforcement/render.rs]: the model of what an attachment may
    do ([RuleModel]), its decision on a packet ([verdict]), and the text for [nft -f]
    that enforces it ([render], [render_replace]).

    A rendered line is its words with one space between them ([unwords]); [quoted] is a
    word between double quotes. *)

From Stdlib Require Import Ascii.
From S2P Require Import Prelude Policy Boundary L7 Text.

Definition FAMILY_V4 : string := "ip".
Definition FAMILY_V6 : string := "ip6".
Definition TABLE_PREFIX : string := "aiec_guard_".
Definition MAX_INTERFACE_LEN : Z := 15.
Definition COUNTER_BLOCKED_RANGE : string := "cnt_blocked_range".
Definition COUNTER_OTHER_DENIED : string := "cnt_other_denied".
Definition COUNTER_IPV6 : string := "cnt_ipv6".
Definition CHAIN_PRIORITY : Z := -10.
Definition DESTINATION_PRIORITY : Z := CHAIN_PRIORITY + 1.
Definition COUNTER_DNS_PERMITTED : string := "cnt_dns_permitted".
Definition COUNTER_BROKER_PERMITTED : string := "cnt_broker_permitted".
Definition MAX_BLOCKED_RANGES : Z := 1024.
Definition MAX_RULESET_BYTES : Z := 256 * 1024.

Inductive Transport := Tcp | Udp | Other.
#[global] Instance Transport_eq_dec : EqDecision Transport. Proof. solve_decision. Defined.

(** [Verdict] of [render.rs]. *)
Record PacketVerdict := { permitted : bool; v_counter : string }.

(** ** Ranges *)
Record BlockedRange := { br_text : string; br_network : Z; br_mask : Z }.

(** [Display] of an [Ipv4Addr]. *)
Definition dotted (n : Z) : string :=
  decimal (octet n 0) +:+ "." +:+ decimal (octet n 1) +:+ "." +:+ decimal (octet n 2) +:+ "."
  +:+ decimal (octet n 3).

(** The octets of a dotted quad, as they are shifted in. *)
Fixpoint parse_octets (parts : list (list ascii)) (network : Z) (octets : Z) : option (Z * Z) :=
  match parts with
  | [] => Some (network, octets)
  | part :: parts =>
      if octets =? 4 then None
      else
        match parse_unsigned 255 part with
        | None => None
        | Some value =>
            if 3 <? count part then None
            else parse_octets parts (Z.lor (Z.shiftl network 8 mod 2 ^ 32) value) (octets + 1)
        end
  end.

(** [u32::MAX << (32 - prefix)], and no bits for the prefix 0. *)
Definition prefix_mask (prefix : Z) : Z :=
  if prefix =? 0 then 0 else Z.shiftl u32_max (32 - prefix) mod 2 ^ 32.

Definition range_parse (text : string) : option BlockedRange :=
  let '(address, prefix) := match split_once slash (chars text) with
                            | Some parts => parts
                            | None => (chars text, chars "32")
                            end in
  match parse_octets (split_on dot address) 0 0 with
  | None => None
  | Some (network, octets) =>
      if negb (octets =? 4) then None
      else
        match parse_unsigned 255 prefix with
        | None => None
        | Some prefix =>
            if 32 <? prefix then None
            else
              let network := Z.land network (prefix_mask prefix) in
              Some {| br_text := dotted network +:+ "/" +:+ decimal prefix;
                      br_network := network; br_mask := prefix_mask prefix |}
        end
  end.

Definition range_contains (r : BlockedRange) (address : Z) : bool := Z.land address r.(br_mask) =? r.(br_network).

(** ** The model *)
Record RuleParams := {
  sandbox : string; interface : string; guest_ip : Z; gateway_ip : Z; dns_port : Z; broker_port : Z;
  permits_dns : bool; permits_broker : bool; cut : bool; blocked_ipv4 : list string }.

Record RuleModel := {
  rm_table : string; rm_interface : string; rm_guest_ip : Z; rm_gateway_ip : Z; rm_dns_port : Z;
  rm_broker_port : Z; rm_permits_dns : bool; rm_permits_broker : bool; rm_cut : bool;
  rm_blocked : list BlockedRange }.

Definition table_name (sandbox : string) : string := TABLE_PREFIX +:+ sandbox.

Definition validate_interface (interface : string) : bool :=
  match chars interface with
  | [] => false
  | first :: rest =>
      (slen interface <=? MAX_INTERFACE_LEN) && is_ascii_alphanumeric first
      && forallb (λ c, is_ascii_alphanumeric c || is_one_of "_-." c) rest
  end.

Definition RuleModel_new (p : RuleParams) : option RuleModel :=
  if negb (slen p.(sandbox) =? 32) || negb (all_bytes is_ascii_hexdigit p.(sandbox)) then None
  else if negb (validate_interface p.(interface)) then None
  else if p.(guest_ip) =? p.(gateway_ip) then None
  else if (p.(guest_ip) =? 0) || (p.(gateway_ip) =? 0) then None
  else if (p.(dns_port) =? 0) || (p.(broker_port) =? 0) then None
  else if p.(dns_port) =? p.(broker_port) then None
  else if MAX_BLOCKED_RANGES <? count p.(blocked_ipv4) then None
  else
    match mapM range_parse p.(blocked_ipv4) with
    | None => None
    | Some ranges => Some {|
        rm_table := table_name p.(sandbox); rm_interface := p.(interface); rm_guest_ip := p.(guest_ip);
        rm_gateway_ip := p.(gateway_ip); rm_dns_port := p.(dns_port); rm_broker_port := p.(broker_port);
        rm_permits_dns := p.(permits_dns); rm_permits_broker := p.(permits_broker); rm_cut := p.(cut);
        rm_blocked := ranges |}
    end.

(** ** The decision *)
Section Model.
Variable m : RuleModel.

Definition permits (source destination : Z) (transport : Transport) (port : Z) : bool :=
  if m.(rm_cut) then false
  else if negb (source =? m.(rm_guest_ip)) || negb (destination =? m.(rm_gateway_ip)) then false
  else
    match transport with
    | Tcp => (m.(rm_permits_dns) && (port =? m.(rm_dns_port)))
             || (m.(rm_permits_broker) && (port =? m.(rm_broker_port)))
    | Udp => m.(rm_permits_dns) && (port =? m.(rm_dns_port))
    | Other => false
    end.

Definition verdict (source destination : Z) (transport : Transport) (port : Z) : PacketVerdict :=
  if permits source destination transport port then
    {| permitted := true;
       v_counter := if port =? m.(rm_broker_port) then COUNTER_BROKER_PERMITTED else COUNTER_DNS_PERMITTED |}
  else
    {| permitted := false;
       v_counter := if existsb (λ r, range_contains r destination) m.(rm_blocked)
                    then COUNTER_BLOCKED_RANGE else COUNTER_OTHER_DENIED |}.

Definition permits_ipv6 : bool := false.

(** ** The text *)
Definition quoted (w : string) : string :=
  String.String "034" (w +:+ String.String "034" String.EmptyString).

(** A chain's [type filter hook input priority -10; policy accept;]. *)
Definition base_chain (hook : string) (priority : string) : list string :=
  ["{"; "type"; "filter"; "hook"; hook; "priority"; priority +:+ ";"; "policy"; "accept;"; "}"]%string.

(** The two priorities as printed. *)
Definition CHAIN_PRIORITY_TEXT : string := "-" +:+ decimal (- CHAIN_PRIORITY).
Definition DESTINATION_PRIORITY_TEXT : string := "-" +:+ decimal (- DESTINATION_PRIORITY).

Definition add_rule (family chain : string) (matches : list string) (counter action : string) : list ascii :=
  unwords (["add"; "rule"; family; m.(rm_table); chain]%string ++ matches
           ++ ["counter"; "name"; quoted counter; action]%string).

Definition add_chain (family chain hook priority : string) : list ascii :=
  unwords (["add"; "chain"; family; m.(rm_table); chain]%string ++ base_chain hook priority).

Definition add_table (family : string) : list ascii := unwords ["add"; "table"; family; m.(rm_table)]%string.
Definition flush_table (family : string) : list ascii := unwords ["flush"; "table"; family; m.(rm_table)]%string.
Definition add_counter (family counter : string) : list ascii :=
  unwords ["add"; "counter"; family; m.(rm_table); counter]%string.

Definition from_guest : list string := ["iifname"; quoted m.(rm_interface)]%string.
Definition to_guest : list string := ["oifname"; quoted m.(rm_interface)]%string.

(** The permit of one listener. *)
Definition permit (transport : string) (port : Z) (counter : string) : list ascii :=
  add_rule FAMILY_V4 "input"
    (from_guest ++ ["ip"; "saddr"; dotted m.(rm_guest_ip); "ip"; "daddr"; dotted m.(rm_gateway_ip);
                    transport; "dport"; decimal port]%string) counter "accept".

Definition header (family : string) : list ascii :=
  unwords ["#"; "AIec"; "Guard:"; "sandbox"; m.(rm_table); "on"; m.(rm_interface) +:+ ","; family]%string.

Definition render_ipv4 : list (list ascii) :=
  [header "IPv4"; add_table FAMILY_V4]
  ++ (add_counter FAMILY_V4 <$>
        [COUNTER_BLOCKED_RANGE; COUNTER_OTHER_DENIED; COUNTER_DNS_PERMITTED; COUNTER_BROKER_PERMITTED])
  ++ [add_chain FAMILY_V4 "input" "input" CHAIN_PRIORITY_TEXT;
      add_chain FAMILY_V4 "forward" "forward" CHAIN_PRIORITY_TEXT;
      add_chain FAMILY_V4 "forward_to_guest" "forward" DESTINATION_PRIORITY_TEXT]
  ++ (if m.(rm_permits_dns) && negb m.(rm_cut)
      then [permit "tcp" m.(rm_dns_port) COUNTER_DNS_PERMITTED; permit "udp" m.(rm_dns_port) COUNTER_DNS_PERMITTED]
      else [])
  ++ (if m.(rm_permits_broker) && negb m.(rm_cut)
      then [permit "tcp" m.(rm_broker_port) COUNTER_BROKER_PERMITTED] else [])
  ++ concat ((λ r,
       let matches := from_guest ++ ["ip"; "daddr"; r.(br_text)]%string in
       [add_rule FAMILY_V4 "input" matches COUNTER_BLOCKED_RANGE "drop";
        add_rule FAMILY_V4 "forward" matches COUNTER_BLOCKED_RANGE "drop"]) <$> m.(rm_blocked))
  ++ [add_rule FAMILY_V4 "input" (from_guest ++ ["ip"; "saddr"; "!="; dotted m.(rm_guest_ip)]%string)
        COUNTER_OTHER_DENIED "drop";
      add_rule FAMILY_V4 "input" (from_guest ++ ["ip"; "saddr"; dotted m.(rm_guest_ip)]%string)
        COUNTER_OTHER_DENIED "drop";
      add_rule FAMILY_V4 "forward" from_guest COUNTER_OTHER_DENIED "drop";
      add_rule FAMILY_V4 "forward_to_guest" to_guest COUNTER_OTHER_DENIED "drop"].

Definition render_ipv6 : list (list ascii) :=
  [header "IPv6"; add_table FAMILY_V6; add_counter FAMILY_V6 COUNTER_IPV6;
   add_chain FAMILY_V6 "input" "input" CHAIN_PRIORITY_TEXT;
   add_chain FAMILY_V6 "forward" "forward" CHAIN_PRIORITY_TEXT;
   add_chain FAMILY_V6 "forward_to_guest" "forward" DESTINATION_PRIORITY_TEXT;
   add_rule FAMILY_V6 "input" from_guest COUNTER_IPV6 "drop";
   add_rule FAMILY_V6 "forward" from_guest COUNTER_IPV6 "drop";
   add_rule FAMILY_V6 "forward_to_guest" to_guest COUNTER_IPV6 "drop"].

(** [lines.join] with a line feed, and one at the end. *)
Definition script (lines : list (list ascii)) : list ascii := join_on line_feed lines ++ [line_feed].

Definition finish (lines : list (list ascii)) : option (list ascii) :=
  if MAX_RULESET_BYTES <? count (script lines) then None else Some (script lines).

Definition render : option (list ascii) := finish (render_ipv4 ++ render_ipv6).

Definition render_replace : option (list ascii) :=
  finish ([add_table FAMILY_V4; flush_table FAMILY_V4; add_table FAMILY_V6; flush_table FAMILY_V6]
          ++ render_ipv4 ++ render_ipv6).

End Model.

(** ** Ranges and their texts *)
Lemma shift_in n v : 0 ≤ n < 2 ^ 24 → 0 ≤ v < 256 → Z.lor (Z.shiftl n 8 mod 2 ^ 32) v = n * 256 + v.
Proof.
  intros Hn Hv. rewrite Z.shiftl_mul_pow2, Z.mod_small by lia.
  pose proof (Z.add_lor_land (n * 2 ^ 8) v) as Hadd.
  enough (Z.land (n * 2 ^ 8) v = 0) by lia.
  apply Z.bits_inj'. intros i Hi. rewrite Z.land_spec, Z.bits_0.
  destruct (Z.ltb_spec i 8).
  - by rewrite Z.mul_pow2_bits_low by lia.
  - rewrite (Z.bits_above_log2 v i), andb_false_r; [done|lia|].
    destruct (Z.eq_dec v 0) as [->|]; [simpl; lia|]. apply Z.log2_lt_pow2; [lia|].
    apply Z.lt_le_trans with (2 ^ 8); [lia|]. apply Z.pow_le_mono_r; lia.
Qed.

Lemma parse_within_bounds max s acc v : 0 ≤ acc ≤ max → parse_within max acc s = Some v → 0 ≤ v ≤ max.
Proof.
  revert acc. induction s as [|b s IH]; cbn [parse_within]; intros acc Ha Hp; [by simplify_eq|].
  case_match eqn:Hd; [|done]. destruct (Z.ltb_spec max (acc * 10 + (byte_of b - 48))); [done|].
  eapply IH; [|exact Hp]. unfold is_ascii_digit, in_range in Hd. apply andb_true_iff in Hd as [?%Z.leb_le ?%Z.leb_le]. lia.
Qed.

Lemma parse_unsigned_bounds max s v : 0 ≤ max → parse_unsigned max s = Some v → 0 ≤ v ≤ max.
Proof.
  unfold parse_unsigned. intros Hm. repeat case_match; intros Hp; try done;
    (eapply parse_within_bounds; [|exact Hp]; lia).
Qed.

Lemma octet_bounds n i : 0 ≤ octet n i ≤ 255.
Proof. unfold octet. pose proof (Z.mod_pos_bound (n / 256 ^ (3 - i)) 256). lia. Qed.

Lemma octets_back n : 0 ≤ n < 2 ^ 32 → ip4 (octet n 0) (octet n 1) (octet n 2) (octet n 3) = n.
Proof.
  intros Hn. unfold ip4, octet. change (256 ^ (3 - 0)) with (256 * (256 * 256)). change (256 ^ (3 - 1)) with (256 * 256).
  change (256 ^ (3 - 2)) with 256. change (256 ^ (3 - 3)) with 1. rewrite Z.div_1_r.
  rewrite <-!Z.div_div by lia.
  pose proof (Z.div_mod n 256). pose proof (Z.div_mod (n / 256) 256). pose proof (Z.div_mod (n / 256 / 256) 256).
  rewrite (Z.mod_small (n / 256 / 256 / 256)); [lia|].
  rewrite !Z.div_div by lia. split; [apply Z.div_pos; lia|apply Z.div_lt_upper_bound; lia].
Qed.

Lemma dotted_parts n :
  split_on dot (chars (dotted n)) = (λ i, chars (decimal (octet n i))) <$> [0; 1; 2; 3].
Proof.
  transitivity (split_on dot (join_on dot ((λ i, chars (decimal (octet n i))) <$> [0; 1; 2; 3]))).
  - f_equal. unfold dotted. rewrite !chars_app. done.
  - apply split_join_on; [done|]. repeat constructor; by apply decimal_free.
Qed.

Lemma decimal_short n : 0 ≤ n ≤ 255 → count (chars (decimal n)) ≤ 3.
Proof. intros Hn. apply decimal_length; lia. Qed.

Lemma parse_dotted n : 0 ≤ n < 2 ^ 32 → parse_octets (split_on dot (chars (dotted n))) 0 0 = Some (n, 4).
Proof.
  intros Hn. rewrite dotted_parts. cbn [fmap list_fmap parse_octets].
  pose proof (octet_bounds n) as Ho.
  rewrite !parse_decimal by apply Ho. cbn [Z.eqb Z.add Pos.add].
  rewrite !(proj2 (Z.ltb_ge _ _)) by apply decimal_short, Ho.
  pose proof (Ho 0). pose proof (Ho 1). pose proof (Ho 2). pose proof (Ho 3).
  rewrite (shift_in 0), (shift_in (0 * 256 + octet n 0)), (shift_in ((0 * 256 + octet n 0) * 256 + octet n 1)),
    (shift_in (((0 * 256 + octet n 0) * 256 + octet n 1) * 256 + octet n 2)) by lia.
  cbn. f_equal. f_equal. rewrite <-(octets_back n Hn) at 5. done.
Qed.

(** Clearing the bits under a prefix. *)
Lemma mask_shift n : 0 ≤ n ≤ 32 → prefix_mask n = Z.shiftl (Z.ones n) (32 - n).
Proof.
  intros Hn. unfold prefix_mask. destruct (Z.eqb_spec n 0) as [->|]; [done|].
  apply Z.bits_inj'. intros i Hi. change u32_max with (Z.ones 32).
  rewrite Z.testbit_mod_pow2, !Z.shiftl_spec, !Z.testbit_ones by lia.
  destruct (Z.ltb_spec i 32), (Z.leb_spec 0 (i - (32 - n))), (Z.ltb_spec (i - (32 - n)) 32),
    (Z.ltb_spec (i - (32 - n)) n); try done; lia.
Qed.

Lemma land_mask x n : 0 ≤ x < 2 ^ 32 → 0 ≤ n ≤ 32 →
  Z.land x (prefix_mask n) = x / 2 ^ (32 - n) * 2 ^ (32 - n).
Proof.
  intros Hx Hn. rewrite mask_shift by done.
  transitivity (Z.shiftl (Z.land (Z.shiftr x (32 - n)) (Z.ones n)) (32 - n)).
  { apply Z.bits_inj'. intros i Hi. rewrite Z.land_spec, !Z.shiftl_spec by lia.
    destruct (Z.leb_spec 0 (i - (32 - n))).
    - rewrite Z.land_spec, Z.shiftr_spec by lia. by replace (i - (32 - n) + (32 - n)) with i by lia.
    - rewrite !(Z.testbit_neg_r _ (i - (32 - n))) by lia. apply andb_false_r. }
  rewrite Z.land_ones, Z.shiftr_div_pow2, Z.shiftl_mul_pow2, Z.mod_small; [done| |lia..].
  split; [apply Z.div_pos; lia|]. apply Z.div_lt_upper_bound; [lia|].
  rewrite <-Z.pow_add_r by lia. replace (32 - n + n) with 32 by lia. lia.
Qed.

(** What a parsed range holds: the text that denotes exactly its addresses. *)
Definition range_ok (r : BlockedRange) (a n : Z) : Prop :=
  0 ≤ a < 2 ^ 32 ∧ 0 ≤ n ≤ 32 ∧ r.(br_network) = a / 2 ^ (32 - n) * 2 ^ (32 - n) ∧ r.(br_mask) = prefix_mask n
  ∧ r.(br_text) = dotted r.(br_network) +:+ "/" +:+ decimal n.

Lemma parse_octets_bounds parts acc k a o :
  parse_octets parts acc k = Some (a, o) → 0 ≤ k ≤ 4 → 0 ≤ acc < 256 ^ k → 0 ≤ a < 256 ^ o ∧ k ≤ o ≤ 4.
Proof.
  revert acc k. induction parts as [|part parts IH]; cbn [parse_octets]; intros acc k Hp Hk Ha.
  { simplify_eq. split; [done|lia]. }
  destruct (Z.eqb_spec k 4) as [|Hne]; [done|].
  destruct (parse_unsigned 255 part) as [v|] eqn:Hv; [|done]. case_match; [done|].
  apply parse_unsigned_bounds in Hv; [|lia].
  assert (256 ^ k ≤ 256 ^ 3) by (apply Z.pow_le_mono_r; lia).
  rewrite shift_in in Hp by lia. apply IH in Hp; [|lia|rewrite Z.pow_add_r by lia; lia]. split; [tauto|lia].
Qed.

Lemma div_mul_bounds a n : 0 ≤ a < 2 ^ 32 → 0 ≤ n ≤ 32 → 0 ≤ a / 2 ^ (32 - n) * 2 ^ (32 - n) < 2 ^ 32.
Proof.
  intros Ha Hn. pose proof (Z.div_mod a (2 ^ (32 - n))). pose proof (Z.mod_pos_bound a (2 ^ (32 - n))).
  assert (0 ≤ a / 2 ^ (32 - n)) by (apply Z.div_pos; lia). nia.
Qed.

Lemma range_parse_ok text r : range_parse text = Some r → ∃ a n, range_ok r a n.
Proof.
  unfold range_parse. destruct (match split_once slash (chars text) with Some _ => _ | None => _ end) as [address prefix].
  destruct (parse_octets _ 0 0) as [[a o]|] eqn:Ho; [|done].
  destruct (Z.eqb_spec o 4) as [->|]; cbn [negb]; [|done].
  destruct (parse_unsigned 255 prefix) as [n|] eqn:Hn; [|done].
  destruct (Z.ltb_spec 32 n); [done|]. intros [= <-].
  apply parse_unsigned_bounds in Hn; [|lia]. apply parse_octets_bounds in Ho as [Ha _]; [|lia..].
  change (256 ^ 4) with (2 ^ 32) in Ha.
  exists a, n. unfold range_ok. cbn [br_network br_mask br_text].
    rewrite land_mask by lia. split_and!; done || lia.
Qed.

Lemma slash_free_dotted n : slash ∉ chars (dotted n).
Proof.
  unfold dotted. rewrite !chars_app, !elem_of_app.
  assert (slash ∉ chars ".") by (vm_compute; set_solver).
  pose proof (λ i, decimal_free slash (octet n i) eq_refl). naive_solver.
Qed.

(** A network printed and parsed back is the same network, in its canonical text. *)
Lemma range_parse_net a n : 0 ≤ a < 2 ^ 32 → 0 ≤ n ≤ 32 →
  ∃ r, range_parse (dotted a +:+ "/" +:+ decimal n) = Some r ∧ range_ok r a n.
Proof.
  intros Ha Hn. unfold range_parse. rewrite !chars_app. change (chars "/") with [slash]. cbn [app].
  rewrite (split_once_app slash (chars (dotted a)) (chars (decimal n))).
  - rewrite parse_dotted by done. change (negb (4 =? 4)) with false. cbv iota.
    rewrite parse_decimal by lia. rewrite (proj2 (Z.ltb_ge 32 n)) by lia.
    eexists. split; [done|]. unfold range_ok. cbn [br_network br_mask br_text].
    rewrite land_mask by lia. split_and!; done || lia.
  - apply slash_free_dotted.
Qed.

Lemma range_contains_spec r a n x : range_ok r a n → 0 ≤ x < 2 ^ 32 →
  range_contains r x = (a / 2 ^ (32 - n) =? x / 2 ^ (32 - n)).
Proof.
  intros (Ha & Hn & Hnet & Hmask & _) Hx. unfold range_contains. rewrite Hnet, Hmask, land_mask by done.
  assert (0 < 2 ^ (32 - n)) by lia. rewrite Z.eqb_sym. apply eq_true_iff_eq. rewrite !Z.eqb_eq. nia.
Qed.

(** ** The models that exist *)
(** The fields at their types: [Ipv4Addr] and [u16]. *)
Definition typed_params (p : RuleParams) : Prop :=
  0 ≤ p.(guest_ip) < 2 ^ 32 ∧ 0 ≤ p.(gateway_ip) < 2 ^ 32 ∧ 0 ≤ p.(dns_port) ≤ u16_max ∧ 0 ≤ p.(broker_port) ≤ u16_max.

Record model_ok (m : RuleModel) : Prop := {
  ok_table : ∃ id, m.(rm_table) = table_name id ∧ slen id = 32 ∧ all_bytes is_ascii_hexdigit id = true;
  ok_interface : validate_interface m.(rm_interface) = true;
  ok_guest : 0 ≤ m.(rm_guest_ip) < 2 ^ 32;
  ok_gateway : 0 ≤ m.(rm_gateway_ip) < 2 ^ 32;
  ok_dns : 0 < m.(rm_dns_port) ≤ u16_max;
  ok_broker : 0 < m.(rm_broker_port) ≤ u16_max;
  ok_ports : m.(rm_dns_port) ≠ m.(rm_broker_port);
  ok_blocked : Forall (λ r, ∃ a n, range_ok r a n) m.(rm_blocked);
  ok_count : count m.(rm_blocked) ≤ MAX_BLOCKED_RANGES }.

Lemma new_model_ok p m : typed_params p → RuleModel_new p = Some m → model_ok m.
Proof.
  intros (Hg & Hw & Hd & Hb) H. unfold RuleModel_new in H.
  destruct (negb (slen p.(sandbox) =? 32) || negb (all_bytes is_ascii_hexdigit p.(sandbox))) eqn:Hid; [done|].
  destruct (validate_interface p.(interface)) eqn:Hi; [|done]. cbn [negb] in H. do 2 (case_match; [done|]).
  destruct ((p.(dns_port) =? 0) || (p.(broker_port) =? 0)) eqn:Hz; [done|].
  destruct (Z.eqb_spec p.(dns_port) p.(broker_port)) as [|Hne]; [done|].
  destruct (Z.ltb_spec MAX_BLOCKED_RANGES (count p.(blocked_ipv4))); [done|].
  destruct (mapM range_parse p.(blocked_ipv4)) as [rs|] eqn:Hr; [|done]. injection H as <-.
  apply orb_false_iff in Hid as [Hl%negb_false_iff%Z.eqb_eq Hx%negb_false_iff].
  apply orb_false_iff in Hz as [Hz1%Z.eqb_neq Hz2%Z.eqb_neq]. apply mapM_Some in Hr.
  constructor; cbn; try done || lia.
  - by exists p.(sandbox).
  - induction Hr as [|t r ts rs Ht _ IH]; constructor; [by eapply range_parse_ok|].
    apply IH. unfold count in *. cbn [length] in *. lia.
  - apply Forall2_length in Hr. unfold count in *. by rewrite <-Hr.
Qed.

(** ** The size of the text *)
(** The bytes of a line's words, one blank or line feed after each. *)
Fixpoint width (ws : list string) : Z := match ws with [] => 0 | w :: ws => slen w + 1 + width ws end.

Fixpoint total_width (lines : list (list ascii)) : Z :=
  match lines with [] => 0 | l :: lines => count l + 1 + total_width lines end.

Lemma width_app ws vs : width (ws ++ vs) = width ws + width vs.
Proof. induction ws as [|w ws IH]; cbn; lia. Qed.

Lemma total_width_app ls ks : total_width (ls ++ ks) = total_width ls + total_width ks.
Proof. induction ls as [|l ls IH]; cbn; lia. Qed.

Lemma unwords_size ws : ws ≠ [] → count (unwords ws) + 1 = width ws.
Proof.
  unfold unwords. induction ws as [|w ws IH]; [done|]. intros _. destruct ws as [|v ws].
  { cbn. rewrite slen_chars. lia. }
  change (join_on space (chars <$> w :: v :: ws)) with (chars w ++ space :: join_on space (chars <$> v :: ws)).
  rewrite count_app, count_cons. specialize (IH ltac:(done)). cbn [width] in *. rewrite (slen_chars w). lia.
Qed.

Lemma script_size lines : lines ≠ [] → count (script lines) = total_width lines.
Proof.
  unfold script. rewrite count_app. change (count [line_feed]) with 1.
  induction lines as [|l lines IH]; [done|]. intros _. destruct lines as [|l' lines]; [cbn; lia|].
  change (join_on line_feed (l :: l' :: lines)) with (l ++ line_feed :: join_on line_feed (l' :: lines)).
  rewrite count_app, count_cons. specialize (IH ltac:(done)). cbn [total_width] in *. lia.
Qed.

Lemma slen_app s t : slen (s +:+ t) = slen s + slen t.
Proof. by rewrite !slen_chars, chars_app, count_app. Qed.

Lemma dotted_size n : slen (dotted n) ≤ 15.
Proof.
  unfold dotted. rewrite !slen_app, !(slen_chars (decimal _)). change (slen ".") with 1.
  pose proof (λ i, decimal_short _ (octet_bounds n i)) as H.
  pose proof (H 0). pose proof (H 1). pose proof (H 2). pose proof (H 3). lia.
Qed.

Lemma quoted_size w : slen (quoted w) = slen w + 2.
Proof.
  unfold quoted. change (String.String "034" ?s) with (String.String "034" "" +:+ s).
  rewrite !slen_app. change (slen (String.String "034" "")) with 1. lia.
Qed.

Section Size.
Context (m : RuleModel) (Hm : model_ok m).

Lemma table_size : slen m.(rm_table) = 43.
Proof. destruct (ok_table m Hm) as (id & -> & Hl & _). unfold table_name. by rewrite slen_app, Hl. Qed.

Lemma interface_size : slen (quoted m.(rm_interface)) ≤ 17.
Proof.
  rewrite quoted_size. pose proof (ok_interface m Hm) as Hi. unfold validate_interface, MAX_INTERFACE_LEN in Hi.
  case_match; [done|]. apply andb_true_iff in Hi as [[?%Z.leb_le _]%andb_true_iff _]. lia.
Qed.

Lemma port_size n : 0 ≤ n ≤ u16_max → slen (decimal n) ≤ 5.
Proof. intros Hn. rewrite slen_chars. apply decimal_length; [lia|]. unfold u16_max in Hn. lia. Qed.

Lemma range_size r a n : range_ok r a n → slen r.(br_text) ≤ 18.
Proof.
  intros (_ & Hn & _ & _ & ->). rewrite !slen_app. pose proof (dotted_size r.(br_network)).
  rewrite (slen_chars (decimal n)). change (slen "/") with 1. pose proof (decimal_length 2 n ltac:(lia) ltac:(lia)). lia.
Qed.

(** Constant words weigh what they weigh. *)
Ltac weigh :=
  cbn [width app];
  repeat match goal with
  | |- context [slen ?w] =>
      lazymatch w with
      | dotted _ => fail | decimal _ => fail | quoted _ => fail | rm_interface _ => fail | br_text _ => fail
      | _ => idtac
      end;
      let n := eval vm_compute in (slen w) in
      let b := eval vm_compute in (n =? n) in
      lazymatch b with true => change (slen w) with n end
  end.

Lemma rule_size f c matches counter action :
  count (add_rule m f c matches counter action) + 1 = 72 + slen f + slen c + width matches + slen counter + slen action.
Proof.
  unfold add_rule. rewrite unwords_size by done. rewrite !width_app.
  cbn [width app]. rewrite quoted_size, table_size. weigh. lia.
Qed.

Lemma chain_size f c hook priority :
  count (add_chain m f c hook priority) + 1 = 104 + slen f + slen c + slen hook + slen priority.
Proof.
  unfold add_chain, base_chain. rewrite unwords_size by done. rewrite !width_app. cbn [width app].
  rewrite slen_app, table_size. weigh. lia.
Qed.

Lemma table_line_size verb f :
  count (unwords [verb; "table"; f; m.(rm_table)]%string) + 1 = 52 + slen verb + slen f.
Proof. rewrite unwords_size by done. cbn [width]. rewrite table_size. weigh. lia. Qed.

Lemma counter_line_size f c : count (add_counter m f c) + 1 = 58 + slen f + slen c.
Proof. unfold add_counter. rewrite unwords_size by done. cbn [width]. rewrite table_size. weigh. lia. Qed.

Lemma header_size family : count (header m family) + 1 ≤ 89 + slen family.
Proof.
  unfold header. rewrite unwords_size by done. cbn [width]. rewrite slen_app, table_size.
  pose proof interface_size as Hi. rewrite quoted_size in Hi. weigh. lia.
Qed.

Lemma guest_rule_size f c matches counter action :
  count (add_rule m f c (from_guest m ++ matches) counter action) + 1
    ≤ 98 + slen f + slen c + width matches + slen counter + slen action.
Proof.
  rewrite rule_size, width_app. unfold from_guest. cbn [width]. pose proof interface_size. weigh. lia.
Qed.

Lemma blocked_size rs :
  Forall (λ r, ∃ a n, range_ok r a n) rs →
  total_width (concat ((λ r,
       let matches := from_guest m ++ ["ip"; "daddr"; r.(br_text)]%string in
       [add_rule m FAMILY_V4 "input" matches COUNTER_BLOCKED_RANGE "drop";
        add_rule m FAMILY_V4 "forward" matches COUNTER_BLOCKED_RANGE "drop"]) <$> rs)) ≤ 310 * count rs.
Proof.
  induction 1 as [|r rs (a & n & Hr) _ IH]; [done|]. rewrite fmap_cons. cbn [concat]. rewrite total_width_app, count_cons.
  cbn zeta. cbn [total_width].
  pose proof (guest_rule_size FAMILY_V4 "input" ["ip"; "daddr"; r.(br_text)]%string COUNTER_BLOCKED_RANGE "drop") as H1.
  pose proof (guest_rule_size FAMILY_V4 "forward" ["ip"; "daddr"; r.(br_text)]%string COUNTER_BLOCKED_RANGE "drop") as H2.
  pose proof (range_size r a n Hr). revert H1 H2. weigh. cbn zeta in IH. lia.
Qed.

Lemma permit_size tw n c : slen tw = 3 → 0 ≤ n ≤ u16_max → count (permit m tw n c) + 1 ≤ 180 + slen c.
Proof.
  intros Ht Hn. unfold permit.
  pose proof (guest_rule_size FAMILY_V4 "input"
    ["ip"; "saddr"; dotted m.(rm_guest_ip); "ip"; "daddr"; dotted m.(rm_gateway_ip); tw; "dport"; decimal n]%string c "accept") as H.
  pose proof (dotted_size m.(rm_guest_ip)). pose proof (dotted_size m.(rm_gateway_ip)). pose proof (port_size n Hn).
  revert H. weigh. lia.
Qed.

Lemma render4_size : total_width (render_ipv4 m) ≤ 2600 + 310 * count m.(rm_blocked).
Proof.
  pose proof (ok_dns m Hm) as Hd. pose proof (ok_broker m Hm) as Hb.
  pose proof (blocked_size _ (ok_blocked m Hm)) as Hr. unfold render_ipv4. rewrite !total_width_app.
  assert (Hp : total_width (if m.(rm_permits_dns) && negb m.(rm_cut)
      then [permit m "tcp" m.(rm_dns_port) COUNTER_DNS_PERMITTED; permit m "udp" m.(rm_dns_port) COUNTER_DNS_PERMITTED]
      else []) ≤ 400).
  { destruct (_ && _); [|done]. pose proof (permit_size "tcp" m.(rm_dns_port) COUNTER_DNS_PERMITTED eq_refl ltac:(lia)) as H1.
    pose proof (permit_size "udp" m.(rm_dns_port) COUNTER_DNS_PERMITTED eq_refl ltac:(lia)) as H2.
    revert H1 H2. cbn [total_width]. weigh. lia. }
  assert (Hq : total_width (if m.(rm_permits_broker) && negb m.(rm_cut)
      then [permit m "tcp" m.(rm_broker_port) COUNTER_BROKER_PERMITTED] else []) ≤ 200).
  { destruct (m.(rm_permits_broker) && _); [|done]. pose proof (permit_size "tcp" m.(rm_broker_port) COUNTER_BROKER_PERMITTED eq_refl ltac:(lia)) as H1.
    revert H1. cbn [total_width]. weigh. lia. }
  pose proof (header_size "IPv4") as Hh. pose proof (dotted_size m.(rm_guest_ip)) as Hg.
  pose proof (guest_rule_size FAMILY_V4 "input" ["ip"; "saddr"; "!="; dotted m.(rm_guest_ip)]%string COUNTER_OTHER_DENIED "drop") as R1.
  pose proof (guest_rule_size FAMILY_V4 "input" ["ip"; "saddr"; dotted m.(rm_guest_ip)]%string COUNTER_OTHER_DENIED "drop") as R2.
  pose proof (guest_rule_size FAMILY_V4 "forward" [] COUNTER_OTHER_DENIED "drop") as R3. rewrite app_nil_r in R3.
  cbn [total_width fmap list_fmap]. unfold add_table. rewrite table_line_size, !counter_line_size, !chain_size.
  pose proof (rule_size FAMILY_V4 "forward_to_guest" (to_guest m) COUNTER_OTHER_DENIED "drop") as R4.
  pose proof interface_size as Hi. unfold to_guest in *. revert Hh R1 R2 R3 R4. weigh. lia.
Qed.

Lemma render6_size : total_width (render_ipv6 m) ≤ 1500.
Proof.
  pose proof (header_size "IPv6") as Hh.
  pose proof (guest_rule_size FAMILY_V6 "input" [] COUNTER_IPV6 "drop") as R1.
  pose proof (guest_rule_size FAMILY_V6 "forward" [] COUNTER_IPV6 "drop") as R2. rewrite app_nil_r in R1, R2.
  pose proof (rule_size FAMILY_V6 "forward_to_guest" (to_guest m) COUNTER_IPV6 "drop") as R3.
  unfold render_ipv6. cbn [total_width]. unfold add_table. rewrite table_line_size, counter_line_size, !chain_size.
  pose proof interface_size as Hi. unfold to_guest in *. revert Hh R1 R2 R3. weigh. lia.
Qed.

(** Up to 800 ranges fit. *)
Lemma replace_fits : count m.(rm_blocked) ≤ 800 → ∃ text, render_replace m = Some text.
Proof.
  intros Hc. unfold render_replace, finish.
  rewrite script_size by (by destruct (render_ipv4 m)). rewrite !total_width_app. cbn [total_width].
  unfold add_table, flush_table. rewrite !table_line_size. pose proof render4_size. pose proof render6_size.
  rewrite (proj2 (Z.ltb_ge _ _)); [by eexists|]. unfold MAX_RULESET_BYTES. weigh. lia.
Qed.

End Size.
