(* ===== verification/Nft.v ===== *)
(** * Nft: what the rendered text means to nftables

    [nft] is not part of the repository.  This file states the fragment of its documented
    behaviour the rendered batches rely on, as a reference: the statements ([Statement])
    and how a line spells one ([read_line]), what a batch does to the kernel's tables
    ([exec_all], all or nothing), and what the chains of a hook do with a packet ([walk],
    [deliver]).  [Nft] is the tool, and [NftLaws] says that it behaves so on texts the
    reference reads.  *)

From Stdlib Require Import Ascii.
From S2P Require Import Prelude Policy Boundary L7 Text Render.

(** ** Tables *)
Inductive Family := Ip | Ip6.
Inductive Hook := Input | Forward.
Inductive Action := Accept | Drop_.
#[global] Instance Family_eq_dec : EqDecision Family. Proof. solve_decision. Defined.
#[global] Instance Hook_eq_dec : EqDecision Hook. Proof. solve_decision. Defined.
#[global] Instance Action_eq_dec : EqDecision Action. Proof. solve_decision. Defined.
#[global] Instance Family_countable : Countable Family.
Proof.
  refine (inj_countable' (λ f, match f with Ip => true | Ip6 => false end) (λ b, if b then Ip else Ip6) _).
  by intros [].
Defined.

Inductive Selector :=
| Iif (name : string) | Oif (name : string)
| Saddr (address : Z) | SaddrNot (address : Z)
| Daddr (address : Z) | DaddrNet (address prefix : Z)
| TcpPort (port : Z) | UdpPort (port : Z).

Record Rule := { selectors : list Selector; counter : string; action : Action }.

Record Chain := { hook : Hook; priority : Z; rules : list Rule }.

(** Chains in the order they were added. *)
Record Table := { counters : gmap string Z; chains : list (string * Chain) }.

Abbreviation Kernel := (gmap (Family * string) Table) (only parsing).

Inductive Statement :=
| AddTable (f : Family) (t : string)
| FlushTable (f : Family) (t : string)
| DeleteTable (f : Family) (t : string)
| AddCounter (f : Family) (t c : string)
| AddChain (f : Family) (t c : string) (h : Hook) (p : Z)
| AddRule (f : Family) (t c : string) (r : Rule).

(** ** What a batch does *)
Definition chain_of (t : Table) (c : string) : option Chain :=
  snd <$> List.find (λ e, bool_decide (e.1 = c)) t.(chains).

Definition with_chain (t : Table) (c : string) (f : Chain → Chain) : Table := {|
  counters := t.(counters);
  chains := (λ e, if bool_decide (e.1 = c) then (e.1, f e.2) else e) <$> t.(chains) |}.

Definition add_to (r : Rule) (c : Chain) : Chain :=
  {| hook := c.(hook); priority := c.(priority); rules := c.(rules) ++ [r] |}.
Definition flushed (c : Chain) : Chain := {| hook := c.(hook); priority := c.(priority); rules := [] |}.

(** Adding a table, a counter or a chain that exists changes nothing; a chain may not
    change its hook or priority; a rule names an existing chain and counter. *)
Definition exec (s : Statement) (k : Kernel) : option Kernel :=
  match s with
  | AddTable f t =>
      Some (match k !! (f, t) with Some _ => k | None => <[(f, t) := {| counters := ∅; chains := [] |}]> k end)
  | FlushTable f t =>
      match k !! (f, t) with
      | Some tb => Some (<[(f, t) := {| counters := tb.(counters);
                                       chains := (λ e, (e.1, flushed e.2)) <$> tb.(chains) |}]> k)
      | None => None
      end
  | DeleteTable f t => match k !! (f, t) with Some _ => Some (delete (f, t) k) | None => None end
  | AddCounter f t c =>
      match k !! (f, t) with
      | Some tb => Some (<[(f, t) := {| counters := match tb.(counters) !! c with
                                                   | Some _ => tb.(counters)
                                                   | None => <[c := 0]> tb.(counters)
                                                   end;
                                       chains := tb.(chains) |}]> k)
      | None => None
      end
  | AddChain f t c h p =>
      match k !! (f, t) with
      | Some tb =>
          match chain_of tb c with
          | Some old => if bool_decide (old.(hook) = h) && (old.(priority) =? p) then Some k else None
          | None => Some (<[(f, t) := {| counters := tb.(counters);
                                        chains := tb.(chains) ++ [(c, {| hook := h; priority := p; rules := [] |})] |}]> k)
          end
      | None => None
      end
  | AddRule f t c r =>
      match k !! (f, t) with
      | Some tb =>
          if bool_decide (is_Some (chain_of tb c)) && bool_decide (is_Some (tb.(counters) !! r.(counter)))
          then Some (<[(f, t) := with_chain tb c (add_to r)]> k) else None
      | None => None
      end
  end.

Fixpoint exec_all (ss : list Statement) (k : Kernel) : option Kernel :=
  match ss with [] => Some k | s :: ss => exec s k ≫= exec_all ss end.

(** ** What a table does with a packet *)
Record Packet := {
  iif : string; oif : string; src : Z; dst : Z; transport : Transport; port : Z }.

Definition selects (p : Packet) (s : Selector) : bool :=
  match s with
  | Iif n => bool_decide (p.(iif) = n)
  | Oif n => bool_decide (p.(oif) = n)
  | Saddr a => p.(src) =? a
  | SaddrNot a => negb (p.(src) =? a)
  | Daddr a => p.(dst) =? a
  | DaddrNet a n => a / 2 ^ (32 - n) =? p.(dst) / 2 ^ (32 - n)
  | TcpPort n => bool_decide (p.(transport) = Tcp) && (p.(port) =? n)
  | UdpPort n => bool_decide (p.(transport) = Udp) && (p.(port) =? n)
  end.

(** The first rule of a chain that selects the packet. *)
Definition first_match (p : Packet) (rs : list Rule) : option Rule :=
  List.find (λ r, forallb (selects p) r.(selectors)) rs.

(** The chains of every table of a family, in an order the kernel may visit a hook's chains
    in: priorities ascend, and equal ones come in any order. *)
Abbreviation TableKey := (Family * string)%type (only parsing).

Definition chains_at (f : Family) (h : Hook) (k : Kernel) : list (TableKey * Chain) :=
  '(key, t) ← map_to_list k;
  '(_, c) ← t.(chains);
  if bool_decide (key.1 = f) && bool_decide (c.(hook) = h) then [(key, c)] else [].

Definition traversal (f : Family) (h : Hook) (k : Kernel) (cs : list (TableKey * Chain)) : Prop :=
  cs ≡ₚ chains_at f h k ∧ StronglySorted (λ a b, a.2.(priority) ≤ b.2.(priority)) cs.

(** A packet on its way through them: the counters it hit, with their tables, and whether it
    survived. *)
Fixpoint walk (p : Packet) (cs : list (TableKey * Chain)) : list (TableKey * string) * bool :=
  match cs with
  | [] => ([], true)
  | (key, c) :: cs =>
      match first_match p c.(rules) with
      | None => walk p cs
      | Some r =>
          match r.(action) with
          | Drop_ => ([(key, r.(counter))], false)
          | Accept => let '(hit, ok) := walk p cs in ((key, r.(counter)) :: hit, ok)
          end
      end
  end.

Definition bump (c : string) (t : Table) : Table :=
  {| counters := alter (λ n, n + 1) c t.(counters); chains := t.(chains) |}.

(** The kernel after the packet. *)
Definition deliver (p : Packet) (cs : list (TableKey * Chain)) (k : Kernel) : Kernel * bool :=
  let '(hits, ok) := walk p cs in (foldr (λ '(key, c), alter (bump c) key) k hits, ok).

(** ** How a line spells a statement *)
Section Reading.

Definition read_family (w : string) : option Family :=
  if bool_decide (w = FAMILY_V4) then Some Ip else if bool_decide (w = FAMILY_V6) then Some Ip6 else None.

Definition read_hook (w : string) : option Hook :=
  if bool_decide (w = "input"%string) then Some Input
  else if bool_decide (w = "forward"%string) then Some Forward else None.

Definition read_action (w : string) : option Action :=
  if bool_decide (w = "accept"%string) then Some Accept
  else if bool_decide (w = "drop"%string) then Some Drop_ else None.

(** A name between quotes, of characters no quote or blank is among. *)
Definition name_char (c : ascii) : bool := is_ascii_alphanumeric c || is_one_of "_-." c.
Definition read_quoted (w : string) : option string :=
  match chars w with
  | q :: rest =>
      if decide (q = "034"%char) then
        let inner := removelast rest in
        if bool_decide (last rest = Some "034"%char) && forallb name_char inner
        then Some (string_of inner) else None
      else None
  | [] => None
  end.

Definition read_octet (s : list ascii) : option Z :=
  if forallb is_ascii_digit s then parse_unsigned 255 s else None.

Definition read_address (s : list ascii) : option Z :=
  match split_on dot s with
  | [a; b; c; d] =>
      match read_octet a, read_octet b, read_octet c, read_octet d with
      | Some a, Some b, Some c, Some d => Some (ip4 a b c d)
      | _, _, _, _ => None
      end
  | _ => None
  end.

Definition read_destination (w : string) : option Selector :=
  match split_once slash (chars w) with
  | None => Daddr <$> read_address (chars w)
  | Some (a, p) =>
      match read_address a, read_octet p with
      | Some a, Some p => if p <=? 32 then Some (DaddrNet a p) else None
      | _, _ => None
      end
  end.

Definition read_port (w : string) : option Z :=
  if forallb is_ascii_digit (chars w) then parse_unsigned u16_max (chars w) else None.

(** The words of a rule: selectors, then its counter and its action. *)
Fixpoint read_rule (ws : list string) (acc : list Selector) : option Rule :=
  match ws with
  | k :: v :: rest =>
      if bool_decide (k = "iifname"%string)
      then match read_quoted v with Some n => read_rule rest (acc ++ [Iif n]) | None => None end
      else if bool_decide (k = "oifname"%string)
      then match read_quoted v with Some n => read_rule rest (acc ++ [Oif n]) | None => None end
      else if bool_decide (k = "ip"%string) then
        match rest with
        | a :: rest =>
            if bool_decide (v = "saddr"%string) then
              if bool_decide (a = "!="%string) then
                match rest with
                | b :: rest => match read_address (chars b) with
                               | Some n => read_rule rest (acc ++ [SaddrNot n])
                               | None => None
                               end
                | [] => None
                end
              else match read_address (chars a) with
                   | Some n => read_rule rest (acc ++ [Saddr n])
                   | None => None
                   end
            else if bool_decide (v = "daddr"%string) then
              match read_destination a with Some s => read_rule rest (acc ++ [s]) | None => None end
            else None
        | [] => None
        end
      else if bool_decide (k = "tcp"%string) || bool_decide (k = "udp"%string) then
        match rest with
        | a :: rest =>
            match read_port a with
            | Some n => if bool_decide (v = "dport"%string)
                        then read_rule rest (acc ++ [if bool_decide (k = "tcp"%string) then TcpPort n else UdpPort n])
                        else None
            | None => None
            end
        | [] => None
        end
      else if bool_decide (k = "counter"%string) && bool_decide (v = "name"%string) then
        match rest with
        | [c; a] => match read_quoted c, read_action a with
                    | Some c, Some a => Some {| selectors := acc; counter := c; action := a |}
                    | _, _ => None
                    end
        | _ => None
        end
      else None
  | _ => None
  end.

(** [-10;]: a negative priority and its semicolon. *)
Definition read_priority (w : string) : option Z :=
  match chars w with
  | b :: rest =>
      if decide (b = "-"%char) then
        let digits := removelast rest in
        if bool_decide (last rest = Some ";"%char) && forallb is_ascii_digit digits
        then Z.opp <$> parse_unsigned u16_max digits else None
      else None
  | [] => None
  end.

Definition read_chain (ws : list string) : option (Hook * Z) :=
  match ws with
  | [b; y; k; h; i; p; v; o; a; e] =>
      if bool_decide ([b; y; k; h; p; o; a; e] = ["{"; "type"; "filter"; "hook"; "priority"; "policy"; "accept;"; "}"]%string)
      then match read_hook i, read_priority v with Some i, Some v => Some (i, v) | _, _ => None end
      else None
  | _ => None
  end.

(** A table's or a chain's name. *)
Definition plain_name (w : string) : bool := negb (is_empty w) && forallb name_char (chars w).

Definition read_words (ws : list string) : option Statement :=
  match ws with
  | verb :: what :: f :: t :: rest =>
      match read_family f with
      | None => None
      | Some f =>
          if negb (plain_name t) then None
          else if bool_decide (verb = "add"%string) then
            if bool_decide (what = "table"%string) then match rest with [] => Some (AddTable f t) | _ => None end
            else if bool_decide (what = "counter"%string) then
              match rest with [c] => if plain_name c then Some (AddCounter f t c) else None | _ => None end
            else if bool_decide (what = "chain"%string) then
              match rest with
              | c :: rest => if plain_name c then (λ '(h, p), AddChain f t c h p) <$> read_chain rest else None
              | [] => None
              end
            else if bool_decide (what = "rule"%string) then
              match rest with
              | c :: rest => if plain_name c then AddRule f t c <$> read_rule rest [] else None
              | [] => None
              end
            else None
          else if bool_decide (what = "table"%string) then
            match rest with
            | [] => if bool_decide (verb = "flush"%string) then Some (FlushTable f t)
                    else if bool_decide (verb = "delete"%string) then Some (DeleteTable f t) else None
            | _ => None
            end
          else None
      end
  | _ => None
  end.

(** Empty lines and comments say nothing. *)
Definition read_line (l : list ascii) : option (list Statement) :=
  if bool_decide (l = []) || bool_decide (head l = Some "#"%char) then Some []
  else (λ s, [s]) <$> read_words (words l).

Definition read_script (text : list ascii) : option (list Statement) :=
  mjoin <$> mapM read_line (split_on line_feed text).

End Reading.

(** ** The tool *)
Class Nft := nft_load : list ascii → Kernel → option Kernel.

Class NftLaws (N : Nft) : Prop :=
  nft_reads text ss k : read_script text = Some ss → nft_load text k = exec_all ss k.
