(* ===== verification/Firewall.v ===== *)
(** * Firewall: the rendered rules and what they enforce

    The statements a [RuleModel] means ([replacement]), that nftables reads exactly these
    in the text [render_replace] prints, and that the installed tables decide every
    packet as [verdict] does. *)

From Stdlib Require Import Ascii.
From S2P Require Import Prelude Policy Boundary L7 Text Render Nft.

(** ** The statements of a model *)
(** The prefix length of a mask. *)
Definition prefix_len (mask : Z) : Z := 32 - Z.log2 (2 ^ 32 - mask).

Section Meaning.
Variable m : RuleModel.

Definition on_guest (s : list Selector) (c : string) (a : Action) : Rule :=
  {| selectors := Iif m.(rm_interface) :: s; counter := c; action := a |}.

Definition permit_rule (s : Selector) (c : string) : Rule :=
  on_guest [Saddr m.(rm_guest_ip); Daddr m.(rm_gateway_ip); s] c Accept.

Definition permit_rules : list Rule :=
  (if m.(rm_permits_dns) && negb m.(rm_cut)
   then [permit_rule (TcpPort m.(rm_dns_port)) COUNTER_DNS_PERMITTED;
         permit_rule (UdpPort m.(rm_dns_port)) COUNTER_DNS_PERMITTED] else [])
  ++ (if m.(rm_permits_broker) && negb m.(rm_cut)
      then [permit_rule (TcpPort m.(rm_broker_port)) COUNTER_BROKER_PERMITTED] else []).

Definition blocked_rule (r : BlockedRange) : Rule :=
  on_guest [DaddrNet r.(br_network) (prefix_len r.(br_mask))] COUNTER_BLOCKED_RANGE Drop_.

Definition to_guest_rule (c : string) : Rule :=
  {| selectors := [Oif m.(rm_interface)]; counter := c; action := Drop_ |}.

(** The rules of the IPv4 table, with their chains, in the order they are added. *)
Definition rules4 : list (string * Rule) :=
  (pair "input"%string <$> permit_rules)
  ++ (r ← m.(rm_blocked); [("input"%string, blocked_rule r); ("forward"%string, blocked_rule r)])
  ++ [("input"%string, on_guest [SaddrNot m.(rm_guest_ip)] COUNTER_OTHER_DENIED Drop_);
      ("input"%string, on_guest [Saddr m.(rm_guest_ip)] COUNTER_OTHER_DENIED Drop_);
      ("forward"%string, on_guest [] COUNTER_OTHER_DENIED Drop_);
      ("forward_to_guest"%string, to_guest_rule COUNTER_OTHER_DENIED)].

Definition rules6 : list (string * Rule) :=
  [("input"%string, on_guest [] COUNTER_IPV6 Drop_); ("forward"%string, on_guest [] COUNTER_IPV6 Drop_);
   ("forward_to_guest"%string, to_guest_rule COUNTER_IPV6)].

Definition base_chains : list (string * Hook * Z) :=
  [("input"%string, Input, CHAIN_PRIORITY); ("forward"%string, Forward, CHAIN_PRIORITY);
   ("forward_to_guest"%string, Forward, DESTINATION_PRIORITY)].

Definition counters4 : list string :=
  [COUNTER_BLOCKED_RANGE; COUNTER_OTHER_DENIED; COUNTER_DNS_PERMITTED; COUNTER_BROKER_PERMITTED].

Definition family_statements (f : Family) (cs : list string) (rs : list (string * Rule)) : list Statement :=
  AddTable f m.(rm_table)
  :: (AddCounter f m.(rm_table) <$> cs)
  ++ ((λ '(c, h, p), AddChain f m.(rm_table) c h p) <$> base_chains)
  ++ ((λ '(c, r), AddRule f m.(rm_table) c r) <$> rs).

Definition creation : list Statement :=
  family_statements Ip counters4 rules4 ++ family_statements Ip6 [COUNTER_IPV6] rules6.

Definition replacement : list Statement :=
  [AddTable Ip m.(rm_table); FlushTable Ip m.(rm_table); AddTable Ip6 m.(rm_table); FlushTable Ip6 m.(rm_table)]
  ++ creation.

End Meaning.

(** ** Reading the text back *)
Definition word_char (c : ascii) : bool := negb (bool_decide (c = space)) && negb (bool_decide (c = line_feed)).

Lemma all_word_chars w : forallb word_char (chars w) = true → one_word w.
Proof.
  rewrite forallb_Forall, Forall_forall. intros Hf.
  split; intros Hin; apply Hf in Hin; by vm_compute in Hin.
Qed.

Lemma word_of_class (p : ascii → bool) w :
  p space = false → p line_feed = false → forallb p (chars w) = true → one_word w.
Proof. rewrite forallb_Forall, Forall_forall. intros Hs Hl Hf. split; intros Hin; apply Hf in Hin; congruence. Qed.

Lemma one_word_app v w : one_word v → one_word w → one_word (v +:+ w).
Proof. unfold one_word. rewrite chars_app, !elem_of_app. naive_solver. Qed.

Lemma one_word_decimal n : one_word (decimal n).
Proof. split; by apply decimal_free. Qed.

Create HintDb firewall.
#[export] Hint Resolve one_word_app one_word_decimal : firewall.
Ltac constant_word :=
  match goal with
  | |- one_word (_ +:+ _) => fail 1
  | |- one_word (decimal _) => fail 1
  | |- one_word (String.String _ _) => apply all_word_chars; vm_compute; reflexivity
  end.
#[export] Hint Extern 1 (one_word _) => constant_word : firewall.

Lemma one_word_names :
  Forall one_word [TABLE_PREFIX; FAMILY_V4; FAMILY_V6; COUNTER_BLOCKED_RANGE; COUNTER_OTHER_DENIED; COUNTER_IPV6;
                   COUNTER_DNS_PERMITTED; COUNTER_BROKER_PERMITTED].
Proof. repeat constructor; apply all_word_chars; vm_compute; reflexivity. Qed.

Lemma one_word_dotted n : one_word (dotted n).
Proof. unfold dotted. eauto 12 with firewall. Qed.

Lemma one_word_quoted w : one_word w → one_word (quoted w).
Proof.
  intros [Hs Hl]. unfold quoted.
  change (one_word (String.String "034" String.EmptyString +:+ (w +:+ String.String "034" String.EmptyString))).
  apply one_word_app; [by apply all_word_chars|]. apply one_word_app; [done|by apply all_word_chars].
Qed.
#[export] Hint Resolve one_word_dotted one_word_quoted : firewall.

(** A line that stands for the statements [ss]. *)
Definition says (l : list ascii) (ss : list Statement) : Prop := line_feed ∉ l ∧ read_line l = Some ss.

Lemma says_words w ws s :
  one_word w → Forall one_word ws → head (chars w) ≠ Some "#"%char → w ≠ ""%string →
  read_words (w :: ws) = Some s → says (unwords (w :: ws)) [s].
Proof.
  intros Hw Hws Hh Hne Hr. split; [apply unwords_one_line; by constructor|].
  unfold read_line. rewrite words_unwords by (done || by constructor). rewrite Hr.
  destruct w as [|c w]; [done|]. rewrite !bool_decide_eq_false_2; [done| |]; unfold unwords; by destruct ws.
Qed.

Lemma script_reads lines sss :
  Forall2 says lines sss → read_script (script lines) = Some (mjoin sss).
Proof.
  intros Hf. unfold read_script, script.
  assert (Hsplit : split_on line_feed (join_on line_feed lines ++ [line_feed]) = (if lines is [] then [[]] else lines) ++ [[]]).
  { rewrite split_on_mid. f_equal. destruct lines as [|l lines]; [done|]. apply split_join_on; [done|].
    eapply Forall2_Forall_l; [exact Hf|]. apply Forall_true. by intros ?? []. }
  rewrite Hsplit. destruct Hf as [|l ss lines sss Hl Hf]; [done|].
  assert (Hm : mapM read_line ((l :: lines) ++ [[]]) = Some ((ss :: sss) ++ [[]])).
  { apply mapM_Some. apply Forall2_app; [|by repeat constructor].
    constructor; [apply Hl|]. eapply Forall2_impl; [exact Hf|]. by intros ?? []. }
  rewrite Hm. cbn [fmap option_fmap option_map]. rewrite join_app.
  change (mjoin [[]]) with (@nil Statement). by rewrite app_nil_r.
Qed.

(** Numbers and names read back. *)
Lemma read_digits max n : 0 ≤ n ≤ max →
  (if forallb is_ascii_digit (chars (decimal n)) then parse_unsigned max (chars (decimal n)) else None) = Some n.
Proof.
  intros Hn. pose proof (decimal_digits n) as Hd. apply (proj2 (forallb_Forall is_ascii_digit _)) in Hd. rewrite Hd. by apply parse_decimal.
Qed.

Lemma read_dotted n : 0 ≤ n < 2 ^ 32 → read_address (chars (dotted n)) = Some n.
Proof.
  intros Hn. unfold read_address. rewrite dotted_parts. cbn [fmap list_fmap].
  unfold read_octet. rewrite !read_digits by apply octet_bounds. by rewrite octets_back.
Qed.

Lemma dotted_not_unequal n : bool_decide (dotted n = "!="%string) = false.
Proof.
  apply bool_decide_eq_false_2. intros H%(f_equal chars). unfold dotted in H. rewrite chars_app in H.
  pose proof (decimal_nonempty (octet n 0)) as Hne. pose proof (decimal_digits (octet n 0)) as Hd.
  destruct (chars (decimal (octet n 0))) as [|c s]; [done|]. apply Forall_cons in Hd as [Hc _].
  injection H as -> _. done.
Qed.

Lemma read_daddr n : 0 ≤ n < 2 ^ 32 → read_destination (dotted n) = Some (Daddr n).
Proof.
  intros Hn. unfold read_destination. rewrite split_once_none by apply slash_free_dotted. by rewrite read_dotted.
Qed.

Lemma prefix_len_mask n : 0 ≤ n ≤ 32 → prefix_len (prefix_mask n) = n.
Proof.
  intros Hn. unfold prefix_len. enough (2 ^ 32 - prefix_mask n = 2 ^ (32 - n)) as -> by (rewrite Z.log2_pow2; lia).
  rewrite mask_shift, Z.shiftl_mul_pow2, Z.ones_equiv by lia. rewrite <-Z.sub_1_r, Z.mul_sub_distr_r, <-Z.pow_add_r by lia.
  replace (n + (32 - n)) with 32 by lia. lia.
Qed.

Lemma read_range r a n : range_ok r a n →
  read_destination r.(br_text) = Some (DaddrNet r.(br_network) (prefix_len r.(br_mask))).
Proof.
  intros (Ha & Hn & Hnet & Hmask & ->). unfold read_destination. rewrite !chars_app. change (chars "/") with [slash]. cbn [app].
  rewrite split_once_app by apply slash_free_dotted.
  rewrite read_dotted by (rewrite Hnet; by apply div_mul_bounds).
  unfold read_octet. rewrite read_digits by lia. rewrite (proj2 (Z.leb_le n 32)) by lia.
  by rewrite Hmask, prefix_len_mask.
Qed.

Lemma read_quoted_name w : forallb name_char (chars w) = true → read_quoted (quoted w) = Some w.
Proof.
  intros Hw. unfold read_quoted, quoted.
  change (chars (String.String "034" (w +:+ String.String "034" String.EmptyString)))
    with ("034"%char :: chars (w +:+ String.String "034" String.EmptyString)).
  rewrite chars_app. change (chars (String.String "034" String.EmptyString)) with ["034"%char].
  rewrite decide_True, removelast_last, last_snoc, bool_decide_eq_true_2, Hw by done. cbn. by rewrite string_of_chars.
Qed.

Ltac settle_words :=
  repeat match goal with
  | |- context [bool_decide (?a = ?b)] =>
      first [replace (bool_decide (a = b)) with true by (vm_compute; reflexivity)
            |replace (bool_decide (a = b)) with false by (vm_compute; reflexivity)]; cbv iota; cbn [andb orb negb]
  end.

Ltac each_word :=
  repeat first [apply Forall_nil_2 | apply Forall_cons_2 | apply Forall_app_2 | assumption]; eauto with firewall.

Lemma hexdigit_name c : is_ascii_hexdigit c = true → name_char c = true.
Proof. destruct c as [[] [] [] [] [] [] [] []]; vm_compute; congruence. Qed.

Lemma name_one_word w : forallb name_char (chars w) = true → one_word w.
Proof. by apply word_of_class. Qed.

(** Lines that stand for the statements [ss] together. *)
Definition say (lines : list (list ascii)) (ss : list Statement) : Prop :=
  ∃ sss, Forall2 says lines sss ∧ mjoin sss = ss.

Lemma say_nil : say [] [].
Proof. by exists []. Qed.

Lemma say_app ls ms ss ts : say ls ss → say ms ts → say (ls ++ ms) (ss ++ ts).
Proof.
  intros (sss & Hl & <-) (tss & Hm & <-). exists (sss ++ tss). split; [by apply Forall2_app|]. by rewrite join_app.
Qed.

Lemma say_cons l ls s ss : says l [s] → say ls ss → say (l :: ls) (s :: ss).
Proof. intros Hl (sss & Hls & <-). exists ([s] :: sss). split; [by constructor|done]. Qed.

Lemma say_comment l ls ss : says l [] → say ls ss → say (l :: ls) ss.
Proof. intros Hl (sss & Hls & <-). exists ([] :: sss). split; [by constructor|done]. Qed.

(** Words that add the selectors [sels] to a rule. *)
Definition reads (matches : list string) (sels : list Selector) : Prop :=
  ∀ rest acc, read_rule (matches ++ rest) acc = read_rule rest (acc ++ sels).

Lemma statements_app ws vs s t : reads ws s → reads vs t → reads (ws ++ vs) (s ++ t).
Proof. intros Hw Hv rest acc. by rewrite <-app_assoc, Hw, Hv, <-app_assoc. Qed.

Lemma reads_iif w : forallb name_char (chars w) = true → reads ["iifname"%string; quoted w] [Iif w].
Proof. intros Hw rest acc. cbn [app read_rule]. settle_words. by rewrite read_quoted_name. Qed.

Lemma reads_oif w : forallb name_char (chars w) = true → reads ["oifname"%string; quoted w] [Oif w].
Proof. intros Hw rest acc. cbn [app read_rule]. settle_words. by rewrite read_quoted_name. Qed.

Lemma reads_saddr n : 0 ≤ n < 2 ^ 32 → reads ["ip"; "saddr"; dotted n]%string [Saddr n].
Proof. intros Hn rest acc. cbn [app read_rule]. rewrite dotted_not_unequal. settle_words. by rewrite read_dotted. Qed.

Lemma reads_saddr_not n : 0 ≤ n < 2 ^ 32 → reads ["ip"; "saddr"; "!="; dotted n]%string [SaddrNot n].
Proof. intros Hn rest acc. cbn [app read_rule]. settle_words. by rewrite read_dotted. Qed.

Lemma reads_daddr w s : read_destination w = Some s → reads ["ip"; "daddr"; w]%string [s].
Proof. intros Hw rest acc. cbn [app read_rule]. settle_words. by rewrite Hw. Qed.

Lemma reads_port tw n s : 0 ≤ n ≤ u16_max →
  tw = "tcp"%string ∧ s = TcpPort n ∨ tw = "udp"%string ∧ s = UdpPort n → reads [tw; "dport"%string; decimal n] [s].
Proof.
  intros Hn Ht rest acc. cbn [app read_rule]. unfold read_port. rewrite read_digits by done.
  destruct Ht as [[-> ->]|[-> ->]]; by settle_words.
Qed.

Section Lines.
Context (m : RuleModel) (Hm : model_ok m).

Lemma table_named : forallb name_char (chars m.(rm_table)) = true.
Proof.
  destruct (ok_table m Hm) as (id & -> & _ & Hx). unfold table_name. rewrite chars_app, forallb_app.
  apply andb_true_iff. split; [done|]. apply forallb_Forall. apply forallb_Forall in Hx.
  eapply Forall_impl; [exact Hx|]. apply hexdigit_name.
Qed.

Lemma table_plain : plain_name m.(rm_table) = true.
Proof. unfold plain_name. rewrite table_named. destruct (ok_table m Hm) as (id & -> & _). done. Qed.

Lemma interface_named : forallb name_char (chars m.(rm_interface)) = true.
Proof.
  pose proof (ok_interface m Hm) as Hi. unfold validate_interface in Hi.
  destruct (chars m.(rm_interface)) as [|c s]; [done|]. apply andb_true_iff in Hi as [[_ Hc]%andb_true_iff Hs].
  cbn [forallb]. apply andb_true_iff. split; [|exact Hs]. unfold name_char. by rewrite Hc.
Qed.

Lemma table_word : one_word m.(rm_table).
Proof. apply name_one_word, table_named. Qed.
Lemma interface_word : one_word m.(rm_interface).
Proof. apply name_one_word, interface_named. Qed.

(** A statement about the table. *)
Lemma says_statement verb what f ft rest s :
  In verb ["add"; "flush"; "delete"]%string → one_word what → read_family ft = Some f → Forall one_word rest →
  read_words (verb :: what :: ft :: m.(rm_table) :: rest) = Some s →
  says (unwords (verb :: what :: ft :: m.(rm_table) :: rest)) [s].
Proof.
  intros Hv Hw Hf Hrest Hr.
  assert (one_word ft).
  { unfold read_family in Hf. repeat case_bool_decide; simplify_eq; apply all_word_chars; done. }
  repeat destruct Hv as [<-|Hv]; try done; (apply says_words; [by apply all_word_chars| |done|done|exact Hr]);
    each_word; apply table_word.
Qed.

Lemma says_table f ft verb s :
  read_family ft = Some f →
  (verb = "add"%string ∧ s = AddTable f m.(rm_table)) ∨ (verb = "flush"%string ∧ s = FlushTable f m.(rm_table))
  ∨ (verb = "delete"%string ∧ s = DeleteTable f m.(rm_table)) →
  says (unwords [verb; "table"; ft; m.(rm_table)]%string) [s].
Proof.
  intros Hf Hs. eapply says_statement; [|by apply all_word_chars|exact Hf|constructor|].
  - destruct Hs as [[-> _]|[[-> _]|[-> _]]]; cbn; auto.
  - unfold read_words. rewrite Hf, table_plain. cbn [negb].
    destruct Hs as [[-> ->]|[[-> ->]|[-> ->]]]; by settle_words.
Qed.

Hint Resolve table_word interface_word : firewall.

Lemma says_counter f ft c :
  read_family ft = Some f → plain_name c = true →
  says (unwords ["add"; "counter"; ft; m.(rm_table); c]%string) [AddCounter f m.(rm_table) c].
Proof.
  intros Hf Hc. assert (one_word c) by (apply name_one_word; by apply andb_true_iff in Hc as [_ ?]).
  eapply says_statement; [cbn; auto|by apply all_word_chars|exact Hf|each_word|].
  unfold read_words. rewrite Hf, table_plain, Hc. by settle_words.
Qed.

Lemma says_chain f ft c hw h pw p :
  read_family ft = Some f → plain_name c = true → read_hook hw = Some h → read_priority (pw +:+ ";") = Some p →
  one_word hw → one_word pw →
  says (add_chain m ft c hw pw) [AddChain f m.(rm_table) c h p].
Proof.
  intros Hf Hc Hh Hp ??. assert (one_word c) by (apply name_one_word; by apply andb_true_iff in Hc as [_ ?]).
  unfold add_chain. cbn [app]. eapply says_statement; [cbn; auto|by apply all_word_chars|exact Hf|unfold base_chain; each_word|].
  unfold read_words. rewrite Hf, table_plain, Hc. settle_words. unfold base_chain, read_chain. settle_words.
  by rewrite Hh, Hp.
Qed.

Lemma says_rule f ft c matches sels counter aw a :
  read_family ft = Some f → plain_name c = true → forallb name_char (chars counter) = true → read_action aw = Some a →
  one_word aw → Forall one_word matches →
  reads matches sels → says (add_rule m ft c matches counter aw)
    [AddRule f m.(rm_table) c {| selectors := sels; Nft.counter := counter; action := a |}].
Proof.
  intros Hf Hc Hn Ha ?? Hr. assert (one_word c) by (apply name_one_word; by apply andb_true_iff in Hc as [_ ?]).
  unfold add_rule. cbn [app]. apply name_one_word in Hn as ?.
  eapply says_statement; [cbn; auto|by apply all_word_chars|exact Hf|each_word|].
  unfold read_words. rewrite Hf, table_plain, Hc. settle_words. rewrite Hr. cbn [read_rule]. settle_words.
  by rewrite read_quoted_name, Ha by done.
Qed.

Lemma says_on_guest f ft c matches sels counter aw a :
  read_family ft = Some f → plain_name c = true → forallb name_char (chars counter) = true → read_action aw = Some a →
  one_word aw → Forall one_word matches → reads matches sels →
  says (add_rule m ft c (from_guest m ++ matches) counter aw) [AddRule f m.(rm_table) c (on_guest m sels counter a)].
Proof.
  intros ?????? Hr. apply says_rule; try done; [unfold from_guest; each_word|].
  apply (statements_app _ _ [_]); [|done]. apply reads_iif, interface_named.
Qed.

Lemma says_permit tw n s c :
  0 ≤ n ≤ u16_max → tw = "tcp"%string ∧ s = TcpPort n ∨ tw = "udp"%string ∧ s = UdpPort n →
  forallb name_char (chars c) = true →
  says (permit m tw n c) [AddRule Ip m.(rm_table) "input" (permit_rule m s c)].
Proof.
  intros Hn Ht Hc. unfold permit. apply says_on_guest; try done; [by apply all_word_chars| |].
  - assert (one_word tw) by (destruct Ht as [[-> _]|[-> _]]; by apply all_word_chars). each_word.
  - apply (statements_app ["ip"; "saddr"; dotted m.(rm_guest_ip)]%string _ [_]); [apply reads_saddr, ok_guest, Hm|].
    apply (statements_app ["ip"; "daddr"; dotted m.(rm_gateway_ip)]%string _ [_]); [|by apply reads_port].
    apply reads_daddr, read_daddr, ok_gateway, Hm.
Qed.

Lemma says_blocked r c :
  (∃ a n, range_ok r a n) → plain_name c = true →
  says (add_rule m FAMILY_V4 c (from_guest m ++ ["ip"; "daddr"; r.(br_text)]%string) COUNTER_BLOCKED_RANGE "drop")
    [AddRule Ip m.(rm_table) c (blocked_rule m r)].
Proof.
  intros (a & n & Hr) Hc. apply says_on_guest; try done; [by apply all_word_chars| |].
  - assert (one_word r.(br_text)) by (destruct Hr as (_ & _ & _ & _ & ->); eauto with firewall). each_word.
  - eapply reads_daddr, read_range, Hr.
Qed.

Lemma says_to_guest f ft counter :
  read_family ft = Some f → forallb name_char (chars counter) = true →
  says (add_rule m ft "forward_to_guest" (to_guest m) counter "drop")
    [AddRule f m.(rm_table) "forward_to_guest" (to_guest_rule m counter)].
Proof.
  intros ??. apply says_rule; try done; [by apply all_word_chars|unfold to_guest; each_word|].
  apply reads_oif, interface_named.
Qed.

Lemma says_header family : one_word family → says (header m family) [].
Proof.
  intros Hf. unfold header. split; [apply unwords_one_line; each_word|]. done.
Qed.

Lemma chains_say f ft :
  read_family ft = Some f →
  say [add_chain m ft "input" "input" CHAIN_PRIORITY_TEXT; add_chain m ft "forward" "forward" CHAIN_PRIORITY_TEXT;
       add_chain m ft "forward_to_guest" "forward" DESTINATION_PRIORITY_TEXT]
    ((λ '(c, h, p), AddChain f m.(rm_table) c h p) <$> base_chains).
Proof.
  intros Hf. unfold base_chains. cbn [fmap list_fmap].
  repeat apply say_cons; [..|apply say_nil]; apply says_chain; done || by apply all_word_chars.
Qed.

Lemma permits_say :
  say ((if m.(rm_permits_dns) && negb m.(rm_cut)
        then [permit m "tcp" m.(rm_dns_port) COUNTER_DNS_PERMITTED; permit m "udp" m.(rm_dns_port) COUNTER_DNS_PERMITTED]
        else [])
       ++ (if m.(rm_permits_broker) && negb m.(rm_cut)
           then [permit m "tcp" m.(rm_broker_port) COUNTER_BROKER_PERMITTED] else []))
    (AddRule Ip m.(rm_table) "input" <$> permit_rules m).
Proof.
  pose proof (ok_dns m Hm). pose proof (ok_broker m Hm). unfold permit_rules. rewrite fmap_app. apply say_app.
  - case_match; [|apply say_nil]. repeat apply say_cons; [..|apply say_nil]; (apply says_permit; [lia|auto|done]).
  - case_match; [|apply say_nil]. repeat apply say_cons; [..|apply say_nil]; (apply says_permit; [lia|auto|done]).
Qed.

Lemma blocked_say rs :
  Forall (λ r, ∃ a n, range_ok r a n) rs →
  say (concat ((λ r,
         let matches := from_guest m ++ ["ip"; "daddr"; r.(br_text)]%string in
         [add_rule m FAMILY_V4 "input" matches COUNTER_BLOCKED_RANGE "drop";
          add_rule m FAMILY_V4 "forward" matches COUNTER_BLOCKED_RANGE "drop"]) <$> rs))
    ((λ '(c, r), AddRule Ip m.(rm_table) c r) <$>
       (r ← rs; [("input"%string, blocked_rule m r); ("forward"%string, blocked_rule m r)])).
Proof.
  induction 1 as [|r rs Hr _ IH]; [apply say_nil|]. cbn -[add_rule].
  apply say_cons; [by apply says_blocked|]. apply say_cons; [by apply says_blocked|]. exact IH.
Qed.

Lemma render4_says : say (render_ipv4 m) (family_statements m Ip counters4 (rules4 m)).
Proof.
  unfold render_ipv4, family_statements. cbn [app].
  apply say_comment; [apply says_header; by apply all_word_chars|].
  apply say_cons; [eapply says_table; by eauto|].
  apply say_app; [repeat apply say_cons; [..|apply say_nil]; by apply says_counter|].
  change (?a :: ?b :: ?c :: ?rest) with ([a; b; c] ++ rest). apply say_app; [by apply chains_say|].
  unfold rules4. rewrite !fmap_app, app_assoc. apply say_app.
  { rewrite <-list_fmap_compose. apply permits_say. }
  apply say_app; [apply blocked_say, ok_blocked, Hm|]. cbn [fmap list_fmap].
  repeat apply say_cons; [..|apply say_nil].
  - apply says_on_guest; try done; [by apply all_word_chars|each_word|apply reads_saddr_not, ok_guest, Hm].
  - apply says_on_guest; try done; [by apply all_word_chars|each_word|apply reads_saddr, ok_guest, Hm].
  - rewrite <-(app_nil_r (from_guest m)). apply says_on_guest; try done; [by apply all_word_chars|].
    intros rest acc. by rewrite app_nil_r.
  - by apply says_to_guest.
Qed.

Lemma render6_says : say (render_ipv6 m) (family_statements m Ip6 [COUNTER_IPV6] (rules6 m)).
Proof.
  unfold render_ipv6, family_statements. cbn [app fmap list_fmap].
  apply say_comment; [apply says_header; by apply all_word_chars|].
  apply say_cons; [eapply says_table; by eauto|]. apply say_cons; [by apply says_counter|].
  change (?a :: ?b :: ?c :: ?rest) with ([a; b; c] ++ rest). apply say_app; [by apply chains_say|].
  unfold rules6. cbn [fmap list_fmap].
  repeat apply say_cons; [..|apply say_nil]; [| |by apply says_to_guest];
    (rewrite <-(app_nil_r (from_guest m)); apply says_on_guest; try done; [by apply all_word_chars|];
     intros rest acc; by rewrite app_nil_r).
Qed.

Lemma replacement_reads text : render_replace m = Some text → read_script text = Some (replacement m).
Proof.
  unfold render_replace, finish. case_match; [done|]. intros [= <-].
  assert (Hsay : say ([add_table m FAMILY_V4; flush_table m FAMILY_V4; add_table m FAMILY_V6; flush_table m FAMILY_V6]
                      ++ render_ipv4 m ++ render_ipv6 m) (replacement m)).
  { apply say_app; [repeat apply say_cons; [..|apply say_nil]; eapply says_table; eauto; done|].
    apply say_app; [apply render4_says|apply render6_says]. }
  destruct Hsay as (sss & Hf & <-). by apply script_reads.
Qed.

End Lines.

(** ** What the statements install *)
Lemma exec_all_app ss ts k : exec_all (ss ++ ts) k = exec_all ss k ≫= exec_all ts.
Proof.
  revert k. induction ss as [|s ss IH]; intros k; [done|]. cbn [app exec_all].
  destruct (exec s k) as [k'|]; [apply IH|done].
Qed.

(** A table with the three base chains of an attachment and the rules [rs]. *)
Definition chain_with (rs : list (string * Rule)) (e : string * Hook * Z) : string * Chain :=
  (e.1.1, {| hook := e.1.2; priority := e.2; rules := snd <$> base.filter (λ r, r.1 = e.1.1) rs |}).
Definition guard_table (cs : gmap string Z) (rs : list (string * Rule)) : Table :=
  {| counters := cs; chains := chain_with rs <$> base_chains |}.

(** No table of that name, or one an earlier generation left. *)
Definition owned (k : Kernel) (f : Family) (t : string) : Prop :=
  k !! (f, t) = None ∨ ∃ cs rs, k !! (f, t) = Some (guard_table cs rs).
Definition kept (k : Kernel) (f : Family) (t : string) : gmap string Z :=
  from_option counters ∅ (k !! (f, t)).

Definition declared (names : list string) (cs : gmap string Z) : gmap string Z :=
  cs ∪ list_to_map ((λ c, (c, 0)) <$> names).

Section Executing.
Context (f : Family) (t : string).

Lemma exec_add_flush k : owned k f t →
  ∃ chs, exec_all [AddTable f t; FlushTable f t] k = Some (<[(f, t) := {| counters := kept k f t; chains := chs |}]> k)
         ∧ (chs = [] ∨ chs = chains (guard_table ∅ [])).
Proof.
  intros [Hk|(cs & rs & Hk)]; unfold kept; cbn [exec_all exec]; rewrite Hk; cbn [mbind option_bind from_option].
  - rewrite lookup_insert_eq. cbn. rewrite insert_insert_eq. eauto.
  - rewrite Hk. cbn. eauto.
Qed.

Lemma exec_counters names k cs chs :
  k !! (f, t) = Some {| counters := cs; chains := chs |} →
  exec_all (AddCounter f t <$> names) k = Some (<[(f, t) := {| counters := declared names cs; chains := chs |}]> k).
Proof.
  revert k cs. induction names as [|c names IH]; intros k cs Hk.
  - cbn. unfold declared. cbn. by rewrite (right_id_L ∅ (∪)), insert_id.
  - cbn [fmap list_fmap exec_all exec]. rewrite Hk. cbn [mbind option_bind counters chains].
    rewrite (IH _ _ ltac:(apply lookup_insert_eq)), insert_insert_eq. do 3 f_equal.
    apply map_eq. intros d. unfold declared. cbn [fmap list_fmap list_to_map foldr].
    rewrite !lookup_union. destruct (decide (c = d)) as [->|Hne].
    + rewrite lookup_insert_eq. destruct (cs !! d) as [n|] eqn:Hd; [rewrite Hd|rewrite lookup_insert_eq];
        by destruct (list_to_map _ !! d).
    + rewrite (lookup_insert_ne _ c d) by done. destruct (cs !! c); [done|]. by rewrite lookup_insert_ne.
Qed.

Lemma exec_new_chain k tb c h p :
  k !! (f, t) = Some tb → chain_of tb c = None →
  exec (AddChain f t c h p) k =
    Some (<[(f, t) := {| counters := tb.(counters);
                         chains := tb.(chains) ++ [(c, {| hook := h; priority := p; rules := [] |})] |}]> k).
Proof. intros Hk Hc. cbn [exec]. by rewrite Hk, Hc. Qed.

Lemma exec_old_chain k tb c h p ch :
  k !! (f, t) = Some tb → chain_of tb c = Some ch → ch.(hook) = h → ch.(priority) = p →
  exec (AddChain f t c h p) k = Some k.
Proof. intros Hk Hc <- <-. cbn [exec]. by rewrite Hk, Hc, bool_decide_eq_true_2, Z.eqb_refl. Qed.

Lemma exec_chains k cs chs :
  k !! (f, t) = Some {| counters := cs; chains := chs |} → chs = [] ∨ chs = chains (guard_table ∅ []) →
  exec_all ((λ '(c, h, p), AddChain f t c h p) <$> base_chains) k = Some (<[(f, t) := guard_table cs []]> k).
Proof.
  intros Hk [->| ->]; unfold base_chains; cbn [fmap list_fmap exec_all].
  - rewrite (exec_new_chain _ _ _ _ _ Hk) by reflexivity. cbn [mbind option_bind].
    do 2 (erewrite exec_new_chain; [|apply lookup_insert_eq|reflexivity]; cbn [mbind option_bind]).
    by rewrite !insert_insert_eq.
  - do 3 (erewrite exec_old_chain; [|exact Hk|reflexivity..]; cbn [mbind option_bind]). by rewrite insert_id.
Qed.

Lemma exec_rules k cs done todo :
  k !! (f, t) = Some (guard_table cs done) →
  Forall (λ e, e.1 ∈ (λ e, e.1.1) <$> base_chains ∧ is_Some (cs !! e.2.(counter))) todo →
  exec_all ((λ '(c, r), AddRule f t c r) <$> todo) k = Some (<[(f, t) := guard_table cs (done ++ todo)]> k).
Proof.
  revert k done. induction todo as [|[c r] todo IH]; intros k done Hk Hf.
  { cbn. by rewrite app_nil_r, insert_id. }
  apply Forall_cons in Hf as [[Hc Hr] Hf]. cbn [fst snd] in Hc, Hr.
  cbn [fmap list_fmap exec_all exec]. rewrite Hk. cbn [counters guard_table].
  assert (Hw : with_chain (guard_table cs done) c (add_to r) = guard_table cs (done ++ [(c, r)])).
  { unfold with_chain, guard_table. cbn [counters chains]. f_equal. rewrite <-list_fmap_compose.
    apply list_fmap_ext. intros _ e _. unfold compose, chain_with. cbn [fst snd]. rewrite filter_app, fmap_app.
    case_bool_decide as He; unfold add_to; cbn [hook priority rules].
    - subst c. by rewrite filter_cons_True.
    - rewrite filter_cons_False by (intros H; apply He; symmetry; exact H). cbn. by rewrite app_nil_r. }
  rewrite (bool_decide_eq_true_2 (is_Some (chain_of _ _))), bool_decide_eq_true_2; [|done|].
  - cbn [andb mbind option_bind]. rewrite Hw. rewrite (IH _ (done ++ [(c, r)])); [|apply lookup_insert_eq|done].
    by rewrite insert_insert_eq, <-app_assoc.
  - clear -Hc. unfold base_chains in Hc. cbn in Hc. rewrite !elem_of_cons in Hc.
    destruct Hc as [->|[->|[->|[]%elem_of_nil]]]; eexists; reflexivity.
Qed.

End Executing.

Lemma declared_has names cs c : c ∈ names → is_Some (declared names cs !! c).
Proof.
  intros Hc. unfold declared. apply lookup_union_is_Some. right.
  induction names as [|d names IH]; [by apply elem_of_nil in Hc|]. cbn [fmap list_fmap list_to_map foldr].
  destruct (decide (d = c)) as [->|Hne]; [rewrite lookup_insert_eq; by eexists|].
  rewrite lookup_insert_ne by done. apply IH. by apply elem_of_cons in Hc as [->|].
Qed.

(** Rules of the base chains, counted by the declared counters. *)
Definition placed (names : list string) (rs : list (string * Rule)) : Prop :=
  Forall (λ e, e.1 ∈ (λ e, e.1.1) <$> base_chains ∧ e.2.(counter) ∈ names) rs.

Lemma exec_family m f names rs k cs chs :
  k !! (f, m.(rm_table)) = Some {| counters := cs; chains := chs |} → chs = [] ∨ chs = chains (guard_table ∅ []) →
  placed names rs →
  exec_all (family_statements m f names rs) k = Some (<[(f, m.(rm_table)) := guard_table (declared names cs) rs]> k).
Proof.
  intros Hk Hchs Hrs. unfold family_statements. cbn [exec_all exec]. rewrite Hk. cbn [mbind option_bind].
  rewrite exec_all_app, (exec_counters _ _ _ _ _ _ Hk). cbn [mbind option_bind].
  rewrite exec_all_app, (exec_chains _ _ _ _ _ (lookup_insert_eq _ _ _) Hchs). cbn [mbind option_bind].
  rewrite (exec_rules _ _ _ _ [] _ (lookup_insert_eq _ _ _)), !insert_insert_eq; [done|].
  eapply Forall_impl; [exact Hrs|]. intros e [? ?]. split; [done|]. by apply declared_has.
Qed.

Lemma rules4_placed m : placed counters4 (rules4 m).
Proof.
  assert (Hin : ∀ (c n : string) r, c ∈ ["input"; "forward"; "forward_to_guest"]%string → r.(counter) = n → n ∈ counters4 →
     (c, r).1 ∈ (λ e : string * Hook * Z, e.1.1) <$> base_chains ∧ (c, r).2.(counter) ∈ counters4).
  { intros c n r Hc <- Hn. by split. }
  unfold placed, rules4. apply Forall_app_2; [|apply Forall_app_2].
  - apply Forall_fmap. unfold permit_rules.
    apply Forall_app_2; (case_match; [|constructor]); repeat apply Forall_cons_2; try apply Forall_nil_2;
      (eapply Hin; [|reflexivity|]; unfold counters4; cbn; set_solver).
  - apply Forall_forall. intros e (r & He & _)%list_elem_of_bind. rewrite !elem_of_cons in He.
    destruct He as [->|[->|[]%elem_of_nil]]; (eapply Hin; [|reflexivity|]; unfold counters4; cbn; set_solver).
  - repeat apply Forall_cons_2; try apply Forall_nil_2; (eapply Hin; [|reflexivity|]; unfold counters4; cbn; set_solver).
Qed.

Lemma rules6_placed m : placed [COUNTER_IPV6] (rules6 m).
Proof. repeat apply Forall_cons_2; try apply Forall_nil_2; split; cbn; set_solver. Qed.

Definition counters_for (f : Family) : list string := match f with Ip => counters4 | Ip6 => [COUNTER_IPV6] end.

(** The two tables of an attachment under the model [m], over the counts of [k]. *)
Definition installed (m : RuleModel) (k : Kernel) : Kernel :=
  <[(Ip6, m.(rm_table)) := guard_table (declared [COUNTER_IPV6] (kept k Ip6 m.(rm_table))) (rules6 m)]>
    (<[(Ip, m.(rm_table)) := guard_table (declared counters4 (kept k Ip m.(rm_table))) (rules4 m)]> k).

Lemma replacement_installs m k :
  owned k Ip m.(rm_table) → owned k Ip6 m.(rm_table) → exec_all (replacement m) k = Some (installed m k).
Proof.
  intros H4 H6. unfold replacement, creation.
  change ([?a; ?b; ?c; ?d] ++ ?rest) with ([a; b] ++ [c; d] ++ rest).
  rewrite exec_all_app. destruct (exec_add_flush _ _ _ H4) as (ch4 & -> & Hch4). cbn [mbind option_bind].
  rewrite exec_all_app. set (k1 := <[_ := _]> k).
  assert (Hk1 : k1 !! (Ip6, m.(rm_table)) = k !! (Ip6, m.(rm_table))) by (by apply lookup_insert_ne).
  destruct (exec_add_flush Ip6 m.(rm_table) k1) as (ch6 & -> & Hch6).
  { unfold owned. by rewrite Hk1. }
  cbn [mbind option_bind]. unfold kept at 1. rewrite Hk1. fold (kept k Ip6 m.(rm_table)).
  rewrite exec_all_app, (exec_family _ _ _ _ _ (kept k Ip m.(rm_table)) ch4); [|subst k1|done|apply rules4_placed].
  - cbn [mbind option_bind]. rewrite (exec_family _ _ _ _ _ (kept k Ip6 m.(rm_table)) ch6); [|subst k1|done|apply rules6_placed].
    + subst k1. unfold installed. f_equal. apply map_eq. intros i.
      destruct (decide (i = (Ip6, m.(rm_table)))) as [->|]; [by rewrite !lookup_insert_eq|].
      rewrite !(lookup_insert_ne _ (Ip6, _) i) by done.
      destruct (decide (i = (Ip, m.(rm_table)))) as [->|]; [by rewrite !lookup_insert_eq|].
      rewrite !(lookup_insert_ne _ _ i) by done. done.
    + rewrite lookup_insert_ne by done. apply lookup_insert_eq.
  - rewrite lookup_insert_ne by done. apply lookup_insert_eq.
Qed.

(** ** What the installed tables decide *)
Definition rules_of (c : string) (rs : list (string * Rule)) : list Rule :=
  snd <$> base.filter (λ r, r.1 = c) rs.

Lemma rules_of_app c rs qs : rules_of c (rs ++ qs) = rules_of c rs ++ rules_of c qs.
Proof. unfold rules_of. by rewrite filter_app, fmap_app. Qed.

Lemma rules_of_pair c d rs : rules_of c (pair d <$> rs) = if bool_decide (d = c) then rs else [].
Proof.
  unfold rules_of. induction rs as [|r rs IH]; [by case_bool_decide|]. rewrite fmap_cons.
  case_bool_decide as Hd.
  - rewrite filter_cons_True by done. cbn. f_equal. exact IH.
  - rewrite filter_cons_False by done. exact IH.
Qed.

Section Packets.
Context (m : RuleModel).

Lemma rules_of_blocked c rs :
  rules_of c (r ← rs; [("input"%string, blocked_rule m r); ("forward"%string, blocked_rule m r)])
    = if bool_decide (c = "input"%string) || bool_decide (c = "forward"%string) then blocked_rule m <$> rs else [].
Proof.
  induction rs as [|r rs IH]; [by case_match|].
  change (rules_of c ([("input"%string, blocked_rule m r); ("forward"%string, blocked_rule m r)] ++
    (r ← rs; [("input"%string, blocked_rule m r); ("forward"%string, blocked_rule m r)])) =
    (if bool_decide (c = "input"%string) || bool_decide (c = "forward"%string) then blocked_rule m <$> r :: rs else [])).
  rewrite rules_of_app, IH. unfold rules_of.
  destruct (decide (c = "input"%string)) as [->|H1]; [done|].
  destruct (decide (c = "forward"%string)) as [->|H2]; [done|].
  rewrite !bool_decide_eq_false_2 by done. rewrite !filter_cons_False by (cbn; congruence). done.
Qed.

Lemma input_rules4 : rules_of "input" (rules4 m) =
  permit_rules m ++ (blocked_rule m <$> m.(rm_blocked))
  ++ [on_guest m [SaddrNot m.(rm_guest_ip)] COUNTER_OTHER_DENIED Drop_;
      on_guest m [Saddr m.(rm_guest_ip)] COUNTER_OTHER_DENIED Drop_].
Proof. unfold rules4. by rewrite !rules_of_app, rules_of_pair, rules_of_blocked. Qed.

Lemma forward_rules4 : rules_of "forward" (rules4 m) =
  (blocked_rule m <$> m.(rm_blocked)) ++ [on_guest m [] COUNTER_OTHER_DENIED Drop_].
Proof. unfold rules4. by rewrite !rules_of_app, rules_of_pair, rules_of_blocked. Qed.

Lemma to_guest_rules4 : rules_of "forward_to_guest" (rules4 m) = [to_guest_rule m COUNTER_OTHER_DENIED].
Proof. unfold rules4. by rewrite !rules_of_app, rules_of_pair, rules_of_blocked. Qed.

Lemma first_match_app p rs qs :
  first_match p (rs ++ qs) = match first_match p rs with Some r => Some r | None => first_match p qs end.
Proof. unfold first_match. induction rs as [|r rs IH]; [done|]. cbn [app List.find]. destruct (forallb _ _); [done|exact IH]. Qed.

(** Rules for the guest's interface select nothing from another one. *)
Lemma elsewhere_no_match p rs :
  p.(iif) ≠ m.(rm_interface) → Forall (λ r, head r.(selectors) = Some (Iif m.(rm_interface))) rs → first_match p rs = None.
Proof.
  intros Hi. unfold first_match. induction 1 as [|r rs Hr _ IH]; [done|]. cbn.
  destruct r as [[|s ss] c a]; [done|]. injection Hr as ->. cbn. by rewrite bool_decide_eq_false_2.
Qed.

Lemma on_interface p sels c a : p.(iif) = m.(rm_interface) →
  forallb (selects p) (on_guest m sels c a).(selectors) = forallb (selects p) sels.
Proof. intros Hi. cbn. by rewrite bool_decide_eq_true_2. Qed.

Lemma blocked_match p : model_ok m → p.(iif) = m.(rm_interface) → 0 ≤ p.(dst) < 2 ^ 32 →
  match first_match p (blocked_rule m <$> m.(rm_blocked)) with
  | Some r => existsb (λ r, range_contains r p.(dst)) m.(rm_blocked) = true ∧ r.(counter) = COUNTER_BLOCKED_RANGE
              ∧ r.(action) = Drop_
  | None => existsb (λ r, range_contains r p.(dst)) m.(rm_blocked) = false
  end.
Proof.
  intros Hm Hi Hd. pose proof (ok_blocked m Hm) as Hok. induction Hok as [|r rs (a & n & Hr) _ IH]; [done|].
  rewrite fmap_cons. unfold first_match. cbn [List.find existsb]. unfold blocked_rule at 1. rewrite on_interface by done.
  assert (Hsel : forallb (selects p) [DaddrNet r.(br_network) (prefix_len r.(br_mask))] = range_contains r p.(dst)).
  { rewrite (range_contains_spec _ _ _ _ Hr Hd). destruct Hr as (Ha & Hn & Hnet & Hmask & _).
    cbn [forallb selects]. rewrite andb_true_r, Hmask, prefix_len_mask, Hnet, Z.div_mul by lia. done. }
  rewrite Hsel. destruct (range_contains r p.(dst)); [done|]. exact IH.
Qed.

Lemma permit_match p : model_ok m → p.(iif) = m.(rm_interface) →
  match first_match p (permit_rules m) with
  | Some r => permits m p.(src) p.(dst) p.(transport) p.(port) = true ∧ r.(action) = Accept
              ∧ r.(counter) = if p.(port) =? m.(rm_broker_port) then COUNTER_BROKER_PERMITTED else COUNTER_DNS_PERMITTED
  | None => permits m p.(src) p.(dst) p.(transport) p.(port) = false
  end.
Proof.
  intros Hm Hi. pose proof (ok_ports m Hm) as Hne. unfold permit_rules, permits, permit_rule.
  destruct m.(rm_cut); [by rewrite !andb_false_r|]. rewrite !andb_true_r.
  assert (Hsel : ∀ s c, forallb (selects p) (on_guest m [Saddr m.(rm_guest_ip); Daddr m.(rm_gateway_ip); s] c Accept).(selectors)
            = negb (negb (p.(src) =? m.(rm_guest_ip)) || negb (p.(dst) =? m.(rm_gateway_ip))) && selects p s).
  { intros s c. rewrite on_interface by done. cbn [forallb]. rewrite andb_true_r. cbn [selects].
    by destruct (p.(src) =? _), (p.(dst) =? _). }
  rewrite first_match_app. unfold first_match.
  destruct m.(rm_permits_dns), m.(rm_permits_broker); cbn [List.find]; rewrite ?Hsel;
    destruct (negb (_ =? _) || negb (_ =? _)); cbn [negb andb orb selects]; try by destruct p.(transport).
  all: destruct p.(transport); rewrite ?bool_decide_eq_true_2, ?bool_decide_eq_false_2 by done; cbn [andb orb];
    destruct (Z.eqb_spec p.(port) m.(rm_dns_port)), (Z.eqb_spec p.(port) m.(rm_broker_port)); cbn; done || congruence.
Qed.

Lemma input_match p : model_ok m → p.(iif) = m.(rm_interface) → 0 ≤ p.(dst) < 2 ^ 32 →
  let v := verdict m p.(src) p.(dst) p.(transport) p.(port) in
  ∃ r, first_match p (rules_of "input" (rules4 m)) = Some r
       ∧ r.(counter) = v.(v_counter) ∧ r.(action) = if v.(permitted) then Accept else Drop_.
Proof.
  intros Hm Hi Hd. rewrite input_rules4, !first_match_app.
  pose proof (permit_match p Hm Hi) as Hp. pose proof (blocked_match p Hm Hi Hd) as Hb. unfold verdict.
  destruct (first_match p (permit_rules m)) as [r|].
  { destruct Hp as (-> & Ha & Hc). exists r. by rewrite Ha, Hc. }
  rewrite Hp. destruct (first_match p (_ <$> _)) as [r|].
  { destruct Hb as (-> & Hc & Ha). exists r. by rewrite Ha, Hc. }
  rewrite Hb. unfold first_match. cbn [List.find]. rewrite !on_interface by done. cbn [forallb selects].
  destruct (_ =? _); by eexists.
Qed.

Lemma forward_match p : model_ok m → p.(iif) = m.(rm_interface) → 0 ≤ p.(dst) < 2 ^ 32 →
  ∃ r, first_match p (rules_of "forward" (rules4 m)) = Some r ∧ r.(action) = Drop_ ∧
    r.(counter) = if existsb (λ r, range_contains r p.(dst)) m.(rm_blocked) then COUNTER_BLOCKED_RANGE else COUNTER_OTHER_DENIED.
Proof.
  intros Hm Hi Hd. rewrite forward_rules4, first_match_app.
  pose proof (blocked_match p Hm Hi Hd) as Hb. destruct (first_match p (_ <$> _)) as [r|].
  { destruct Hb as (-> & Hc & Ha). by exists r. }
  rewrite Hb. unfold first_match. cbn [List.find]. rewrite on_interface by done. by eexists.
Qed.

(** Every source-side rule names the guest's interface first. *)
Definition headed (r : Rule) : Prop := head r.(selectors) = Some (Iif m.(rm_interface)).

Lemma headed_input : Forall headed (rules_of "input" (rules4 m)).
Proof.
  rewrite input_rules4. apply Forall_app_2; [|apply Forall_app_2; [by apply Forall_fmap, Forall_true|by repeat constructor]].
  unfold permit_rules. apply Forall_app_2; case_match; by repeat constructor.
Qed.

Lemma headed_forward : Forall headed (rules_of "forward" (rules4 m)).
Proof. rewrite forward_rules4. apply Forall_app_2; [by apply Forall_fmap, Forall_true|by repeat constructor]. Qed.

(** The rules of a table of [m]. *)
Definition rules_for (f : Family) : list (string * Rule) := match f with Ip => rules4 m | Ip6 => rules6 m end.

Lemma headed_rules f : Forall headed (rules_of "input" (rules_for f)) ∧ Forall headed (rules_of "forward" (rules_for f)).
Proof. destruct f; [split; [apply headed_input|apply headed_forward]|split; by repeat constructor]. Qed.

Lemma ipv6_match p :
  (p.(iif) = m.(rm_interface) →
     first_match p (rules_of "input" (rules6 m)) = Some (on_guest m [] COUNTER_IPV6 Drop_)
     ∧ first_match p (rules_of "forward" (rules6 m)) = Some (on_guest m [] COUNTER_IPV6 Drop_))
  ∧ (p.(oif) = m.(rm_interface) →
     first_match p (rules_of "forward_to_guest" (rules6 m)) = Some (to_guest_rule m COUNTER_IPV6)).
Proof.
  assert (Hi : rules_of "input" (rules6 m) = [on_guest m [] COUNTER_IPV6 Drop_]) by reflexivity.
  assert (Hf : rules_of "forward" (rules6 m) = [on_guest m [] COUNTER_IPV6 Drop_]) by reflexivity.
  assert (Hg : rules_of "forward_to_guest" (rules6 m) = [to_guest_rule m COUNTER_IPV6]) by reflexivity.
  rewrite Hi, Hf, Hg. unfold first_match. split; intros Hp; cbn; by rewrite bool_decide_eq_true_2.
Qed.

End Packets.

(** ** Guests side by side *)
(** A table whose chains all come after the source-side ones. *)
Definition late (tb : Table) : Prop := Forall (λ e, CHAIN_PRIORITY < e.2.(priority)) tb.(chains).

(** A table that leaves a packet to others until the source-side chains have judged it. *)
Definition waits (p : Packet) (tb : Table) : Prop :=
  (∃ m f cs, tb = guard_table cs (rules_for m f) ∧ m.(rm_interface) ≠ p.(iif)) ∨ late tb.

Lemma elem_of_chains_at f h k key c :
  (key, c) ∈ chains_at f h k ↔
    ∃ tb n, k !! key = Some tb ∧ key.1 = f ∧ (n, c) ∈ tb.(chains) ∧ c.(hook) = h.
Proof.
  unfold chains_at. rewrite list_elem_of_bind. split.
  - intros ([key' tb] & ([n c'] & Hin & Hc)%list_elem_of_bind & Hk%elem_of_map_to_list).
    destruct (bool_decide _) eqn:H1 in Hin; [|by apply elem_of_nil in Hin].
    destruct (bool_decide (c'.(hook) = h)) eqn:H2 in Hin; [|by apply elem_of_nil in Hin].
    apply list_elem_of_singleton in Hin. simplify_eq. apply bool_decide_eq_true in H1, H2. eauto 8.
  - intros (tb & n & Hk & Hf & Hc & Hh). exists (key, tb). split; [|by apply elem_of_map_to_list].
    apply list_elem_of_bind. exists (n, c). split; [|done]. rewrite !bool_decide_eq_true_2 by done. by apply list_elem_of_singleton.
Qed.

Lemma waiting_silent p tb n c :
  waits p tb → (n, c) ∈ tb.(chains) → c.(priority) ≤ CHAIN_PRIORITY ∨ c.(hook) = Input →
  first_match p c.(rules) = None ∨ late tb ∧ CHAIN_PRIORITY < c.(priority).
Proof.
  intros [(m & f & cs & -> & Hne)|Hlate] Hc Hp.
  - left. unfold guard_table, base_chains in Hc. cbn [chains fmap list_fmap] in Hc. rewrite !elem_of_cons in Hc.
    assert (Hne' : p.(iif) ≠ m.(rm_interface)) by congruence. destruct (headed_rules m f) as [Hin Hfo].
    destruct Hc as [[= -> ->]|[[= -> ->]|[[= -> ->]|[]%elem_of_nil]]]; cbn [rules priority hook fst snd] in *.
    + by apply (elsewhere_no_match m).
    + by apply (elsewhere_no_match m).
    + unfold DESTINATION_PRIORITY in Hp. destruct Hp as [?|?]; [lia|done].
  - right. split; [done|]. unfold late in Hlate. rewrite Forall_forall in Hlate. by apply Hlate in Hc.
Qed.

Lemma walk_skip p l cs : (∀ e, e ∈ l → first_match p e.2.(rules) = None) → walk p (l ++ cs) = walk p cs.
Proof.
  induction l as [|[key c] l IH]; intros Hl; [done|]. cbn [app walk].
  pose proof (Hl (key, c) ltac:(apply list_elem_of_here)) as Hn. cbn [snd] in Hn. rewrite Hn. apply IH. intros e He. apply Hl. by apply list_elem_of_further.
Qed.

(** The first chain that selects a packet, when all the others up to its priority do not. *)
Lemma walk_first p cs key c others r :
  cs ≡ₚ (key, c) :: others → StronglySorted (λ a b, a.2.(priority) ≤ b.2.(priority)) cs →
  (∀ e, e ∈ others → e.2.(priority) ≤ c.(priority) → first_match p e.2.(rules) = None) →
  first_match p c.(rules) = Some r →
  ∃ later, (∀ e, e ∈ later → e ∈ others) ∧
    walk p cs = match r.(action) with
                | Drop_ => ([(key, r.(counter))], false)
                | Accept => let '(hit, ok) := walk p later in ((key, r.(counter)) :: hit, ok)
                end.
Proof.
  intros Hperm Hsort Hsilent Hr.
  assert (Hin : (key, c) ∈ cs) by (rewrite Hperm; apply list_elem_of_here).
  apply list_elem_of_split in Hin as (l1 & l2 & ->).
  assert (Hsub : l1 ++ l2 ≡ₚ others).
  { apply (inj (cons (key, c))). rewrite <-Hperm. by rewrite Permutation_middle. }
  exists l2. split; [intros e He; rewrite <-Hsub; apply elem_of_app; by right|].
  rewrite walk_skip.
  - cbn [walk]. by rewrite Hr.
  - intros e He. apply Hsilent; [rewrite <-Hsub; apply elem_of_app; by left|].
    eapply (StronglySorted_app_1_elem_of _ l1 ((key, c) :: l2) e (key, c)) in Hsort; [exact Hsort|done|apply list_elem_of_here].
Qed.

Lemma chains_at_split f h k t tb :
  k !! (f, t) = Some tb →
  chains_at f h k ≡ₚ
    (pair (f, t) <$> base.filter (λ c, c.(hook) = h) (snd <$> tb.(chains))) ++ chains_at f h (delete (f, t) k).
Proof.
  intros Hk. unfold chains_at.
  rewrite <-(insert_delete_id k (f, t) tb Hk) at 1. rewrite map_to_list_insert by apply lookup_delete_eq.
  rewrite bind_cons. apply Permutation_app; [|done].
  cbn [fst]. rewrite (bool_decide_eq_true_2 (f = f)) by done.
  induction tb.(chains) as [|[n c] cs IH]; [done|]. rewrite bind_cons, fmap_cons. cbn [andb snd] in *.
  destruct (bool_decide (c.(hook) = h)) eqn:Hc; [apply bool_decide_eq_true in Hc|apply bool_decide_eq_false in Hc].
  - rewrite filter_cons_True by done. cbn. by rewrite IH.
  - rewrite filter_cons_False by done. exact IH.
Qed.

Lemma walk_drops p cs e r :
  e ∈ cs → first_match p e.2.(rules) = Some r → r.(action) = Drop_ → (walk p cs).2 = false.
Proof.
  intros He Hr Ha. induction cs as [|[key c] cs IH]; [by apply elem_of_nil in He|]. cbn [walk].
  apply elem_of_cons in He as [->|He].
  - cbn [snd] in Hr. by rewrite Hr, Ha.
  - destruct (first_match p c.(rules)) as [r'|]; [|by apply IH]. destruct r'.(action); [|done].
    specialize (IH He). destruct (walk p cs) as [hit ok]. done.
Qed.

Lemma walk_hits p cs key n : (key, n) ∈ (walk p cs).1 → ∃ c, (key, c) ∈ cs ∧ first_match p c.(rules) ≠ None.
Proof.
  induction cs as [|[key' c] cs IH]; [by intros ?%elem_of_nil|]. cbn [walk].
  assert (Hlater : (key, n) ∈ (walk p cs).1 → ∃ c', (key, c') ∈ (key', c) :: cs ∧ first_match p c'.(rules) ≠ None).
  { intros Hin. destruct (IH Hin) as (c' & ? & ?). exists c'. split; [by apply list_elem_of_further|done]. }
  destruct (first_match p c.(rules)) as [r|] eqn:Hr; [destruct r.(action)|exact Hlater].
  - destruct (walk p cs) as [hit ok] eqn:Hw. cbn [fst] in *. intros [[= -> ->]|Hin]%elem_of_cons; [|by apply Hlater].
    exists c. rewrite Hr. split; [apply list_elem_of_here|done].
  - cbn [fst]. intros [[= -> ->]|[]%elem_of_nil]%elem_of_cons. exists c. rewrite Hr. split; [apply list_elem_of_here|done].
Qed.

Lemma walk_no_hits p cs : (walk p cs).1 = [] → (walk p cs).2 = true.
Proof.
  induction cs as [|[key c] cs IH]; [done|]. cbn [walk].
  destruct (first_match p c.(rules)) as [r|]; [|exact IH]. destruct r.(action); [by destruct (walk p cs)|done].
Qed.

(** The other tables are silent about the packet or come later: they are those of guests on
    other interfaces, or all their chains have a priority above Guard's. *)
Definition others_wait (m : RuleModel) (k : Kernel) (f : Family) (p : Packet) : Prop :=
  ∀ t tb, t ≠ m.(rm_table) → k !! (f, t) = Some tb → waits p tb.

(** What it is for a kernel to enforce a model, in whichever order it visits chains of equal
    priority.  What the model denies is dropped whatever other tables there are: a packet to
    the host, anything forwarded from or to the guest, all its IPv6.  When the other tables
    wait, the first hit is the model's own with the counter [verdict] names, a denied packet
    has no other, and a permitted one can only be dropped by a table that comes later. *)
Record enforced (m : RuleModel) (k : Kernel) : Prop := {
  enforced_denied p cs :
    p.(iif) = m.(rm_interface) → 0 ≤ p.(dst) < 2 ^ 32 → traversal Ip Input k cs →
    (verdict m p.(src) p.(dst) p.(transport) p.(port)).(permitted) = false → (walk p cs).2 = false;
  enforced_not_forwarded p cs :
    p.(iif) = m.(rm_interface) → 0 ≤ p.(dst) < 2 ^ 32 → traversal Ip Forward k cs → (walk p cs).2 = false;
  enforced_no_ipv6 h p cs :
    p.(iif) = m.(rm_interface) → traversal Ip6 h k cs → (walk p cs).2 = false;
  enforced_input p cs :
    p.(iif) = m.(rm_interface) → 0 ≤ p.(dst) < 2 ^ 32 → others_wait m k Ip p → traversal Ip Input k cs →
    let v := verdict m p.(src) p.(dst) p.(transport) p.(port) in
    ∃ hits ok, walk p cs = (((Ip, m.(rm_table)), v.(v_counter)) :: hits, ok)
      ∧ (v.(permitted) = false → hits = [] ∧ ok = false)
      ∧ (v.(permitted) = true → hits = [] → ok = true)
      ∧ (∀ e, e ∈ hits → e.1 ≠ (Ip, m.(rm_table)) ∧ ∃ tb, k !! e.1 = Some tb ∧ late tb);
  enforced_forward p cs :
    p.(iif) = m.(rm_interface) → 0 ≤ p.(dst) < 2 ^ 32 → others_wait m k Ip p → traversal Ip Forward k cs →
    walk p cs = ([((Ip, m.(rm_table)),
                   if existsb (λ r, range_contains r p.(dst)) m.(rm_blocked)
                   then COUNTER_BLOCKED_RANGE else COUNTER_OTHER_DENIED)], false);
  enforced_to_guest p cs :
    p.(oif) = m.(rm_interface) → traversal Ip Forward k cs → (walk p cs).2 = false;
  enforced_ipv6 h p cs :
    p.(iif) = m.(rm_interface) → others_wait m k Ip6 p → traversal Ip6 h k cs →
    walk p cs = ([((Ip6, m.(rm_table)), COUNTER_IPV6)], false);
  enforced_ipv6_to_guest p cs :
    p.(oif) = m.(rm_interface) → traversal Ip6 Forward k cs → (walk p cs).2 = false }.

Section Enforced.
Context (m : RuleModel) (k : Kernel) (counts : Family → gmap string Z).
Hypothesis Hm : model_ok m.
Hypothesis Hk : ∀ f, k !! (f, m.(rm_table)) = Some (guard_table (counts f) (rules_for m f)).

Lemma others_silent f p h e :
  others_wait m k f p → e ∈ chains_at f h (delete (f, m.(rm_table)) k) →
  e.1 ≠ (f, m.(rm_table))
  ∧ (e.2.(priority) ≤ CHAIN_PRIORITY ∨ h = Input →
     first_match p e.2.(rules) = None ∨ (∃ tb, k !! e.1 = Some tb ∧ late tb) ∧ CHAIN_PRIORITY < e.2.(priority)).
Proof.
  intros Hw He. destruct e as [[f' t] c]. apply elem_of_chains_at in He as (tb & n & Ht & Hf & Hc & Hh).
  cbn [fst] in Hf. subst f'. apply lookup_delete_Some in Ht as [Hne Ht]. split; [by intros [= ->]|]. intros Hp.
  destruct (waiting_silent p tb n c) as [?|[??]]; [|done| |by left|right; eauto].
  - eapply Hw; [|exact Ht]. by intros ->.
  - destruct Hp as [?|<-]; [by left|right; exact Hh].
Qed.

Lemma own_first f h p cs c rest r :
  others_wait m k f p → traversal f h k cs →
  base.filter (λ c, c.(hook) = h) (snd <$> chains (guard_table (counts f) (rules_for m f))) = c :: rest →
  c.(priority) = CHAIN_PRIORITY → Forall (λ c, CHAIN_PRIORITY < c.(priority)) rest →
  first_match p c.(rules) = Some r →
  ∃ later, (∀ e, e ∈ later → e ∈ (pair (f, m.(rm_table)) <$> rest) ∨ e ∈ chains_at f h (delete (f, m.(rm_table)) k)) ∧
    walk p cs = match r.(action) with
                | Drop_ => ([((f, m.(rm_table)), r.(counter))], false)
                | Accept => let '(hit, ok) := walk p later in (((f, m.(rm_table)), r.(counter)) :: hit, ok)
                end.
Proof.
  intros Hw [Hperm Hsort] Hf Hp Hrest Hr. rewrite (chains_at_split _ _ _ _ _ (Hk f)), Hf in Hperm. cbn [fmap list_fmap app] in Hperm.
  edestruct walk_first as (later & Hl & Hwalk); [exact Hperm|exact Hsort| |exact Hr|exists later; split; [|exact Hwalk]].
  - intros e He Hle. rewrite Hp in Hle. apply elem_of_app in He as [(c' & -> & Hc')%list_elem_of_fmap|He].
    + rewrite Forall_forall in Hrest. apply Hrest in Hc'. cbn in Hle. lia.
    + destruct (others_silent f p h e Hw He) as [_ Hs]. destruct Hs as [?|[_ ?]]; [by left|done|lia].
  - intros e He. by apply Hl, elem_of_app in He.
Qed.

Lemma table_in_traversal f h cs n p :
  (n, h, p) ∈ base_chains → traversal f h k cs →
  ((f, m.(rm_table)), {| hook := h; priority := p; rules := rules_of n (rules_for m f) |}) ∈ cs.
Proof.
  intros He [Hp _]. rewrite Hp. apply elem_of_chains_at. eexists _, n. split_and!; [apply Hk|done| |done].
  apply (list_elem_of_fmap_2 (chain_with (rules_for m f)) _ (n, h, p) He).
Qed.

Lemma tables_enforce : enforced m k.
Proof.
  constructor.
  - intros p cs Hi Hd Hcs Hv. destruct (input_match m p Hm Hi Hd) as (r & Hr & _ & Ha). rewrite Hv in Ha.
    eapply walk_drops; [apply (table_in_traversal Ip Input cs "input" CHAIN_PRIORITY)|exact Hr|exact Ha].
    + unfold base_chains. set_solver.
    + done.
  - intros p cs Hi Hd Hcs. destruct (forward_match m p Hm Hi Hd) as (r & Hr & Ha & _).
    eapply walk_drops; [apply (table_in_traversal Ip Forward cs "forward" CHAIN_PRIORITY)|exact Hr|exact Ha].
    + unfold base_chains. set_solver.
    + done.
  - intros h p cs Hi Hcs. destruct (ipv6_match m p) as [Hin _]. destruct (Hin Hi) as [H1 H2].
    destruct h;
      [eapply walk_drops; [apply (table_in_traversal Ip6 Input cs "input" CHAIN_PRIORITY)|exact H1|done]
      |eapply walk_drops; [apply (table_in_traversal Ip6 Forward cs "forward" CHAIN_PRIORITY)|exact H2|done]];
      try done; unfold base_chains; set_solver.
  - intros p cs Hi Hd Hw Hcs v. destruct (input_match m p Hm Hi Hd) as (r & Hr & Hc & Ha). fold v in Hc, Ha.
    edestruct own_first as (later & Hl & ->); [exact Hw|exact Hcs|reflexivity|reflexivity|constructor|exact Hr|].
    rewrite Ha, Hc. destruct v.(permitted).
    + destruct (walk p later) as [hit ok] eqn:Hwalk. exists hit, ok. split_and!; [done|congruence| |].
      { intros _ ->. pose proof (walk_no_hits p later) as Hno. rewrite Hwalk in Hno. by apply Hno. }
      intros [key n] He. destruct (walk_hits p later key n) as (c & Hin & Hsel); [by rewrite Hwalk|].
      apply Hl in Hin as [[]%elem_of_nil|Hin]. destruct (others_silent Ip p Input _ Hw Hin) as [Hne Hs].
      destruct Hs as [?|[? _]]; [by right|done|done].
    + exists [], false. split_and!; [done|done|done|]. by intros e []%elem_of_nil.
  - intros p cs Hi Hd Hw Hcs. destruct (forward_match m p Hm Hi Hd) as (r & Hr & Ha & Hc).
    edestruct own_first as (later & Hl & ->);
      [exact Hw|exact Hcs|reflexivity|reflexivity|repeat constructor; done|exact Hr|].
    by rewrite Ha, Hc.
  - intros p cs Ho Hcs. eapply walk_drops; [apply (table_in_traversal Ip Forward cs "forward_to_guest" DESTINATION_PRIORITY)| |].
    + unfold base_chains. set_solver.
    + done.
    + cbn [snd rules rules_for]. rewrite to_guest_rules4. unfold first_match. cbn. by rewrite bool_decide_eq_true_2.
    + done.
  - intros h p cs Hi Hw Hcs. destruct (ipv6_match m p) as [Hin _]. destruct (Hin Hi) as [H1 H2].
    destruct h; (edestruct own_first as (later & Hl & ->);
      [exact Hw|exact Hcs|reflexivity|reflexivity|repeat constructor; done|eassumption|done]).
  - intros p cs Ho Hcs. destruct (ipv6_match m p) as [_ Hout].
    eapply walk_drops; [apply (table_in_traversal Ip6 Forward cs "forward_to_guest" DESTINATION_PRIORITY)|exact (Hout Ho)|done].
    + unfold base_chains. set_solver.
    + done.
Qed.

End Enforced.

Lemma installed_own m k f :
  installed m k !! (f, m.(rm_table)) =
    Some (guard_table (declared (counters_for f) (kept k f m.(rm_table))) (rules_for m f)).
Proof. unfold installed. destruct f; [rewrite lookup_insert_ne by done|]; apply lookup_insert_eq. Qed.

Lemma installed_other m k f t : t ≠ m.(rm_table) → installed m k !! (f, t) = k !! (f, t).
Proof. intros Hne. unfold installed. rewrite !lookup_insert_ne by congruence. done. Qed.

Lemma installed_enforced m k : model_ok m → enforced m (installed m k).
Proof. intros Hm. eapply tables_enforce; [done|]. intros f. apply (installed_own m k f). Qed.

Lemma creation_reads m text : model_ok m → render m = Some text → read_script text = Some (creation m).
Proof.
  intros Hm. unfold render, finish. case_match; [done|]. intros [= <-].
  destruct (say_app _ _ _ _ (render4_says m Hm) (render6_says m Hm)) as (sss & Hf & Hs). unfold creation. rewrite <-Hs.
  by apply script_reads.
Qed.

(** ** Properties *)
(** No text injects a rule.  Whatever identifier, interface name, addresses, ports and
    ranges a model accepts, nftables reads the rendered batch as exactly the statements the
    model means, line for line: the replacement that flushes first, and the plain creation. *)
Theorem rendered_text_is_read_back p m text :
  typed_params p → RuleModel_new p = Some m →
  (render_replace m = Some text → read_script text = Some (replacement m))
  ∧ (render m = Some text → read_script text = Some (creation m)).
Proof.
  intros Ht Hn. pose proof (new_model_ok p m Ht Hn) as Hm. split; [by apply replacement_reads|by apply creation_reads].
Qed.

(** C4: The firewall decides as the model does.  Where the attachment's table is an earlier
    generation of itself or absent, loading the rendered batch succeeds, leaves every other
    table alone and keeps the counts.  The kernel then drops every packet that [verdict]
    denies, everything forwarded from or to the guest and all its IPv6, whatever other tables
    the host has.  As long as the other tables belong to guests on other interfaces or come at
    a later priority, each packet is counted once under the counter [verdict] names, and one
    that it permits passes unless a later table of the host drops it. *)
Theorem rendered_rules_enforce_verdict `{N : Nft} `{!NftLaws N} p m text k :
  typed_params p → RuleModel_new p = Some m → render_replace m = Some text →
  (∀ f, owned k f m.(rm_table)) →
  ∃ k', nft_load text k = Some k' ∧ enforced m k'
    ∧ (∀ f t, t ≠ m.(rm_table) → k' !! (f, t) = k !! (f, t))
    ∧ (∀ f c n, kept k f m.(rm_table) !! c = Some n → kept k' f m.(rm_table) !! c = Some n).
Proof.
  intros Ht Hn Htext Ho. pose proof (new_model_ok p m Ht Hn) as Hm. exists (installed m k). split_and!.
  - rewrite (nft_reads _ _ k (replacement_reads m Hm _ Htext)). by apply replacement_installs.
  - by apply installed_enforced.
  - intros f t Hne. by apply installed_other.
  - intros f c n Hc. unfold kept at 1. rewrite installed_own. cbn [from_option counters guard_table]. unfold declared.
    by apply lookup_union_Some_l.
Qed.

(** ** A sample attachment *)
Module SampleFirewall.

#[global] Instance reference_nft : Nft :=
  λ text k, match read_script text with Some ss => exec_all ss k | None => None end.
#[global] Instance reference_nft_laws : NftLaws reference_nft.
Proof. intros text ss k Hr. unfold nft_load, reference_nft. by rewrite Hr. Qed.

Definition params : RuleParams := {|
  sandbox := "0123456789abcdef0123456789abcdef"; interface := "tap-guest0"; guest_ip := ip4 10 0 0 2;
  gateway_ip := ip4 10 0 0 1; dns_port := 53; broker_port := 8443; permits_dns := true; permits_broker := true;
  cut := false; blocked_ipv4 := ["10.0.0.0/8"; "169.254.169.254"]%string |}.

Lemma rendered_text_is_read_back_witness :
  ∃ m text, RuleModel_new params = Some m ∧ render_replace m = Some text ∧ read_script text = Some (replacement m)
    ∧ 20 ≤ count (replacement m).
Proof.
  destruct (RuleModel_new params) as [m|] eqn:Hm; [|by vm_compute in Hm].
  destruct (render_replace m) as [text|] eqn:Ht; [|vm_compute in Hm; injection Hm as <-; by vm_compute in Ht].
  exists m, text. split_and!; [done|done| |].
  - apply (rendered_text_is_read_back params m text); [by vm_compute|done|done].
  - vm_compute in Hm. injection Hm as <-. by vm_compute.
Defined.

Lemma rendered_rules_enforce_verdict_witness :
  ∃ m text k', RuleModel_new params = Some m ∧ nft_load text ∅ = Some k' ∧ enforced m k'.
Proof.
  destruct (RuleModel_new params) as [m|] eqn:Hm; [|by vm_compute in Hm].
  destruct (render_replace m) as [text|] eqn:Ht; [|vm_compute in Hm; injection Hm as <-; by vm_compute in Ht].
  destruct (rendered_rules_enforce_verdict params m text ∅) as (k' & Hl & He & _); [by vm_compute|done|done|by left|].
  by exists m, text, k'.
Defined.

End SampleFirewall.
