(* ===== verification/Enforcement.v ===== *)
(** * Enforcement: the backends that keep a guest inside its policy

    [crates/aiec-guard/src/enforcement.rs]: the attachment and its counters, the model a
    compiled policy gives an attachment ([build], [cut_model]), the in-memory backend
    ([Memory], the source's [TestBackend]) and the one that drives [nft] ([Nftables]).

    Crates outside the repository are arguments: the text forms of a UUID and of a network
    ([Texts]), JSON ([NftJson]) and what [nft] lists ([NftListing]).  How a run of [nft]
    ends is an argument of the operation that starts it.  The backend's lock is never
    poisoned, since no critical section panics; messages of errors are not modelled. *)

From Stdlib Require Import Ascii.
From S2P Require Import Prelude Policy Boundary L7 Text Render Nft Firewall.

(** ** Text forms *)
Class Texts := { simple : Uuid → string; net_text : IpNet → string }.

(** [Uuid::simple]: 32 hexadecimal digits, one text per UUID; [Display] of an [Ipv4Net]. *)
Class TextsLaws (T : Texts) : Prop := {
  simple_shape u : is_uuid u → slen (simple u) = 32 ∧ all_bytes is_ascii_hexdigit (simple u) = true;
  simple_inj u v : is_uuid u → is_uuid v → simple u = simple v → u = v;
  net_text_v4 a p : net_text (V4Net a p) = dotted a +:+ "/" +:+ decimal p }.

(** ** Attachments *)
Record GuardAttachment := {
  sandbox_id : Uuid; tenant_id : Uuid; at_interface : string; at_guest_ip : Z; at_gateway_ip : Z;
  at_dns_port : Z; at_broker_port : Z }.

(** ** Counters *)
Inductive CounterKind := BlockedRange_ | OtherDenied | Ipv6_ | DnsPermitted | BrokerPermitted.
#[global] Instance CounterKind_eq_dec : EqDecision CounterKind. Proof. solve_decision. Defined.

Definition ALL : list CounterKind := [BlockedRange_; OtherDenied; Ipv6_; DnsPermitted; BrokerPermitted].

Definition nft_name (kind : CounterKind) : string :=
  match kind with
  | BlockedRange_ => COUNTER_BLOCKED_RANGE
  | OtherDenied => COUNTER_OTHER_DENIED
  | Ipv6_ => COUNTER_IPV6
  | DnsPermitted => COUNTER_DNS_PERMITTED
  | BrokerPermitted => COUNTER_BROKER_PERMITTED
  end.

Definition kind_family (kind : CounterKind) : string :=
  match kind with Ipv6_ => FAMILY_V6 | _ => FAMILY_V4 end.

Definition from_nft_name (name : string) : option CounterKind :=
  List.find (λ kind, bool_decide (nft_name kind = name)) ALL.

Record CounterSnapshot := {
  cs_table : string; blocked_range : Z; other_denied : Z; ipv6 : Z; dns_permitted : Z; broker_permitted : Z }.

Definition default_snapshot : CounterSnapshot :=
  {| cs_table := ""; blocked_range := 0; other_denied := 0; ipv6 := 0; dns_permitted := 0; broker_permitted := 0 |}.

Definition snap_get (s : CounterSnapshot) (kind : CounterKind) : Z :=
  match kind with
  | BlockedRange_ => s.(blocked_range)
  | OtherDenied => s.(other_denied)
  | Ipv6_ => s.(ipv6)
  | DnsPermitted => s.(dns_permitted)
  | BrokerPermitted => s.(broker_permitted)
  end.

Definition snap_set (s : CounterSnapshot) (kind : CounterKind) (packets : Z) : CounterSnapshot :=
  let 'Build_CounterSnapshot t b o i d k := s in
  match kind with
  | BlockedRange_ => Build_CounterSnapshot t packets o i d k
  | OtherDenied => Build_CounterSnapshot t b packets i d k
  | Ipv6_ => Build_CounterSnapshot t b o packets d k
  | DnsPermitted => Build_CounterSnapshot t b o i packets k
  | BrokerPermitted => Build_CounterSnapshot t b o i d packets
  end.

Definition with_table (s : CounterSnapshot) (table : string) : CounterSnapshot :=
  let 'Build_CounterSnapshot _ b o i d k := s in Build_CounterSnapshot table b o i d k.

Definition record_ (s : CounterSnapshot) (counter : string) : CounterSnapshot :=
  match from_nft_name counter with
  | Some kind => snap_set s kind (saturating_add u64_max (snap_get s kind) 1)
  | None => s
  end.

Definition snap_permitted (s : CounterSnapshot) : Z := saturating_add u64_max s.(dns_permitted) s.(broker_permitted).
Definition snap_denied (s : CounterSnapshot) : Z :=
  saturating_add u64_max (saturating_add u64_max s.(blocked_range) s.(other_denied)) s.(ipv6).
Definition snap_total (s : CounterSnapshot) : Z := saturating_add u64_max (snap_permitted s) (snap_denied s).

(** ** The model of an attachment *)
(** [Vec::dedup]. *)
Fixpoint dedup (l : list string) : list string :=
  match l with
  | x :: (y :: _) as rest => if bool_decide (x = y) then dedup rest else x :: dedup rest
  | _ => l
  end.

Definition denied_networks (b : OperatorBoundary) : list IpNet :=
  default_blocked_cidrs ++ b.(blocked_cidrs) ++ b.(protected_cidrs).

Definition is_v4 (net : IpNet) : bool := match net with V4Net _ _ => true | V6Net _ _ => false end.

Section Models.
Context `{Texts}.

Definition attachment_table (a : GuardAttachment) : string := table_name (simple a.(sandbox_id)).

Definition build (c : CompiledPolicy) (a : GuardAttachment) (cut : bool) : result GuardError.t RuleModel :=
  let permits_dns := negb (bool_decide (c.(cp_policy).(network).(dns).(allowed_zones) = [])) in
  let permits_broker := bool_decide (is_Some c.(cp_policy).(model))
                        || negb (bool_decide (c.(cp_policy).(network).(egress) = [])) in
  let blocked := net_text <$> base.filter (λ net, is_v4 net = true) (denied_networks c.(boundary)) in
  ok_or (RuleModel_new {|
    sandbox := simple a.(sandbox_id); interface := a.(at_interface); guest_ip := a.(at_guest_ip);
    gateway_ip := a.(at_gateway_ip); dns_port := a.(at_dns_port); broker_port := a.(at_broker_port);
    permits_dns := permits_dns; permits_broker := permits_broker; cut := cut;
    blocked_ipv4 := dedup (sort_by string_leb blocked) |}) GuardError.Policy.

(** [EnforcementModel::cut]. *)
Definition cut_model (a : GuardAttachment) : result GuardError.t RuleModel :=
  ok_or (RuleModel_new {|
    sandbox := simple a.(sandbox_id); interface := a.(at_interface); guest_ip := a.(at_guest_ip);
    gateway_ip := a.(at_gateway_ip); dns_port := a.(at_dns_port); broker_port := a.(at_broker_port);
    permits_dns := false; permits_broker := false; cut := true; blocked_ipv4 := [] |}) GuardError.Policy.

Definition validate_attachment (a : GuardAttachment) : result GuardError.t () := let? _ := cut_model a in Ok ().

Definition ruleset (m : RuleModel) : result GuardError.t (list ascii) := ok_or (render m) GuardError.Policy.
Definition flushable_ruleset (m : RuleModel) : result GuardError.t (list ascii) :=
  ok_or (render_replace m) GuardError.Policy.

End Models.

(** ** The in-memory backend *)
Inductive EnforcementState := Unmanaged | Applied | CutOff | Removed.
#[global] Instance EnforcementState_eq_dec : EqDecision EnforcementState. Proof. solve_decision. Defined.

Record TestEntry := { te_state : EnforcementState; te_model : option RuleModel; te_counters : CounterSnapshot }.

Abbreviation TestBackend := (gmap Uuid TestEntry) (only parsing).

Module Memory.
Section Backend.
Context `{Texts}.

Definition state (b : TestBackend) (id : Uuid) : EnforcementState := from_option te_state Unmanaged (b !! id).

Definition installed_model (b : TestBackend) (id : Uuid) : option RuleModel := b !! id ≫= te_model.

Definition active_ruleset (b : TestBackend) (a : GuardAttachment) : result GuardError.t (option (list ascii)) :=
  match installed_model b a.(sandbox_id) with
  | Some m => let? text := ruleset m in Ok (Some text)
  | None => Ok None
  end.

Definition permits (b : TestBackend) (a : GuardAttachment) (source destination : Z) (t : Transport) (port : Z) : bool :=
  match installed_model b a.(sandbox_id) with
  | Some m => Render.permits m source destination t port
  | None => false
  end.

(** The entry with one more packet on a counter. *)
Definition counted (e : TestEntry) (counter : string) : TestEntry :=
  {| te_state := e.(te_state); te_model := e.(te_model); te_counters := record_ e.(te_counters) counter |}.

Definition record_packet (b : TestBackend) (a : GuardAttachment) (source destination : Z) (t : Transport) (port : Z)
    : TestBackend * option bool :=
  match b !! a.(sandbox_id) with
  | Some e =>
      match e.(te_model) with
      | Some m =>
          let v := verdict m source destination t port in
          (<[a.(sandbox_id) := counted e v.(v_counter)]> b, Some v.(permitted))
      | None => (b, None)
      end
  | None => (b, None)
  end.

Definition record_ipv6_packet (b : TestBackend) (a : GuardAttachment) : TestBackend * option bool :=
  match b !! a.(sandbox_id) with
  | Some e =>
      match e.(te_model) with
      | Some m => (<[a.(sandbox_id) := counted e COUNTER_IPV6]> b, Some permits_ipv6)
      | None => (b, None)
      end
  | None => (b, None)
  end.

Definition snapshot (b : TestBackend) (a : GuardAttachment) : result GuardError.t CounterSnapshot :=
  match b !! a.(sandbox_id) with
  | Some e => match e.(te_model) with Some _ => Ok e.(te_counters) | None => Err GuardError.Unavailable end
  | None => Err GuardError.Unavailable
  end.

Definition install (b : TestBackend) (a : GuardAttachment) (m : RuleModel) (s : EnforcementState) : TestBackend :=
  let previous := from_option te_counters default_snapshot (b !! a.(sandbox_id)) in
  <[a.(sandbox_id) := {| te_state := s; te_model := Some m; te_counters := with_table previous m.(rm_table) |}]> b.

Definition apply_policy (b : TestBackend) (c : CompiledPolicy) (a : GuardAttachment)
    : TestBackend * result GuardError.t () :=
  match build c a false with Ok m => (install b a m Applied, Ok ()) | Err e => (b, Err e) end.

Definition remove_policy (b : TestBackend) (a : GuardAttachment) : TestBackend * result GuardError.t () :=
  match b !! a.(sandbox_id) with
  | None => (b, Ok ())
  | Some _ =>
      (<[a.(sandbox_id) := {| te_state := Removed; te_model := None; te_counters := default_snapshot |}]> b, Ok ())
  end.

Definition cut_network (b : TestBackend) (a : GuardAttachment) : TestBackend * result GuardError.t () :=
  match cut_model a with Ok m => (install b a m CutOff, Ok ()) | Err e => (b, Err e) end.

Definition restore_network (b : TestBackend) (c : CompiledPolicy) (a : GuardAttachment)
    : TestBackend * result GuardError.t () :=
  match build c a false with Ok m => (install b a m Applied, Ok ()) | Err e => (b, Err e) end.

Definition consistent (e : TestEntry) : bool :=
  match e.(te_state) with
  | Applied | CutOff => bool_decide (is_Some e.(te_model))
  | Unmanaged | Removed => bool_decide (e.(te_model) = None)
  end.

Definition health (b : TestBackend) : result GuardError.t () :=
  if forallb consistent (snd <$> map_to_list b) then Ok () else Err GuardError.Integrity.

End Backend.
End Memory.

(** ** The nftables backend *)
Definition NFT_STDOUT_LIMIT : Z := 4 * 1024 * 1024.
Definition HEALTH_PROBE_TABLE : string := "aiec_guard_health_probe".

(** [serde_json] as this file uses it: a document, and a number read as [u64]. *)
Class NftJson := { JNum : Type; from_slice : list ascii → option (Value JNum); as_u64_num : JNum → option Z }.

(** [Value::get], [as_array] and [as_u64]. *)
Definition value_get {Num} (v : Value Num) (key : string) : option (Value Num) :=
  match v with Object entries => get key entries | _ => None end.
Definition as_array {Num} (v : Value Num) : option (list (Value Num)) :=
  match v with Array items => Some items | _ => None end.

Section Listings.
Context `{NftJson}.

Definition as_u64 (v : Value JNum) : option Z := match v with Number n => as_u64_num n | _ => None end.

Definition table_entry (entry : Value JNum) : option (string * string) :=
  table ← value_get entry "table";
  family ← value_get table "family" ≫= as_str;
  name ← value_get table "name" ≫= as_str;
  Some (family, name).

Definition parse_tables (bytes : list ascii) : gset (string * string) :=
  match from_slice bytes with
  | None => ∅
  | Some value =>
      let entries := match value with
                     | Array entries => entries
                     | _ => match value_get value "nftables" with Some (Array entries) => entries | _ => [] end
                     end in
      list_to_set (omap table_entry entries)
  end.

Definition counter_entry (entry : Value JNum) : option (string * Z) :=
  counter ← value_get entry "counter";
  name ← value_get counter "name" ≫= as_str;
  packets ← value_get counter "packets" ≫= as_u64;
  Some (name, packets).

Definition tally (counters : gmap string Z) (e : string * Z) : gmap string Z :=
  <[e.1 := saturating_add u64_max (default 0 (counters !! e.1)) e.2]> counters.

Definition parse_counters (bytes : list ascii) : result GuardError.t (gmap string Z) :=
  match from_slice bytes with
  | None => Err GuardError.Json
  | Some value =>
      match value_get value "nftables" ≫= as_array with
      | None => Err GuardError.Integrity
      | Some entries => Ok (foldl tally ∅ (omap counter_entry entries))
      end
  end.

End Listings.

(** How a run that changes the kernel ends: [nft] answered, was never started, or was
    started and its end was not seen, the batch committed or not. *)
Inductive Run := Ran | NotRun | Unfinished (committed : bool) | WaitFailed (committed : bool).

(** How a run that reads ends: its exit status and the bytes read, or no answer. *)
Inductive Answer := Exited (success : bool) (stdout : list ascii) | Unanswered (e : GuardError.t).

Module Nftables.
Section Backend.
Context `{Texts} `{Nft} `{NftJson}.

(** [run] with a batch on its standard input. *)
Definition run_batch (r : Run) (script : list ascii) (k : Kernel) : Kernel * result GuardError.t bool :=
  let committed (c : bool) := if c then default k (nft_load script k) else k in
  match r with
  | Ran => match nft_load script k with Some k' => (k', Ok true) | None => (k, Ok false) end
  | NotRun => (k, Err GuardError.Unavailable)
  | Unfinished c => (committed c, Err GuardError.Unavailable)
  | WaitFailed c => (committed c, Err GuardError.Io)
  end.

Definition apply_batch (r : Run) (script : list ascii) (k : Kernel) : Kernel * result GuardError.t () :=
  let '(k, answer) := run_batch r script k in
  (k, match answer with Ok true => Ok () | Ok false | Err _ => Err GuardError.Unavailable end).

Definition install (r : Run) (m : RuleModel) (k : Kernel) : Kernel * result GuardError.t () :=
  match flushable_ruleset m with Ok script => apply_batch r script k | Err e => (k, Err e) end.

Definition answered (a : Answer) : result GuardError.t (list ascii) :=
  match a with
  | Exited true stdout => Ok stdout
  | Exited false _ => Err GuardError.Unavailable
  | Unanswered e => Err e
  end.

Definition existing_tables (a : Answer) : result GuardError.t (gset (string * string)) :=
  let? stdout := answered a in Ok (parse_tables stdout).

Definition removal_batch (table : string) (present : gset (string * string)) : list (list ascii) :=
  family ← [FAMILY_V4; FAMILY_V6];
  if bool_decide ((family, table) ∈ present) then [unwords ["delete"; "table"; family; table]%string] else [].

Definition uninstall (tables : Answer) (r : Run) (a : GuardAttachment) (k : Kernel) : Kernel * result GuardError.t () :=
  match existing_tables tables with
  | Err e => (k, Err e)
  | Ok present =>
      match removal_batch (attachment_table a) present with
      | [] => (k, Ok ())
      | batch => apply_batch r (script batch) k
      end
  end.

Definition apply_policy (r : Run) (c : CompiledPolicy) (a : GuardAttachment) (k : Kernel) : Kernel * result GuardError.t () :=
  match build c a false with Ok m => install r m k | Err e => (k, Err e) end.

Definition remove_policy (tables : Answer) (r : Run) (a : GuardAttachment) (k : Kernel)
    : Kernel * result GuardError.t () := uninstall tables r a k.

Definition cut_network (r : Run) (a : GuardAttachment) (k : Kernel) : Kernel * result GuardError.t () :=
  match cut_model a with Ok m => install r m k | Err e => (k, Err e) end.

Definition restore_network (r : Run) (c : CompiledPolicy) (a : GuardAttachment) (k : Kernel)
    : Kernel * result GuardError.t () :=
  match build c a false with Ok m => install r m k | Err e => (k, Err e) end.

(** The version, the ruleset and a checked probe of each family; none changes the kernel. *)
Definition health (version list_ruleset probe4 probe6 : Answer) : result GuardError.t () :=
  let? _ := answered version in
  let? _ := answered list_ruleset in
  let? _ := answered probe4 in
  let? _ := answered probe6 in
  Ok ().

Definition counter_listing (a : Answer) : result GuardError.t (gmap string Z) :=
  let? stdout := answered a in parse_counters stdout.

(** A family's listing, taken into the snapshot. *)
Definition take_counter (family : string) (s : CounterSnapshot) (e : string * Z) : CounterSnapshot :=
  match from_nft_name e.1 with
  | Some kind => if bool_decide (kind_family kind = family) then snap_set s kind e.2 else s
  | None => s
  end.

Definition counters (listing4 listing6 : Answer) (a : GuardAttachment) : result GuardError.t CounterSnapshot :=
  let snapshot := with_table default_snapshot (attachment_table a) in
  let? listing := counter_listing listing4 in
  let snapshot := foldl (take_counter FAMILY_V4) snapshot (map_to_list listing) in
  let? listing := counter_listing listing6 in
  Ok (foldl (take_counter FAMILY_V6) snapshot (map_to_list listing)).

End Backend.
End Nftables.

(** ** Models of attachments *)
(** The attachment's fields at their types: [Ipv4Addr] and [u16]. *)
Definition typed_attachment (a : GuardAttachment) : Prop :=
  0 ≤ a.(at_guest_ip) < 2 ^ 32 ∧ 0 ≤ a.(at_gateway_ip) < 2 ^ 32 ∧ 0 ≤ a.(at_dns_port) ≤ u16_max
  ∧ 0 ≤ a.(at_broker_port) ≤ u16_max.

(** A network at its type. *)
Definition typed_net (net : IpNet) : Prop :=
  match net with V4Net a p => 0 ≤ a < 2 ^ 32 ∧ 0 ≤ p ≤ 32 | V6Net a p => 0 ≤ a < 2 ^ 128 ∧ 0 ≤ p ≤ 128 end.

Lemma dedup_subseteq l x : x ∈ dedup l → x ∈ l.
Proof.
  induction l as [|y l IH]; [done|]. cbn [dedup]. destruct l as [|z l]; [done|].
  case_bool_decide; intros Hx; [apply list_elem_of_further; by apply IH|].
  apply elem_of_cons in Hx as [->|Hx]; [apply list_elem_of_here|apply list_elem_of_further; by apply IH].
Qed.

Lemma dedup_superseteq l x : x ∈ l → x ∈ dedup l.
Proof.
  induction l as [|y l IH]; [done|]. cbn [dedup]. destruct l as [|z l]; [done|]. intros Hx.
  case_bool_decide as Hy.
  - apply IH. apply elem_of_cons in Hx as [->|Hx]; [subst; apply list_elem_of_here|done].
  - apply elem_of_cons in Hx as [->|Hx]; [apply list_elem_of_here|apply list_elem_of_further; by apply IH].
Qed.

Lemma dedup_length l : count (dedup l) ≤ count l.
Proof.
  induction l as [|y l IH]; [done|]. cbn [dedup]. destruct l as [|z l]; [done|].
  case_bool_decide; rewrite ?count_cons in *; lia.
Qed.

(** A validated boundary has at most 256 ranges of each kind. *)
Lemma validated_counts `{IpNetLib} b : validate_boundary b = Ok () →
  count b.(blocked_cidrs) ≤ 256 ∧ count b.(protected_cidrs) ≤ 256.
Proof.
  unfold validate_boundary. intros Hv. ok_inv Hv. unfold MAX_BOUNDARY_CIDRS in *.
  repeat match goal with H : (_ <? _) = false |- _ => apply Z.ltb_ge in H end. lia.
Qed.

Lemma default_nets_typed : Forall typed_net default_blocked_cidrs.
Proof. unfold default_blocked_cidrs. repeat constructor; vm_compute; congruence. Qed.

Section ModelFacts.
Context `{T : Texts} `{!TextsLaws T}.

(** What both constructors set. *)
Definition model_for (a : GuardAttachment) (m : RuleModel) : Prop :=
  m.(rm_table) = attachment_table a ∧ m.(rm_interface) = a.(at_interface) ∧ model_ok m.

Lemma new_model_for a p m :
  typed_attachment a → p.(sandbox) = simple a.(sandbox_id) → p.(interface) = a.(at_interface) →
  p.(guest_ip) = a.(at_guest_ip) → p.(gateway_ip) = a.(at_gateway_ip) → p.(dns_port) = a.(at_dns_port) →
  p.(broker_port) = a.(at_broker_port) → RuleModel_new p = Some m → model_for a m.
Proof.
  intros (?&?&?&?) Hs Hi Hg Hw Hd Hb Hn. split_and!.
  - revert Hn. unfold RuleModel_new. repeat case_match; intros ?; simplify_eq/=. unfold attachment_table. by rewrite Hs.
  - revert Hn. unfold RuleModel_new. repeat case_match; intros ?; simplify_eq/=. done.
  - eapply new_model_ok; [|exact Hn]. unfold typed_params. by rewrite Hg, Hw, Hd, Hb.
Qed.

Lemma build_model_for c a k m : typed_attachment a → build c a k = Ok m → model_for a m.
Proof.
  intros Ha. unfold build. destruct (RuleModel_new _) as [m'|] eqn:Hn; [|done]. intros [= <-].
  by eapply new_model_for; [done|..|exact Hn].
Qed.

Lemma cut_model_for a m : typed_attachment a → cut_model a = Ok m → model_for a m.
Proof.
  intros Ha. unfold cut_model. destruct (RuleModel_new _) as [m'|] eqn:Hn; [|done]. intros [= <-].
  by eapply new_model_for; [done|..|exact Hn].
Qed.

(** The ranges of a boundary, as the rules are given them. *)
Definition blocked_texts (b : OperatorBoundary) : list string :=
  dedup (sort_by string_leb (net_text <$> base.filter (λ net, is_v4 net = true) (denied_networks b))).

Lemma blocked_texts_count `{IpNetLib} b : validate_boundary b = Ok () → count (blocked_texts b) ≤ 527.
Proof.
  intros [Hb Hp]%validated_counts. unfold blocked_texts. etrans; [apply dedup_length|].
  unfold count. rewrite sort_by_perm, length_fmap. unfold denied_networks. rewrite !filter_app, !length_app.
  pose proof (length_filter (λ net, is_v4 net = true) b.(blocked_cidrs)).
  pose proof (length_filter (λ net, is_v4 net = true) b.(protected_cidrs)).
  change (length (base.filter (λ net, is_v4 net = true) default_blocked_cidrs)) with 15%nat.
  unfold count in *. lia.
Qed.

Lemma blocked_texts_parse b :
  Forall typed_net (b.(blocked_cidrs) ++ b.(protected_cidrs)) → is_Some (mapM range_parse (blocked_texts b)).
Proof.
  intros Ht. apply mapM_is_Some_2, Forall_forall. intros text Hin. unfold blocked_texts in Hin.
  apply dedup_subseteq in Hin. rewrite sort_by_perm in Hin. apply list_elem_of_fmap in Hin as (net & -> & Hnet).
  apply list_elem_of_filter in Hnet as [Hv Hnet]. destruct net as [a p|]; [|done]. rewrite net_text_v4.
  assert (Htn : typed_net (V4Net a p)).
  { unfold denied_networks in Hnet. apply elem_of_app in Hnet as [Hd|Hd].
    - pose proof default_nets_typed as Hall. rewrite Forall_forall in Hall. by apply Hall.
    - rewrite Forall_forall in Ht. by apply Ht. }
  destruct Htn as [Ha Hp]. destruct (range_parse_net a p Ha Hp) as (r & Hr & _). by exists r.
Qed.

(** Two parameter sets for one attachment are both valid or both not, ranges aside. *)
Lemma new_model_ranges p q m :
  p.(sandbox) = q.(sandbox) → p.(interface) = q.(interface) → p.(guest_ip) = q.(guest_ip) →
  p.(gateway_ip) = q.(gateway_ip) → p.(dns_port) = q.(dns_port) → p.(broker_port) = q.(broker_port) →
  RuleModel_new p = Some m → count q.(blocked_ipv4) ≤ MAX_BLOCKED_RANGES →
  is_Some (mapM range_parse q.(blocked_ipv4)) → is_Some (RuleModel_new q).
Proof.
  intros Hs Hi Hg Hw Hd Hb Hn Hc [rs Hr]. unfold RuleModel_new in *. rewrite Hs, Hi, Hg, Hw, Hd, Hb in Hn.
  repeat (case_match; [done|]). rewrite (proj2 (Z.ltb_ge _ _)) by done. rewrite Hr. by eexists.
Qed.

(** The ranges of a built model cover exactly the addresses the boundary denies. *)
Lemma blocked_ranges_exact `{L : IpNetLib} `{!IpNetLaws L} b rs x :
  Forall typed_net (b.(blocked_cidrs) ++ b.(protected_cidrs)) → mapM range_parse (blocked_texts b) = Some rs →
  0 ≤ x < 2 ^ 32 →
  existsb (λ r, range_contains r x) rs = existsb (λ net, Boundary.contains net (V4 x)) (denied_networks b).
Proof.
  intros Ht Hrs Hx. apply mapM_Some in Hrs. apply eq_true_iff_eq. rewrite !existsb_exists.
  assert (Htyped : ∀ net, net ∈ denied_networks b → typed_net net).
  { intros net Hnet. unfold denied_networks in Hnet. apply elem_of_app in Hnet as [Hd|Hd].
    - pose proof default_nets_typed as Hall. rewrite Forall_forall in Hall. by apply Hall.
    - rewrite Forall_forall in Ht. by apply Ht. }
  assert (Hspec : ∀ a p r, V4Net a p ∈ denied_networks b → range_parse (net_text (V4Net a p)) = Some r →
            range_contains r x = Boundary.contains (V4Net a p) (V4 x)).
  { intros a p r Hnet Hr. destruct (Htyped _ Hnet) as [Ha Hp]. rewrite net_text_v4 in Hr.
    destruct (range_parse_net a p Ha Hp) as (r' & Hr' & Hok). rewrite contains_v4.
    assert (r' = r) as -> by congruence. by apply range_contains_spec. }
  split.
  - intros (r & Hin%list_elem_of_In & Hc). apply list_elem_of_lookup_1 in Hin as [i Hi].
    destruct (Forall2_lookup_r _ _ _ _ _ Hrs Hi) as (text & Htext & Hp).
    apply list_elem_of_lookup_2, dedup_subseteq in Htext. rewrite sort_by_perm in Htext.
    apply list_elem_of_fmap in Htext as (net & -> & Hnet). apply list_elem_of_filter in Hnet as [Hv Hnet].
    destruct net as [a p|]; [|done]. exists (V4Net a p). split; [by apply list_elem_of_In|]. by rewrite <-(Hspec a p r).
  - intros (net & Hin%list_elem_of_In & Hc). destruct net as [a p|]; [|by rewrite contains_v6_v4 in Hc].
    assert (Htext : net_text (V4Net a p) ∈ blocked_texts b).
    { apply dedup_superseteq. rewrite sort_by_perm. apply list_elem_of_fmap_2. by apply list_elem_of_filter. }
    apply list_elem_of_lookup_1 in Htext as [i Hi]. destruct (Forall2_lookup_l _ _ _ _ _ Hrs Hi) as (r & Hr & Hp).
    exists r. split; [by eapply list_elem_of_In, list_elem_of_lookup_2|]. by rewrite (Hspec a p r).
Qed.

Lemma new_model_blocked p m : RuleModel_new p = Some m → mapM range_parse p.(blocked_ipv4) = Some m.(rm_blocked).
Proof. unfold RuleModel_new. repeat case_match; intros ?; simplify_eq/=; done. Qed.

Lemma built_fits `{IpNetLib} c a k m :
  typed_attachment a → validate_boundary c.(boundary) = Ok () → build c a k = Ok m →
  ∃ text, flushable_ruleset m = Ok text.
Proof.
  intros Ha Hb Hm. pose proof (blocked_texts_count _ Hb) as Hc. pose proof (build_model_for _ _ _ _ Ha Hm) as Hfor.
  unfold build in Hm. destruct (RuleModel_new _) as [m'|] eqn:Hn; [|done]. injection Hm as <-.
  apply new_model_blocked in Hn. cbn [blocked_ipv4] in Hn. fold (blocked_texts c.(boundary)) in Hn.
  destruct (replace_fits m') as [text Htext]; [apply Hfor| |].
  { apply mapM_Some, Forall2_length in Hn. unfold count in *. lia. }
  exists text. unfold flushable_ruleset. by rewrite Htext.
Qed.

Lemma build_fits `{IpNetLib} c a k :
  typed_attachment a → validate_attachment a = Ok () → validate_boundary c.(boundary) = Ok () →
  Forall typed_net (c.(boundary).(blocked_cidrs) ++ c.(boundary).(protected_cidrs)) →
  ∃ m text, build c a k = Ok m ∧ flushable_ruleset m = Ok text ∧ model_for a m
    ∧ mapM range_parse (blocked_texts c.(boundary)) = Some m.(rm_blocked).
Proof.
  intros Ha Hv Hb Ht. pose proof (blocked_texts_count _ Hb) as Hc.
  unfold validate_attachment, cut_model in Hv. destruct (RuleModel_new _) as [m0|] eqn:H0; [|done].
  unfold build. fold (blocked_texts c.(boundary)).
  match goal with |- context [RuleModel_new ?q] => assert (Hm : is_Some (RuleModel_new q)) end.
  { eapply new_model_ranges; [..|exact H0| |exact (blocked_texts_parse _ Ht)]; [reflexivity..|].
    cbn [blocked_ipv4]. unfold MAX_BLOCKED_RANGES. lia. }
  destruct Hm as [m Hm].
  assert (Hbuild : build c a k = Ok m) by (unfold build; fold (blocked_texts c.(boundary)); by rewrite Hm).
  destruct (built_fits c a k m Ha Hb Hbuild) as [text Htext].
  exists m, text. rewrite Hm. split_and!; [done|done|by eapply build_model_for|by apply new_model_blocked in Hm].
Qed.

Lemma cut_fits a m : typed_attachment a → cut_model a = Ok m → ∃ text, flushable_ruleset m = Ok text.
Proof.
  intros Ha Hc. pose proof (cut_model_for _ _ Ha Hc) as Hfor. unfold cut_model in Hc.
  destruct (RuleModel_new _) as [m'|] eqn:Hn; [|done]. injection Hc as <-.
  apply new_model_blocked in Hn. cbn in Hn. injection Hn as Hn.
  destruct (replace_fits m') as [text Htext]; [apply Hfor|rewrite <-Hn; done|].
  exists text. unfold flushable_ruleset. by rewrite Htext.
Qed.

End ModelFacts.

(** ** What [nft] lists *)
Definition family_text (f : Family) : string := match f with Ip => FAMILY_V4 | Ip6 => FAMILY_V6 end.

Definition table_object {Num} (key : Family * string) (rest : list (string * Value Num)) : Value Num :=
  Object [("table"%string, Object (("family"%string, VString (family_text key.1)) :: ("name"%string, VString key.2) :: rest))].

Definition counter_object {Num} (name : string) (packets : Num) (rest : list (string * Value Num)) : Value Num :=
  Object [("counter"%string, Object (("name"%string, VString name) :: ("packets"%string, Number packets) :: rest))].

Class NftListing (J : NftJson) := {
  list_tables : Kernel → list ascii;
  list_counters : Family → string → Kernel → option (list ascii) }.

(** libnftables-json(5): an [nftables] array, an information object first; listing the
    counters of a table that does not exist fails. *)
Class NftListingLaws (J : NftJson) (L : NftListing J) : Prop := {
  list_tables_spec k : ∃ meta rest,
    from_slice (list_tables k) =
      Some (Object [("nftables"%string, Array (meta :: ((λ key, table_object key (rest key)) <$> (map_to_list k).*1)))])
    ∧ value_get meta "table" = None;
  list_counters_none f t k : k !! (f, t) = None → list_counters f t k = None;
  list_counters_spec f t k tb : k !! (f, t) = Some tb → ∃ bytes meta rest (num : Z → JNum),
    list_counters f t k = Some bytes
    ∧ from_slice bytes =
        Some (Object [("nftables"%string,
          Array (meta :: ((λ e, counter_object e.1 (num e.2) (rest e.1)) <$> map_to_list tb.(counters))))])
    ∧ value_get meta "counter" = None
    ∧ ∀ n, 0 ≤ n ≤ u64_max → as_u64_num (num n) = Some n }.

Section ListingFacts.
Context {J : NftJson} {L : NftListing J} `{!NftListingLaws J L}.

Lemma family_text_inj f g : family_text f = family_text g → f = g.
Proof. by destruct f, g. Qed.

Lemma listed_tables f t k : (family_text f, t) ∈ parse_tables (list_tables k) ↔ is_Some (k !! (f, t)).
Proof.
  destruct (list_tables_spec k) as (meta & rest & Hs & Hmeta). unfold parse_tables. rewrite Hs.
  assert (Hnil : table_entry meta = None) by (unfold table_entry; by rewrite Hmeta).
  change (value_get (Object [("nftables"%string, Array ?es)]) "nftables") with (Some (Array es)). cbv iota.
  rewrite elem_of_list_to_set. cbn [omap list_omap]. rewrite Hnil. rewrite list_elem_of_omap. split.
  - intros (e & ([f' t'] & -> & Hin)%list_elem_of_fmap & He). cbn in He. injection He as Hf <-.
    apply family_text_inj in Hf as ->. apply list_elem_of_fmap in Hin as ([key tb] & Hkey & Hin). cbn in Hkey. subst key.
    apply elem_of_map_to_list in Hin. by eexists.
  - intros [tb Hk]. exists (table_object (f, t) (rest (f, t))). split; [|done].
    apply list_elem_of_fmap. exists (f, t). split; [done|]. apply list_elem_of_fmap.
    exists (f, t, tb). split; [done|]. by apply elem_of_map_to_list.
Qed.

Lemma foldl_tally l m c :
  NoDup l.*1 → (∀ e, e ∈ l → 0 ≤ e.2 ≤ u64_max ∧ m !! e.1 = None) →
  foldl tally m l !! c = from_option Some (m !! c) ((list_to_map l : gmap string Z) !! c).
Proof.
  revert m. induction l as [|[d n] l IH]; intros m Hd Hf; cbn [foldl]; [done|].
  apply NoDup_cons in Hd as [Hd' Hd]. destruct (Hf (d, n) ltac:(apply list_elem_of_here)) as [Hn Hm]. cbn [fst snd] in *.
  assert (Ht : tally m (d, n) = <[d := n]> m).
  { unfold tally. cbn [fst snd]. rewrite Hm. cbn. unfold saturating_add. f_equal. lia. }
  rewrite Ht, IH; [|done|].
  - cbn [list_to_map foldr fst snd]. destruct (decide (d = c)) as [->|Hne].
    + rewrite !lookup_insert_eq. by rewrite not_elem_of_list_to_map_1.
    + by rewrite !lookup_insert_ne.
  - intros e He. destruct (Hf e ltac:(by apply list_elem_of_further)) as [? ?]. split; [done|].
    rewrite lookup_insert_ne; [done|]. intros ->. apply Hd'. by apply list_elem_of_fmap_2.
Qed.

Definition in_u64 (m : gmap string Z) : Prop := map_Forall (λ _ n, 0 ≤ n ≤ u64_max) m.

Lemma listed_counters f t k tb :
  k !! (f, t) = Some tb → in_u64 tb.(counters) →
  ∃ bytes, list_counters f t k = Some bytes ∧ parse_counters bytes = Ok tb.(counters).
Proof.
  intros Hk Hu. destruct (list_counters_spec f t k tb Hk) as (bytes & meta & rest & num & Hl & Hs & Hmeta & Hnum).
  exists bytes. split; [done|]. unfold parse_counters. rewrite Hs.
  change (value_get (Object [("nftables"%string, Array ?es)]) "nftables" ≫= as_array) with (Some es). cbv iota.
  assert (Hnil : counter_entry meta = None) by (unfold counter_entry; by rewrite Hmeta).
  f_equal. cbn [omap list_omap]. rewrite Hnil.
  assert (Hmap : omap counter_entry ((λ e, counter_object e.1 (num e.2) (rest e.1)) <$> map_to_list tb.(counters))
                 = map_to_list tb.(counters)).
  { clear Hs Hl. assert (Hall : ∀ e, e ∈ map_to_list tb.(counters) → 0 ≤ e.2 ≤ u64_max).
    { intros [c n] He%elem_of_map_to_list. exact (Hu c n He). }
    induction (map_to_list tb.(counters)) as [|[c n] l IH]; [done|]. rewrite fmap_cons. cbn [omap list_omap fst snd].
    change (counter_entry (counter_object c (num n) (rest c))) with (packets ← as_u64_num (num n); Some (c, packets)).
    rewrite Hnum by (apply (Hall (c, n)), list_elem_of_here). cbn [mbind option_bind]. f_equal. apply IH. intros e He. apply Hall. by apply list_elem_of_further. }
  change (list_omap ?g ?l) with (omap g l). rewrite Hmap. apply map_eq. intros c.
  rewrite foldl_tally; [|apply NoDup_fst_map_to_list|].
  - rewrite list_to_map_to_list. by destruct (tb.(counters) !! c).
  - intros [d n] He%elem_of_map_to_list. split; [exact (Hu d n He)|done].
Qed.

End ListingFacts.

(** ** Snapshots *)
Lemma from_nft_name_spec name kind : from_nft_name name = Some kind ↔ nft_name kind = name.
Proof.
  split.
  - intros [_ H]%find_some. by apply bool_decide_eq_true in H.
  - intros <-. by destruct kind.
Qed.

Lemma snap_get_set s kind kind' n :
  snap_get (snap_set s kind n) kind' = if decide (kind = kind') then n else snap_get s kind'.
Proof. destruct s. by destruct kind, kind'. Qed.

Lemma snapshot_ext s s' : s.(cs_table) = s'.(cs_table) → (∀ kind, snap_get s kind = snap_get s' kind) → s = s'.
Proof.
  destruct s as [t b o i d k], s' as [t' b' o' i' d' k']. cbn [cs_table]. intros -> Hg.
  pose proof (Hg BlockedRange_). pose proof (Hg OtherDenied). pose proof (Hg Ipv6_). pose proof (Hg DnsPermitted).
  pose proof (Hg BrokerPermitted). cbn in *. by subst.
Qed.

Lemma record_get s kind kind' :
  snap_get (record_ s (nft_name kind)) kind' =
    if decide (kind = kind') then saturating_add u64_max (snap_get s kind) 1 else snap_get s kind'.
Proof. unfold record_. rewrite (proj2 (from_nft_name_spec _ kind) eq_refl). apply snap_get_set. Qed.

Lemma record_table s counter : cs_table (record_ s counter) = cs_table s.
Proof. unfold record_. destruct (from_nft_name counter) as [kind|]; [by destruct s, kind|done]. Qed.

(** Which family's listing a counter is taken from, whatever the order of the listing. *)
Lemma take_counters_get family s l kind :
  NoDup l.*1 →
  snap_get (foldl (Nftables.take_counter family) s l) kind =
    if bool_decide (kind_family kind = family)
    then default (snap_get s kind) ((list_to_map l : gmap string Z) !! nft_name kind) else snap_get s kind.
Proof.
  revert s. induction l as [|[c n] l IH]; intros s Hd; cbn [foldl]; [by case_bool_decide|].
  apply NoDup_cons in Hd as [Hc Hd]. rewrite IH by done. cbn [list_to_map foldr fst snd] in *.
  unfold Nftables.take_counter. cbn [fst snd]. destruct (from_nft_name c) as [kind'|] eqn:Hn.
  - apply from_nft_name_spec in Hn as <-. destruct (decide (kind' = kind)) as [->|Hne].
    + rewrite lookup_insert_eq. rewrite (not_elem_of_list_to_map_1 l) by done.
      case_bool_decide; [|done]. cbn. rewrite snap_get_set. by rewrite decide_True.
    + rewrite lookup_insert_ne by (intros He; apply Hne; by destruct kind, kind').
      destruct (bool_decide (kind_family kind' = family)); [|done]. rewrite snap_get_set. by rewrite decide_False.
  - rewrite lookup_insert_ne; [done|]. intros ->. by rewrite (proj2 (from_nft_name_spec _ kind) eq_refl) in Hn.
Qed.

Lemma take_counters_table family s l : cs_table (foldl (Nftables.take_counter family) s l) = cs_table s.
Proof.
  revert s. induction l as [|e l IH]; intros s; [done|]. cbn [foldl]. rewrite IH. unfold Nftables.take_counter.
  repeat case_match; try done. by destruct s, c.
Qed.

(** The kernel's counters for an attachment, as a snapshot. *)
Definition counts_agree (s : CounterSnapshot) (c4 c6 : gmap string Z) : Prop :=
  ∀ kind, (match kind with Ipv6_ => c6 | _ => c4 end) !! nft_name kind = Some (snap_get s kind).

Section Reading.
Context `{T : Texts} {J : NftJson} {L : NftListing J} `{!NftListingLaws J L}.

(** How [nft -j list counters] ends when it runs. *)
Definition listing_answer (f : Family) (t : string) (k : Kernel) : Answer :=
  match list_counters f t k with Some bytes => Exited true bytes | None => Exited false [] end.

Lemma counters_read k a s c4 c6 r4 r6 :
  k !! (Ip, attachment_table a) = Some (guard_table c4 r4) → k !! (Ip6, attachment_table a) = Some (guard_table c6 r6) →
  in_u64 c4 → in_u64 c6 → counts_agree s c4 c6 → s.(cs_table) = attachment_table a →
  Nftables.counters (listing_answer Ip (attachment_table a) k) (listing_answer Ip6 (attachment_table a) k) a = Ok s.
Proof.
  intros H4 H6 U4 U6 Hc Ht. unfold Nftables.counters, Nftables.counter_listing, listing_answer.
  destruct (listed_counters Ip _ k _ H4 U4) as (b4 & -> & P4). destruct (listed_counters Ip6 _ k _ H6 U6) as (b6 & -> & P6).
  cbn [Nftables.answered]. rewrite P4, P6. cbn [counters guard_table]. f_equal.
  apply snapshot_ext; [rewrite !take_counters_table; by rewrite Ht|]. intros kind.
  rewrite !take_counters_get, !list_to_map_to_list by apply NoDup_fst_map_to_list.
  pose proof (Hc kind) as Hk. destruct kind; cbn in Hk |- *; by rewrite Hk.
Qed.

End Reading.

(** ** The two backends side by side *)
Section Simulation.
Context `{T : Texts} `{!TextsLaws T} `{N : Nft} `{!NftLaws N} {J : NftJson} {L : NftListing J} `{!NftListingLaws J L}.
Context `{IpNetLib} (att : Uuid → GuardAttachment).

(** How a run that reads ends: with the whole listing, with a failure status, or without
    an answer. *)
Inductive Reading := Whole | Refused | Silent (e : GuardError.t).

Definition answer_of (o : Reading) (a : Answer) : Answer :=
  match o with Whole => a | Refused => Exited false [] | Silent e => Unanswered e end.

(** An operation on a guest, with how the runs of [nft] it starts end, or a packet. *)
Inductive Event :=
| EApply (r : Run) (c : CompiledPolicy) (id : Uuid)
| ECut (r : Run) (id : Uuid)
| ERestore (r : Run) (c : CompiledPolicy) (id : Uuid)
| ERemove (tables : Reading) (r : Run) (id : Uuid)
| ECounters (listing4 listing6 : Reading) (id : Uuid)
| EPacket (id : Uuid) (source destination : Z) (t : Transport) (port : Z)
| EPacket6 (id : Uuid).

Inductive Reply :=
| Finished (r : result GuardError.t ())
| Counted (r : result GuardError.t CounterSnapshot)
| Passed (ok : bool).

(** Whether a run took effect. *)
Definition lands (r : Run) : bool :=
  match r with Ran => true | NotRun => false | Unfinished c | WaitFailed c => c end.

(** An operation whose run may fail is the operation of the in-memory backend, done whole or
    not at all, and a success only when [nft] answered. *)
Definition tried (r : Run) (b : TestBackend) (op : TestBackend * result GuardError.t ()) : TestBackend * Reply :=
  match op with
  | (b', Ok ()) =>
      (if lands r then b' else b, Finished match r with Ran => Ok () | _ => Err GuardError.Unavailable end)
  | (b', Err e) => (b', Finished (Err e))
  end.

Definition read_error (o : Reading) : option GuardError.t :=
  match o with Whole => None | Refused => Some GuardError.Unavailable | Silent e => Some e end.

(** Where nothing is installed the in-memory backend has no opinion, and Guard does not stop
    the packet; a removal then starts no run. *)
Definition memory_step (b : TestBackend) (e : Event) : TestBackend * Reply :=
  match e with
  | EApply r c id => tried r b (Memory.apply_policy b c (att id))
  | ECut r id => tried r b (Memory.cut_network b (att id))
  | ERestore r c id => tried r b (Memory.restore_network b c (att id))
  | ERemove tables r id =>
      match read_error tables with
      | Some e => (b, Finished (Err e))
      | None =>
          let needed := bool_decide (is_Some (Memory.installed_model b (att id).(sandbox_id))) in
          tried (if needed then r else Ran) b (Memory.remove_policy b (att id))
      end
  | ECounters l4 l6 id =>
      (b, Counted match read_error l4 with
          | Some e => Err e
          | None =>
              let? s := Memory.snapshot b (att id) in
              match read_error l6 with Some e => Err e | None => Ok s end
          end)
  | EPacket id source destination t port =>
      let '(b, r) := Memory.record_packet b (att id) source destination t port in (b, Passed (default true r))
  | EPacket6 id => let '(b, r) := Memory.record_ipv6_packet b (att id) in (b, Passed (default true r))
  end.

Definition guest_packet (id : Uuid) (source destination : Z) (t : Transport) (port : Z) : Packet :=
  {| iif := (att id).(at_interface); oif := ""; src := source; dst := destination; transport := t; Nft.port := port |}.

(** The host; a packet may meet the chains of a hook in any order of equal priorities. *)
Inductive host_step : Kernel → Event → Kernel → Reply → Prop :=
| host_apply o c id k k' r : Nftables.apply_policy o c (att id) k = (k', r) → host_step k (EApply o c id) k' (Finished r)
| host_cut o id k k' r : Nftables.cut_network o (att id) k = (k', r) → host_step k (ECut o id) k' (Finished r)
| host_restore o c id k k' r : Nftables.restore_network o c (att id) k = (k', r) → host_step k (ERestore o c id) k' (Finished r)
| host_remove o r0 id k k' r :
    Nftables.remove_policy (answer_of o (Exited true (list_tables k))) r0 (att id) k = (k', r) →
    host_step k (ERemove o r0 id) k' (Finished r)
| host_counters o4 o6 id k r :
    Nftables.counters (answer_of o4 (listing_answer Ip (attachment_table (att id)) k))
      (answer_of o6 (listing_answer Ip6 (attachment_table (att id)) k)) (att id) = r →
    host_step k (ECounters o4 o6 id) k (Counted r)
| host_packet id source destination t port k k' cs ok :
    traversal Ip Input k cs → deliver (guest_packet id source destination t port) cs k = (k', ok) →
    host_step k (EPacket id source destination t port) k' (Passed ok)
| host_packet6 id p k k' cs ok :
    p.(iif) = (att id).(at_interface) → traversal Ip6 Input k cs → deliver p cs k = (k', ok) →
    host_step k (EPacket6 id) k' (Passed ok).

Inductive host_run : Kernel → list Event → Kernel → list Reply → Prop :=
| host_done k : host_run k [] k []
| host_more k e es k' k'' r rs : host_step k e k' r → host_run k' es k'' rs → host_run k (e :: es) k'' (r :: rs).

Fixpoint memory_run (b : TestBackend) (es : list Event) : TestBackend * list Reply :=
  match es with
  | [] => (b, [])
  | e :: es => let '(b, r) := memory_step b e in let '(b, rs) := memory_run b es in (b, r :: rs)
  end.

(** Policies come from a validated boundary, addresses and identifiers are in range. *)
Definition sound_event (e : Event) : Prop :=
  match e with
  | EApply _ c id | ERestore _ c id => is_uuid id ∧ validate_boundary c.(boundary) = Ok ()
  | EPacket id source destination _ _ => is_uuid id ∧ 0 ≤ destination < 2 ^ 32
  | ECut _ id | ERemove _ _ id | ECounters _ _ id | EPacket6 id => is_uuid id
  end.

(** ** The correspondence *)
Definition absent (k : Kernel) (id : Uuid) : Prop := ∀ f, k !! (f, attachment_table (att id)) = None.

Definition present (n : Z) (k : Kernel) (id : Uuid) (m : RuleModel) (s : CounterSnapshot) : Prop :=
  model_for (att id) m ∧ s.(cs_table) = attachment_table (att id) ∧
  ∃ counts : Family → gmap string Z,
    (∀ f, k !! (f, attachment_table (att id)) = Some (guard_table (counts f) (rules_for m f)))
    ∧ counts_agree s (counts Ip) (counts Ip6)
    ∧ ∀ f, map_Forall (λ _ v, 0 ≤ v ≤ n) (counts f).

Definition corresponds (n : Z) (b : TestBackend) (k : Kernel) (id : Uuid) : Prop :=
  match b !! id with
  | Some e =>
      match e.(te_model) with
      | Some m => present n k id m e.(te_counters)
      | None => absent k id ∧ e.(te_counters) = default_snapshot
      end
  | None => absent k id
  end.

Definition related (n : Z) (b : TestBackend) (k : Kernel) : Prop :=
  (∀ id, is_uuid id → corresponds n b k id)
  ∧ ∀ f t, is_Some (k !! (f, t)) → ∃ id, is_uuid id ∧ t = attachment_table (att id).

Record fleet : Prop := {
  att_id id : (att id).(sandbox_id) = id;
  att_typed id : typed_attachment (att id);
  att_interfaces i j : (att i).(at_interface) = (att j).(at_interface) → i = j }.

Context (Hfleet : fleet).

Lemma tables_distinct i j :
  is_uuid i → is_uuid j → attachment_table (att i) = attachment_table (att j) → i = j.
Proof.
  unfold attachment_table, table_name. intros Hi Hj He%(f_equal chars). rewrite !chars_app in He. apply app_inv_head in He.
  apply (f_equal string_of) in He. rewrite !string_of_chars in He. apply simple_inj in He; by rewrite !(att_id Hfleet) in *.
Qed.

Lemma related_owned n b k id f : is_uuid id → related n b k → owned k f (attachment_table (att id)).
Proof.
  intros Hid [Hc _]. specialize (Hc id Hid). unfold corresponds in Hc. destruct (b !! id) as [e|]; [|by left].
  destruct e.(te_model) as [m|]; [|left; by apply Hc]. destruct Hc as (_ & _ & counts & Hk & _).
  right. exists (counts f), (rules_for m f). apply Hk.
Qed.

(** A batch that is accepted when it runs: done or not done, as its run ended. *)
Definition concluded (o : Run) : result GuardError.t () :=
  match o with Ran => Ok () | _ => Err GuardError.Unavailable end.

Lemma batch_lands o text k k' : nft_load text k = Some k' →
  Nftables.apply_batch o text k = (if lands o then k' else k, concluded o).
Proof.
  intros Hl. unfold Nftables.apply_batch, Nftables.run_batch. destruct o as [| |c|c]; cbn [lands concluded]; rewrite ?Hl; [done|done|..]; by destruct c.
Qed.

Lemma host_installs n b k id m text o :
  is_uuid id → related n b k → model_for (att id) m → flushable_ruleset m = Ok text →
  Nftables.install o m k = (if lands o then installed m k else k, concluded o).
Proof.
  intros Hid Hr (Ht & _ & Hm) Hf. unfold Nftables.install. rewrite Hf. apply batch_lands.
  unfold flushable_ruleset in Hf. destruct (render_replace m) as [text'|] eqn:Htext; [|done]. injection Hf as <-.
  rewrite (nft_reads _ _ k (replacement_reads m Hm _ Htext)), replacement_installs; [done|..];
    rewrite Ht; by eapply related_owned.
Qed.

Lemma declared_lookup names cs c :
  declared names cs !! c = match cs !! c with Some n => Some n | None => if decide (c ∈ names) then Some 0 else None end.
Proof.
  unfold declared. rewrite lookup_union. destruct (cs !! c) as [n|] eqn:Hc; [by destruct (list_to_map _ !! c)|].
  rewrite (left_id_L None (∪)). induction names as [|d names IH]; [done|]. cbn [fmap list_fmap list_to_map foldr fst snd].
  destruct (decide (d = c)) as [->|Hne].
  - rewrite lookup_insert_eq. rewrite decide_True; [done|apply list_elem_of_here].
  - rewrite lookup_insert_ne by done. rewrite IH. apply decide_ext. rewrite elem_of_cons. naive_solver.
Qed.

Lemma kept_counts n b k id :
  is_uuid id → related n b k → 0 ≤ n →
  counts_agree (from_option te_counters default_snapshot (b !! id))
    (declared (counters_for Ip) (kept k Ip (attachment_table (att id))))
    (declared (counters_for Ip6) (kept k Ip6 (attachment_table (att id))))
  ∧ ∀ f, map_Forall (λ _ v, 0 ≤ v ≤ n) (declared (counters_for f) (kept k f (attachment_table (att id)))).
Proof.
  intros Hid [Hc _] Hn. specialize (Hc id Hid). unfold corresponds in Hc.
  assert (Hnew : absent k id → from_option te_counters default_snapshot (b !! id) = default_snapshot →
     counts_agree (from_option te_counters default_snapshot (b !! id))
       (declared (counters_for Ip) (kept k Ip (attachment_table (att id))))
       (declared (counters_for Ip6) (kept k Ip6 (attachment_table (att id))))
     ∧ ∀ f, map_Forall (λ _ v, 0 ≤ v ≤ n) (declared (counters_for f) (kept k f (attachment_table (att id))))).
  { intros Ha ->. unfold kept. rewrite !Ha. split.
    - intros kind. destruct kind; done.
    - intros f c v Hv. rewrite Ha, declared_lookup in Hv. cbn in Hv. rewrite lookup_empty in Hv. case_decide; simplify_eq. lia. }
  destruct (b !! id) as [e|]; [|by apply Hnew]. cbn [from_option] in *.
  destruct e.(te_model) as [m|]; [|destruct Hc; by apply Hnew]. destruct Hc as (_ & _ & counts & Hk & Hag & Hb).
  assert (Hkept : ∀ f, kept k f (attachment_table (att id)) = counts f) by (intros f; unfold kept; by rewrite Hk).
  rewrite !Hkept. split.
  - intros kind. specialize (Hag kind). destruct kind; cbn [nft_name] in Hag |- *; rewrite declared_lookup, Hag; done.
  - intros f c v Hv. rewrite Hkept, declared_lookup in Hv. destruct (counts f !! c) as [v'|] eqn:Hl.
    + simplify_eq. by apply (Hb f c).
    + case_decide; simplify_eq. lia.
Qed.

Lemma corresponds_frame n b b' k k' id :
  b' !! id = b !! id → (∀ f, k' !! (f, attachment_table (att id)) = k !! (f, attachment_table (att id))) →
  corresponds n b k id → corresponds n b' k' id.
Proof.
  intros Hb Hk. unfold corresponds, present, absent. rewrite Hb.
  destruct (b !! id) as [e|]; [|by setoid_rewrite Hk]. destruct e.(te_model) as [m|]; by setoid_rewrite Hk.
Qed.

Lemma install_related n b k id m s :
  is_uuid id → related n b k → 0 ≤ n → model_for (att id) m → related n (Memory.install b (att id) m s) (installed m k).
Proof.
  intros Hid Hr Hn Hm. pose proof (kept_counts n b k id Hid Hr Hn) as [Hag Hb]. destruct Hm as (Ht & Hi & Hok). split.
  - intros id' Hid'. destruct (decide (id' = id)) as [->|Hne].
    + unfold corresponds, Memory.install. rewrite (att_id Hfleet), lookup_insert_eq. cbn [te_model te_counters].
      split_and!; [done|by destruct (from_option _ _ _)|].
      exists (λ f, declared (counters_for f) (kept k f (attachment_table (att id)))). rewrite <-Ht. split_and!.
      * intros f. apply installed_own.
      * rewrite Ht. intros kind. rewrite (Hag kind). by destruct (from_option te_counters _ _), kind.
      * rewrite Ht. apply Hb.
    + eapply corresponds_frame; [| |by apply Hr].
      * unfold Memory.install. rewrite (att_id Hfleet). by rewrite lookup_insert_ne.
      * intros f. apply installed_other. rewrite Ht. intros He. by apply tables_distinct in He.
  - intros f t Hin. destruct (decide (t = m.(rm_table))) as [->|Hne]; [exists id; by rewrite Ht|].
    rewrite installed_other in Hin by done. by apply (proj2 Hr f).
Qed.

Definition without (k : Kernel) (id : Uuid) : Kernel :=
  delete (Ip6, attachment_table (att id)) (delete (Ip, attachment_table (att id)) k).

Lemma removal_reads m : model_ok m →
  read_script (script [unwords ["delete"; "table"; FAMILY_V4; m.(rm_table)]%string;
                       unwords ["delete"; "table"; FAMILY_V6; m.(rm_table)]%string])
  = Some [DeleteTable Ip m.(rm_table); DeleteTable Ip6 m.(rm_table)].
Proof.
  intros Hm. rewrite (script_reads _ [[DeleteTable Ip m.(rm_table)]; [DeleteTable Ip6 m.(rm_table)]]); [done|].
  repeat constructor; (eapply says_table; [done|done|]; auto).
Qed.

Lemma removal_batch_none t P : (∀ f, (family_text f, t) ∉ P) → Nftables.removal_batch t P = [].
Proof.
  intros HP. unfold Nftables.removal_batch. cbn [mbind list_bind].
  by rewrite !bool_decide_eq_false_2 by (apply (HP Ip) || apply (HP Ip6)).
Qed.

Lemma removal_batch_both t P : (∀ f, (family_text f, t) ∈ P) →
  Nftables.removal_batch t P = [unwords ["delete"; "table"; FAMILY_V4; t]%string; unwords ["delete"; "table"; FAMILY_V6; t]%string].
Proof.
  intros HP. unfold Nftables.removal_batch. cbn [mbind list_bind].
  by rewrite !bool_decide_eq_true_2 by (apply (HP Ip) || apply (HP Ip6)).
Qed.

Lemma host_removes n b k id o :
  is_uuid id → related n b k →
  Nftables.remove_policy (Exited true (list_tables k)) o (att id) k =
    if bool_decide (is_Some (Memory.installed_model b id)) then (if lands o then without k id else k, concluded o)
    else (without k id, Ok ()).
Proof.
  intros Hid [Hc _]. specialize (Hc id Hid). unfold Nftables.remove_policy, Nftables.uninstall, Nftables.existing_tables. cbn [Nftables.answered].
  assert (Hnone : absent k id → match Nftables.removal_batch (attachment_table (att id)) (parse_tables (list_tables k)) with
     | [] => (k, Ok ()) | batch => Nftables.apply_batch o (script batch) k end = (without k id, Ok ())).
  { intros Ha. rewrite removal_batch_none.
    - unfold without. by rewrite !delete_id by (rewrite ?lookup_delete_ne by done; apply Ha).
    - intros f Hin%listed_tables. rewrite Ha in Hin. by destruct Hin. }
  unfold corresponds in Hc. unfold Memory.installed_model. destruct (b !! id) as [e|]; [|by apply Hnone]. cbn [mbind option_bind].
  destruct e.(te_model) as [m|]; [|exact (Hnone (proj1 Hc))]. destruct Hc as ((Ht & _ & Hm) & _ & counts & Hk & _).
  rewrite bool_decide_eq_true_2 by done.
  rewrite removal_batch_both by (intros f; apply listed_tables; by rewrite Hk). apply batch_lands.
  rewrite <-Ht, (nft_reads _ _ k (removal_reads m Hm)), Ht.
  cbn [exec_all exec]. rewrite (Hk Ip). cbn [mbind option_bind]. by rewrite lookup_delete_ne, (Hk Ip6) by done.
Qed.

Lemma remove_related n b k id :
  is_uuid id → related n b k → related n (Memory.remove_policy b (att id)).1 (without k id).
Proof.
  intros Hid [Hc Hin]. split.
  - intros id' Hid'. destruct (decide (id' = id)) as [->|Hne].
    + assert (Habs : absent (without k id) id).
      { intros f. unfold without. destruct f; [rewrite lookup_delete_ne by done|]; apply lookup_delete_eq. }
      unfold corresponds, Memory.remove_policy. rewrite (att_id Hfleet). specialize (Hc id Hid). unfold corresponds in Hc.
      destruct (b !! id) as [e|] eqn:Hb; cbn [fst]; [rewrite lookup_insert_eq|rewrite Hb]; done.
    + eapply corresponds_frame; [| |by apply Hc].
      * unfold Memory.remove_policy. rewrite (att_id Hfleet). destruct (b !! id); [|done]. cbn [fst]. by rewrite lookup_insert_ne.
      * intros f. unfold without. assert (attachment_table (att id) ≠ attachment_table (att id')).
        { intros He. by apply tables_distinct in He. }
       
        by rewrite !lookup_delete_ne by congruence.
  - intros f t [tb Ht]. apply (Hin f). unfold without in Ht. apply lookup_delete_Some in Ht as [_ Ht].
    apply lookup_delete_Some in Ht as [_ Ht]. by eexists.
Qed.

Lemma corresponds_mono n n' b k id : n ≤ n' → corresponds n b k id → corresponds n' b k id.
Proof.
  intros Hle. unfold corresponds, present. repeat case_match; try done.
  intros (? & ? & counts & ? & ? & Hb). split_and!; [done|done|]. exists counts. split_and!; [done|done|].
  intros f c v Hv. specialize (Hb f c v Hv). cbn in Hb. lia.
Qed.

Lemma related_mono n n' b k : n ≤ n' → related n b k → related n' b k.
Proof. intros Hle [Hc Hin]. split; [|done]. intros id Hid. by eapply corresponds_mono, Hc. Qed.

Definition fam (kind : CounterKind) : Family := match kind with Ipv6_ => Ip6 | _ => Ip end.

Lemma fam_kind kind (c4 c6 : gmap string Z) : (match kind with Ipv6_ => c6 | _ => c4 end) = match fam kind with Ip => c4 | Ip6 => c6 end.
Proof. by destruct kind. Qed.

Lemma nft_name_inj kind kind' : nft_name kind = nft_name kind' → kind = kind'.
Proof. by destruct kind, kind'. Qed.

Lemma bump_related n b k id e m kind :
  is_uuid id → related n b k → n < u64_max → b !! id = Some e → e.(te_model) = Some m →
  related (n + 1) (<[id := Memory.counted e (nft_name kind)]> b)
    (alter (bump (nft_name kind)) (fam kind, attachment_table (att id)) k).
Proof.
  intros Hid [Hc Hin] Hn Hb Hm. split.
  - intros id' Hid'. destruct (decide (id = id')) as [<-|Hne].
    + specialize (Hc id Hid). unfold corresponds in Hc |- *. rewrite lookup_insert_eq. rewrite Hb, Hm in Hc. cbn [Memory.counted te_model te_counters].
      rewrite Hm. destruct Hc as (Hfor & Ht & counts & Hk & Hag & Hbd). split_and!; [done|by rewrite record_table|].
      exists (λ f, if decide (f = fam kind) then alter (λ v, v + 1) (nft_name kind) (counts f) else counts f). split_and!.
      * intros f. case_decide as Hf.
        -- subst f. rewrite lookup_alter_eq, Hk. done.
        -- rewrite lookup_alter_ne by congruence. apply Hk.
      * intros kind'. rewrite record_get. pose proof (Hag kind') as Hk'. rewrite fam_kind in Hk' |- *.
        assert (Hle : 0 ≤ snap_get e.(te_counters) kind' ≤ n).
        { destruct (fam kind'); [apply (Hbd Ip _ _ Hk')|apply (Hbd Ip6 _ _ Hk')]. }
        destruct (decide (kind = kind')) as [<-|Hkind].
        -- unfold saturating_add. rewrite Z.min_r by lia.
           destruct (fam kind); rewrite decide_True by done; by rewrite lookup_alter_eq, Hk'.
        -- destruct (fam kind'); (case_decide; [rewrite lookup_alter_ne by (by intros ?%nft_name_inj)|]); done.
      * intros f c v Hv. cbv beta in Hv. case_decide as Hf; [|specialize (Hbd f c v Hv); cbn in Hbd; lia].
        apply lookup_alter_Some in Hv as [(_ & v' & Hv & ->)|[_ Hv]]; specialize (Hbd f _ _ Hv); cbn in Hbd; lia.
    + eapply corresponds_mono; [|eapply corresponds_frame; [| |by apply Hc]]; [lia|by rewrite lookup_insert_ne|].
      intros f. rewrite lookup_alter_ne; [done|]. intros He%(f_equal snd). cbn in He. by apply tables_distinct in He.
  - intros f t Hs. apply (Hin f). apply lookup_alter_is_Some in Hs. done.
Qed.

(** Every table of the host is some guest's, and none of another guest stops this one. *)
Lemma guard_not_late cs rs : ¬ late (guard_table cs rs).
Proof. intros Hl. apply Forall_cons in Hl as [Hl _]. cbn in Hl. lia. Qed.

Lemma table_owner n b k f t tb :
  related n b k → k !! (f, t) = Some tb →
  ∃ id m cs, is_uuid id ∧ t = attachment_table (att id) ∧ model_for (att id) m ∧ tb = guard_table cs (rules_for m f).
Proof.
  intros [Hc Hin] Ht. destruct (Hin f t) as (id & Hid & ->); [by eexists|]. specialize (Hc id Hid). unfold corresponds in Hc.
  destruct (b !! id) as [e|]; [|by rewrite Hc in Ht]. destruct e.(te_model) as [m|].
  - destruct Hc as (Hm & _ & counts & Hk & _). exists id, m, (counts f). rewrite Hk in Ht. by simplify_eq.
  - rewrite (proj1 Hc) in Ht. done.
Qed.

Lemma table_waits n b k id p f t tb :
  related n b k → p.(iif) = (att id).(at_interface) → t ≠ attachment_table (att id) → k !! (f, t) = Some tb → waits p tb.
Proof.
  intros Hr Hi Hne Ht. destruct (table_owner n b k f t tb Hr Ht) as (id' & m & cs & _ & -> & (_ & Hm & _) & ->).
  left. exists m, f, cs. split; [done|]. rewrite Hm, Hi. intros He%(att_interfaces Hfleet). by subst.
Qed.

Lemma unenforced_passes n b k id p f cs :
  related n b k → absent k id → p.(iif) = (att id).(at_interface) → traversal f Input k cs → walk p cs = ([], true).
Proof.
  intros Hr Ha Hi [Hp _]. rewrite <-(app_nil_r cs). apply (walk_skip p cs []). intros [[f' t] c] He. rewrite Hp in He.
  apply elem_of_chains_at in He as (tb & name & Ht & Hf & Hc & Hh). cbn [fst snd] in *. subst f'.
  assert (Hw : waits p tb).
  { eapply table_waits; [exact Hr|exact Hi| |exact Ht]. intros ->. by rewrite Ha in Ht. }
  destruct (waiting_silent p tb name c Hw Hc) as [?|[Hl _]]; [by right|done|].
  destruct (table_owner n b k f t tb Hr Ht) as (id' & m & cs' & _ & _ & _ & ->). by apply guard_not_late in Hl.
Qed.

Lemma model_enforced n b k id e m :
  is_uuid id → related n b k → b !! id = Some e → e.(te_model) = Some m → enforced m k ∧ model_for (att id) m.
Proof.
  intros Hid [Hc _] Hb Hm. specialize (Hc id Hid). unfold corresponds in Hc. rewrite Hb, Hm in Hc.
  destruct Hc as (Hfor & _ & counts & Hk & _). split; [|done]. eapply tables_enforce; [apply Hfor|].
  intros f. destruct Hfor as (-> & _). apply Hk.
Qed.

Lemma others_wait_related n b k id m f p :
  related n b k → model_for (att id) m → p.(iif) = (att id).(at_interface) → others_wait m k f p.
Proof. intros Hr (Ht & _) Hi t tb Hne Hk. eapply table_waits; [exact Hr|exact Hi| |exact Hk]. by rewrite <-Ht. Qed.

Lemma verdict_kind m source destination t port :
  ∃ kind, (verdict m source destination t port).(v_counter) = nft_name kind ∧ fam kind = Ip.
Proof.
  unfold verdict. destruct (permits _ _ _ _ _); cbn [v_counter].
  - destruct (_ =? _); [by exists BrokerPermitted|by exists DnsPermitted].
  - destruct (existsb _ _); [by exists BlockedRange_|by exists OtherDenied].
Qed.

Lemma packet_walk n b k id e m source destination t port cs :
  is_uuid id → related n b k → b !! id = Some e → e.(te_model) = Some m → 0 ≤ destination < 2 ^ 32 → traversal Ip Input k cs →
  walk (guest_packet id source destination t port) cs =
    let v := verdict m source destination t port in ([((Ip, attachment_table (att id)), v.(v_counter))], v.(permitted)).
Proof.
  intros Hid Hr Hb Hm Hd Hcs. destruct (model_enforced n b k id e m Hid Hr Hb Hm) as [He Hfor].
  destruct (enforced_input m k He (guest_packet id source destination t port) cs) as (hits & ok & Hw & Hno & Hyes & Hhits);
    [by destruct Hfor as (_ & -> & _)|done|by eapply others_wait_related|done|].
  cbn [src dst transport Nft.port guest_packet] in *. rewrite Hw. destruct Hfor as (-> & _).
  assert (hits = []) as ->.
  { destruct hits as [|[[f tt] c] hits]; [done|]. destruct (Hhits ((f, tt), c)) as [_ (tb & Htb & Hl)]; [apply list_elem_of_here|].
    destruct (table_owner n b k f tt tb Hr Htb) as (id' & m' & cs' & _ & _ & _ & ->). by apply guard_not_late in Hl. }
  cbn zeta. destruct (verdict m source destination t port).(permitted); [by rewrite Hyes|by destruct Hno as [_ ->]].
Qed.

Lemma snapshot_agrees n b k id o4 o6 :
  is_uuid id → related n b k → n ≤ u64_max →
  Nftables.counters (answer_of o4 (listing_answer Ip (attachment_table (att id)) k))
    (answer_of o6 (listing_answer Ip6 (attachment_table (att id)) k)) (att id)
  = match read_error o4 with
    | Some e => Err e
    | None => let? s := Memory.snapshot b (att id) in match read_error o6 with Some e => Err e | None => Ok s end
    end.
Proof.
  intros Hid [Hc _] Hn. specialize (Hc id Hid). unfold corresponds in Hc. unfold Memory.snapshot. rewrite (att_id Hfleet).
  destruct o4 as [| |e4]; [|done|done]. cbn [read_error answer_of].
  assert (Hnone : absent k id → Nftables.counters (listing_answer Ip (attachment_table (att id)) k)
            (answer_of o6 (listing_answer Ip6 (attachment_table (att id)) k)) (att id) = Err GuardError.Unavailable).
  { intros Ha. unfold Nftables.counters, listing_answer. rewrite (list_counters_none Ip) by apply Ha. done. }
  destruct (b !! id) as [e|]; [|by apply Hnone]. destruct e.(te_model) as [m|]; [|exact (Hnone (proj1 Hc))].
  destruct Hc as (_ & Ht & counts & Hk & Hag & Hb).
  assert (HU : ∀ f, in_u64 (counts f)) by (intros f c v Hv; specialize (Hb f c v Hv); cbn in *; lia).
  destruct o6 as [| |e6]; cbn [read_error answer_of].
  - by eapply counters_read; [apply Hk|apply Hk|apply HU|apply HU|exact Hag|exact Ht].
  - unfold Nftables.counters, Nftables.counter_listing, listing_answer.
    destruct (listed_counters Ip _ k _ (Hk Ip) (HU Ip)) as (b4 & -> & P4). cbn [Nftables.answered]. by rewrite P4.
  - unfold Nftables.counters, Nftables.counter_listing, listing_answer.
    destruct (listed_counters Ip _ k _ (Hk Ip) (HU Ip)) as (b4 & -> & P4). cbn [Nftables.answered]. by rewrite P4.
Qed.

(** One attempt at replacing a guest's tables, on both sides. *)
Lemma install_step n b k id m s o r k' :
  is_uuid id → related n b k → 0 ≤ n → model_for (att id) m → (∃ text, flushable_ruleset m = Ok text) →
  Nftables.install o m k = (k', r) →
  let step := tried o b (Memory.install b (att id) m s, Ok ()) in step.2 = Finished r ∧ related (n + 1) step.1 k'.
Proof.
  intros Hid Hr Hn Hm [text Htext] Hi. rewrite (host_installs n b k id m text o) in Hi by done. injection Hi as <- <-. split; [done|].
  apply (related_mono n); [lia|]. cbn [tried fst]. destruct (lands o); [by apply install_related|done].
Qed.

Lemma built_step n b k id c o r k' m :
  is_uuid id → related n b k → 0 ≤ n → validate_boundary c.(boundary) = Ok () → build c (att id) false = Ok m →
  Nftables.install o m k = (k', r) →
  let step := tried o b (Memory.install b (att id) m Applied, Ok ()) in step.2 = Finished r ∧ related (n + 1) step.1 k'.
Proof.
  intros Hid Hr Hn Hc Hb Hi. pose proof (att_typed Hfleet id) as Ht.
  by eapply install_step; [exact Hid|exact Hr|lia|eapply build_model_for|eapply built_fits|exact Hi].
Qed.

Lemma remove_step n b k id o r0 r k' :
  is_uuid id → related n b k → Nftables.remove_policy (answer_of o (Exited true (list_tables k))) r0 (att id) k = (k', r) →
  (memory_step b (ERemove o r0 id)).2 = Finished r ∧ related (n + 1) (memory_step b (ERemove o r0 id)).1 k'.
Proof.
  intros Hid Hr Hi. pose proof (related_mono n (n + 1) b k ltac:(lia) Hr) as Hr'. cbn [memory_step].
  destruct o as [| |e]; cbn [answer_of read_error] in *; [|by injection Hi as <- <-|by injection Hi as <- <-].
  rewrite (host_removes n b k id r0 Hid Hr) in Hi. pose proof (remove_related n b k id Hid Hr) as Hrel.
  apply (related_mono n (n + 1)) in Hrel; [|lia]. rewrite (att_id Hfleet).
  assert (Hok : (Memory.remove_policy b (att id)).2 = Ok ()) by (unfold Memory.remove_policy; by destruct (b !! _)).
  destruct (Memory.remove_policy b (att id)) as [b' x]. cbn [fst snd] in *. subst x.
  destruct (bool_decide _); injection Hi as <- <-; [|done]. cbn [tried fst snd]. split; [done|]. by destruct (lands r0).
Qed.

Lemma not_installed n b k id : is_uuid id → related n b k → Memory.installed_model b id = None → absent k id.
Proof.
  intros Hid [Hc _] Hm. specialize (Hc id Hid). unfold corresponds in Hc. unfold Memory.installed_model in Hm.
  destruct (b !! id) as [e|]; [|done]. cbn in Hm. rewrite Hm in Hc. apply Hc.
Qed.

Lemma packet_step n b k id source destination t port cs k' ok :
  is_uuid id → related n b k → 0 ≤ n < u64_max → 0 ≤ destination < 2 ^ 32 → traversal Ip Input k cs →
  deliver (guest_packet id source destination t port) cs k = (k', ok) →
  let '(b', r) := Memory.record_packet b (att id) source destination t port in
  default true r = ok ∧ related (n + 1) b' k'.
Proof.
  intros Hid Hr Hn Hdst Hcs Hd. pose proof (related_mono n (n + 1) b k ltac:(lia) Hr) as Hr'.
  unfold deliver in Hd. unfold Memory.record_packet. rewrite (att_id Hfleet).
  destruct (Memory.installed_model b id) as [m|] eqn:Hm.
  - unfold Memory.installed_model in Hm. destruct (b !! id) as [e|] eqn:Hb; [|done]. cbn in Hm. rewrite Hm.
    rewrite (packet_walk n b k id e m) in Hd by done. cbn in Hd. simplify_eq. cbn [default]. split; [done|].
    destruct (verdict_kind m source destination t port) as (kind & -> & <-). by eapply bump_related; [exact Hid|exact Hr|lia|exact Hb|].
  - rewrite (unenforced_passes n b k id _ Ip cs Hr (not_installed n b k id Hid Hr Hm)) in Hd by done.
    unfold Memory.installed_model in Hm. destruct (b !! id) as [e|]; [cbn in Hm; rewrite Hm|]; by simplify_eq.
Qed.

Lemma packet6_step n b k id p cs k' ok :
  is_uuid id → related n b k → 0 ≤ n < u64_max → p.(iif) = (att id).(at_interface) → traversal Ip6 Input k cs →
  deliver p cs k = (k', ok) →
  let '(b', r) := Memory.record_ipv6_packet b (att id) in default true r = ok ∧ related (n + 1) b' k'.
Proof.
  intros Hid Hr Hn Hp Hcs Hd. pose proof (related_mono n (n + 1) b k ltac:(lia) Hr) as Hr'.
  unfold deliver in Hd. unfold Memory.record_ipv6_packet. rewrite (att_id Hfleet).
  destruct (Memory.installed_model b id) as [m|] eqn:Hm.
  - unfold Memory.installed_model in Hm. destruct (b !! id) as [e|] eqn:Hb; [|done]. cbn in Hm. rewrite Hm.
    destruct (model_enforced n b k id e m Hid Hr Hb Hm) as [He Hfor].
    rewrite (enforced_ipv6 m k He Input p cs) in Hd;
      [|by destruct Hfor as (_ & -> & _)|by eapply others_wait_related|done].
    destruct Hfor as (Ht & _). rewrite Ht in Hd. cbn in Hd. simplify_eq. split; [done|].
    by apply (bump_related n b k id e m Ipv6_); [exact Hid|exact Hr|lia|exact Hb|].
  - rewrite (unenforced_passes n b k id _ Ip6 cs Hr (not_installed n b k id Hid Hr Hm)) in Hd by done.
    unfold Memory.installed_model in Hm. destruct (b !! id) as [e|]; [cbn in Hm; rewrite Hm|]; by simplify_eq.
Qed.

(** One event: the same reply, and the correspondence kept. *)
Lemma event_step n b k e k' r :
  related n b k → 0 ≤ n < u64_max → sound_event e → host_step k e k' r →
  (memory_step b e).2 = r ∧ related (n + 1) (memory_step b e).1 k'.
Proof.
  intros Hr Hn Hs Hstep. pose proof (related_mono n (n + 1) b k ltac:(lia) Hr) as Hr'.
  destruct Hstep as [o c id k k' r Hi|o id k k' r Hi|o c id k k' r Hi|o r0 id k k' r Hi|o4 o6 id k r Hi
                    |id source destination t port k k' cs ok Hcs Hd|id p k k' cs ok Hp Hcs Hd]; cbn [sound_event] in *.
  - cbn [memory_step]. unfold Nftables.apply_policy in Hi. unfold Memory.apply_policy.
    destruct (build c (att id) false) as [m|err] eqn:Hb; [|by simplify_eq].
    exact (built_step n b k id c o r k' m (proj1 Hs) Hr ltac:(lia) (proj2 Hs) Hb Hi).
  - cbn [memory_step]. unfold Nftables.cut_network in Hi. unfold Memory.cut_network.
    destruct (cut_model (att id)) as [m|err] eqn:Hb; [|by simplify_eq]. pose proof (att_typed Hfleet id) as Ht.
    exact (install_step n b k id m CutOff o r k' Hs Hr ltac:(lia) (cut_model_for _ _ Ht Hb) (cut_fits _ _ Ht Hb) Hi).
  - cbn [memory_step]. unfold Nftables.restore_network in Hi. unfold Memory.restore_network.
    destruct (build c (att id) false) as [m|err] eqn:Hb; [|by simplify_eq].
    exact (built_step n b k id c o r k' m (proj1 Hs) Hr ltac:(lia) (proj2 Hs) Hb Hi).
  - by apply (remove_step n b k id o r0 r k').
  - cbn [memory_step fst snd]. split; [|done]. f_equal. rewrite <-Hi. symmetry. apply (snapshot_agrees n); [done|done|lia].
  - pose proof (packet_step n b k id source destination t port cs k' ok (proj1 Hs) Hr Hn (proj2 Hs) Hcs Hd) as Hk. cbn [memory_step].
    destruct (Memory.record_packet _ _ _ _ _ _) as [b' o]. by destruct Hk as [-> ?].
  - pose proof (packet6_step n b k id p cs k' ok Hs Hr Hn Hp Hcs Hd) as Hk. cbn [memory_step].
    destruct (Memory.record_ipv6_packet _ _) as [b' o]. by destruct Hk as [-> ?].
Qed.

Lemma run_simulated n b k es k' rs :
  related n b k → 0 ≤ n → n + count es ≤ u64_max → Forall sound_event es → host_run k es k' rs →
  (memory_run b es).2 = rs ∧ related (n + count es) (memory_run b es).1 k'.
Proof.
  intros Hr Hn Hb Hs Hrun. revert n b Hr Hn Hb Hs. induction Hrun as [k|k e es k1 k2 r rs Hstep Hrun IH]; intros n b Hr Hn Hb Hs.
  { split; [done|]. cbn. by rewrite Z.add_0_r. }
  rewrite count_cons in *. pose proof (count_nonneg es). apply Forall_cons in Hs as [He Hes].
  destruct (event_step n b k e k1 r Hr ltac:(lia) He Hstep) as [Hreply Hrel]. cbn [memory_run].
  destruct (memory_step b e) as [b1 r1]. cbn [fst snd] in *.
  destruct (IH (n + 1) b1 Hrel ltac:(lia) ltac:(lia) Hes) as [Hrs Hrel'].
  destruct (memory_run b1 es) as [b2 rs2]. cbn [fst snd] in *. subst. split; [done|].
  by replace (n + (1 + count es)) with (n + 1 + count es) by lia.
Qed.

Lemma related_empty : related 0 ∅ ∅.
Proof. split; [intros id _; unfold corresponds; by rewrite lookup_empty|]. intros f t [tb Ht]. done. Qed.

(** The host always has a next state: a hook's chains have an order. *)
Lemma traversal_exists f h k : ∃ cs, traversal f h k cs.
Proof.
  exists (sort_by (λ a b, a.2.(priority) <=? b.2.(priority)) (chains_at f h k)). split; [apply sort_by_perm|].
  assert (Hs : StronglySorted (λ a b, (a.2.(priority) <=? b.2.(priority)) = true)
            (sort_by (λ a b, a.2.(priority) <=? b.2.(priority)) (chains_at f h k))).
  2: { induction Hs as [|x l _ IH Hx]; constructor; [done|]. eapply Forall_impl; [exact Hx|]. by intros y ?%Z.leb_le. }
  apply sort_by_sorted; cbn.
  - intros a b. destruct (Z.leb_spec a.2.(priority) b.2.(priority)); [by left|right; apply Z.leb_le; lia].
  - intros a b c ?%Z.leb_le ?%Z.leb_le. apply Z.leb_le. lia.
Qed.

Lemma host_progress k e : ∃ k' r, host_step k e k' r.
Proof.
  destruct e as [o c id|o id|o c id|o r0 id|o4 o6 id|id s d t port|id].
  - destruct (Nftables.apply_policy o c (att id) k) as [k' r] eqn:He. eexists _, _. by constructor.
  - destruct (Nftables.cut_network o (att id) k) as [k' r] eqn:He. eexists _, _. by constructor.
  - destruct (Nftables.restore_network o c (att id) k) as [k' r] eqn:He. eexists _, _. by constructor.
  - destruct (Nftables.remove_policy (answer_of o (Exited true (list_tables k))) r0 (att id) k) as [k' r] eqn:He. eexists _, _. by constructor.
  - eexists _, _. by constructor.
  - destruct (traversal_exists Ip Input k) as [cs Hcs]. destruct (deliver (guest_packet id s d t port) cs k) as [k' ok] eqn:He.
    exists k', (Passed ok). by eapply host_packet.
  - destruct (traversal_exists Ip6 Input k) as [cs Hcs]. destruct (deliver (guest_packet id 0 0 Other 0) cs k) as [k' ok] eqn:He.
    exists k', (Passed ok). by eapply (host_packet6 id (guest_packet id 0 0 Other 0)).
Qed.

Lemma host_total k es : ∃ k' rs, host_run k es k' rs.
Proof.
  revert k. induction es as [|e es IH]; intros k; [by eexists _, _; constructor|].
  destruct (host_progress k e) as (k1 & r & He). destruct (IH k1) as (k2 & rs & Hes). eexists _, _. by econstructor.
Qed.

End Simulation.

(** ** Reading what [nft] prints *)
(** [run] waits for the child while it collects first the diagnostics, then the output.  The
    output goes through a pipe that holds [capacity] bytes: a writer that would overfill it
    blocks.  The child prints [total] bytes and nothing on its diagnostics, which end when it
    exits. *)
Module Pipes.
Section Collecting.
Context (capacity total : Z).

Inductive Phase := Diagnostics | Output (got : Z) | Collected (got : Z).

Record State := { unwritten : Z; held : Z; exited : bool; phase : Phase }.

Definition started : State := {| unwritten := total; held := 0; exited := false; phase := Diagnostics |}.

Inductive step : State → State → Prop :=
| child_writes u h ph w :
    0 < w ≤ u → h + w ≤ capacity → step (Build_State u h false ph) (Build_State (u - w) (h + w) false ph)
| child_exits h ph : step (Build_State 0 h false ph) (Build_State 0 h true ph)
| diagnostics_end u h : step (Build_State u h true Diagnostics) (Build_State u h true (Output 0))
| output_read u h x got r :
    0 < r ≤ h → got + r ≤ NFT_STDOUT_LIMIT → step (Build_State u h x (Output got)) (Build_State u (h - r) x (Output (got + r)))
| output_ends u got : step (Build_State u 0 true (Output got)) (Build_State u 0 true (Collected got))
| output_full u h x : step (Build_State u h x (Output NFT_STDOUT_LIMIT)) (Build_State u h x (Collected NFT_STDOUT_LIMIT)).

Lemma blocked_invariant s :
  0 ≤ capacity < total → rtc step started s →
  s.(phase) = Diagnostics ∧ s.(exited) = false ∧ s.(unwritten) + s.(held) = total ∧ s.(held) ≤ capacity.
Proof.
  intros Hc Hr. cut (started.(phase) = Diagnostics ∧ started.(exited) = false ∧ started.(unwritten) + started.(held) = total
    ∧ started.(held) ≤ capacity); [|cbn; split_and!; done || lia].
  induction Hr as [s|s1 s2 s3 Hstep _ IH]; [done|]. intros (Hp & Hx & Hsum & Hh). apply IH. clear IH.
  inversion Hstep; subst; cbn in *; simplify_eq; split_and!; done || lia.
Qed.

Definition coherent (s : State) : Prop :=
  0 ≤ s.(unwritten) ∧ 0 ≤ s.(held) ∧ (s.(exited) = true → s.(unwritten) = 0) ∧
  match s.(phase) with
  | Diagnostics => s.(unwritten) + s.(held) = total
  | Output got => s.(exited) = true ∧ s.(held) + got = total
  | Collected got => got = total
  end.

Lemma coherent_step s s' : total ≤ NFT_STDOUT_LIMIT → coherent s → step s s' → coherent s'.
Proof.
  intros Hl (Hu & Hh & Hx & Hp) Hs. unfold coherent.
  inversion Hs; subst; cbn in *; try (destruct Hp as [Hp1 Hp2]); split_and!; try done; try lia.
  - destruct ph; [lia|by destruct Hp|done].
  - destruct ph; [lia|by destruct Hp|done].
Qed.

(** What is in the pipe of a child that has exited is read to the end. *)
Lemma drained h got : 0 ≤ h → got + h = total → total ≤ NFT_STDOUT_LIMIT →
  rtc step (Build_State 0 h true (Output got)) (Build_State 0 0 true (Collected total)).
Proof.
  intros Hh Hg Hl. destruct (decide (h = 0)) as [->|Hne].
  - assert (got = total) as -> by lia. apply rtc_once, output_ends.
  - eapply rtc_l; [apply (output_read 0 h true got h); lia|]. rewrite Z.sub_diag, Hg. apply rtc_once, output_ends.
Qed.

Lemma collects s :
  total ≤ capacity → total ≤ NFT_STDOUT_LIMIT → coherent s → ∃ s', rtc step s s' ∧ s'.(phase) = Collected total.
Proof.
  intros Hc Hl (Hu & Hh & Hx & Hp). destruct s as [u h x ph]. cbn in *. destruct ph as [|got|got].
  - assert (Hdone : ∀ h, 0 ≤ h → h = total → rtc step (Build_State 0 h true Diagnostics) (Build_State 0 0 true (Collected total))).
    { intros h' ??. eapply rtc_l; [apply diagnostics_end|]. apply drained; lia. }
    exists (Build_State 0 0 true (Collected total)). split; [|done]. destruct x; [rewrite Hx by done; apply Hdone; lia|].
    destruct (decide (u = 0)) as [->|Hne]; [eapply rtc_l; [apply child_exits|apply Hdone; lia]|].
    eapply rtc_l; [apply (child_writes u h Diagnostics u); lia|]. rewrite Z.sub_diag.
    eapply rtc_l; [apply child_exits|apply Hdone; lia].
  - destruct Hp as [-> Hp]. rewrite Hx by done. eexists. split; [apply drained; lia|done].
  - subst. eexists. split; [apply rtc_refl|done].
Qed.

Lemma reachable_coherent s : 0 ≤ total ≤ NFT_STDOUT_LIMIT → rtc step started s → coherent s.
Proof.
  intros Hl Hr. cut (coherent started); [|unfold coherent; cbn; split_and!; try done; lia].
  induction Hr as [s|s1 s2 s3 Hstep _ IH]; [done|]. intros Hs. apply IH. eapply coherent_step; [lia|exact Hs|exact Hstep].
Qed.

End Collecting.
End Pipes.

(** ** Properties *)
(** C14: The nftables backend is the in-memory backend.  On a host that starts without
    tables, for any fleet of guests on interfaces of their own, any sequence of applied, cut,
    restored and removed policies, counter readings and packets, however each run of [nft]
    ends, and any order in which the kernel runs chains of equal priority, the host answers,
    and with the replies of the in-memory model: the same results, the same packets let
    through and the same counters.  A run that fails was done whole or not at all and is
    reported as a failure.  A listing that is read is read whole, which one longer than the
    pipe never is; the case of one that does not parse is
    [unreadable_listing_removes_nothing]. *)
Theorem nftables_backend_simulates_memory_backend
    `{T : Texts} `{!TextsLaws T} `{N : Nft} `{!NftLaws N} {J : NftJson} {L : NftListing J} `{!NftListingLaws J L}
    `{IpNetLib} att es :
  fleet att → Forall sound_event es → count es ≤ u64_max →
  (∃ k rs, host_run att ∅ es k rs) ∧ ∀ k rs, host_run att ∅ es k rs → rs = (memory_run att ∅ es).2.
Proof.
  intros Hf Hs Hc. split; [apply host_total|]. intros k rs Hrun.
  by destruct (run_simulated att Hf 0 ∅ ∅ es k rs (related_empty att) ltac:(lia) ltac:(lia) Hs Hrun) as [<- _].
Qed.

(** A valid attachment can always be enforced.  Under any validated boundary a valid
    attachment has a model, its batch stays within the limit of 256 KiB, and the ranges its
    blocked-range counter stands for hold exactly the IPv4 addresses the boundary denies. *)
Theorem valid_attachment_is_enforceable
    `{T : Texts} `{!TextsLaws T} `{L : IpNetLib} `{!IpNetLaws L} c a k :
  typed_attachment a → validate_attachment a = Ok () → validate_boundary c.(boundary) = Ok () →
  Forall typed_net (c.(boundary).(blocked_cidrs) ++ c.(boundary).(protected_cidrs)) →
  ∃ m text, build c a k = Ok m ∧ flushable_ruleset m = Ok text ∧ count text ≤ MAX_RULESET_BYTES
    ∧ ∀ x, 0 ≤ x < 2 ^ 32 →
        existsb (λ r, range_contains r x) m.(rm_blocked)
        = existsb (λ net, Boundary.contains net (V4 x)) (denied_networks c.(boundary)).
Proof.
  intros Ha Hv Hb Ht. destruct (build_fits c a k Ha Hv Hb Ht) as (m & text & Hm & Htext & _ & Hr).
  exists m, text. split_and!; [done|done| |].
  - unfold flushable_ruleset, render_replace, finish in Htext. destruct (Z.ltb_spec MAX_RULESET_BYTES (count (script
      ([add_table m FAMILY_V4; flush_table m FAMILY_V4; add_table m FAMILY_V6; flush_table m FAMILY_V6]
       ++ render_ipv4 m ++ render_ipv6 m)))) as [|Hle]; [done|]. by injection Htext as <-.
  - intros x Hx. by apply blocked_ranges_exact.
Qed.

(** A listing that cannot be read removes nothing and reports success: when [nft] exits
    well but its table listing does not parse, [remove_policy] leaves the guest's rules
    installed and returns [Ok]. *)
Theorem unreadable_listing_removes_nothing `{T : Texts} `{N : Nft} `{J : NftJson} out r a k :
  from_slice out = None → Nftables.remove_policy (Exited true out) r a k = (k, Ok ()).
Proof.
  intros Hout. unfold Nftables.remove_policy, Nftables.uninstall, Nftables.existing_tables. cbn [Nftables.answered].
  assert (Hp : parse_tables out = ∅) by (unfold parse_tables; by rewrite Hout). rewrite Hp.
  rewrite (removal_batch_none (attachment_table a) ∅); [done|]. set_solver.
Qed.

(** During a cut no attempt counts as aimed at a blocked range: the model a cut installs
    has no ranges, so every packet of the guest is counted as otherwise denied. *)
Theorem cut_counts_no_blocked_range `{T : Texts} a m source destination t port :
  cut_model a = Ok m →
  verdict m source destination t port = {| permitted := false; v_counter := COUNTER_OTHER_DENIED |}.
Proof.
  unfold cut_model. destruct (RuleModel_new _) as [m'|] eqn:Hn; [|done]. intros [= <-].
  assert (Hc : m'.(rm_cut) = true) by (revert Hn; unfold RuleModel_new; repeat case_match; intros ?; by simplify_eq/=).
  apply new_model_blocked in Hn. cbn in Hn. injection Hn as Hn. unfold verdict, permits. by rewrite Hc, <-Hn.
Qed.

(** A listing longer than the pipe is never read.  Output is collected only after the
    diagnostics end, which they do when the child exits; a child whose output does not fit the
    pipe blocks before that, and the run can only time out.  Output that fits the pipe is
    always collected whole. *)
Theorem long_listing_is_never_read capacity total s :
  0 ≤ capacity → 0 ≤ total ≤ NFT_STDOUT_LIMIT → rtc (Pipes.step capacity) (Pipes.started total) s →
  if total <=? capacity
  then ∃ s', rtc (Pipes.step capacity) s s' ∧ s'.(Pipes.phase) = Pipes.Collected total
  else s.(Pipes.phase) = Pipes.Diagnostics.
Proof.
  intros Hc Ht Hr. destruct (Z.leb_spec total capacity) as [Hle|Hlt].
  - apply (Pipes.collects capacity total s Hle); [lia|]. by apply (Pipes.reachable_coherent capacity).
  - by apply (Pipes.blocked_invariant capacity total s).
Qed.

(** ** A sample host *)
Module SampleHost.
Import SampleFirewall.

(** Listings as the bits of a number that encodes their entries. *)
Fixpoint bits (p : positive) : list ascii :=
  match p with xH => [] | xO p => "0"%char :: bits p | xI p => "1"%char :: bits p end.
Fixpoint unbits (l : list ascii) : positive :=
  match l with
  | [] => xH
  | c :: l => if decide (c = "0"%char) then xO (unbits l) else xI (unbits l)
  end.
Lemma unbits_bits p : unbits (bits p) = p.
Proof. induction p as [p IH|p IH|]; cbn; [by rewrite IH|by rewrite IH|done]. Qed.

Abbreviation Listing := (list (Family * string) + list (string * Z))%type (only parsing).

Definition shown (l : Listing) : Value Z :=
  Object [("nftables"%string, Array (Null ::
    match l with
    | inl keys => (λ key, table_object key []) <$> keys
    | inr cs => (λ e, counter_object e.1 e.2 []) <$> cs
    end))].

#[global] Instance sample_json : NftJson := {|
  JNum := Z; from_slice bytes := shown <$> decode (unbits bytes); as_u64_num n := Some n |}.

#[global] Instance sample_listing : NftListing sample_json := {|
  list_tables k := bits (encode (inl (map_to_list k).*1 : Listing));
  list_counters f t k := (λ tb, bits (encode (inr (map_to_list tb.(counters)) : Listing))) <$> k !! (f, t) |}.

#[global] Instance sample_listing_laws : NftListingLaws sample_json sample_listing.
Proof.
  split.
  - intros k. exists Null, (λ _, []). split; [|done]. cbn. by rewrite unbits_bits, decode_encode.
  - intros f t k Hk. cbn. by rewrite Hk.
  - intros f t k tb Hk. cbn. rewrite Hk. eexists _, Null, (λ _, []), id. split_and!; [done| |done|done].
    by rewrite unbits_bits, decode_encode.
Qed.

(** 32 hexadecimal digits, the lowest first. *)
Definition hexdigit (n : N) : ascii := nth (N.to_nat n) (chars "0123456789abcdef") "0"%char.
Fixpoint hex (k : nat) (u : N) : list ascii :=
  match k with O => [] | S k => hexdigit (u `mod` 16)%N :: hex k (u `div` 16)%N end.

Lemma hexdigit_inj m n : (m < 16)%N → (n < 16)%N → hexdigit m = hexdigit n → m = n.
Proof.
  intros Hm Hn. unfold hexdigit. intros He. apply N2Nat.inj.
  eapply (proj1 (NoDup_nth (chars "0123456789abcdef") "0"%char)); [|cbn; lia|cbn; lia|exact He].
  apply NoDup_ListNoDup. by apply (bool_decide_unpack (NoDup (chars "0123456789abcdef"))).
Qed.

Lemma hex_inj k u v : (u < 16 ^ N.of_nat k)%N → (v < 16 ^ N.of_nat k)%N → hex k u = hex k v → u = v.
Proof.
  revert u v. induction k as [|k IH]; intros u v Hu Hv; [change (16 ^ N.of_nat 0)%N with 1%N in *; lia|].
  rewrite Nat2N.inj_succ, N.pow_succ_r' in Hu, Hv. cbn [hex]. intros [= Hd Hr].
  apply hexdigit_inj in Hd; [|apply N.mod_lt; done..].
  apply IH in Hr; [|apply N.Div0.div_lt_upper_bound; lia..].
  rewrite (N.div_mod u 16), (N.div_mod v 16) by done. congruence.
Qed.

Lemma hex_length k u : length (hex k u) = k.
Proof. revert u. induction k as [|k IH]; intros u; cbn; [done|]. by rewrite IH. Qed.

Lemma hexdigit_hex n : (n < 16)%N → is_ascii_hexdigit (hexdigit n) = true.
Proof.
  intros Hn. assert (Hall : forallb (λ k, is_ascii_hexdigit (hexdigit (N.of_nat k))) (seq 0 16) = true) by (vm_compute; reflexivity).
  rewrite List.forallb_forall in Hall. specialize (Hall (N.to_nat n)). rewrite N2Nat.id in Hall. apply Hall, in_seq. lia.
Qed.

Lemma hex_digits k u : forallb is_ascii_hexdigit (hex k u) = true.
Proof.
  revert u. induction k as [|k IH]; intros u; cbn [hex forallb]; [done|]. rewrite IH, andb_true_r.
  apply hexdigit_hex, N.mod_lt. done.
Qed.

#[global] Instance sample_texts : Texts := {|
  simple u := string_of (hex 32 u);
  net_text net := match net with
                  | V4Net a p => dotted a +:+ "/" +:+ decimal p
                  | V6Net a p => decimal a +:+ "/" +:+ decimal p
                  end |}.
#[global] Instance sample_texts_laws : TextsLaws sample_texts.
Proof.
  split; [|intros u v Hu Hv He%(f_equal chars)|done].
  { intros u _. change (simple u) with (string_of (hex 32 u)). unfold all_bytes. rewrite slen_chars, chars_string_of.
    split; [unfold count; by rewrite hex_length|apply hex_digits]. }
  change (chars (string_of (hex 32 u)) = chars (string_of (hex 32 v))) in He. rewrite !chars_string_of in He.
  assert (Hp : (16 ^ N.of_nat 32 = 2 ^ 128)%N) by (vm_compute; reflexivity).
  apply hex_inj in He; [exact He|rewrite Hp; exact Hu|rewrite Hp; exact Hv].
Qed.

Definition attached (id : Uuid) : GuardAttachment := {|
  sandbox_id := id; tenant_id := 1; at_interface := "tap" +:+ decimal (Z.of_N id); at_guest_ip := ip4 10 0 0 2;
  at_gateway_ip := ip4 10 0 0 1; at_dns_port := 53; at_broker_port := 8443 |}.

Lemma attached_fleet : fleet attached.
Proof.
  split; [done|by intros id; vm_compute|]. intros i j He. cbn in He. injection He as He.
  apply decimal_inj in He; lia.
Qed.

Definition events : list Event :=
  [EApply Ran SampleNet.sample_compiled 7; EPacket 7 (ip4 10 0 0 2) (ip4 10 0 0 1) Tcp 8443;
   EPacket 7 (ip4 10 0 0 2) (ip4 8 8 8 8) Udp 53; ECut NotRun 7; EPacket 7 (ip4 10 0 0 2) (ip4 10 0 0 1) Tcp 8443;
   ECut (Unfinished true) 7; EPacket 7 (ip4 10 0 0 2) (ip4 10 0 0 1) Tcp 8443; EPacket6 7; ECounters Whole Whole 7;
   ERemove (Silent GuardError.Io) Ran 7; ERemove Whole Ran 7; ERemove Whole NotRun 7; EPacket6 7].

Lemma nftables_backend_simulates_memory_backend_witness :
  ∃ k rs, host_run attached ∅ events k rs ∧ rs = (memory_run attached ∅ events).2
    ∧ (λ r, match r with Passed ok => ok | Finished r => is_ok r | Counted r => is_ok r end) <$> rs =
        [true; true; false; false; true; false; false; false; true; false; true; true; true].
Proof.
  destruct (nftables_backend_simulates_memory_backend attached events) as [(k & rs & Hrun) Hall].
  - apply attached_fleet.
  - repeat constructor; vm_compute; done.
  - vm_compute. done.
  - pose proof (Hall k rs Hrun) as Hrs. exists k, rs. split; [exact Hrun|]. split; [exact Hrs|].
    rewrite Hrs. vm_compute. reflexivity.
Defined.

Lemma valid_attachment_is_enforceable_witness :
  ∃ m text, build SampleNet.sample_compiled (attached 7) false = Ok m ∧ flushable_ruleset m = Ok text.
Proof.
  destruct (valid_attachment_is_enforceable SampleNet.sample_compiled (attached 7) false) as (m & text & Hm & Ht & _).
  - vm_compute. done.
  - vm_compute. reflexivity.
  - vm_compute. reflexivity.
  - repeat constructor; vm_compute; done.
  - exists m, text. split; [exact Hm|exact Ht].
Defined.

Lemma unreadable_listing_removes_nothing_witness :
  Nftables.remove_policy (Exited true (chars "00")) Ran (attached 7) ∅ = (∅, Ok ()).
Proof. apply (unreadable_listing_removes_nothing (chars "00")). vm_compute. reflexivity. Defined.

Lemma cut_counts_no_blocked_range_witness :
  ∃ m, cut_model (attached 7) = Ok m
    ∧ verdict m (ip4 10 0 0 2) (ip4 169 254 169 254) Tcp 80 = {| permitted := false; v_counter := COUNTER_OTHER_DENIED |}.
Proof.
  destruct (cut_model (attached 7)) as [m|e] eqn:Hm; [|by vm_compute in Hm].
  exists m. split; [reflexivity|]. apply (cut_counts_no_blocked_range (attached 7)). exact Hm.
Defined.

Lemma long_listing_is_never_read_witness :
  let full := Pipes.Build_State 1 65536 false Pipes.Diagnostics in
  rtc (Pipes.step 65536) (Pipes.started 65537) full ∧ full.(Pipes.phase) = Pipes.Diagnostics.
Proof.
  assert (Hr : rtc (Pipes.step 65536) (Pipes.started 65537) (Pipes.Build_State 1 65536 false Pipes.Diagnostics)).
  { apply rtc_once. by apply (Pipes.child_writes 65536 65537 0 Pipes.Diagnostics 65536). }
  split; [exact Hr|]. by apply (long_listing_is_never_read 65536 65537 (Pipes.Build_State 1 65536 false Pipes.Diagnostics)).
Defined.

End SampleHost.
