(* ===== verification/Sni.v ===== *)
(** * Sni: the visible identity of a TLS tunnel

    [crates/aiec-guard/src/gateway/connect.rs]: [read_client_hello] takes the records of
    a client hello off a tunnel and [parse_sni] reads the server name in it, the only part
    of an opaque tunnel the Guard can check against the name it admitted.

    The stream is the list of bytes the guest sends; running out of them is the error of
    [read_exact].  Loops run on fuel equal to the number of bytes: each step consumes at
    least one.  Both functions are shown to accept exactly the encodings of a small
    abstract syntax, so nothing depends on the fuel. *)

From Stdlib Require Import Ascii.
From S2P Require Import Prelude Policy Graphql L7 Text.

Definition u8 (z : Z) : ascii := ascii_of_N (Z.to_N z).
Definition be16 (z : Z) : list ascii := [u8 (z / 256); u8 (z mod 256)].
Definition be24 (z : Z) : list ascii := u8 (z / 65536) :: be16 (z mod 65536).
Definition from_be16 (a b : ascii) : Z := byte_of a * 256 + byte_of b.

(** ** The parser *)
Definition take_bytes (len : Z) (input : list ascii) : option (list ascii * list ascii) :=
  if count input <? len then None
  else Some (take (Z.to_nat len) input, drop (Z.to_nat len) input).

Definition number (input : list ascii) : option (Z * list ascii) :=
  match input with
  | a :: b :: rest => Some (from_be16 a b, rest)
  | _ => None
  end.

Definition byte (input : list ascii) : option (Z * list ascii) :=
  match input with a :: rest => Some (byte_of a, rest) | [] => None end.

Definition bad_label (l : list ascii) : bool :=
  bool_decide (l = []) || (63 <? count l) || bool_decide (head l = Some "-"%char)
  || bool_decide (last l = Some "-"%char)
  || negb (forallb (λ b, is_ascii_lowercase b || is_ascii_digit b || is_char "-" b) l).

(** The data of the extension of kind 0. *)
Definition server_name (data : list ascii) : option (list ascii) :=
  '(total, data) ← number data;
  if negb (total =? count data) then None
  else
    '(kind, data) ← byte data;
    if negb (kind =? 0) then None
    else
      '(len, data) ← number data;
      '(name, data) ← take_bytes len data;
      if negb (valid_utf8 name) then None
      else if negb (bool_decide (data = [])) || bool_decide (name = []) || (253 <? count name)
              || negb (bool_decide (name = to_ascii_lowercase <$> name))
              || existsb bad_label (split_on dot name)
      then None
      else Some name.

Fixpoint extensions (fuel : nat) (hello : list ascii) (seen : list Z) (sni : option (list ascii))
    : option (list ascii) :=
  match fuel, hello with
  | _, [] => sni
  | O, _ => None
  | S fuel, _ =>
      '(kind, hello) ← number hello;
      '(size, hello) ← number hello;
      '(data, hello) ← take_bytes size hello;
      if bool_decide (kind ∈ seen) || (kind =? 65037) || (kind =? 42) then None
      else if kind =? 0 then name ← server_name data; extensions fuel hello (kind :: seen) (Some name)
      else extensions fuel hello (kind :: seen) sni
  end.

Definition parse_sni (hello : list ascii) : option (list ascii) :=
  '(version, hello) ← take_bytes 2 hello;
  if negb (bool_decide (version = [u8 3; u8 3])) && negb (bool_decide (version = [u8 3; u8 1])) then None
  else
    '(_, hello) ← take_bytes 32 hello;
    '(sid, hello) ← byte hello;
    if 32 <? sid then None
    else
      '(_, hello) ← take_bytes sid hello;
      '(ciphers, hello) ← number hello;
      if (ciphers <? 2) || negb (ciphers mod 2 =? 0) then None
      else
        '(_, hello) ← take_bytes ciphers hello;
        '(compression, hello) ← byte hello;
        if negb (compression =? 1) then None
        else
          '(method, hello) ← take_bytes compression hello;
          if negb (bool_decide (method = [u8 0])) then None
          else
            '(len, hello) ← number hello;
            if negb (len =? count hello) then None
            else extensions (length hello) hello [] None.

(** Why [read_client_hello] fails. *)
Inductive hello_error := UnexpectedEof | InvalidHello | AmbiguousHello | NoVisibleIdentity | NoFuel.

(** The loop of [read_client_hello], from what is left of the stream. *)
Fixpoint read_records (fuel : nat) (stream wire handshake : list ascii)
    : result hello_error (list ascii * list ascii * list ascii) :=
  match fuel with
  | O => Err NoFuel
  | S fuel =>
      match stream with
      | h0 :: h1 :: h2 :: h3 :: h4 :: stream =>
          let size := from_be16 h3 h4 in
          bail_if negb (byte_of h0 =? 22) || negb (byte_of h1 =? 3)
                  || negb ((1 <=? byte_of h2) && (byte_of h2 <=? 3))
                  || (size =? 0) || (16384 <? size) || (32768 <? count wire + size + 5)
            with InvalidHello;
          match take_bytes size stream with
          | None => Err UnexpectedEof
          | Some (fragment, stream) =>
              let wire := wire ++ [h0; h1; h2; h3; h4] ++ fragment in
              let handshake := handshake ++ fragment in
              match handshake with
              | t :: a :: b :: c :: hello =>
                  let length := byte_of a * 65536 + byte_of b * 256 + byte_of c in
                  bail_if negb (byte_of t =? 1) || (16384 <? length) with InvalidHello;
                  if count handshake <? length + 4 then read_records fuel stream wire handshake
                  else
                    bail_if negb (count handshake =? length + 4) with AmbiguousHello;
                    match parse_sni hello with
                    | Some sni => Ok (wire, sni, stream)
                    | None => Err NoVisibleIdentity
                    end
              | _ => read_records fuel stream wire handshake
              end
          end
      | _ => Err UnexpectedEof
      end
  end.

Definition read_client_hello (stream : list ascii) : result hello_error (list ascii * list ascii * list ascii) :=
  read_records (S (length stream)) stream [] [].

(** ** The abstract syntax *)
Record Extension := { x_kind : Z; x_data : list ascii }.

Record ClientHello := {
  ch_tls10 : bool; ch_random : list ascii; ch_session : list ascii; ch_ciphers : list ascii;
  ch_extensions : list Extension }.

Definition encode_extension (x : Extension) : list ascii :=
  be16 x.(x_kind) ++ be16 (count x.(x_data)) ++ x.(x_data).

Definition encode_hello (h : ClientHello) : list ascii :=
  [u8 3; u8 (if h.(ch_tls10) then 1 else 3)] ++ h.(ch_random)
  ++ u8 (count h.(ch_session)) :: h.(ch_session)
  ++ be16 (count h.(ch_ciphers)) ++ h.(ch_ciphers)
  ++ [u8 1; u8 0]
  ++ be16 (count (flat_map encode_extension h.(ch_extensions)))
  ++ flat_map encode_extension h.(ch_extensions).

(** A list of one host name, as the extension of kind 0 carries it. *)
Definition encode_server_name (name : list ascii) : list ascii :=
  be16 (count name + 3) ++ u8 0 :: be16 (count name) ++ name.

(** A DNS name in canonical form. *)
Definition dns_shaped (name : list ascii) : Prop :=
  count name ≤ 253 ∧ Forall good_label (split_on dot name).

Definition u16_ok (z : Z) : Prop := 0 ≤ z ≤ u16_max.

(** A hello without encrypted or early content, whose one server name is [sni]. *)
Definition hello_ok (h : ClientHello) (sni : list ascii) : Prop :=
  count h.(ch_random) = 32 ∧ count h.(ch_session) ≤ 32
  ∧ (2 ≤ count h.(ch_ciphers) ≤ u16_max ∧ count h.(ch_ciphers) mod 2 = 0)
  ∧ count (flat_map encode_extension h.(ch_extensions)) ≤ u16_max
  ∧ (∀ x, x ∈ h.(ch_extensions) → u16_ok x.(x_kind) ∧ x.(x_kind) ≠ 65037 ∧ x.(x_kind) ≠ 42)
  ∧ NoDup (x_kind <$> h.(ch_extensions))
  ∧ (∃ x, x ∈ h.(ch_extensions) ∧ x.(x_kind) = 0 ∧ x.(x_data) = encode_server_name sni)
  ∧ dns_shaped sni.

(** A TLS record of the handshake layer. *)
Record TlsRecord := { r_minor : Z; r_fragment : list ascii }.
Definition encode_record (r : TlsRecord) : list ascii :=
  [u8 22; u8 3; u8 r.(r_minor)] ++ be16 (count r.(r_fragment)) ++ r.(r_fragment).
Definition record_ok (r : TlsRecord) : Prop :=
  1 ≤ r.(r_minor) ≤ 3 ∧ 1 ≤ count r.(r_fragment) ≤ 16384.

(** ** Lemmas: encodings *)
Lemma byte_of_u8 z : 0 ≤ z < 256 → byte_of (u8 z) = z.
Proof. intros Hz. unfold byte_of, u8. rewrite N_ascii_embedding by lia. lia. Qed.

Lemma u8_byte_of c : u8 (byte_of c) = c.
Proof. unfold byte_of, u8. rewrite N2Z.id. apply ascii_N_embedding. Qed.

Lemma from_be16_range a b : 0 ≤ from_be16 a b ≤ 65535.
Proof. unfold from_be16. pose proof (byte_of_range a). pose proof (byte_of_range b). lia. Qed.

Lemma be16_from a b : be16 (from_be16 a b) = [a; b].
Proof.
  unfold be16, from_be16. pose proof (byte_of_range a). pose proof (byte_of_range b).
  rewrite Z.div_add_l by lia. rewrite (Z.div_small (byte_of b)) by lia.
  assert ((byte_of a * 256 + byte_of b) mod 256 = byte_of b) as ->
    by (rewrite Z.add_comm, Z.mod_add, Z.mod_small; lia).
  by rewrite Z.add_0_r, !u8_byte_of.
Qed.

Lemma from_be16_u8 z : 0 ≤ z ≤ 65535 → from_be16 (u8 (z / 256)) (u8 (z mod 256)) = z.
Proof.
  intros Hz. unfold from_be16. rewrite !byte_of_u8; [pose proof (Z.div_mod z 256); lia| |].
  - apply Z.mod_pos_bound. lia.
  - split; [apply Z.div_pos; lia|apply Z.div_lt_upper_bound; lia].
Qed.

Lemma number_be16 z r : 0 ≤ z ≤ 65535 → number (be16 z ++ r) = Some (z, r).
Proof. intros Hz. simpl. by rewrite from_be16_u8. Qed.

Lemma number_inv s z r : number s = Some (z, r) → s = be16 z ++ r ∧ 0 ≤ z ≤ 65535.
Proof.
  destruct s as [|a [|b s]]; try done. simpl. intros [= <- <-].
  split; [|apply from_be16_range]. change (a :: b :: s = be16 (from_be16 a b) ++ s). by rewrite be16_from.
Qed.

Lemma byte_u8 z r : 0 ≤ z < 256 → byte (u8 z :: r) = Some (z, r).
Proof. intros Hz. simpl. by rewrite byte_of_u8. Qed.

Lemma byte_inv s z r : byte s = Some (z, r) → s = u8 z :: r ∧ 0 ≤ z < 256.
Proof.
  destruct s as [|a s]; [done|]. simpl. intros [= <- <-]. rewrite u8_byte_of.
  split; [done|apply byte_of_range].
Qed.

Lemma take_bytes_app a r : take_bytes (count a) (a ++ r) = Some (a, r).
Proof.
  unfold take_bytes. rewrite count_app. pose proof (count_nonneg r).
  destruct (Z.ltb_spec (count a + count r) (count a)); [lia|].
  unfold count. by rewrite Nat2Z.id, take_app_length, drop_app_length.
Qed.

Lemma take_one b l : take_bytes 1 (b :: l) = Some ([b], l).
Proof. apply (take_bytes_app [b]). Qed.

Lemma take_bytes_inv n s a r : 0 ≤ n → take_bytes n s = Some (a, r) → s = a ++ r ∧ count a = n.
Proof.
  intros Hn. unfold take_bytes. destruct (Z.ltb_spec (count s) n) as [|Hle]; [done|]. intros [= <- <-].
  rewrite take_drop. split; [done|]. unfold count in *. rewrite length_take. lia.
Qed.

(** ** Lemmas: names *)
Lemma bad_label_false l : bad_label l = false ↔ good_label l.
Proof.
  unfold bad_label, good_label. rewrite !orb_false_iff, !bool_decide_eq_false, negb_false_iff, Z.ltb_ge,
    forallb_Forall.
  assert (l ≠ [] ↔ 1 ≤ count l) as -> by (unfold count; destruct l; simpl; split; try lia; done).
  split; [intros [[[[? ?] Hh] ?] ?]|intros ([? ?] & ? & Hh & ?)]; split_and!; try done;
    by destruct l.
Qed.

Lemma labels_good name :
  existsb bad_label (split_on dot name) = false ↔ Forall good_label (split_on dot name).
Proof. rewrite existsb_false. apply Forall_proper; [|done]. intros l. apply bad_label_false. Qed.

Lemma dns_shaped_bytes name b : dns_shaped name → b ∈ name → b = dot ∨ ldh b = true.
Proof.
  intros [_ Hg] Hb. rewrite <-(join_split name) in Hb. by eapply good_labels_bytes.
Qed.

Lemma ascii_utf8 s : (∀ b, b ∈ s → is_ascii_byte b = true) → valid_utf8 s = true.
Proof.
  induction s as [|b s IH]; intros Hs; [done|]. cbn [valid_utf8].
  assert (Hb : is_ascii_byte b = true) by (apply Hs; left).
  assert (in_range 0 127 b = true) as ->.
  { unfold is_ascii_byte in Hb. unfold in_range. pose proof (byte_of_range b). rewrite Hb, andb_true_r. lia. }
  apply IH. intros c Hc. apply Hs. by right.
Qed.

Lemma dns_shaped_plain name :
  dns_shaped name → valid_utf8 name = true ∧ to_ascii_lowercase <$> name = name ∧ name ≠ [].
Proof.
  intros Hn. split_and!.
  - apply ascii_utf8. intros b Hb. by apply (dns_shaped_bytes _ _ Hn), Policy.name_byte in Hb as (? & _).
  - rewrite <-(map_id name) at 2. apply list_fmap_ext. intros _ b Hb%list_elem_of_lookup_2.
    apply (dns_shaped_bytes _ _ Hn), Policy.name_byte in Hb as (_ & Hb & _).
    unfold to_ascii_lowercase. by rewrite Hb.
  - intros ->. destruct Hn as [_ Hn]. inversion Hn as [|? ? Hg _]. by apply good_label_nonempty in Hg.
Qed.

Lemma server_name_iff data name :
  server_name data = Some name ↔ data = encode_server_name name ∧ dns_shaped name.
Proof.
  unfold server_name, encode_server_name. split.
  - intros ([total d1] & H1 & H)%bind_Some. apply number_inv in H1 as [-> Ht].
    destruct (Z.eqb_spec total (count d1)) as [->|]; [|done]. simpl in H.
    apply bind_Some in H as ([kind d2] & H2 & H). apply byte_inv in H2 as [-> Hk].
    destruct (Z.eqb_spec kind 0) as [->|]; [|done]. simpl in H.
    apply bind_Some in H as ([len d3] & H3 & H). apply number_inv in H3 as [-> Hl].
    apply bind_Some in H as ([nm d4] & H4 & H). apply take_bytes_inv in H4 as [-> Hn]; [|lia]. subst len.
    destruct (valid_utf8 nm); [|done]. simpl in H.
    destruct (negb (bool_decide (d4 = [])) || _ || _ || _ || _) eqn:Hc; [done|]. injection H as ->.
    apply orb_false_iff in Hc as [Hc Hlab]. apply labels_good in Hlab. bools. subst d4.
    split; [|split; [by apply Z.ltb_ge|done]].
    rewrite !app_nil_r. f_equal. f_equal. rewrite count_cons, !count_app. simpl. unfold count at 1. simpl. lia.
  - intros [-> Hs]. pose proof Hs as [Hlen Hlab]. destruct (dns_shaped_plain _ Hs) as (Hutf & Hlow & Hne).
    pose proof (count_nonneg name). rewrite number_be16 by lia. simpl.
    assert (count (u8 0 :: be16 (count name) ++ name) = count name + 3) as Hcnt.
    { rewrite count_cons, count_app. unfold count at 1. simpl. lia. }
    change (u8 (count name / 256) :: u8 (count name mod 256) :: name) with (be16 (count name) ++ name).
    rewrite Hcnt, Z.eqb_refl. simpl. rewrite from_be16_u8 by lia.
    rewrite <-(app_nil_r name) at 2. rewrite take_bytes_app. simpl.
    rewrite Hutf, Hlow. simpl. rewrite (bool_decide_false (name = [])) by done. rewrite !bool_decide_true by done.
    destruct (Z.ltb_spec 253 (count name)); [lia|]. simpl.
    by rewrite (proj2 (labels_good name)).
Qed.

(** ** Lemmas: extensions *)
Definition extension_ok (x : Extension) : Prop :=
  u16_ok x.(x_kind) ∧ x.(x_kind) ≠ 65037 ∧ x.(x_kind) ≠ 42.

(** The server name a list of extensions carries, over a name seen before it. *)
Definition names (xs : list Extension) (sni : option (list ascii)) (name : list ascii) : Prop :=
  (∃ x, x ∈ xs ∧ x.(x_kind) = 0 ∧ x.(x_data) = encode_server_name name ∧ dns_shaped name)
  ∨ ((∀ x, x ∈ xs → x.(x_kind) ≠ 0) ∧ sni = Some name).

Lemma flat_map_encode kind data xs :
  be16 kind ++ be16 (count data) ++ data ++ flat_map encode_extension xs
  = flat_map encode_extension ({| x_kind := kind; x_data := data |} :: xs).
Proof. cbn [flat_map]. unfold encode_extension at 2. by rewrite <-!app_assoc. Qed.

Lemma extensions_sound fuel hello seen sni name :
  extensions fuel hello seen sni = Some name →
  ∃ xs, hello = flat_map encode_extension xs ∧ Forall extension_ok xs ∧ NoDup (x_kind <$> xs)
        ∧ Forall (λ x, x.(x_kind) ∉ seen) xs ∧ names xs sni name.
Proof.
  revert hello seen sni. induction fuel as [|fuel IH]; intros hello seen sni H;
    (destruct hello as [|b hello];
      [exists []; split_and!; [done|constructor|constructor|constructor|right; split; [by intros ? ?%elem_of_nil|done]]|]);
    [done|].
  cbn [extensions] in H. revert H. generalize (b :: hello). clear b hello. intros hello H.
  apply bind_Some in H as ([kind d1] & H1 & H). apply number_inv in H1 as [-> Hk].
  apply bind_Some in H as ([size d2] & H2 & H). apply number_inv in H2 as [-> Hs].
  apply bind_Some in H as ([data d3] & H3 & H). apply take_bytes_inv in H3 as [-> Hd]; [|lia]. subst size.
  destruct (bool_decide (kind ∈ seen) || (kind =? 65037) || (kind =? 42)) eqn:Hc; [done|].
  apply orb_false_iff in Hc as [[Hseen Hech]%orb_false_iff Hearly].
  apply bool_decide_eq_false in Hseen. apply Z.eqb_neq in Hech, Hearly.
  assert (Hone : ∀ s', extensions fuel d3 (kind :: seen) s' = Some name →
    ∃ xs, d3 = flat_map encode_extension xs ∧ Forall extension_ok xs
      ∧ NoDup (x_kind <$> ({| x_kind := kind; x_data := data |} :: xs))
      ∧ Forall (λ x, x.(x_kind) ∉ seen) ({| x_kind := kind; x_data := data |} :: xs)
      ∧ (∀ x, x ∈ xs → x.(x_kind) ≠ kind) ∧ names xs s' name).
  { intros s' Hr. apply IH in Hr as (xs & -> & Hok & Hnd & Hsn & Hnm). exists xs.
    assert (Hne : ∀ x, x ∈ xs → x.(x_kind) ≠ kind).
    { intros x Hx. rewrite Forall_forall in Hsn. specialize (Hsn x Hx). set_solver. }
    split_and!; try done.
    - rewrite fmap_cons. apply NoDup_cons. split; [|done]. simpl. intros (x & Hx & Hin)%list_elem_of_fmap.
      by apply (Hne x Hin).
    - constructor; [done|]. eapply Forall_impl; [exact Hsn|]. set_solver. }
  destruct (Z.eqb_spec kind 0) as [->|Hk0].
  - apply bind_Some in H as (nm & Hnm & H). apply server_name_iff in Hnm as [-> Hshape].
    apply Hone in H as (xs & -> & Hok & Hnd & Hsn & Hne & Hx).
    exists ({| x_kind := 0; x_data := encode_server_name nm |} :: xs).
    split_and!; [apply flat_map_encode|by constructor|done|done|]. left. eexists.
    split; [left|]. destruct Hx as [(x & Hx & Hx0 & _)|[_ [= ->]]]; [by destruct (Hne x Hx)|done].
  - apply Hone in H as (xs & -> & Hok & Hnd & Hsn & Hne & Hx).
    exists ({| x_kind := kind; x_data := data |} :: xs).
    split_and!; [apply flat_map_encode|by constructor|done|done|].
    destruct Hx as [(x & Hx & Hx0)|[Hx Hsni]]; [left; exists x; split; [by right|done]|right].
    split; [|done]. intros x [->|Hin]%elem_of_cons; [done|by apply Hx].
Qed.

Lemma length_encode_extension x : length (encode_extension x) = (4 + length x.(x_data))%nat.
Proof. done. Qed.

Lemma encode_extension_app x r :
  u16_ok x.(x_kind) → count x.(x_data) ≤ 65535 →
  number (encode_extension x ++ r) = Some (x.(x_kind), be16 (count x.(x_data)) ++ x.(x_data) ++ r).
Proof. intros Hk Hd. unfold encode_extension. rewrite <-!app_assoc. by apply number_be16. Qed.

Lemma extensions_complete fuel xs seen sni name :
  (length (flat_map encode_extension xs) ≤ fuel)%nat →
  count (flat_map encode_extension xs) ≤ u16_max →
  Forall extension_ok xs → NoDup (x_kind <$> xs) → Forall (λ x, x.(x_kind) ∉ seen) xs →
  (∀ x, x ∈ xs → x.(x_kind) = 0 → x.(x_data) = encode_server_name name ∧ dns_shaped name) →
  (∀ x, x ∈ xs → x.(x_kind) = 0 → False) ∧ sni = Some name ∨ (∃ x, x ∈ xs ∧ x.(x_kind) = 0) →
  extensions fuel (flat_map encode_extension xs) seen sni = Some name.
Proof.
  revert fuel seen sni. induction xs as [|x xs IH]; intros fuel seen sni Hf Hc Hok Hnd Hsn Hz Hsni.
  { simpl. destruct fuel; simpl; (destruct Hsni as [[_ ?]|(x & Hx & _)]; [done|by apply elem_of_nil in Hx]). }
  apply Forall_cons in Hok as [Hx Hok], Hsn as [Hxs Hsn]. apply NoDup_cons in Hnd as [Hnx Hnd].
  cbn [flat_map] in *. rewrite length_app in Hf. rewrite count_app in Hc. unfold encode_extension at 1 in Hc.
  rewrite !count_app in Hc. pose proof (count_nonneg (flat_map encode_extension xs)).
  assert (Hcd : count x.(x_data) ≤ 65535) by (unfold count, u16_max in *; simpl in *; lia).
  pose proof (length_encode_extension x). destruct fuel as [|fuel]; [lia|].
  assert (Hcons : ∃ b l, encode_extension x ++ flat_map encode_extension xs = b :: l) by (by eexists _, _).
  destruct Hcons as (b & l & Hbl). rewrite Hbl. cbn [extensions]. rewrite <-Hbl.
  destruct Hx as (Hk & Hk1 & Hk2). rewrite encode_extension_app by done. cbn [mbind option_bind].
  rewrite number_be16 by (pose proof (count_nonneg x.(x_data)); lia). cbn [mbind option_bind].
  rewrite take_bytes_app. cbn [mbind option_bind].
  rewrite bool_decide_false by done. rewrite !(proj2 (Z.eqb_neq _ _)) by done. simpl orb. cbv iota.
  assert (Hrec : ∀ s', (∀ y, y ∈ xs → y.(x_kind) = 0 → False) ∧ s' = Some name ∨ (∃ y, y ∈ xs ∧ y.(x_kind) = 0) →
    extensions fuel (flat_map encode_extension xs) (x.(x_kind) :: seen) s' = Some name).
  { intros s' Hs'. apply IH; [lia|unfold count in *; lia|done|done| | |done].
    - rewrite Forall_forall in Hsn |- *. intros y Hy. apply not_elem_of_cons. split; [|by apply Hsn].
      intros Heq. apply Hnx. rewrite <-Heq. by apply list_elem_of_fmap_2.
    - intros y Hy. apply Hz. by right. }
  destruct (Z.eqb_spec x.(x_kind) 0) as [Hx0|Hx0].
  - destruct (Hz x ltac:(left) Hx0) as [Hdata Hshape].
    assert (server_name x.(x_data) = Some name) as -> by (by apply server_name_iff). simpl. apply Hrec. left.
    split; [|done]. intros y Hy Hy0. apply Hnx. rewrite Hx0, <-Hy0. by apply list_elem_of_fmap_2.
  - apply Hrec. destruct Hsni as [[Hno ->]|(y & Hy & Hy0)].
    + left. split; [|done]. intros y Hy. apply Hno. by right.
    + right. apply elem_of_cons in Hy as [->|Hy]; [done|]. eauto.
Qed.

(** ** Lemmas: the hello *)
Lemma parse_sni_sound hello sni :
  parse_sni hello = Some sni → ∃ h, hello_ok h sni ∧ hello = encode_hello h.
Proof.
  unfold parse_sni. intros ([v d0] & H0 & H)%bind_Some. apply take_bytes_inv in H0 as [-> Hv]; [|lia].
  destruct (negb _ && negb _) eqn:Hver; [done|].
  apply bind_Some in H as ([random d1] & H1 & H). apply take_bytes_inv in H1 as [-> Hr]; [|lia].
  apply bind_Some in H as ([sid d2] & H2 & H). apply byte_inv in H2 as [-> Hsid].
  destruct (Z.ltb_spec 32 sid); [done|].
  apply bind_Some in H as ([session d3] & H3 & H). apply take_bytes_inv in H3 as [-> Hs]; [|lia]. subst sid.
  apply bind_Some in H as ([nc d4] & H4 & H). apply number_inv in H4 as [-> Hnc].
  destruct ((nc <? 2) || negb (nc mod 2 =? 0)) eqn:Hciph; [done|].
  apply bind_Some in H as ([ciphers d5] & H5 & H). apply take_bytes_inv in H5 as [-> Hc]; [|lia]. subst nc.
  apply bind_Some in H as ([comp d6] & H6 & H). apply byte_inv in H6 as [-> Hcomp].
  destruct (Z.eqb_spec comp 1) as [->|]; [|done]. simpl in H.
  apply bind_Some in H as ([method d7] & H7 & H). apply take_bytes_inv in H7 as [-> _]; [|lia].
  destruct (bool_decide (method = [u8 0])) eqn:Hm; [|done]. apply bool_decide_eq_true in Hm as ->. simpl in H.
  apply bind_Some in H as ([len d8] & H8 & H). apply number_inv in H8 as [-> Hlen].
  destruct (Z.eqb_spec len (count d8)) as [->|]; [|done]. simpl in H.
  apply extensions_sound in H as (xs & -> & Hok & Hnd & _ & Hnames).
  destruct Hnames as [(x & Hx & Hx0 & Hxd & Hshape)|[_ ?]]; [|done].
  apply orb_false_iff in Hciph as [Hc1%Z.ltb_ge Hc2]. apply negb_false_iff, Z.eqb_eq in Hc2.
  exists {| ch_tls10 := bool_decide (v = [u8 3; u8 1]); ch_random := random; ch_session := session;
            ch_ciphers := ciphers; ch_extensions := xs |}.
  split.
  - unfold hello_ok. simpl. rewrite Forall_forall in Hok. unfold u16_max.
    split_and!; try lia; try done. eauto.
  - unfold encode_hello. simpl. apply andb_false_iff in Hver as [Hver|Hver].
    + apply negb_false_iff, bool_decide_eq_true in Hver as ->. done.
    + apply negb_false_iff, bool_decide_eq_true in Hver as ->. by rewrite bool_decide_true.
Qed.

Lemma parse_sni_complete h sni : hello_ok h sni → parse_sni (encode_hello h) = Some sni.
Proof.
  intros (Hr & Hs & ([Hc1 Hc2] & Hc3) & Hx & Hxs & Hnd & (x & Hin & Hx0 & Hxd) & Hshape).
  unfold parse_sni, encode_hello. rewrite (take_bytes_app [u8 3; u8 _]). cbn [mbind option_bind].
  assert (negb (bool_decide ([u8 3; u8 (if ch_tls10 h then 1 else 3)] = [u8 3; u8 3]))
          && negb (bool_decide ([u8 3; u8 (if ch_tls10 h then 1 else 3)] = [u8 3; u8 1])) = false) as ->
    by (by destruct (ch_tls10 h)).
  rewrite <-Hr at 1. rewrite take_bytes_app. cbn [mbind option_bind].
  pose proof (count_nonneg (ch_session h)). rewrite byte_u8 by lia. cbn [mbind option_bind].
  destruct (Z.ltb_spec 32 (count (ch_session h))); [lia|].
  rewrite take_bytes_app. cbn [mbind option_bind]. rewrite number_be16 by (unfold u16_max in *; lia).
  cbn [mbind option_bind]. destruct (Z.ltb_spec (count (ch_ciphers h)) 2); [lia|].
  rewrite (proj2 (Z.eqb_eq _ _) Hc3). cbn [orb negb]. rewrite take_bytes_app. cbn [mbind option_bind app].
  rewrite byte_u8 by lia. cbn [mbind option_bind negb Z.eqb Pos.eqb].
  rewrite take_one. cbn [mbind option_bind]. rewrite bool_decide_true by done. cbn [negb].
  pose proof (count_nonneg (flat_map encode_extension (ch_extensions h))).
  rewrite number_be16 by (unfold u16_max in *; lia). cbn [mbind option_bind].
  rewrite Z.eqb_refl. cbn [negb].
  apply extensions_complete; [done|done|by apply Forall_forall|done| | |].
  - apply Forall_forall. intros ? _. apply not_elem_of_nil.
  - intros y Hy Hy0. assert (y = x) as -> by (apply (NoDup_fmap_elem x_kind (ch_extensions h)); congruence).
    done.
  - right. eauto.
Qed.

Lemma parse_sni_iff hello sni :
  parse_sni hello = Some sni ↔ ∃ h, hello_ok h sni ∧ hello = encode_hello h.
Proof. split; [apply parse_sni_sound|]. intros (h & Hh & ->). by apply parse_sni_complete. Qed.

(** ** Lemmas: records *)
Definition from_be24 (a b c : ascii) : Z := byte_of a * 65536 + byte_of b * 256 + byte_of c.

(** The handshake message that carries a client hello. *)
Definition message (hello : list ascii) : list ascii := u8 1 :: be24 (count hello) ++ hello.

Lemma be24_from a b c : be24 (from_be24 a b c) = [a; b; c].
Proof.
  unfold be24, from_be24. pose proof (byte_of_range a). pose proof (from_be16_range b c) as Hbc.
  replace (byte_of a * 65536 + byte_of b * 256 + byte_of c) with (byte_of a * 65536 + from_be16 b c)
    by (unfold from_be16; lia).
  rewrite Z.div_add_l, Z.div_small, Z.add_0_r, u8_byte_of by lia.
  rewrite Z.add_comm, Z.mod_add, Z.mod_small by lia. by rewrite be16_from.
Qed.

Lemma be24_ok z : 0 ≤ z ≤ 16384 → ∃ a b c, be24 z = [a; b; c] ∧ from_be24 a b c = z.
Proof.
  intros Hz. unfold be24, be16. eexists _, _, _. split; [done|]. unfold from_be24.
  rewrite (Z.mod_small z 65536), (Z.div_small z 65536) by lia.
  pose proof (from_be16_u8 z ltac:(lia)) as H. unfold from_be16 in H. rewrite (byte_of_u8 0) by lia. lia.
Qed.

Lemma encode_record_app r s :
  encode_record r ++ s
  = u8 22 :: u8 3 :: u8 r.(r_minor) :: u8 (count r.(r_fragment) / 256) :: u8 (count r.(r_fragment) mod 256)
    :: r.(r_fragment) ++ s.
Proof. done. Qed.

(** The conditions on a record header that are refused. *)
Definition bad_header (h0 h1 h2 : ascii) (size wire : Z) : bool :=
  negb (byte_of h0 =? 22) || negb (byte_of h1 =? 3)
  || negb ((1 <=? byte_of h2) && (byte_of h2 <=? 3))
  || (size =? 0) || (16384 <? size) || (32768 <? wire + size + 5).

Lemma header_inv h0 h1 h2 h3 h4 frag wire0 :
  bad_header h0 h1 h2 (from_be16 h3 h4) (count wire0) = false → count frag = from_be16 h3 h4 →
  ∃ r, r.(r_fragment) = frag ∧ [h0; h1; h2; h3; h4] ++ frag = encode_record r ∧ record_ok r
       ∧ count (wire0 ++ encode_record r) ≤ 32768.
Proof.
  intros Hg Hfrag. pose proof (from_be16_range h3 h4). unfold bad_header in Hg. bools.
  repeat match goal with H : (_ =? _) = true |- _ => apply Z.eqb_eq in H
    | H : (_ <=? _) = true |- _ => apply Z.leb_le in H | H : (_ <? _) = false |- _ => apply Z.ltb_ge in H
    | H : (_ =? _) = false |- _ => apply Z.eqb_neq in H end.
  exists {| r_minor := byte_of h2; r_fragment := frag |}.
  assert (Hr : [h0; h1; h2; h3; h4] ++ frag = encode_record {| r_minor := byte_of h2; r_fragment := frag |}).
  { unfold encode_record. cbn [r_minor r_fragment]. rewrite Hfrag, be16_from, u8_byte_of.
    rewrite <-(u8_byte_of h0), <-(u8_byte_of h1).
    by repeat match goal with H : byte_of _ = _ |- _ => rewrite H end. }
  split_and!; [done|done|split; simpl; lia|]. rewrite <-Hr, !count_app, Hfrag. unfold count at 2. simpl. lia.
Qed.

Lemma header_ok r wire0 :
  record_ok r → count (wire0 ++ encode_record r) ≤ 32768 →
  bad_header (u8 22) (u8 3) (u8 r.(r_minor)) (count r.(r_fragment)) (count wire0) = false.
Proof.
  intros [Hm Hf] Hw. rewrite count_app in Hw. unfold encode_record in Hw. rewrite !count_app in Hw.
  unfold count at 2 3 in Hw. simpl in Hw. unfold bad_header. rewrite !byte_of_u8 by lia. simpl.
  lia.
Qed.

(** What one iteration does with the handshake bytes collected so far. *)
Lemma message_inv t a b c hello :
  byte_of t = 1 → count (t :: a :: b :: c :: hello) = from_be24 a b c + 4 →
  t :: a :: b :: c :: hello = message hello ∧ count hello = from_be24 a b c.
Proof.
  intros Ht Hc. rewrite !count_cons in Hc. assert (Hh : count hello = from_be24 a b c) by lia.
  split; [|done]. unfold message. rewrite Hh, be24_from, <-(u8_byte_of t), Ht. done.
Qed.

Lemma read_records_sound fuel stream wire0 hs0 wire sni rest :
  read_records fuel stream wire0 hs0 = Ok (wire, sni, rest) →
  ∃ recs hello, wire = wire0 ++ flat_map encode_record recs ∧ stream = flat_map encode_record recs ++ rest
    ∧ Forall record_ok recs ∧ count wire ≤ 32768 ∧ hs0 ++ flat_map r_fragment recs = message hello
    ∧ count hello ≤ 16384 ∧ parse_sni hello = Some sni.
Proof.
  revert stream wire0 hs0. induction fuel as [|fuel IH]; intros stream wire0 hs0 H; [done|].
  cbn [read_records] in H. destruct stream as [|h0 [|h1 [|h2 [|h3 [|h4 stream]]]]]; try done.
  cbv zeta in H. fold (bad_header h0 h1 h2 (from_be16 h3 h4) (count wire0)) in H.
  destruct (bad_header _ _ _ _ _) eqn:Hg; [done|].
  destruct (take_bytes _ stream) as [[frag s1]|] eqn:Ht; [|done].
  apply take_bytes_inv in Ht as [-> Hfrag]; [|apply from_be16_range].
  destruct (header_inv _ _ _ _ _ _ _ Hg Hfrag) as (r & Hrf & Hr & Hrok & Hwire).
  rewrite Hr in H. change (h0 :: h1 :: h2 :: h3 :: h4 :: frag ++ s1) with (([h0;h1;h2;h3;h4] ++ frag) ++ s1).
  rewrite Hr. rewrite <-Hrf in H.
  assert (Hrec : read_records fuel s1 (wire0 ++ encode_record r) (hs0 ++ r_fragment r) = Ok (wire, sni, rest) →
    ∃ recs hello, wire = wire0 ++ flat_map encode_record recs
      ∧ encode_record r ++ s1 = flat_map encode_record recs ++ rest
      ∧ Forall record_ok recs ∧ count wire ≤ 32768 ∧ hs0 ++ flat_map r_fragment recs = message hello
      ∧ count hello ≤ 16384 ∧ parse_sni hello = Some sni).
  { intros Hr'. apply IH in Hr' as (recs & hello & -> & -> & Hall & Hc & Hm & Hl & Hp).
    exists (r :: recs), hello. simpl. rewrite <-!app_assoc in *. by split_and!; try constructor. }
  destruct (hs0 ++ r_fragment r) as [|t [|a [|b [|c hello]]]] eqn:Hhs; try (by apply Hrec).
  fold (from_be24 a b c) in H.
  destruct (negb (byte_of t =? 1) || (16384 <? from_be24 a b c)) eqn:Hlen; [done|].
  apply orb_false_iff in Hlen as [Ht%negb_false_iff%Z.eqb_eq Hmax%Z.ltb_ge].
  destruct (Z.ltb_spec (count (t :: a :: b :: c :: hello)) (from_be24 a b c + 4)); [by apply Hrec|].
  destruct (Z.eqb_spec (count (t :: a :: b :: c :: hello)) (from_be24 a b c + 4)) as [Heq|]; [|done].
  cbn [negb] in H. destruct (parse_sni hello) as [n|] eqn:Hp; [|done]. injection H as <- <- <-.
  destruct (message_inv _ _ _ _ _ Ht Heq) as [Hmsg Hcount].
  exists [r], hello. simpl. rewrite !app_nil_r.
  split_and!; [done|done|constructor; [done|constructor]|done|congruence|lia|done].
Qed.

Lemma read_records_complete recs fuel wire0 hs0 hello sni rest :
  recs ≠ [] → (length recs ≤ fuel)%nat → Forall record_ok recs →
  count (wire0 ++ flat_map encode_record recs) ≤ 32768 →
  hs0 ++ flat_map r_fragment recs = message hello → count hello ≤ 16384 → parse_sni hello = Some sni →
  read_records fuel (flat_map encode_record recs ++ rest) wire0 hs0
  = Ok (wire0 ++ flat_map encode_record recs, sni, rest).
Proof.
  intros Hne. revert fuel wire0 hs0. induction recs as [|r recs IH]; [done|].
  intros fuel wire0 hs0 Hf Hall Hw Hm Hl Hp. destruct fuel as [|fuel]; [simpl in Hf; lia|].
  apply Forall_cons in Hall as [Hr Hall]. cbn [flat_map] in *. rewrite <-app_assoc, encode_record_app.
  cbn [read_records]. cbv zeta. pose proof Hr as [Hminor Hfrag].
  rewrite from_be16_u8 by lia.
  fold (bad_header (u8 22) (u8 3) (u8 r.(r_minor)) (count r.(r_fragment)) (count wire0)).
  rewrite app_assoc in Hw. pose proof (count_nonneg (flat_map encode_record recs)).
  rewrite header_ok; [|done|rewrite count_app in Hw; lia]. rewrite take_bytes_app.
  change ([u8 22; u8 3; u8 (r_minor r); u8 (count (r_fragment r) / 256); u8 (count (r_fragment r) mod 256)]
          ++ r_fragment r) with (encode_record r).
  rewrite app_assoc in Hm |- *. destruct (be24_ok (count hello)) as (a & b & c & Habc & Hbe);
    [pose proof (count_nonneg hello); lia|].
  assert (Hmsg : message hello = u8 1 :: a :: b :: c :: hello) by (unfold message; by rewrite Habc).
  rewrite Hmsg in Hm. destruct recs as [|r' recs].
  - simpl in Hm |- *. rewrite !app_nil_r in *. rewrite Hm. fold (from_be24 a b c). rewrite Hbe.
    rewrite byte_of_u8 by lia. rewrite !count_cons.
    destruct (Z.ltb_spec 16384 (count hello)); [lia|]. simpl.
    destruct (Z.ltb_spec (1 + (1 + (1 + (1 + count hello)))) (count hello + 4)); [lia|].
    destruct (Z.eqb_spec (1 + (1 + (1 + (1 + count hello)))) (count hello + 4)); [|lia]. simpl.
    by rewrite Hp.
  - assert (Hrec : read_records fuel (flat_map encode_record (r' :: recs) ++ rest)
      (wire0 ++ encode_record r) (hs0 ++ r_fragment r)
      = Ok ((wire0 ++ encode_record r) ++ flat_map encode_record (r' :: recs), sni, rest))
      by (apply IH; simpl in *; try done; try lia; congruence).
    assert (Hlong : (length (hs0 ++ r_fragment r) < length (u8 1 :: a :: b :: c :: hello))%nat).
    { rewrite <-Hm, length_app. apply Forall_cons in Hall as [[_ Hf'] _]. simpl. rewrite !length_app.
      unfold count in Hf'. lia. }
    destruct (hs0 ++ r_fragment r) as [|t [|a' [|b' [|c' hello']]]] eqn:Hhs; try exact Hrec.
    simpl in Hm. injection Hm as -> -> -> -> Hm. fold (from_be24 a b c). rewrite Hbe, byte_of_u8 by lia.
    destruct (Z.ltb_spec 16384 (count hello)); [lia|]. cbn [negb orb Z.eqb Pos.eqb].
    destruct (Z.ltb_spec (count (u8 1 :: a :: b :: c :: hello')) (count hello + 4)) as [|Hge]; [exact Hrec|].
    unfold count in Hge. simpl in *. lia.
Qed.

(** ** Theorems *)

(** C32: what is forwarded upstream is what was inspected.  The reader answers exactly when
    the stream begins with records, however they are split, that together carry one client
    hello and nothing else, within the bounds of 32768 bytes of records and 16384 of hello;
    the hello has pairwise distinct extensions, none of them an encrypted hello or early
    data, and one server name, a canonical DNS name.  It returns the records as they were
    sent, that name and the rest of the stream. *)
Theorem read_client_hello_exact (stream wire sni rest : list ascii) :
  read_client_hello stream = Ok (wire, sni, rest) ↔
  ∃ recs h, stream = wire ++ rest ∧ wire = flat_map encode_record recs
    ∧ Forall record_ok recs ∧ count wire ≤ 32768
    ∧ flat_map r_fragment recs = message (encode_hello h) ∧ count (encode_hello h) ≤ 16384
    ∧ hello_ok h sni.
Proof.
  unfold read_client_hello. split.
  - intros (recs & hello & -> & -> & Hall & Hc & Hm & Hl & Hp)%read_records_sound.
    apply parse_sni_iff in Hp as (h & Hh & ->). exists recs, h. by split_and!.
  - intros (recs & h & -> & -> & Hall & Hc & Hm & Hl & Hh).
    apply (read_records_complete recs _ [] [] (encode_hello h)); try done.
    + by intros ->.
    + rewrite length_app. assert (length recs ≤ length (flat_map encode_record recs))%nat; [|lia].
      clear. induction recs as [|r recs IH]; simpl; [lia|]. rewrite ?length_app. simpl. lia.
    + by apply parse_sni_iff; exists h.
Qed.

(** A hello as a client sends it, in two records. *)
Definition sample_hello : ClientHello := {|
  ch_tls10 := false; ch_random := repeat (u8 7) 32; ch_session := []; ch_ciphers := [u8 19; u8 1];
  ch_extensions := [{| x_kind := 10; x_data := [u8 0; u8 0] |};
                    {| x_kind := 0; x_data := encode_server_name (chars "allowed.example") |}] |}.

Definition sample_stream : list ascii :=
  let m := message (encode_hello sample_hello) in
  encode_record {| r_minor := 1; r_fragment := take 3 m |}
  ++ encode_record {| r_minor := 3; r_fragment := drop 3 m |} ++ chars "data".

Lemma sample_stream_read :
  match read_client_hello sample_stream with
  | Ok (_, sni, rest) => sni = chars "allowed.example" ∧ rest = chars "data"
  | Err _ => False
  end.
Proof. vm_compute. done. Qed.
