(* ===== verification/Store.v ===== *)
(** * Store: the in-memory metadata store

    [crates/aiec-storage/src/lib.rs], the [MemoryRepository] that backs
    development, with the records of [aiec-core] and [aiec-guard] it holds.  A
    write lock is held for the whole of each operation, so an operation is a
    function on [MemoryData]; [commit] turns a computation that fails before it
    writes into one that leaves the store as it was.  [Utc::now()] is an argument,
    one per call.

    A [HashMap] is a [gmap]; the order in which it yields its entries is
    unspecified, so it is a parameter ([HashOrder]) of which only the set of
    entries is known.

    Left out of the records: [StoredSnapshot::manifest], an opaque JSON value no
    operation reads. *)

From S2P Require Import Prelude Lifecycle Events Policy.
Import Sandboxes.

(** ** Errors, by class *)
Module StoreError.
Inductive t := NotFound | Conflict | QuotaExceeded | InvalidObjectKey.
#[global] Instance t_eq_dec : EqDecision t.
Proof. solve_decision. Defined.
End StoreError.

Module CoreError.
Inductive t :=
| InvalidRequest | NotFound | Conflict | Forbidden | LimitExceeded | QuotaExceeded
| Unavailable | Transient | Unsupported | Backend | Io.
#[global] Instance t_eq_dec : EqDecision t.
Proof. solve_decision. Defined.
End CoreError.

(** The cases of [core_error] that the in-memory store produces. *)
Definition core_error (e : StoreError.t) : CoreError.t :=
  match e with
  | StoreError.NotFound => CoreError.NotFound
  | StoreError.Conflict => CoreError.Conflict
  | StoreError.QuotaExceeded => CoreError.QuotaExceeded
  | StoreError.InvalidObjectKey => CoreError.InvalidRequest
  end.

(** ** Records *)
Inductive SandboxNetwork := Disabled | Internet | Restricted (allowed_hosts : list string).

Inductive WorkspaceSpec :=
| Empty
| Git (repo : string) (reference : option string) (shallow : bool)
| FromSnapshot (snapshot_id : Uuid).

Record ToolkitSpec := { tk_name : string; setup_commands : list (list string) }.

Inductive LayerKind := LayerBase | LayerWorkspace | LayerToolkit.

Record LayerSpec := {
  ly_kind : LayerKind; ly_name : string; content_digest : string; content_base64 : string }.

Record EnvironmentSpec := {
  workspace : WorkspaceSpec; toolkits : list ToolkitSpec; layers : list LayerSpec;
  guard : option GuardConfig; guard_policy_hash : option string }.

Record Sandbox := {
  sb_id : Uuid; sb_tenant_id : Uuid; sb_node_id : option Uuid; sb_image_id : string;
  sb_state : SandboxState; sb_runtime : RuntimeKind; sb_cpu : Z; sb_memory_mb : Z;
  sb_disk_mb : Z; sb_timeout_seconds : Z; sb_network : SandboxNetwork;
  sb_environment : EnvironmentSpec; sb_created_at : Instant; sb_updated_at : Instant;
  sb_runtime_path : option string }.

Inductive Scope :=
| SandboxesRead | SandboxesWrite | SnapshotsRead | SnapshotsWrite | GuardRead
| GuardHeartbeat | GuardQuarantine | GuardPropose | GuardApprove | GuardRelease | Admin.

Record ApiKeyRecord := {
  key_id : Uuid; key_tenant_id : Uuid; key_digest : list Z; key_scopes : list Scope;
  key_expires_at : option Instant; key_revoked_at : option Instant; key_name : string;
  key_created_at : Instant; key_last_used_at : option Instant }.

Record Snapshot := {
  snap_id : Uuid; snap_tenant_id : Uuid; snap_sandbox_id : Uuid; snap_object_key : string;
  snap_size_bytes : Z; snap_image_id : string; snap_created_at : Instant }.

Record StoredSnapshot := {
  st_id : Uuid; st_tenant_id : Uuid; st_sandbox_id : Uuid; st_object_key : string;
  st_manifest_object_key : string; st_memory_object_key : option string;
  st_disk_object_key : option string; st_workspace_object_key : option string;
  st_size_bytes : Z; st_image_id : string; st_checksum_sha256 : string; st_kind : string;
  st_complete : bool; st_created_at : Instant }.

Record UsageEvent := {
  us_id : Uuid; us_tenant_id : Uuid; us_sandbox_id : option Uuid; us_metric : string;
  us_quantity : Z; us_occurred_at : Instant }.

Record Node := {
  nd_id : Uuid; nd_name : string; nd_available_vcpus : Z; nd_available_memory_bytes : Z;
  nd_available_disk_bytes : Z; nd_sandbox_count : Z; nd_healthy : bool;
  nd_last_heartbeat : Instant }.

Record TenantRecord := { tn_id : Uuid; tn_name : string; tn_created_at : Instant }.

Inductive ObjectState := Pending | Available | Deleting | Deleted.

Record MemoryArtifact := {
  ar_tenant : Uuid; ar_state : ObjectState; ar_updated_at : Instant; ar_retry_at : Instant;
  ar_claim : option Uuid; ar_lease_until : option Instant; ar_references : Z }.

Record WorkerLease := {
  le_id : Uuid; le_tenant_id : Uuid; le_sandbox_id : Uuid; le_node_id : Uuid;
  le_generation : Z; le_status : string; le_reason : option string; le_expires_at : Instant;
  le_created_at : Instant; le_updated_at : Instant }.

(** [aiec-guard/src/control.rs]. *)
Record GuardIdentity := { gi_sandbox_id : Uuid; gi_tenant_id : Uuid; gi_policy_hash : string }.

Record GuardFence := { lease_id : Uuid; generation : Z }.

Record GuardBudgetState := {
  b_identity : GuardIdentity; b_expires_at : Instant; max_model_requests_cap : Z;
  max_bytes_in : Z; max_bytes_out : Z; model_requests : Z; b_bytes_in : Z; b_bytes_out : Z;
  quarantined : bool }.

Record BudgetDebit := { d_model_requests : Z; d_bytes_in : Z; d_bytes_out : Z }.

Record RuleTrigger := {
  rt_rule : string; first_event_sequence : option Z; evidence_references : list string }.

Record GuardIncident := {
  in_id : Uuid; in_identity : GuardIdentity; in_fence : GuardFence; in_rules : list RuleTrigger;
  triggered_at : Instant; network_cut_at : option Instant; paused_at : option Instant;
  snapshot_id : option string; completed_at : option Instant; in_events : list GuardEvent;
  event_start_sequence : Z; event_previous_hash : string; event_sequence : Z;
  event_head : string; in_errors : list string; notified_at : option Instant;
  report : string }.

(** [aiec-guard/src/proposals.rs] and [aiec-core/src/lib.rs]. *)
Inductive ProposalState :=
| ProposalPending
| ProposalApproved (policy_hash : string)
| ProposalDenied (note : string)
| ProposalRefused (reason : string).

Record EgressGrant := {
  eg_host : string; eg_port : Z; eg_methods : list string; eg_paths : list string }.

Record ProposalRequest := { pr_summary : string; pr_allow : list EgressGrant }.

Record GuardProposal := {
  gp_id : Uuid; gp_sandbox_id : Uuid; gp_tenant_id : Uuid; gp_agent_id : string;
  gp_request : ProposalRequest; gp_base_policy_hash : string; gp_state : ProposalState;
  gp_decided_by : option string; gp_decided_at : option Instant; gp_created_at : Instant }.

Inductive ApprovalState := ApprovalPending | ApprovalGranted | ApprovalDenied.

Record GuardToolApproval := {
  ta_id : Uuid; ta_sandbox_id : Uuid; ta_tenant_id : Uuid; ta_tool : string;
  ta_request_digest : string; ta_detail : option string; ta_requested_by_key_id : Uuid;
  ta_requested_by_label : string; ta_state : ApprovalState;
  ta_decided_by_key_id : option Uuid; ta_decided_by_label : option string;
  ta_decided_at : option Instant; ta_expires_at : Instant; ta_consumed_at : option Instant;
  ta_created_at : Instant }.

#[global] Instance Scope_eq_dec : EqDecision Scope.
Proof. solve_decision. Defined.
#[global] Instance ObjectState_eq_dec : EqDecision ObjectState.
Proof. solve_decision. Defined.
#[global] Instance GuardIdentity_eq_dec : EqDecision GuardIdentity.
Proof. solve_decision. Defined.
#[global] Instance GuardFence_eq_dec : EqDecision GuardFence.
Proof. solve_decision. Defined.
#[global] Instance RuleTrigger_eq_dec : EqDecision RuleTrigger.
Proof. solve_decision. Defined.
#[global] Instance ProposalState_eq_dec : EqDecision ProposalState.
Proof. solve_decision. Defined.
#[global] Instance EgressGrant_eq_dec : EqDecision EgressGrant.
Proof. solve_decision. Defined.
#[global] Instance ProposalRequest_eq_dec : EqDecision ProposalRequest.
Proof. solve_decision. Defined.
#[global] Instance ApprovalState_eq_dec : EqDecision ApprovalState.
Proof. solve_decision. Defined.

(** ** The store *)
Record MemoryData := {
  sandboxes : gmap Uuid Sandbox; keys : gmap Uuid ApiKeyRecord; snapshots : gmap Uuid
  Snapshot; usage : list UsageEvent; stored_snapshots : gmap Uuid StoredSnapshot; nodes
  : gmap Uuid Node; tenants : gmap Uuid TenantRecord; artifact_objects : gmap string
  MemoryArtifact; artifact_scan : option string; guard_budgets : gmap Uuid
  GuardBudgetState; guard_incidents : gmap Uuid GuardIncident; guard_proposals : gmap
  Uuid GuardProposal; leases : gmap Uuid WorkerLease; guard_tool_approvals : gmap Uuid
  GuardToolApproval }.

Definition empty_store : MemoryData := {|
  sandboxes := ∅; keys := ∅; snapshots := ∅; usage := []; stored_snapshots := ∅; nodes
  := ∅; tenants := ∅; artifact_objects := ∅; artifact_scan := None; guard_budgets := ∅;
  guard_incidents := ∅; guard_proposals := ∅; leases := ∅; guard_tool_approvals := ∅ |}.

Definition set_sandboxes (v : gmap Uuid Sandbox) (d : MemoryData) : MemoryData := {|
  sandboxes := v; keys := d.(keys); snapshots := d.(snapshots); usage := d.(usage);
  stored_snapshots := d.(stored_snapshots); nodes := d.(nodes); tenants := d.(tenants);
  artifact_objects := d.(artifact_objects); artifact_scan := d.(artifact_scan);
  guard_budgets := d.(guard_budgets); guard_incidents := d.(guard_incidents);
  guard_proposals := d.(guard_proposals); leases := d.(leases); guard_tool_approvals :=
  d.(guard_tool_approvals) |}.
Definition set_keys (v : gmap Uuid ApiKeyRecord) (d : MemoryData) : MemoryData := {|
  sandboxes := d.(sandboxes); keys := v; snapshots := d.(snapshots); usage := d.(usage);
  stored_snapshots := d.(stored_snapshots); nodes := d.(nodes); tenants := d.(tenants);
  artifact_objects := d.(artifact_objects); artifact_scan := d.(artifact_scan);
  guard_budgets := d.(guard_budgets); guard_incidents := d.(guard_incidents);
  guard_proposals := d.(guard_proposals); leases := d.(leases); guard_tool_approvals :=
  d.(guard_tool_approvals) |}.
Definition set_snapshots (v : gmap Uuid Snapshot) (d : MemoryData) : MemoryData := {|
  sandboxes := d.(sandboxes); keys := d.(keys); snapshots := v; usage := d.(usage);
  stored_snapshots := d.(stored_snapshots); nodes := d.(nodes); tenants := d.(tenants);
  artifact_objects := d.(artifact_objects); artifact_scan := d.(artifact_scan);
  guard_budgets := d.(guard_budgets); guard_incidents := d.(guard_incidents);
  guard_proposals := d.(guard_proposals); leases := d.(leases); guard_tool_approvals :=
  d.(guard_tool_approvals) |}.
Definition set_usage (v : list UsageEvent) (d : MemoryData) : MemoryData := {|
  sandboxes := d.(sandboxes); keys := d.(keys); snapshots := d.(snapshots); usage := v;
  stored_snapshots := d.(stored_snapshots); nodes := d.(nodes); tenants := d.(tenants);
  artifact_objects := d.(artifact_objects); artifact_scan := d.(artifact_scan);
  guard_budgets := d.(guard_budgets); guard_incidents := d.(guard_incidents);
  guard_proposals := d.(guard_proposals); leases := d.(leases); guard_tool_approvals :=
  d.(guard_tool_approvals) |}.
Definition set_stored_snapshots (v : gmap Uuid StoredSnapshot) (d : MemoryData) : MemoryData := {|
  sandboxes := d.(sandboxes); keys := d.(keys); snapshots := d.(snapshots); usage :=
  d.(usage); stored_snapshots := v; nodes := d.(nodes); tenants := d.(tenants);
  artifact_objects := d.(artifact_objects); artifact_scan := d.(artifact_scan);
  guard_budgets := d.(guard_budgets); guard_incidents := d.(guard_incidents);
  guard_proposals := d.(guard_proposals); leases := d.(leases); guard_tool_approvals :=
  d.(guard_tool_approvals) |}.
Definition set_nodes (v : gmap Uuid Node) (d : MemoryData) : MemoryData := {|
  sandboxes := d.(sandboxes); keys := d.(keys); snapshots := d.(snapshots); usage :=
  d.(usage); stored_snapshots := d.(stored_snapshots); nodes := v; tenants :=
  d.(tenants); artifact_objects := d.(artifact_objects); artifact_scan :=
  d.(artifact_scan); guard_budgets := d.(guard_budgets); guard_incidents :=
  d.(guard_incidents); guard_proposals := d.(guard_proposals); leases := d.(leases);
  guard_tool_approvals := d.(guard_tool_approvals) |}.
Definition set_tenants (v : gmap Uuid TenantRecord) (d : MemoryData) : MemoryData := {|
  sandboxes := d.(sandboxes); keys := d.(keys); snapshots := d.(snapshots); usage :=
  d.(usage); stored_snapshots := d.(stored_snapshots); nodes := d.(nodes); tenants := v;
  artifact_objects := d.(artifact_objects); artifact_scan := d.(artifact_scan);
  guard_budgets := d.(guard_budgets); guard_incidents := d.(guard_incidents);
  guard_proposals := d.(guard_proposals); leases := d.(leases); guard_tool_approvals :=
  d.(guard_tool_approvals) |}.
Definition set_artifact_objects (v : gmap string MemoryArtifact) (d : MemoryData) : MemoryData := {|
  sandboxes := d.(sandboxes); keys := d.(keys); snapshots := d.(snapshots); usage :=
  d.(usage); stored_snapshots := d.(stored_snapshots); nodes := d.(nodes); tenants :=
  d.(tenants); artifact_objects := v; artifact_scan := d.(artifact_scan); guard_budgets
  := d.(guard_budgets); guard_incidents := d.(guard_incidents); guard_proposals :=
  d.(guard_proposals); leases := d.(leases); guard_tool_approvals :=
  d.(guard_tool_approvals) |}.
Definition set_artifact_scan (v : option string) (d : MemoryData) : MemoryData := {|
  sandboxes := d.(sandboxes); keys := d.(keys); snapshots := d.(snapshots); usage :=
  d.(usage); stored_snapshots := d.(stored_snapshots); nodes := d.(nodes); tenants :=
  d.(tenants); artifact_objects := d.(artifact_objects); artifact_scan := v;
  guard_budgets := d.(guard_budgets); guard_incidents := d.(guard_incidents);
  guard_proposals := d.(guard_proposals); leases := d.(leases); guard_tool_approvals :=
  d.(guard_tool_approvals) |}.
Definition set_guard_budgets (v : gmap Uuid GuardBudgetState) (d : MemoryData) : MemoryData := {|
  sandboxes := d.(sandboxes); keys := d.(keys); snapshots := d.(snapshots); usage :=
  d.(usage); stored_snapshots := d.(stored_snapshots); nodes := d.(nodes); tenants :=
  d.(tenants); artifact_objects := d.(artifact_objects); artifact_scan :=
  d.(artifact_scan); guard_budgets := v; guard_incidents := d.(guard_incidents);
  guard_proposals := d.(guard_proposals); leases := d.(leases); guard_tool_approvals :=
  d.(guard_tool_approvals) |}.
Definition set_guard_incidents (v : gmap Uuid GuardIncident) (d : MemoryData) : MemoryData := {|
  sandboxes := d.(sandboxes); keys := d.(keys); snapshots := d.(snapshots); usage :=
  d.(usage); stored_snapshots := d.(stored_snapshots); nodes := d.(nodes); tenants :=
  d.(tenants); artifact_objects := d.(artifact_objects); artifact_scan :=
  d.(artifact_scan); guard_budgets := d.(guard_budgets); guard_incidents := v;
  guard_proposals := d.(guard_proposals); leases := d.(leases); guard_tool_approvals :=
  d.(guard_tool_approvals) |}.
Definition set_guard_proposals (v : gmap Uuid GuardProposal) (d : MemoryData) : MemoryData := {|
  sandboxes := d.(sandboxes); keys := d.(keys); snapshots := d.(snapshots); usage :=
  d.(usage); stored_snapshots := d.(stored_snapshots); nodes := d.(nodes); tenants :=
  d.(tenants); artifact_objects := d.(artifact_objects); artifact_scan :=
  d.(artifact_scan); guard_budgets := d.(guard_budgets); guard_incidents :=
  d.(guard_incidents); guard_proposals := v; leases := d.(leases); guard_tool_approvals
  := d.(guard_tool_approvals) |}.
Definition set_leases (v : gmap Uuid WorkerLease) (d : MemoryData) : MemoryData := {|
  sandboxes := d.(sandboxes); keys := d.(keys); snapshots := d.(snapshots); usage :=
  d.(usage); stored_snapshots := d.(stored_snapshots); nodes := d.(nodes); tenants :=
  d.(tenants); artifact_objects := d.(artifact_objects); artifact_scan :=
  d.(artifact_scan); guard_budgets := d.(guard_budgets); guard_incidents :=
  d.(guard_incidents); guard_proposals := d.(guard_proposals); leases := v;
  guard_tool_approvals := d.(guard_tool_approvals) |}.
Definition set_guard_tool_approvals (v : gmap Uuid GuardToolApproval) (d : MemoryData) : MemoryData := {|
  sandboxes := d.(sandboxes); keys := d.(keys); snapshots := d.(snapshots); usage :=
  d.(usage); stored_snapshots := d.(stored_snapshots); nodes := d.(nodes); tenants :=
  d.(tenants); artifact_objects := d.(artifact_objects); artifact_scan :=
  d.(artifact_scan); guard_budgets := d.(guard_budgets); guard_incidents :=
  d.(guard_incidents); guard_proposals := d.(guard_proposals); leases := d.(leases);
  guard_tool_approvals := v |}.

(** What an operation leaves in the store and answers. *)
Abbreviation Op A := (MemoryData * result StoreError.t A)%type (only parsing).

Definition commit {E A} (d : MemoryData) (r : result E (MemoryData * A))
    : MemoryData * result E A :=
  match r with Ok (d', a) => (d', Ok a) | Err e => (d, Err e) end.

(** ** Iteration of a [HashMap] *)
Class HashOrder := { iter : ∀ A : Type, gmap Uuid A → list (Uuid * A) }.
Arguments iter {_ A} m.

Class HashOrderLaws (H : HashOrder) : Prop := {
  iter_entries : ∀ (A : Type) (m : gmap Uuid A), iter m ≡ₚ map_to_list m }.

Definition values `{HashOrder} {A} (m : gmap Uuid A) : list A := snd <$> iter m.

(** [Iterator::max_by]: the last of the greatest elements. *)
Definition max_by {A} (leb : A → A → bool) (l : list A) : option A :=
  foldl (λ best x, match best with
                   | Some b => Some (if leb b x then x else b)
                   | None => Some x end) None l.

(** ** Pages

    Every listing orders its rows by [(created_at, id)], newest first, and resumes
    strictly below the cursor. *)
Record PageCursor := { cur_created_at : Instant; cur_id : Uuid }.

Definition MAX_HISTORY_PAGE : Z := 200.

Definition key_leb (a b : Instant * Uuid) : bool :=
  (a.1 <? b.1) || ((a.1 =? b.1) && (a.2 <=? b.2)%N).
Definition key_ltb (a b : Instant * Uuid) : bool :=
  (a.1 <? b.1) || ((a.1 =? b.1) && (a.2 <? b.2)%N).

Definition clamp (lo hi v : Z) : Z := Z.max lo (Z.min hi v).

Section Pages.
Context {T : Type} (key : T → Instant * Uuid).

Definition newest_first (a b : T) : bool := key_leb (key b) (key a).

Definition before (after : option PageCursor) (x : T) : bool :=
  match after with
  | None => true
  | Some c => key_ltb (key x) (c.(cur_created_at), c.(cur_id))
  end.

Definition page (ordered : list T) (limit : nat) : list T * option PageCursor :=
  let more := (limit <? length ordered)%nat in
  let ordered := take limit ordered in
  (ordered,
   match more, last ordered with
   | true, Some x => Some {| cur_created_at := (key x).1; cur_id := (key x).2 |}
   | _, _ => None
   end).

(** A listing route: filter, resume, order, cut. *)
Definition listing (keep : T → bool) (limit : Z) (after : option PageCursor) (rows : list T)
    : list T * option PageCursor :=
  page (sort_by newest_first
          (base.filter (λ x, keep x && before after x = true) rows))
    (Z.to_nat (clamp 1 MAX_HISTORY_PAGE limit)).

End Pages.

(** ** Sandboxes *)
Definition owned (d : MemoryData) (tenant id : Uuid) : result StoreError.t Sandbox :=
  match d.(sandboxes) !! id with
  | Some s => bail_if negb (sb_tenant_id s =? tenant)%N with StoreError.NotFound; Ok s
  | None => Err StoreError.NotFound
  end.

Definition with_state (next : SandboxState) (now : Instant) (s : Sandbox) : Sandbox := {|
  sb_id := s.(sb_id); sb_tenant_id := s.(sb_tenant_id); sb_node_id := s.(sb_node_id);
  sb_image_id := s.(sb_image_id); sb_state := next; sb_runtime := s.(sb_runtime);
  sb_cpu := s.(sb_cpu); sb_memory_mb := s.(sb_memory_mb); sb_disk_mb := s.(sb_disk_mb);
  sb_timeout_seconds := s.(sb_timeout_seconds); sb_network := s.(sb_network);
  sb_environment := s.(sb_environment); sb_created_at := s.(sb_created_at);
  sb_updated_at := now; sb_runtime_path := s.(sb_runtime_path) |}.

Definition with_runtime_path (path : option string) (s : Sandbox) : Sandbox := {|
  sb_id := s.(sb_id); sb_tenant_id := s.(sb_tenant_id); sb_node_id := s.(sb_node_id);
  sb_image_id := s.(sb_image_id); sb_state := s.(sb_state); sb_runtime := s.(sb_runtime);
  sb_cpu := s.(sb_cpu); sb_memory_mb := s.(sb_memory_mb); sb_disk_mb := s.(sb_disk_mb);
  sb_timeout_seconds := s.(sb_timeout_seconds); sb_network := s.(sb_network);
  sb_environment := s.(sb_environment); sb_created_at := s.(sb_created_at);
  sb_updated_at := s.(sb_updated_at);
  sb_runtime_path := match path with Some _ => path | None => s.(sb_runtime_path) end |}.

Definition put_sandbox (id : Uuid) (s : Sandbox) (d : MemoryData) : MemoryData :=
  set_sandboxes (<[id := s]> d.(sandboxes)) d.

Definition create_sandbox (value : Sandbox) (d : MemoryData) : Op () :=
  commit d (
    bail_if bool_decide (is_Some (d.(sandboxes) !! value.(sb_id))) with StoreError.Conflict;
    Ok (put_sandbox value.(sb_id) value d, ())).

Definition get_sandbox (tenant id : Uuid) (d : MemoryData) : result StoreError.t Sandbox :=
  owned d tenant id.

Definition update_state (now : Instant) (tenant id : Uuid) (expected next : SandboxState)
    (runtime_path : option string) (d : MemoryData) : Op Sandbox :=
  commit d (
    let? value := owned d tenant id in
    bail_if bool_decide (next = Quarantined) && negb (bool_decide (value.(sb_state) = Quarantined))
      with StoreError.Conflict;
    if bool_decide (value.(sb_state) = next) then Ok (d, value) else
    bail_if negb (bool_decide (value.(sb_state) = expected))
            || negb (can_transition_to value.(sb_state) next) with StoreError.Conflict;
    let value := with_runtime_path runtime_path (with_state next now value) in
    Ok (put_sandbox id value d, value)).

Definition delete_sandbox (now : Instant) (tenant id : Uuid) (d : MemoryData) : Op () :=
  commit d (
    let? value := owned d tenant id in
    bail_if bool_decide (value.(sb_state) = Quarantined) with StoreError.Conflict;
    Ok (put_sandbox id (with_state Destroyed now value) d, ())).

Section Lists.
Context `{HashOrder}.

Definition sandbox_key (s : Sandbox) : Instant * Uuid := (s.(sb_created_at), s.(sb_id)).

Definition list_sandboxes (tenant : Uuid) (limit : Z) (after : option PageCursor)
    (d : MemoryData) : list Sandbox * option PageCursor :=
  listing sandbox_key (λ s, (s.(sb_tenant_id) =? tenant)%N) limit after (values d.(sandboxes)).

(** ** API keys *)
Definition put_key (value : ApiKeyRecord) (d : MemoryData) : Op () :=
  commit d (
    bail_if bool_decide (is_Some (d.(keys) !! value.(key_id))) with StoreError.Conflict;
    Ok (set_keys (<[value.(key_id) := value]> d.(keys)) d, ())).

Definition revoke_key (now : Instant) (tenant id : Uuid) (d : MemoryData) : Op () :=
  commit d (
    let? value := ok_or (d.(keys) !! id) StoreError.NotFound in
    bail_if negb (value.(key_tenant_id) =? tenant)%N with StoreError.NotFound;
    let value := {|
      key_id := value.(key_id); key_tenant_id := value.(key_tenant_id);
      key_digest := value.(key_digest); key_scopes := value.(key_scopes);
      key_expires_at := value.(key_expires_at); key_revoked_at := Some now;
      key_name := value.(key_name); key_created_at := value.(key_created_at);
      key_last_used_at := value.(key_last_used_at) |} in
    Ok (set_keys (<[id := value]> d.(keys)) d, ())).

Definition api_key_key (k : ApiKeyRecord) : Instant * Uuid := (k.(key_created_at), k.(key_id)).

Definition list_keys (tenant : Uuid) (d : MemoryData) : list ApiKeyRecord :=
  sort_by (newest_first api_key_key)
    (base.filter (λ k, k.(key_tenant_id) = tenant) (values d.(keys))).

Definition get_key (tenant id : Uuid) (d : MemoryData) : option ApiKeyRecord :=
  match d.(keys) !! id with
  | Some k => if (k.(key_tenant_id) =? tenant)%N then Some k else None
  | None => None
  end.

Definition find_key (digest : list Z) (d : MemoryData) : result StoreError.t ApiKeyRecord :=
  ok_or (List.find (λ k, bool_decide (k.(key_digest) = digest)) (values d.(keys)))
    StoreError.NotFound.

(** ** Usage, nodes and tenants *)
Definition append_usage (value : UsageEvent) (d : MemoryData) : Op () :=
  (set_usage (d.(usage) ++ [value]) d, Ok ()).

(** The totals per metric; [None] where an [i64] sum leaves its range, which panics
    or wraps by build profile. *)
Definition usage_totals (tenant : Uuid) (d : MemoryData) : option (gmap string Z) :=
  foldl (λ grouped v,
      grouped ← grouped;
      let q := default 0 (grouped !! v.(us_metric)) + v.(us_quantity) in
      if (- i64_max - 1 <=? q) && (q <=? i64_max)
      then Some (<[v.(us_metric) := q]> grouped) else None)
    (Some ∅) (base.filter (λ v, v.(us_tenant_id) = tenant) d.(usage)).

Definition NODE_HEARTBEAT_TTL_SECONDS : Z := 30.

Definition register_node (value : Node) (d : MemoryData) : Op Uuid :=
  let existing := fst <$> List.find (λ e, bool_decide (e.2.(nd_name) = value.(nd_name)))
                            (iter d.(nodes)) in
  let id := default value.(nd_id) existing in
  let node := {|
    nd_id := id; nd_name := value.(nd_name); nd_available_vcpus := value.(nd_available_vcpus);
    nd_available_memory_bytes := value.(nd_available_memory_bytes);
    nd_available_disk_bytes := value.(nd_available_disk_bytes);
    nd_sandbox_count := value.(nd_sandbox_count); nd_healthy := value.(nd_healthy);
    nd_last_heartbeat := value.(nd_last_heartbeat) |} in
  (set_nodes (<[id := node]> d.(nodes)) d, Ok id).

Definition alive (now : Instant) (n : Node) : bool :=
  n.(nd_healthy) && (now - seconds NODE_HEARTBEAT_TTL_SECONDS <? n.(nd_last_heartbeat)).

Definition node_capacity_totals (now : Instant) (d : MemoryData) : Z * Z :=
  foldl (λ t n,
      if alive now n
      then (saturating_add u32_max t.1 n.(nd_available_vcpus),
            saturating_add u64_max t.2 n.(nd_available_memory_bytes))
      else t)
    (0, 0) (values d.(nodes)).

Definition list_nodes (now : Instant) (d : MemoryData) : list Node :=
  base.filter (λ n, alive now n = true) (values d.(nodes)).

Definition put_tenant (value : TenantRecord) (d : MemoryData)
    : MemoryData * result CoreError.t () :=
  commit d (
    bail_if bool_decide (is_Some (d.(tenants) !! value.(tn_id))) with CoreError.Conflict;
    Ok (set_tenants (<[value.(tn_id) := value]> d.(tenants)) d, ())).

(** ** Worker leases *)
Definition get_worker_lease (tenant id : Uuid) (d : MemoryData) : result CoreError.t WorkerLease :=
  let? lease := ok_or (d.(leases) !! id) CoreError.NotFound in
  bail_if negb (lease.(le_tenant_id) =? tenant)%N with CoreError.NotFound;
  Ok lease.

Definition active (tenant sandbox : Uuid) (l : WorkerLease) : bool :=
  (l.(le_tenant_id) =? tenant)%N && (l.(le_sandbox_id) =? sandbox)%N
  && bool_decide (l.(le_status) = "active"%string).

Definition get_active_worker_lease (now : Instant) (tenant sandbox : Uuid) (d : MemoryData)
    : result CoreError.t WorkerLease :=
  ok_or (List.find (λ l, active tenant sandbox l && (now <? l.(le_expires_at)))
           (values d.(leases))) CoreError.NotFound.

(** [now] is read for the expiry check, [now'] for the renewed record. *)
Definition renew_worker_lease (now now' : Instant) (tenant id : Uuid) (gen ttl_seconds : Z)
    (d : MemoryData) : MemoryData * result CoreError.t WorkerLease :=
  commit d (
    bail_if negb ((1 <=? ttl_seconds) && (ttl_seconds <=? 3600)) with CoreError.Conflict;
    let? lease := get_worker_lease tenant id d in
    bail_if lease.(le_expires_at) <=? now with CoreError.Conflict;
    bail_if negb (lease.(le_generation) =? gen)
            || negb (bool_decide (lease.(le_status) = "active"%string)) with CoreError.Conflict;
    let? next := ok_or (checked_add i64_max lease.(le_generation) 1) CoreError.Conflict in
    let lease := {|
      le_id := lease.(le_id); le_tenant_id := lease.(le_tenant_id);
      le_sandbox_id := lease.(le_sandbox_id); le_node_id := lease.(le_node_id);
      le_generation := next; le_status := lease.(le_status); le_reason := lease.(le_reason);
      le_expires_at := now' + seconds ttl_seconds; le_created_at := lease.(le_created_at);
      le_updated_at := now' |} in
    Ok (set_leases (<[id := lease]> d.(leases)) d, lease)).

End Lists.

Lemma commit_ok {E A} d (r : result E (MemoryData * A)) d' a :
  commit d r = (d', Ok a) → r = Ok (d', a).
Proof. destruct r as [[??]|]; naive_solver. Qed.

(** An invariant that the computation preserves when it succeeds is preserved by
    the operation. *)
Lemma commit_preserves {E A} (P : MemoryData → Prop) d (r : result E (MemoryData * A)) :
  P d → (∀ d' a, r = Ok (d', a) → P d') → P (commit d r).1.
Proof. destruct r as [[??]|]; naive_solver. Qed.

(** A field that the computation does not write is left alone by the operation. *)
Lemma commit_frame {E A B} (f : MemoryData → B) d (r : result E (MemoryData * A)) :
  (∀ d' a, r = Ok (d', a) → f d' = f d) → f (commit d r).1 = f d.
Proof. destruct r as [[??]|]; naive_solver. Qed.

Ltac frame_op :=
  apply commit_frame; let H := fresh "Hrun" in intros ? ? H; cbv zeta in H; ok_inv H;
  repeat (simplify_eq/=; case_match); simplify_eq/=; done.

(** ** Walking the pages of a listing *)

(** A reader that asks for the next page until there is none. *)
Fixpoint walk {T} (fetch : option PageCursor → list T * option PageCursor) (fuel : nat)
    (after : option PageCursor) : option (list T) :=
  match fuel with
  | O => None
  | S fuel =>
      let '(shown, next) := fetch after in
      match next with
      | None => Some shown
      | Some c => app shown <$> walk fetch fuel (Some c)
      end
  end.

Section Walk.
Context {T : Type} (key : T → Instant * Uuid) (keep : T → bool) (limit : Z).

Lemma key_leb_total a b : key_leb a b = true ∨ key_leb b a = true.
Proof.
  unfold key_leb. rewrite !orb_true_iff, !andb_true_iff, !Z.ltb_lt, !Z.eqb_eq, !N.leb_le. lia.
Qed.

Lemma key_leb_trans a b c : key_leb a b = true → key_leb b c = true → key_leb a c = true.
Proof.
  unfold key_leb. rewrite !orb_true_iff, !andb_true_iff, !Z.ltb_lt, !Z.eqb_eq, !N.leb_le. lia.
Qed.

Lemma key_leb_antisym a b : key_leb a b = true → key_leb b a = true → a = b.
Proof.
  unfold key_leb. rewrite !orb_true_iff, !andb_true_iff, !Z.ltb_lt, !Z.eqb_eq, !N.leb_le.
  destruct a, b; simpl. intros. f_equal; lia.
Qed.

Lemma key_ltb_leb a b : key_ltb a b = true ↔ key_leb a b = true ∧ a ≠ b.
Proof.
  unfold key_leb, key_ltb.
  rewrite !orb_true_iff, !andb_true_iff, !Z.ltb_lt, !Z.eqb_eq, !N.leb_le, !N.ltb_lt.
  destruct a as [x y], b as [z w]; simpl. split.
  - intros Hlt. split; [lia|]. intros [= -> ->]. lia.
  - intros [Hle Hne]. destruct (Z.eq_dec x z) as [->|]; [|lia].
    right. split; [done|]. destruct (N.eq_dec y w) as [->|]; [done|lia].
Qed.

Let leb := newest_first key.

Lemma newest_total x y : leb x y = true ∨ leb y x = true.
Proof. apply key_leb_total. Qed.

Lemma newest_trans x y z : leb x y = true → leb y z = true → leb x z = true.
Proof. unfold leb, newest_first. intros ??. by eapply key_leb_trans. Qed.
#[local] Hint Resolve newest_total newest_trans : order.

Lemma sorted_filter (P : T → Prop) `{∀ x, base.Decision (P x)} l :
  StronglySorted (λ x y, leb x y = true) l →
  StronglySorted (λ x y, leb x y = true) (base.filter P l).
Proof.
  induction 1 as [|x l Hl IH Hx]; [constructor|]. rewrite filter_cons.
  case_decide; [|done]. constructor; [done|]. rewrite Forall_forall in Hx |- *.
  intros y [_ Hy]%list_elem_of_filter. by apply Hx.
Qed.

Lemma sort_filter (P : T → Prop) `{∀ x, base.Decision (P x)} l :
  NoDup (key <$> l) →
  sort_by leb (base.filter P l) = base.filter P (sort_by leb l).
Proof.
  intros Hnd. rewrite (sort_by_unique leb newest_total newest_trans
    (base.filter P l) (base.filter P (sort_by leb l))).
  - apply sort_by_idem.
    apply sorted_filter, sort_by_sorted; eauto with order.
  - intros x y Hx Hy ??. apply list_elem_of_filter in Hx as [_ Hx], Hy as [_ Hy].
    eapply NoDup_fmap_elem; [exact Hnd|done|done|]. by apply key_leb_antisym.
  - by rewrite sort_by_perm.
Qed.

Let cursor (x : T) : PageCursor := {| cur_created_at := (key x).1; cur_id := (key x).2 |}.

Lemma before_cursor x y : before key (Some (cursor x)) y = key_ltb (key y) (key x).
Proof. unfold before, cursor. simpl. by destruct (key x). Qed.

(** The rows below a row of a listing are the rows after it. *)
Lemma filter_below pre x suf :
  StronglySorted (λ x y, leb x y = true) (pre ++ x :: suf) → NoDup (key <$> pre ++ x :: suf) →
  base.filter (λ y, before key (Some (cursor x)) y = true) (pre ++ x :: suf) = suf.
Proof.
  intros Hs Hnd. rewrite fmap_app, fmap_cons, NoDup_app, NoDup_cons in Hnd.
  destruct Hnd as (_ & Hpre & Hx & _). apply StronglySorted_app in Hs as (Hle & _ & Hs).
  apply StronglySorted_inv in Hs as [_ Hsuf]. rewrite Forall_forall in Hsuf.
  rewrite filter_app, filter_cons, (filter_none _ pre), (filter_all _ suf).
  - rewrite decide_False; [done|]. rewrite before_cursor, key_ltb_leb. tauto.
  - intros y Hy. rewrite before_cursor, key_ltb_leb. split; [by apply Hsuf|].
    intros Heq. apply Hx. rewrite <-Heq. by apply list_elem_of_fmap_2.
  - intros y Hy. rewrite before_cursor, key_ltb_leb. intros [Hyx Hne].
    apply Hne, key_leb_antisym; [done|]. apply (Hle y x); [done|left].
Qed.

Context (rows : list T) (Hnd : NoDup (key <$> rows)).

Let all := sort_by leb (base.filter (λ x, keep x = true) rows).

Lemma all_sorted : StronglySorted (λ x y, leb x y = true) all.
Proof. apply sort_by_sorted; eauto with order. Qed.

Lemma all_NoDup : NoDup (key <$> all).
Proof.
  unfold all. rewrite sort_by_perm. eapply sublist_NoDup; [exact Hnd|].
  apply fmap_sublist, sublist_filter.
Qed.

(** A page resumed after [pre] shows a prefix of what follows it. *)
Lemma listing_resumes pre rest :
  all = pre ++ rest →
  listing key keep limit (cursor <$> last pre) rows
  = page key rest (Z.to_nat (clamp 1 MAX_HISTORY_PAGE limit)).
Proof.
  intros Hall. unfold listing. f_equal.
  rewrite (list_filter_iff _ (λ x, before key (cursor <$> last pre) x = true ∧ keep x = true))
    by (intros x; rewrite andb_true_iff; tauto).
  rewrite <-list_filter_filter. fold leb.
  rewrite sort_filter; [|eapply sublist_NoDup; [exact Hnd|apply fmap_sublist, sublist_filter]].
  fold all. rewrite Hall. destruct pre as [|x pre _] using rev_ind.
  - simpl. by apply filter_all.
  - rewrite last_snoc. simpl. pose proof all_sorted as Hs. pose proof all_NoDup as Hn.
    rewrite Hall in Hs, Hn. rewrite <-app_assoc in Hs, Hn |- *. by apply filter_below.
Qed.

Lemma walk_rest fuel pre rest :
  all = pre ++ rest → (length rest < fuel)%nat →
  walk (λ c, listing key keep limit c rows) fuel (cursor <$> last pre) = Some rest.
Proof.
  revert pre rest. induction fuel as [|fuel IH]; intros pre rest Hall Hf; [lia|].
  cbn [walk]. rewrite (listing_resumes pre rest) by done.
  set (n := Z.to_nat _). assert (Hn : (0 < n)%nat).
  { unfold n, clamp, MAX_HISTORY_PAGE. lia. }
  unfold page. destruct (Nat.ltb_spec n (length rest)) as [Hlt|Hge];
    [|by rewrite take_ge by lia].
  destruct (last (take n rest)) as [x|] eqn:Hl.
  2:{ apply last_None in Hl. apply (f_equal length) in Hl. rewrite length_take in Hl. simpl in Hl. lia. }
  apply last_Some in Hl as [l' Hl].
  assert (Hr : rest = (l' ++ [x]) ++ drop n rest) by (by rewrite <-Hl, take_drop).
  change (Some {| cur_created_at := (key x).1; cur_id := (key x).2 |}) with (Some (cursor x)).
  specialize (IH (pre ++ l' ++ [x]) (drop n rest)).
  rewrite app_assoc, last_snoc in IH. simpl in IH. rewrite IH.
  - simpl. by rewrite take_drop.
  - rewrite Hall, Hr at 1. by rewrite !app_assoc.
  - rewrite length_drop. lia.
Qed.

End Walk.

Section Values.
Context `{HashOrderLaws}.

Lemma elem_of_values {A} (m : gmap Uuid A) x : x ∈ values m ↔ ∃ k, m !! k = Some x.
Proof.
  unfold values. rewrite list_elem_of_fmap. split.
  - intros ([k y] & -> & Hy). rewrite iter_entries in Hy. apply elem_of_map_to_list in Hy. eauto.
  - intros [k Hk]. exists (k, x). split; [done|]. rewrite iter_entries. by apply elem_of_map_to_list.
Qed.

(** Rows stored under their own identifier have distinct identifiers. *)
Lemma values_NoDup {A B} (f : A → B) (ident : A → Uuid) (proj : B → Uuid) (m : gmap Uuid A) :
  (∀ x, proj (f x) = ident x) → (∀ k x, m !! k = Some x → ident x = k) →
  NoDup (f <$> values m).
Proof.
  intros Hf Hid. apply (NoDup_fmap_1 proj). rewrite <-list_fmap_compose. unfold values.
  rewrite <-list_fmap_compose.
  assert (Hkeys : proj ∘ f ∘ snd <$> iter m = fst <$> iter m).
  { apply list_fmap_ext. intros i [k x] Hi. simpl. rewrite Hf. apply Hid.
    apply elem_of_map_to_list. rewrite <-iter_entries. by eapply list_elem_of_lookup_2. }
  rewrite Hkeys, iter_entries. apply NoDup_fst_map_to_list.
Qed.

End Values.
