(* ===== verification/Watchdog.v ===== *)
(** * Watchdog: the independent observer of one guest

    [crates/aiec-guard/src/watchdog.rs]: the configuration and its limits, the check of an
    authoritative journal page ([validate_event_page]), the watchdog's state and one
    observation ([observe]), the check of an incident ([validate_incident]) and the escaping
    of the report.

    [now] and every observation are arguments.  A [BTreeMap] keyed by rule is a [gmap] read in
    key order ([in_order]).  The entropy of a label is an argument ([Entropy]): Rust leaves
    the precision of [f64::log2] unspecified. *)

From Stdlib Require Import Ascii.
From stdpp Require Import pretty.
From S2P Require Import Prelude Policy Boundary L7 Text Render Enforcement.
From S2P Require Import Lifecycle Events Store.

Definition MAX_RULES : Z := 16.
Definition MAX_REFERENCES : Z := 16.

(** ** Configuration *)
Record WatchdogConfig := {
  poll_interval_ms : Z; request_timeout_ms : Z; heartbeat_ttl_ms : Z; observation_max_age_ms : Z; window_seconds : Z;
  denied_threshold : Z; nxdomain_threshold : Z; suspicious_dns_threshold : Z; credential_misuse_threshold : Z;
  model_requests_threshold : Z; model_bytes_threshold : Z; large_request_bytes : Z; long_dns_name_bytes : Z;
  entropy_min_label_bytes : Z; entropy_bits_milli : Z; expected_domains : list string }.

Definition default_config : WatchdogConfig := {|
  poll_interval_ms := 1000; request_timeout_ms := 2000; heartbeat_ttl_ms := 10000; observation_max_age_ms := 3000;
  window_seconds := 60; denied_threshold := 5; nxdomain_threshold := 5; suspicious_dns_threshold := 3;
  credential_misuse_threshold := 1; model_requests_threshold := 120; model_bytes_threshold := 16 * 1024 * 1024;
  large_request_bytes := 1024 * 1024; long_dns_name_bytes := 180; entropy_min_label_bytes := 24;
  entropy_bits_milli := 4000; expected_domains := [] |}.

Definition within (lo hi v : Z) : bool := (lo <=? v) && (v <=? hi).

Definition valid_domain (d : string) : bool :=
  negb (is_empty d) && (slen d <=? 253)
  && forallb (λ l,
       negb (bool_decide (l = [])) && (count l <=? 63)
       && negb (bool_decide (head l = Some "-"%char)) && negb (bool_decide (last l = Some "-"%char))
       && forallb (λ b, in_range 97 122 b || is_ascii_digit b || is_char "-" b) l)
     (split_on dot (chars d)).

Definition validate_config (c : WatchdogConfig) : result GuardError.t () :=
  let thresholds := [c.(denied_threshold); c.(nxdomain_threshold); c.(suspicious_dns_threshold);
                     c.(credential_misuse_threshold); c.(model_requests_threshold); c.(model_bytes_threshold);
                     c.(large_request_bytes)] in
  bail_if negb (within 100 30000 c.(poll_interval_ms))
          || negb (within 100 10000 c.(request_timeout_ms))
          || negb (within 1000 60000 c.(heartbeat_ttl_ms))
          || (c.(heartbeat_ttl_ms) <=? c.(poll_interval_ms) + 2 * c.(request_timeout_ms))
          || negb (within 100 30000 c.(observation_max_age_ms))
          || negb (within 1 3600 c.(window_seconds))
          || existsb (λ n, (n =? 0) || (1000000000000 <? n)) thresholds
          || negb (within 32 253 c.(long_dns_name_bytes))
          || negb (within 8 63 c.(entropy_min_label_bytes))
          || negb (within 1000 6000 c.(entropy_bits_milli))
          || (1024 <? count c.(expected_domains))
          || existsb (λ d, negb (valid_domain d)) c.(expected_domains)
    with GuardError.Policy;
  Ok ().

(** ** Journal pages *)
(** 64 lower-case hexadecimal digits. *)
Definition is_hash (s : string) : bool :=
  (slen s =? 64) && all_bytes (λ b, is_ascii_hexdigit b && negb (in_range 65 90 b)) s.

Definition valid_identity (i : GuardIdentity) : result GuardError.t () :=
  bail_if (i.(gi_sandbox_id) =? 0)%N || (i.(gi_tenant_id) =? 0)%N || negb (is_hash i.(gi_policy_hash))
    with GuardError.Integrity;
  Ok ().

Section Pages.
Context `{Host}.

Fixpoint follow (i : GuardIdentity) (previous : string) (events : list GuardEvent) : result GuardError.t string :=
  match events with
  | [] => Ok previous
  | e :: events =>
      let? _ := verify_bounds e in
      bail_if negb (e.(sandbox_id) =? i.(gi_sandbox_id))%N || negb (e.(tenant_id) =? i.(gi_tenant_id))%N
              || negb (bool_decide (e.(policy_hash) = i.(gi_policy_hash)))
              || negb (bool_decide (e.(previous_hash) = previous))
        with GuardError.Integrity;
      let? _ := verify_self_hash e in
      follow i e.(current_hash) events
  end.

Definition validate_event_page (i : GuardIdentity) (events : list GuardEvent) (after : Z) (previous : string)
    (total : Z) (head : string) : result GuardError.t () :=
  let? _ := valid_identity i in
  bail_if (MAX_PAGE_EVENTS <? count events)
          || negb (bool_decide (checked_add u64_max after (count events) = Some total))
    with GuardError.Integrity;
  bail_if negb (is_hash previous) || ((after =? 0) && negb (bool_decide (previous = GENESIS_HASH)))
    with GuardError.Integrity;
  let? reached := follow i previous events in
  bail_if negb (bool_decide (reached = head)) || negb (is_hash head) with GuardError.Integrity;
  Ok ().

End Pages.

(** ** Observations *)
Record GuardObservation := {
  o_identity : GuardIdentity; o_fence : GuardFence; o_counters : CounterSnapshot; o_events : list GuardEvent;
  observed_at : Instant; o_start_sequence : Z; o_previous_hash : string; o_sequence : Z; o_head : string;
  network_cut : bool; paused : bool; o_budget : GuardBudgetState }.

Record WatchdogDecision := {
  wd_identity : GuardIdentity; wd_fence : GuardFence; wd_observed_at : Instant; wd_event_sequence : Z;
  alerts : list RuleTrigger; quarantine_rules : list RuleTrigger }.

Record RuleCount := { rc_count : Z; rc_first : option Z; rc_references : list string }.

Definition no_count : RuleCount := {| rc_count := 0; rc_first := None; rc_references := [] |}.

Definition rc_add (c : RuleCount) (amount : Z) (sequence : option Z) (reference : string) : RuleCount := {|
  rc_count := saturating_add u64_max c.(rc_count) amount;
  rc_first := match c.(rc_first) with None => sequence | first => first end;
  rc_references := if (count c.(rc_references) <? MAX_REFERENCES) && negb (bool_decide (reference ∈ c.(rc_references)))
                   then c.(rc_references) ++ [reference] else c.(rc_references) |}.

Definition trigger (c : RuleCount) (rule : string) : RuleTrigger :=
  {| rt_rule := rule; first_event_sequence := c.(rc_first); evidence_references := c.(rc_references) |}.

Record Watchdog := {
  w_identity : GuardIdentity; w_config : WatchdogConfig; w_sequence : Z; w_head : string;
  w_counters : option CounterSnapshot; w_budget : option GuardBudgetState; w_fence : option GuardFence;
  w_observed_at : option Instant; w_window_start : option Instant; w_counts : gmap string RuleCount }.

(** The expected names, [self.domains], are those of the configuration. *)
Definition new_watchdog (i : GuardIdentity) (c : WatchdogConfig) : result GuardError.t Watchdog :=
  let? _ := valid_identity i in
  let? _ := validate_config c in
  Ok {| w_identity := i; w_config := c; w_sequence := 0; w_head := GENESIS_HASH; w_counters := None; w_budget := None;
        w_fence := None; w_observed_at := None; w_window_start := None; w_counts := ∅ |}.

(** ** Rules *)
Class Entropy := entropy_milli : list ascii → Z.

Definition high_entropy `{Entropy} (label : list ascii) (c : WatchdogConfig) : bool :=
  if (count label <? c.(entropy_min_label_bytes)) || negb (forallb (λ b, byte_of b <? 128) label) then false
  else c.(entropy_bits_milli) <=? entropy_milli label.

Section Rules.
Context `{Entropy}.

Definition credential_reasons : list string :=
  ["model binding mismatch"; "credential destination mismatch"; "credential placeholder mismatch";
   "credentials forbidden on proxy"]%string.
Definition large_reasons : list string :=
  ["request body too large"; "request body limit exceeded or gateway cut"]%string.

(** The rules an event hits, with their amounts, in the order of the code. *)
Definition event_hits (c : WatchdogConfig) (e : GuardEvent) : list (string * Z) :=
  let says (r : string) := bool_decide (e.(reason) = r) in
  let denied := bool_decide (e.(decision) = Deny) in
  let cat (k : Category) := bool_decide (e.(category) = k) in
  (if cat Dns then
     (if says "DNS NXDOMAIN"%string then [("nxdomain_burst"%string, 1)] else [])
     ++ (if says "DNS record type denied"%string then [("forbidden_record_type"%string, 1)] else [])
     ++ (if says "DNS name denied"%string || says "DNS name or record type denied"%string
            || match e.(destination) with
               | Some name => negb (bool_decide (c.(expected_domains) = [])) && negb (bool_decide (name ∈ c.(expected_domains)))
               | None => false
               end
         then [("unexpected_domain"%string, 1)] else [])
     ++ match e.(destination) with
        | Some name =>
            (if c.(long_dns_name_bytes) <=? slen name then [("long_dns_name"%string, 1)] else [])
            ++ (if existsb (λ label, high_entropy label c) (split_on dot (chars name))
                then [("high_entropy_dns_label"%string, 1)] else [])
        | None => []
        end
     ++ (if says "DNS name too long"%string then [("long_dns_name"%string, 1)] else [])
   else [])
  ++ (if denied && (cat Network || cat Model || cat Credential) then [("repeated_denied_connections"%string, 1)] else [])
  ++ (if denied && (cat Credential || bool_decide (e.(reason) ∈ credential_reasons))
      then [("credential_misuse"%string, 1)] else [])
  ++ (if cat Model then
        (if says "bound upstream request"%string || denied then [("abnormal_model_rate"%string, 1)] else [])
        ++ (if (0 <? e.(request_bytes)) || (0 <? e.(response_bytes))
            then [("abnormal_model_bytes"%string, saturating_add u64_max e.(request_bytes) e.(response_bytes))] else [])
      else [])
  ++ (if (c.(large_request_bytes) <=? e.(request_bytes)) || bool_decide (e.(reason) ∈ large_reasons)
      then [("large_request"%string, 1)] else []).

(** [signed_duration_since] in whole milliseconds and seconds, rounded towards zero. *)
Definition millis_since (now then_ : Instant) : Z := Z.quot (now - then_) 1000000.
Definition secs_since (now then_ : Instant) : Z := Z.quot (now - then_) 1000000000.

Abbreviation Alerts := (gmap string RuleTrigger) (only parsing).
Abbreviation Counts := (gmap string RuleCount) (only parsing).

(** [entry(rule).or_default().add(..)]. *)
Definition add_count (counts : Counts) (rule : string) (amount : Z) (sequence : option Z) (reference : string) : Counts :=
  <[rule := rc_add (default no_count (counts !! rule)) amount sequence reference]> counts.

Definition hit (recent : bool) (sequence : Z) (reference : string) (st : Alerts * Counts) (h : string * Z)
    : Alerts * Counts :=
  let '(alerts, counts) := st in
  (match alerts !! h.1 with
   | Some _ => alerts
   | None => <[h.1 := {| rt_rule := h.1; first_event_sequence := Some sequence; evidence_references := [reference] |}]> alerts
   end,
   if recent then add_count counts h.1 h.2 (Some sequence) reference else counts).

Definition event_reference (sequence : Z) (e : GuardEvent) : string :=
  "event:" +:+ decimal sequence +:+ ":" +:+ e.(current_hash).

Definition is_recent (c : WatchdogConfig) (at_ : Instant) (e : GuardEvent) : bool :=
  secs_since at_ e.(timestamp) <=? c.(window_seconds).

Fixpoint observe_events (c : WatchdogConfig) (at_ : Instant) (sequence : Z) (events : list GuardEvent)
    (st : Alerts * Counts) : Alerts * Counts :=
  match events with
  | [] => st
  | e :: events =>
      observe_events c at_ (sequence + 1) events
        (foldl (hit (is_recent c at_ e) sequence (event_reference sequence e)) st (event_hits c e))
  end.

Definition threshold (c : WatchdogConfig) (rule : string) : Z :=
  if bool_decide (rule = "repeated_denied_connections"%string) then c.(denied_threshold)
  else if bool_decide (rule = "nxdomain_burst"%string) then c.(nxdomain_threshold)
  else if bool_decide (rule = "credential_misuse"%string) then c.(credential_misuse_threshold)
  else if bool_decide (rule = "abnormal_model_rate"%string) then c.(model_requests_threshold)
  else if bool_decide (rule = "abnormal_model_bytes"%string) then c.(model_bytes_threshold)
  else if bool_decide (rule = "large_request"%string) then 1
  else c.(suspicious_dns_threshold).

(** The entries of a [BTreeMap], in key order. *)
Definition in_order {A} (m : gmap string A) : list (string * A) :=
  sort_by (λ a b, string_leb a.1 b.1) (map_to_list m).

Definition exceeded (c : WatchdogConfig) (counts : Counts) : list RuleTrigger :=
  (λ e, trigger e.2 e.1) <$> base.filter (λ e, threshold c e.1 ≤ e.2.(rc_count)) (in_order counts).

End Rules.

(** ** One observation *)
Section Observing.
Context `{Host} `{Texts} `{Entropy}.

(** The table name of the watched attachment. *)
Definition watched_table (i : GuardIdentity) : string := table_name (simple i.(gi_sandbox_id)).

Definition fence_ok (w : Watchdog) (o : GuardObservation) : bool :=
  match w.(w_fence) with
  | Some f => negb (negb (o.(o_fence).(lease_id) =? f.(lease_id))%N || (o.(o_fence).(generation) <? f.(generation)))
  | None => true
  end.

Definition budget_ok (w : Watchdog) (o : GuardObservation) : bool :=
  match w.(w_budget) with
  | Some old =>
      let current := o.(o_budget) in
      negb (negb (current.(b_expires_at) =? old.(b_expires_at))
            || negb (current.(max_model_requests_cap) =? old.(max_model_requests_cap))
            || negb (current.(max_bytes_in) =? old.(max_bytes_in))
            || negb (current.(max_bytes_out) =? old.(max_bytes_out))
            || (current.(model_requests) <? old.(model_requests))
            || (current.(b_bytes_in) <? old.(b_bytes_in))
            || (current.(b_bytes_out) <? old.(b_bytes_out))
            || (old.(quarantined) && negb current.(quarantined)))
  | None => true
  end.

Definition rolled_back (w : Watchdog) (o : GuardObservation) (kind : CounterKind) : bool :=
  match w.(w_counters) with
  | Some old => snap_get o.(o_counters) kind <? snap_get old kind
  | None => false
  end.

(** Everything an observation has to pass before any state changes. *)
Definition admissible (w : Watchdog) (o : GuardObservation) (now : Instant) : result GuardError.t () :=
  bail_if negb (bool_decide (o.(o_identity) = w.(w_identity)))
          || negb (bool_decide (o.(o_budget).(b_identity) = w.(w_identity)))
          || (o.(o_fence).(lease_id) =? 0)%N || (o.(o_fence).(generation) <? 0)
    with GuardError.Integrity;
  bail_if negb (fence_ok w o) with GuardError.Integrity;
  bail_if negb (budget_ok w o) with GuardError.Integrity;
  let age := millis_since now o.(observed_at) in
  bail_if (age <? -1000) || (w.(w_config).(observation_max_age_ms) <? age)
          || match w.(w_observed_at) with Some last => o.(observed_at) <? last | None => false end
    with GuardError.Integrity;
  bail_if negb (bool_decide (o.(o_counters).(cs_table) = watched_table w.(w_identity))) with GuardError.Integrity;
  bail_if existsb (rolled_back w o) ALL with GuardError.Integrity;
  let? after := ok_or (checked_sub o.(o_start_sequence) 1) GuardError.Integrity in
  bail_if bool_decide (is_Some w.(w_observed_at))
          && (negb (after =? w.(w_sequence)) || negb (bool_decide (o.(o_previous_hash) = w.(w_head))))
    with GuardError.Integrity;
  let? _ := validate_event_page w.(w_identity) o.(o_events) after o.(o_previous_hash) o.(o_sequence) o.(o_head) in
  bail_if existsb (λ e, o.(observed_at) + 1000000000 <? e.(timestamp)) o.(o_events) with GuardError.Integrity;
  Ok ().

(** The window an observation falls in, and the counts it starts from. *)
Definition same_window (w : Watchdog) (o : GuardObservation) : option Instant :=
  match w.(w_window_start) with
  | Some start => if secs_since o.(observed_at) start <? w.(w_config).(window_seconds) then Some start else None
  | None => None
  end.
Definition window_start (w : Watchdog) (o : GuardObservation) : Instant :=
  default o.(observed_at) (same_window w o).
Definition window_counts (w : Watchdog) (o : GuardObservation) : gmap string RuleCount :=
  match same_window w o with Some _ => w.(w_counts) | None => ∅ end.

Definition delta (w : Watchdog) (o : GuardObservation) (kind : CounterKind) : Z :=
  saturating_sub (snap_get o.(o_counters) kind) (match w.(w_counters) with Some old => snap_get old kind | None => 0 end).

Definition blocked_reference (s : CounterSnapshot) : string :=
  "counter:" +:+ s.(cs_table) +:+ ":blocked_range:" +:+ decimal s.(blocked_range).
Definition denied_reference (s : CounterSnapshot) : string :=
  "counter:" +:+ s.(cs_table) +:+ ":denied:" +:+ decimal s.(blocked_range) +:+ ":" +:+ decimal s.(other_denied)
  +:+ ":" +:+ decimal s.(ipv6).

Definition denied_delta (w : Watchdog) (o : GuardObservation) : Z :=
  saturating_add u64_max (saturating_add u64_max (delta w o BlockedRange_) (delta w o OtherDenied)) (delta w o Ipv6_).

(** The alerts and counts after the kernel's counters. *)
Definition observe_counters (w : Watchdog) (o : GuardObservation) : gmap string RuleTrigger * gmap string RuleCount :=
  let blocked := delta w o BlockedRange_ in
  let alerts := if 0 <? blocked
                then {["blocked_range"%string := trigger (rc_add no_count blocked None (blocked_reference o.(o_counters)))
                                                  "blocked_range"]} else ∅ in
  let denied := denied_delta w o in
  let counts := if 0 <? denied
                then add_count (window_counts w o) "repeated_denied_connections" denied None (denied_reference o.(o_counters))
                else window_counts w o in
  (alerts, counts).

Definition observe (w : Watchdog) (o : GuardObservation) (now : Instant) : Watchdog * result GuardError.t WatchdogDecision :=
  match admissible w o now with
  | Err e => (w, Err e)
  | Ok _ =>
      let '(alerts, counts) :=
        observe_events w.(w_config) o.(observed_at) o.(o_start_sequence) o.(o_events) (observe_counters w o) in
      ({| w_identity := w.(w_identity); w_config := w.(w_config); w_sequence := o.(o_sequence); w_head := o.(o_head);
          w_counters := Some o.(o_counters); w_budget := Some o.(o_budget); w_fence := Some o.(o_fence);
          w_observed_at := Some o.(observed_at); w_window_start := Some (window_start w o); w_counts := counts |},
       Ok {| wd_identity := w.(w_identity); wd_fence := o.(o_fence); wd_observed_at := o.(observed_at);
             wd_event_sequence := o.(o_sequence); alerts := snd <$> in_order alerts;
             quarantine_rules := exceeded w.(w_config) counts |})
  end.

End Observing.

(** ** Incidents *)
Definition bounded_ascii (max : Z) (s : string) : bool :=
  negb ((max <? slen s) || negb (forallb (λ b, byte_of b <? 128) (chars s))
        || any_byte (λ b, (byte_of b <? 32) || (byte_of b =? 127)) s).

Definition validate_rules (rules : list RuleTrigger) : result GuardError.t () :=
  bail_if (MAX_RULES <? count rules)
          || existsb (λ r, negb (is_rule_name r.(rt_rule)) || (64 <? slen r.(rt_rule))
                           || (MAX_REFERENCES <? count r.(evidence_references))
                           || existsb (λ s, negb (bounded_ascii 256 s)) r.(evidence_references)) rules
    with GuardError.Integrity;
  Ok ().

Section Incidents.
Context `{Host}.

Definition reference_ok (i : GuardIncident) (reference : string) : result GuardError.t () :=
  match strip_prefix (chars "event:") (chars reference) with
  | None => Ok ()
  | Some rest =>
      let? parts := ok_or (split_once ":"%char rest) GuardError.Integrity in
      let? sequence := ok_or (parse_unsigned u64_max parts.1) GuardError.Integrity in
      let hash := string_of parts.2 in
      bail_if (sequence =? 0) || (i.(event_sequence) <? sequence) || negb (is_hash hash)
              || ((i.(event_start_sequence) <=? sequence)
                  && match i.(in_events) !! Z.to_nat (sequence - i.(event_start_sequence)) with
                     | Some e => negb (bool_decide (e.(current_hash) = hash))
                     | None => true
                     end)
        with GuardError.Integrity;
      Ok ()
  end.

Definition rule_ok (i : GuardIncident) (r : RuleTrigger) : result GuardError.t () :=
  bail_if match r.(first_event_sequence) with
          | Some sequence => (sequence =? 0) || (i.(event_sequence) <? sequence)
          | None => false
          end with GuardError.Integrity;
  each (reference_ok i) r.(evidence_references).

(** [is_none_or]: nothing, or something for which [p] holds. *)
Definition is_none_or {A} (o : option A) (p : A → bool) : bool := match o with None => true | Some a => p a end.
Definition is_some_and {A} (o : option A) (p : A → bool) : bool := match o with None => false | Some a => p a end.

Definition validate_incident (i : GuardIncident) : result GuardError.t () :=
  let? _ := validate_rules i.(in_rules) in
  let? after := ok_or (checked_sub i.(event_start_sequence) 1) GuardError.Integrity in
  let? _ := validate_event_page i.(in_identity) i.(in_events) after i.(event_previous_hash) i.(event_sequence) i.(event_head) in
  bail_if (i.(in_id) =? 0)%N || (i.(in_fence).(lease_id) =? 0)%N || (i.(in_fence).(generation) <? 0)
          || is_some_and i.(snapshot_id) (λ s, negb (bounded_ascii 256 s))
          || (32 <? count i.(in_errors)) || existsb (λ s, 512 <? slen s) i.(in_errors)
    with GuardError.Integrity;
  let? _ := each (rule_ok i) i.(in_rules) in
  bail_if is_some_and i.(network_cut_at) (λ t, t <? i.(triggered_at))
          || is_some_and i.(paused_at) (λ t, is_none_or i.(network_cut_at) (λ cut, t <? cut))
          || is_some_and i.(completed_at) (λ t,
               is_none_or i.(paused_at) (λ pause, t <? pause) || bool_decide (i.(snapshot_id) = None))
    with GuardError.Integrity;
  Ok ().

End Incidents.

(** ** Histories *)
(** A watchdog and the observations it has accepted. *)
Section Histories.
Context `{Host} `{Texts} `{Entropy}.

Inductive watched : Watchdog → list GuardObservation → Prop :=
| watched_new i c w : new_watchdog i c = Ok w → watched w []
| watched_accepted w os o now w' d : watched w os → observe w o now = (w', Ok d) → watched w' (os ++ [o])
| watched_rejected w os o now w' e : watched w os → observe w o now = (w', Err e) → watched w' os.

Lemma observe_ok w o now w' d :
  observe w o now = (w', Ok d) →
  admissible w o now = Ok ()
  ∧ let '(al, counts) := observe_events w.(w_config) o.(observed_at) o.(o_start_sequence) o.(o_events) (observe_counters w o) in
    w' = {| w_identity := w.(w_identity); w_config := w.(w_config); w_sequence := o.(o_sequence); w_head := o.(o_head);
            w_counters := Some o.(o_counters); w_budget := Some o.(o_budget); w_fence := Some o.(o_fence);
            w_observed_at := Some o.(observed_at); w_window_start := Some (window_start w o); w_counts := counts |}
    ∧ d.(alerts) = snd <$> in_order al ∧ d.(quarantine_rules) = exceeded w.(w_config) counts.
Proof.
  unfold observe. destruct (admissible w o now) as [[]|e]; [|done]. destruct (observe_events _ _ _ _ _) as [al counts].
  intros [= <- <-]. done.
Qed.

Lemma observe_err w o now w' e : observe w o now = (w', Err e) → w' = w.
Proof. unfold observe. destruct (admissible w o now); [by destruct (observe_events _ _ _ _ _)|]. by intros [= ->]. Qed.

(** What an admissible observation has passed. *)
Record passed (w : Watchdog) (o : GuardObservation) : Prop := {
  passed_identity : o.(o_identity) = w.(w_identity);
  passed_budget_identity : o.(o_budget).(b_identity) = w.(w_identity);
  passed_fence : fence_ok w o = true;
  passed_budget : budget_ok w o = true;
  passed_time t : w.(w_observed_at) = Some t → t ≤ o.(observed_at);
  passed_table : o.(o_counters).(cs_table) = watched_table w.(w_identity);
  passed_counters old kind : w.(w_counters) = Some old → snap_get old kind ≤ snap_get o.(o_counters) kind;
  passed_start : 1 ≤ o.(o_start_sequence);
  passed_cursor : is_Some w.(w_observed_at) →
    o.(o_start_sequence) - 1 = w.(w_sequence) ∧ o.(o_previous_hash) = w.(w_head);
  passed_page : validate_event_page w.(w_identity) o.(o_events) (o.(o_start_sequence) - 1) o.(o_previous_hash)
                  o.(o_sequence) o.(o_head) = Ok () }.

Lemma admissible_passed w o now : admissible w o now = Ok () → passed w o.
Proof.
  unfold admissible. intros Hok. cbv zeta in Hok. ok_inv Hok.
  repeat match goal with E : _ || _ = false |- _ => apply orb_false_iff in E as [? ?] end.
  repeat match goal with E : negb _ = false |- _ => apply negb_false_iff in E end.
  repeat match goal with E : bool_decide _ = true |- _ => apply bool_decide_eq_true in E end.
  match goal with E : ok_or (checked_sub _ _) _ = Ok ?a |- _ =>
    unfold checked_sub in E; destruct (Z.leb_spec 1 o.(o_start_sequence)); [|discriminate E]; injection E as <- end.
  constructor; try done.
  - intros t Ht. rewrite Ht in *. match goal with E : (_ <? t) = false |- _ => apply Z.ltb_ge in E end. done.
  - intros old kind Hold. match goal with E : existsb (rolled_back w o) ALL = false |- _ => rename E into Hr end.
    unfold rolled_back in Hr. rewrite Hold in Hr. destruct (Z.le_gt_cases (snap_get old kind) (snap_get o.(o_counters) kind)) as [|Hlt]; [done|].
    exfalso. apply not_true_iff_false in Hr. apply Hr, existsb_exists. exists kind. split; [by destruct kind; cbn; auto 6|by apply Z.ltb_lt].
  - intros Hs. match goal with E : bool_decide (is_Some _) && _ = false |- _ => rename E into Hc end.
    rewrite bool_decide_eq_true_2 in Hc by done. cbn [andb] in Hc. apply orb_false_iff in Hc as [Ha%negb_false_iff Hb%negb_false_iff].
    apply Z.eqb_eq in Ha. by apply bool_decide_eq_true in Hb.
Qed.

(** The hash a chain from [anchor] ends in. *)
Definition head_from (anchor : string) (events : list GuardEvent) : string := from_option current_hash anchor (last events).

Definition belongs (i : GuardIdentity) (e : GuardEvent) : Prop :=
  e.(sandbox_id) = i.(gi_sandbox_id) ∧ e.(tenant_id) = i.(gi_tenant_id) ∧ e.(policy_hash) = i.(gi_policy_hash)
  ∧ verify_bounds e = Ok ().

Lemma head_from_cons anchor e events : head_from anchor (e :: events) = head_from e.(current_hash) events.
Proof. unfold head_from. destruct events as [|e' events]; [done|]. rewrite last_cons. by destruct (last_is_Some (e' :: events)) as [_ [x ->]]. Qed.

Lemma follow_ok i previous events reached :
  follow i previous events = Ok reached →
  verify_from previous events = Ok () ∧ reached = head_from previous events ∧ Forall (belongs i) events.
Proof.
  revert previous. induction events as [|e events IH]; intros previous Hf; cbn [follow verify_from] in *.
  { injection Hf as <-. split_and!; [done|done|constructor]. }
  ok_inv Hf. repeat match goal with E : _ || _ = false |- _ => apply orb_false_iff in E as [? ?] end.
  repeat match goal with E : negb _ = false |- _ => apply negb_false_iff in E end.
  repeat match goal with E : bool_decide _ = true |- _ => apply bool_decide_eq_true in E end.
  repeat match goal with E : (_ =? _)%N = true |- _ => apply N.eqb_eq in E end.
  destruct (IH _ Hf) as (Hv & -> & Hb). rewrite bool_decide_eq_true_2 by done. cbn [negb].
  split_and!; [|by rewrite head_from_cons|by constructor]. exact Hv.
Qed.

Lemma verify_from_join anchor xs ys :
  verify_from anchor xs = Ok () → verify_from (head_from anchor xs) ys = Ok () → verify_from anchor (xs ++ ys) = Ok ().
Proof.
  revert anchor. induction xs as [|e xs IH]; intros anchor Hx Hy; [done|]. cbn [app verify_from] in *. ok_inv Hx.
  rewrite head_from_cons in Hy. by apply IH.
Qed.

Lemma head_from_app anchor xs ys : head_from anchor (xs ++ ys) = head_from (head_from anchor xs) ys.
Proof. revert anchor. induction xs as [|e xs IH]; intros anchor; [done|]. cbn [app]. by rewrite !head_from_cons. Qed.

Lemma page_ok i events after previous total head :
  validate_event_page i events after previous total head = Ok () →
  total = after + count events ∧ total ≤ u64_max ∧ (after = 0 → previous = GENESIS_HASH)
  ∧ verify_from previous events = Ok () ∧ head = head_from previous events ∧ Forall (belongs i) events.
Proof.
  unfold validate_event_page. intros Hv. ok_inv Hv.
  repeat match goal with E : _ || _ = false |- _ => apply orb_false_iff in E as [? ?] end.
  repeat match goal with E : negb _ = false |- _ => apply negb_false_iff in E end.
  repeat match goal with E : bool_decide _ = true |- _ => apply bool_decide_eq_true in E end.
  match goal with E : checked_add _ _ _ = Some _ |- _ => unfold checked_add in E;
    destruct (Z.leb_spec (after + count events) u64_max); [injection E as <-|discriminate E] end.
  match goal with E : follow _ _ _ = Ok _ |- _ => apply follow_ok in E as (? & -> & ?) end.
  split_and!; try done. intros ->. match goal with E : (0 =? 0) && _ = false |- _ => cbn [Z.eqb andb] in E; apply negb_false_iff, bool_decide_eq_true in E end. done.
Qed.

(** What the state remembers: the last accepted observation. *)
Lemma watched_state w os : watched w os →
  match last os with
  | Some o => w.(w_sequence) = o.(o_sequence) ∧ w.(w_head) = o.(o_head) ∧ w.(w_counters) = Some o.(o_counters)
              ∧ w.(w_budget) = Some o.(o_budget) ∧ w.(w_fence) = Some o.(o_fence) ∧ w.(w_observed_at) = Some o.(observed_at)
  | None => w.(w_counters) = None ∧ w.(w_observed_at) = None ∧ w.(w_window_start) = None ∧ w.(w_counts) = ∅
  end.
Proof.
  induction 1 as [i c w Hn|w os o now w' d _ _ Ho|w os o now w' e _ IH Ho].
  - unfold new_watchdog in Hn. ok_inv Hn. by injection Hn as <-.
  - apply observe_ok in Ho as [_ Ho]. destruct (observe_events _ _ _ _ _) as [al counts]. destruct Ho as (-> & _).
    by rewrite last_snoc.
  - by rewrite (observe_err _ _ _ _ _ Ho).
Qed.

Lemma watched_valid w os : watched w os → validate_config w.(w_config) = Ok () ∧ valid_identity w.(w_identity) = Ok ().
Proof.
  induction 1 as [i c w Hn|w os o now w' d _ IH Ho|w os o now w' e _ IH Ho].
  - unfold new_watchdog in Hn. ok_inv Hn. by injection Hn as <-.
  - apply observe_ok in Ho as [_ Ho]. destruct (observe_events _ _ _ _ _) as [al counts]. by destruct Ho as (-> & _).
  - by rewrite (observe_err _ _ _ _ _ Ho).
Qed.

Definition trail (os : list GuardObservation) : list GuardEvent := mjoin (o_events <$> os).

Lemma trail_snoc os o : trail (os ++ [o]) = trail os ++ o.(o_events).
Proof. unfold trail. rewrite fmap_app, join_app. f_equal. apply app_nil_r. Qed.

(** The accepted pages as one chain of the watched guest, from the first page's anchor. *)
Lemma watched_chain w os first : watched w os → head os = Some first →
  verify_from first.(o_previous_hash) (trail os) = Ok ()
  ∧ w.(w_head) = head_from first.(o_previous_hash) (trail os)
  ∧ w.(w_sequence) = first.(o_start_sequence) - 1 + count (trail os)
  ∧ w.(w_sequence) ≤ u64_max
  ∧ (first.(o_start_sequence) = 1 → first.(o_previous_hash) = GENESIS_HASH)
  ∧ Forall (belongs w.(w_identity)) (trail os).
Proof.
  intros Hw. revert first. induction Hw as [i c w Hn|w os o now w' d Hw IH Ho|w os o now w' e Hw IH Ho]; intros first Hf.
  - done.
  - pose proof (watched_state _ _ Hw) as Hs. apply observe_ok in Ho as [Ha Ho]. apply admissible_passed in Ha.
    destruct (observe_events _ _ _ _ _) as [al counts]. destruct Ho as (-> & _). cbn [w_head w_sequence w_identity].
    destruct (page_ok _ _ _ _ _ _ (passed_page _ _ Ha)) as (Hseq & Hle & Hg & Hv & Hh & Hb).
    rewrite trail_snoc. destruct os as [|o0 os].
    + injection Hf as <-. change (trail [] ++ o.(o_events)) with o.(o_events). split_and!; try done; try lia.
      intros Hone. apply Hg. lia.
    + injection Hf as <-. destruct (IH o0 eq_refl) as (Hv0 & Hh0 & Hs0 & _ & Hg0 & Hb0).
      destruct (last (o0 :: os)) as [l|] eqn:Hlast; [|by apply last_None in Hlast].
      destruct Hs as (Hs1 & Hs2 & _ & _ & _ & Hs3). destruct (passed_cursor _ _ Ha) as [Hc1 Hc2]; [by rewrite Hs3|].
      rewrite Hc2, Hh0 in Hv, Hh. split_and!; try done.
      * by apply verify_from_join.
      * by rewrite head_from_app.
      * rewrite count_app. lia.
      * by apply Forall_app_2.
  - rewrite (observe_err _ _ _ _ _ Ho). by apply IH.
Qed.

(** Nothing the watchdog relies on goes back from one accepted observation to a later one. *)
Record not_before (a b : GuardObservation) : Prop := {
  nb_time : a.(observed_at) ≤ b.(observed_at);
  nb_sequence : a.(o_sequence) ≤ b.(o_sequence);
  nb_counters kind : snap_get a.(o_counters) kind ≤ snap_get b.(o_counters) kind;
  nb_lease : a.(o_fence).(lease_id) = b.(o_fence).(lease_id);
  nb_generation : a.(o_fence).(generation) ≤ b.(o_fence).(generation);
  nb_limits : a.(o_budget).(b_expires_at) = b.(o_budget).(b_expires_at)
    ∧ a.(o_budget).(max_model_requests_cap) = b.(o_budget).(max_model_requests_cap)
    ∧ a.(o_budget).(max_bytes_in) = b.(o_budget).(max_bytes_in) ∧ a.(o_budget).(max_bytes_out) = b.(o_budget).(max_bytes_out);
  nb_usage : a.(o_budget).(model_requests) ≤ b.(o_budget).(model_requests)
    ∧ a.(o_budget).(b_bytes_in) ≤ b.(o_budget).(b_bytes_in) ∧ a.(o_budget).(b_bytes_out) ≤ b.(o_budget).(b_bytes_out);
  nb_quarantined : a.(o_budget).(quarantined) = true → b.(o_budget).(quarantined) = true }.

Lemma not_before_trans a b c : not_before a b → not_before b c → not_before a c.
Proof.
  intros [A1 A2 A3 A4 A5 (L1 & L2 & L3 & L4) (U1 & U2 & U3) AQ] [B1 B2 B3 B4 B5 (M1 & M2 & M3 & M4) (V1 & V2 & V3) BQ].
  split; [lia|lia| |congruence|lia| | |].
  - intros kind. etrans; [apply A3|apply B3].
  - split_and!; congruence.
  - split_and!; lia.
  - intros Hq. by apply BQ, AQ.
Qed.

Lemma passed_not_before w o l : passed w o →
  w.(w_sequence) = l.(o_sequence) → w.(w_counters) = Some l.(o_counters) → w.(w_budget) = Some l.(o_budget) →
  w.(w_fence) = Some l.(o_fence) → w.(w_observed_at) = Some l.(observed_at) → not_before l o.
Proof.
  intros Hp Hs Hc Hb Hf Ho. pose proof (passed_fence _ _ Hp) as Hfe. pose proof (passed_budget _ _ Hp) as Hbu.
  unfold fence_ok in Hfe. unfold budget_ok in Hbu. rewrite Hf in Hfe. rewrite Hb in Hbu. cbn zeta in Hbu.
  apply negb_true_iff in Hfe, Hbu.
  repeat match goal with E : _ || _ = false |- _ => apply orb_false_iff in E as [? ?] end.
  repeat match goal with E : negb _ = false |- _ => apply negb_false_iff in E end.
  repeat match goal with E : (_ =? _) = true |- _ => apply Z.eqb_eq in E end.
  repeat match goal with E : (_ <? _) = false |- _ => apply Z.ltb_ge in E end.
  repeat match goal with E : (_ =? _)%N = true |- _ => apply N.eqb_eq in E end.
  destruct (page_ok _ _ _ _ _ _ (passed_page _ _ Hp)) as (Hseq & _). pose proof (count_nonneg o.(o_events)).
  destruct (passed_cursor _ _ Hp) as [Hcur _]; [by rewrite Ho|].
  split; try done; try lia.
  - by apply (passed_time _ _ Hp).
  - intros kind. by apply (passed_counters _ _ Hp).
  - intros Hq. match goal with E : _ && negb _ = false |- _ => rewrite Hq in E; cbn in E; by apply negb_false_iff in E end.
Qed.

Lemma watched_sorted w os : watched w os → StronglySorted not_before os.
Proof.
  induction 1 as [i c w Hn|w os o now w' d Hw IH Ho|w os o now w' e Hw IH Ho]; [constructor| |done].
  pose proof (watched_state _ _ Hw) as Hs. apply observe_ok in Ho as [Ha _]. apply admissible_passed in Ha.
  apply StronglySorted_app. split_and!; [|done|by repeat constructor].
  intros x y Hx Hy%list_elem_of_singleton. subst y. destruct (last os) as [l|] eqn:Hlast; [|apply last_None in Hlast; subst; by apply elem_of_nil in Hx].
  destruct Hs as (Hs1 & _ & Hs2 & Hs3 & Hs4 & Hs5). pose proof (passed_not_before w o l Ha Hs1 Hs2 Hs3 Hs4 Hs5) as Hl.
  apply last_Some in Hlast as [pre ->]. apply elem_of_app in Hx as [Hx|Hx%list_elem_of_singleton]; [|by subst].
  eapply not_before_trans; [|exact Hl]. by eapply (StronglySorted_app_1_elem_of _ pre [l]); [exact IH|exact Hx|apply list_elem_of_here].
Qed.

End Histories.

(** ** What a window holds *)
Section Windows.
Context `{Host} `{Texts} `{Entropy}.

(** The reference: the hits of the current window, as a plain list. *)
Record Window := { opened : option Instant; log : list (string * Z); seen : option CounterSnapshot }.

Definition since (previous : option CounterSnapshot) (s : CounterSnapshot) (kind : CounterKind) : Z :=
  saturating_sub (snap_get s kind) (match previous with Some old => snap_get old kind | None => 0 end).

Definition contribution (c : WatchdogConfig) (previous : option CounterSnapshot) (o : GuardObservation) : list (string * Z) :=
  ("repeated_denied_connections"%string,
   saturating_add u64_max (saturating_add u64_max (since previous o.(o_counters) BlockedRange_)
     (since previous o.(o_counters) OtherDenied)) (since previous o.(o_counters) Ipv6_))
  :: (e ← base.filter (λ e, is_recent c o.(observed_at) e = true) o.(o_events); event_hits c e).

Definition window_step (c : WatchdogConfig) (win : Window) (o : GuardObservation) : Window :=
  let continues := match win.(opened) with
                   | Some start => secs_since o.(observed_at) start <? c.(window_seconds)
                   | None => false
                   end in
  {| opened := if continues then win.(opened) else Some o.(observed_at);
     log := (if continues then win.(log) else []) ++ contribution c win.(seen) o;
     seen := Some o.(o_counters) |}.

Definition window_of (c : WatchdogConfig) (os : list GuardObservation) : Window :=
  foldl (window_step c) {| opened := None; log := []; seen := None |} os.

Fixpoint total (rule : string) (hits : list (string * Z)) : Z :=
  match hits with [] => 0 | h :: hits => (if bool_decide (h.1 = rule) then h.2 else 0) + total rule hits end.

Lemma hits_total_app rule l k : total rule (l ++ k) = total rule l + total rule k.
Proof. induction l as [|h l IH]; cbn [total app]; [lia|]. rewrite IH. lia. Qed.

Definition count_of (counts : gmap string RuleCount) (rule : string) : Z :=
  from_option rc_count 0 (counts !! rule).

(** The values at their types: byte counts and packet counts are [u64]. *)
Definition typed_event (e : GuardEvent) : Prop := is_u64 e.(request_bytes) ∧ is_u64 e.(response_bytes).
Definition typed_observation (o : GuardObservation) : Prop :=
  Forall typed_event o.(o_events) ∧ ∀ kind, is_u64 (snap_get o.(o_counters) kind).

Lemma count_of_add counts rule amount sequence reference rule' :
  count_of (add_count counts rule amount sequence reference) rule' =
    if bool_decide (rule = rule') then saturating_add u64_max (count_of counts rule') amount else count_of counts rule'.
Proof.
  unfold count_of, add_count. case_bool_decide as Hr; [subst; rewrite lookup_insert_eq|by rewrite lookup_insert_ne].
  cbn. by destruct (counts !! rule').
Qed.

Lemma total_nonneg rule hits : Forall (λ h, 0 ≤ h.2) hits → 0 ≤ total rule hits.
Proof. induction 1; cbn [total]; [lia|]. case_bool_decide; lia. Qed.

Lemma foldl_hit_counts r sequence reference hits st rule :
  Forall (λ h, 0 ≤ h.2) hits → count_of st.2 rule ≤ u64_max →
  count_of (foldl (hit r sequence reference) st hits).2 rule =
    if r then Z.min u64_max (count_of st.2 rule + total rule hits) else count_of st.2 rule.
Proof.
  intros Hh. revert st. induction Hh as [|[n a] hits Ha Hh IH]; intros [al counts] Hc; cbn [foldl total fst snd] in *.
  { destruct r; lia. }
  pose proof (total_nonneg rule hits Hh). cbn [hit]. destruct r; rewrite IH; cbn [fst snd]; try done.
  - rewrite count_of_add. case_bool_decide; unfold saturating_add; lia.
  - rewrite count_of_add. unfold saturating_add. case_bool_decide; lia.
Qed.

Lemma event_hits_nonneg c e : typed_event e → Forall (λ h, 0 ≤ h.2) (event_hits c e).
Proof.
  intros [Hq Hr]. unfold is_u64 in *. unfold event_hits. cbv zeta.
  repeat first [apply Forall_app_2 | case_match | apply Forall_cons_2 | apply Forall_nil_2]; cbn [snd]; try lia;
    unfold saturating_add, u64_max in *; lia.
Qed.

Lemma observe_events_counts c at_ sequence events st rule :
  Forall typed_event events → count_of st.2 rule ≤ u64_max →
  count_of (observe_events c at_ sequence events st).2 rule =
    Z.min u64_max (count_of st.2 rule + total rule (e ← base.filter (λ e, is_recent c at_ e = true) events; event_hits c e)).
Proof.
  intros Ht. revert sequence st. induction Ht as [|e events He Ht IH]; intros sequence st Hc; cbn [observe_events].
  { cbn. lia. }
  pose proof (foldl_hit_counts (is_recent c at_ e) sequence (event_reference sequence e) (event_hits c e) st rule
    (event_hits_nonneg c e He) Hc) as Hf. pose proof (total_nonneg rule _ (event_hits_nonneg c e He)).
  assert (Hrest : 0 ≤ total rule (e ← base.filter (λ e, is_recent c at_ e = true) events; event_hits c e)).
  { apply total_nonneg. apply Forall_forall. intros h (x & Hh & Hx)%list_elem_of_bind. apply list_elem_of_filter in Hx as [_ Hx].
    rewrite Forall_forall in Ht. specialize (Ht _ Hx). pose proof (event_hits_nonneg c x Ht) as Hn. rewrite Forall_forall in Hn. by apply Hn. }
  rewrite IH by (rewrite Hf; case_match; lia). rewrite Hf. destruct (is_recent c at_ e) eqn:Hr.
  - rewrite filter_cons_True by done. rewrite bind_cons, hits_total_app. lia.
  - rewrite filter_cons_False by (rewrite Hr; done). done.
Qed.

Lemma contribution_nonneg c previous o : typed_observation o → Forall (λ h, 0 ≤ h.2) (contribution c previous o).
Proof.
  intros [He _]. constructor.
  - cbn [snd]. unfold saturating_add, since, saturating_sub, u64_max. lia.
  - apply Forall_forall. intros h (x & Hh & Hx)%list_elem_of_bind. apply list_elem_of_filter in Hx as [_ Hx].
    rewrite Forall_forall in He. pose proof (event_hits_nonneg c x (He _ Hx)) as Hn. rewrite Forall_forall in Hn. by apply Hn.
Qed.

Lemma log_nonneg c os : Forall typed_observation os → Forall (λ h, 0 ≤ h.2) (window_of c os).(log).
Proof.
  induction os as [|o os IH] using rev_ind; intros Ht; [constructor|].
  apply Forall_app in Ht as [Ht Ho]. rewrite Forall_singleton in Ho. unfold window_of. rewrite foldl_app. cbn [foldl].
  fold (window_of c os). unfold window_step. cbn [log].
  apply Forall_app_2; [case_match; [by apply IH|apply Forall_nil_2]|by apply contribution_nonneg].
Qed.

(** An observation adds its contribution to the counts it starts from. *)
Lemma observe_counts w o rule :
  typed_observation o → 0 ≤ count_of (window_counts w o) rule ≤ u64_max →
  count_of (observe_events w.(w_config) o.(observed_at) o.(o_start_sequence) o.(o_events) (observe_counters w o)).2 rule
    = Z.min u64_max (count_of (window_counts w o) rule + total rule (contribution w.(w_config) w.(w_counters) o)).
Proof.
  intros Ho Hc. pose proof (contribution_nonneg w.(w_config) w.(w_counters) o Ho) as Hn.
  unfold contribution in Hn |- *. apply Forall_cons in Hn as [Hd Hn]. pose proof (total_nonneg rule _ Hn) as Ht.
  fold (since w.(w_counters) o.(o_counters)) in *.
  assert (Hmid : count_of (observe_counters w o).2 rule =
    Z.min u64_max (count_of (window_counts w o) rule +
      (if bool_decide ("repeated_denied_connections"%string = rule) then denied_delta w o else 0))).
  { unfold observe_counters. cbn [snd]. change (delta w o) with (since w.(w_counters) o.(o_counters)) in *.
    assert (Hge : 0 ≤ denied_delta w o) by exact Hd.
    destruct (Z.ltb_spec 0 (denied_delta w o)).
    - rewrite count_of_add. unfold saturating_add. case_bool_decide; lia.
    - case_bool_decide; lia. }
  rewrite observe_events_counts; [|apply Ho|rewrite Hmid; lia]. rewrite Hmid. cbn [total fst snd].
  change (saturating_add u64_max (saturating_add u64_max (since w.(w_counters) o.(o_counters) BlockedRange_)
    (since w.(w_counters) o.(o_counters) OtherDenied)) (since w.(w_counters) o.(o_counters) Ipv6_)) with (denied_delta w o) in *.
  case_bool_decide; cbn in Hd; lia.
Qed.

Lemma watched_window w os : watched w os → Forall typed_observation os →
  let win := window_of w.(w_config) os in
  w.(w_window_start) = win.(opened) ∧ w.(w_counters) = win.(seen)
  ∧ ∀ rule, count_of w.(w_counts) rule = Z.min u64_max (total rule win.(log)).
Proof.
  induction 1 as [i c w Hn|w os o now w' d Hw IH Ho|w os o now w' e Hw IH Ho]; intros Ht.
  - unfold new_watchdog in Hn. ok_inv Hn. by injection Hn as <-.
  - apply Forall_app in Ht as [Ht Hto]. rewrite Forall_singleton in Hto. specialize (IH Ht). destruct IH as (Hs & Hc & Hk).
    apply observe_ok in Ho as [_ Ho]. pose proof (observe_counts w o) as Hcounts.
    destruct (observe_events _ _ _ _ _) as [al counts]. destruct Ho as (-> & _). cbn [snd] in Hcounts.
    cbn [w_window_start w_counters w_counts w_config]. unfold window_of. rewrite foldl_app. cbn [foldl].
    fold (window_of w.(w_config) os). unfold window_step. cbn [opened seen log]. rewrite <-Hs, <-Hc.
    unfold window_start, window_counts, same_window in *. pose proof (λ rule, total_nonneg rule _ (log_nonneg w.(w_config) os Ht)) as Hlog.
    destruct w.(w_window_start) as [start|]; [destruct (secs_since o.(observed_at) start <? w.(w_config).(window_seconds))|];
      (split_and!; [done|done|]); intros rule; rewrite Hcounts by (try done; rewrite ?Hk; specialize (Hlog rule); cbn; unfold u64_max; lia).
    + rewrite hits_total_app, Hk. pose proof (total_nonneg rule _ (contribution_nonneg w.(w_config) w.(w_counters) o Hto)). lia.
    + cbn [app]. f_equal.
    + cbn [app]. f_equal.
  - rewrite (observe_err _ _ _ _ _ Ho). by apply IH.
Qed.

Definition typed_config (c : WatchdogConfig) : Prop :=
  0 ≤ c.(denied_threshold) ∧ 0 ≤ c.(nxdomain_threshold) ∧ 0 ≤ c.(suspicious_dns_threshold)
  ∧ 0 ≤ c.(credential_misuse_threshold) ∧ 0 ≤ c.(model_requests_threshold) ∧ 0 ≤ c.(model_bytes_threshold).

Lemma threshold_bounds c rule : validate_config c = Ok () → typed_config c → 1 ≤ threshold c rule ≤ 1000000000000.
Proof.
  intros Hv (T1 & T2 & T3 & T4 & T5 & T6). unfold validate_config in Hv. cbv zeta in Hv. ok_inv Hv.
  repeat match goal with E : _ || _ = false |- _ => apply orb_false_iff in E as [? ?] end.
  match goal with E : existsb _ [_; _; _; _; _; _; _] = false |- _ => cbn [existsb] in E end.
  repeat match goal with E : _ || _ = false |- _ => apply orb_false_iff in E as [? ?] end.
  repeat match goal with E : (_ =? _) = false |- _ => apply Z.eqb_neq in E end.
  repeat match goal with E : (1000000000000 <? _) = false |- _ => apply Z.ltb_ge in E end.
  unfold threshold. repeat case_match; lia.
Qed.

Lemma in_order_elem {A} (m : gmap string A) rule a : (rule, a) ∈ in_order m ↔ m !! rule = Some a.
Proof. unfold in_order. rewrite sort_by_perm. apply elem_of_map_to_list. Qed.

Lemma exceeded_elem c counts r :
  r ∈ exceeded c counts ↔
    ∃ rc, counts !! r.(rt_rule) = Some rc ∧ threshold c r.(rt_rule) ≤ rc.(rc_count) ∧ r = trigger rc r.(rt_rule).
Proof.
  unfold exceeded. rewrite list_elem_of_fmap. split.
  - intros ([rule rc] & -> & [Hc Hin]%list_elem_of_filter). apply in_order_elem in Hin. by exists rc.
  - intros (rc & Hr & Hc & He). exists (r.(rt_rule), rc). split; [exact He|]. apply list_elem_of_filter.
    split; [exact Hc|]. by apply in_order_elem.
Qed.

End Windows.

(** ** Evidence *)
Section Evidence.
Context `{Hh : Host} `{!HostLaws Hh} `{T : Texts} `{!TextsLaws T} `{Entropy}.

(** The event a history has at a sequence number. *)
Definition at_position (os : list GuardObservation) (q : Z) (e : GuardEvent) : Prop :=
  ∃ first, head os = Some first ∧ first.(o_start_sequence) ≤ q
    ∧ trail os !! Z.to_nat (q - first.(o_start_sequence)) = Some e.

(** What a reference may say: a reading of the guest's own counters, or an accepted event. *)
Definition evidence (i : GuardIdentity) (os : list GuardObservation) (s : string) : Prop :=
  (∃ snap, snap.(cs_table) = watched_table i ∧ (∀ kind, is_u64 (snap_get snap kind))
     ∧ (s = blocked_reference snap ∨ s = denied_reference snap))
  ∨ ∃ q e, at_position os q e ∧ s = event_reference q e.

Definition rule_names : list string :=
  ["blocked_range"; "repeated_denied_connections"; "nxdomain_burst"; "forbidden_record_type"; "unexpected_domain";
   "long_dns_name"; "high_entropy_dns_label"; "credential_misuse"; "abnormal_model_rate"; "abnormal_model_bytes";
   "large_request"]%string.

Definition sound_first (os : list GuardObservation) (q : option Z) : Prop :=
  from_option (λ q, ∃ e, at_position os q e) True q.

Record sound_trigger (i : GuardIdentity) (os : list GuardObservation) (r : RuleTrigger) : Prop := {
  st_rule : r.(rt_rule) ∈ rule_names;
  st_first : sound_first os r.(first_event_sequence);
  st_bound : count r.(evidence_references) ≤ MAX_REFERENCES;
  st_evidence : Forall (evidence i os) r.(evidence_references) }.

Record sound_count (i : GuardIdentity) (os : list GuardObservation) (c : RuleCount) : Prop := {
  sc_first : sound_first os c.(rc_first);
  sc_bound : count c.(rc_references) ≤ MAX_REFERENCES;
  sc_evidence : Forall (evidence i os) c.(rc_references) }.

Definition sound_state (i : GuardIdentity) (os : list GuardObservation)
    (st : gmap string RuleTrigger * gmap string RuleCount) : Prop :=
  (∀ rule r, st.1 !! rule = Some r → r.(rt_rule) = rule ∧ sound_trigger i os r)
  ∧ ∀ rule c, st.2 !! rule = Some c → rule ∈ rule_names ∧ sound_count i os c.

Lemma at_position_extend os o q e : at_position os q e → at_position (os ++ [o]) q e.
Proof.
  intros (first & Hf & Hq & He). exists first. split_and!; [by destruct os|done|].
  rewrite trail_snoc. by apply lookup_app_l_Some.
Qed.

Lemma evidence_extend i os o s : evidence i os s → evidence i (os ++ [o]) s.
Proof. intros [?|(q & e & ? & ->)]; [by left|right; exists q, e; split; [by apply at_position_extend|done]]. Qed.

Lemma sound_count_extend i os o c : sound_count i os c → sound_count i (os ++ [o]) c.
Proof.
  intros [Hf Hb He]. split; [|done|].
  - destruct c.(rc_first) as [q|]; [|done]. destruct Hf as [e ?]. exists e. by apply at_position_extend.
  - eapply Forall_impl; [exact He|]. apply evidence_extend.
Qed.

Lemma sound_no_count i os : sound_count i os no_count.
Proof. split; [done|done|constructor]. Qed.

Lemma sound_add i os c amount sequence reference :
  sound_count i os c → sound_first os sequence → evidence i os reference →
  sound_count i os (rc_add c amount sequence reference).
Proof.
  intros [Hf Hb He] Hs Hr. split; cbn [rc_add rc_first rc_references].
  - by destruct c.(rc_first).
  - destruct (Z.ltb_spec (count c.(rc_references)) MAX_REFERENCES); cbn [andb]; [|done].
    case_match; [|done]. rewrite count_app. change (count [reference]) with 1. lia.
  - case_match; [|done]. apply Forall_app_2; [done|by apply Forall_singleton].
Qed.

Lemma event_hits_named c e : Forall (λ h, h.1 ∈ rule_names) (event_hits c e).
Proof.
  unfold event_hits. cbv zeta.
  repeat first [apply Forall_app_2 | case_match | apply Forall_cons_2 | apply Forall_nil_2]; cbn [fst];
    apply (bool_decide_unpack _); vm_compute; exact I.
Qed.

Lemma sound_add_count i os counts rule amount sequence reference :
  (∀ rule c, counts !! rule = Some c → rule ∈ rule_names ∧ sound_count i os c) → rule ∈ rule_names →
  sound_first os sequence → evidence i os reference →
  ∀ rule' c, add_count counts rule amount sequence reference !! rule' = Some c → rule' ∈ rule_names ∧ sound_count i os c.
Proof.
  intros Hc Hr Hs He rule' c Hl. unfold add_count in Hl. destruct (decide (rule = rule')) as [->|Hne].
  - rewrite lookup_insert_eq in Hl. simplify_eq. split; [done|]. apply sound_add; [|done|done].
    destruct (counts !! rule') as [c|] eqn:Hc'; [by destruct (Hc _ _ Hc')|apply sound_no_count].
  - rewrite lookup_insert_ne in Hl by done. by apply Hc.
Qed.

Lemma sound_hits i os r q e st hits :
  at_position os q e → Forall (λ h, h.1 ∈ rule_names) hits → sound_state i os st →
  sound_state i os (foldl (hit r q (event_reference q e)) st hits).
Proof.
  intros Hq Hn. revert st. induction Hn as [|[rule a] hits Hr _ IH]; intros [al counts] [Ha Hc]; cbn [foldl]; [done|].
  assert (Hev : evidence i os (event_reference q e)) by (right; by exists q, e).
  apply IH. cbn [hit fst snd] in *. split; cbn [fst snd].
  - intros rule' t Ht. destruct (al !! rule) eqn:Hal; [by apply Ha|]. destruct (decide (rule = rule')) as [->|Hne].
    + rewrite lookup_insert_eq in Ht. simplify_eq. split; [done|]. split; [done| |done|by apply Forall_singleton]. by exists e.
    + rewrite lookup_insert_ne in Ht by done. by apply Ha.
  - destruct r; [|done]. apply sound_add_count; [done|done|by exists e|done].
Qed.

Lemma sound_events i os c at_ sequence events st :
  (∀ j e, events !! j = Some e → at_position os (sequence + Z.of_nat j) e) → sound_state i os st →
  sound_state i os (observe_events c at_ sequence events st).
Proof.
  revert sequence st. induction events as [|e events IH]; intros sequence st Hp Hs; [done|]. cbn [observe_events].
  apply IH.
  - intros j e' He. replace (sequence + 1 + Z.of_nat j) with (sequence + Z.of_nat (S j)) by lia. by apply Hp.
  - apply sound_hits; [|apply event_hits_named|done]. specialize (Hp 0%nat e eq_refl). by rewrite Z.add_0_r in Hp.
Qed.

Lemma page_positions w os o j e :
  watched w os → passed w o → o.(o_events) !! j = Some e → at_position (os ++ [o]) (o.(o_start_sequence) + Z.of_nat j) e.
Proof.
  intros Hw Hp He. unfold at_position. destruct os as [|first os].
  - exists o. split_and!; [done|lia|]. change (trail ([] ++ [o])) with (o.(o_events) ++ []). rewrite app_nil_r.
    by replace (Z.to_nat (o.(o_start_sequence) + Z.of_nat j - o.(o_start_sequence))) with j by lia.
  - destruct (watched_chain w (first :: os) first Hw eq_refl) as (_ & _ & Hs & _).
    pose proof (watched_state _ _ Hw) as Hst. destruct (last (first :: os)) as [l|] eqn:Hl; [|by apply last_None in Hl].
    destruct Hst as (_ & _ & _ & _ & _ & Ho). destruct (passed_cursor _ _ Hp) as [Hc _]; [by rewrite Ho|].
    pose proof (count_nonneg (trail (first :: os))). exists first. split_and!; [done|lia|]. rewrite trail_snoc.
    rewrite lookup_app_r by (unfold count in *; lia). rewrite <-He. f_equal. unfold count in *. lia.
Qed.

Lemma sound_counters w os o :
  passed w o → typed_observation o →
  (∀ rule c, w.(w_counts) !! rule = Some c → rule ∈ rule_names ∧ sound_count w.(w_identity) os c) →
  sound_state w.(w_identity) (os ++ [o]) (observe_counters w o).
Proof.
  intros Hp [_ Hu] Hc. pose proof (passed_table _ _ Hp) as Ht.
  assert (Hold : ∀ rule c, window_counts w o !! rule = Some c → rule ∈ rule_names ∧ sound_count w.(w_identity) (os ++ [o]) c).
  { intros rule c Hl. unfold window_counts in Hl. destruct (same_window w o); [|done].
    destruct (Hc rule c Hl) as [? ?]. split; [done|by apply sound_count_extend]. }
  unfold observe_counters. split; cbn [fst snd].
  - intros rule r Hr. case_match; [|done]. apply lookup_singleton_Some in Hr as [<- <-]. split; [done|].
    assert (Hs : sound_count w.(w_identity) (os ++ [o]) (rc_add no_count (delta w o BlockedRange_) None (blocked_reference o.(o_counters)))).
    { apply sound_add; [apply sound_no_count|done|]. left. exists o.(o_counters). split_and!; [done|done|by left]. }
    destruct Hs as [Hs1 Hs2 Hs3]. split; [|done|done|done]. apply (bool_decide_unpack _). vm_compute. exact I.
  - case_match; [|done]. apply sound_add_count; [done| |done|].
    + apply (bool_decide_unpack _). vm_compute. exact I.
    + left. exists o.(o_counters). split_and!; [done|done|by right].
Qed.

Lemma watched_sound w os : watched w os → Forall typed_observation os →
  ∀ rule c, w.(w_counts) !! rule = Some c → rule ∈ rule_names ∧ sound_count w.(w_identity) os c.
Proof.
  induction 1 as [i c w Hn|w os o now w' d Hw IH Ho|w os o now w' e Hw IH Ho]; intros Ht rule rc Hl.
  - unfold new_watchdog in Hn. ok_inv Hn. by injection Hn as <-.
  - apply Forall_app in Ht as [Ht Hto]. rewrite Forall_singleton in Hto. apply observe_ok in Ho as [Ha Ho].
    apply admissible_passed in Ha. pose proof (sound_counters w os o Ha Hto (IH Ht)) as Hs.
    apply (sound_events _ _ w.(w_config) o.(observed_at) o.(o_start_sequence) o.(o_events)) in Hs;
      [|intros j e; by apply (page_positions w)].
    destruct (observe_events _ _ _ _ _) as [al counts]. destruct Ho as (-> & _). by apply Hs.
  - rewrite (observe_err _ _ _ _ _ Ho) in *. by apply IH.
Qed.

Lemma decision_sound w os o now w' d r :
  watched w os → Forall typed_observation (os ++ [o]) → observe w o now = (w', Ok d) →
  r ∈ d.(alerts) ∨ r ∈ d.(quarantine_rules) → sound_trigger w.(w_identity) (os ++ [o]) r.
Proof.
  intros Hw Ht Ho Hr. apply Forall_app in Ht as [Ht Hto]. rewrite Forall_singleton in Hto. apply observe_ok in Ho as [Ha Ho].
  apply admissible_passed in Ha. pose proof (sound_counters w os o Ha Hto (watched_sound w os Hw Ht)) as Hs.
  apply (sound_events _ _ w.(w_config) o.(observed_at) o.(o_start_sequence) o.(o_events)) in Hs;
    [|intros j e; by apply (page_positions w)].
  destruct (observe_events _ _ _ _ _) as [al counts]. destruct Ho as (_ & Hal & Hq). destruct Hs as [Hs1 Hs2].
  destruct Hr as [Hr|Hr]; [rewrite Hal in Hr|rewrite Hq in Hr].
  - apply list_elem_of_fmap in Hr as ([rule r'] & -> & Hin). apply in_order_elem in Hin. by apply (Hs1 rule).
  - apply exceeded_elem in Hr as (rc & Hl & _ & ->). destruct (Hs2 _ _ Hl) as [? []]. by split.
Qed.

(** Printable text of bounded length. *)
Definition safe (s : string) : Prop := forallb (in_range 32 126) (chars s) = true.

Lemma safe_app s t : safe s → safe t → safe (s +:+ t).
Proof. unfold safe. rewrite chars_app, forallb_app. by intros -> ->. Qed.

Lemma safe_class (p : ascii → bool) s : (∀ b, p b = true → in_range 32 126 b = true) → all_bytes p s = true → safe s.
Proof.
  intros Hp Hs. unfold safe. apply forallb_Forall. unfold all_bytes in Hs. apply forallb_Forall in Hs.
  eapply Forall_impl; [exact Hs|]. apply Hp.
Qed.

Lemma digit_safe b : is_ascii_digit b = true → in_range 32 126 b = true.
Proof. destruct b as [[] [] [] [] [] [] [] []]; vm_compute; congruence. Qed.
Lemma hex_safe b : is_ascii_hexdigit b = true → in_range 32 126 b = true.
Proof. destruct b as [[] [] [] [] [] [] [] []]; vm_compute; congruence. Qed.
Lemma lower_hex_hex b : is_lower_hex b = true → is_ascii_hexdigit b && negb (in_range 65 90 b) = true.
Proof. destruct b as [[] [] [] [] [] [] [] []]; vm_compute; congruence. Qed.

Lemma safe_decimal n : safe (decimal n).
Proof. apply (safe_class is_ascii_digit); [apply digit_safe|]. apply forallb_Forall, decimal_digits. Qed.

Lemma sha_is_hash s : is_sha256_hex s = true → is_hash s = true ∧ safe s.
Proof.
  unfold is_sha256_hex, is_hash. intros [Hl Hx]%andb_true_iff. rewrite Hl.
  assert (Hx' : all_bytes (λ b, is_ascii_hexdigit b && negb (in_range 65 90 b)) s = true).
  { unfold all_bytes in *. apply forallb_Forall. apply forallb_Forall in Hx. eapply Forall_impl; [exact Hx|]. apply lower_hex_hex. }
  split; [by rewrite Hx'|]. eapply safe_class; [|exact Hx']. intros b [Hb _]%andb_true_iff. by apply hex_safe.
Qed.

Lemma decimal_u64 n : is_u64 n → slen (decimal n) ≤ 20.
Proof. intros Hn. rewrite slen_chars. apply decimal_length; [lia|]. unfold is_u64, u64_max in Hn. lia. Qed.

Lemma safe_bounded max s : safe s → slen s ≤ max → bounded_ascii max s = true.
Proof.
  unfold safe, bounded_ascii, any_byte. intros Hs Hl. apply forallb_Forall in Hs. rewrite Forall_forall in Hs.
  rewrite (proj2 (Z.ltb_ge _ _)) by done. cbn [orb]. apply negb_true_iff, orb_false_iff. split.
  - apply negb_false_iff, List.forallb_forall. intros b Hb%list_elem_of_In. specialize (Hs b Hb). unfold in_range in Hs.
    apply andb_true_iff in Hs as [_ ?%Z.leb_le]. apply Z.ltb_lt. lia.
  - apply not_true_iff_false. intros (b & Hb%list_elem_of_In & Hc)%existsb_exists. specialize (Hs b Hb). unfold in_range in Hs.
    apply andb_true_iff in Hs as [?%Z.leb_le ?%Z.leb_le]. apply orb_true_iff in Hc as [?%Z.ltb_lt|?%Z.eqb_eq]; lia.
Qed.

Ltac constant_safe := unfold safe; vm_compute; reflexivity.

Lemma watched_table_shape i : is_uuid i.(gi_sandbox_id) → safe (watched_table i) ∧ slen (watched_table i) = 43.
Proof.
  intros Hi. destruct (simple_shape _ Hi) as [Hl Hx]. unfold watched_table, table_name. split.
  - apply safe_app; [constant_safe|]. by eapply safe_class; [apply hex_safe|].
  - rewrite slen_app, Hl. done.
Qed.

Lemma position_bounds w os q e : watched w os → at_position os q e → 1 ≤ q ≤ w.(w_sequence) ∧ is_u64 q ∧ belongs w.(w_identity) e.
Proof.
  intros Hw (first & Hf & Hq & He). destruct (watched_chain w os first Hw Hf) as (_ & _ & Hs & Hle & _ & Hb).
  apply lookup_lt_Some in He as Hlt. assert (Hfirst : 1 ≤ first.(o_start_sequence)).
  { clear -Hw Hf. revert first Hf. induction Hw as [i c w Hn|w os o now w' d Hw IH Ho|w os o now w' e Hw IH Ho]; intros first Hf; [done| |by apply IH].
    destruct os as [|o0 os]; [|by apply IH]. injection Hf as <-. apply observe_ok in Ho as [Ha _]. apply admissible_passed in Ha. apply Ha. }
  rewrite Forall_forall in Hb. split; [unfold count in *; lia|]. split; [unfold is_u64, count in *; lia|].
  eapply Hb, list_elem_of_lookup_2, He.
Qed.

Lemma evidence_text_bounded w os s :
  watched w os → is_uuid w.(w_identity).(gi_sandbox_id) → evidence w.(w_identity) os s → bounded_ascii 256 s = true.
Proof.
  intros Hw Hi [(snap & Ht & Hu & Hs)|(q & e & Hq & ->)].
  - destruct (watched_table_shape _ Hi) as [Hsafe Hl]. rewrite <-Ht in Hsafe, Hl.
    pose proof (decimal_u64 _ (Hu BlockedRange_)) as D1. pose proof (decimal_u64 _ (Hu OtherDenied)) as D2.
    pose proof (decimal_u64 _ (Hu Ipv6_)) as D3. cbn [snap_get] in D1, D2, D3.
    destruct Hs as [->| ->]; unfold blocked_reference, denied_reference; apply safe_bounded.
    1, 3: repeat first [apply safe_decimal | exact Hsafe | apply safe_app; [first [constant_safe|exact Hsafe|apply safe_decimal]|]].
    all: rewrite !slen_app, Hl; change (slen "counter:") with 8; change (slen ":blocked_range:") with 15;
      change (slen ":denied:") with 8; change (slen ":") with 1; lia.
  - destruct (position_bounds w os q e Hw Hq) as (_ & Hu & _ & _ & _ & Hb). unfold verify_bounds in Hb. ok_inv Hb.
    match goal with E : _ || _ = false |- _ => apply orb_false_iff in E as [_ Hc%negb_false_iff] end.
    apply sha_is_hash in Hc as [Hhash Hsafe]. unfold is_hash in Hhash. apply andb_true_iff in Hhash as [Hl%Z.eqb_eq _].
    unfold event_reference. apply safe_bounded.
    + apply safe_app; [constant_safe|]. apply safe_app; [apply safe_decimal|]. apply safe_app; [constant_safe|done].
    + rewrite !slen_app, Hl. pose proof (decimal_u64 q Hu). change (slen "event:") with 6. change (slen ":") with 1. lia.
Qed.

Lemma rule_names_valid : forallb (λ r, is_rule_name r && (slen r <=? 64)) rule_names = true.
Proof. vm_compute. reflexivity. Qed.

(** One trigger per rule, so few of them. *)
Lemma in_order_keys {A} (m : gmap string A) : NoDup (in_order m).*1.
Proof. unfold in_order. rewrite sort_by_perm. apply NoDup_fst_map_to_list. Qed.

Lemma few_triggers (rules : list RuleTrigger) :
  NoDup (rt_rule <$> rules) → (∀ r, r ∈ rules → r.(rt_rule) ∈ rule_names) → count rules ≤ 11.
Proof.
  intros Hd Hr. assert (Hs : rt_rule <$> rules ⊆+ rule_names).
  { apply NoDup_submseteq; [done|]. intros x (r & -> & Hin)%list_elem_of_fmap. by apply Hr. }
  apply submseteq_length in Hs. rewrite length_fmap in Hs. unfold count. change (length rule_names) with 11%nat in Hs. lia.
Qed.

Lemma exceeded_nodup c counts : NoDup (rt_rule <$> exceeded c counts).
Proof.
  unfold exceeded. rewrite <-list_fmap_compose.
  change (rt_rule ∘ (λ e : string * RuleCount, trigger e.2 e.1)) with (@fst string RuleCount).
  eapply sublist_NoDup; [apply (in_order_keys counts)|apply fmap_sublist, sublist_filter].
Qed.

(** Its own triggers pass the checks every incident's rules have to pass. *)
Lemma sound_rules_valid w os rules :
  watched w os → is_uuid w.(w_identity).(gi_sandbox_id) → NoDup (rt_rule <$> rules) →
  (∀ r, r ∈ rules → sound_trigger w.(w_identity) os r) → validate_rules rules = Ok ().
Proof.
  intros Hw Hi Hd Hs. unfold validate_rules. pose proof (few_triggers rules Hd (λ r Hr, st_rule _ _ _ (Hs r Hr))) as Hc.
  rewrite (proj2 (Z.ltb_ge _ _)) by (unfold MAX_RULES; lia). cbn [orb].
  enough (existsb (λ r, negb (is_rule_name r.(rt_rule)) || (64 <? slen r.(rt_rule))
            || (MAX_REFERENCES <? count r.(evidence_references))
            || existsb (λ s, negb (bounded_ascii 256 s)) r.(evidence_references)) rules = false) as -> by done.
  apply not_true_iff_false. intros (r & Hr%list_elem_of_In & Hx)%existsb_exists. destruct (Hs r Hr) as [Hn _ Hb He].
  pose proof rule_names_valid as Hv. rewrite forallb_Forall, Forall_forall in Hv. specialize (Hv _ Hn).
  apply andb_true_iff in Hv as [Hv1 Hv2%Z.leb_le]. rewrite Hv1 in Hx. cbn [negb orb] in Hx.
  rewrite (proj2 (Z.ltb_ge _ _)) in Hx by lia. cbn [orb] in Hx. rewrite (proj2 (Z.ltb_ge _ _)) in Hx by lia. cbn [orb] in Hx.
  apply existsb_exists in Hx as (s & Hin%list_elem_of_In & Hx). rewrite Forall_forall in He.
  by rewrite (evidence_text_bounded w os s Hw Hi (He s Hin)) in Hx.
Qed.

(** An incident's page holds the events of the history that fall into it. *)
Definition covers (os : list GuardObservation) (i : GuardIncident) : Prop :=
  ∀ q e, at_position os q e →
    q ≤ i.(event_sequence)
    ∧ (i.(event_start_sequence) ≤ q → i.(in_events) !! Z.to_nat (q - i.(event_start_sequence)) = Some e).

Lemma strip_prefix_app p s : strip_prefix p (p ++ s) = Some s.
Proof. unfold strip_prefix, starts_with. by rewrite take_app_length, drop_app_length, bool_decide_eq_true_2. Qed.

Lemma evidence_accepted w os i s :
  watched w os → covers os i → evidence w.(w_identity) os s → reference_ok i s = Ok ().
Proof.
  intros Hw Hc [(snap & _ & _ & Hs)|(q & e & Hq & ->)]; unfold reference_ok.
  - destruct Hs as [->| ->]; done.
  - destruct (position_bounds w os q e Hw Hq) as (Hpos & Hu & Hb). destruct (Hc q e Hq) as [Hle Hev].
    destruct Hb as (_ & _ & _ & Hb). unfold verify_bounds in Hb. ok_inv Hb.
    apply orb_false_iff in Hif as [_ Hif%negb_false_iff]. apply sha_is_hash in Hif as [Hhash _]. unfold event_reference. rewrite chars_app, strip_prefix_app, !chars_app.
    change (chars ":") with [":"%char]. cbn [app]. rewrite split_once_app by (by apply decimal_free). cbn [ok_or fst snd].
    rewrite parse_decimal by exact Hu. cbn [ok_or]. rewrite string_of_chars, Hhash. cbn [negb].
    rewrite (proj2 (Z.eqb_neq q 0)), (proj2 (Z.ltb_ge _ _)) by lia. cbn [orb].
    destruct (Z.leb_spec i.(event_start_sequence) q); cbn [andb]; [|done]. rewrite Hev by done. by rewrite bool_decide_eq_true_2.
Qed.

Lemma trigger_accepted w os i r :
  watched w os → covers os i → sound_trigger w.(w_identity) os r → rule_ok i r = Ok ().
Proof.
  intros Hw Hc [_ Hf _ He]. unfold rule_ok.
  assert (Hfirst : match r.(first_event_sequence) with
                   | Some sequence => (sequence =? 0) || (i.(event_sequence) <? sequence)
                   | None => false
                   end = false).
  { destruct r.(first_event_sequence) as [q|]; [|done]. destruct Hf as [e Hq].
    destruct (position_bounds w os q e Hw Hq) as (Hpos & _). destruct (Hc q e Hq) as [Hle _].
    rewrite (proj2 (Z.eqb_neq q 0)), (proj2 (Z.ltb_ge _ _)) by lia. done. }
  rewrite Hfirst. apply each_ok. rewrite Forall_forall in *. intros s Hs. by apply (evidence_accepted w os), He.
Qed.

(** A newly opened incident: its metadata and its page are valid and no stage is complete. *)
Definition opened_incident (i : GuardIncident) : Prop :=
  i.(in_id) ≠ 0%N ∧ i.(in_fence).(lease_id) ≠ 0%N ∧ 0 ≤ i.(in_fence).(generation)
  ∧ i.(snapshot_id) = None ∧ i.(in_errors) = [] ∧ i.(network_cut_at) = None ∧ i.(paused_at) = None
  ∧ i.(completed_at) = None ∧ 1 ≤ i.(event_start_sequence)
  ∧ validate_event_page i.(in_identity) i.(in_events) (i.(event_start_sequence) - 1) i.(event_previous_hash)
      i.(event_sequence) i.(event_head) = Ok ().

Lemma incident_accepted w os i :
  watched w os → is_uuid w.(w_identity).(gi_sandbox_id) → covers os i → opened_incident i →
  NoDup (rt_rule <$> i.(in_rules)) → (∀ r, r ∈ i.(in_rules) → sound_trigger w.(w_identity) os r) →
  validate_incident i = Ok ().
Proof.
  intros Hw Hu Hc (F1 & F2 & F3 & F4 & F5 & F6 & F7 & F8 & F9 & Hpage) Hd Hs. unfold validate_incident.
  rewrite (sound_rules_valid w os) by done. unfold checked_sub. rewrite (proj2 (Z.leb_le _ _)) by done. cbn [ok_or].
  rewrite Hpage, F4, F5, F6, F7, F8. cbn [is_some_and is_none_or existsb orb].
  rewrite (proj2 (N.eqb_neq _ _) F1), (proj2 (N.eqb_neq _ _) F2), (proj2 (Z.ltb_ge _ _) F3). cbn [orb].
  change (32 <? count (@nil string)) with false. cbn [orb].
  assert (He : each (rule_ok i) i.(in_rules) = Ok ()).
  { apply each_ok, Forall_forall. intros r Hr. by apply (trigger_accepted w os), Hs. }
  by rewrite He.
Qed.

End Evidence.

(** ** Properties *)

Lemma crossed_iff `{Host} `{Texts} `{Entropy} w os o now w' d rule :
  watched w os → Forall typed_observation (os ++ [o]) → typed_config w.(w_config) → observe w o now = (w', Ok d) →
  (∃ r, r ∈ d.(quarantine_rules) ∧ r.(rt_rule) = rule) ↔
    threshold w.(w_config) rule ≤ total rule (window_of w.(w_config) (os ++ [o])).(log).
Proof.
  intros Hw Ht Hc Ho. destruct (watched_valid w os Hw) as [Hcfg _]. pose proof (threshold_bounds _ rule Hcfg Hc) as Hb.
  pose proof (watched_accepted _ _ _ _ _ _ Hw Ho) as Hw'. destruct (watched_window w' _ Hw' Ht) as (_ & _ & Hk).
  specialize (Hk rule). apply observe_ok in Ho as [_ Ho]. destruct (observe_events _ _ _ _ _) as [al counts].
  destruct Ho as (-> & _ & Hq). cbn [w_config w_counts] in Hk. rewrite Hq. unfold count_of in Hk. split.
  - intros (r & (rc & Hl & Hge & _)%exceeded_elem & <-). rewrite Hl in Hk. cbn in Hk. lia.
  - intros Hge. destruct (counts !! rule) as [rc|] eqn:Hl; cbn in Hk; [|unfold u64_max in Hk; lia].
    exists (trigger rc rule). split; [|done]. apply exceeded_elem. exists rc. split_and!; [done| |done].
    cbn. unfold u64_max in Hk. lia.
Qed.

(** C22: over any sequence of observations, a rule is among those an accepted observation
    quarantines for exactly when the hits of the current window, the observation's own
    included, reach the rule's threshold: the saturating counters, the clearing of an expired
    window and the differences of the kernel counters compute the plain sum. *)
Theorem quarantine_iff_window_reaches_threshold `{Host} `{Texts} `{Entropy} w os o now w' d :
  watched w os → Forall typed_observation (os ++ [o]) → typed_config w.(w_config) → observe w o now = (w', Ok d) →
  ∀ rule, (∃ r, r ∈ d.(quarantine_rules) ∧ r.(rt_rule) = rule) ↔
    threshold w.(w_config) rule ≤ total rule (window_of w.(w_config) (os ++ [o])).(log).
Proof. intros Hw Ht Hc Ho rule. by apply (crossed_iff w os o now w' d rule). Qed.

(** the observations a watchdog accepts never go back in time, counters, usage, fence or
    quarantine, and a watchdog that sample_started at the first record and stands at the head and
    length of a verified journal has seen exactly that journal, or two records with different
    contents and one hash are exhibited. *)
Theorem watched_history_is_the_journal `{Hh : Host} `{!HostLaws Hh} `{Texts} `{Entropy} w os first es :
  watched w os → head os = Some first → first.(o_start_sequence) = 1 →
  Forall representable (trail os) → Forall representable es → verify_from GENESIS_HASH es = Ok () →
  w.(w_head) = head_of es → w.(w_sequence) = count es →
  StronglySorted not_before os ∧ (trail os = es ∨ collision (trail os) es).
Proof.
  intros Hw Hf Hone Rt Re Hes Hh' Hn. split; [by apply (watched_sorted w)|].
  destruct (watched_chain w os first Hw Hf) as (Hv & Hhd & Hs & _ & Hg & _). rewrite Hg in Hv, Hhd by done.
  assert (Hheads : head_of (trail os) = head_of es) by (rewrite <-Hh', Hhd; unfold head_of, head_from; by destruct (last (trail os))).
  destruct (head_determines_chain _ _ Rt Re Hv Hes Hheads) as [|[|[Hl _]]]; [by left|by right|].
  exfalso. apply Hl. unfold count in *. lia.
Qed.

(** an incident opened with the rules of a watchdog's own decision, over a page that
    agrees with what was observed, passes [validate_incident]: the control plane never refuses
    the evidence of a watchdog. *)
Theorem own_evidence_is_accepted `{Hh : Host} `{!HostLaws Hh} `{T : Texts} `{!TextsLaws T} `{Entropy} w os o now w' d i :
  watched w os → Forall typed_observation (os ++ [o]) → is_uuid w.(w_identity).(gi_sandbox_id) →
  observe w o now = (w', Ok d) → i.(in_rules) = d.(quarantine_rules) → covers (os ++ [o]) i → opened_incident i →
  validate_incident i = Ok ().
Proof.
  intros Hw Ht Hu Ho Hr Hc Hop. pose proof (watched_accepted _ _ _ _ _ _ Hw Ho) as Hw'.
  assert (Hi : w'.(w_identity) = w.(w_identity)).
  { apply observe_ok in Ho as [_ Ho]. destruct (observe_events _ _ _ _ _) as [al counts]. by destruct Ho as (-> & _). }
  eapply (incident_accepted w' (os ++ [o])); rewrite ?Hi; try done.
  - rewrite Hr. apply observe_ok in Ho as [_ Ho]. destruct (observe_events _ _ _ _ _) as [al counts].
    destruct Ho as (_ & _ & ->). apply exceeded_nodup.
  - intros r Hin. rewrite Hr in Hin. by apply (decision_sound w os o now w' d); [..|right].
Qed.

(** the first observation of a new watchdog quarantines for every denial the kernel
    counters have ever recorded, however long before the window they happened. *)
Theorem first_observation_counts_history `{Host} `{Texts} `{Entropy} i c w o now w' d :
  new_watchdog i c = Ok w → typed_observation o → typed_config c → observe w o now = (w', Ok d) →
  c.(denied_threshold) ≤ o.(o_counters).(other_denied) →
  ∃ r, r ∈ d.(quarantine_rules) ∧ r.(rt_rule) = "repeated_denied_connections"%string.
Proof.
  intros Hn Ht Hc Ho Hd. assert (Hcfg : w.(w_config) = c) by (unfold new_watchdog in Hn; ok_inv Hn; by injection Hn as <-).
  apply (crossed_iff w [] o now w' d); [by eapply watched_new|by apply Forall_singleton|by rewrite Hcfg|done|].
  rewrite Hcfg. cbn [window_of foldl app]. unfold window_step, contribution. cbn [opened log seen app total fst snd].
  rewrite bool_decide_eq_true_2 by done. destruct Ht as [Het Hk].
  pose proof (total_nonneg "repeated_denied_connections" _ (contribution_nonneg c None o (conj Het Hk))) as Hall.
  assert (Hrest : Forall (λ h, 0 ≤ h.2) (e ← base.filter (λ e, is_recent c o.(observed_at) e = true) o.(o_events); event_hits c e)).
  { pose proof (contribution_nonneg c None o (conj Het Hk)) as Hf. by apply Forall_cons in Hf as [_ Hf]. }
  apply (total_nonneg "repeated_denied_connections") in Hrest.
  pose proof (Hk BlockedRange_) as K1. pose proof (Hk OtherDenied) as K2. pose proof (Hk Ipv6_) as K3.
  unfold since, saturating_sub, saturating_add, is_u64 in *. cbn [snap_get] in *.
  etrans; [|apply Z.add_le_mono_l; exact Hrest]. unfold threshold. rewrite bool_decide_eq_true_2 by done. lia.
Qed.

(** ** Witnesses *)
Module SampleWatchdog.

Import Enforcement.SampleHost.

(** A digest that is quick to evaluate: the length of what it digests. *)
#[global] Instance length_host : Host := {|
  sha256_hex bytes := String.string_of_list_ascii (Events.Sample.hex 64 (Z.of_nat (length bytes)));
  to_rfc3339 := @to_rfc3339 Events.Sample.host; uuid_to_string := @uuid_to_string Events.Sample.host |}.
#[global] Instance length_host_laws : HostLaws length_host.
Proof.
  destruct Events.Sample.host_laws as [H1 H2 H3 H4 _]. split; [exact H1|exact H2|exact H3|exact H4|].
  intros bytes. cbn [sha256_hex length_host]. unfold is_sha256_hex, all_bytes.
  by rewrite <-length_chars_Z, Events.Sample.chars_of_list_ascii, Events.Sample.length_hex, Events.Sample.hex_shape.
Qed.

#[global] Instance sample_entropy : Entropy := λ label, 100 * count label.

Definition identity : GuardIdentity := {| gi_sandbox_id := 7; gi_tenant_id := 9; gi_policy_hash := GENESIS_HASH |}.

Definition budget (requests : Z) : GuardBudgetState := {|
  b_identity := identity; b_expires_at := 9000000000; max_model_requests_cap := 10; max_bytes_in := 4096;
  max_bytes_out := 4096; model_requests := requests; b_bytes_in := 0; b_bytes_out := 0; quarantined := false |}.

Definition denial (at_ : Instant) (id : Uuid) (name previous : string) : GuardEvent := with_hash {|
  timestamp := at_; event_id := id; sandbox_id := 7; tenant_id := 9; policy_hash := GENESIS_HASH; category := Dns;
  decision := Deny; reason := "DNS name denied"; destination := Some name; request_bytes := 10;
  response_bytes := 0; duration_ms := 2; previous_hash := previous; current_hash := "" |}.

Definition denial1 : GuardEvent := denial 1000000000 1 "a.example" GENESIS_HASH.
Definition denial2 : GuardEvent := denial 2000000000 2 "bb.example" denial1.(current_hash).

Definition page (at_ start requests denied : Z) (e : GuardEvent) : GuardObservation := {|
  o_identity := identity; o_fence := {| lease_id := 3; generation := 1 |};
  o_counters := {| cs_table := watched_table identity; blocked_range := 0; other_denied := denied; ipv6 := 0;
                   dns_permitted := 4; broker_permitted := 0 |};
  o_events := [e]; observed_at := at_; o_start_sequence := start; o_previous_hash := e.(previous_hash);
  o_sequence := start; o_head := e.(current_hash); network_cut := false; paused := false; o_budget := budget requests |}.

Definition page1 : GuardObservation := page 1000000000 1 0 2 denial1.
Definition page2 : GuardObservation := page 2000000000 2 1 9 denial2.

Definition watchdog0 : Watchdog := {|
  w_identity := identity; w_config := default_config; w_sequence := 0; w_head := GENESIS_HASH; w_counters := None;
  w_budget := None; w_fence := None; w_observed_at := None; w_window_start := None; w_counts := ∅ |}.

Definition no_decision : WatchdogDecision := {|
  wd_identity := identity; wd_fence := {| lease_id := 0; generation := 0 |}; wd_observed_at := 0; wd_event_sequence := 0;
  alerts := []; quarantine_rules := [] |}.
Definition decided (w : Watchdog) (o : GuardObservation) : WatchdogDecision :=
  match (observe w o o.(observed_at)).2 with Ok d => d | Err _ => no_decision end.
Definition after (w : Watchdog) (o : GuardObservation) : Watchdog := (observe w o o.(observed_at)).1.

Lemma sample_started : new_watchdog identity default_config = Ok watchdog0.
Proof. vm_compute. reflexivity. Qed.
Lemma seen1 : observe watchdog0 page1 page1.(observed_at) = (after watchdog0 page1, Ok (decided watchdog0 page1)).
Proof. vm_compute. reflexivity. Qed.
Lemma seen2 : observe (after watchdog0 page1) page2 page2.(observed_at)
  = (after (after watchdog0 page1) page2, Ok (decided (after watchdog0 page1) page2)).
Proof. vm_compute. reflexivity. Qed.

Lemma watched1 : watched (after watchdog0 page1) [page1].
Proof. exact (watched_accepted _ [] _ _ _ _ (watched_new _ _ _ sample_started) seen1). Qed.
Lemma watched2 : watched (after (after watchdog0 page1) page2) [page1; page2].
Proof. exact (watched_accepted _ [page1] _ _ _ _ watched1 seen2). Qed.

Lemma page_typed at_ start requests denied e : is_u64 denied → typed_event e → typed_observation (page at_ start requests denied e).
Proof. intros Hd He. split; [by apply Forall_singleton|]. intros []; cbn; try done; unfold is_u64, u64_max; lia. Qed.
Lemma u64_small n : 0 ≤ n ≤ 4096 → is_u64 n.
Proof. unfold is_u64, u64_max. lia. Qed.
Lemma denial_typed at_ id name previous : typed_event (denial at_ id name previous).
Proof. split; apply u64_small; cbn; lia. Qed.
Lemma pages_typed : Forall typed_observation [page1; page2].
Proof.
  apply Forall_cons. rewrite Forall_singleton.
  split; apply page_typed; [apply u64_small|apply denial_typed|apply u64_small|apply denial_typed]; lia.
Qed.

(** The incident of the second observation, over the whole journal. *)
Definition incident : GuardIncident := {|
  in_id := 11; in_identity := identity; in_fence := {| lease_id := 3; generation := 1 |};
  in_rules := (decided (after watchdog0 page1) page2).(quarantine_rules); triggered_at := 2000000000;
  network_cut_at := None; paused_at := None; snapshot_id := None; completed_at := None; in_events := [denial1; denial2];
  event_start_sequence := 1; event_previous_hash := GENESIS_HASH; event_sequence := 2;
  event_head := denial2.(current_hash); in_errors := []; notified_at := None; report := "" |}.

Lemma incident_covers : covers ([page1] ++ [page2]) incident.
Proof.
  intros q e (first & Hf & Hle & He). injection Hf as <-. change (o_start_sequence page1) with 1 in *.
  split; [|by intros _]. apply lookup_lt_Some in He. change (length (trail ([page1] ++ [page2]))) with 2%nat in He.
  change (event_sequence incident) with 2. lia.
Qed.

Lemma quarantine_iff_window_reaches_threshold_witness :
  ∃ r, r ∈ (decided (after watchdog0 page1) page2).(quarantine_rules) ∧ r.(rt_rule) = "repeated_denied_connections"%string.
Proof.
  apply (quarantine_iff_window_reaches_threshold (after watchdog0 page1) [page1] page2 page2.(observed_at)
    (after (after watchdog0 page1) page2) (decided (after watchdog0 page1) page2) watched1 pages_typed);
    [vm_compute; intuition discriminate|exact seen2|vm_compute; discriminate].
Defined.

Lemma watched_history_is_the_journal_witness :
  trail [page1; page2] = [denial1; denial2] ∨ collision (trail [page1; page2]) [denial1; denial2].
Proof.
  apply (watched_history_is_the_journal (after (after watchdog0 page1) page2) [page1; page2] page1);
    [exact watched2|reflexivity|reflexivity|by repeat constructor|by repeat constructor|vm_compute; reflexivity
    |vm_compute; reflexivity|vm_compute; reflexivity].
Defined.

Lemma own_evidence_is_accepted_witness : validate_incident incident = Ok ().
Proof.
  apply (own_evidence_is_accepted (after watchdog0 page1) [page1] page2 page2.(observed_at)
    (after (after watchdog0 page1) page2) (decided (after watchdog0 page1) page2) incident watched1 pages_typed);
    [vm_compute; reflexivity|exact seen2|reflexivity|exact incident_covers|].
  split_and!; vm_compute; first [reflexivity|discriminate].
Defined.

Lemma first_observation_counts_history_witness :
  ∃ r, r ∈ (decided watchdog0 (page 2000000000 1 0 9 denial1)).(quarantine_rules)
    ∧ r.(rt_rule) = "repeated_denied_connections"%string.
Proof.
  apply (first_observation_counts_history identity default_config watchdog0 (page 2000000000 1 0 9 denial1) 2000000000
    (after watchdog0 (page 2000000000 1 0 9 denial1)));
    [exact sample_started|apply page_typed; [apply u64_small; lia|apply denial_typed]|vm_compute; intuition discriminate
    |vm_compute; reflexivity|vm_compute; discriminate].
Defined.

End SampleWatchdog.
