(* ===== verification/Report.v ===== *)
(** * Report: the Markdown report of an incident

    [crates/aiec-guard/src/watchdog.rs]: [escaped], [timestamp] and
    [generate_incident_report], with the [chars] of a [str] decoded from UTF-8.

    Every piece the code writes ends with a line feed, so the report is a list of lines
    ([unlines]).  An index out of range panics: [generate_incident_report] then returns
    [None].  The theorems read the report as its reader does: as lines, and as the text
    behind numeric character references ([html_text]). *)

From Stdlib Require Import Ascii.
From stdpp Require Import pretty.
From S2P Require Import Prelude Policy Boundary L7 Text Render Enforcement.
From S2P Require Import Lifecycle Events Store Watchdog.

(** ** Characters *)
(** The low bits of a byte. *)
Definition low (bits : Z) (b : ascii) : Z := Z.land (byte_of b) (Z.ones bits).

(** [str::chars]: the code points of a UTF-8 string. *)
Fixpoint code_points (s : list ascii) : list Z :=
  match s with
  | [] => []
  | a :: s1 =>
      if byte_of a <? 128 then byte_of a :: code_points s1
      else
        match s1 with
        | b :: s2 =>
            if byte_of a <? 224 then low 5 a * 64 + low 6 b :: code_points s2
            else
              match s2 with
              | c :: s3 =>
                  if byte_of a <? 240 then (low 4 a * 64 + low 6 b) * 64 + low 6 c :: code_points s3
                  else
                    match s3 with
                    | d :: s4 => ((low 3 a * 64 + low 6 b) * 64 + low 6 c) * 64 + low 6 d :: code_points s4
                    | [] => []
                    end
              | [] => []
              end
        | [] => []
        end
  end.

(** [char::is_ascii_alphanumeric] or a space. *)
Definition is_plain (c : Z) : bool :=
  within 48 57 c || within 65 90 c || within 97 122 c || (c =? 32).

Definition escape (c : Z) : string :=
  if is_plain c then string_of [ascii_of_N (Z.to_N c)] else "&#" +:+ decimal c +:+ ";".

Definition escaped (value : string) : string := foldr (λ c out, escape c +:+ out) "" (code_points (chars value)).

(** ** The report *)
Definition newline : string := string_of [line_feed].

(** [writeln!] for each line. *)
Definition unlines (lines : list string) : string := foldr (λ l out, l +:+ newline +:+ out) "" lines.

Section Report.
Context `{Host}.

Definition timestamp_text (value : option Instant) : string :=
  match value with None => "pending" | Some t => to_rfc3339 t end.

Definition summary_lines (i : GuardIncident) : list string :=
  ["# Guard incident"; "";
   "- Incident: " +:+ uuid_to_string i.(in_id);
   "- Sandbox: " +:+ uuid_to_string i.(in_identity).(gi_sandbox_id);
   "- Tenant: " +:+ uuid_to_string i.(in_identity).(gi_tenant_id);
   "- Policy hash: " +:+ i.(in_identity).(gi_policy_hash);
   "- Lease: " +:+ uuid_to_string i.(in_fence).(lease_id);
   "- Generation: " +:+ decimal i.(in_fence).(generation); "";
   "## Timeline"; "";
   "- Triggered: " +:+ to_rfc3339 i.(triggered_at);
   "- Network cut: " +:+ timestamp_text i.(network_cut_at);
   "- Paused: " +:+ timestamp_text i.(paused_at);
   "- Snapshot: " +:+ match i.(snapshot_id) with Some s => escaped s | None => "pending" end;
   "- Completed: " +:+ timestamp_text i.(completed_at); "";
   "## Rules and evidence"; ""]%string.

Definition rule_lines (r : RuleTrigger) : list string :=
  ("- Rule: " +:+ escaped r.(rt_rule))
  :: ((λ reference, "  - Evidence: " +:+ escaped reference) <$> r.(evidence_references)).

Definition first_suspicious (i : GuardIncident) : option Z :=
  match omap first_event_sequence i.(in_rules) with
  | [] => None
  | q :: qs => Some (foldl Z.min q qs)
  end.

Definition event_lines (sequence : Z) (e : GuardEvent) : list string :=
  ["- Sequence: " +:+ decimal sequence;
   "- Event: " +:+ uuid_to_string e.(event_id);
   "- Time: " +:+ to_rfc3339 e.(timestamp);
   "- Category: " +:+ Category_as_str e.(category);
   "- Decision: " +:+ Decision_as_str e.(decision);
   "- Reason: " +:+ escaped e.(reason);
   "- Destination: " +:+ match e.(destination) with Some d => escaped d | None => "none" end;
   "- Request bytes: " +:+ decimal e.(request_bytes);
   "- Response bytes: " +:+ decimal e.(response_bytes);
   "- Hash: " +:+ e.(current_hash)]%string.

(** [None]: the index is out of range. *)
Definition first_lines (i : GuardIncident) : option (list string) :=
  match first_suspicious i with
  | Some sequence =>
      if i.(event_start_sequence) <=? sequence
      then event_lines sequence <$> i.(in_events) !! Z.to_nat (sequence - i.(event_start_sequence))
      else Some ["First suspicious event sequence: " +:+ decimal sequence
                 +:+ "; outside this bounded authoritative excerpt. Its rule evidence reference is retained above."]%string
  | None => Some ["No event reference: see authoritative counter/control evidence references above."%string]
  end.

Definition journal_lines (i : GuardIncident) : list string :=
  [""; "## Authoritative journal"; "";
   "- Records: " +:+ decimal i.(event_sequence);
   "- Earlier records omitted: " +:+ decimal (i.(event_start_sequence) - 1);
   "- Excerpt previous hash: " +:+ i.(event_previous_hash);
   "- Verified head: " +:+ i.(event_head)]%string.

Definition error_lines (i : GuardIncident) : list string :=
  match i.(in_errors) with
  | [] => []
  | errors => [""; "## Incomplete stages"; ""]%string ++ ((λ error, "- " +:+ escaped error) <$> errors)
  end.

Definition report_lines (i : GuardIncident) : option (list string) :=
  first ← first_lines i;
  Some (summary_lines i ++ (r ← i.(in_rules); rule_lines r)
        ++ [""; "## First suspicious event"; ""]%string ++ first ++ journal_lines i ++ error_lines i).

Definition generate_incident_report (i : GuardIncident) : option (result GuardError.t string) :=
  match validate_incident i with
  | Err e => Some (Err e)
  | Ok _ => Ok ∘ unlines <$> report_lines i
  end.

End Report.

(** ** What a reader sees *)
(** Numeric character references, as HTML and Markdown read them: [pending] is the number of
    a reference that has begun. *)
Fixpoint html_go (pending : option Z) (s : list ascii) : option (list Z) :=
  match pending, s with
  | None, [] => Some []
  | Some _, [] => None
  | None, b :: s1 =>
      match s1 with
      | h :: s2 =>
          if is_char "&" b && is_char "#" h then html_go (Some 0) s2 else cons (byte_of b) <$> html_go None s1
      | [] => Some [byte_of b]
      end
  | Some n, b :: s1 =>
      if is_char ";" b then cons n <$> html_go None s1
      else if is_ascii_digit b then html_go (Some (n * 10 + (byte_of b - 48))) s1
      else None
  end.
Definition html_text : list ascii → option (list Z) := html_go None.

(** Bytes that print and that Markdown gives no meaning within a line. *)
Definition shown (b : ascii) : bool := in_range 32 126 b && negb (is_one_of "<>[]()!*_~`|\" b).
Definition clean (s : string) : Prop := all_bytes shown s = true.

Definition headings (i : GuardIncident) : list string :=
  ["# Guard incident"; "## Timeline"; "## Rules and evidence"; "## First suspicious event"; "## Authoritative journal"]%string
  ++ match i.(in_errors) with [] => [] | _ => ["## Incomplete stages"%string] end.

Definition is_heading (line : list ascii) : Prop := head line = Some "#"%char.
#[global] Instance is_heading_dec line : base.Decision (is_heading line).
Proof. unfold is_heading. apply _. Defined.

(** The documented shape of a displayed UUID and of an RFC 3339 time. *)
Class ReportLaws (H : Host) : Prop := {
  uuid_text u : is_uuid u → all_bytes (λ b, is_ascii_hexdigit b || is_char "-" b) (uuid_to_string u) = true;
  rfc3339_text t : is_instant t → all_bytes (λ b, is_ascii_digit b || is_one_of "-:.+TZ" b) (to_rfc3339 t) = true }.

(** The values at their types. *)
Definition typed_reported (e : GuardEvent) : Prop := is_uuid e.(event_id) ∧ is_instant e.(timestamp).
Definition typed_incident (i : GuardIncident) : Prop :=
  is_uuid i.(in_id) ∧ is_uuid i.(in_identity).(gi_sandbox_id) ∧ is_uuid i.(in_identity).(gi_tenant_id)
  ∧ is_uuid i.(in_fence).(lease_id) ∧ is_instant i.(triggered_at) ∧ Forall typed_reported i.(in_events)
  ∧ from_option is_instant True i.(network_cut_at) ∧ from_option is_instant True i.(paused_at)
  ∧ from_option is_instant True i.(completed_at).

(** ** Escaping *)
Lemma low_range bits b : 0 ≤ bits → 0 ≤ low bits b < 2 ^ bits.
Proof. intros Hb. unfold low. rewrite Z.land_ones by done. apply Z.mod_pos_bound. lia. Qed.

Lemma code_points_range s : Forall (λ c, 0 ≤ c < 2 ^ 21) (code_points s).
Proof.
  remember (length s) as n eqn:Hn. revert s Hn. induction n as [n IH] using lt_wf_ind. intros s ->.
  assert (IH' : ∀ t, (length t < length s)%nat → Forall (λ c, 0 ≤ c < 2 ^ 21) (code_points t)) by (intros t Ht; by eapply IH).
  clear IH. destruct s as [|a s]; [constructor|]. cbn [code_points].
  pose proof (byte_of_range a). pose proof (low_range 5 a). pose proof (low_range 4 a). pose proof (low_range 3 a).
  destruct (byte_of a <? 128); [constructor; [lia|apply IH'; cbn; lia]|].
  destruct s as [|b s]; [constructor|]. pose proof (low_range 6 b).
  destruct (byte_of a <? 224); [constructor; [lia|apply IH'; cbn; lia]|].
  destruct s as [|c s]; [constructor|]. pose proof (low_range 6 c).
  destruct (byte_of a <? 240); [constructor; [lia|apply IH'; cbn; lia]|].
  destruct s as [|d s]; [constructor|]. pose proof (low_range 6 d). constructor; [lia|apply IH'; cbn; lia].
Qed.

Lemma html_digits max ds acc n s :
  parse_within max acc ds = Some n → html_go (Some acc) (ds ++ ";"%char :: s) = cons n <$> html_go None s.
Proof.
  revert acc. induction ds as [|b ds IH]; intros acc; cbn [parse_within app html_go].
  - by intros [= ->].
  - destruct (is_ascii_digit b) eqn:Hd; [|done]. destruct (max <? _); [done|]. intros Hp.
    replace (is_char ";" b) with false; [by apply IH|]. symmetry. unfold is_char. apply Ascii.eqb_neq. by intros ->.
Qed.

Lemma html_plain b s : b ≠ "&"%char → html_go None (b :: s) = cons (byte_of b) <$> html_go None s.
Proof.
  intros Hb. destruct s as [|h s]; [done|]. cbn [html_go].
  by rewrite (proj2 (Ascii.eqb_neq _ _) Hb : is_char "&" b = false).
Qed.

Lemma plain_byte c : is_plain c = true → byte_of (ascii_of_N (Z.to_N c)) = c ∧ shown (ascii_of_N (Z.to_N c)) = true.
Proof.
  unfold is_plain, within. intros Hp. assert (Hc : 32 ≤ c < 123) by lia.
  assert (Hn : c ∈ seqZ 32 91) by (apply elem_of_seqZ; lia).
  assert (Hall : Forall (λ c, is_plain c = true →
    byte_of (ascii_of_N (Z.to_N c)) = c ∧ shown (ascii_of_N (Z.to_N c)) = true) (seqZ 32 91)).
  { apply (bool_decide_unpack _). vm_compute. exact I. }
  rewrite Forall_forall in Hall. by apply Hall.
Qed.

Lemma html_escape c s : 0 ≤ c < 2 ^ 21 → html_go None (chars (escape c) ++ s) = cons c <$> html_go None s.
Proof.
  intros Hc. unfold escape. destruct (is_plain c) eqn:Hp.
  - destruct (plain_byte c Hp) as [Hb _]. rewrite chars_string_of. cbn [app]. rewrite html_plain; [by rewrite Hb|].
    intros He. rewrite He in Hb. subst c. by vm_compute in Hp.
  - rewrite !chars_app, <-!app_assoc. change (chars "&#") with ["&"; "#"]%char. change (chars ";") with [";"%char].
    cbn [app]. change (html_go None ("&"%char :: "#"%char :: ?t)) with (html_go (Some 0) t).
    apply (html_digits u32_max). pose proof (parse_decimal u32_max c) as Hd. unfold parse_unsigned in Hd.
    pose proof (decimal_nonempty c) as Hne. pose proof (decimal_free "+"%char c eq_refl) as Hplus.
    destruct (chars (decimal c)) as [|b ds]; [done|]. rewrite decide_False in Hd by (intros ->; apply Hplus, list_elem_of_here).
    apply Hd. unfold u32_max. lia.
Qed.

Lemma chars_escaped value : chars (escaped value) = c ← code_points (chars value); chars (escape c).
Proof.
  unfold escaped. induction (code_points (chars value)) as [|c cs IH]; [done|]. cbn [foldr]. by rewrite chars_app, IH.
Qed.

Lemma html_escaped value : html_text (chars (escaped value)) = Some (code_points (chars value)).
Proof.
  rewrite chars_escaped. pose proof (code_points_range (chars value)) as Hr. unfold html_text.
  induction Hr as [|c cs Hc Hr IH]; [done|]. cbn [mbind list_bind]. rewrite html_escape by done. by rewrite IH.
Qed.

(** ** Clean text *)
Lemma clean_app s t : clean s → clean t → clean (s +:+ t).
Proof. unfold clean, all_bytes. intros Hs Ht. by rewrite chars_app, forallb_app, Hs, Ht. Qed.

Lemma clean_class (p : ascii → bool) s : (∀ b, p b = true → shown b = true) → all_bytes p s = true → clean s.
Proof. unfold clean, all_bytes. rewrite !forallb_Forall. intros Hp Hs. eapply Forall_impl; [exact Hs|]. exact Hp. Qed.

Ltac each_byte := intros [[] [] [] [] [] [] [] []]; vm_compute; congruence.

Lemma clean_decimal n : clean (decimal n).
Proof. apply (clean_class is_ascii_digit); [each_byte|]. apply forallb_Forall, decimal_digits. Qed.

Lemma clean_hash s : is_hash s = true → clean s.
Proof. unfold is_hash. intros [_ Hs]%andb_true_iff. eapply clean_class; [|exact Hs]. each_byte. Qed.

Lemma clean_uuid `{HL : ReportLaws} u : is_uuid u → clean (uuid_to_string u).
Proof. intros Hu%uuid_text. eapply clean_class; [|exact Hu]. each_byte. Qed.

Lemma clean_rfc3339 `{HL : ReportLaws} t : is_instant t → clean (to_rfc3339 t).
Proof. intros Ht%rfc3339_text. eapply clean_class; [|exact Ht]. each_byte. Qed.

Lemma clean_timestamp `{HL : ReportLaws} value : from_option is_instant True value → clean (timestamp_text value).
Proof. destruct value as [t|]; [apply clean_rfc3339|done]. Qed.

Lemma clean_escape c : clean (escape c).
Proof.
  unfold escape. destruct (is_plain c) eqn:Hp; [|repeat apply clean_app; [done|apply clean_decimal|done]].
  unfold clean, all_bytes. rewrite chars_string_of. cbn [forallb]. by rewrite (proj2 (plain_byte c Hp)).
Qed.

Lemma clean_escaped value : clean (escaped value).
Proof. unfold escaped. induction (code_points (chars value)) as [|c cs IH]; [done|]. apply clean_app; [apply clean_escape|exact IH]. Qed.

Lemma clean_category c : clean (Category_as_str c).
Proof. by destruct c. Qed.
Lemma clean_decision d : clean (Decision_as_str d).
Proof. by destruct d. Qed.

Create HintDb report.
#[export] Hint Resolve clean_decimal clean_hash clean_uuid clean_rfc3339 clean_timestamp clean_escaped clean_category
  clean_decision : report.

(** Literal prefixes and clean fields. *)
Ltac clean_text :=
  match goal with
  | |- clean (_ +:+ _) => apply clean_app; clean_text
  | |- clean (String.String _ _) => vm_compute; reflexivity
  | |- clean String.EmptyString => reflexivity
  | |- clean _ => auto with report nocore
  end.
Ltac clean_lines := repeat (apply Forall_cons; split); [..|constructor]; clean_text.

Lemma clean_one_line s : clean s → line_feed ∉ chars s.
Proof.
  unfold clean, all_bytes. rewrite forallb_Forall, Forall_forall. intros Hs Hin. by specialize (Hs _ Hin).
Qed.

Lemma split_unlines ls : Forall clean ls → split_on line_feed (chars (unlines ls)) = (chars <$> ls) ++ [[]].
Proof.
  induction 1 as [|l ls Hl Hls IH]; [done|]. unfold unlines in *. cbn [foldr].
  rewrite !chars_app. change (chars newline) with [line_feed]. cbn [app]. rewrite split_on_mid, split_on_single by by apply clean_one_line.
  cbn [app]. by rewrite IH.
Qed.

(** ** The report *)
Lemma unlines_shown ls : Forall clean ls → all_bytes (λ b, shown b || is_char line_feed b) (unlines ls) = true.
Proof.
  induction 1 as [|l ls Hl Hls IH]; [done|]. unfold unlines, all_bytes in *. cbn [foldr].
  rewrite !chars_app, !forallb_app, IH. change (chars newline) with [line_feed].
  replace (forallb (λ b, shown b || is_char line_feed b) (chars l)) with true; [done|]. symmetry.
  apply forallb_Forall. unfold clean, all_bytes in Hl. apply forallb_Forall in Hl. eapply Forall_impl; [exact Hl|].
  intros b Hb. cbn beta. by rewrite Hb.
Qed.

Lemma page_hashes `{Host} i events after previous total head :
  validate_event_page i events after previous total head = Ok () →
  is_hash i.(gi_policy_hash) = true ∧ is_hash previous = true ∧ is_hash head = true
  ∧ Forall (λ e, is_hash e.(current_hash) = true) events.
Proof.
  intros Hv. destruct (page_ok _ _ _ _ _ _ Hv) as (_ & _ & _ & _ & _ & Hb).
  unfold validate_event_page, valid_identity in Hv. ok_inv Hv. ok_inv Hok.
  repeat match goal with E : _ || _ = false |- _ => apply orb_false_iff in E as [? ?] end.
  repeat match goal with E : negb _ = false |- _ => apply negb_false_iff in E end.
  split_and!; [done..|]. eapply Forall_impl; [exact Hb|]. intros e (_ & _ & _ & He). unfold verify_bounds in He. ok_inv He.
  apply orb_false_iff in Hif as [_ Hif%negb_false_iff]. by apply sha_is_hash.
Qed.

(** What a valid incident says about its page. *)
Lemma incident_page `{Host} i : validate_incident i = Ok () →
  1 ≤ i.(event_start_sequence) ∧ i.(event_sequence) = i.(event_start_sequence) - 1 + count i.(in_events)
  ∧ is_hash i.(in_identity).(gi_policy_hash) = true ∧ is_hash i.(event_previous_hash) = true
  ∧ is_hash i.(event_head) = true ∧ Forall (λ e, is_hash e.(current_hash) = true) i.(in_events)
  ∧ Forall (λ r, rule_ok i r = Ok ()) i.(in_rules).
Proof.
  unfold validate_incident. intros Hv. ok_inv Hv.
  match goal with E : ok_or (checked_sub _ _) _ = Ok ?a |- _ =>
    unfold checked_sub in E; destruct (Z.leb_spec 1 i.(event_start_sequence)); [|discriminate E]; injection E as <- end.
  match goal with E : validate_event_page _ _ _ _ _ _ = Ok ?u |- _ =>
    destruct u; destruct (page_ok _ _ _ _ _ _ E) as (? & _); apply page_hashes in E as (? & ? & ? & ?) end.
  match goal with E : each _ _ = Ok ?u |- _ => destruct u; apply each_ok in E end.
  split_and!; done.
Qed.

Lemma foldl_min_elem q qs : foldl Z.min q qs ∈ q :: qs.
Proof.
  revert q. induction qs as [|p qs IH]; intros q; cbn [foldl]; [apply list_elem_of_here|].
  specialize (IH (Z.min q p)). apply elem_of_cons in IH as [->|Hin]; [|by do 2 apply list_elem_of_further].
  destruct (Z.min_spec q p) as [[_ ->]|[_ ->]]; [apply list_elem_of_here|apply list_elem_of_further, list_elem_of_here].
Qed.

Lemma first_suspicious_rule i q : first_suspicious i = Some q → ∃ r, r ∈ i.(in_rules) ∧ r.(first_event_sequence) = Some q.
Proof.
  unfold first_suspicious. destruct (omap _ _) as [|p qs] eqn:Ho; [done|]. intros [= <-].
  apply list_elem_of_omap. rewrite Ho. apply foldl_min_elem.
Qed.

(** The index of the first suspicious event is in range. *)
Lemma first_lines_some `{Host} i : validate_incident i = Ok () →
  ∃ ls, first_lines i = Some ls
    ∧ ((∃ q e, e ∈ i.(in_events) ∧ ls = event_lines q e) ∨ (∃ l, ls = [l] ∧ clean l ∧ ¬ is_heading (chars l))).
Proof.
  intros Hv. destruct (incident_page i Hv) as (Hs & Hn & _ & _ & _ & _ & Hr). unfold first_lines.
  destruct (first_suspicious i) as [q|] eqn:Hq; [|eexists; split; [done|right; by eexists]].
  destruct (Z.leb_spec i.(event_start_sequence) q) as [Hle|_].
  - destruct (first_suspicious_rule i q Hq) as (r & Hin & Hf). rewrite Forall_forall in Hr. specialize (Hr r Hin).
    unfold rule_ok in Hr. rewrite Hf in Hr. ok_inv Hr. apply orb_false_iff in Hif as [_ Hif%Z.ltb_ge].
    destruct (lookup_lt_is_Some_2 i.(in_events) (Z.to_nat (q - i.(event_start_sequence)))) as [e He]; [unfold count in Hn; lia|].
    rewrite He. eexists. split; [done|]. left. exists q, e. split; [by eapply list_elem_of_lookup_2|done].
  - eexists. split; [done|]. right. eexists. split; [done|]. split; [|done]. clean_text.
Qed.

Section Cleanliness.
Context `{HL : ReportLaws}.

Lemma event_lines_clean q e : typed_reported e → is_hash e.(current_hash) = true → Forall clean (event_lines q e).
Proof.
  intros [Hu Ht] Hh. unfold event_lines. clean_lines. destruct e.(destination); clean_text.
Qed.

Lemma summary_clean i : typed_incident i → is_hash i.(in_identity).(gi_policy_hash) = true → Forall clean (summary_lines i).
Proof.
  intros (U1 & U2 & U3 & U4 & T1 & _ & T2 & T3 & T4) Hh. unfold summary_lines. clean_lines.
  destruct i.(snapshot_id); clean_text.
Qed.

Lemma rules_clean (rules : list RuleTrigger) : Forall clean (r ← rules; rule_lines r).
Proof.
  induction rules as [|r rules IH]; [constructor|]. apply Forall_app. split; [|exact IH].
  unfold rule_lines. apply Forall_cons. split; [clean_text|].
  apply Forall_fmap, Forall_true. intros s. cbn. clean_text.
Qed.

Lemma errors_clean i : Forall clean (error_lines i).
Proof.
  unfold error_lines. destruct i.(in_errors) as [|x errors]; [constructor|]. apply Forall_app.
  split; [by repeat constructor|]. apply Forall_fmap, Forall_true. intros s. cbn. clean_text.
Qed.

Lemma journal_clean i : is_hash i.(event_previous_hash) = true → is_hash i.(event_head) = true → Forall clean (journal_lines i).
Proof. intros Hp Hh. unfold journal_lines. clean_lines. Qed.

End Cleanliness.

Notation marked := (base.filter (λ l, is_heading (chars l))).

Lemma rules_unmarked (rules : list RuleTrigger) : marked (r ← rules; rule_lines r) = [].
Proof.
  apply filter_none. intros l (r & Hl & _)%list_elem_of_bind. unfold rule_lines in Hl.
  by apply elem_of_cons in Hl as [->|(s & -> & _)%list_elem_of_fmap].
Qed.

Lemma errors_marked i : marked (error_lines i) = match i.(in_errors) with [] => [] | _ => ["## Incomplete stages"%string] end.
Proof.
  unfold error_lines. destruct i.(in_errors) as [|x errors]; [done|]. rewrite filter_app.
  rewrite (filter_none _ ((λ error, "- " +:+ escaped error) <$> x :: errors)); [done|].
  by intros l (s & -> & _)%list_elem_of_fmap.
Qed.

Lemma filter_chars (ls : list string) : base.filter is_heading (chars <$> ls) = chars <$> marked ls.
Proof.
  induction ls as [|l ls IH]; [done|]. rewrite fmap_cons, !filter_cons.
  destruct (decide (is_heading (chars l))); [rewrite fmap_cons|]; by rewrite IH.
Qed.

Lemma report_lines_some `{HL : ReportLaws} i : typed_incident i → validate_incident i = Ok () →
  ∃ ls, report_lines i = Some ls ∧ Forall clean ls ∧ marked ls = headings i
    ∧ ∀ r, r ∈ i.(in_rules) → ∀ l, l ∈ rule_lines r → l ∈ ls.
Proof.
  intros Ht Hv. destruct (incident_page i Hv) as (_ & _ & Hp & Hq & Hh & He & _).
  destruct (first_lines_some i Hv) as (first & Hf & Hfirst). unfold report_lines. rewrite Hf. cbn [mbind option_bind].
  eexists. split; [done|]. split_and!.
  - repeat apply Forall_app_2; [by apply summary_clean|apply rules_clean|by repeat constructor| |by apply journal_clean|apply errors_clean].
    destruct Hfirst as [(q & e & Hin & ->)|(l & -> & Hl & _)]; [|by apply Forall_singleton].
    destruct Ht as (_ & _ & _ & _ & _ & Hev & _). rewrite Forall_forall in He, Hev. apply event_lines_clean; auto.
  - rewrite !filter_app, rules_unmarked, errors_marked.
    assert (Hn : marked first = []).
    { destruct Hfirst as [(q & e & _ & ->)|(l & -> & _ & Hl)]; [done|]. by rewrite filter_cons, decide_False. }
    by rewrite Hn.
  - intros r Hr l Hl. apply elem_of_app. right. apply elem_of_app. left. apply list_elem_of_bind. by exists r.
Qed.

(** a report is generated for every valid incident, without an index out of range.
    No text of the guest adds a heading, a line, HTML, a link, an image, emphasis or a table
    column to it: its headings are the template's and its bytes carry no Markdown meaning.
    Every rule and every evidence reference has its line. *)
Theorem report_keeps_its_structure `{HL : ReportLaws} i :
  typed_incident i → validate_incident i = Ok () →
  ∃ r, generate_incident_report i = Some (Ok r)
    ∧ all_bytes (λ b, shown b || is_char line_feed b) r = true
    ∧ base.filter is_heading (split_on line_feed (chars r)) = chars <$> headings i
    ∧ ∀ t, t ∈ i.(in_rules) → ∀ l, l ∈ rule_lines t → chars l ∈ split_on line_feed (chars r).
Proof.
  intros Ht Hv. destruct (report_lines_some i Ht Hv) as (ls & Hls & Hc & Hm & Hr).
  exists (unlines ls). unfold generate_incident_report. rewrite Hv, Hls. split; [done|].
  split; [by apply unlines_shown|]. rewrite split_unlines by done. split.
  - rewrite filter_app, filter_chars, Hm. apply app_nil_r.
  - intros t Hin l Hl. apply elem_of_app. left. apply list_elem_of_fmap. exists l. split; [done|]. by apply (Hr t).
Qed.

(** escaping loses nothing: whoever reads the numeric character references of an escaped
    text back sees the characters of the original. *)
Theorem escaped_text_reads_back value : html_text (chars (escaped value)) = Some (code_points (chars value)).
Proof. apply html_escaped. Qed.

(** ** Witness *)
Module SampleReport.

Import Enforcement.SampleHost Watchdog.SampleWatchdog.

#[global] Instance report_host : Host := {|
  sha256_hex := @sha256_hex length_host;
  to_rfc3339 t := decimal (t + chrono_bound);
  uuid_to_string u := String.string_of_list_ascii (Events.Sample.hex 36 (Z.of_N u)) |}.
#[global] Instance report_host_laws : ReportLaws report_host.
Proof.
  split.
  - intros u _. cbn [uuid_to_string report_host]. unfold all_bytes. rewrite Events.Sample.chars_of_list_ascii.
    apply forallb_Forall. pose proof (Events.Sample.hex_shape 36 (Z.of_N u)) as Hh. apply forallb_Forall in Hh.
    eapply Forall_impl; [exact Hh|]. each_byte.
  - intros t _. cbn [to_rfc3339 report_host]. unfold all_bytes. apply forallb_Forall.
    eapply Forall_impl; [apply decimal_digits|]. each_byte.
Qed.

Definition reported_event : GuardEvent := with_hash {|
  timestamp := 1000000000; event_id := 1; sandbox_id := 7; tenant_id := 9; policy_hash := GENESIS_HASH; category := Dns;
  decision := Deny; reason := "DNS name denied"; destination := Some "[x](http://e.example)"%string; request_bytes := 10;
  response_bytes := 0; duration_ms := 2; previous_hash := GENESIS_HASH; current_hash := "" |}.

Definition reported : GuardIncident := {|
  in_id := 11; in_identity := identity; in_fence := {| lease_id := 3; generation := 1 |};
  in_rules := [{| rt_rule := "suspicious_dns"; first_event_sequence := Some 1;
                  evidence_references := [event_reference 1 reported_event] |}];
  triggered_at := 2000000000; network_cut_at := Some 2000000000; paused_at := None; snapshot_id := None;
  completed_at := None; in_events := [reported_event]; event_start_sequence := 1; event_previous_hash := GENESIS_HASH;
  event_sequence := 1; event_head := reported_event.(current_hash); in_errors := ["forensic capture: <down>"%string];
  notified_at := None; report := "" |}.

Lemma report_keeps_its_structure_witness : ∃ r,
  generate_incident_report reported = Some (Ok r)
  ∧ base.filter is_heading (split_on line_feed (chars r)) = chars <$> headings reported.
Proof.
  assert (Ht : typed_incident reported).
  { assert (He : typed_reported reported_event) by (split; vm_compute; auto).
    assert (Hi : is_instant 2000000000) by (vm_compute; auto).
    refine (conj eq_refl (conj eq_refl (conj eq_refl (conj eq_refl (conj Hi (conj _ (conj Hi (conj I I)))))))).
    cbn [in_events reported]. rewrite Forall_singleton. exact He. }
  assert (Hv : validate_incident reported = Ok ()) by (vm_compute; reflexivity).
  destruct (report_keeps_its_structure reported Ht Hv) as (r & Hr & _ & Hh & _).
  exists r. split; [exact Hr|exact Hh].
Defined.

End SampleReport.
