(* ===== verification/Proposals.v ===== *)
(** * Proposals: an agent asks, a human decides, the verifier checks

    [crates/aiec-guard/src/proposals.rs], with the operator's credential store of
    [gateway.rs].  A [ProposalStore] holds the proposals of one attachment beside the
    live policy cell, the ruleset the kernel enforces and the journal.

    The journal's and the enforcement backend's answers are arguments of the operations,
    and so is the text an error displays.  [apply_locked] reads its proposal before it
    takes the apply lock, so an approval is two steps: [pending], then [apply]. *)

From Stdlib Require Import Ascii.
From stdpp Require Import pretty.
From S2P Require Import Prelude Policy Events Boundary L7 Text.

Definition MAX_SUMMARY_BYTES : Z := 256.
Definition MAX_PENDING_PROPOSALS : Z := 32.
Definition MAX_GRANTS_PER_PROPOSAL : Z := 16.
Definition MAX_NOTE_BYTES : Z := 256.
Definition MAX_AGENT_ID_BYTES : Z := 64.

(** ** The operator's credentials *)
Abbreviation CredentialStore := (gmap string string) (only parsing).

Definition credential_insert (s : CredentialStore) (name secret : string) : result GuardError.t CredentialStore :=
  bail_if is_empty name || (64 <? slen name)
       || negb (all_bytes (λ b, is_ascii_alphanumeric b || is_char "-" b || is_char "_" b) name)
       || is_empty secret || (8192 <? slen secret)
       || any_byte (λ b, (byte_of b <? 32) || (byte_of b =? 127)) secret with GuardError.Policy;
  bail_if bool_decide (is_Some (s !! name)) with GuardError.Policy;
  Ok (<[name := secret]> s).

(** The comparison visits every byte of a candidate of the right length. *)
Definition difference (expected candidate : list ascii) : Z :=
  foldl (λ d '(l, r), Z.lor d (Z.lxor (byte_of l) (byte_of r))) 0 (zip expected candidate).

Definition matches (s : CredentialStore) (name candidate : string) : bool :=
  match s !! name with
  | None => false
  | Some expected =>
      if negb (slen expected =? slen candidate) then false
      else difference (chars expected) (chars candidate) =? 0
  end.

(** ** Text *)

(** A scalar value's bytes: a leading byte and the continuation bytes after it. *)
Definition is_continuation (c : ascii) : bool := in_range 128 191 c.

Fixpoint scalars (s : list ascii) : list (list ascii) :=
  match s with
  | [] => []
  | a :: s =>
      match scalars s with
      | (b :: g) :: gs => if is_continuation b then (a :: b :: g) :: gs else [a] :: (b :: g) :: gs
      | gs => [a] :: gs
      end
  end.

(** [char::is_control]: U+0000 to U+001F, U+007F and U+0080 to U+009F. *)
Definition is_control (g : list ascii) : bool :=
  match g with
  | [a] => (byte_of a <? 32) || (byte_of a =? 127)
  | [a; b] => (byte_of a =? 194) && in_range 128 159 b
  | _ => false
  end.

Definition is_ascii_scalar (g : list ascii) : bool :=
  match g with [a] => is_ascii_byte a | _ => false end.

Definition printable (value : string) : bool :=
  negb (existsb (λ g, is_control g || negb (is_ascii_scalar g)) (scalars (chars value))).

(** The scalars that fit before the limit, in order. *)
Fixpoint truncate (used limit : Z) (gs : list (list ascii)) : list ascii :=
  match gs with
  | [] => []
  | g :: gs =>
      if limit <? used + Z.of_nat (length g) then []
      else g ++ truncate (used + Z.of_nat (length g)) limit gs
  end.

Definition bound_reason (reason : string) : string :=
  let cleaned := base.filter (λ g, is_control g = false) (scalars (chars reason)) in
  let text := concat cleaned in
  if Z.of_nat (length text) <=? MAX_REASON_BYTES then string_of text
  else string_of (truncate 0 (MAX_REASON_BYTES - 3) cleaned ++ chars "...").

(** A label, a summary or a note: bounded printable words. *)
Definition bounded_text (value : string) (max : Z) : bool :=
  negb (is_empty value) && (slen value <=? max) && printable value.

(** ** Who asks and who decides *)
Record AgentCredential := { ac_sandbox_id : Uuid; ac_tenant_id : Uuid; ac_agent_id : string }.

Definition AgentCredential_new (sandbox_id tenant_id : Uuid) (agent_id : string)
    : result GuardError.t AgentCredential :=
  bail_if negb (bounded_text agent_id MAX_AGENT_ID_BYTES) with GuardError.Denied;
  Ok {| ac_sandbox_id := sandbox_id; ac_tenant_id := tenant_id; ac_agent_id := agent_id |}.

Record HumanApproval := { operator_id : string }.

Definition HumanApproval_operator (operator credential_name secret : string) (s : CredentialStore)
    : result GuardError.t HumanApproval :=
  bail_if negb (bounded_text operator MAX_AGENT_ID_BYTES) with GuardError.Denied;
  bail_if negb (matches s credential_name secret) with GuardError.Denied;
  Ok {| operator_id := operator |}.

(** ** Requests *)
Record EgressGrant := {
  g_host : string; g_port : Z; g_methods : list string; g_paths : list string }.

Definition EgressGrant_validate (g : EgressGrant) : result GuardError.t () :=
  let? _ := validate_dns_name g.(g_host) 2 in
  bail_if g.(g_port) =? 0 with GuardError.Policy;
  bail_if (MAX_LIST_ITEMS <? count g.(g_methods)) || (MAX_LIST_ITEMS <? count g.(g_paths))
    with GuardError.Policy;
  let? _ := each (λ method,
      bail_if is_empty method || (MAX_METHOD_BYTES <? slen method)
           || negb (all_bytes (λ b, is_ascii_uppercase b || is_ascii_digit b || is_one_of "-_." b) method)
        with GuardError.Policy; Ok ()) g.(g_methods) in
  each (λ path, bail_if negb (safe_path path) || (MAX_PATH_BYTES <? slen path)
          with GuardError.Policy; Ok ()) g.(g_paths).

Definition to_rule (g : EgressGrant) : EgressRule := {|
  e_host := g.(g_host); e_port := g.(g_port); e_protocol := EGRESS_PROTOCOL_TCP;
  e_methods := sort_strings g.(g_methods); e_paths := sort_strings g.(g_paths) |}.

Record ProposalRequest := { summary : string; allow : list EgressGrant }.

(** Whether an earlier grant names the destination of a later one. *)
Fixpoint asks_twice (seen l : list EgressGrant) : bool :=
  match l with
  | [] => false
  | g :: l =>
      existsb (λ o, bool_decide (o.(g_host) = g.(g_host)) && (o.(g_port) =? g.(g_port))) seen
      || asks_twice (seen ++ [g]) l
  end.

Definition ProposalRequest_validate (r : ProposalRequest) : result GuardError.t () :=
  bail_if negb (bounded_text r.(summary) MAX_SUMMARY_BYTES) with GuardError.Denied;
  bail_if (count r.(allow) =? 0) || (MAX_GRANTS_PER_PROPOSAL <? count r.(allow)) with GuardError.Denied;
  let? _ := each EgressGrant_validate r.(allow) in
  bail_if asks_twice [] r.(allow) with GuardError.Denied;
  Ok ().

(** ** Proposals and the live policy *)
Inductive ProposalState :=
| Pending
| Approved (policy_hash : string)
| StateDenied (note : string)
| Refused (reason : string).

Record Proposal := {
  p_id : Uuid; p_sandbox_id : Uuid; p_tenant_id : Uuid; p_agent_id : string;
  p_request : ProposalRequest; base_policy_hash : string; p_state : ProposalState }.

#[global] Instance EgressGrant_eq_dec : EqDecision EgressGrant. Proof. solve_decision. Defined.
#[global] Instance ProposalRequest_eq_dec : EqDecision ProposalRequest. Proof. solve_decision. Defined.
#[global] Instance ProposalState_eq_dec : EqDecision ProposalState. Proof. solve_decision. Defined.

Definition is_pending (p : Proposal) : bool := bool_decide (p.(p_state) = Pending).

(** [ActivePolicy]: the policy in force and the layer 7 rules that stay with it. *)
Record ActivePolicy := { active_compiled : CompiledPolicy; active_l7 : option L7Policy }.

Definition AtomicPolicy_new (c : CompiledPolicy) (l : option L7Policy) : result GuardError.t ActivePolicy :=
  let? _ := match l with Some l => L7.validate l | None => Ok () end in
  Ok {| active_compiled := c; active_l7 := l |}.

(** The store, with the cell it changes, what the backend has installed and the
    records the journal has taken. *)
Record ProposalStore := {
  ps_sandbox_id : Uuid; ps_tenant_id : Uuid; ps_boundary : OperatorBoundary;
  ps_policy : ActivePolicy; ps_installed : CompiledPolicy;
  ps_proposals : gmap Uuid Proposal; ps_journal : list EventInput }.

(** [confirm_replay]'s answer carries what was applied. *)
Record ApplyOutcome := {
  proposal_id : Uuid; ao_operator : string; previous_policy_hash : string; ao_policy_hash : string;
  ao_event : EventInput }.

Definition with_state (p : Proposal) (s : ProposalState) : Proposal := {|
  p_id := p.(p_id); p_sandbox_id := p.(p_sandbox_id); p_tenant_id := p.(p_tenant_id);
  p_agent_id := p.(p_agent_id); p_request := p.(p_request);
  base_policy_hash := p.(base_policy_hash); p_state := s |}.

Definition with_proposals (s : ProposalStore) (m : gmap Uuid Proposal) : ProposalStore := {|
  ps_sandbox_id := s.(ps_sandbox_id); ps_tenant_id := s.(ps_tenant_id); ps_boundary := s.(ps_boundary);
  ps_policy := s.(ps_policy); ps_installed := s.(ps_installed); ps_proposals := m;
  ps_journal := s.(ps_journal) |}.

Definition with_events (s : ProposalStore) (j : list EventInput) : ProposalStore := {|
  ps_sandbox_id := s.(ps_sandbox_id); ps_tenant_id := s.(ps_tenant_id); ps_boundary := s.(ps_boundary);
  ps_policy := s.(ps_policy); ps_installed := s.(ps_installed); ps_proposals := s.(ps_proposals);
  ps_journal := j |}.

Definition in_force (s : ProposalStore) : CompiledPolicy := s.(ps_policy).(active_compiled).
Definition policy_hash_in_force (s : ProposalStore) : string := (in_force s).(policy_hash).

(** ** The candidate *)
Definition add_grant (p : GuardPolicy) (g : EgressGrant) : GuardPolicy :=
  let zones := p.(network).(dns).(allowed_zones) in
  {| version := p.(version);
     network := {|
       dns := {| allowed_zones := if bool_decide (g.(g_host) ∈ zones) then zones else zones ++ [g.(g_host)];
                 allowed_record_types := p.(network).(dns).(allowed_record_types) |};
       egress := p.(network).(egress) ++ [to_rule g] |};
     model := p.(model); credentials := p.(credentials); limits := p.(limits) |}.


Definition is_extension_of (base candidate : GuardPolicy) : bool :=
  let old := base.(network) in
  let new := candidate.(network) in
  if negb (base.(version) =? candidate.(version))
     || negb (bool_decide (base.(limits) = candidate.(limits)))
     || negb (bool_decide (base.(model) = candidate.(model)))
     || negb (bool_decide (base.(credentials) = candidate.(credentials)))
     || negb (bool_decide (old.(dns).(allowed_record_types) = new.(dns).(allowed_record_types)))
  then false
  else
    forallb (λ z, bool_decide (z ∈ new.(dns).(allowed_zones))) old.(dns).(allowed_zones)
    && forallb (λ z, bool_decide (z ∈ old.(dns).(allowed_zones))
                     || existsb (λ r, bool_decide (r.(e_host) = z)) new.(egress)) new.(dns).(allowed_zones)
    && (count (base.filter (λ r, r ∈ old.(egress)) new.(egress)) =? count old.(egress))
    && (count old.(egress) <? count new.(egress)).

Definition candidate_policy (base : GuardPolicy) (r : ProposalRequest) : result GuardError.t GuardPolicy :=
  let candidate := foldl add_grant base r.(allow) in
  bail_if negb (is_extension_of base candidate) with GuardError.Denied;
  Ok candidate.

Definition single_destination (r : ProposalRequest) : option string :=
  match r.(allow) with
  | [g] => Some (g.(g_host) +:+ ":" +:+ pretty (Z.to_N g.(g_port)))
  | _ => None
  end.

Definition same_request (stored incoming : Proposal) : bool :=
  bool_decide (stored.(p_sandbox_id) = incoming.(p_sandbox_id))
  && bool_decide (stored.(p_tenant_id) = incoming.(p_tenant_id))
  && bool_decide (stored.(p_agent_id) = incoming.(p_agent_id))
  && bool_decide (stored.(p_request) = incoming.(p_request))
  && bool_decide (stored.(base_policy_hash) = incoming.(base_policy_hash)).

(** ** Operations: a state and error monad over the store *)
Definition Act (A : Type) : Type := ProposalStore → ProposalStore * result GuardError.t A.

#[global] Instance act_ret : MRet Act := λ A x s, (s, Ok x).
#[global] Instance act_bind : MBind Act := λ A B f m s,
  match m s with (s, Ok x) => f x s | (s, Err e) => (s, Err e) end.

Definition throw {A} (e : GuardError.t) : Act A := λ s, (s, Err e).
Definition lift {A} (r : result GuardError.t A) : Act A := λ s, (s, r).
Definition reads {A} (f : ProposalStore → A) : Act A := λ s, (s, Ok (f s)).
Definition modify {A} (f : ProposalStore → ProposalStore) (x : A) : Act A := λ s, (f s, Ok x).
Definition unless_ (b : bool) (e : GuardError.t) : Act () := λ s, (s, if b then Ok () else Err e).

Section Store.
Context `{IpNetLib}.
(** [GuardPolicy::hash] and [Uuid::simple]. *)
Context (hash : GuardPolicy → result GuardError.t string) (simple : Uuid → string).

Definition append_with_hash (sink : result GuardError.t ()) (decision : Decision) (reason : string)
    (destination : option string) (h : string) : Act EventInput := λ s,
  let e := {| i_sandbox_id := s.(ps_sandbox_id); i_tenant_id := s.(ps_tenant_id); i_policy_hash := h;
              i_category := Events.Policy; i_decision := decision; i_reason := bound_reason reason;
              i_destination := destination; i_request_bytes := 0; i_response_bytes := 0;
              i_duration_ms := 0 |} in
  match sink with
  | Ok _ => (with_events s (s.(ps_journal) ++ [e]), Ok e)
  | Err err => (s, Err err)
  end.

Definition append (sink : result GuardError.t ()) (decision : Decision) (reason : string)
    (destination : option string) : Act EventInput :=
  h ← reads policy_hash_in_force;
  append_with_hash sink decision reason destination h.

Definition proposal (id : Uuid) : Act Proposal := λ s,
  (s, ok_or (s.(ps_proposals) !! id) GuardError.Denied).

Definition pending (id : Uuid) : Act Proposal :=
  p ← proposal id;
  _ ← unless_ (is_pending p) GuardError.Denied;
  mret p.

Definition settle (id : Uuid) (state : ProposalState) : Act Proposal :=
  p ← proposal id;
  modify (λ s, with_proposals s (<[id := with_state p state]> s.(ps_proposals))) (with_state p state).

(** [AtomicPolicy::swap]: verified again, the layer 7 rules kept. *)
Definition swap (c : CompiledPolicy) : Act string :=
  _ ← lift (verify c);
  modify (λ s, {|
    ps_sandbox_id := s.(ps_sandbox_id); ps_tenant_id := s.(ps_tenant_id); ps_boundary := s.(ps_boundary);
    ps_policy := {| active_compiled := c; active_l7 := s.(ps_policy).(active_l7) |};
    ps_installed := s.(ps_installed); ps_proposals := s.(ps_proposals);
    ps_journal := s.(ps_journal) |}) c.(policy_hash).

(** [EnforcementBackend::apply_policy]; a refused ruleset leaves the old one installed. *)
Definition install (install_ok : bool) (c : CompiledPolicy) : Act () :=
  modify (λ s, {|
    ps_sandbox_id := s.(ps_sandbox_id); ps_tenant_id := s.(ps_tenant_id); ps_boundary := s.(ps_boundary);
    ps_policy := s.(ps_policy); ps_installed := if install_ok then c else s.(ps_installed);
    ps_proposals := s.(ps_proposals); ps_journal := s.(ps_journal) |}) ().

Definition add_proposal (p : Proposal) : Act () := λ s,
  if MAX_PENDING_PROPOSALS <=? Z.of_nat (size s.(ps_proposals)) then (s, Err GuardError.Denied)
  else (with_proposals s (<[p.(p_id) := p]> s.(ps_proposals)), Ok ()).

Definition submit (id : Uuid) (sink : result GuardError.t ()) (agent : AgentCredential) (r : ProposalRequest)
    : Act Proposal :=
  s ← reads (λ s, s);
  _ ← unless_ (bool_decide (agent.(ac_sandbox_id) = s.(ps_sandbox_id))
               && bool_decide (agent.(ac_tenant_id) = s.(ps_tenant_id))) GuardError.Denied;
  _ ← lift (ProposalRequest_validate r);
  let p := {| p_id := id; p_sandbox_id := s.(ps_sandbox_id); p_tenant_id := s.(ps_tenant_id);
              p_agent_id := agent.(ac_agent_id); p_request := r;
              base_policy_hash := policy_hash_in_force s; p_state := Pending |} in
  _ ← add_proposal p;
  _ ← append sink Allow "policy proposal submitted for human review" None;
  mret p.

Fixpoint restore (ps : list Proposal) : Act Z :=
  match ps with
  | [] => reads (λ s, Z.of_nat (size s.(ps_proposals)))
  | p :: ps =>
      s ← reads (λ s, s);
      _ ← unless_ (bool_decide (p.(p_sandbox_id) = s.(ps_sandbox_id))
                   && bool_decide (p.(p_tenant_id) = s.(ps_tenant_id))) GuardError.Denied;
      _ ← add_proposal p;
      restore ps
  end.

(** The part of [apply_locked] under the apply lock; [shown] is the text of the
    verifier's error. *)
Definition apply (sink : result GuardError.t ()) (install_ok : bool) (shown : string) (id : Uuid)
    (p : Proposal) (approved_by : string) : Act ApplyOutcome :=
  current ← reads in_force;
  if negb (bool_decide (current.(policy_hash) = p.(base_policy_hash))) then
    _ ← settle id (Refused "the policy changed since this proposal was written");
    throw GuardError.Denied
  else
    candidate ← lift (candidate_policy current.(cp_policy) p.(p_request));
    b ← reads ps_boundary;
    match compile hash candidate b with
    | Err _ =>
        let reason := bound_reason ("verifier refused the proposal: " +:+ shown) in
        _ ← settle id (Refused reason);
        _ ← append sink Deny reason None;
        throw GuardError.Denied
    | Ok verified =>
        _ ← install install_ok verified;
        if negb install_ok then
          _ ← append sink Deny "enforcement refused the new ruleset" None;
          throw GuardError.Unavailable
        else
          h ← swap verified;
          e ← append_with_hash sink Allow
                ("policy proposal " +:+ simple p.(p_id) +:+ " applied by operator review")
                (single_destination p.(p_request)) h;
          _ ← settle id (Approved h);
          mret {| proposal_id := p.(p_id); ao_operator := approved_by;
                  previous_policy_hash := current.(policy_hash); ao_policy_hash := h; ao_event := e |}
    end.

Definition apply_locked (sink : result GuardError.t ()) (install_ok : bool) (shown : string) (id : Uuid)
    (approved_by : string) : Act ApplyOutcome :=
  p ← pending id;
  apply sink install_ok shown id p approved_by.

Definition approve (sink : result GuardError.t ()) (install_ok : bool) (shown : string)
    (review : HumanApproval) (id : Uuid) : Act ApplyOutcome :=
  _ ← pending id;
  apply_locked sink install_ok shown id review.(operator_id).

Definition confirm_replay (applied_hash : string) : Act ApplyOutcome :=
  h ← reads policy_hash_in_force;
  if negb (bool_decide (h = applied_hash)) then throw GuardError.Denied
  else throw GuardError.AlreadyApplied.

Definition apply_attested (sink : result GuardError.t ()) (install_ok : bool) (shown : string)
    (p : Proposal) (approved_by : string) : Act ApplyOutcome :=
  _ ← unless_ (bounded_text approved_by MAX_AGENT_ID_BYTES) GuardError.Denied;
  known ← reads (λ s, s.(ps_proposals) !! p.(p_id));
  match known with
  | Some existing =>
      _ ← unless_ (same_request existing p) GuardError.Denied;
      match existing.(p_state) with
      | Pending => apply_locked sink install_ok shown p.(p_id) approved_by
      | Approved h => confirm_replay h
      | StateDenied _ | Refused _ => throw GuardError.Denied
      end
  | None =>
      _ ← restore [p];
      apply_locked sink install_ok shown p.(p_id) approved_by
  end.

Definition deny (sink : result GuardError.t ()) (review : HumanApproval) (id : Uuid) (note : string)
    : Act Proposal :=
  p ← pending id;
  _ ← unless_ (bounded_text note MAX_NOTE_BYTES) GuardError.Denied;
  _ ← append sink Deny
        ("policy proposal " +:+ simple p.(p_id) +:+ " denied by " +:+ review.(operator_id)) None;
  settle id (StateDenied note).

End Store.

Definition ProposalStore_new `{IpNetLib} (sandbox_id tenant_id : Uuid) (b : OperatorBoundary)
    (cell : ActivePolicy) (installed : CompiledPolicy) (j : list EventInput)
    : result GuardError.t ProposalStore :=
  let? _ := verify cell.(active_compiled) in
  Ok {| ps_sandbox_id := sandbox_id; ps_tenant_id := tenant_id; ps_boundary := b; ps_policy := cell;
        ps_installed := installed; ps_proposals := ∅; ps_journal := j |}.

(** ** Lemmas: credentials and text *)
Lemma difference_zero (e c : list ascii) :
  length e = length c → difference e c = 0 ↔ e = c.
Proof.
  unfold difference. intros Hl.
  enough (Hd : ∀ d, foldl (λ d '(l, r), Z.lor d (Z.lxor (byte_of l) (byte_of r))) d (zip e c) = 0
                    ↔ d = 0 ∧ e = c) by (rewrite Hd; tauto).
  revert c Hl. induction e as [|a e IH]; intros [|b c] [=] d; simpl; [tauto|].
  rewrite IH by done. rewrite Z.lor_eq_0_iff, Z.lxor_eq_0_iff. split.
  - intros [[-> Hb] ->]. by apply byte_of_inj in Hb as ->.
  - by intros [-> [= -> ->]].
Qed.

Lemma matches_iff (s : CredentialStore) name candidate :
  matches s name candidate = true ↔ s !! name = Some candidate.
Proof.
  unfold matches. destruct (s !! name) as [e|]; [|done].
  destruct (Z.eqb_spec (slen e) (slen candidate)) as [Hl|Hl]; simpl.
  - unfold slen in Hl. rewrite <-!length_chars in Hl.
    rewrite Z.eqb_eq, difference_zero by lia. split; [by intros ->%chars_inj|by intros [= ->]].
  - split; [done|]. by intros [= ->].
Qed.

Lemma scalars_ascii s : Forall (λ a, is_ascii_byte a = true) s → scalars s = (λ a, [a]) <$> s.
Proof.
  induction 1 as [|a s Ha Hs IH]; [done|]. simpl. rewrite IH. destruct Hs as [|b s Hb Hs]; [done|]. simpl.
  assert (is_continuation b = false) as ->; [|done].
  unfold is_continuation, in_range, is_ascii_byte in *. lia.
Qed.

Lemma truncate_length used limit gs :
  used + Z.of_nat (length (truncate used limit gs)) ≤ Z.max used limit.
Proof.
  revert used. induction gs as [|g gs IH]; intros used; simpl; [lia|].
  destruct (Z.ltb_spec limit (used + Z.of_nat (length g))); simpl; [lia|].
  rewrite length_app. specialize (IH (used + Z.of_nat (length g))). lia.
Qed.

Lemma truncate_elem used limit gs a : a ∈ truncate used limit gs → a ∈ concat gs.
Proof.
  revert used. induction gs as [|g gs IH]; intros used; simpl; [done|]. case_match; [by intros ?%elem_of_nil|].
  rewrite !elem_of_app. intros [?|?%IH]; tauto.
Qed.

(** The journal takes every reason the store writes about ASCII text. *)
Lemma bound_reason_recordable reason :
  all_bytes is_ascii_byte reason = true →
  bounded_metadata (bound_reason reason) MAX_REASON_BYTES true = Ok ().
Proof.
  intros Ha. rewrite all_bytes_true, <-Forall_forall in Ha.
  assert (Hc : ∀ a, a ∈ concat (base.filter (λ g, is_control g = false) (scalars (chars reason))) →
    Events.printable a = true).
  { rewrite scalars_ascii by done. intros a (g & Hin%list_elem_of_In & Hg%list_elem_of_In)%list_elem_of_In%List.in_concat.
    apply list_elem_of_filter in Hin as [Hctl (b & -> & Hb)%list_elem_of_fmap_1].
    apply list_elem_of_singleton in Hg as ->. rewrite Forall_forall in Ha. apply Ha in Hb.
    unfold Events.printable, in_range, is_ascii_byte in *. simpl in Hctl. lia. }
  unfold bounded_metadata, bound_reason. cbv zeta. case_match eqn:He; [done|].
  match goal with |- context [slen ?t] => assert (Ht : slen t ≤ MAX_REASON_BYTES
    ∧ ∀ a, a ∈ chars t → Events.printable a = true) end.
  { destruct (Z.leb_spec (Z.of_nat (length (concat (base.filter (λ g, is_control g = false)
      (scalars (chars reason)))))) MAX_REASON_BYTES) as [Hl|Hl]; unfold slen; rewrite <-length_chars, chars_string_of.
    - split; [lia|done].
    - split.
      + rewrite length_app. match goal with |- context [truncate ?u ?l ?g] => pose proof (truncate_length u l g) end.
        unfold MAX_REASON_BYTES in *. cbn [length chars String.list_ascii_of_string]. lia.
      + intros a [?%truncate_elem%Hc|Ha']%elem_of_app; [done|].
        repeat (apply elem_of_cons in Ha' as [->|Ha']; [done|]). by apply elem_of_nil in Ha'. }
  destruct Ht as [Hl Hp]. rewrite (proj2 (Z.ltb_ge _ _)) by done.
  by rewrite (proj2 (all_bytes_true _ _)).
Qed.

(** ** Lemmas: the candidate *)
Lemma foldl_add_grant base gs :
  let p := foldl add_grant base gs in
  p.(network).(egress) = base.(network).(egress) ++ (to_rule <$> gs)
  ∧ (∀ z, z ∈ p.(network).(dns).(allowed_zones) ↔
       z ∈ base.(network).(dns).(allowed_zones) ∨ z ∈ g_host <$> gs)
  ∧ p.(network).(dns).(allowed_record_types) = base.(network).(dns).(allowed_record_types)
  ∧ p.(model) = base.(model) ∧ p.(credentials) = base.(credentials) ∧ p.(limits) = base.(limits).
Proof.
  revert base. induction gs as [|g gs IH]; intros base; cbn zeta in *; simpl.
  - rewrite app_nil_r. split_and!; [done| |done..]. intros z. rewrite elem_of_nil. tauto.
  - destruct (IH (add_grant base g)) as (-> & Hz & -> & -> & -> & ->). simpl.
    split_and!; [by rewrite <-app_assoc| |done..].
    intros z. rewrite Hz, elem_of_cons. simpl. case_bool_decide; [naive_solver|].
    rewrite elem_of_app, list_elem_of_singleton. tauto.
Qed.

Lemma candidate_policy_ok base r p :
  candidate_policy base r = Ok p → p = foldl add_grant base r.(allow).
Proof. unfold candidate_policy. cbv zeta. intros H. ok_inv H. by injection H. Qed.

(** ** Lemmas: which rule answers for a destination *)
Definition serves (host : string) (port : Z) (r : EgressRule) : bool :=
  (r.(e_port) =? port) && eq_ignore_case (chars r.(e_host)) (chars host).

(** At most one rule of a validated policy serves a destination. *)
Lemma serves_unique p host port r r' :
  Forall rule_ok p.(network).(egress) →
  NoDup ((λ r, (r.(e_host), r.(e_port))) <$> p.(network).(egress)) →
  r ∈ p.(network).(egress) → r' ∈ p.(network).(egress) →
  serves host port r = true → serves host port r' = true → r = r'.
Proof.
  unfold serves. intros Hok Hd Hr Hr' [Hp Hh]%andb_true_iff [Hp' Hh']%andb_true_iff.
  eapply NoDup_fmap_elem; [exact Hd|done|done|]. apply Z.eqb_eq in Hp, Hp'. cbv beta. rewrite Hp, Hp'. f_equal.
  rewrite Forall_forall in Hok. apply Hok in Hr as [Hr _]. apply Hok in Hr' as [Hr' _].
  apply canonical_lower in Hr as [Hr _], Hr' as [Hr' _].
  apply eq_ignore_case_iff in Hh, Hh'. apply chars_inj. unfold lower in *. congruence.
Qed.

Lemma endpoint_iff c p host port r :
  c.(cp_policy) = normalized p → GuardPolicy_validate p = Ok () →
  endpoint c host port = Some r ↔
  ∃ r', r' ∈ p.(network).(egress) ∧ r = normalize_rule r' ∧ serves host port r' = true.
Proof.
  intros Hc Hv. unfold GuardPolicy_validate in Hv. ok_inv Hv. bools.
  apply each_ok in Hok1. assert (Hrules : Forall rule_ok p.(network).(egress))
    by (eapply Forall_impl; [exact Hok1|apply EgressRule_validate_ok]).
  apply has_duplicate_NoDup in Hif0.
  assert (Hd : NoDup ((λ r, (r.(e_host), r.(e_port))) <$> p.(network).(egress))).
  { apply (NoDup_fmap_1 (λ '(h, q), h +:+ ":" +:+ pretty (Z.to_N q))). by rewrite <-list_fmap_compose. }
  unfold endpoint. rewrite Hc. fold (serves host port).
  change (λ r, (e_port r =? port) && eq_ignore_case (chars (e_host r)) (chars host)) with (serves host port).
  split.
  - intros [Hin Hs]%List.find_some. apply list_elem_of_In, normalized_egress in Hin as (r' & ? & ->).
    by exists r'.
  - intros (r' & Hin & -> & Hs).
    destruct (List.find _ _) as [q|] eqn:Hf.
    + apply List.find_some in Hf as [Hq Hsq]. apply list_elem_of_In, normalized_egress in Hq as (q' & ? & ->).
      by rewrite (serves_unique p host port q' r').
    + apply normalized_egress_2, list_elem_of_In, (List.find_none _ _ Hf) in Hin.
      change (serves host port r' = false) in Hin. congruence.
Qed.

Lemma sort_strings_idem l : sort_strings (sort_strings l) = sort_strings l.
Proof. apply sort_by_idem, sort_by_sorted; [apply string_leb_total|apply string_leb_trans]. Qed.

Lemma normalize_rule_idem r : normalize_rule (normalize_rule r) = normalize_rule r.
Proof. unfold normalize_rule. simpl. by rewrite !sort_strings_idem. Qed.

Lemma normalize_rule_to_rule g : normalize_rule (to_rule g) = to_rule g.
Proof. unfold normalize_rule, to_rule. simpl. by rewrite !sort_strings_idem. Qed.

(** ** Lemmas: the monad *)
Lemma bind_ok {A B} (m : Act A) (f : A → Act B) s s' x :
  (m ≫= f) s = (s', Ok x) → ∃ s1 y, m s = (s1, Ok y) ∧ f y s1 = (s', Ok x).
Proof. unfold mbind, act_bind. destruct (m s) as [s1 [y|e]]; [by eauto|done]. Qed.

(** What every outcome of an operation, errors included, does to the store. *)
Definition keeps {A} (R : ProposalStore → ProposalStore → Prop) (m : Act A) : Prop :=
  ∀ s, R s (m s).1.

Section Keeps.
Context (R : ProposalStore → ProposalStore → Prop) `{!PreOrder R}.

Lemma keeps_bind {A B} (m : Act A) (f : A → Act B) :
  keeps R m → (∀ x, keeps R (f x)) → keeps R (m ≫= f).
Proof.
  intros Hm Hf s. unfold mbind, act_bind. specialize (Hm s). destruct (m s) as [s1 [y|e]]; [|done].
  etrans; [exact Hm|apply Hf].
Qed.

Lemma keeps_ret {A} (x : A) : keeps R (mret x). Proof. intros s. reflexivity. Qed.
Lemma keeps_throw {A} e : keeps R (throw (A := A) e). Proof. intros s. reflexivity. Qed.
Lemma keeps_lift {A} (r : result _ A) : keeps R (lift r). Proof. intros s. reflexivity. Qed.
Lemma keeps_reads {A} (f : _ → A) : keeps R (reads f). Proof. intros s. reflexivity. Qed.
Lemma keeps_unless b e : keeps R (unless_ b e). Proof. intros s. reflexivity. Qed.
Lemma keeps_proposal id : keeps R (proposal id). Proof. intros s. reflexivity. Qed.
Lemma keeps_modify {A} f (x : A) : (∀ s, R s (f s)) → keeps R (modify f x). Proof. intros Hf s. apply Hf. Qed.
End Keeps.

Create HintDb keeps.
#[export] Hint Resolve keeps_bind keeps_ret keeps_throw keeps_lift keeps_reads keeps_unless
  keeps_proposal : keeps.

Lemma keeps_pending R `{!PreOrder R} id : keeps R (pending id).
Proof. unfold pending. auto 10 with keeps. Qed.

(** The policy cell and the installed ruleset are untouched. *)
Definition same_cell (s s' : ProposalStore) : Prop :=
  s'.(ps_policy) = s.(ps_policy) ∧ s'.(ps_installed) = s.(ps_installed)
  ∧ s'.(ps_boundary) = s.(ps_boundary).
#[global] Instance same_cell_preorder : PreOrder same_cell.
Proof. split; [by intros s|]. intros s1 s2 s3 (?&?&?) (?&?&?). split_and!; congruence. Qed.

Lemma keeps_append sink d r dest h : keeps same_cell (append_with_hash sink d r dest h).
Proof. intros s. unfold append_with_hash. by destruct sink. Qed.
Lemma keeps_settle id st : keeps same_cell (settle id st).
Proof. unfold settle. apply keeps_bind; [typeclasses eauto|apply keeps_proposal; typeclasses eauto|]. by intros p s. Qed.
Lemma keeps_add p : keeps same_cell (add_proposal p).
Proof. intros s. unfold add_proposal. by case_match. Qed.
#[export] Hint Resolve keeps_pending keeps_append keeps_settle keeps_add same_cell_preorder : keeps.

Lemma submit_keeps id sink agent r : keeps same_cell (submit id sink agent r).
Proof. unfold submit, append. auto 20 with keeps. Qed.
Lemma restore_keeps ps : keeps same_cell (restore ps).
Proof. induction ps; simpl; auto 20 with keeps. Qed.
Lemma deny_keeps simple sink review id note : keeps same_cell (deny simple sink review id note).
Proof. unfold deny, append. auto 20 with keeps. Qed.

(** ** Lemmas: what an approval does to the cell *)
Section Apply.
Context `{IpNetLib} (hash : GuardPolicy → result GuardError.t string) (simple : Uuid → string).

(** The cell moved to the verified candidate of [p], installed first. *)
Definition moved (p : Proposal) (s s' : ProposalStore) : Prop :=
  (in_force s).(policy_hash) = p.(base_policy_hash)
  ∧ s'.(ps_boundary) = s.(ps_boundary) ∧ s'.(ps_policy).(active_l7) = s.(ps_policy).(active_l7)
  ∧ s'.(ps_installed) = in_force s'
  ∧ ∃ candidate, candidate_policy (in_force s).(cp_policy) p.(p_request) = Ok candidate
      ∧ compile hash candidate s.(ps_boundary) = Ok (in_force s').

Lemma compile_verified p b c : compile hash p b = Ok c → verify c = Ok () ∧ GuardPolicy_validate p = Ok ()
  ∧ c.(cp_policy) = normalized p ∧ c.(boundary) = b.
Proof.
  unfold compile. cbv zeta. intros Hc. ok_inv Hc. injection Hc as <-.
  by repeat match goal with u : () |- _ => destruct u end.
Qed.

Lemma apply_moves sink install_ok shown id p op s :
  let s' := (apply hash simple sink install_ok shown id p op s).1 in
  same_cell s s' ∨ moved p s s'.
Proof.
  unfold apply, mbind, act_bind, reads, lift. cbn -[same_cell moved].
  destruct (bool_decide_reflect ((in_force s).(policy_hash) = p.(base_policy_hash))) as [Hb|]; cbn [negb].
  2:{ left. pose proof (keeps_settle id (Refused "the policy changed since this proposal was written") s).
      by destruct (settle _ _ s) as [? []]. }
  destruct (candidate_policy _ _) as [cand|] eqn:Hcand; [|by left].
  destruct (compile hash cand _) as [v|e] eqn:Hv.
  - destruct install_ok; cbn -[same_cell moved].
    + apply compile_verified in Hv as Hver. destruct Hver as (Hver & _).
      unfold swap, mbind, act_bind, lift. rewrite Hver. cbn -[same_cell moved]. right.
      match goal with |- context [append_with_hash ?a ?b ?c ?d ?e ?t] =>
        set (t0 := t); assert (Hm : moved p s t0) by (split_and!; try done; by exists cand);
        pose proof (keeps_append a b c d e t0) as Ha;
        destruct (append_with_hash a b c d e t0) as [t1 [ev|]] end.
      2:{ clear -Hm Ha. destruct Ha as (E1 & E2 & E3). unfold moved, in_force in *. cbn in *.
          by rewrite E1, E2, E3. }
      match goal with |- context [settle ?a ?b t1] =>
        pose proof (keeps_settle a b t1) as Hs; destruct (settle a b t1) as [t2 []] end;
      cbn in *; destruct Ha as (E1 & E2 & E3), Hs as (F1 & F2 & F3);
      unfold moved, in_force in *; rewrite F1, F2, F3, E1, E2, E3; done.
    + left. match goal with |- context [append ?a ?b ?c ?d ?t] =>
        assert (Ha : keeps same_cell (append a b c d)) by (unfold append; auto with keeps);
        specialize (Ha t); destruct (append a b c d t) as [? []]; exact Ha end.
  - left. assert (Ha : keeps same_cell (
      settle id (Refused (bound_reason ("verifier refused the proposal: " +:+ shown))) ≫= λ _,
      append sink Deny (bound_reason ("verifier refused the proposal: " +:+ shown)) None ≫= λ _,
      throw (A := ApplyOutcome) GuardError.Denied)) by (unfold append; auto 10 with keeps).
    apply (Ha s).
Qed.
End Apply.

(** ** What an approval may do

    [extends c gs c']: the compiled policy [c'] permits what [c] permits, with the same
    rule for each destination, and beyond that only the destinations of [gs], each under
    the rule that was asked for; name resolution grows by the same hosts and nothing else
    about the policy moves. *)
Definition extends (c : CompiledPolicy) (gs : list EgressGrant) (c' : CompiledPolicy) : Prop :=
  (∀ host port r, endpoint c host port = Some r → endpoint c' host port = Some r)
  ∧ (∀ host port r, endpoint c' host port = Some r → endpoint c host port = None →
       ∃ g, g ∈ gs ∧ r = to_rule g ∧ serves host port r = true)
  ∧ (∀ name t, allows_dns c name t = true → allows_dns c' name t = true)
  ∧ (∀ name t, allows_dns c' name t = true → allows_dns c name t = false →
       ∃ g, g ∈ gs ∧ zone_matches g.(g_host) (string_of (strip_trailing_dot (chars name))) = true)
  ∧ c'.(cp_policy).(limits) = c.(cp_policy).(limits)
  ∧ c'.(cp_policy).(model) = c.(cp_policy).(model)
  ∧ c'.(cp_policy).(credentials) = c.(cp_policy).(credentials).

Lemma extends_refl c : extends c [] c.
Proof. split_and!; try done; intros; congruence. Qed.

Lemma extends_trans c gs c' gs' c'' : extends c gs c' → extends c' gs' c'' → extends c (gs ++ gs') c''.
Proof.
  intros (E1 & E2 & D1 & D2 & L & M & C) (E1' & E2' & D1' & D2' & L' & M' & C'). split_and!; try congruence.
  - intros host port r He. by apply E1', E1.
  - intros host port r He Hn. destruct (endpoint c' host port) as [r'|] eqn:Hr'.
    + pose proof (E1' _ _ _ Hr') as Hr. rewrite He in Hr. injection Hr as <-.
      destruct (E2 _ _ _ Hr' Hn) as (g & Hg & ?). exists g. rewrite elem_of_app. eauto.
    + destruct (E2' _ _ _ He Hr') as (g & Hg & ?). exists g. rewrite elem_of_app. eauto.
  - intros name t Ht. by apply D1', D1.
  - intros name t Ht Hn. destruct (allows_dns c' name t) eqn:Hd.
    + destruct (D2 _ _ Hd Hn) as (g & Hg & ?). exists g. rewrite elem_of_app. eauto.
    + destruct (D2' _ _ Ht Hd) as (g & Hg & ?). exists g. rewrite elem_of_app. eauto.
Qed.

Section Extends.
Context `{IpNetLib} (hash : GuardPolicy → result GuardError.t string).

Lemma allows_dns_iff c p name t :
  c.(cp_policy) = normalized p →
  allows_dns c name t = true ↔
  ∃ record, dns_record_type_name t = Some record ∧ record ∈ p.(network).(dns).(allowed_record_types)
    ∧ ∃ zone, zone ∈ p.(network).(dns).(allowed_zones)
        ∧ zone_matches zone (string_of (strip_trailing_dot (chars name))) = true.
Proof.
  intros Hc. unfold allows_dns, allows_name. rewrite Hc. cbn [normalized network dns allowed_zones allowed_record_types].
  destruct (dns_record_type_name t) as [record|]; [|naive_solver].
  rewrite andb_true_iff, bool_decide_eq_true, existsb_Exists, Exists_exists.
  unfold sort_strings. setoid_rewrite sort_by_perm. naive_solver.
Qed.

Lemma candidate_extends c p0 b0 r candidate b c' :
  compile hash p0 b0 = Ok c → candidate_policy c.(cp_policy) r = Ok candidate →
  compile hash candidate b = Ok c' → extends c r.(allow) c'.
Proof.
  intros (_ & Hv & Hc & _)%compile_verified Hcand%candidate_policy_ok (_ & Hv' & Hc' & _)%compile_verified.
  pose proof (foldl_add_grant c.(cp_policy) r.(allow)) as Hf. cbv zeta in Hf. rewrite <-Hcand in Hf.
  destruct Hf as (He & Hz & Ht & Hm & Hcr & Hl). rewrite Hc in He, Hz, Ht, Hm, Hcr, Hl. split_and!.
  - intros host port rule. rewrite (endpoint_iff c p0), (endpoint_iff c' candidate) by done.
    intros (r' & Hin & -> & Hs). exists (normalize_rule r'). split_and!; [|by rewrite normalize_rule_idem|done].
    rewrite He. apply elem_of_app. left. by apply normalized_egress_2.
  - intros host port rule (r' & Hin & -> & Hs)%(endpoint_iff c' candidate) Hnone; [|done..].
    rewrite He in Hin. apply elem_of_app in Hin as [(q & Hq & ->)%normalized_egress|(g & -> & Hg)%list_elem_of_fmap_1].
    + assert (endpoint c host port = Some (normalize_rule q)) by (apply (endpoint_iff c p0); eauto).
      congruence.
    + exists g. by rewrite normalize_rule_to_rule.
  - intros name t. rewrite (allows_dns_iff c p0), (allows_dns_iff c' candidate) by done.
    intros (record & Hr & Hin & z & Hzin & Hzm). exists record. rewrite Ht. split_and!; [done| |].
    + cbn. unfold sort_strings. by rewrite sort_by_perm.
    + exists z. split; [|done]. apply Hz. left. cbn. unfold sort_strings. by rewrite sort_by_perm.
  - intros name t (record & Hr & Hin & z & Hzin & Hzm)%(allows_dns_iff c' candidate) Hno; [|done].
    apply Hz in Hzin as [Hzin|(g & -> & Hg)%list_elem_of_fmap_1]; [|by exists g].
    apply not_true_iff_false in Hno. destruct Hno. apply (allows_dns_iff c p0); [done|].
    rewrite Ht in Hin. cbn in Hin, Hzin. unfold sort_strings in Hin, Hzin. rewrite sort_by_perm in Hin, Hzin.
    eauto 10.
  - by rewrite Hc', Hc.
  - by rewrite Hc', Hc.
  - rewrite Hc', Hc. cbn [normalized credentials]. rewrite Hcr. cbn [normalized credentials].
    apply sort_by_idem, sort_by_sorted; [intros; apply string_leb_total|intros ???; apply string_leb_trans].
Qed.
End Extends.

(** ** Requests in sequence *)
Inductive Request :=
| QSubmit (id : Uuid) (sink : result GuardError.t ()) (agent : AgentCredential) (r : ProposalRequest)
| QRestore (ps : list Proposal)
| QApprove (sink : result GuardError.t ()) (install_ok : bool) (shown : string) (review : HumanApproval)
    (id : Uuid)
(** The second half of an approval that read [p] under [id] earlier. *)
| QApply (sink : result GuardError.t ()) (install_ok : bool) (shown : string) (id : Uuid) (p : Proposal)
    (op : string)
| QAttest (sink : result GuardError.t ()) (install_ok : bool) (shown : string) (p : Proposal) (op : string)
| QDeny (sink : result GuardError.t ()) (review : HumanApproval) (id : Uuid) (note : string).

Section Requests.
Context `{IpNetLib} (hash : GuardPolicy → result GuardError.t string) (simple : Uuid → string).

Definition perform (s : ProposalStore) (q : Request) : ProposalStore :=
  match q with
  | QSubmit id sink agent r => (submit id sink agent r s).1
  | QRestore ps => (restore ps s).1
  | QApprove sink install_ok shown review id => (approve hash simple sink install_ok shown review id s).1
  | QApply sink install_ok shown id p op => (apply hash simple sink install_ok shown id p op s).1
  | QAttest sink install_ok shown p op => (apply_attested hash simple sink install_ok shown p op s).1
  | QDeny sink review id note => (deny simple sink review id note s).1
  end.

(** The proposal a request asks the store to apply. *)
Definition approves (q : Request) (s : ProposalStore) (p : Proposal) : Prop :=
  match q with
  | QApprove _ _ _ _ id => s.(ps_proposals) !! id = Some p ∧ p.(p_state) = Pending
  | QApply _ _ _ _ p' _ => p = p'
  | QAttest _ _ _ p' _ =>
      s.(ps_proposals) !! p'.(p_id) = Some p ∧ p.(p_state) = Pending ∧ same_request p p' = true
      ∨ s.(ps_proposals) !! p'.(p_id) = None ∧ p = p'
  | _ => False
  end.

Lemma pending_ok id s s' p :
  pending id s = (s', Ok p) → s' = s ∧ s.(ps_proposals) !! id = Some p ∧ p.(p_state) = Pending.
Proof.
  unfold pending. intros (s1 & q & Hp & (s2 & [] & Hu & Hr)%bind_ok)%bind_ok.
  unfold proposal, ok_or in Hp. destruct (ps_proposals s !! id) eqn:Hid; [|done]. injection Hp as <- <-.
  unfold unless_, is_pending in Hu. case_bool_decide; [|done]. injection Hu as <-. by injection Hr as <- <-.
Qed.

Lemma pending_keeps id s : (pending id s).1 = s.
Proof.
  unfold pending, mbind, act_bind, proposal, ok_or, unless_. by destruct (ps_proposals s !! id) as [p|]; [destruct (is_pending p)|].
Qed.

Lemma apply_locked_moves sink install_ok shown id op s :
  let s' := (apply_locked hash simple sink install_ok shown id op s).1 in
  same_cell s s' ∨ ∃ p, s.(ps_proposals) !! id = Some p ∧ p.(p_state) = Pending ∧ moved hash p s s'.
Proof.
  cbv zeta. unfold apply_locked. unfold mbind at 1 2, act_bind at 1 2. pose proof (pending_keeps id s) as Hk.
  destruct (pending id s) as [s1 [p|]] eqn:Hp; simpl in Hk; subst s1; [|by left].
  apply pending_ok in Hp as (_ & Hid & Hst).
  destruct (apply_moves hash simple sink install_ok shown id p op s); [by left|right; eauto].
Qed.

Lemma moved_after p s s1 s' : same_cell s s1 → moved hash p s1 s' → moved hash p s s'.
Proof. intros (E1 & E2 & E3). unfold moved, in_force. by rewrite E1, E3. Qed.

Lemma restore_one p s :
  match restore [p] s with
  | (s1, Ok _) => s1 = with_proposals s (<[p.(p_id) := p]> s.(ps_proposals))
  | (s1, Err _) => s1 = s
  end.
Proof.
  simpl. unfold mbind, act_bind, reads, unless_, add_proposal. simpl.
  destruct (bool_decide _ && bool_decide _); [|done]. by destruct (_ <=? _).
Qed.

Lemma confirm_replay_keeps h s s' o : confirm_replay h s = (s', o) → same_cell s s'.
Proof. unfold confirm_replay, mbind, act_bind, reads, throw. case_match; by intros [= <- _]. Qed.

Lemma perform_moves s q :
  same_cell s (perform s q) ∨ ∃ p, approves q s p ∧ moved hash p s (perform s q).
Proof.
  destruct q as [id sink agent r|ps|sink ok shown review id|sink ok shown id p op|sink ok shown p op|sink review id note];
    cbn [perform approves].
  - left. apply submit_keeps.
  - left. apply restore_keeps.
  - unfold approve, mbind, act_bind. pose proof (pending_keeps id s) as Hk.
    destruct (pending id s) as [s1 [p|]]; simpl in Hk; subst s1; [|by left].
    destruct (apply_locked_moves sink ok shown id (operator_id review) s) as [?|(q & ? & ? & ?)]; [by left|].
    right. by exists q.
  - destruct (apply_moves hash simple sink ok shown id p op s); [by left|]. right. by exists p.
  - destruct (apply_attested hash simple sink ok shown p op s) as [s' o] eqn:Ho. simpl.
    unfold apply_attested, mbind, act_bind, unless_, reads in Ho.
    destruct (bounded_text op _); [|injection Ho as <- _; by left].
    destruct (ps_proposals s !! p_id p) as [q|] eqn:Hq.
    + destruct (same_request q p) eqn:Hsame; [|injection Ho as <- _; by left].
      destruct (p_state q) eqn:Hst; [|left; eapply confirm_replay_keeps, Ho|injection Ho as <- _; by left..].
      pose proof (apply_locked_moves sink ok shown (p_id p) op s) as Hm. rewrite Ho in Hm.
      destruct Hm as [?|(q' & Hq' & ? & ?)]; [by left|]. right. exists q'. rewrite Hq in Hq'.
      injection Hq' as <-. split; [left; done|done].
    + pose proof (restore_one p s) as Hr. destruct (restore [p] s) as [s1 [n|]];
        [|subst s1; injection Ho as <- _; by left].
      assert (Hc : same_cell s s1) by (by subst s1).
      pose proof (apply_locked_moves sink ok shown (p_id p) op s1) as Hm. rewrite Ho in Hm.
      destruct Hm as [?|(q' & Hq' & ? & ?)]; [left; by transitivity s1|].
      right. exists q'. subst s1. cbn in Hq'. rewrite lookup_insert_eq in Hq'. injection Hq' as <-.
      split; [by right|]. by eapply moved_after.
  - left. apply deny_keeps.
Qed.

Definition run (s : ProposalStore) (qs : list Request) : ProposalStore := foldl perform s qs.

(** Every second half of an approval in a sequence of requests had read its proposal: it was
    pending under that identifier at some earlier point. *)
Definition read_earlier (s : ProposalStore) (qs : list Request) : Prop :=
  ∀ before sink ok shown id p op after, qs = before ++ QApply sink ok shown id p op :: after →
    ∃ earlier rest, before = earlier ++ rest ∧ (run s earlier).(ps_proposals) !! id = Some p ∧ p.(p_state) = Pending.

(** A proposal was decided by the request after [before]: it is based on the policy in force
    then, an operator or the control plane asked for it, and it had been pending in the store
    or is the control plane's own. *)
Definition decided (s : ProposalStore) (before : list Request) (q : Request) (p : Proposal) : Prop :=
  policy_hash_in_force (run s before) = p.(base_policy_hash)
  ∧ match q with QApprove _ _ _ _ _ | QApply _ _ _ _ _ _ | QAttest _ _ _ _ _ => True | _ => False end
  ∧ ((∃ earlier rest id, before = earlier ++ rest ∧ (run s earlier).(ps_proposals) !! id = Some p ∧ p.(p_state) = Pending)
     ∨ ∃ sink ok shown op, q = QAttest sink ok shown p op).

Lemma approves_decided s before q after p : read_earlier s (before ++ q :: after) → approves q (run s before) p →
  policy_hash_in_force (run s before) = p.(base_policy_hash) → decided s before q p.
Proof.
  intros Hread Hp Hb. split; [done|]. destruct q; cbn in Hp; try done.
  - destruct Hp as [Hid Hst]. split; [done|]. left. exists before, [], id. by rewrite app_nil_r.
  - subst. split; [done|]. left. destruct (Hread _ _ _ _ _ _ _ _ eq_refl) as (e & rest & -> & Hid & Hst). by exists e, rest, id.
  - split; [done|]. destruct Hp as [(Hid & Hst & _)|[_ ->]]; [left|right; by eauto]. eexists before, [], _. by rewrite app_nil_r.
Qed.

(** The policy in force came out of the compiler. *)
Definition compiled_in_force (s : ProposalStore) : Prop :=
  ∃ p b, compile hash p b = Ok (in_force s).
End Requests.

(** ** Lemmas: the queue only grows *)
Definition grows (s s' : ProposalStore) : Prop :=
  ∀ id, is_Some (s.(ps_proposals) !! id) → is_Some (s'.(ps_proposals) !! id).
#[global] Instance grows_preorder : PreOrder grows.
Proof. split; [by intros s id|]. intros s1 s2 s3 H1 H2 id ?. by apply H2, H1. Qed.

Lemma insert_is_some {A} (m : gmap Uuid A) i x j : is_Some (m !! j) → is_Some (<[i := x]> m !! j).
Proof. rewrite lookup_insert_is_Some'. tauto. Qed.

Lemma grows_append sink d r dest h : keeps grows (append_with_hash sink d r dest h).
Proof. intros s j Hj. unfold append_with_hash. by destruct sink. Qed.
Lemma grows_settle id st : keeps grows (settle id st).
Proof.
  unfold settle. apply keeps_bind; [typeclasses eauto|apply keeps_proposal; typeclasses eauto|].
  intros p s j. by apply insert_is_some.
Qed.
Lemma grows_add p : keeps grows (add_proposal p).
Proof. intros s j. unfold add_proposal. case_match; [done|]. by apply insert_is_some. Qed.
Lemma grows_swap `{IpNetLib} c : keeps grows (swap c).
Proof. unfold swap. apply keeps_bind; [typeclasses eauto|apply keeps_lift; typeclasses eauto|]. by intros [] s j. Qed.
Lemma grows_install ok c : keeps grows (install ok c).
Proof. by intros s j. Qed.
#[export] Hint Resolve grows_append grows_settle grows_add grows_swap grows_install grows_preorder : keeps.

Section Grows.
Context `{IpNetLib} (hash : GuardPolicy → result GuardError.t string) (simple : Uuid → string).

Lemma grows_apply sink ok shown id p op : keeps grows (apply hash simple sink ok shown id p op).
Proof.
  unfold apply, append. apply keeps_bind; [auto with keeps..|]. intros c. case_match; [auto with keeps|].
  apply keeps_bind; [auto with keeps..|]. intros cand. apply keeps_bind; [auto with keeps..|]. intros b.
  case_match; [|auto 10 with keeps]. apply keeps_bind; [auto with keeps..|]. intros [].
  case_match; auto 10 with keeps.
Qed.

Lemma grows_apply_locked sink ok shown id op : keeps grows (apply_locked hash simple sink ok shown id op).
Proof. unfold apply_locked. apply keeps_bind; [auto with keeps..|]. intros. apply grows_apply. Qed.

Lemma grows_perform s q : grows s (perform hash simple s q).
Proof.
  destruct q as [id sink agent r|ps|sink ok shown review id|sink ok shown id p op|sink ok shown p op|sink review id note]; simpl.
  - assert (Hk : keeps grows (submit id sink agent r)) by (unfold submit, append; auto 20 with keeps). apply Hk.
  - assert (Hk : keeps grows (restore ps)) by (induction ps; simpl; auto 20 with keeps). apply Hk.
  - assert (Hk : keeps grows (approve hash simple sink ok shown review id))
      by (unfold approve; apply keeps_bind; auto using grows_apply_locked with keeps). apply Hk.
  - apply grows_apply.
  - assert (Hk : keeps grows (apply_attested hash simple sink ok shown p op)); [|apply Hk].
    unfold apply_attested. do 2 (apply keeps_bind; [auto with keeps..|]; intros ?). case_match.
    + apply keeps_bind; [auto with keeps..|]. intros _. unfold confirm_replay.
      case_match; [apply grows_apply_locked| |auto with keeps..].
      apply keeps_bind; [auto with keeps..|]. intros h. case_match; auto with keeps.
    + apply keeps_bind; [auto with keeps| |intros; apply grows_apply_locked].
      simpl. auto 20 with keeps.
  - assert (Hk : keeps grows (deny simple sink review id note)) by (unfold deny, append; auto 20 with keeps). apply Hk.
Qed.

Lemma grows_run s qs : grows s (foldl (perform hash simple) s qs).
Proof.
  revert s. induction qs as [|q qs IH]; intros s; simpl; [reflexivity|].
  etrans; [apply grows_perform|apply IH].
Qed.

Lemma grows_size s s' : grows s s' → (size s.(ps_proposals) ≤ size s'.(ps_proposals))%nat.
Proof.
  intros Hg. rewrite <-!size_dom. apply subseteq_size. intros id. rewrite !elem_of_dom. apply Hg.
Qed.
End Grows.

(** ** Theorems *)
Section Theorems.
Context `{IpNetLib} (hash : GuardPolicy → result GuardError.t string) (simple : Uuid → string).

(** One request: the cell and the ruleset stay, or a proposal it approves is applied. *)
Lemma perform_extends s q : compiled_in_force hash s →
  let s' := perform hash simple s q in
  s'.(ps_policy) = s.(ps_policy) ∧ s'.(ps_installed) = s.(ps_installed) ∧ s'.(ps_boundary) = s.(ps_boundary)
  ∨ ∃ p, approves q s p ∧ policy_hash_in_force s = p.(base_policy_hash)
      ∧ extends (in_force s) p.(p_request).(allow) (in_force s')
      ∧ s'.(ps_installed) = in_force s' ∧ (in_force s').(boundary) = s.(ps_boundary) ∧ s'.(ps_boundary) = s.(ps_boundary)
      ∧ s'.(ps_policy).(active_l7) = s.(ps_policy).(active_l7) ∧ compiled_in_force hash s'.
Proof.
  intros (p0 & b0 & Hc). cbv zeta. destruct (perform_moves hash simple s q) as [(?&?&?)|(p & Hp & Hm)]; [by left|].
  right. exists p. destruct Hm as (Hb & Hbd & Hl & Hi & cand & Hcand & Hv). split_and!; [done..| |done| |done|done|by exists cand, s.(ps_boundary)].
  - by eapply candidate_extends.
  - by apply compile_verified in Hv as (_ & _ & _ & ->).
Qed.


Definition store_ok (s : ProposalStore) : Prop :=
  compiled_in_force hash s ∧ s.(ps_installed) = in_force s.

Lemma perform_store_ok s q : store_ok s → store_ok (perform hash simple s q).
Proof.
  intros [Hc Hi]. destruct (perform_moves hash simple s q) as [(E1 & E2 & _)|(p & _ & Hm)].
  - unfold store_ok, compiled_in_force, in_force in *. by rewrite E1, E2.
  - destruct Hm as (_ & _ & _ & ? & cand & _ & Hv). split; [by exists cand, (ps_boundary s)|done].
Qed.

(** Whatever is submitted, restored, approved, attested or denied, in any order and
    with any failure of the journal or of the backend, the ruleset installed is that of
    the policy in force and that policy came out of the compiler. *)
Theorem installed_ruleset_is_in_force (s : ProposalStore) (qs : list Request) :
  store_ok s → store_ok (foldl (perform hash simple) s qs).
Proof. revert s. induction qs as [|q qs IH]; intros s Hs; simpl; [done|]. by apply IH, perform_store_ok. Qed.

Lemma apply_locked_ok sink install_ok shown id op s s' o :
  apply_locked hash simple sink install_ok shown id op s = (s', Ok o) →
  ∃ p h, s.(ps_proposals) !! id = Some p ∧ s'.(ps_proposals) !! id = Some (with_state p (Approved h))
    ∧ policy_hash_in_force s' = h ∧ s'.(ps_sandbox_id) = s.(ps_sandbox_id).
Proof.
  unfold apply_locked. intros (s1 & p & (-> & Hid & _)%pending_ok & Ha)%bind_ok.
  unfold apply in Ha. apply bind_ok in Ha as (s1 & cur & [= <- <-] & Ha).
  case_bool_decide; cbn [negb] in Ha; [|by apply bind_ok in Ha as (? & ? & _ & ?)].
  apply bind_ok in Ha as (s1 & cand & [= <- _] & Ha). apply bind_ok in Ha as (s1 & b & [= <- <-] & Ha).
  destruct (compile _ _ _) as [v|].
  2:{ apply bind_ok in Ha as (? & ? & _ & (? & ? & _ & ?)%bind_ok). done. }
  apply bind_ok in Ha as (s1 & [] & [= <-] & Ha). destruct install_ok; cbn [negb] in Ha.
  2:{ by apply bind_ok in Ha as (? & ? & _ & ?). }
  apply bind_ok in Ha as (s2 & h & (s1 & [] & [= <- _] & [= <- <-])%bind_ok & Ha).
  apply bind_ok in Ha as (s3 & e & He & (s4 & q & Hs & [= <- <-])%bind_ok).
  unfold append_with_hash in He. destruct sink; [|done]. injection He as <- <-.
  unfold settle in Hs. apply bind_ok in Hs as (s5 & q' & Hq & [= <- <-]).
  unfold proposal, ok_or in Hq. cbn in Hq. rewrite Hid in Hq. injection Hq as <- <-.
  exists p, (policy_hash v). cbn. by rewrite lookup_insert_eq.
Qed.

Lemma same_request_refl p st : same_request (with_state p st) p = true.
Proof. unfold same_request. simpl. by rewrite !bool_decide_true. Qed.
Lemma same_request_state q p st : same_request (with_state q st) p = same_request q p.
Proof. done. Qed.

Lemma apply_attested_ok sink install_ok shown p op s s' o :
  apply_attested hash simple sink install_ok shown p op s = (s', Ok o) →
  ∃ q h, s'.(ps_proposals) !! p.(p_id) = Some (with_state q (Approved h))
    ∧ policy_hash_in_force s' = h ∧ same_request q p = true.
Proof.
  unfold apply_attested. intros (s1 & [] & Hu & (s2 & known & [= <- <-] & Ha)%bind_ok)%bind_ok.
  unfold unless_ in Hu. destruct (bounded_text _ _); [|done]. injection Hu as <-.
  destruct (ps_proposals s !! p_id p) as [q|] eqn:Hq.
  - apply bind_ok in Ha as (s1 & [] & Hu & Ha). unfold unless_ in Hu.
    destruct (same_request q p) eqn:Hs; [|done]. injection Hu as <-.
    destruct (p_state q); [|unfold confirm_replay, mbind, act_bind, reads in Ha; by case_match|done..].
    apply apply_locked_ok in Ha as (q' & h & Hq' & ? & ? & _). rewrite Hq in Hq'. injection Hq' as <-. eauto.
  - apply bind_ok in Ha as (s1 & n & Hr & Ha). pose proof (restore_one p s) as Hr'. rewrite Hr in Hr'.
    apply apply_locked_ok in Ha as (q' & h & Hq' & ? & ? & _). subst s1. cbn in Hq'.
    rewrite lookup_insert_eq in Hq'. injection Hq' as <-. exists p, h. split_and!; [done..|].
    apply (same_request_refl p (p_state p)).
Qed.

(** A lost answer is safe to retry.  Once an attested proposal has been applied,
    presenting it again, with whatever state and answers, changes nothing at all and is
    told that the proposal is already applied. *)
Theorem attested_replay_changes_nothing sink install_ok shown sink' install_ok' shown' p op op' s s' o :
  apply_attested hash simple sink install_ok shown p op s = (s', Ok o) →
  bounded_text op' MAX_AGENT_ID_BYTES = true →
  apply_attested hash simple sink' install_ok' shown' p op' s' = (s', Err GuardError.AlreadyApplied).
Proof.
  intros (q & h & Hq & Hh & Hs)%apply_attested_ok Hop.
  unfold apply_attested, mbind, act_bind, unless_, reads. rewrite Hop, Hq, same_request_state, Hs.
  cbn [with_state p_state]. unfold confirm_replay, mbind, act_bind, reads.
  by rewrite Hh, bool_decide_true.
Qed.

(** The verifier turns the request of [p] into [v] under the policy in force. *)
Definition verifies (s : ProposalStore) (p : Proposal) (v : CompiledPolicy) : Prop :=
  policy_hash_in_force s = p.(base_policy_hash)
  ∧ ∃ candidate, candidate_policy (in_force s).(cp_policy) p.(p_request) = Ok candidate
      ∧ compile hash candidate s.(ps_boundary) = Ok v.

(** A pending proposal that would be applied if the journal answered. *)
Definition applicable (s : ProposalStore) (id : Uuid) (p : Proposal) (v : CompiledPolicy) : Prop :=
  s.(ps_proposals) !! id = Some p ∧ p.(p_state) = Pending ∧ verifies s p v.

Lemma apply_eq sink shown s id p v op :
  verifies s p v →
  apply hash simple sink true shown id p op s =
  (let s1 := {| ps_sandbox_id := s.(ps_sandbox_id); ps_tenant_id := s.(ps_tenant_id);
                ps_boundary := s.(ps_boundary);
                ps_policy := {| active_compiled := v; active_l7 := s.(ps_policy).(active_l7) |};
                ps_installed := v; ps_proposals := s.(ps_proposals); ps_journal := s.(ps_journal) |} in
   (e ← append_with_hash sink Allow
          ("policy proposal " +:+ simple p.(p_id) +:+ " applied by operator review")
          (single_destination p.(p_request)) v.(policy_hash);
    _ ← settle id (Approved v.(policy_hash));
    mret {| proposal_id := p.(p_id); ao_operator := op;
            previous_policy_hash := policy_hash_in_force s; ao_policy_hash := v.(policy_hash);
            ao_event := e |}) s1).
Proof.
  intros (Hb & cand & Hcand & Hv). cbv zeta.
  unfold apply, mbind at 1, act_bind at 1, reads at 1.
  unfold policy_hash_in_force in Hb. rewrite bool_decide_true by done. cbn [negb].
  unfold mbind at 1, act_bind at 1, lift at 1. rewrite Hcand.
  unfold mbind at 1, act_bind at 1, reads at 1. rewrite Hv.
  apply compile_verified in Hv as (Hver & _).
  unfold mbind at 1, act_bind at 1, install, modify. cbn [negb].
  unfold mbind at 1, act_bind at 1, swap, mbind at 1, act_bind at 1, lift. by rewrite Hver.
Qed.

Lemma pending_eq id s p :
  s.(ps_proposals) !! id = Some p → p.(p_state) = Pending → pending id s = (s, Ok p).
Proof.
  intros Hid Hp. unfold pending, mbind, act_bind, proposal, unless_, is_pending. rewrite Hid. simpl.
  by rewrite bool_decide_true.
Qed.

Lemma deny_eq s id p review note :
  s.(ps_proposals) !! id = Some p → p.(p_state) = Pending → bounded_text note MAX_NOTE_BYTES = true →
  ∃ e, deny simple (Ok ()) review id note s =
    (with_proposals (with_events s (s.(ps_journal) ++ [e]))
       (<[id := with_state p (StateDenied note)]> s.(ps_proposals)), Ok (with_state p (StateDenied note))).
Proof.
  intros Hid Hp Hn. eexists. unfold deny, append, settle, mbind, act_bind, unless_, reads.
  rewrite (pending_eq _ _ _ Hid Hp), Hn. cbn -[bound_reason]. unfold mbind, act_bind, proposal.
  cbn -[bound_reason]. by rewrite Hid.
Qed.

(** A refused approval can still have taken effect.  When the journal does not take the
    record of an apply, [approve] answers the error, but the new policy is in force and
    installed, no record of it exists and the proposal is still pending; the
    documentation promises that a refusal at any step leaves the previous policy in
    force. *)
Theorem unrecorded_approval_in_force s id p v err shown review :
  applicable s id p v →
  ∃ s', approve hash simple (Err err) true shown review id s = (s', Err err)
    ∧ in_force s' = v ∧ s'.(ps_installed) = v
    ∧ s'.(ps_proposals) !! id = Some p ∧ s'.(ps_journal) = s.(ps_journal).
Proof.
  intros Ha. destruct Ha as (Hid & Hp & Ha). unfold approve, apply_locked, mbind, act_bind.
  rewrite (pending_eq _ _ _ Hid Hp). cbv beta iota. rewrite (pending_eq _ _ _ Hid Hp). cbv beta iota.
  rewrite (apply_eq _ _ _ _ _ _ _ Ha). by eexists.
Qed.

(** A denial does not stop an approval that has already read the proposal.  The
    approval looks the proposal up before it takes the apply lock; a denial that is
    recorded in between is overwritten: the policy moves and the proposal ends
    approved. *)
Theorem denied_proposal_still_applied s id p v review note op shown :
  applicable s id p v → bounded_text note MAX_NOTE_BYTES = true →
  ∃ s1 s2 o, deny simple (Ok ()) review id note s = (s1, Ok (with_state p (StateDenied note)))
    ∧ s1.(ps_proposals) !! id = Some (with_state p (StateDenied note))
    ∧ apply hash simple (Ok ()) true shown id p op s1 = (s2, Ok o)
    ∧ in_force s2 = v ∧ s2.(ps_installed) = v
    ∧ s2.(ps_proposals) !! id = Some (with_state p (Approved v.(policy_hash))).
Proof.
  intros (Hid & Hp & Hv) Hn. destruct (deny_eq s id p review note Hid Hp Hn) as (e & Hd).
  set (s1 := with_proposals (with_events s (s.(ps_journal) ++ [e]))
    (<[id := with_state p (StateDenied note)]> s.(ps_proposals))) in *.
  exists s1. assert (Hv1 : verifies s1 p v) by done.
  assert (Hid1 : s1.(ps_proposals) !! id = Some (with_state p (StateDenied note)))
    by (cbn; by rewrite lookup_insert_eq).
  rewrite (apply_eq _ _ _ _ _ _ _ Hv1). cbv zeta.
  unfold mbind, act_bind, append_with_hash, settle, mbind, act_bind, proposal, modify, ok_or.
  cbn -[bound_reason s1]. rewrite Hid1. cbn -[bound_reason s1].
  do 2 eexists. split_and!; [exact Hd|done|reflexivity|done|done|]. cbn -[s1]. by rewrite lookup_insert_eq.
Qed.

(** An unrecorded submission is not taken back.  When the journal does not take the
    record of a submission, the agent is told so, but the proposal stays in the store,
    pending and open to approval; the documentation says it is refused rather than
    merely unrecorded. *)
Theorem unrecorded_submission_stays s id agent r err :
  agent.(ac_sandbox_id) = s.(ps_sandbox_id) → agent.(ac_tenant_id) = s.(ps_tenant_id) →
  ProposalRequest_validate r = Ok () → Z.of_nat (size s.(ps_proposals)) < MAX_PENDING_PROPOSALS →
  ∃ s' p, submit id (Err err) agent r s = (s', Err err)
    ∧ s'.(ps_proposals) !! id = Some p ∧ p.(p_state) = Pending ∧ p.(p_request) = r.
Proof.
  intros Hs Ht Hr Hn. unfold submit, append, mbind, act_bind, unless_, reads, lift, add_proposal.
  rewrite !bool_decide_true by done. simpl. rewrite Hr. simpl.
  destruct (Z.leb_spec MAX_PENDING_PROPOSALS (Z.of_nat (size (ps_proposals s)))); [lia|]. simpl.
  do 2 eexists. split; [reflexivity|]. simpl. by rewrite lookup_insert_eq.
Qed.

(** The bound on waiting proposals counts decided ones, and nothing ever leaves the
    store: once 32 proposals have been recorded, every later submission is refused,
    whatever is decided in the meantime, even when none of them is waiting. *)
Theorem decided_proposals_fill_the_queue s qs id sink agent r :
  MAX_PENDING_PROPOSALS ≤ Z.of_nat (size s.(ps_proposals)) →
  ∃ e, (submit id sink agent r (foldl (perform hash simple) s qs)).2 = Err e.
Proof.
  intros Hn. pose proof (grows_size _ _ (grows_run hash simple s qs)) as Hg.
  revert Hg. generalize (foldl (perform hash simple) s qs). intros t Hg.
  unfold submit, mbind, act_bind, unless_, reads, lift, add_proposal.
  destruct (bool_decide _ && bool_decide _); [|by eexists].
  destruct (ProposalRequest_validate r); [|by eexists].
  destruct (Z.leb_spec MAX_PENDING_PROPOSALS (Z.of_nat (size (ps_proposals t)))); [by eexists|lia].
Qed.

End Theorems.

(** Only the operator's own material mints an approval: [HumanApproval::operator]
    succeeds exactly when the label is bounded and printable and the secret presented is
    the one stored under that name; the byte-by-byte comparison decides equality. *)
Theorem approval_needs_stored_secret (operator name secret : string) (s : CredentialStore) (a : HumanApproval) :
  HumanApproval_operator operator name secret s = Ok a ↔
  bounded_text operator MAX_AGENT_ID_BYTES = true ∧ s !! name = Some secret
  ∧ a = {| operator_id := operator |}.
Proof.
  unfold HumanApproval_operator. rewrite <-matches_iff.
  destruct (bounded_text _ _), (matches s name secret); simpl; naive_solver.
Qed.

(** ** Examples *)
Module SampleProposals.
Import Boundary.SampleNet.

Definition hash (p : GuardPolicy) : result GuardError.t string :=
  Ok (pretty (N.of_nat (length p.(network).(egress)))).
Definition simple (id : Uuid) : string := pretty id.

Definition live : CompiledPolicy := {|
  cp_policy := normalized sample_policy; policy_hash := "1"; boundary := sample_boundary |}.

Definition request : ProposalRequest := {|
  summary := "please allow api.example.org";
  allow := [ {| g_host := "api.example.org"; g_port := 443; g_methods := ["POST"; "GET"]%string;
                g_paths := ["/v1/"%string] |} ] |}.

Definition asked : Proposal := {|
  p_id := 7%N; p_sandbox_id := 1%N; p_tenant_id := 2%N; p_agent_id := "agent"; p_request := request;
  base_policy_hash := "1"; p_state := Pending |}.

Definition store : ProposalStore := {|
  ps_sandbox_id := 1%N; ps_tenant_id := 2%N; ps_boundary := sample_boundary;
  ps_policy := {| active_compiled := live; active_l7 := None |}; ps_installed := live;
  ps_proposals := {[ 7%N := asked ]}; ps_journal := [] |}.

Definition widened : CompiledPolicy := {|
  cp_policy := normalized (foldl add_grant (normalized sample_policy) request.(allow));
  policy_hash := "2"; boundary := sample_boundary |}.

Lemma live_compiled : compiled_in_force hash store.
Proof. exists sample_policy, sample_boundary. vm_compute. reflexivity. Qed.

Lemma asked_applicable : applicable hash store 7%N asked widened.
Proof.
  split_and!; [done..|]. split; [done|].
  exists (foldl add_grant (normalized sample_policy) request.(allow)). split; vm_compute; reflexivity.
Qed.

Definition review : HumanApproval := {| operator_id := "ops" |}.

Definition requests : list Request :=
  [QDeny (Err GuardError.Io) review 9%N "no"; QApply (Ok ()) true "" 7%N asked "ops"; QApprove (Ok ()) true "" review 7%N].

Lemma requests_read : read_earlier hash simple store requests.
Proof.
  intros before sink ok shown id p op after Hq. destruct before as [|q1 before]; [discriminate Hq|]. injection Hq as <- Hq.
  destruct before as [|q2 before]; [|injection Hq as <- Hq; destruct before as [|q3 before]; [discriminate Hq|injection Hq as <- Hq; by destruct before]].
  injection Hq as <- <- <- <- <- <- <-. exists [], [QDeny (Err GuardError.Io) review 9%N "no"]. by split_and!.
Qed.


Lemma installed_ruleset_is_in_force_witness :
  store_ok hash (foldl (perform hash simple) store
    [QDeny (Err GuardError.Io) review 7%N "no"; QApprove (Ok ()) true "" review 7%N]).
Proof. apply installed_ruleset_is_in_force. split; [apply live_compiled|done]. Defined.

Lemma attested_replay_changes_nothing_witness :
  let s' := (apply_attested hash simple (Ok ()) true "" asked "ops" store).1 in
  apply_attested hash simple (Ok ()) true "" asked "ops" s' = (s', Err GuardError.AlreadyApplied).
Proof.
  cbv zeta. destruct (apply_attested hash simple (Ok ()) true "" asked "ops" store) as [s' [o|e]] eqn:Ha.
  - eapply attested_replay_changes_nothing; [exact Ha|vm_compute; reflexivity].
  - exfalso. apply (f_equal (λ x, is_ok x.2)) in Ha. vm_compute in Ha. done.
Defined.

Lemma unrecorded_approval_in_force_witness :
  ∃ s', approve hash simple (Err GuardError.Io) true "" review 7%N store = (s', Err GuardError.Io)
    ∧ in_force s' = widened.
Proof.
  destruct (unrecorded_approval_in_force hash simple store 7%N asked widened GuardError.Io "" review
    asked_applicable) as (s' & ? & ? & _). exists s'. split; assumption.
Defined.

Lemma denied_proposal_still_applied_witness :
  ∃ s1 s2 o, deny simple (Ok ()) review 7%N "no" store = (s1, Ok (with_state asked (StateDenied "no")))
    ∧ apply hash simple (Ok ()) true "" 7%N asked "ops" s1 = (s2, Ok o) ∧ in_force s2 = widened.
Proof.
  destruct (denied_proposal_still_applied hash simple store 7%N asked widened review "no" "ops" ""
    asked_applicable ltac:(vm_compute; reflexivity)) as (s1 & s2 & o & ? & _ & ? & ? & _).
  exists s1, s2, o. split_and!; assumption.
Defined.

Lemma unrecorded_submission_stays_witness :
  ∃ s' p, submit 8%N (Err GuardError.Io) {| ac_sandbox_id := 1%N; ac_tenant_id := 2%N; ac_agent_id := "a" |}
            request store = (s', Err GuardError.Io)
    ∧ s'.(ps_proposals) !! 8%N = Some p ∧ p.(p_state) = Pending ∧ p.(p_request) = request.
Proof. apply unrecorded_submission_stays; vm_compute; reflexivity. Defined.

(** A store that has decided 32 proposals. *)
Definition full : ProposalStore :=
  with_proposals store
    (list_to_map ((λ i, (N.of_nat i, with_state asked (StateDenied "no"))) <$> seq 0 32)).

Lemma decided_proposals_fill_the_queue_witness :
  ∃ e, (submit 99%N (Ok ()) {| ac_sandbox_id := 1%N; ac_tenant_id := 2%N; ac_agent_id := "a" |}
          request full).2 = Err e.
Proof.
  apply (decided_proposals_fill_the_queue hash simple full []). vm_compute. discriminate.
Defined.

End SampleProposals.
