(* ===== verification/Gateway.v ===== *)
(** * Gateway: the attachment's cut, its release and its budgets

    [crates/aiec-guard/src/gateway.rs]: the state behind a sandbox's network attachment
    and the operations that change it.  The gateway's tasks share this state, so an
    execution is a sequence of steps in any order ([Label], [step]), one step per
    critical section: [hold_cut] locks twice, a release is recorded and applied in two
    steps of the audit task, [heartbeat] checks before it locks, and one turn of the
    watchdog loop first cuts and then delivers.

    What other parties answer is part of a step: whether the journal took a record,
    whether the host handler cut the link, whether the budget authority granted a
    reservation, and the time.  Lock poisoning is left out: no section panics. *)

From S2P Require Import Prelude Policy Events Boundary L7 Store Proposals.

(** ** State *)
Record Budget := { minute : Instant; requests : Z; dns_used : Z; out : Z; incoming : Z }.

Record WatchdogState := {
  deadline : Instant; activated : bool; held : option string; pending : bool; deadman : bool }.

Inductive AuditCommand :=
| Record_ (event : EventInput)
| Restore (event : EventInput) (generation : Z) (authorized : bool).

(** The audit task: its queue, whether it still runs, the release it has recorded and
    not yet applied, and the records the journal has taken. *)
Record Audit := {
  queue : list AuditCommand; running : bool; releasing : option (Z * bool);
  journal : list EventInput }.

(** The locals of [run_watchdog]. *)
Record Loop := {
  seen_deadline : Instant; delivered : option Z; audited : option (Z * string);
  cut_reason : option (Instant * string); returned : bool }.

Record Gateway := {
  identity : GuardIdentity; fence : GuardFence; policy_cell : ActivePolicy; watchdog_timeout : Z;
  cut_flag : bool; terminal_failure : bool; stop : Z; budget : Budget; watchdog : WatchdogState;
  audit : Audit; loop : Loop }.

Definition AUDIT_QUEUE : Z := 128.
Definition TERMINAL_REASON : string := "gateway terminal fault latched network cut".
Definition DEADLINE_REASON : string := "watchdog deadline latched network cut".
Definition OTHER_REASON : string := "watchdog or host fault latched network cut".

Definition compiled (g : Gateway) : CompiledPolicy := g.(policy_cell).(active_compiled).

Section Setters.
Variable g : Gateway.

Definition with_flags (c t : bool) (n : Z) : Gateway := {|
  identity := g.(identity); fence := g.(fence); policy_cell := g.(policy_cell);
  watchdog_timeout := g.(watchdog_timeout); cut_flag := c; terminal_failure := t; stop := n;
  budget := g.(budget); watchdog := g.(watchdog); audit := g.(audit); loop := g.(loop) |}.
Definition with_watchdog (w : WatchdogState) : Gateway := {|
  identity := g.(identity); fence := g.(fence); policy_cell := g.(policy_cell);
  watchdog_timeout := g.(watchdog_timeout); cut_flag := g.(cut_flag);
  terminal_failure := g.(terminal_failure); stop := g.(stop); budget := g.(budget); watchdog := w;
  audit := g.(audit); loop := g.(loop) |}.
Definition with_audit (a : Audit) : Gateway := {|
  identity := g.(identity); fence := g.(fence); policy_cell := g.(policy_cell);
  watchdog_timeout := g.(watchdog_timeout); cut_flag := g.(cut_flag);
  terminal_failure := g.(terminal_failure); stop := g.(stop); budget := g.(budget);
  watchdog := g.(watchdog); audit := a; loop := g.(loop) |}.
Definition with_budget (b : Budget) : Gateway := {|
  identity := g.(identity); fence := g.(fence); policy_cell := g.(policy_cell);
  watchdog_timeout := g.(watchdog_timeout); cut_flag := g.(cut_flag);
  terminal_failure := g.(terminal_failure); stop := g.(stop); budget := b; watchdog := g.(watchdog);
  audit := g.(audit); loop := g.(loop) |}.
Definition with_binding (i : GuardIdentity) (f : GuardFence) (p : ActivePolicy) : Gateway := {|
  identity := i; fence := f; policy_cell := p;
  watchdog_timeout := g.(watchdog_timeout); cut_flag := g.(cut_flag);
  terminal_failure := g.(terminal_failure); stop := g.(stop); budget := g.(budget);
  watchdog := g.(watchdog); audit := g.(audit); loop := g.(loop) |}.
Definition with_loop (l : Loop) : Gateway := {|
  identity := g.(identity); fence := g.(fence); policy_cell := g.(policy_cell);
  watchdog_timeout := g.(watchdog_timeout); cut_flag := g.(cut_flag);
  terminal_failure := g.(terminal_failure); stop := g.(stop); budget := g.(budget);
  watchdog := g.(watchdog); audit := g.(audit); loop := l |}.
Definition with_queue (q : list AuditCommand) : Gateway :=
  with_audit {| queue := q; running := g.(audit).(running); releasing := g.(audit).(releasing);
                journal := g.(audit).(journal) |}.
Definition with_task (r : bool) (release : option (Z * bool)) : Gateway :=
  with_audit {| queue := g.(audit).(queue); running := r; releasing := release;
                journal := g.(audit).(journal) |}.
End Setters.

(** A step that answers a caller. *)
Abbreviation Step A := (Gateway → Gateway * result GuardError.t A) (only parsing).

(** ** Events and the journal *)
Definition active (g : Gateway) : bool := negb g.(cut_flag) && negb g.(terminal_failure).

(** The change of the stop channel that cancels what is in flight. *)
Definition bump (n : Z) : Z := if n =? u64_max then n else (n + 1) mod 2 ^ 64.

(** [measured_event]; a lifecycle transition has nothing to measure. *)
Definition measured_event (g : Gateway) (category : Category) (decision : Decision) (reason : string)
    (destination : option string) (sent received elapsed_ms : Z) : EventInput := {|
  i_sandbox_id := g.(identity).(gi_sandbox_id); i_tenant_id := g.(identity).(gi_tenant_id);
  i_policy_hash := (compiled g).(policy_hash); i_category := category; i_decision := decision;
  i_reason := reason; i_destination := destination; i_request_bytes := sent;
  i_response_bytes := received; i_duration_ms := Z.min elapsed_ms u64_max |}.

Definition lifecycle_event (g : Gateway) (decision : Decision) (reason : string) : EventInput :=
  measured_event g Lifecycle decision reason None 0 0 0.

Definition record (sink_ok : bool) (e : EventInput) : Step () := λ g,
  if sink_ok
  then (with_audit g {| queue := g.(audit).(queue); running := g.(audit).(running);
                        releasing := g.(audit).(releasing); journal := g.(audit).(journal) ++ [e] |}, Ok ())
  else (with_flags g true true (bump g.(stop)), Err GuardError.Unavailable).

(** [audit_tx.try_send]: a full queue, or a task that has returned, is terminal. *)
Definition can_send (g : Gateway) : bool :=
  g.(audit).(running) && (Z.of_nat (length g.(audit).(queue)) <? AUDIT_QUEUE).

Definition enqueue (command : AuditCommand) : Step () := λ g,
  if can_send g then (with_queue g (g.(audit).(queue) ++ [command]), Ok ())
  else (with_flags g true true g.(stop), Err GuardError.Unavailable).

Definition queue_transition (decision : Decision) (reason : string) : Step () := λ g,
  enqueue (Record_ (lifecycle_event g decision reason)) g.

(** ** Cutting *)

(** Answers whether this was the first cut since the last release. *)
Definition latch_cut (by_deadman : bool) (g : Gateway) : Gateway * bool :=
  let w := g.(watchdog) in
  let first := negb w.(pending) in
  let w' := {| deadline := w.(deadline); activated := w.(activated); held := w.(held);
               pending := true; deadman := w.(deadman) || by_deadman |} in
  (with_flags (with_watchdog g w') true g.(terminal_failure) (if first then bump g.(stop) else g.(stop)),
   first).

Definition cut : Step () := λ g,
  let '(g, first) := latch_cut false g in
  if negb first then (g, Ok ()) else queue_transition Cut "gateway network cut" g.

(** [hold_cut] after its [latch_cut]. *)
Definition mark_held (reason : string) (first : bool) : Step () := λ g,
  let w := g.(watchdog) in
  let g := with_watchdog g {| deadline := w.(deadline); activated := w.(activated);
             held := Some reason; pending := w.(pending); deadman := w.(deadman) |} in
  if first then queue_transition Cut "guard attachment held cut" g else (g, Ok ()).

Definition hold_cut (reason : string) : Step () := λ g,
  let '(g, first) := latch_cut false g in mark_held reason first g.

(** ** The watchdog's report *)
Definition health (g : Gateway) : result GuardError.t () :=
  bail_if g.(terminal_failure) || (g.(stop) =? u64_max) with GuardError.Unavailable; Ok ().

Definition heartbeat_checks (id : GuardIdentity) (g : Gateway) : result GuardError.t () :=
  bail_if negb (bool_decide (id.(gi_policy_hash) = (compiled g).(policy_hash))) with GuardError.Denied;
  bail_if negb (bool_decide (id = g.(identity))) with GuardError.Denied;
  health g.

(** The part of [heartbeat] under the transition lock. *)
Definition beat (now : Instant) : Step bool := λ g,
  let w := g.(watchdog) in
  if w.(deadman) then (g, Err GuardError.Denied)
  else if w.(deadline) <=? now then ((latch_cut true g).1, Err GuardError.Denied)
  else
    let first := negb w.(activated) in
    let g := with_watchdog g {| deadline := now + g.(watchdog_timeout); activated := true;
               held := w.(held); pending := w.(pending); deadman := w.(deadman) |} in
    let g := match w.(held) with
             | None => with_flags g false g.(terminal_failure) g.(stop)
             | Some _ => g
             end in
    if first
    then let '(g, r) := queue_transition Allow "gateway activated by authenticated watchdog" g in
         (g, let? _ := r in Ok true)
    else (g, Ok false).

Definition heartbeat (now : Instant) (id : GuardIdentity) : Step bool := λ g,
  match heartbeat_checks id g with Ok _ => beat now g | Err e => (g, Err e) end.

(** ** Releasing *)
Definition enqueue_restore (authorized : bool) : Step () := λ g,
  match health g with
  | Err e => (g, Err e)
  | Ok _ =>
      enqueue (Restore (lifecycle_event g Allow "gateway release authorized") g.(stop) authorized) g
  end.

(** How a release ended for its caller. *)
Inductive RestoreAck := Applied | Fenced | Failed.
#[global] Instance RestoreAck_eq_dec : EqDecision RestoreAck. Proof. solve_decision. Defined.

(** [process_audit] up to the durable record; an error ends the task. *)
Definition take_command (sink_ok : bool) (g : Gateway) : Gateway :=
  if negb g.(audit).(running) || bool_decide (g.(audit).(releasing) ≠ None) then g
  else
    match g.(audit).(queue) with
    | [] => g
    | Record_ e :: q =>
        let '(g, r) := record sink_ok e (with_queue g q) in
        if is_ok r then g else with_task g false None
    | Restore e generation authorized :: q =>
        let '(g, r) := record sink_ok e (with_queue g q) in
        if is_ok r then with_task g true (Some (generation, authorized)) else with_task g false None
    end.

(** The release itself, under the transition lock; [closed] says that the caller has
    stopped waiting. *)
Definition apply_release (now : Instant) (closed : bool) (generation : Z) (authorized : bool)
    : Step () := λ g,
  let w := g.(watchdog) in
  if g.(terminal_failure) || (g.(stop) =? u64_max) then (g, Err GuardError.Unavailable)
  else if negb (g.(stop) =? generation) || closed then (g, Err GuardError.Denied)
  else if w.(deadman) && negb authorized then (g, Err GuardError.Denied)
  else if bool_decide (w.(held) ≠ None) && negb authorized then (g, Err GuardError.Denied)
  else
    (with_flags
       (with_watchdog g {| deadline := now + g.(watchdog_timeout); activated := true; held := None;
                           pending := false; deadman := false |})
       false g.(terminal_failure) g.(stop), Ok ()).

Definition finish_release (now : Instant) (closed refusal_ok : bool) (g : Gateway)
    : Gateway * option RestoreAck :=
  match g.(audit).(releasing) with
  | None => (g, None)
  | Some (generation, authorized) =>
      match apply_release now closed generation authorized g with
      | (g, Ok _) => (with_task g true None, Some Applied)
      | (g, Err GuardError.Denied) =>
          let '(g, r) := record refusal_ok (lifecycle_event g Deny "gateway release fenced out") g in
          (with_task g (is_ok r) None, Some Fenced)
      | (g, Err _) => (with_task g false None, Some Failed)
      end
  end.

(** A release that is not confirmed in time. *)
Definition unconfirmed (g : Gateway) : Gateway := with_flags g g.(cut_flag) true g.(stop).

(** ** Closing *)
Definition close (g : Gateway) : Gateway := with_flags g true g.(terminal_failure) u64_max.

(** [spawn_service]: a service task that fails. *)
Definition service_failed (g : Gateway) : Gateway := with_flags g true true u64_max.

(** ** Bindings *)
Definition set_fence (f : GuardFence) (g : Gateway) : Gateway :=
  if bool_decide (g.(fence).(lease_id) = f.(lease_id)) && (f.(generation) <? g.(fence).(generation)) then g
  else with_binding g g.(identity) f g.(policy_cell).

Definition adopt_policy (hash : string) : Step () := λ g,
  if negb (bool_decide ((compiled g).(policy_hash) = hash)) then (g, Err GuardError.Unavailable)
  else
    let i := g.(identity) in
    (with_binding g {| gi_sandbox_id := i.(gi_sandbox_id); gi_tenant_id := i.(gi_tenant_id);
                       gi_policy_hash := hash |} g.(fence) g.(policy_cell), Ok ()).

(** An approved proposal writes the shared cell. *)
Definition install_policy (p : ActivePolicy) (g : Gateway) : Gateway :=
  with_binding g g.(identity) g.(fence) p.

(** ** The watchdog loop *)
Definition armed (g : Gateway) : bool :=
  match g.(loop).(cut_reason) with
  | None => true
  | Some (cut, _) => negb (cut =? g.(watchdog).(deadline))
  end.

(** The first half of a turn: look at the deadline and cut. *)
Definition watch_deadline (now : Instant) (g : Gateway) : Gateway :=
  let l := g.(loop) in
  let note (reason : option (Instant * string)) (done : bool) (g : Gateway) :=
    with_loop g {| seen_deadline := g.(watchdog).(deadline); delivered := l.(delivered);
                   audited := l.(audited); cut_reason := reason; returned := done |} in
  if l.(returned) then g
  else if g.(stop) =? u64_max then note l.(cut_reason) true g
  else
    let d := g.(watchdog).(deadline) in
    if g.(terminal_failure) then
      if armed g then note (Some (d, TERMINAL_REASON)) false (latch_cut true g).1
      else note l.(cut_reason) false g
    else if armed g && (d <=? now) then note (Some (d, DEADLINE_REASON)) false (latch_cut true g).1
    else note l.(cut_reason) false g.

(** Why the cut the loop saw was made. *)
Definition reason_for (l : Loop) : string :=
  match l.(cut_reason) with
  | Some (cut, reason) => if cut =? l.(seen_deadline) then reason else OTHER_REASON
  | None => OTHER_REASON
  end.

(** The host handler: whether there is one, and whether it cut the link. *)
Definition deliver (handler : option bool) (g : Gateway) : Gateway :=
  let l := g.(loop) in
  let note (d : option Z) (done : bool) (g : Gateway) :=
    with_loop g {| seen_deadline := l.(seen_deadline); delivered := d; audited := l.(audited);
                   cut_reason := l.(cut_reason); returned := done |} in
  if g.(watchdog).(pending) && negb (bool_decide (l.(delivered) = Some g.(stop))) then
    match handler with
    | None => g
    | Some true => note (Some g.(stop)) false g
    | Some false => note l.(delivered) true (with_flags g g.(cut_flag) true g.(stop))
    end
  else g.

(** The second half of a turn: deliver the cut to the host, then record it once per
    generation and reason. *)
Definition watch_deliver (handler : option bool) (g : Gateway) : Gateway :=
  if g.(loop).(returned) then g
  else
    let generation := g.(stop) in
    let reason := reason_for g.(loop) in
    let g := deliver handler g in
    let l := g.(loop) in
    if l.(returned) then g
    else if g.(watchdog).(pending) && negb (bool_decide (l.(audited) = Some (generation, reason))) then
      let g := with_loop g {| seen_deadline := l.(seen_deadline); delivered := l.(delivered);
                              audited := Some (generation, reason); cut_reason := l.(cut_reason);
                              returned := false |} in
      if can_send g
      then with_queue g (g.(audit).(queue) ++ [Record_ (lifecycle_event g Cut reason)])
      else with_flags g g.(cut_flag) true g.(stop)
    else g.

(** ** Budgets *)
Definition rate (now : Instant) (for_dns : bool) : Step () := λ g,
  let b := g.(budget) in
  let b := if seconds 60 <=? now - b.(minute)
           then {| minute := now; requests := 0; dns_used := 0; out := b.(out); incoming := b.(incoming) |}
           else b in
  let lim := (compiled g).(cp_policy).(limits) in
  if for_dns
  then if lim.(dns_queries_per_minute) <=? b.(dns_used) then (with_budget g b, Err GuardError.Denied)
       else (with_budget g {| minute := b.(minute); requests := b.(requests);
                              dns_used := b.(dns_used) + 1; out := b.(out);
                              incoming := b.(incoming) |}, Ok ())
  else if lim.(requests_per_minute) <=? b.(requests) then (with_budget g b, Err GuardError.Denied)
       else (with_budget g {| minute := b.(minute); requests := b.(requests) + 1;
                              dns_used := b.(dns_used); out := b.(out);
                              incoming := b.(incoming) |}, Ok ()).

(** The authority's answer, unless a cut came first or meanwhile. *)
Definition reserve (cancelled : bool) (granted : result GuardError.t ()) (g : Gateway)
    : result GuardError.t () :=
  bail_if negb (active g) || cancelled with GuardError.Denied;
  granted.

(** The local counter takes the amount before it is compared, refused or not. *)
Definition debit (outgoing : bool) (amount : Z) (cancelled : bool) (granted : result GuardError.t ())
    : Step () := λ g,
  let lim := (compiled g).(cp_policy).(limits) in
  let cap := if outgoing then lim.(bytes_out) else lim.(bytes_in) in
  let b := g.(budget) in
  match checked_add u64_max (if outgoing then b.(out) else b.(incoming)) amount with
  | None => (g, Err GuardError.Denied)
  | Some value =>
      let g := with_budget g
        {| minute := b.(minute); requests := b.(requests); dns_used := b.(dns_used);
           out := if outgoing then value else b.(out);
           incoming := if outgoing then b.(incoming) else value |} in
      if cap <? value then (g, Err GuardError.Denied) else (g, reserve cancelled granted g)
  end.

(** ** Starting *)
Definition start_with_l7 `{IpNetLib} (sandbox_id tenant_id : Uuid) (f : GuardFence) (c : CompiledPolicy)
    (l : option L7Policy) (credentials : gmap string string) (timeout : Z) (bound : result GuardError.t ())
    (sink_ok : bool) (now : Instant) : result GuardError.t Gateway :=
  let? _ := verify c in
  let? _ := match l with Some l => L7.validate l | None => Ok () end in
  let? cell := AtomicPolicy_new c l in
  bail_if negb ((seconds 1 <=? timeout) && (timeout <=? seconds 60)) with GuardError.Policy;
  bail_if (match c.(cp_policy).(model) with
           | Some m => bool_decide (credentials !! m.(m_credential) = None)
           | None => false
           end) with GuardError.Unavailable;
  let? _ := bound in
  let g := {|
    identity := {| gi_sandbox_id := sandbox_id; gi_tenant_id := tenant_id; gi_policy_hash := c.(policy_hash) |};
    fence := f; policy_cell := cell; watchdog_timeout := timeout; cut_flag := true;
    terminal_failure := false; stop := 0;
    budget := {| minute := now; requests := 0; dns_used := 0; out := 0; incoming := 0 |};
    watchdog := {| deadline := now + timeout; activated := false; held := None; pending := false;
                   deadman := false |};
    audit := {| queue := []; running := true; releasing := None; journal := [] |};
    loop := {| seen_deadline := now + timeout; delivered := None; audited := None; cut_reason := None;
               returned := false |} |} in
  let '(g, r) := record sink_ok (lifecycle_event g Allow "gateway started") g in
  let? _ := r in
  Ok g.

(** ** Executions *)
Inductive Label :=
| LCut | LControlCut | LLatch | LMark (reason : string) (first : bool)
| LBeat (now : Instant)
| LRelease (authorized : bool) | LUnconfirmed
| LTake (sink_ok : bool) | LFinish (now : Instant) (closed refusal_ok : bool)
| LRecord (sink_ok : bool) (e : EventInput)
| LClose | LServiceFailed
| LFence (f : GuardFence) | LAdopt (hash : string) | LInstall (p : ActivePolicy)
| LWatch (now : Instant) | LDeliver (handler : option bool)
| LRate (now : Instant) (for_dns : bool)
| LDebit (outgoing : bool) (amount : Z) (cancelled : bool) (granted : result GuardError.t ()).

(** [LBeat] is the locked part of a heartbeat whose checks passed earlier, so every
    interleaving of [heartbeat] with other steps is an execution. *)
Definition step (g : Gateway) (l : Label) : Gateway :=
  match l with
  | LCut => (cut g).1
  | LControlCut | LLatch => (latch_cut false g).1
  | LMark reason first => (mark_held reason first g).1
  | LBeat now => (beat now g).1
  | LRelease authorized => (enqueue_restore authorized g).1
  | LUnconfirmed => unconfirmed g
  | LTake sink_ok => take_command sink_ok g
  | LFinish now closed refusal_ok => (finish_release now closed refusal_ok g).1
  | LRecord sink_ok e => (record sink_ok e g).1
  | LClose => close g
  | LServiceFailed => service_failed g
  | LFence f => set_fence f g
  | LAdopt hash => (adopt_policy hash g).1
  | LInstall p => install_policy p g
  | LWatch now => watch_deadline now g
  | LDeliver handler => watch_deliver handler g
  | LRate now for_dns => (rate now for_dns g).1
  | LDebit outgoing amount cancelled granted => (debit outgoing amount cancelled granted g).1
  end.

Definition run (g : Gateway) (ls : list Label) : Gateway := foldl step g ls.

(** ** Lemmas: containment *)

(** A cut that is not the watchdog's to undo. *)
Definition contained (g : Gateway) : Prop :=
  g.(cut_flag) = true ∧ (g.(watchdog).(deadman) = true ∨ g.(watchdog).(held) ≠ None).

Definition unauthorized_command (c : AuditCommand) : Prop :=
  match c with Record_ _ => True | Restore _ _ authorized => authorized = false end.

(** No authorized release is under way. *)
Definition unauthorized (g : Gateway) : Prop :=
  Forall unauthorized_command g.(audit).(queue)
  ∧ (∀ n a, g.(audit).(releasing) = Some (n, a) → a = false).

Create HintDb gateway.

(** Case analysis on the branches of a step. *)
Ltac branches :=
  repeat (progress cbn in * || case_match); simplify_eq/=.

Lemma enqueue_contained c g :
  unauthorized_command c → contained g → unauthorized g →
  contained (enqueue c g).1 ∧ unauthorized (enqueue c g).1.
Proof.
  intros Hc [Hcut Hw] [Hq Hr]. unfold enqueue, contained, unauthorized. branches; split_and!; try done.
  apply Forall_app. by repeat constructor.
Qed.

Lemma record_contained ok e g :
  contained g → unauthorized g → contained (record ok e g).1 ∧ unauthorized (record ok e g).1.
Proof. intros [??] [??]. unfold record, contained, unauthorized. by branches. Qed.

Lemma latch_contained d g :
  contained g → unauthorized g → contained (latch_cut d g).1 ∧ unauthorized (latch_cut d g).1.
Proof.
  intros [? Hw] ?. unfold contained. split; [|done]. cbn. split; [done|].
  destruct Hw as [->|]; [by left|by right].
Qed.
#[export] Hint Resolve enqueue_contained record_contained latch_contained : gateway.

Lemma take_contained ok g :
  contained g → unauthorized g → contained (take_command ok g) ∧ unauthorized (take_command ok g).
Proof.
  intros Hc [Hq Hr]. unfold take_command, record, contained, unauthorized in *.
  destruct (negb _ || _); [done|]. destruct (queue (audit g)) as [|c q] eqn:Eq; [by rewrite Eq|].
  apply Forall_cons in Hq as [Hcmd Hq].
  destruct c as [e|e n a]; destruct ok; cbn in *; split_and!; try tauto; naive_solver.
Qed.

Lemma apply_release_contained now closed n g :
  contained g → (apply_release now closed n false g).1 = g ∧ is_ok (apply_release now closed n false g).2 = false.
Proof.
  intros [_ Hw]. unfold apply_release. cbv zeta. rewrite !andb_true_r.
  destruct (_ || _); [done|]. destruct (negb _ || closed); [done|].
  destruct (deadman (watchdog g)); [done|]. destruct Hw as [?|Hh]; [done|].
  by rewrite bool_decide_true by done.
Qed.

Lemma finish_contained now closed ok g :
  contained g → unauthorized g →
  contained (finish_release now closed ok g).1 ∧ unauthorized (finish_release now closed ok g).1.
Proof.
  intros Hc Hu. unfold finish_release. destruct (releasing (audit g)) as [[n a]|] eqn:Hr; [|done].
  assert (a = false) as -> by (by eapply (proj2 Hu)).
  destruct (apply_release_contained now closed n g Hc) as [Hg Hok].
  destruct (apply_release now closed n false g) as [g' r]. cbn in Hg, Hok. subst g'.
  destruct r as [|e]; [done|].
  assert (Ht : ∀ r, contained (with_task g r None) ∧ unauthorized (with_task g r None))
    by (intros r; split; [exact Hc|split; [apply Hu|done]]).
  destruct e; try apply Ht.
  destruct (record_contained ok (lifecycle_event g Deny "gateway release fenced out") g Hc Hu) as [H1 H2].
  destruct (record ok _ g) as [g1 r1]. cbn in *. split; [exact H1|split; [apply H2|done]].
Qed.

Lemma watch_contained now g :
  contained g → unauthorized g → contained (watch_deadline now g) ∧ unauthorized (watch_deadline now g).
Proof.
  intros Hc Hu. destruct (latch_contained true g Hc Hu). unfold watch_deadline. cbv zeta.
  by repeat case_match.
Qed.

Lemma deliver_contained handler g :
  contained g → unauthorized g → contained (watch_deliver handler g) ∧ unauthorized (watch_deliver handler g).
Proof.
  intros Hc Hu. unfold watch_deliver. destruct (returned (loop g)); [done|].
  assert (Hd : contained (deliver handler g) ∧ unauthorized (deliver handler g))
    by (unfold deliver; by repeat case_match).
  revert Hd. generalize (deliver handler g) as t, (reason_for (loop g)) as reason. intros t reason [Ht Htu].
  cbv zeta. destruct (returned (loop t)); [done|]. destruct (_ && _); [|done]. case_match; [|done].
  split; [exact Ht|]. destruct Htu as [Hq Hr]. split; [|done]. cbn. apply Forall_app. by repeat constructor.
Qed.

Lemma step_contained l g :
  l ≠ LRelease true → contained g → unauthorized g → contained (step g l) ∧ unauthorized (step g l).
Proof.
  intros Hl Hc Hu. pose proof (λ d, latch_contained d g Hc Hu) as Hlatch.
  destruct l as [| | |reason first|now|a| |ok|now closed ok|ok e| | |f|h|p|now|handler|now d|o n c r]; cbn [step].
  - unfold cut, queue_transition. destruct (Hlatch false). destruct (latch_cut false g) as [g1 first].
    destruct first; [by apply enqueue_contained|done].
  - apply Hlatch.
  - apply Hlatch.
  - unfold mark_held, queue_transition.
    match goal with |- context [with_watchdog g ?w] => set (g1 := with_watchdog g w) end.
    assert (contained g1 ∧ unauthorized g1) as [H1 H2] by (split; [split; [apply Hc|by right]|done]).
    case_match; [by apply enqueue_contained|done].
  - unfold beat. destruct (deadman (watchdog g)) eqn:Hd; [done|]. case_match; [apply Hlatch|].
    destruct Hc as [Hcut [?|Hh]]; [congruence|]. destruct (held (watchdog g)) as [why|] eqn:Hheld; [|done].
    match goal with |- context [with_watchdog g ?w] => set (g1 := with_watchdog g w) end.
    assert (contained g1 ∧ unauthorized g1) as [H1 H2] by (split; [split; [done|by right]|done]).
    case_match; [|done]. unfold queue_transition.
    pose proof (enqueue_contained (Record_ (lifecycle_event g1 Allow "gateway activated by authenticated watchdog")) g1 I H1 H2).
    by destruct (enqueue _ g1).
  - unfold enqueue_restore. destruct (health g); [|done]. destruct a; [done|]. by apply enqueue_contained.
  - done.
  - by apply take_contained.
  - by apply finish_contained.
  - by apply record_contained.
  - destruct Hc. done.
  - destruct Hc. done.
  - unfold set_fence. by case_match.
  - unfold adopt_policy. by case_match.
  - done.
  - by apply watch_contained.
  - by apply deliver_contained.
  - unfold rate. by repeat case_match.
  - unfold debit. by repeat case_match.
Qed.

Lemma run_contained ls g :
  LRelease true ∉ ls → contained g → unauthorized g → contained (run g ls).
Proof.
  revert g. induction ls as [|l ls IH]; intros g Hl Hc Hu; [done|].
  apply not_elem_of_cons in Hl as [Hne Hl]. destruct (step_contained l g) as [??]; [done..|]. by apply IH.
Qed.

Lemma contained_inactive g : contained g → active g = false.
Proof. intros [Hc _]. unfold active. by rewrite Hc. Qed.

Lemma hold_cut_contains reason g :
  unauthorized g → contained (hold_cut reason g).1 ∧ unauthorized (hold_cut reason g).1.
Proof.
  intros Hu. unfold hold_cut. destruct (latch_cut false g) as [g1 first] eqn:Hl.
  injection Hl as <- Hfirst. unfold mark_held, queue_transition.
  match goal with |- context [with_watchdog (with_flags ?a ?b ?c ?d) ?w] =>
    set (g1 := with_watchdog (with_flags a b c d) w) end.
  assert (contained g1 ∧ unauthorized g1) as [??] by (split; [split; [done|by right]|exact Hu]).
  case_match; [by apply enqueue_contained|done].
Qed.

(** Unfold a step down to its branches. *)
Ltac unfold_step :=
  unfold cut, mark_held, beat, enqueue_restore, take_command, finish_release, apply_release, record,
    queue_transition, enqueue, health, set_fence, adopt_policy, watch_deadline, watch_deliver, deliver,
    rate, debit, latch_cut, unconfirmed, close, service_failed, install_policy in *; cbv zeta in *; cbn in *.

(** ** Lemmas: the terminal fault *)
Lemma step_terminal l g : terminal_failure g = true → terminal_failure (step g l) = true.
Proof.
  intros Ht. destruct l; cbn [step]; unfold_step; rewrite ?Ht in *; cbn in *;
    repeat (case_match; cbn in *; simplify_eq/=); try done; by rewrite ?Ht.
Qed.

Lemma run_terminal ls g : terminal_failure g = true → terminal_failure (run g ls) = true.
Proof. revert g. induction ls as [|l ls IH]; intros g Hg; [done|]. by apply IH, step_terminal. Qed.

(** A closed gateway: the stop channel carries its last value. *)
Definition closed_down (g : Gateway) : Prop := g.(cut_flag) = true ∧ g.(stop) = u64_max.

Lemma bump_max : bump u64_max = u64_max.
Proof. reflexivity. Qed.

Lemma step_closed l g : (∀ now, l ≠ LBeat now) → closed_down g → closed_down (step g l).
Proof.
  intros Hl [Hc Hs]. unfold closed_down.
  destruct l; cbn [step]; try (by destruct (Hl now)); unfold_step; rewrite ?Hs, ?bump_max, ?Z.eqb_refl, ?orb_true_r in *;
    cbn in *; repeat (case_match; cbn in *; simplify_eq/=); split; try done; by rewrite ?Hs.
Qed.

Lemma bump_range n : 0 ≤ n ≤ u64_max → n ≤ bump n ≤ u64_max.
Proof.
  unfold bump, u64_max. intros Hn. destruct (Z.eqb_spec n (2 ^ 64 - 1)); [lia|]. rewrite Z.mod_small; lia.
Qed.

Lemma step_generation l g :
  0 ≤ g.(stop) ≤ u64_max → g.(stop) ≤ (step g l).(stop) ≤ u64_max.
Proof.
  intros Hs. pose proof (bump_range _ Hs).
  destruct l; cbn [step]; unfold_step; repeat (case_match; cbn in *; simplify_eq/=); lia.
Qed.

Lemma run_generation ls g :
  0 ≤ g.(stop) ≤ u64_max → g.(stop) ≤ (run g ls).(stop) ≤ u64_max.
Proof.
  revert g. induction ls as [|l ls IH]; intros g Hg; simpl; [lia|].
  pose proof (step_generation l g Hg). specialize (IH (step g l)). lia.
Qed.

(** ** Lemmas: what opens the network *)
Definition opens (g : Gateway) (l : Label) : Prop :=
  (∃ now, l = LBeat now ∧ now < g.(watchdog).(deadline)
     ∧ g.(watchdog).(deadman) = false ∧ g.(watchdog).(held) = None)
  ∨ (∃ now closed refusal_ok authorized, l = LFinish now closed refusal_ok
     ∧ g.(audit).(releasing) = Some (g.(stop), authorized) ∧ g.(stop) ≠ u64_max
     ∧ (authorized = true ∨ g.(watchdog).(deadman) = false ∧ g.(watchdog).(held) = None)).

Lemma apply_release_ok now closed n a g :
  is_ok (apply_release now closed n a g).2 = true →
  g.(stop) = n ∧ g.(stop) ≠ u64_max ∧ g.(terminal_failure) = false
  ∧ (a = true ∨ g.(watchdog).(deadman) = false ∧ g.(watchdog).(held) = None).
Proof.
  unfold apply_release. cbv zeta. destruct (terminal_failure g); [done|]. cbn [orb].
  destruct (Z.eqb_spec (stop g) u64_max); [done|]. destruct (Z.eqb_spec (stop g) n); [|done].
  destruct closed; [done|]. cbn [negb orb].
  destruct a; cbn [negb]; rewrite ?andb_true_r, ?andb_false_r; [by auto|].
  destruct (deadman (watchdog g)); [done|]. destruct (held (watchdog g)) as [why|]; [|naive_solver].
  by rewrite bool_decide_true by done.
Qed.

Lemma apply_release_err now closed n a g :
  is_ok (apply_release now closed n a g).2 = false → (apply_release now closed n a g).1 = g.
Proof. unfold apply_release. cbv zeta. repeat case_match; cbn; by intros. Qed.

Lemma record_inactive ok e g : active g = false → active (record ok e g).1 = false.
Proof. unfold record. by destruct ok. Qed.

Lemma opens_only g l : active g = false → active (step g l) = true → opens g l.
Proof.
  intros Hi Ho. destruct l as [| | |reason first|now|a| |ok|now closed ok|ok e| | |f|h|p|now|handler|now d|o n c r];
    cbn [step] in Ho.
  5:{ left. exists now. unfold beat in Ho. cbv zeta in Ho.
      destruct (deadman (watchdog g)) eqn:Hd; [cbn in Ho; congruence|].
      destruct (Z.leb_spec (deadline (watchdog g)) now) as [|Hnow]; [done|].
      destruct (held (watchdog g)) eqn:Hh; [|done]. exfalso. revert Ho Hi. unfold active.
      destruct (activated (watchdog g)); cbn; [congruence|]. unfold queue_transition, enqueue.
      destruct (can_send _); cbn; congruence. }
  8:{ right. unfold finish_release in Ho. destruct (releasing (audit g)) as [[n a]|] eqn:Hr; [|cbn in Ho; congruence].
      exists now, closed, ok, a. destruct (is_ok (apply_release now closed n a g).2) eqn:Hok.
      - apply apply_release_ok in Hok as (<- & ? & _ & ?). done.
      - exfalso. pose proof (apply_release_err _ _ _ _ _ Hok) as Hg.
        destruct (apply_release now closed n a g) as [g' [|e]]; [done|]. cbn in Hg. subst g'.
        pose proof (record_inactive ok (lifecycle_event g Deny "gateway release fenced out") g Hi).
        destruct e; cbn in Ho; try (unfold active in *; cbn in *; congruence).
        destruct (record ok _ g) as [g1 r1]. unfold active in *; cbn in *; congruence. }
  all: exfalso; unfold active in *; unfold_step; rewrite ?andb_false_r in *; 
    repeat (case_match; cbn in *; simplify_eq/=); rewrite ?andb_false_r in *; try congruence; by destruct (terminal_failure g), (cut_flag g).
Qed.

(** ** Lemmas: a release is recorded before it is applied *)
Definition is_release (e : EventInput) : Prop :=
  e.(i_decision) = Allow ∧ e.(i_reason) = "gateway release authorized"%string.

Definition release_command (c : AuditCommand) : Prop :=
  match c with Record_ _ => True | Restore e _ _ => is_release e end.

Definition recorded (g : Gateway) : Prop :=
  Forall release_command g.(audit).(queue)
  ∧ (g.(audit).(releasing) ≠ None → ∃ e, e ∈ g.(audit).(journal) ∧ is_release e).

Lemma enqueue_recorded c g : release_command c → recorded g → recorded (enqueue c g).1.
Proof.
  intros Hc [Hq Hr]. unfold enqueue. case_match; [|done]. split; [|done]. cbn.
  apply Forall_app. by repeat constructor.
Qed.

Lemma record_recorded ok e g : recorded g → recorded (record ok e g).1.
Proof.
  intros [Hq Hr]. unfold record. destruct ok; [|done]. split; [done|]. cbn.
  intros (x & ? & ?)%Hr. exists x. split; [|done]. apply elem_of_app. by left.
Qed.

Lemma take_recorded ok g : recorded g → recorded (take_command ok g).
Proof.
  intros [Hq Hr]. unfold take_command. destruct (negb _ || _); [done|].
  destruct (queue (audit g)) as [|c q] eqn:Eq; [by split; [rewrite Eq|]|].
  apply Forall_cons in Hq as [Hc Hq].
  destruct c as [e|e n a]; destruct ok; cbn; split; try done; cbn; try naive_solver.
  - intros (x & ? & ?)%Hr. exists x. split; [|done]. apply elem_of_app. by left.
  - intros _. exists e. split; [|done]. apply elem_of_app. right. by apply list_elem_of_singleton.
Qed.

Lemma finish_recorded now closed ok g : recorded g → recorded (finish_release now closed ok g).1.
Proof.
  intros Hr. unfold finish_release. destruct (releasing (audit g)) as [[n a]|]; [|done].
  assert (Hg : (apply_release now closed n a g).1.(audit) = g.(audit))
    by (unfold apply_release; cbv zeta; by repeat case_match).
  destruct (apply_release now closed n a g) as [g' r]. cbn in Hg.
  assert (Hr' : recorded g') by (unfold recorded in *; by rewrite Hg).
  assert (Ht : ∀ t b, recorded t → recorded (with_task t b None))
    by (intros t b [? _]; by split).
  destruct r as [|[]]; try by apply Ht.
  pose proof (record_recorded ok (lifecycle_event g' Deny "gateway release fenced out") g' Hr').
  destruct (record ok _ g') as [g1 r1]. by apply Ht.
Qed.

Lemma deliver_recorded handler g : recorded g → recorded (watch_deliver handler g).
Proof.
  intros Hr. unfold watch_deliver. destruct (returned (loop g)); [done|].
  assert (Hd : recorded (deliver handler g)) by (unfold deliver; by repeat case_match).
  revert Hd. generalize (deliver handler g) as t, (reason_for (loop g)) as reason. intros t reason [Hq Ht].
  cbv zeta. destruct (returned (loop t)); [done|]. destruct (_ && _); [|done]. case_match; [|done].
  split; [|done]. cbn. apply Forall_app. by repeat constructor.
Qed.

Lemma step_recorded l g : recorded g → recorded (step g l).
Proof.
  intros Hr. destruct l; cbn [step]; try done.
  - unfold cut, queue_transition, latch_cut. case_match; [done|by apply enqueue_recorded].
  - unfold mark_held, queue_transition. case_match; [by apply enqueue_recorded|done].
  - unfold beat, queue_transition. cbv zeta. destruct (deadman (watchdog g)); [done|]. case_match; [done|].
    destruct (held (watchdog g)), (activated (watchdog g)); cbn [negb]; try done;
      match goal with |- context [enqueue ?c ?t] =>
        assert (recorded (enqueue c t).1) by (by apply enqueue_recorded); by destruct (enqueue c t) end.
  - unfold enqueue_restore. destruct (health g); [by apply enqueue_recorded|done].
  - by apply take_recorded.
  - by apply finish_recorded.
  - by apply record_recorded.
  - unfold set_fence. by case_match.
  - unfold adopt_policy. by case_match.
  - unfold watch_deadline, latch_cut. cbv zeta. by repeat case_match.
  - by apply deliver_recorded.
  - unfold rate. by repeat case_match.
  - unfold debit. by repeat case_match.
Qed.

Lemma run_recorded ls g : recorded g → recorded (run g ls).
Proof. revert g. induction ls as [|l ls IH]; intros g Hg; [done|]. by apply IH, step_recorded. Qed.

Lemma start_recorded `{IpNetLib} sb tn f c l cr t b ok now g :
  start_with_l7 sb tn f c l cr t b ok now = Ok g →
  recorded g ∧ unauthorized g ∧ active g = false ∧ stop g = 0.
Proof.
  unfold start_with_l7. cbv zeta. intros Hs. ok_inv Hs. destruct ok; [|done]. ok_inv Hs.
  injection Hs as <-. split_and!; try done; split; cbn; try done; constructor.
Qed.

(** ** Lemmas: budgets *)
Definition same_limits (g : Gateway) (l : Label) : Prop :=
  match l with
  | LInstall p => p.(active_compiled).(cp_policy).(limits) = (compiled g).(cp_policy).(limits)
  | _ => True
  end.

Definition budget_frame (g g' : Gateway) : Prop :=
  g'.(budget) = g.(budget) ∧ (compiled g').(cp_policy).(limits) = (compiled g).(cp_policy).(limits).

(** Only [rate] and [debit] touch the counters. *)
Lemma step_budget l g :
  same_limits g l →
  match l with LRate _ _ | LDebit _ _ _ _ => True | _ => budget_frame g (step g l) end.
Proof.
  intros Hl. destruct l; cbn [step]; try done; unfold_step; unfold budget_frame, compiled;
    repeat (case_match; cbn in *; simplify_eq/=); done.
Qed.

Lemma step_keeps_budget l g :
  match l with LRate _ _ | LDebit _ _ _ _ => True | _ => (step g l).(budget) = g.(budget) end.
Proof. destruct l; cbn [step]; try done; unfold_step; repeat (case_match; cbn in *; simplify_eq/=); done. Qed.

Definition used (outgoing : bool) (b : Budget) : Z := if outgoing then b.(out) else b.(incoming).
Definition byte_cap (outgoing : bool) (g : Gateway) : Z :=
  let lim := (compiled g).(cp_policy).(limits) in if outgoing then lim.(bytes_out) else lim.(bytes_in).

(** What a sequence of steps costs, each step measured in the state it starts from. *)
Fixpoint total (cost : Gateway → Label → Z) (g : Gateway) (ls : list Label) : Z :=
  match ls with [] => 0 | l :: ls => cost g l + total cost (step g l) ls end.

(** When each step costs no more than the room it takes, the whole fits in the room. *)
Lemma total_le (cost : Gateway → Label → Z) (room : Gateway → Z) (P : Gateway → Label → Prop) ls g :
  (∀ g, 0 ≤ room g) → (∀ g l, P g l → cost g l + room (step g l) ≤ room g) →
  (∀ before l after, ls = before ++ l :: after → P (run g before) l) → total cost g ls ≤ room g.
Proof.
  intros Hr Hs. revert g. induction ls as [|l ls IH]; intros g Hp; simpl; [apply Hr|].
  pose proof (Hs g l (Hp [] l ls eq_refl)). assert (total cost (step g l) ls ≤ room (step g l)); [|lia].
  apply IH. intros before l' after ->. by apply (Hp (l :: before) l' after).
Qed.

(** The bytes a step lets through in one direction. *)
Definition bytes_admitted (outgoing : bool) (g : Gateway) (l : Label) : Z :=
  match l with
  | LDebit o amount cancelled granted =>
      if Bool.eqb o outgoing && is_ok (debit o amount cancelled granted g).2 then amount else 0
  | _ => 0
  end.

Definition sane (g : Gateway) (l : Label) : Prop :=
  match l with LDebit _ amount _ _ => 0 ≤ amount | l => same_limits g l end.

Lemma debit_spec o amount cancelled granted g outgoing :
  0 ≤ amount →
  let '(g', r) := debit o amount cancelled granted g in
  (compiled g').(cp_policy).(limits) = (compiled g).(cp_policy).(limits)
  ∧ used outgoing g.(budget) ≤ used outgoing g'.(budget)
  ∧ (o = outgoing → is_ok r = true →
     used outgoing g'.(budget) = used outgoing g.(budget) + amount
     ∧ used outgoing g'.(budget) ≤ byte_cap outgoing g).
Proof.
  intros Ha. unfold debit. cbv zeta.
  destruct (checked_add _ _ _) as [value|] eqn:Hv; [|by split_and!].
  assert (Hval : value = (if o then out (budget g) else incoming (budget g)) + amount)
    by (unfold checked_add in Hv; by case_match; simplify_eq).
  match goal with |- context [?cap <? ?v] => destruct (Z.ltb_spec cap v) as [Hc|Hc] end;
    destruct o, outgoing; unfold byte_cap, compiled; cbn in *; split_and!; try done; lia.
Qed.

Lemma sane_limits g g' l :
  (compiled g').(cp_policy).(limits) = (compiled g).(cp_policy).(limits) → sane g l → sane g' l.
Proof. intros Hl. destruct l; simpl; congruence. Qed.

Lemma step_sane_limits g l :
  sane g l → (compiled (step g l)).(cp_policy).(limits) = (compiled g).(cp_policy).(limits).
Proof.
  intros Hl. pose proof (step_budget l g) as Hb. destruct l; cbn [step] in *.
  18:{ unfold rate. cbv zeta. by repeat case_match. }
  18:{ unfold debit. cbv zeta. by repeat case_match. }
  all: by destruct (Hb Hl) as [_ ->].
Qed.

Lemma step_bytes outgoing ceiling g l :
  match l with LDebit _ amount _ _ => 0 ≤ amount | _ => True end → byte_cap outgoing g ≤ ceiling →
  bytes_admitted outgoing g l + Z.max 0 (ceiling - used outgoing (step g l).(budget)) ≤ Z.max 0 (ceiling - used outgoing g.(budget)).
Proof.
  intros Hl Hcap. pose proof (step_keeps_budget l g) as Hb. destruct l; cbn [step bytes_admitted] in *.
  18:{ unfold rate. cbv zeta. repeat case_match; destruct outgoing; cbn; lia. }
  18:{ pose proof (debit_spec outgoing0 amount cancelled granted g outgoing Hl) as Hd.
       destruct (debit outgoing0 amount cancelled granted g) as [g' r]. destruct Hd as (_ & Hu & Hd). cbn in *.
       destruct (Bool.eqb_spec outgoing0 outgoing); [|simpl; lia]. destruct (is_ok r); simpl; [|lia].
       destruct Hd as [He Hle]; [done..|]. lia. }
  all: rewrite Hb; lia.
Qed.

(** The requests or DNS questions a step lets through. *)
Definition rate_cap (for_dns : bool) (g : Gateway) : Z :=
  let lim := (compiled g).(cp_policy).(limits) in
  if for_dns then lim.(dns_queries_per_minute) else lim.(requests_per_minute).
Definition counted (for_dns : bool) (b : Budget) : Z := if for_dns then b.(dns_used) else b.(requests).
Definition requests_admitted (for_dns : bool) (g : Gateway) (l : Label) : Z :=
  match l with
  | LRate now d => if Bool.eqb d for_dns && is_ok (rate now d g).2 then 1 else 0
  | _ => 0
  end.

(** A step within one minute of the window's start. *)
Definition in_window (start : Instant) (l : Label) : Prop :=
  match l with LRate now _ => now < start + seconds 60 | _ => True end.

Lemma step_minute start g l : g.(budget).(minute) = start → in_window start l → (step g l).(budget).(minute) = start.
Proof.
  intros Hm Hw. pose proof (step_keeps_budget l g) as Hb. destruct l; cbn [step in_window] in *.
  18:{ unfold rate. cbv zeta. rewrite (proj2 (Z.leb_gt (seconds 60) (now - minute (budget g)))) by lia. by repeat case_match. }
  18:{ unfold debit. cbv zeta. by repeat case_match. }
  all: by rewrite Hb.
Qed.

Lemma run_minute start ls g : g.(budget).(minute) = start → Forall (in_window start) ls → (run g ls).(budget).(minute) = start.
Proof.
  revert g. induction ls as [|l ls IH]; intros g Hm Hw; [done|]. apply Forall_cons in Hw as [Hl Hw].
  apply IH; [by apply step_minute|done].
Qed.

Lemma step_requests for_dns ceiling start g l :
  g.(budget).(minute) = start → in_window start l → rate_cap for_dns g ≤ ceiling →
  requests_admitted for_dns g l + Z.max 0 (ceiling - counted for_dns (step g l).(budget)) ≤ Z.max 0 (ceiling - counted for_dns g.(budget)).
Proof.
  intros Hm Hw Hcap. pose proof (step_keeps_budget l g) as Hb. destruct l; cbn [step requests_admitted in_window] in *.
  18:{ unfold rate, rate_cap, counted in *. cbv zeta in *. rewrite (proj2 (Z.leb_gt (seconds 60) (now - minute (budget g)))) by lia.
       destruct for_dns0, for_dns; match goal with |- context [?c <=? ?u] => destruct (Z.leb_spec c u) end; cbn; lia. }
  18:{ unfold debit, counted. cbv zeta. repeat case_match; cbn; lia. }
  all: rewrite Hb; lia.
Qed.

(** ** Theorems *)

(** C8: A contained attachment stays cut until an authorized release: once a cut is held, or
    the dead-man switch has latched, no sequence of heartbeats, ordinary releases, cuts,
    policy changes, failures and watchdog turns, in any order, lets traffic through,
    unless an authorized release is asked for; holding a cut, uninterrupted, contains. *)
Theorem containment_needs_authorized_release (g g' : Gateway) (ls : list Label) :
  unauthorized g → (contained g ∧ g' = g ∨ ∃ reason, g' = (hold_cut reason g).1) →
  LRelease true ∉ ls → active (run g' ls) = false.
Proof.
  intros Hu Hg Hl. apply contained_inactive, run_contained; [done|..];
    destruct Hg as [[Hc ->]|[reason ->]]; try done; by apply hold_cut_contains.
Qed.

(** C30: A silent watchdog cuts the attachment.  A turn of the watchdog loop that sees the
    deadline pass cuts the network and latches the dead-man switch, so from then on only
    an authorized release can open it. *)
Theorem silence_contains (g : Gateway) (now : Instant) (ls : list Label) :
  unauthorized g → g.(loop).(returned) = false → g.(stop) ≠ u64_max → armed g = true →
  g.(watchdog).(deadline) ≤ now → LRelease true ∉ ls →
  active (run (watch_deadline now g) ls) = false.
Proof.
  intros Hu Hr Hs Ha Hd Hl.
  assert (Hc : contained (watch_deadline now g) ∧ unauthorized (watch_deadline now g)).
  { unfold watch_deadline. cbv zeta. rewrite Hr, (proj2 (Z.eqb_neq _ _) Hs), Ha, (proj2 (Z.leb_le _ _) Hd).
    destruct (terminal_failure g); cbn [andb];
      (split; [split; [done|left; cbn; apply orb_true_r]|exact Hu]). }
  destruct Hc. by apply contained_inactive, run_contained.
Qed.

(** How the network opens.  In every execution of a started gateway, a step that lets
    traffic through again is either an authenticated heartbeat before the deadline with
    no containment in force, or the application of a release that was asked for under
    the current generation, that is authorized or meets no containment, and whose record
    is already in the journal. *)
Theorem network_opens_only_by `{IpNetLib} sb tn f c l cr t b ok now g0 ls label :
  start_with_l7 sb tn f c l cr t b ok now = Ok g0 →
  let g := run g0 ls in
  active g = false → active (step g label) = true →
  opens g label ∧ (∀ n cl rf, label = LFinish n cl rf →
    ∃ e, e ∈ g.(audit).(journal) ∧ is_release e).
Proof.
  intros (Hr & _)%start_recorded. cbv zeta. intros Hi Ho. split; [by apply opens_only|].
  intros n cl rf ->. apply (run_recorded ls) in Hr as [_ Hr]. apply Hr.
  destruct (opens_only _ _ Hi Ho) as [(? & ? & _)|(? & ? & ? & a & _ & Hrel & _)]; [done|].
  by rewrite Hrel.
Qed.

Lemma run_closed ls g : (∀ now, LBeat now ∉ ls) → closed_down g → closed_down (run g ls).
Proof.
  revert g. induction ls as [|l ls IH]; intros g Hl Hg; [done|].
  apply IH; [intros now Hin; by apply (Hl now); right|]. apply step_closed; [|done].
  intros now ->. apply (Hl now). left.
Qed.

(** A terminal fault is final, and so is closing: after a failed audit record, a full
    audit queue or a failed service no step lets traffic through again, and neither does
    any step after [close] (a heartbeat needs the gateway that closing consumes). *)
Theorem terminal_fault_is_final (g : Gateway) (ls : list Label) :
  g.(terminal_failure) = true ∨ (∀ now, LBeat now ∉ ls) ∧ closed_down g → active (run g ls) = false.
Proof.
  unfold active. intros [Ht|[Hl Hc]].
  - by rewrite (run_terminal ls g Ht), andb_false_r.
  - by destruct (run_closed ls g Hl Hc) as [-> _].
Qed.

(** A first cut fences out every release asked for before it: the generation a release
    carries is the one it was asked under, a first cut moves the generation, and no later
    step moves it back, so the release is refused whenever it is applied. *)
Theorem first_cut_fences_earlier_releases (g : Gateway) (d : bool) (ls : list Label)
    (now : Instant) (closed authorized : bool) :
  g.(watchdog).(pending) = false → 0 ≤ g.(stop) < u64_max →
  is_ok (apply_release now closed g.(stop) authorized (run (latch_cut d g).1 ls)).2 = false.
Proof.
  intros Hp Hs. destruct (is_ok _) eqn:Hok; [|done]. exfalso.
  apply apply_release_ok in Hok as (Heq & _).
  assert (Hb : (latch_cut d g).1.(stop) = g.(stop) + 1).
  { cbn. rewrite Hp. cbn. unfold bump. destruct (Z.eqb_spec (stop g) u64_max); [lia|].
    unfold u64_max in *. rewrite Z.mod_small; lia. }
  pose proof (run_generation ls (latch_cut d g).1). rewrite Hb in *. lia.
Qed.

(** A heartbeat that reopens an ordinary cut leaves it pending, so the next cut is not a
    first one: it queues no record, moves no generation and is not delivered to the host
    again, and a release asked for before it undoes it. *)
Theorem second_cut_not_fenced (g : Gateway) (now : Instant) :
  g.(watchdog).(pending) = true → g.(watchdog).(deadman) = false → g.(watchdog).(held) = None →
  active g = true → g.(stop) ≠ u64_max →
  g.(audit).(queue) = [] → g.(audit).(running) = true → g.(audit).(releasing) = None →
  let g1 := step g LCut in
  active g1 = false ∧ g1.(stop) = g.(stop) ∧ g1.(audit) = g.(audit)
  ∧ (g.(loop).(delivered) = Some g.(stop) → ∀ handler, deliver handler g1 = g1)
  ∧ active (run g [LRelease false; LCut; LTake true; LFinish now false true]) = true.
Proof.
  intros Hp Hd Hh Ha Hs Hq Hr Hrel. unfold active in Ha. apply andb_true_iff in Ha as [Hc Ht].
  apply negb_true_iff in Hc, Ht. cbn [step]. unfold cut, latch_cut. rewrite Hp. cbn [negb].
  split_and!; [done..| |].
  - intros Hdel handler. unfold deliver. cbn. rewrite Hdel, bool_decide_true by done. done.
  - cbn [run foldl step]. unfold enqueue_restore, health, enqueue, can_send.
    rewrite Ht, (proj2 (Z.eqb_neq _ _) Hs), Hr, Hq. cbn [orb andb length app fst].
    change (Z.of_nat 0 <? AUDIT_QUEUE) with true. unfold cut, latch_cut. cbn -[bump u64_max lifecycle_event].
    rewrite Hp. cbn -[bump u64_max lifecycle_event]. unfold take_command. cbn -[bump u64_max lifecycle_event].
    rewrite Hr, Hrel. cbn -[bump u64_max lifecycle_event].
    unfold finish_release, apply_release. cbn -[bump u64_max lifecycle_event].
    rewrite Ht, (proj2 (Z.eqb_neq _ _) Hs), Z.eqb_refl, Hd, Hh. reflexivity.
Qed.

(** An authorized release opens the network at once.  Its documentation says that
    traffic still waits for the watchdog's next heartbeat; applying it clears the latch,
    the hold and the cut together, whether or not the watchdog has ever reported. *)
Theorem authorized_release_opens_at_once (g : Gateway) (now : Instant) (refusal_ok : bool) :
  g.(audit).(releasing) = Some (g.(stop), true) → g.(terminal_failure) = false → g.(stop) ≠ u64_max →
  active (step g (LFinish now false refusal_ok)) = true.
Proof.
  intros Hr Ht Hs. cbn [step]. unfold finish_release, apply_release.
  rewrite Hr, Ht, (proj2 (Z.eqb_neq _ _) Hs), Z.eqb_refl, !andb_false_r. reflexivity.
Qed.

(** Holding a cut takes the lock twice, and a heartbeat between the two reopens the
    network for good: the attachment ends both held and open, where the documentation
    says that the next heartbeat cannot undo a hold. *)
Theorem hold_interrupted_stays_open (g : Gateway) (now : Instant) (reason : string) (first : bool) :
  g.(watchdog).(deadman) = false → g.(watchdog).(held) = None → g.(watchdog).(activated) = true →
  now < g.(watchdog).(deadline) → g.(terminal_failure) = false → can_send g = true →
  let g' := run g [LLatch; LBeat now; LMark reason first] in
  active g' = true ∧ g'.(watchdog).(held) = Some reason.
Proof.
  intros Hd Hh Ha Hn Ht Hc. cbn [run foldl step]. unfold beat. cbn -[bump can_send lifecycle_event].
  rewrite Hd, Hh, Ha, (proj2 (Z.leb_gt _ _) Hn). cbn -[bump can_send lifecycle_event].
  unfold mark_held, queue_transition, enqueue. cbn -[bump can_send lifecycle_event].
  destruct first; [|unfold active; cbn; by rewrite Ht].
  match goal with |- context [can_send ?t] => change (can_send t) with (can_send g) end.
  rewrite Hc. unfold active. cbn. by rewrite Ht.
Qed.

(** C37: The budgets hold.  Whatever is interleaved, policy changes included, the bytes let
    through in one direction add up to at most the largest ceiling for it that was in force,
    beyond what was already counted (a refused amount is counted too); and the requests, or
    the DNS questions, let through in one minute's window add up to at most the largest rate
    that was in force, beyond what the window had counted. *)
Theorem budgets_never_exceeded (g : Gateway) (outgoing for_dns : bool) (ceiling : Z) (ls : list Label) :
  (Forall (λ l, match l with LDebit _ amount _ _ => 0 ≤ amount | _ => True end) ls →
   (∀ before after, ls = before ++ after → byte_cap outgoing (run g before) ≤ ceiling) →
   total (bytes_admitted outgoing) g ls ≤ Z.max 0 (ceiling - used outgoing g.(budget)))
  ∧ (Forall (λ l, match l with LRate now _ => now < g.(budget).(minute) + seconds 60 | _ => True end) ls →
     (∀ before after, ls = before ++ after → rate_cap for_dns (run g before) ≤ ceiling) →
     total (requests_admitted for_dns) g ls ≤ Z.max 0 (ceiling - counted for_dns g.(budget))).
Proof.
  split; intros Hl Hc.
  - eapply (total_le _ (λ g, Z.max 0 (ceiling - used outgoing g.(budget)))
      (λ g l, match l with LDebit _ amount _ _ => 0 ≤ amount | _ => True end ∧ byte_cap outgoing g ≤ ceiling)); [lia| |].
    + intros h l [Hd Hb]. by apply step_bytes.
    + intros before l after ->. split; [|by eapply Hc]. by apply Forall_app in Hl as [_ [Hl _]%Forall_cons].
  - eapply (total_le _ (λ g, Z.max 0 (ceiling - counted for_dns g.(budget)))
      (λ h l, h.(budget).(minute) = g.(budget).(minute) ∧ in_window g.(budget).(minute) l ∧ rate_cap for_dns h ≤ ceiling)); [lia| |].
    + intros h l (Hm & Hw & Hb). by eapply step_requests.
    + intros before l after ->. apply Forall_app in Hl as [Hl1 [Hl2 _]%Forall_cons]. split_and!; [by apply run_minute|done|by eapply Hc].
Qed.

(** ** Examples *)
Module SampleGateway.
Import Boundary.SampleNet.

Definition id : GuardIdentity := {| gi_sandbox_id := 1%N; gi_tenant_id := 2%N; gi_policy_hash := "h" |}.

(** A gateway as it starts, with a ten second watchdog. *)
Definition started : Gateway := {|
  identity := id; fence := {| lease_id := 3%N; generation := 1 |};
  policy_cell := {| active_compiled := sample_compiled; active_l7 := None |};
  watchdog_timeout := seconds 10; cut_flag := true; terminal_failure := false; stop := 0;
  budget := {| minute := 0; requests := 0; dns_used := 0; out := 0; incoming := 0 |};
  watchdog := {| deadline := seconds 10; activated := false; held := None; pending := false; deadman := false |};
  audit := {| queue := []; running := true; releasing := None;
              journal := [ {| i_sandbox_id := 1%N; i_tenant_id := 2%N; i_policy_hash := "h";
                              i_category := Lifecycle; i_decision := Allow; i_reason := "gateway started";
                              i_destination := None; i_request_bytes := 0; i_response_bytes := 0;
                              i_duration_ms := 0 |} ] |};
  loop := {| seen_deadline := seconds 10; delivered := None; audited := None; cut_reason := None;
             returned := false |} |}.

Lemma started_ok :
  start_with_l7 1%N 2%N {| lease_id := 3%N; generation := 1 |} sample_compiled None ∅ (seconds 10)
    (Ok ()) true 0 = Ok started.
Proof. vm_compute. reflexivity. Qed.

(** Reported, cut by an operator, delivered and recorded, and reopened by a heartbeat. *)
Definition reclaimed : Gateway :=
  run started [LBeat (seconds 1); LTake true; LCut; LTake true; LDeliver (Some true); LTake true;
               LBeat (seconds 2)].

Lemma started_unauthorized : unauthorized started.
Proof. split; [constructor|done]. Qed.

Lemma containment_needs_authorized_release_witness :
  active (run (hold_cut "quarantined" started).1 [LBeat (seconds 1); LRelease false; LTake true;
    LTake true; LFinish (seconds 2) false true]) = false.
Proof.
  eapply (containment_needs_authorized_release started).
  - apply started_unauthorized.
  - right. by exists "quarantined"%string.
  - rewrite !not_elem_of_cons. split_and!; try done. apply not_elem_of_nil.
Defined.

Lemma silence_contains_witness :
  active (run (watch_deadline (seconds 10) (step started (LBeat 0))) [LBeat (seconds 11)]) = false.
Proof.
  apply silence_contains; [split; [by repeat constructor|done]|done|done|done|done|].
  intros Hin%list_elem_of_singleton. done.
Defined.

Lemma network_opens_only_by_witness :
  let g := run started [] in
  opens g (LBeat (seconds 1)) ∧ (∀ n cl rf, LBeat (seconds 1) = LFinish n cl rf →
    ∃ e, e ∈ g.(audit).(journal) ∧ is_release e).
Proof. apply (network_opens_only_by _ _ _ _ _ _ _ _ _ _ _ [] _ started_ok); vm_compute; reflexivity. Defined.

Lemma terminal_fault_is_final_witness :
  active (run (step started (LRecord false (lifecycle_event started Allow "x"))) [LBeat (seconds 1)]) = false.
Proof. apply terminal_fault_is_final. left. vm_compute. reflexivity. Defined.

Lemma first_cut_fences_earlier_releases_witness :
  is_ok (apply_release (seconds 3) false 0 true (run (latch_cut false started).1 [LBeat (seconds 1)])).2 = false.
Proof. apply (first_cut_fences_earlier_releases started); [done|]. vm_compute. by split. Defined.

Lemma second_cut_not_fenced_witness :
  active (step reclaimed LCut) = false
  ∧ active (run reclaimed [LRelease false; LCut; LTake true; LFinish (seconds 3) false true]) = true.
Proof.
  destruct (second_cut_not_fenced reclaimed (seconds 3)) as (? & _ & _ & _ & ?); try (vm_compute; reflexivity).
  - by vm_compute.
  - split; assumption.
Defined.

Lemma authorized_release_opens_at_once_witness :
  active (step (run (hold_cut "quarantined" started).1 [LTake true; LRelease true; LTake true])
    (LFinish (seconds 99) false true)) = true.
Proof. apply authorized_release_opens_at_once; by vm_compute. Defined.

Lemma hold_interrupted_stays_open_witness :
  let g' := run reclaimed [LLatch; LBeat (seconds 3); LMark "quarantined" true] in
  active g' = true ∧ g'.(watchdog).(held) = Some "quarantined"%string.
Proof. apply hold_interrupted_stays_open; by vm_compute. Defined.

(** A policy with a smaller budget is installed between two uploads. *)
Definition smaller : CompiledPolicy := {|
  cp_policy := let p := sample_compiled.(cp_policy) in
    {| version := p.(version); network := p.(network); model := p.(model); credentials := p.(credentials);
       limits := let l := p.(limits) in
         {| requests_per_minute := l.(requests_per_minute); dns_queries_per_minute := l.(dns_queries_per_minute);
            bytes_out := 500; bytes_in := l.(bytes_in); max_request_bytes := 500; max_response_bytes := l.(max_response_bytes);
            max_concurrent_requests := l.(max_concurrent_requests) |} |};
  policy_hash := "smaller"; boundary := sample_compiled.(boundary) |}.
Definition uploads : list Label :=
  [LDebit true 1000 false (Ok ()); LInstall {| active_compiled := smaller; active_l7 := None |}; LDebit true 1000 false (Ok ())].

Lemma budgets_never_exceeded_witness :
  total (bytes_admitted true) reclaimed uploads = 1000
  ∧ total (bytes_admitted true) reclaimed uploads ≤ Z.max 0 (byte_cap true reclaimed - used true reclaimed.(budget)).
Proof.
  split; [vm_compute; reflexivity|].
  refine (proj1 (budgets_never_exceeded reclaimed true true (byte_cap true reclaimed) uploads) _ _).
  - unfold uploads. rewrite !Forall_cons. split_and!; [lia|exact I|lia|constructor].
  - assert (Hall : forallb (λ n, byte_cap true (run reclaimed (take n uploads)) <=? byte_cap true reclaimed) (seq 0 4) = true)
      by (vm_compute; reflexivity).
    intros before after Hls. rewrite List.forallb_forall in Hall. apply Z.leb_le.
    replace before with (take (length before) uploads) by (rewrite Hls; apply take_app_length).
    apply Hall, in_seq. assert (Hn : (length uploads = length before + length after)%nat) by (rewrite Hls; apply length_app).
    change (length uploads) with 3%nat in Hn. lia.
Defined.

End SampleGateway.
