(* ===== verification/Canaries.v ===== *)
(** * Canaries: tripwires and what happens when one is touched

    [crates/aiec-guard/src/canaries.rs], with the enforcer that an attachment supplies in
    [crates/aiec-network-linux/src/guard.rs]: the validated set of canary files,
    hostnames and credentials, the three questions asked of it, the scrubbing of canary
    values out of text, and the sequence a firing runs: hold the gateway cut, cut the
    kernel's link, record, and ask for quarantine. *)

From Stdlib Require Import Ascii.
From stdpp Require Import pretty.
From S2P Require Import Prelude Policy Events Boundary L7 Text Store Proposals Gateway.

Definition CANARY_VALUE_PREFIX : string := "aiec-canary:".
Definition CANARY_HOST_SUFFIXES : list string := ["invalid"; "test"; "example"; "localhost"]%string.
Definition MAX_CANARY_FILES : Z := 32.
Definition MAX_CANARY_HOSTNAMES : Z := 64.
Definition MAX_CANARY_CREDENTIALS : Z := 32.
Definition MAX_CANARY_VALUE_BYTES : Z := 256.
Definition MAX_CANARY_PATH_BYTES : Z := 512.
Definition RULE_CANARY_FILE : string := "canary.file-read".
Definition RULE_CANARY_HOSTNAME : string := "canary.hostname-resolved".
Definition RULE_CANARY_CREDENTIAL : string := "canary.credential-presented".

Inductive CanaryKind := File | Hostname | CredentialKind.
Inductive CanarySeverity := High | Critical.
Inductive CanaryResponse := RespondCut | RespondQuarantine.

Definition CanaryKind_as_str (k : CanaryKind) : string :=
  match k with File => "file" | Hostname => "hostname" | CredentialKind => "credential" end.

Record CanaryTrip := {
  t_kind : CanaryKind; reference : string; severity : CanarySeverity; response : CanaryResponse;
  t_rule : string; t_reason : string }.

Definition trip_category (t : CanaryTrip) : Category :=
  match t.(t_kind) with Hostname => Dns | File | CredentialKind => Credential end.
Definition trip_decision (t : CanaryTrip) : Decision :=
  match t.(response) with RespondCut => Cut | RespondQuarantine => Quarantine end.

(** [format!("{kind}#{index}")]. *)
Definition trip (k : CanaryKind) (index : nat) (s : CanarySeverity) (r : CanaryResponse) (rule reason : string)
    : CanaryTrip := {|
  t_kind := k; reference := CanaryKind_as_str k +:+ "#" +:+ pretty (N.of_nat index); severity := s;
  response := r; t_rule := rule; t_reason := reason |}.

Record CanarySet := { files : list CanarySpec; canary_hosts : list string; credential_names : list string }.

(** ** Validation *)
Definition slash : ascii := "/"%char.

Definition printable_ascii (b : ascii) : bool :=
  is_ascii_byte b && negb ((byte_of b <? 32) || (byte_of b =? 127)).

Definition validate_canary_path (path : string) : result GuardError.t () :=
  bail_if is_empty path || (MAX_CANARY_PATH_BYTES <? slen path) with GuardError.Policy;
  bail_if negb (bool_decide (head (chars path) = Some slash)) with GuardError.Policy;
  bail_if negb (all_bytes printable_ascii path) with GuardError.Policy;
  bail_if existsb (λ s, bool_decide (s = chars "..")) (split_on slash (chars path)) with GuardError.Policy;
  Ok ().

Definition validate_canary_value (value : string) : result GuardError.t () :=
  bail_if MAX_CANARY_VALUE_BYTES <? slen value with GuardError.Policy;
  bail_if negb (starts_with (chars CANARY_VALUE_PREFIX) (chars value)) with GuardError.Policy;
  bail_if negb (all_bytes printable_ascii value) with GuardError.Policy;
  Ok ().

Definition validate_canary_hostname (name : string) : result GuardError.t () :=
  let? _ := validate_dns_name name 2 in
  bail_if negb (match last (split_on dot (chars name)) with
                | Some tld => bool_decide (string_of tld ∈ CANARY_HOST_SUFFIXES)
                | None => false
                end) with GuardError.Policy;
  Ok ().

Definition validate_canary_credential (name : string) : result GuardError.t () :=
  bail_if is_empty name || (128 <? slen name) with GuardError.Policy;
  bail_if negb (all_bytes (λ b, is_ascii_alphanumeric b || is_one_of "-_.:" b) name) with GuardError.Policy;
  Ok ().

(** A list taken over entry by entry: each is validated, then compared with those
    before it. *)
Fixpoint adopt {A} (check : A → result GuardError.t ()) (same : A → A → bool) (seen l : list A)
    : result GuardError.t (list A) :=
  match l with
  | [] => Ok seen
  | x :: l =>
      let? _ := check x in
      bail_if existsb (λ y, same y x) seen with GuardError.Policy;
      adopt check same (seen ++ [x]) l
  end.

Definition validate_file (f : CanarySpec) : result GuardError.t () :=
  let? _ := validate_canary_path f.(cs_path) in
  validate_canary_value f.(cs_value).

Definition from_config (c : CanaryConfig) : result GuardError.t CanarySet :=
  bail_if MAX_CANARY_FILES <? count c.(canary_files) with GuardError.Policy;
  bail_if MAX_CANARY_HOSTNAMES <? count c.(hostnames) with GuardError.Policy;
  bail_if MAX_CANARY_CREDENTIALS <? count c.(canary_credentials) with GuardError.Policy;
  let? fs := adopt validate_file (λ a b, bool_decide (a.(cs_path) = b.(cs_path))) [] c.(canary_files) in
  let? hs := adopt validate_canary_hostname
               (λ a b, eq_ignore_ascii_case (chars a) (chars b)) [] c.(hostnames) in
  let? cs := adopt validate_canary_credential (λ a b, bool_decide (a = b)) [] c.(canary_credentials) in
  Ok {| files := fs; canary_hosts := (λ n, string_of (to_ascii_lowercase <$> chars n)) <$> hs;
        credential_names := cs |}.

Definition is_enabled (s : CanarySet) : bool :=
  negb (bool_decide (s.(files) = [])) || negb (bool_decide (s.(canary_hosts) = []))
  || negb (bool_decide (s.(credential_names) = [])).

(** ** The three questions *)

(** [str::trim_end_matches] with a character. *)
Fixpoint trim_start_char (c : ascii) (s : list ascii) : list ascii :=
  match s with
  | b :: rest => if decide (b = c) then trim_start_char c rest else s
  | [] => []
  end.
Definition trim_end_char (c : ascii) (s : list ascii) : list ascii :=
  reverse (trim_start_char c (reverse s)).

Definition strip_suffix (suffix s : list ascii) : option (list ascii) :=
  if bool_decide (drop (length s - length suffix) s = suffix)
  then Some (take (length s - length suffix) s) else None.

(** The first entry a predicate holds of. *)
Fixpoint find_at {A} (p : A → bool) (i : nat) (l : list A) : option nat :=
  match l with
  | [] => None
  | x :: l => if p x then Some i else find_at p (S i) l
  end.

(** [path] is [dir] or lies below it. *)
Definition at_or_below (dir path : list ascii) : bool :=
  bool_decide (path = dir)
  || match strip_prefix dir path with
     | Some rest => bool_decide (head rest = Some slash)
     | None => false
     end.

Definition directory_of (path : list ascii) : list ascii :=
  match rsplit_once slash path with
  | Some (parent, _) => if bool_decide (parent = []) then [slash] else parent
  | None => [slash]
  end.

Definition exposes (path : list ascii) (f : CanarySpec) : bool :=
  at_or_below (chars f.(cs_path)) path || at_or_below (directory_of (chars f.(cs_path))) path.

Definition file_trip (i : nat) : CanaryTrip :=
  trip File i High RespondCut RULE_CANARY_FILE "canary file read, severity high, network cut".

Definition file_read (s : CanarySet) (path : string) : option CanaryTrip :=
  let path := trim_end_char slash (chars path) in
  if bool_decide (path = []) || bool_decide (path = [slash]) then None
  else file_trip <$> find_at (exposes path) 0 s.(files).

Definition is_canary_host (query : list ascii) (canary : string) : bool :=
  bool_decide (query = chars canary)
  || match strip_suffix (chars canary) query with
     | Some prefix => bool_decide (last prefix = Some dot)
     | None => false
     end.

Definition host_trip (i : nat) : CanaryTrip :=
  trip Hostname i High RespondCut RULE_CANARY_HOSTNAME
    "canary hostname resolution, severity high, network cut".

Definition hostname_resolved (s : CanarySet) (name : string) : option CanaryTrip :=
  let query := to_ascii_lowercase <$> trim_end_char dot (chars name) in
  host_trip <$> find_at (is_canary_host query) 0 s.(canary_hosts).

Definition constant_time_eq (l r : list ascii) : bool :=
  if negb (count l =? count r) then false else difference l r =? 0.

Definition credential_trip (i : nat) : CanaryTrip :=
  trip CredentialKind i Critical RespondQuarantine RULE_CANARY_CREDENTIAL
    "canary credential presented, severity critical, immediate quarantine".

Definition credential_presented (s : CanarySet) (presented : string) : option CanaryTrip :=
  credential_trip <$> find_at (λ n, constant_time_eq (chars n) (chars presented)) 0 s.(credential_names).

(** ** Scrubbing *)
Definition MARKER : list ascii := chars "[canary]".

(** [str::replace]: occurrences from the left that do not overlap; [fuel] is the text's
    length. *)
Fixpoint replace (fuel : nat) (value text : list ascii) : list ascii :=
  match fuel with
  | O => text
  | S fuel =>
      if starts_with value text && negb (bool_decide (value = []))
      then MARKER ++ replace fuel value (drop (length value) text)
      else match text with
           | [] => []
           | b :: text => b :: replace fuel value text
           end
  end.

(** Longest first; [sort_by_key] keeps the order of equal lengths. *)
Definition longer_first (a b : string) : bool := slen b <=? slen a.

Definition redact (s : CanarySet) (text : string) : string :=
  string_of (foldl (λ out v, if L7.contains (chars v) out then replace (length out) (chars v) out else out)
    (chars text) (sort_by longer_first (cs_value <$> s.(files)))).

(** ** Firing *)
Record QuarantineRequest := { qr_fence : GuardFence; qr_policy_hash : string; qr_rules : list RuleTrigger }.

Record CanaryMonitor := { cm_set : CanarySet; cm_identity : GuardIdentity; cm_fence : GuardFence }.

Definition CanaryMonitor_new (c : CanaryConfig) (i : GuardIdentity) (f : GuardFence)
    : result GuardError.t (option CanaryMonitor) :=
  let? s := from_config c in
  Ok (if is_enabled s then Some {| cm_set := s; cm_identity := i; cm_fence := f |} else None).

Definition event_input (m : CanaryMonitor) (t : CanaryTrip) : EventInput := {|
  i_sandbox_id := m.(cm_identity).(gi_sandbox_id); i_tenant_id := m.(cm_identity).(gi_tenant_id);
  i_policy_hash := m.(cm_identity).(gi_policy_hash); i_category := trip_category t;
  i_decision := trip_decision t; i_reason := t.(t_reason); i_destination := Some t.(reference);
  i_request_bytes := 0; i_response_bytes := 0; i_duration_ms := 0 |}.

Record CanaryOutcome := {
  o_trip : option CanaryTrip; o_event : option EventInput; o_cut : bool; o_quarantined : bool }.

(** What the other parties answer to a firing: the kernel's cut, the journal, which gives
    the record's hash, and the control plane. *)
Record Answers := {
  kernel : result GuardError.t (); appended : result GuardError.t string;
  quarantine_taken : result GuardError.t () }.

(** The requests for quarantine that reached the control plane. *)
Record Attachment := { att_gateway : Gateway; att_requests : list QuarantineRequest }.

Definition observe (m : CanaryMonitor) (a : Answers) (t : option CanaryTrip) (s : Attachment)
    : Attachment * result GuardError.t CanaryOutcome :=
  match t with
  | None => (s, Ok {| o_trip := None; o_event := None; o_cut := false; o_quarantined := false |})
  | Some t =>
      let input := event_input m t in
      let '(g, held) := hold_cut "canary fired" s.(att_gateway) in
      let s := {| att_gateway := g; att_requests := s.(att_requests) |} in
      match held, a.(kernel), a.(appended) with
      | Err e, _, _ | _, Err e, _ | _, _, Err e => (s, Err e)
      | Ok _, Ok _, Ok current_hash =>
          let au := g.(audit) in
          let g := with_audit g {| queue := au.(queue); running := au.(running); releasing := au.(releasing);
                                   journal := au.(journal) ++ [input] |} in
          let out q := {| o_trip := Some t; o_event := Some input; o_cut := true; o_quarantined := q |} in
          match t.(response) with
          | RespondCut => ({| att_gateway := g; att_requests := s.(att_requests) |}, Ok (out false))
          | RespondQuarantine =>
              let request := {|
                qr_fence := m.(cm_fence); qr_policy_hash := m.(cm_identity).(gi_policy_hash);
                qr_rules := [ {| rt_rule := t.(t_rule); first_event_sequence := None;
                                 evidence_references := [t.(reference); current_hash] |} ] |} in
              match a.(quarantine_taken) with
              | Ok _ => ({| att_gateway := g; att_requests := s.(att_requests) ++ [request] |}, Ok (out true))
              | Err e => ({| att_gateway := g; att_requests := s.(att_requests) |}, Err e)
              end
          end
      end
  end.

Definition observe_file_read (m : CanaryMonitor) (a : Answers) (path : string) :=
  observe m a (file_read m.(cm_set) path).
Definition observe_dns_query (m : CanaryMonitor) (a : Answers) (name : string) :=
  observe m a (hostname_resolved m.(cm_set) name).
Definition observe_credential (m : CanaryMonitor) (a : Answers) (presented : string) :=
  observe m a (credential_presented m.(cm_set) presented).

(** ** Lemmas: text *)
Lemma strip_prefix_iff (p s rest : list ascii) : strip_prefix p s = Some rest ↔ s = p ++ rest.
Proof.
  unfold strip_prefix. destruct (starts_with p s) eqn:Hs.
  - apply starts_with_spec in Hs as [r ->]. rewrite drop_app_length. split; [by intros [= ->]|].
    by intros ->%app_inv_head.
  - split; [done|]. intros ->. assert (starts_with p (p ++ rest) = true) by (apply starts_with_spec; eauto).
    congruence.
Qed.

Lemma strip_suffix_iff (p s rest : list ascii) : strip_suffix p s = Some rest ↔ s = rest ++ p.
Proof.
  unfold strip_suffix. case_bool_decide as Hd; split.
  - intros [= <-]. rewrite <-(take_drop (length s - length p) s) at 1. by rewrite Hd.
  - intros ->. f_equal. rewrite length_app.
    replace (length rest + length p - length p)%nat with (length rest) by lia. apply take_app_length.
  - done.
  - intros ->. destruct Hd. rewrite length_app.
    replace (length rest + length p - length p)%nat with (length rest) by lia. apply drop_app_length.
Qed.

Lemma at_or_below_iff dir path :
  at_or_below dir path = true ↔ path = dir ∨ ∃ rest, path = dir ++ slash :: rest.
Proof.
  unfold at_or_below. rewrite orb_true_iff, bool_decide_eq_true. apply or_iff_compat_l.
  destruct (strip_prefix dir path) as [r|] eqn:Hs.
  - apply strip_prefix_iff in Hs as ->. rewrite bool_decide_eq_true. split.
    + destruct r as [|c r]; [done|]. intros [= ->]. by exists r.
    + by intros [rest ->%app_inv_head].
  - split; [done|]. intros [rest Hr%strip_prefix_iff]. congruence.
Qed.

Lemma is_canary_host_iff query canary :
  is_canary_host query canary = true ↔ query = chars canary ∨ ∃ pre, query = pre ++ dot :: chars canary.
Proof.
  unfold is_canary_host. rewrite orb_true_iff, bool_decide_eq_true. apply or_iff_compat_l.
  destruct (strip_suffix (chars canary) query) as [r|] eqn:Hs.
  - apply strip_suffix_iff in Hs as ->. rewrite bool_decide_eq_true, last_Some. split.
    + intros [l ->]. exists l. by rewrite <-app_assoc.
    + intros [pre Hp]. exists pre. rewrite cons_middle, app_assoc in Hp. by apply app_inv_tail in Hp.
  - split; [done|]. intros [pre Hp]. rewrite cons_middle, app_assoc in Hp. apply strip_suffix_iff in Hp. congruence.
Qed.

Lemma constant_time_eq_iff l r : constant_time_eq l r = true ↔ l = r.
Proof.
  unfold constant_time_eq. destruct (Z.eqb_spec (count l) (count r)) as [He|He]; simpl.
  - rewrite Z.eqb_eq. apply difference_zero. unfold count in He. lia.
  - split; [done|]. by intros ->.
Qed.

Lemma find_at_iff {A} (p : A → bool) (l : list A) i k :
  find_at p k l = Some i ↔
  ∃ j x, i = (k + j)%nat ∧ l !! j = Some x ∧ p x = true ∧ ∀ j' y, (j' < j)%nat → l !! j' = Some y → p y = false.
Proof.
  revert k. induction l as [|a l IH]; intros k; simpl; [naive_solver|].
  destruct (p a) eqn:Ha.
  - split.
    + intros [= <-]. exists O, a. split_and!; [lia|done|done|lia].
    + intros (j & x & -> & Hj & Hp & Hmin). destruct j as [|j]; [f_equal; lia|].
      assert (p a = false) by (apply (Hmin O a); [lia|done]). congruence.
  - rewrite IH. split.
    + intros (j & x & -> & Hj & Hp & Hmin). exists (S j), x. split_and!; [lia|done|done|].
      intros [|j'] y Hlt Hy; [by injection Hy as <-|]. apply (Hmin j'); [lia|done].
    + intros (j & x & -> & Hj & Hp & Hmin). destruct j as [|j]; [injection Hj as ->; congruence|].
      exists j, x. split_and!; [lia|done|done|]. intros j' y Hlt Hy. apply (Hmin (S j') y); [lia|done].
Qed.

Lemma find_at_ext {A B} (p : A → bool) (q : B → bool) k l m :
  Forall2 (λ a b, p a = q b) l m → find_at p k l = find_at q k m.
Proof. intros Hf. revert k. induction Hf as [|a b l m Hab _ IH]; intros k; simpl; [done|]. by rewrite Hab, IH. Qed.

(** ** Lemmas: scrubbing *)

(** A value the marker cannot be part of. *)
Definition scrubbable (v : list ascii) : Prop :=
  (6 < length v)%nat ∧ ("["%char ∉ v) ∧ ("]"%char ∉ v).

Lemma starts_with_cons (a b : ascii) p s : starts_with (a :: p) (b :: s) = bool_decide (a = b) && starts_with p s.
Proof.
  apply eq_true_iff_eq. rewrite andb_true_iff, bool_decide_eq_true, !starts_with_spec. naive_solver.
Qed.

Lemma starts_with_nil_r p : starts_with p [] = bool_decide (p = []).
Proof. unfold starts_with. rewrite take_nil. apply bool_decide_ext. naive_solver. Qed.

(** An unreplaced beginning of the output is a beginning of the text. *)
Lemma starts_with_replace w v fuel text :
  (length text ≤ fuel)%nat → ("["%char ∉ w) →
  starts_with w (replace fuel v text) = true → starts_with w text = true.
Proof.
  revert w text. induction fuel as [|fuel IH]; intros w text Hf Hw Hs; [done|]. cbn [replace] in Hs.
  destruct w as [|a w]; [by apply starts_with_spec; exists text|].
  apply not_elem_of_cons in Hw as [Ha Hw]. destruct (_ && _).
  - change (MARKER ++ ?x) with ("["%char :: chars "canary]" ++ x) in Hs. rewrite starts_with_cons in Hs.
    apply andb_true_iff in Hs as [Hs%bool_decide_eq_true _]. congruence.
  - destruct text as [|b text]; [done|]. rewrite starts_with_cons in *. apply andb_true_iff in Hs as [-> Hs].
    apply IH in Hs; [by rewrite Hs|simpl in Hf; lia|done].
Qed.

Lemma starts_with_over (w m s : list ascii) :
  starts_with w (m ++ s) = true → (length m ≤ length w)%nat → ∀ c, c ∈ m → c ∈ w.
Proof.
  intros [r Hr]%starts_with_spec Hl c Hc. assert (Hm : take (length m) (m ++ s) = take (length m) (w ++ r)) by congruence.
  rewrite take_app_length, take_app_le in Hm by done. rewrite Hm in Hc.
  apply elem_of_take in Hc as (i & Hi & _). by eapply list_elem_of_lookup_2.
Qed.

(** A bracketed end of the marker cannot begin an occurrence. *)
Lemma contains_closing w m s :
  last m = Some "]"%char → (length m ≤ 7)%nat → scrubbable w →
  L7.contains w (m ++ s) = true → L7.contains w s = true.
Proof.
  intros Hlast Hm Hw. destruct Hw as (Hl & _ & Hc). revert Hlast Hm. induction m as [|c m IH]; [done|].
  intros Hlast Hm Hco. cbn [app L7.contains] in Hco. apply orb_true_iff in Hco as [Hs|Hco].
  - destruct Hc. apply (starts_with_over w (c :: m) s); [done|simpl in *; lia|].
    apply last_Some in Hlast as [l ->]. apply elem_of_app. right. left.
  - destruct m as [|d m]; [done|]. apply IH; [done|simpl in *; lia|done].
Qed.

Lemma contains_marker w s : scrubbable w → L7.contains w (MARKER ++ s) = true → L7.contains w s = true.
Proof.
  intros Hw Hc. change (MARKER ++ s) with ("["%char :: (chars "canary]" ++ s)) in Hc.
  cbn [L7.contains] in Hc. apply orb_true_iff in Hc as [Hs|Hc].
  - destruct Hw as (Hl & Ho & _). destruct w as [|a w]; [simpl in Hl; lia|].
    rewrite starts_with_cons in Hs. apply andb_true_iff in Hs as [->%bool_decide_eq_true _]. destruct Ho. left.
  - by apply contains_closing in Hc.
Qed.

Lemma contains_tail w b s : L7.contains w s = true → L7.contains w (b :: s) = true.
Proof. intros Hc. cbn [L7.contains]. rewrite Hc. apply orb_true_r. Qed.

Lemma contains_drop w n s : L7.contains w (drop n s) = true → L7.contains w s = true.
Proof.
  revert s. induction n as [|n IH]; intros s; [by rewrite drop_0|]. destruct s as [|b s]; [done|].
  intros Hc. by apply contains_tail, IH.
Qed.

Lemma contains_replace w v fuel text :
  (length text ≤ fuel)%nat → scrubbable w →
  L7.contains w (replace fuel v text) = true → L7.contains w text = true.
Proof.
  intros Hf Hw. revert text Hf. induction fuel as [|fuel IH]; intros text Hf Hc; [done|]. cbn [replace] in Hc.
  destruct (starts_with v text && negb (bool_decide (v = []))) eqn:Hv.
  - apply contains_marker, IH, contains_drop in Hc; [done| |done].
    apply andb_true_iff in Hv as [_ Hne]. apply negb_true_iff, bool_decide_eq_false in Hne.
    rewrite length_drop. destruct v; [done|]. destruct text; simpl in *; lia.
  - destruct text as [|b text]; [done|]. assert (Hs := starts_with_replace w v (S fuel) (b :: text) Hf (proj1 (proj2 Hw))).
    cbn [replace] in Hs. rewrite Hv in Hs. cbn [L7.contains] in Hc |- *.
    apply orb_true_iff in Hc as [Hc|Hc]; [by rewrite (Hs Hc)|].
    apply IH in Hc; [by rewrite Hc, orb_true_r|simpl in Hf; lia].
Qed.

Lemma contains_replace_same v fuel text :
  (length text ≤ fuel)%nat → scrubbable v → L7.contains v (replace fuel v text) = false.
Proof.
  intros Hf Hw. assert (Hne : v ≠ []) by (destruct Hw as [? _]; by intros ->; simpl in *; lia).
  revert text Hf. induction fuel as [|fuel IH]; intros text Hf.
  - destruct text; [|simpl in Hf; lia]. simpl. rewrite orb_false_r, starts_with_nil_r. by apply bool_decide_eq_false.
  - apply not_true_iff_false. intros Hc. cbn [replace] in Hc.
    destruct (starts_with v text && negb (bool_decide (v = []))) eqn:Hv.
    + apply contains_marker in Hc; [|done]. rewrite IH in Hc; [done|]. rewrite length_drop.
      destruct v; [done|]. destruct text; simpl in *; lia.
    + rewrite (bool_decide_false (v = [])), andb_true_r in Hv by done.
      destruct text as [|b text]; [simpl in Hc; rewrite orb_false_r, starts_with_nil_r in Hc; by apply bool_decide_eq_true in Hc|].
      cbn [L7.contains] in Hc. apply orb_true_iff in Hc as [Hc|Hc]; [|rewrite IH in Hc; [done|simpl in Hf; lia]].
      assert (Hs := starts_with_replace v v (S fuel) (b :: text) Hf (proj1 (proj2 Hw))).
      cbn [replace] in Hs. rewrite Hv in Hs. cbn [andb] in Hs. specialize (Hs Hc). congruence.
Qed.

Lemma redact_list_free (vs : list string) (out : list ascii) w :
  Forall (λ v, scrubbable (chars v)) vs → scrubbable (chars w) →
  (w ∈ vs ∨ L7.contains (chars w) out = false) →
  L7.contains (chars w) (foldl (λ out v, if L7.contains (chars v) out
    then replace (length out) (chars v) out else out) out vs) = false.
Proof.
  revert out. induction vs as [|v vs IH]; intros out Hvs Hw Hin; simpl.
  { destruct Hin as [?%elem_of_nil|]; done. }
  apply Forall_cons in Hvs as [Hv Hvs]. apply IH; [done|done|].
  destruct Hin as [[->|Hin]%elem_of_cons|Hfree]; [right|by left|right].
  - destruct (L7.contains (chars v) out) eqn:Hc; [by apply contains_replace_same|done].
  - destruct (L7.contains (chars v) out); [|done]. apply not_true_iff_false. intros Hc.
    apply contains_replace in Hc; [congruence|done|done].
Qed.

(** ** Lemmas: validation *)
Lemma adopt_ok {A} (check : A → result GuardError.t ()) same (seen l r : list A) :
  adopt check same seen l = Ok r →
  r = seen ++ l ∧ Forall (λ x, check x = Ok ()) l
  ∧ (∀ i j x y, (i < j)%nat → (length seen ≤ j)%nat → r !! i = Some x → r !! j = Some y → same x y = false).
Proof.
  revert seen. induction l as [|a l IH]; intros seen Ha; cbn [adopt] in Ha.
  - injection Ha as <-. rewrite app_nil_r. split_and!; [done|done|].
    intros i j x y _ Hj _ Hy%lookup_lt_Some. lia.
  - ok_inv Ha. destruct (IH _ Ha) as (-> & Hall & Hd). rewrite <-app_assoc in *. simpl in *.
    repeat match goal with u : () |- _ => destruct u end. split_and!; [done|by constructor|].
    intros i j x y Hij Hj Hx Hy. rewrite length_app in Hd. simpl in Hd.
    destruct (decide (j = length seen)) as [->|]; [|eapply (Hd i j); [lia|lia|done|done]].
    rewrite lookup_app_r, Nat.sub_diag in Hy by lia. injection Hy as <-.
    rewrite lookup_app_l in Hx by lia. rewrite existsb_false, Forall_forall in Hif.
    apply Hif. by eapply list_elem_of_lookup_2.
Qed.

Lemma adopt_distinct {A B} (f : A → B) check (same : A → A → bool) l r :
  (∀ x y, f x = f y → same x y = true) → adopt check same [] l = Ok r →
  r = l ∧ Forall (λ x, check x = Ok ()) l ∧ NoDup (f <$> l).
Proof.
  intros Hs (-> & Hall & Hd)%adopt_ok. simpl in *. split_and!; [done..|].
  apply NoDup_alt. intros i j b Hi Hj. rewrite list_lookup_fmap in Hi, Hj.
  apply fmap_Some in Hi as (x & Hx & ->), Hj as (y & Hy & Hxy).
  destruct (Nat.lt_trichotomy i j) as [Hlt|[?|Hlt]]; [|done|].
  - pose proof (Hd i j x y Hlt ltac:(lia) Hx Hy) as Hn. by rewrite Hs in Hn.
  - pose proof (Hd j i y x Hlt ltac:(lia) Hy Hx) as Hn. by rewrite Hs in Hn.
Qed.

(** What validation promises of a set of tripwires. *)
Record synthetic (s : CanarySet) : Prop := {
  syn_values : ∀ f, f ∈ s.(files) → slen f.(cs_value) ≤ MAX_CANARY_VALUE_BYTES
    ∧ ∃ rest, chars f.(cs_value) = chars CANARY_VALUE_PREFIX ++ rest;
  syn_paths : ∀ f, f ∈ s.(files) → (∃ rest, chars f.(cs_path) = slash :: rest)
    ∧ chars ".." ∉ split_on slash (chars f.(cs_path));
  syn_distinct : NoDup (cs_path <$> s.(files));
  syn_hosts : ∀ h, h ∈ s.(canary_hosts) → canonical_name h 2
    ∧ ∃ tld, last (split_on dot (chars h)) = Some tld ∧ string_of tld ∈ CANARY_HOST_SUFFIXES;
  syn_hosts_distinct : NoDup s.(canary_hosts);
  syn_credentials : NoDup s.(credential_names) ∧ ∀ n, n ∈ s.(credential_names) → n ≠ ""%string }.

Lemma lower_canonical name : canonical_name name 2 → string_of (to_ascii_lowercase <$> chars name) = name.
Proof.
  intros [Hl _]%canonical_lower. unfold lower in Hl. rewrite Hl. apply chars_inj, chars_string_of.
Qed.

Lemma from_config_synthetic c s : from_config c = Ok s → synthetic s.
Proof.
  unfold from_config. intros Hc. ok_inv Hc. injection Hc as <-.
  apply (adopt_distinct cs_path) in Hok as (-> & Hf & Hfd); [|by intros x y ->; apply bool_decide_eq_true].
  apply (adopt_distinct chars) in Hok0 as (-> & Hh & Hhd).
  2:{ intros x y Hxy. unfold eq_ignore_ascii_case. rewrite Hxy. by apply bool_decide_true. }
  apply (adopt_distinct id) in Hok1 as (-> & Hcr & Hcd); [|intros x y Hxy; by apply bool_decide_eq_true].
  rewrite list_fmap_id in Hcd. rewrite Forall_forall in Hf. rewrite Forall_forall in Hh. rewrite Forall_forall in Hcr.
  assert (Hhost : ∀ h, h ∈ c.(hostnames) → canonical_name h 2
    ∧ ∃ tld, last (split_on dot (chars h)) = Some tld ∧ string_of tld ∈ CANARY_HOST_SUFFIXES).
  { intros h Hin%Hh. unfold validate_canary_hostname in Hin. ok_inv Hin.
    apply validate_dns_name_iff in Hok. split; [done|].
    destruct (last _) as [tld|]; [|done]. exists tld. split; [done|].
    by apply negb_false_iff, bool_decide_eq_true in Hif2. }
  assert (Hid : (λ n, string_of (to_ascii_lowercase <$> chars n)) <$> c.(hostnames) = c.(hostnames)).
  { rewrite <-(list_fmap_id c.(hostnames)) at 2. apply list_fmap_ext. intros i h Hi%list_elem_of_lookup_2.
    by apply lower_canonical, Hhost. }
  split; simpl; rewrite ?Hid.
  - intros f Hin%Hf. unfold validate_file, validate_canary_value in Hin. ok_inv Hin.
    apply Z.ltb_ge in Hif2. split; [done|]. by apply negb_false_iff, starts_with_spec in Hif3.
  - intros f Hin%Hf. unfold validate_file, validate_canary_path in Hin. ok_inv Hin. ok_inv Hok.
    apply negb_false_iff, bool_decide_eq_true in Hif3. split.
    + destruct (chars (cs_path f)) as [|b l]; [done|]. injection Hif3 as ->. by exists l.
    + intros Hdots. rewrite existsb_false, Forall_forall in Hif5. apply Hif5 in Hdots. by apply bool_decide_eq_false in Hdots.
  - done.
  - done.
  - by apply NoDup_fmap_1 in Hhd.
  - split; [done|]. intros n Hin%Hcr ->. done.
Qed.

(** ** Theorems *)

(** Only synthetic tripwires are accepted: every value of a validated set carries the
    reserved marker and is bounded, every path is absolute and without traversal, every
    hostname is canonical and lies under a reserved top-level domain, so it can be no real
    destination, and no tripwire is configured twice. *)
Theorem canaries_are_synthetic (c : CanaryConfig) (s : CanarySet) : from_config c = Ok s → synthetic s.
Proof. apply from_config_synthetic. Qed.

(** The tripwires fire exactly when they are touched, and the first one configured is
    named: a read of the canary file or anything at or below its directory; a query, case
    folded and without trailing dots, for the canary name or a name below it; a credential
    equal to a canary's. *)
Theorem tripwires_are_exact (s : CanarySet) (text : string) (t : CanaryTrip) :
  (let path := trim_end_char slash (chars text) in
   file_read s text = Some t ↔ (path ≠ []) ∧ (path ≠ [slash]) ∧ ∃ i f, s.(files) !! i = Some f ∧ t = file_trip i
     ∧ (∃ d, d ∈ [chars f.(cs_path); directory_of (chars f.(cs_path))]
          ∧ (path = d ∨ ∃ rest, path = d ++ slash :: rest))
     ∧ ∀ j g, (j < i)%nat → s.(files) !! j = Some g → exposes path g = false)
  ∧ (let query := to_ascii_lowercase <$> trim_end_char dot (chars text) in
     hostname_resolved s text = Some t ↔ ∃ i h, s.(canary_hosts) !! i = Some h ∧ t = host_trip i
       ∧ (query = chars h ∨ ∃ pre, query = pre ++ dot :: chars h)
       ∧ ∀ j g, (j < i)%nat → s.(canary_hosts) !! j = Some g → is_canary_host query g = false)
  ∧ (credential_presented s text = Some t ↔ ∃ i, s.(credential_names) !! i = Some text ∧ t = credential_trip i
       ∧ ∀ j, (j < i)%nat → s.(credential_names) !! j ≠ Some text).
Proof.
  split_and!; cbv zeta.
  - unfold file_read. cbv zeta. set (path := trim_end_char slash (chars text)).
    destruct (decide (path = [])) as [->|H1]; [rewrite bool_decide_true by done; naive_solver|].
    destruct (decide (path = [slash])) as [->|H2]; [rewrite orb_comm, bool_decide_true by done; naive_solver|].
    rewrite !bool_decide_false by done. cbn [orb]. rewrite fmap_Some. setoid_rewrite find_at_iff. split.
    + intros (n & (i & f & -> & Hi & Hx & Hmin) & ->). split_and!; [done..|]. exists i, f. split_and!; [done..| |done].
      unfold exposes in Hx. apply orb_true_iff in Hx. rewrite !at_or_below_iff in Hx.
      destruct Hx as [Hx|Hx]; [exists (chars (cs_path f))|exists (directory_of (chars (cs_path f)))];
        (split; [|done]); [left|right; left].
    + intros (_ & _ & i & f & Hi & -> & (d & Hd & Hx) & Hmin). exists i. split; [|done]. exists i, f.
      split_and!; [done..| |done]. unfold exposes. apply orb_true_iff. rewrite !at_or_below_iff.
      rewrite !elem_of_cons, elem_of_nil in Hd. destruct Hd as [->|[->|[]]]; tauto.
  - unfold hostname_resolved. cbv zeta. rewrite fmap_Some. setoid_rewrite find_at_iff.
    setoid_rewrite is_canary_host_iff. naive_solver.
  - unfold credential_presented. rewrite fmap_Some. setoid_rewrite find_at_iff. split.
    + intros (n & (i & x & -> & Hi & Hx%constant_time_eq_iff%chars_inj & Hmin) & ->). subst x.
      exists i. split_and!; [done..|]. intros j Hj Hs. apply (Hmin j text Hj) in Hs.
      assert (constant_time_eq (chars text) (chars text) = true) by (by apply constant_time_eq_iff). congruence.
    + intros (i & Hi & -> & Hmin). exists i. split; [|done]. exists i, text.
      split_and!; [done|done|by apply constant_time_eq_iff|]. intros j y Hj Hy.
      apply not_true_iff_false. rewrite constant_time_eq_iff. intros ->%chars_inj. by apply (Hmin j).
Qed.

(** C39: No canary value survives scrubbing: in a validated set whose values hold no brackets,
    the redacted text contains none of them, in whatever order they were configured and
    however they overlap.  With brackets it may: see [SampleCanaries.bracketed_value_survives]. *)
Theorem redaction_is_complete (c : CanaryConfig) (s : CanarySet) (text : string) (f : CanarySpec) :
  from_config c = Ok s →
  (∀ g, g ∈ s.(files) → ("["%char ∉ chars g.(cs_value)) ∧ ("]"%char ∉ chars g.(cs_value))) →
  f ∈ s.(files) → L7.contains (chars f.(cs_value)) (chars (redact s text)) = false.
Proof.
  intros Hs%from_config_synthetic Hb Hf.
  assert (Hscrub : ∀ g, g ∈ s.(files) → scrubbable (chars g.(cs_value))).
  { intros g Hg. destruct (Hb g Hg). split; [|done].
    destruct (syn_values s Hs g Hg) as (_ & rest & ->). rewrite length_app. simpl. lia. }
  unfold redact. rewrite chars_string_of. apply redact_list_free; [|by apply Hscrub|].
  - apply Forall_forall. intros v. rewrite sort_by_perm. intros (g & -> & Hg)%list_elem_of_fmap_1. by apply Hscrub.
  - left. rewrite sort_by_perm. by apply list_elem_of_fmap_2.
Qed.

(** A record of a firing says which tripwire fired and nothing about it: two sets of
    canary files at the same paths, whatever their values, give the same firing, so the
    same journal record and the same request for quarantine. *)
Theorem firing_reveals_no_value (s s' : CanarySet) (path : string) (m : CanaryMonitor) (t : CanaryTrip) :
  cs_path <$> s.(files) = cs_path <$> s'.(files) →
  file_read s path = file_read s' path
  ∧ (file_read s path = Some t → ∃ i, event_input m t = event_input m (file_trip i)
       ∧ (i < length s.(files))%nat).
Proof.
  intros Hp. split.
  - unfold file_read. cbv zeta. case_match; [done|]. f_equal. apply find_at_ext.
    apply Forall2_same_length_lookup. split.
    + apply (f_equal length) in Hp. by rewrite !length_fmap in Hp.
    + intros i a b Ha Hb. unfold exposes. apply (f_equal (.!! i)) in Hp.
      rewrite !list_lookup_fmap, Ha, Hb in Hp. simpl in Hp. by injection Hp as ->.
  - unfold file_read. cbv zeta. case_match; [done|]. intros (i & (j & f & -> & Hj%lookup_lt_Some & _)%find_at_iff & ->)%fmap_Some.
    by exists j.
Qed.

(** A firing contains the sandbox before anything else and whatever then fails: after any
    observation that trips, whether or not the kernel, the journal and the control plane
    answered, the gateway lets no traffic through until an authorized release is asked
    for; and a request for quarantine is only made of a firing that is in the journal. *)
Theorem firing_contains_first (m : CanaryMonitor) (a : Answers) (t : CanaryTrip) (s : Attachment) (ls : list Label) :
  unauthorized s.(att_gateway) → LRelease true ∉ ls →
  let '(s', r) := observe m a (Some t) s in
  active (run s'.(att_gateway) ls) = false
  ∧ (∀ o, r = Ok o → event_input m t ∈ s'.(att_gateway).(audit).(journal))
  ∧ (s'.(att_requests) ≠ s.(att_requests) →
     event_input m t ∈ s'.(att_gateway).(audit).(journal) ∧ t.(response) = RespondQuarantine).
Proof.
  intros Hu Hl. unfold observe. cbv zeta.
  destruct (hold_cut_contains "canary fired" s.(att_gateway) Hu) as [Hc Hu'].
  destruct (hold_cut "canary fired" (att_gateway s)) as [g held]. cbn [fst] in Hc, Hu'.
  assert (Hg : active (run g ls) = false) by (by apply contained_inactive, run_contained).
  assert (Hj : ∀ j, active (run (with_audit g {| queue := queue (audit g); running := running (audit g);
    releasing := releasing (audit g); journal := j |}) ls) = false)
    by (intros j; apply contained_inactive, run_contained; done).
  assert (Hin : event_input m t ∈ journal (audit g) ++ [event_input m t])
    by (apply elem_of_app; right; left).
  destruct held, (kernel a), (appended a); try by split_and!.
  destruct (response t); [|destruct (quarantine_taken a)]; cbn [att_gateway att_requests];
    (split_and!; [apply Hj|intros; exact Hin|by intros; split; [exact Hin|]]).
Qed.

(** ** Examples *)
Module SampleCanaries.

Definition config : CanaryConfig := {|
  canary_files := [ {| cs_path := "/root/.ssh/id_rsa"; cs_value := "aiec-canary:key" |};
                    {| cs_path := "/home/agent/.aws/credentials"; cs_value := "aiec-canary:key-2" |} ];
  hostnames := ["exfil.canary.invalid"%string]; canary_credentials := ["admin-token"%string] |}.

Definition set : CanarySet := {|
  files := config.(canary_files); canary_hosts := config.(hostnames);
  credential_names := config.(canary_credentials) |}.

Lemma config_accepted : from_config config = Ok set.
Proof. vm_compute. reflexivity. Qed.

(** The marker that replaces one value can complete another that holds it. *)
Definition bracketed : CanaryConfig := {|
  canary_files := [ {| cs_path := "/a"; cs_value := "aiec-canary:x[canary]y" |}; {| cs_path := "/b"; cs_value := "aiec-canary:zz" |} ];
  hostnames := []; canary_credentials := [] |}.

Lemma bracketed_value_survives : ∃ s, from_config bracketed = Ok s
  ∧ redact s "aiec-canary:xaiec-canary:zzy" = "aiec-canary:x[canary]y"%string.
Proof. eexists. split; vm_compute; reflexivity. Qed.

(** A name below the canary trips it, one that merely begins with it does not. *)
Lemma names_below :
  hostname_resolved set "metrics.EXFIL.canary.invalid." = Some (host_trip 0)
  ∧ hostname_resolved set "exfil.canary.invalid.example" = None
  ∧ file_read set "/root/.ssh/known_hosts" = Some (file_trip 0) ∧ file_read set "/root" = None.
Proof. vm_compute. done. Qed.

Definition monitor : CanaryMonitor := {|
  cm_set := set; cm_identity := SampleGateway.id; cm_fence := {| lease_id := 3%N; generation := 1 |} |}.

Lemma canaries_are_synthetic_witness : synthetic set.
Proof. apply (canaries_are_synthetic config), config_accepted. Defined.

Lemma redaction_is_complete_witness :
  L7.contains (chars "aiec-canary:key") (chars (redact set "saw aiec-canary:key-2 and aiec-canary:key")) = false.
Proof.
  refine (redaction_is_complete config set _ {| cs_path := "/root/.ssh/id_rsa"; cs_value := "aiec-canary:key" |}
    config_accepted _ _); [|left].
  intros g Hg. unfold set, config in Hg. simpl in Hg. rewrite !elem_of_cons, elem_of_nil in Hg.
  destruct Hg as [->|[->|[]]]; split; refine (bool_decide_unpack _ _); vm_compute; exact I.
Defined.

Lemma firing_reveals_no_value_witness :
  file_read set "/root/.ssh" = file_read {| files := [ {| cs_path := "/root/.ssh/id_rsa"; cs_value := "x" |};
    {| cs_path := "/home/agent/.aws/credentials"; cs_value := "y" |} ]; canary_hosts := [];
    credential_names := [] |} "/root/.ssh".
Proof.
  refine (proj1 (firing_reveals_no_value set {| files := [ {| cs_path := "/root/.ssh/id_rsa"; cs_value := "x" |};
    {| cs_path := "/home/agent/.aws/credentials"; cs_value := "y" |} ]; canary_hosts := [];
    credential_names := [] |} "/root/.ssh" monitor (file_trip 0) _)). reflexivity.
Defined.

Lemma firing_contains_first_witness :
  let '(s', r) := observe monitor {| kernel := Err GuardError.Io; appended := Ok ""%string; quarantine_taken := Ok () |}
    (Some (credential_trip 0)) {| att_gateway := SampleGateway.started; att_requests := [] |} in
  active (run s'.(att_gateway) [LBeat (seconds 1)]) = false
  ∧ (∀ o, r = Ok o → event_input monitor (credential_trip 0) ∈ s'.(att_gateway).(audit).(journal))
  ∧ (s'.(att_requests) ≠ [] →
     event_input monitor (credential_trip 0) ∈ s'.(att_gateway).(audit).(journal)
     ∧ (credential_trip 0).(response) = RespondQuarantine).
Proof.
  apply (firing_contains_first monitor _ _ {| att_gateway := SampleGateway.started; att_requests := [] |}).
  - apply SampleGateway.started_unauthorized.
  - intros Hin%list_elem_of_singleton. discriminate.
Defined.

End SampleCanaries.
