(* ===== verification/Broker.v ===== *)
(** * Broker: which request leaves the sandbox, where to and with what

    The decisions of [handle] ([crates/aiec-guard/src/gateway.rs]) and of [connect]
    ([gateway/connect.rs]) on one request: the checks in their order, the route to the
    model endpoint with its credential, the proxy route, the layer 7 verdict, the
    resolution of the destination and the admission budget; then the metered copy of the
    bodies.  A decision is a refusal with its status and reason, or the request that is
    sent upstream.

    The [http] crate's parsed request is data; [World] holds what other parties answer.  A
    request is decided in one step, on one state of the gateway, though the source reads its
    policy and flags at several points. *)

From Stdlib Require Import Ascii.
From stdpp Require Import pretty.
From S2P Require Import Prelude Policy Events Boundary Graphql L7 Text Sni Store Proposals Gateway Canaries.

Definition HEADER_LIMIT : Z := 16 * 1024.

(** ** Requests *)

(** Header names are lower case; a name may occur several times. *)
Abbreviation HeaderMap := (list (string * list ascii)) (only parsing).

Definition get_all (name : string) (h : HeaderMap) : list (list ascii) :=
  (base.filter (λ e, e.1 = name) h).*2.
Definition get_header (name : string) (h : HeaderMap) : option (list ascii) := head (get_all name h).
Definition has_header (name : string) (h : HeaderMap) : bool := bool_decide (get_header name h ≠ None).
(** [HeaderMap::insert]: every earlier value of the name goes. *)
Definition insert_header (name : string) (v : list ascii) (h : HeaderMap) : HeaderMap :=
  base.filter (λ e, e.1 ≠ name) h ++ [(name, v)].

Record Authority := { a_text : string; a_host : string; a_port : option Z }.

(** A body is what its stream yields: its chunks, and whether it breaks off after them. *)
Record Body := { chunks : list (list ascii); broken : bool }.

Definition content (b : Body) : list ascii := concat b.(chunks).

(** [Body::from] *)
Definition buffered (s : list ascii) : Body := {| chunks := [s]; broken := false |}.

Record Request := {
  method : string; u_scheme : option string; u_authority : option Authority; u_path : string;
  u_query : option string; headers : HeaderMap; r_body : Body }.

Definition with_body (r : Request) (b : Body) : Request := {|
  method := r.(method); u_scheme := r.(u_scheme); u_authority := r.(u_authority); u_path := r.(u_path);
  u_query := r.(u_query); headers := r.(headers); r_body := b |}.

(** The [http] and [axum] crates: the text of a header value, the value of a text, and the
    bytes of a body up to a limit, where it can be read to its end within it. *)
Class HttpLib := {
  to_str : list ascii → option string;
  from_str : string → option (list ascii);
  to_bytes : Body → Z → option (list ascii) }.

Class HttpLaws (L : HttpLib) : Prop := {
  to_str_bytes v s : to_str v = Some s → chars s = v;
  from_str_bytes s v : from_str s = Some v → v = chars s;
  to_bytes_content b limit s : to_bytes b limit = Some s → s = content b ∧ b.(broken) = false }.

(** What other parties answer while one request is handled. *)
Record World := {
  broker : string; permit_free : bool; canaries : option CanarySet;
  secrets : gmap string string;
  lookup_host : option (list IpAddr); cancelled : bool; granted : result GuardError.t ();
  client_built : bool; sink_ok : bool }.

Record Denial := { status : Z; d_reason : string; d_destination : option string }.

(** The request that is sent upstream; [f_body] is the stream its upload reads. *)
Record Forward := {
  f_category : Category; f_scheme : string; f_host : string; f_port : Z; f_path : string;
  f_query : option string; f_method : string; f_headers : HeaderMap; f_body : Body;
  f_addresses : list IpAddr; f_debit : BudgetDebit }.

Definition denial (status : Z) (reason : string) : Denial :=
  {| status := status; d_reason := reason; d_destination := None |}.

(** [format!("{host}:{port}")]. *)
Definition destination_text (host : string) (port : Z) : string :=
  host +:+ ":" +:+ pretty (Z.to_N port).

Definition refuse_l7 (host : string) (port : Z) (r : Refusal) (reason : string) : Denial := {|
  status := match r with Forbidden => 403 | Malformed => 400 | TooLarge => 413 end;
  d_reason := reason; d_destination := Some (destination_text host port) |}.

(** ** Text *)
Definition PLACEHOLDER : list ascii := chars "placeholder://".

Fixpoint trim_start (s : list ascii) : list ascii :=
  match s with
  | b :: rest => if is_whitespace b then trim_start rest else s
  | [] => []
  end.
Definition trim (s : list ascii) : list ascii := reverse (trim_start (reverse (trim_start s))).

Definition path_allowed (path : string) (allowed : list string) : bool :=
  existsb (λ p,
    bool_decide (path = p)
    || (bool_decide (last (chars p) = Some "/"%char) && starts_with (chars p) (chars path))
    || match strip_prefix (chars p) (chars path) with
       | Some rest => bool_decide (head rest = Some "/"%char)
       | None => false
       end) allowed.

Section Headers.
Context `{HttpLib}.

Definition forbidden_headers (h : HeaderMap) : bool :=
  has_header "upgrade" h || has_header "proxy-authorization" h
  || negb (count (get_all "host" h) =? 1)
  || existsb (λ e, (HEADER_LIMIT <? slen e.1 + count e.2)
                   || existsb (λ b, (byte_of b <? 32) || (byte_of b =? 127)) e.2) h.

(** The hop-by-hop headers and those that name a credential or a length. *)
Definition STRIPPED : list string :=
  ["host"; "authorization"; "x-api-key"; "proxy-authorization"; "connection"; "proxy-connection";
   "keep-alive"; "te"; "trailer"; "transfer-encoding"; "upgrade"; "content-length"]%string.

Definition nominated (h : HeaderMap) : list (list ascii) :=
  concat ((λ v, match to_str v with
                | Some s => (λ t, to_ascii_lowercase <$> trim t) <$> split_on ","%char (chars s)
                | None => []
                end) <$> get_all "connection" h).

Definition sanitized (h : HeaderMap) : HeaderMap :=
  base.filter (λ e, (e.1 ∉ STRIPPED) ∧ (chars e.1 ∉ nominated h)) h.

Definition text_of (name : string) (h : HeaderMap) : option string := get_header name h ≫= to_str.

Definition carries_placeholder (v : list ascii) : bool := L7.contains PLACEHOLDER v.

End Headers.

(** ** Routes *)
Section Broker.
Context `{IpNetLib, HttpLib, SerdeJson}.

(** The credential a canary monitor sees: the placeholder after an optional scheme. *)
Definition presented (v : list ascii) : option string :=
  match to_str v with
  | None => None
  | Some s =>
      let s := default (chars s) (strip_prefix (chars "Bearer ") (chars s)) in
      string_of <$> strip_prefix PLACEHOLDER s
  end.

(** Whether some presented placeholder trips a canary; a trip is refused whether or not
    its containment succeeds. *)
Definition trips (set : option CanarySet) (h : HeaderMap) : bool :=
  match set with
  | None => false
  | Some set =>
      existsb (λ e, match presented e.2 with
                    | Some name => bool_decide (is_Some (credential_presented set name))
                    | None => false
                    end) h
  end.

Definition invalid_query (q : string) : bool :=
  (2048 <? slen q) || any_byte (λ b, (byte_of b <=? 32) || (byte_of b =? 127)) q
  || L7.contains (chars "%0") (to_ascii_lowercase <$> chars q).

(** Scheme, host, port, path and category, with the headers to send. *)
Record Route := {
  r_host : string; r_port : Z; r_scheme : string; r_path : string; r_category : Category;
  r_headers : HeaderMap }.

Definition expected_placeholder (b : CredentialBinding) : string :=
  if bool_decide (b.(c_header) = "authorization"%string)
  then "Bearer placeholder://" +:+ b.(c_name) else "placeholder://" +:+ b.(c_name).

Definition injected_value (b : CredentialBinding) (secret : string) : string :=
  if bool_decide (b.(c_header) = "authorization"%string) then "Bearer " +:+ secret else secret.

(** The placeholder stands in its own header, once, and nowhere else. *)
Definition placeholder_mismatch (b : CredentialBinding) (h : HeaderMap) : bool :=
  negb (count (get_all b.(c_header) h) =? 1)
  || negb (bool_decide (text_of b.(c_header) h = Some (expected_placeholder b)))
  || existsb (λ e, negb (bool_decide (e.1 = b.(c_header)))
                   && (bool_decide (e.1 ∈ ["authorization"; "x-api-key"]%string)
                       || carries_placeholder e.2)) h.

Definition model_route (w : World) (c : CompiledPolicy) (r : Request) : result Denial Route :=
  bail_if negb (bool_decide (text_of "host" r.(headers) = Some w.(broker)))
    with denial 403 "broker authority mismatch";
  let? m := ok_or c.(cp_policy).(model) (denial 403 "model route denied") in
  let? path := ok_or (strip_prefix (chars ("/model/" +:+ m.(m_credential))) (chars r.(u_path)))
                 (denial 403 "model binding mismatch") in
  let path := string_of path in
  bail_if negb (safe_path path) || negb (bool_decide (r.(method) ∈ m.(m_methods)))
       || negb (path_allowed path m.(m_paths)) with denial 403 "model method or path denied";
  let? b := ok_or (List.find (λ b, bool_decide (b.(c_name) = m.(m_credential))
                     && bool_decide (b.(c_host) = m.(m_host)) && (b.(c_port) =? m.(m_port)))
                   c.(cp_policy).(credentials)) (denial 403 "credential destination mismatch") in
  bail_if placeholder_mismatch b r.(headers) with denial 403 "credential placeholder mismatch";
  let? secret := ok_or (w.(secrets) !! b.(c_name)) (denial 503 "credential unavailable") in
  let? value := ok_or (from_str (injected_value b secret)) (denial 503 "credential unavailable") in
  Ok {| r_host := m.(m_host); r_port := m.(m_port); r_scheme := m.(m_scheme); r_path := path;
        r_category := Model;
        r_headers := insert_header b.(c_header) value (sanitized r.(headers)) |}.

(** Whether a request brings credentials of its own. *)
Definition brings_credentials (h : HeaderMap) : bool :=
  has_header "authorization" h || has_header "x-api-key" h || existsb (λ e, carries_placeholder e.2) h.

Definition is_model_host (c : CompiledPolicy) (host : string) : bool :=
  match c.(cp_policy).(model) with Some m => bool_decide (m.(m_host) = host) | None => false end.

Definition proxy_route (c : CompiledPolicy) (r : Request) : result Denial Route :=
  let? scheme := match r.(u_scheme) with
                 | Some s => if bool_decide (s ∈ ["http"; "https"]%string) then Ok s
                             else Err (denial 403 "proxy scheme denied")
                 | None => Err (denial 403 "proxy scheme denied")
                 end in
  let? a := ok_or r.(u_authority) (denial 400 "proxy authority missing") in
  let host := a.(a_host) in
  let port := default (if bool_decide (scheme = "https"%string) then 443 else 80) a.(a_port) in
  bail_if L7.contains (chars "@") (chars a.(a_text))
       || negb (bool_decide (text_of "host" r.(headers) = Some a.(a_text)))
    with denial 403 "proxy authority mismatch";
  bail_if brings_credentials r.(headers) with denial 403 "credentials forbidden on proxy";
  bail_if is_model_host c host with denial 403 "model destination requires broker";
  let? rule := ok_or (endpoint c host port) (denial 403 "proxy destination denied") in
  bail_if negb (safe_path r.(u_path))
       || (negb (bool_decide (rule.(e_methods) = [])) && negb (bool_decide (r.(method) ∈ rule.(e_methods))))
       || (negb (bool_decide (rule.(e_paths) = [])) && negb (path_allowed r.(u_path) rule.(e_paths)))
    with denial 403 "proxy method or path denied";
  Ok {| r_host := host; r_port := port; r_scheme := scheme; r_path := r.(u_path);
        r_category := Network; r_headers := sanitized r.(headers) |}.

Definition route (w : World) (c : CompiledPolicy) (r : Request) : result Denial Route :=
  if bool_decide (r.(u_scheme) = None) && bool_decide (r.(u_authority) = None)
  then model_route w c r else proxy_route c r.

(** ** Resolution *)
Definition resolve (w : World) (c : CompiledPolicy) (host : string) (port : Z)
    : result GuardError.t (list IpAddr) :=
  let tests := test_addresses c.(boundary) host port in
  let? addresses := if negb (bool_decide (tests = [])) then Ok tests
                    else ok_or (take 17 <$> w.(lookup_host)) GuardError.Denied in
  bail_if bool_decide (addresses = []) || (16 <? count addresses) with GuardError.Denied;
  let? _ := each (check_destination c host) addresses in
  Ok addresses.

(** ** Layer 7 *)
Definition governs_bodies (p : L7Policy) : bool :=
  negb (bool_decide (p.(mcp).(allowed_methods) = [])) || negb (bool_decide (p.(mcp).(allowed_tools) = []))
  || negb (bool_decide (p.(mcp).(denied_tools) = [])) || p.(graphql).(allow_mutations)
  || negb (bool_decide (p.(graphql).(operations) = [])) || negb (bool_decide (p.(graphql).(root_fields) = [])).

(** The body is read to its end and put back into the request. *)
Definition visible_body (r : Request) (limit : Z) : result (string * Refusal) (Request * list ascii) :=
  let undeclared := ("l7: request body length is not declared and cannot be inspected"%string, Malformed) in
  let? v := ok_or (get_header "content-length" r.(headers)) undeclared in
  let? declared := ok_or (to_str v ≫= λ s, parse_unsigned u64_max (chars s)) undeclared in
  bail_if limit <? declared with ("l7: request body exceeds the inspection bound"%string, TooLarge);
  let? body := ok_or (to_bytes r.(r_body) limit)
                 ("l7: request body could not be read for inspection"%string, Malformed) in
  Ok (with_body r (buffered body), body).

Definition may_carry_body (m : string) : bool := bool_decide (m ∈ ["POST"; "PUT"; "PATCH"]%string).

(** The verdict on the request, and the request with the body as it was read. *)
Definition l7_check (p : option L7Policy) (r : Request) (t : Route) : result Denial Request :=
  match p with
  | None => Ok r
  | Some policy =>
      let refuse x := refuse_l7 t.(r_host) t.(r_port) x.2 x.1 in
      let? (r, body) :=
        if governs_bodies policy && bool_decide (t.(r_scheme) = "http"%string) && may_carry_body r.(method)
        then let? (r, body) := map_err refuse (visible_body r MAX_INSPECTED_BODY_BYTES) in Ok (r, Some body)
        else Ok (r, None) in
      match request_verdict (Some policy)
              {| vr_host := t.(r_host); vr_method := r.(method); vr_path := t.(r_path);
                 vr_content_type := text_of "content-type" t.(r_headers); vr_body := body |} with
      | VAllow _ => Ok r
      | VDeny _ refusal reason => Err (refuse (reason, refusal))
      end
  end.

(** ** Admission *)

(** What every request passes before its route is looked at. *)
Definition precheck (w : World) (r : Request) : result Denial () :=
  bail_if negb w.(permit_free) with denial 429 "request concurrency exhausted";
  bail_if forbidden_headers r.(headers) with denial 400 "invalid request headers";
  bail_if trips w.(canaries) r.(headers)
    with denial 403 "presentation of a canary credential refused";
  Ok ().

Definition too_long (h : HeaderMap) (max : Z) : bool :=
  match get_header "content-length" h with
  | None => false
  | Some v => match to_str v ≫= λ s, parse_unsigned u64_max (chars s) with
              | None => true
              | Some len => max <? len
              end
  end.

(** What the admission reserves: a model request counts, a proxied one does not. *)
Definition admission_debit (category : Category) : BudgetDebit := {|
  d_model_requests := if bool_decide (category = Model) then 1 else 0; d_bytes_in := 0; d_bytes_out := 0 |}.

Definition admission (w : World) (g : Gateway) (r : Request) : result Denial Forward :=
  let c := compiled g in
  bail_if match r.(u_query) with Some q => invalid_query q | None => false end
    with denial 400 "invalid request query";
  let? t := route w c r in
  let plain := negb (bool_decide (t.(r_scheme) = "https"%string)) in
  bail_if plain && bool_decide (test_addresses c.(boundary) t.(r_host) t.(r_port) = [])
    with denial 403 "plain HTTP requires operator test mapping";
  bail_if too_long r.(headers) c.(cp_policy).(limits).(max_request_bytes)
    with denial 413 "request body too large";
  let? r := l7_check g.(policy_cell).(active_l7) r t in
  let? addresses := map_err (λ _, denial 403 "destination resolution denied")
                      (resolve w c t.(r_host) t.(r_port)) in
  bail_if plain && negb (forallb (allows_plain_http_upstream c t.(r_host) t.(r_port)) addresses)
    with denial 403 "plain HTTP destination approval mismatch";
  let? _ := map_err (λ _, denial 503 "durable admission budget unavailable or exhausted")
              (reserve w.(cancelled) w.(granted) g) in
  bail_if negb w.(client_built) with denial 502 "upstream client unavailable";
  Ok {| f_category := t.(r_category); f_scheme := t.(r_scheme); f_host := t.(r_host);
        f_port := t.(r_port); f_path := t.(r_path); f_query := r.(u_query); f_method := r.(method);
        f_headers := t.(r_headers); f_body := r.(r_body); f_addresses := addresses; f_debit := admission_debit t.(r_category) |}.

(** A tunnel that waits for the guest's TLS hello. *)
Record Tunnel := { t_host : string; t_port : Z; t_addresses : list IpAddr }.

Definition connect (w : World) (g : Gateway) (r : Request) : result Denial Tunnel :=
  let c := compiled g in
  let? a := ok_or r.(u_authority) (denial 400 "CONNECT authority missing") in
  let host := a.(a_host) in
  let? port := ok_or a.(a_port) (denial 400 "CONNECT requires explicit port") in
  bail_if bool_decide (r.(u_scheme) ≠ None) || L7.contains (chars "@") (chars a.(a_text))
       || negb (bool_decide (text_of "host" r.(headers) = Some a.(a_text)))
       || has_header "content-length" r.(headers) || has_header "transfer-encoding" r.(headers)
       || brings_credentials r.(headers)
    with denial 403 "CONNECT identity or credentials denied";
  bail_if is_model_host c host with denial 403 "model destination requires broker";
  let? rule := ok_or (endpoint c host port) (denial 403 "CONNECT destination denied") in
  bail_if negb (bool_decide (rule.(e_methods) = [])) || negb (bool_decide (rule.(e_paths) = []))
    with denial 403 "opaque TLS cannot enforce HTTP methods or paths";
  let? _ := match tunnel_verdict g.(policy_cell).(active_l7) host with
            | VAllow _ => Ok ()
            | VDeny _ refusal reason => Err (refuse_l7 host port refusal reason)
            end in
  let? addresses := map_err (λ _, denial 403 "CONNECT destination resolution denied") (resolve w c host port) in
  Ok {| t_host := host; t_port := port; t_addresses := addresses |}.

Inductive Outcome :=
| Denied_ (d : Denial)
| Unaudited
| Sent (f : Forward)
| Tunnelled (t : Tunnel).

(** [deny] and [deny_l7] answer whether or not the journal takes the record. *)
Definition deny (w : World) (d : Denial) (g : Gateway) : Gateway * Outcome :=
  ((record w.(sink_ok) (measured_event g Network Deny d.(d_reason) d.(d_destination) 0 0 0) g).1,
   Denied_ d).

(** [handle] up to the request it sends. *)
Definition handle (w : World) (now : Instant) (r : Request) (g : Gateway) : Gateway * Outcome :=
  if negb (active g) then deny w (denial 503 "gateway cut") g
  else
    let '(g, rated) := rate now false g in
    if negb (is_ok rated) then deny w (denial 429 "request rate exhausted") g
    else
      match precheck w r with
      | Err d => deny w d g
      | Ok _ =>
          if bool_decide (r.(method) = "CONNECT"%string) then
            match connect w g r with
            | Err d => deny w d g
            | Ok t => (g, Tunnelled t)
            end
          else
            match admission w g r with
            | Err d => deny w d g
            | Ok f =>
                let '(g, recorded) := record w.(sink_ok)
                  (measured_event g f.(f_category) Allow "bound upstream request"
                     (Some (destination_text f.(f_host) f.(f_port))) 0 0 0) g in
                if is_ok recorded then (g, Sent f) else (g, Unaudited)
            end
      end.

(** ** Responses *)
Record Upstream := { up_status : Z; up_length : option Z; up_headers : HeaderMap }.

Inductive Answer :=
| Refused_ (d : Denial)
| Answered (answer_status : Z) (answer_headers : HeaderMap).

(** [handle] from the head of the upstream's response on; its body is [download]. *)
Definition respond (w : World) (u : Upstream) (g : Gateway) : Gateway * Answer :=
  let refuse reason :=
    let d := denial 502 reason in ((deny w d g).1, Refused_ d) in
  if (300 <=? u.(up_status)) && (u.(up_status) <? 400) then refuse "upstream redirect denied"%string
  else if match u.(up_length) with
          | Some n => (compiled g).(cp_policy).(limits).(max_response_bytes) <? n
          | None => false
          end then refuse "response body too large"%string
  else (g, Answered u.(up_status)
             (base.filter (λ e, e.1 ≠ "set-cookie"%string) (sanitized u.(up_headers)))).

(** ** Tunnels *)

(** The tunnel task up to the dial: the hello that is forwarded and what the guest sent
    after it. *)
Definition open_tunnel (w : World) (t : Tunnel) (stream : list ascii) (g : Gateway)
    : Gateway * option (list ascii * list ascii) :=
  match read_client_hello stream with
  | Err _ => (g, None)
  | Ok (hello, sni, rest) =>
      if negb (bool_decide (sni = chars t.(t_host))) then (g, None)
      else
        let '(g, r) := debit true (count hello) w.(cancelled) w.(granted) g in
        if negb (is_ok r) then (g, None)
        else if (compiled g).(cp_policy).(limits).(max_request_bytes) <? count hello then (g, None)
        else
          let '(g, r) := record w.(sink_ok)
            (measured_event g Network Allow
               "CONNECT authority and visible SNI agree; opaque HTTP uninspected"
               (Some (destination_text t.(t_host) t.(t_port))) (count hello) 0 0) g in
          if is_ok r then (g, Some (hello, rest)) else (g, None)
  end.

End Broker.

(** ** Metered copies *)
Definition CHUNK : Z := 16 * 1024.

(** One read of a body or a tunnel: what the other tasks did before it, its bytes, and
    the authority's answer. *)
Record Piece := {
  between : list Label; bytes : list ascii; p_cancelled : bool; p_granted : result GuardError.t () }.

Definition body_cap (outgoing : bool) (g : Gateway) : Z :=
  let lim := (compiled g).(cp_policy).(limits) in
  if outgoing then lim.(max_request_bytes) else lim.(max_response_bytes).

(** [pump]: the pieces written, and whether the stream came to its end.  The upload of a
    request body is the same loop from zero. *)
Fixpoint pump (outgoing : bool) (n : Z) (ps : list Piece) (g : Gateway) : Gateway * list (list ascii) * bool :=
  match ps with
  | [] => (g, [], true)
  | p :: ps =>
      let g := run g p.(between) in
      let n := saturating_add u64_max n (count p.(bytes)) in
      let '(g, r) := debit outgoing (count p.(bytes)) p.(p_cancelled) p.(p_granted) g in
      if negb (is_ok r) || (body_cap outgoing g <? n) || negb (active g) then (g, [], false)
      else
        let '(g, written, finished) := pump outgoing n ps g in
        (g, p.(bytes) :: written, finished)
  end.

Definition upload (ps : list Piece) (g : Gateway) : Gateway * list (list ascii) * bool := pump true 0 ps g.

(** The parts of at most [CHUNK] bytes a received piece is passed on in. *)
Fixpoint parts (fuel : nat) (s : list ascii) : list (list ascii) :=
  match fuel with
  | O => []
  | S fuel =>
      if count s <=? CHUNK then [s]
      else take (Z.to_nat CHUNK) s :: parts fuel (drop (Z.to_nat CHUNK) s)
  end.

(** Pass the parts on, one poll of the client at a time; a client that stops polling
    ends the copy. *)
Fixpoint pass_on (polls : list Piece) (ps : list (list ascii)) (g : Gateway)
    : Gateway * list (list ascii) * bool :=
  match ps with
  | [] => (g, [], true)
  | part :: ps =>
      match polls with
      | [] => (g, [], false)
      | p :: polls =>
          let g := run g p.(between) in
          let '(g, r) := debit false (count part) p.(p_cancelled) p.(p_granted) g in
          if negb (is_ok r) then (g, [], false)
          else let '(g, passed, finished) := pass_on polls ps g in (g, part :: passed, finished)
      end
  end.

(** [Download]: each item received from upstream, with the polls that pass it on. *)
Fixpoint download (n : Z) (items : list (Piece * list Piece)) (g : Gateway)
    : Gateway * list (list ascii) * bool :=
  match items with
  | [] => (g, [], true)
  | (item, polls) :: items =>
      let g := run g item.(between) in
      let n := saturating_add u64_max n (count item.(bytes)) in
      if (body_cap false g <? n) || negb (active g) then (g, [], false)
      else
        let '(g, passed, finished) := pass_on polls (parts (S (length item.(bytes))) item.(bytes)) g in
        if negb finished then (g, passed, false)
        else let '(g, more, finished) := download n items g in (g, passed ++ more, finished)
  end.

(** [Audit]'s drop: the closing record of a request. *)
Definition audit_dropped (category : Category) (destination reason : string) (status : Z) (allowed : bool)
    (sent received elapsed_ms : Z) (g : Gateway) : Gateway :=
  let e := measured_event g category (if allowed then Allow else Deny)
             (reason +:+ "; status=" +:+ pretty (Z.to_N status)) (Some destination) sent received elapsed_ms in
  if can_send g then with_queue g (g.(audit).(queue) ++ [Record_ e])
  else with_flags g true true (bump g.(stop)).

(** ** Lemmas: headers *)
Lemma contains_iff p s : L7.contains p s = true ↔ ∃ a b, s = a ++ p ++ b.
Proof.
  induction s as [|x s IH]; cbn [L7.contains]; rewrite orb_true_iff, starts_with_spec.
  - split; [intros [[b Hb]|?]; [by exists [], b|done]|]. intros (a & b & Hab). left.
    destruct a; [by exists b|done].
  - rewrite IH. split; [intros [[b Hb]|(a & b & ->)]; [by exists [], b|by exists (x :: a), b]|].
    intros ([|y a] & b & Hab); [left; by exists b|]. injection Hab as -> ->. right. by exists a, b.
Qed.

Lemma content_buffered s : content (buffered s) = s.
Proof. apply app_nil_r. Qed.

Lemma elem_of_get_all name v (h : HeaderMap) : v ∈ get_all name h ↔ (name, v) ∈ h.
Proof.
  unfold get_all. rewrite list_elem_of_fmap. split.
  - intros ([n x] & -> & Hin). apply list_elem_of_filter in Hin as [Hn ?]. simpl in *. by subst.
  - intros Hin. exists (name, v). split; [done|]. by apply list_elem_of_filter.
Qed.

Lemma has_header_false name (h : HeaderMap) v : has_header name h = false → (name, v) ∉ h.
Proof.
  unfold has_header, get_header. intros Hh Hin%elem_of_get_all. apply bool_decide_eq_false in Hh.
  apply dec_stable in Hh. destruct (get_all name h); [by apply elem_of_nil in Hin|done].
Qed.

Lemma elem_of_insert_header name v (h : HeaderMap) n x :
  (n, x) ∈ insert_header name v h ↔ n = name ∧ x = v ∨ n ≠ name ∧ (n, x) ∈ h.
Proof.
  unfold insert_header. rewrite elem_of_app, list_elem_of_filter, list_elem_of_singleton. simpl. naive_solver.
Qed.

Section HeaderLemmas.
Context `{HttpLib}.
Lemma elem_of_sanitized (h : HeaderMap) n v :
  (n, v) ∈ sanitized h ↔ (n, v) ∈ h ∧ (n ∉ STRIPPED) ∧ (chars n ∉ nominated h).
Proof. unfold sanitized. rewrite list_elem_of_filter. simpl. tauto. Qed.

Lemma brings_credentials_false (h : HeaderMap) :
  brings_credentials h = false →
  ∀ n v, (n, v) ∈ h → n ≠ "authorization"%string ∧ n ≠ "x-api-key"%string ∧ carries_placeholder v = false.
Proof.
  unfold brings_credentials. rewrite !orb_false_iff. intros [[Ha Hx] Hp] n v Hin.
  split_and!; [intros ->; by eapply has_header_false in Ha|intros ->; by eapply has_header_false in Hx|].
  rewrite existsb_false, Forall_forall in Hp. by apply (Hp _ Hin).
Qed.
End HeaderLemmas.

(** ** Lemmas: what an admitted request has passed *)
Section Admission.
Context `{IpNetLib, HttpLib, SerdeJson}.

(** A path is one of the list or lies below one of it. *)
Definition below (path : string) (paths : list string) : Prop :=
  ∃ p rest, p ∈ paths ∧ chars path = chars p ++ rest
    ∧ (rest = [] ∨ last (chars p) = Some "/"%char ∨ head rest = Some "/"%char).

Lemma path_allowed_iff path paths : path_allowed path paths = true ↔ below path paths.
Proof.
  unfold path_allowed. rewrite existsb_Exists, Exists_exists. split.
  - intros (p & Hp & Hm). rewrite !orb_true_iff, andb_true_iff, !bool_decide_eq_true in Hm.
    destruct Hm as [[->|[Hl (rest & Hr)%starts_with_spec]]|Hs].
    + exists p, []. rewrite app_nil_r. auto.
    + exists p, rest. auto.
    + destruct (strip_prefix _ _) as [rest|] eqn:Hr; [|done]. apply strip_prefix_iff in Hr.
      apply bool_decide_eq_true in Hs. exists p, rest. auto.
  - intros (p & rest & Hp & Hr & Ho). exists p. split; [done|].
    rewrite !orb_true_iff, andb_true_iff, !bool_decide_eq_true. destruct Ho as [->|[Ho|Ho]].
    + left. left. rewrite app_nil_r in Hr. by apply chars_inj.
    + left. right. split; [done|]. apply starts_with_spec. by exists rest.
    + right. apply strip_prefix_iff in Hr. by rewrite Hr, bool_decide_eq_true.
Qed.

(** The route is one the policy names. *)
Definition on_policy (c : CompiledPolicy) (r : Request) (t : Route) : Prop :=
  safe_path t.(r_path) = true
  ∧ (t.(r_category) = Network ∧ (∀ m, c.(cp_policy).(model) = Some m → m.(m_host) ≠ t.(r_host))
     ∧ (∃ rule, endpoint c t.(r_host) t.(r_port) = Some rule
          ∧ rule ∈ c.(cp_policy).(network).(egress) ∧ rule.(e_port) = t.(r_port)
          ∧ (rule.(e_methods) = [] ∨ r.(method) ∈ rule.(e_methods))
          ∧ (rule.(e_paths) = [] ∨ below t.(r_path) rule.(e_paths)))
     ∨ t.(r_category) = Model ∧ ∃ m, c.(cp_policy).(model) = Some m
         ∧ t.(r_host) = m.(m_host) ∧ t.(r_port) = m.(m_port) ∧ t.(r_scheme) = m.(m_scheme)
         ∧ r.(method) ∈ m.(m_methods) ∧ below t.(r_path) m.(m_paths)).

Lemma model_route_ok w c r t :
  model_route w c r = Ok t →
  on_policy c r t
  ∧ ∃ m b secret v, c.(cp_policy).(model) = Some m ∧ b ∈ c.(cp_policy).(credentials)
      ∧ b.(c_name) = m.(m_credential) ∧ b.(c_host) = t.(r_host) ∧ b.(c_port) = t.(r_port)
      ∧ w.(secrets) !! b.(c_name) = Some secret ∧ from_str (injected_value b secret) = Some v
      ∧ placeholder_mismatch b r.(headers) = false
      ∧ t.(r_headers) = insert_header b.(c_header) v (sanitized r.(headers))
      ∧ t.(r_category) = Model.
Proof.
  unfold model_route. cbv zeta. intros Ht. ok_inv Ht. injection Ht as <-. unfold ok_or in *.
  destruct (model (cp_policy c)) as [m|] eqn:Hm; [|done]. simplify_eq/=.
  destruct (strip_prefix _ _) as [path|]; [|done]. simplify_eq/=.
  destruct (List.find _ _) as [b|] eqn:Hb; [|done]. simplify_eq/=.
  destruct (secrets w !! _) as [secret|] eqn:Hs; [|done]. simplify_eq/=.
  destruct (from_str _) as [v|] eqn:Hv; [|done]. simplify_eq/=.
  repeat match goal with Hx : _ || _ = false |- _ => apply orb_false_iff in Hx as [? ?] end.
  apply List.find_some in Hb as [Hin Hb]. apply list_elem_of_In in Hin.
  rewrite !andb_true_iff, !bool_decide_eq_true, Z.eqb_eq in Hb. destruct Hb as [[? ?] ?].
  repeat match goal with Hx : negb _ = false |- _ => apply negb_false_iff in Hx end.
  split.
  - split; [done|]. right. split; [done|]. eexists. simpl.
    split_and!; try done; [by eapply bool_decide_eq_true|by apply path_allowed_iff].
  - do 4 eexists. by split_and!.
Qed.

Lemma or_nil (l : list string) P b :
  negb (bool_decide (l = [])) && negb b = false → (b = true → P) → l = [] ∨ P.
Proof. destruct b; [naive_solver|]. case_bool_decide; naive_solver. Qed.

Lemma proxy_route_ok c r t :
  proxy_route c r = Ok t →
  on_policy c r t ∧ brings_credentials r.(headers) = false ∧ t.(r_headers) = sanitized r.(headers).
Proof.
  unfold proxy_route. cbv zeta. intros Ht. ok_inv Ht. injection Ht as <-. unfold ok_or in *.
  destruct (u_authority r) as [a'|]; [|done]. simplify_eq/=.
  destruct (endpoint _ _ _) as [rule|] eqn:Hr; [|done]. simplify_eq/=.
  repeat match goal with Hx : _ || _ = false |- _ => apply orb_false_iff in Hx as [? ?] end.
  split_and!; [|done..].
  split; [by apply negb_false_iff|]. left. simpl. split_and!; [done| |].
  - intros m Hm. unfold is_model_host in *. rewrite Hm in *. by eapply bool_decide_eq_false.
  - unfold endpoint in Hr. eexists. split; [exact Hr|]. apply List.find_some in Hr as [Hin [Hport _]%andb_true_iff].
    split_and!; [by apply list_elem_of_In|by apply Z.eqb_eq|eapply or_nil; [eassumption|]; by intros ?%bool_decide_eq_true|].
    eapply or_nil; [eassumption|]. by intros ?%path_allowed_iff.
Qed.

Lemma resolve_ok w c host port addresses :
  resolve w c host port = Ok addresses →
  0 < count addresses ≤ 16 ∧ ∀ ip, ip ∈ addresses → check_destination c host ip = Ok ().
Proof.
  unfold resolve. cbv zeta. intros Hr. ok_inv Hr. injection Hr as <-.
  apply orb_false_iff in Hif as [Hne Hle]. apply bool_decide_eq_false in Hne. apply Z.ltb_ge in Hle.
  apply each_ok in Hok0. rewrite Forall_forall in Hok0. split; [|done].
  unfold count in *. destruct a; [done|]. simpl in *. lia.
Qed.

(** The layer 7 policy has a rule about bodies. *)
Definition has_body_rule (p : L7Policy) : Prop :=
  p.(mcp).(allowed_methods) ≠ [] ∨ p.(mcp).(allowed_tools) ≠ [] ∨ p.(mcp).(denied_tools) ≠ []
  ∨ p.(graphql).(allow_mutations) = true ∨ p.(graphql).(operations) ≠ [] ∨ p.(graphql).(root_fields) ≠ [].

Lemma governs_bodies_iff p : governs_bodies p = true ↔ has_body_rule p.
Proof. unfold governs_bodies, has_body_rule. rewrite !orb_true_iff, !negb_true_iff, !bool_decide_eq_false. tauto. Qed.

(** The bodies that are inspected: those in the clear, of a method that carries one, where a
    rule is about them. *)
Definition inspected (p : option L7Policy) (r : Request) (t : Route) : Prop :=
  t.(r_scheme) = "http"%string ∧ r.(method) ∈ ["POST"; "PUT"; "PATCH"]%string
  ∧ ∃ policy, p = Some policy ∧ has_body_rule policy.

(** The verdict on what is sent: the request line, and the whole body where it is inspected.
    What is not inspected streams on as it comes. *)
Definition l7_allows (p : option L7Policy) (r : Request) (t : Route) (sent : Body) : Prop :=
  content sent = content r.(r_body)
  ∧ ∃ body, allowed (request_verdict p
      {| vr_host := t.(r_host); vr_method := r.(method); vr_path := t.(r_path);
         vr_content_type := text_of "content-type" t.(r_headers); vr_body := body |}) = true
    ∧ (inspected p r t ∧ body = Some (content sent) ∧ sent.(broken) = false
       ∨ ¬ inspected p r t ∧ body = None ∧ sent = r.(r_body)).

Lemma l7_check_ok `{!HttpLaws H0} p r t r' :
  l7_check p r t = Ok r' → l7_allows p r t r'.(r_body) ∧ r' = with_body r r'.(r_body).
Proof.
  unfold l7_check. assert (Hr : r = with_body r r.(r_body)) by (by destruct r).
  destruct p as [policy|].
  - cbv zeta. intros Hc. ok_inv Hc. destruct a as [r1 body].
    destruct (request_verdict (Some policy) _) eqn:Hrv; [|done]. injection Hc as <-.
    assert (Hins : governs_bodies policy && bool_decide (t.(r_scheme) = "http"%string) && may_carry_body r.(method) = true
      ↔ inspected (Some policy) r t).
    { unfold inspected, may_carry_body. rewrite !andb_true_iff, !bool_decide_eq_true, governs_bodies_iff. naive_solver. }
    destruct (_ && _) eqn:Hb.
    + ok_inv Hok. destruct a as [r2 body']. injection Hok as <- <-. destruct (visible_body r _) as [p|] eqn:Hv; [|done].
      injection Hok0 as ->. unfold visible_body in Hv. cbv zeta in Hv. ok_inv Hv. injection Hv as <- <-.
      unfold ok_or in Hok1. destruct (to_bytes _ _) as [s|] eqn:Hs; [|done]. injection Hok1 as ->.
      apply to_bytes_content in Hs as [-> Hbr]. split; [|done]. cbn [method r_body with_body] in *.
      split; [apply content_buffered|]. exists (Some (content r.(r_body))). split; [by rewrite Hrv|].
      left. rewrite content_buffered. split_and!; [by apply Hins|done..].
    + injection Hok as <- <-. split; [|done]. split; [done|]. exists None.
      split; [by rewrite Hrv|]. right. split_and!; [|done..].
      intros ?%Hins. congruence.
  - intros [= <-]. split; [|done]. split; [done|]. exists None. split; [done|]. right. split_and!; [|done..].
    intros (_ & _ & policy & ? & _). done.
Qed.

(** Everything an admitted request has passed. *)
Definition admissible (c : CompiledPolicy) (p : option L7Policy) (r : Request) (t : Route) (f : Forward) : Prop :=
  on_policy c r t ∧ l7_allows p r t f.(f_body)
  ∧ f.(f_category) = t.(r_category) ∧ f.(f_scheme) = t.(r_scheme) ∧ f.(f_host) = t.(r_host)
  ∧ f.(f_port) = t.(r_port) ∧ f.(f_path) = t.(r_path) ∧ f.(f_query) = r.(u_query)
  ∧ f.(f_method) = r.(method) ∧ f.(f_headers) = t.(r_headers)
  ∧ 0 < count f.(f_addresses) ≤ 16
  ∧ (∀ ip, ip ∈ f.(f_addresses) → check_destination c f.(f_host) ip = Ok ())
  ∧ (f.(f_scheme) ≠ "https"%string → ∀ ip, ip ∈ f.(f_addresses) →
       normalize_addr ip ∈ test_addresses c.(boundary) f.(f_host) f.(f_port)).

Lemma plain_http_mapped c host port ip :
  allows_plain_http_upstream c host port ip = true → normalize_addr ip ∈ test_addresses c.(boundary) host port.
Proof.
  unfold allows_plain_http_upstream. cbv zeta.
  repeat (destruct (_ && _) || destruct (_ || _) || destruct (bool_decide (operator_blocked _ _ ≠ _))); try done.
  by intros ?%bool_decide_eq_true.
Qed.

Lemma admit_ok `{!HttpLaws H0} w g r f :
  admission w g r = Ok f →
  ∃ t, route w (compiled g) r = Ok t ∧ admissible (compiled g) g.(policy_cell).(active_l7) r t f.
Proof.
  unfold admission. cbv zeta. intros Ha. ok_inv Ha. injection Ha as <-. exists a. split; [done|].
  apply l7_check_ok in Hok0 as [Hl7 Hr]. unfold admissible. rewrite Hr. simpl.
  destruct (resolve w (compiled g) (r_host a) (r_port a)) as [ips|] eqn:Hres; [|done].
  injection Hok1 as <-. apply resolve_ok in Hres as [Hn Hips].
  split_and!; try done; try lia.
  - unfold route in Hok. destruct (_ && _); [by apply model_route_ok in Hok as [? _]|].
    by apply proxy_route_ok in Hok as [? _].
  - intros Hs ip Hip. rewrite bool_decide_false in Hif2 by done. simpl in Hif2.
    apply negb_false_iff in Hif2. rewrite List.forallb_forall in Hif2. by apply plain_http_mapped, Hif2, list_elem_of_In.
Qed.

Lemma rate_frame now d g : let g' := (rate now d g).1 in
  compiled g' = compiled g ∧ active g' = active g ∧ g'.(policy_cell) = g.(policy_cell)
  ∧ g'.(audit) = g.(audit) ∧ g'.(identity) = g.(identity).
Proof. unfold rate. cbv zeta. by repeat case_match. Qed.

Lemma handle_sent w now r g g' f :
  handle w now r g = (g', Sent f) →
  active g = true ∧ precheck w r = Ok () ∧ ∃ g1, (compiled g1 = compiled g ∧ g1.(policy_cell) = g.(policy_cell))
    ∧ admission w g1 r = Ok f
    ∧ g'.(audit).(journal) = g.(audit).(journal) ++
        [measured_event g f.(f_category) Allow "bound upstream request"
           (Some (destination_text f.(f_host) f.(f_port))) 0 0 0].
Proof.
  unfold handle, deny. destruct (active g) eqn:Ha; [|done]. cbn [negb].
  pose proof (rate_frame now false g) as (Hc & _ & Hp & Hj & Hi).
  destruct (rate now false g) as [g1 rated]. cbn in Hc, Hp, Hj, Hi.
  destruct (is_ok rated); [|done]. cbn [negb]. destruct (precheck w r) as [[]|]; [|done].
  case_bool_decide; [by destruct (connect w g1 r)|].
  destruct (admission w g1 r) as [f'|] eqn:Had; [|done]. unfold record. destruct (sink_ok w); [|done].
  intros [= <- <-]. split; [done|]. split; [done|]. exists g1. split_and!; [done..|]. cbn. unfold measured_event.
  by rewrite Hj, Hi, Hc.
Qed.

Lemma handle_tunnelled w now r g g' t :
  handle w now r g = (g', Tunnelled t) →
  active g = true ∧ compiled g' = compiled g ∧ g'.(policy_cell) = g.(policy_cell) ∧ connect w g' r = Ok t.
Proof.
  unfold handle, deny. destruct (active g) eqn:Ha; [|done]. cbn [negb].
  pose proof (rate_frame now false g) as (Hc & _ & Hp & _).
  destruct (rate now false g) as [g1 rated]. cbn in Hc, Hp.
  destruct (is_ok rated); [|done]. cbn [negb]. destruct (precheck w r); [|done].
  case_bool_decide.
  - destruct (connect w g1 r) as [t'|] eqn:Hcn; [|done]. intros [= <- <-]. done.
  - destruct (admission w g1 r); [|done]. unfold record. by destruct (sink_ok w).
Qed.

End Admission.

(** ** Lemmas: metered copies *)
Lemma run_limits ls g : Forall (sane g) ls → (compiled (run g ls)).(cp_policy).(limits) = (compiled g).(cp_policy).(limits).
Proof.
  revert g. induction ls as [|l ls IH]; intros g Hs; [done|]. apply Forall_cons in Hs as [Hl Hs].
  simpl. rewrite IH; [by apply step_sane_limits|].
  eapply Forall_impl; [exact Hs|]. intros l'. apply sane_limits. by apply step_sane_limits.
Qed.

Definition sane_piece (g : Gateway) (p : Piece) : Prop := Forall (sane g) p.(between).

Lemma sane_piece_limits g g' p :
  (compiled g').(cp_policy).(limits) = (compiled g).(cp_policy).(limits) → sane_piece g p → sane_piece g' p.
Proof. intros Hl Hp. eapply Forall_impl; [exact Hp|]. intros l. by apply sane_limits. Qed.

Lemma debit_limits o n c r g :
  (compiled (debit o n c r g).1).(cp_policy).(limits) = (compiled g).(cp_policy).(limits).
Proof. unfold debit. cbv zeta. by repeat case_match. Qed.

Lemma body_cap_limits o g g' :
  (compiled g').(cp_policy).(limits) = (compiled g).(cp_policy).(limits) → body_cap o g' = body_cap o g.
Proof. intros Hl. unfold body_cap. by rewrite Hl. Qed.

Definition weight (l : list (list ascii)) : Z := foldr (λ s n, count s + n) 0 l.

Lemma weight_nonneg l : 0 ≤ weight l.
Proof. induction l; simpl; [lia|]. unfold count. lia. Qed.

Lemma pump_bounded outgoing ps : ∀ n g g' written finished,
  pump outgoing n ps g = (g', written, finished) → 0 ≤ n → body_cap outgoing g < u64_max →
  Forall (sane_piece g) ps →
  (∃ k, written = take k (bytes <$> ps)) ∧ n + weight written ≤ Z.max n (body_cap outgoing g).
Proof.
  induction ps as [|p ps IH]; intros n g g' written finished Hp Hn Hc Hs.
  - injection Hp as <- <- <-. split; [by exists O|simpl; lia].
  - apply Forall_cons in Hs as [Hsp Hs]. simpl in Hp.
    pose proof (run_limits _ _ Hsp) as Hl1.
    pose proof (debit_limits outgoing (count p.(bytes)) p.(p_cancelled) p.(p_granted) (run g p.(between))) as Hl2.
    destruct (debit outgoing _ _ _ _) as [g2 r]. cbn in Hl2. rewrite Hl1 in Hl2.
    rewrite (body_cap_limits outgoing g g2 Hl2) in Hp.
    destruct (_ || _ || _) eqn:Hstop in Hp; [injection Hp as <- <- <-; split; [by exists O|simpl; lia]|].
    destruct (pump outgoing _ ps g2) as [[g3 w] fin] eqn:Hrest. injection Hp as <- <- <-.
    rewrite !orb_false_iff, Z.ltb_ge in Hstop. destruct Hstop as [[_ Hcap] _].
    unfold saturating_add in *. assert (0 ≤ count p.(bytes)) by (unfold count; lia).
    apply IH in Hrest as [[k ->] Hw]; [|lia| |].
    + split; [by exists (S k)|]. rewrite (body_cap_limits outgoing g g2 Hl2) in Hw. cbn [weight foldr]. 
      change (foldr _ 0 ?l) with (weight l). lia.
    + by rewrite (body_cap_limits outgoing g g2 Hl2).
    + eapply Forall_impl; [exact Hs|]. intros q. by apply sane_piece_limits.
Qed.

Lemma parts_weight fuel s : weight (parts fuel s) ≤ count s.
Proof.
  revert s. induction fuel as [|fuel IH]; intros s; simpl; [unfold count; lia|].
  destruct (Z.leb_spec (count s) CHUNK); simpl; [lia|].
  specialize (IH (drop (Z.to_nat CHUNK) s)). change (foldr _ 0 ?l) with (weight l).
  unfold count, CHUNK in *. rewrite length_take, length_drop in *. lia.
Qed.

Lemma pass_on_bounded polls ps : ∀ g g' passed finished,
  pass_on polls ps g = (g', passed, finished) → Forall (sane_piece g) polls →
  weight passed ≤ weight ps ∧ (compiled g').(cp_policy).(limits) = (compiled g).(cp_policy).(limits).
Proof.
  revert polls. induction ps as [|part ps IH]; intros polls g g' passed finished Hp Hs.
  { destruct polls; by injection Hp as <- <- <-. }
  pose proof (weight_nonneg (part :: ps)). destruct polls as [|p polls]; [by injection Hp as <- <- <-|].
  simpl in Hp.
  apply Forall_cons in Hs as [Hsp Hs]. pose proof (run_limits _ _ Hsp) as Hl1.
  pose proof (debit_limits false (count part) p.(p_cancelled) p.(p_granted) (run g p.(between))) as Hl2.
  destruct (debit false _ _ _ _) as [g2 r]. cbn in Hl2. rewrite Hl1 in Hl2.
  destruct (negb (is_ok r)).
  - by injection Hp as <- <- <-.
  - destruct (pass_on polls ps g2) as [[g3 w] fin] eqn:Hrest. injection Hp as <- <- <-.
    apply IH in Hrest as [Hw Hl3]; [simpl; split; [lia|congruence]|].
    eapply Forall_impl; [exact Hs|]. intros q. by apply sane_piece_limits.
Qed.

Lemma weight_app l m : weight (l ++ m) = weight l + weight m.
Proof. induction l; simpl; [done|]. rewrite IHl. lia. Qed.

Lemma download_bounded items : ∀ n g g' passed finished,
  download n items g = (g', passed, finished) → 0 ≤ n → body_cap false g < u64_max →
  Forall (λ i, sane_piece g i.1 ∧ Forall (sane_piece g) i.2) items →
  n + weight passed ≤ Z.max n (body_cap false g).
Proof.
  induction items as [|[item polls] items IH]; intros n g g' passed finished Hp Hn Hc Hs.
  - injection Hp as <- <- <-. simpl. lia.
  - apply Forall_cons in Hs as [[Hsi Hsp] Hs]. cbn [download] in Hp. cbn [fst snd] in *. pose proof (run_limits _ _ Hsi) as Hl1.
    set (g1 := run g item.(between)) in *. rewrite (body_cap_limits false g g1 Hl1) in Hp.
    destruct (_ || _) eqn:Hstop in Hp; [injection Hp as <- <- <-; simpl; lia|].
    apply orb_false_iff in Hstop as [Hcap%Z.ltb_ge _].
    destruct (pass_on polls _ g1) as [[g2 w] fin] eqn:Hpass.
    apply pass_on_bounded in Hpass as [Hw Hl2];
      [|eapply Forall_impl; [exact Hsp|]; intros q; by apply sane_piece_limits].
    pose proof (parts_weight (S (length item.(bytes))) item.(bytes)) as Hpw.
    unfold saturating_add in *. assert (0 ≤ count item.(bytes)) by (unfold count; lia).
    destruct fin; cbn [negb] in Hp; [|injection Hp as <- <- <-; cbn [parts] in *; lia].
    destruct (download _ items g2) as [[g3 more] fin] eqn:Hrest. injection Hp as <- <- <-.
    assert (Hl : (compiled g2).(cp_policy).(limits) = (compiled g).(cp_policy).(limits)) by congruence.
    apply IH in Hrest; [|lia|by rewrite (body_cap_limits false g g2 Hl)|].
    + rewrite (body_cap_limits false g g2 Hl) in Hrest. rewrite weight_app. cbn [parts] in *. lia.
    + eapply Forall_impl; [exact Hs|]. intros [i q] [? Hq]. split; [by eapply sane_piece_limits|].
      eapply Forall_impl; [exact Hq|]. intros x. by apply sane_piece_limits.
Qed.

(** ** Theorems *)
Section Theorems.
Context `{IpNetLib, HttpLib, SerdeJson}.

(** What every request has passed before its route is looked at: a free slot, one host, no
    upgrade and no proxy credential, and no placeholder that is a canary. *)
Definition prechecked (w : World) (r : Request) : Prop :=
  w.(permit_free) = true
  ∧ (∃ host, get_all "host" r.(headers) = [host])
  ∧ (∀ n v, (n, v) ∈ r.(headers) → n ≠ "upgrade"%string ∧ n ≠ "proxy-authorization"%string)
  ∧ ∀ n v set name, (n, v) ∈ r.(headers) → w.(canaries) = Some set → presented v = Some name →
      credential_presented set name = None.

Lemma precheck_ok w r : precheck w r = Ok () → prechecked w r.
Proof.
  unfold precheck, forbidden_headers. intros Hp. ok_inv Hp. bools. split_and!; [done| |..].
  - match goal with Hc : (count _ =? 1) = true |- _ => apply Z.eqb_eq in Hc; unfold count in Hc end.
    destruct (get_all _ _) as [|host [|? ?]]; simpl in *; [lia|by exists host|lia].
  - intros n v Hin. split; intros ->; revert Hin; by apply has_header_false.
  - intros n v set name Hin Hset Hpr. unfold trips in *. rewrite Hset in *.
    match goal with Ht : existsb _ _ = false |- _ => rewrite existsb_false, Forall_forall in Ht; specialize (Ht _ Hin) end.
    cbn [snd] in *. rewrite Hpr in *. bools. by apply eq_None_not_Some.
Qed.


(** The headers that name a credential, a hop or a length. *)
Definition reserved_name (n : string) : Prop :=
  n ∈ ["authorization"; "x-api-key"; "proxy-authorization"; "host"; "content-length"; "connection";
       "proxy-connection"; "keep-alive"; "te"; "trailer"; "transfer-encoding"; "upgrade"]%string.

Definition holds_placeholder (v : list ascii) : Prop := ∃ a b, v = a ++ chars "placeholder://" ++ b.

(** The texts a binding puts in its header: the placeholder the guest sends, and the secret. *)
Definition under_scheme (b : CredentialBinding) (text : string) : string :=
  if bool_decide (b.(c_header) = "authorization"%string) then "Bearer " +:+ text else text.

Lemma sanitized_header (h : HeaderMap) n v :
  (n, v) ∈ sanitized h → (n, v) ∈ h ∧ ¬ reserved_name n.
Proof.
  intros (Hin & Hn & _)%elem_of_sanitized. split; [done|]. intros Hr. apply Hn. revert Hr. unfold reserved_name, STRIPPED.
  rewrite !elem_of_cons, elem_of_nil. tauto.
Qed.

Lemma placeholder_in_place `{!HttpLaws H0} b (h : HeaderMap) : placeholder_mismatch b h = false →
  get_all b.(c_header) h = [chars (under_scheme b ("placeholder://" +:+ b.(c_name)))]
  ∧ ∀ n v, (n, v) ∈ h → n ≠ b.(c_header) → ¬ holds_placeholder v.
Proof.
  unfold placeholder_mismatch. intros [[Hone%negb_false_iff%Z.eqb_eq Htext%negb_false_iff]%orb_false_iff Hno]%orb_false_iff. split.
  - apply bool_decide_eq_true in Htext. unfold text_of, get_header, count in *.
    assert (expected_placeholder b = under_scheme b ("placeholder://" +:+ c_name b)) as He
      by (unfold expected_placeholder, under_scheme; by case_bool_decide).
    destruct (get_all _ h) as [|v [|? ?]]; simpl in *; try lia. f_equal. symmetry. rewrite <-He. by apply to_str_bytes.
  - intros n v Hin Hn Hp%contains_iff. rewrite existsb_false, Forall_forall in Hno. specialize (Hno _ Hin).
    cbn [fst snd] in Hno. unfold carries_placeholder in Hno. change (chars "placeholder://") with PLACEHOLDER in Hp.
    by rewrite Hp, bool_decide_false, orb_true_r in Hno by done.
Qed.

(** C25: A secret only travels to the destination it is bound to.  Every header of a sent
    request is one the guest sent, which then names no credential, hop or length and holds no
    placeholder; or it is the one the broker injects: the request goes to the host and port of
    the model endpoint, the credential binding names exactly that destination, the guest sent
    that header once with the placeholder of the binding as its value, and what leaves in its
    place is the operator's secret under the binding's name. *)
Theorem secret_only_reaches_its_destination `{!HttpLaws H0} w now r g g' f e :
  handle w now r g = (g', Sent f) → e ∈ f.(f_headers) →
  (e ∈ r.(headers) ∧ ¬ reserved_name e.1 ∧ ¬ holds_placeholder e.2)
  ∨ f.(f_category) = Model
    ∧ ∃ m b secret, (compiled g).(cp_policy).(model) = Some m ∧ b ∈ (compiled g).(cp_policy).(credentials)
        ∧ b.(c_name) = m.(m_credential) ∧ b.(c_host) = f.(f_host) ∧ b.(c_port) = f.(f_port)
        ∧ w.(secrets) !! b.(c_name) = Some secret
        ∧ get_all b.(c_header) r.(headers) = [chars (under_scheme b ("placeholder://" +:+ b.(c_name)))]
        ∧ e = (b.(c_header), chars (under_scheme b secret)).
Proof.
  intros (_ & _ & g1 & [Hc _] & (t & Hroute & Hadm)%admit_ok & _)%handle_sent He. rewrite Hc in *.
  destruct Hadm as (_ & _ & Hcat & _ & Hh & Hpt & _ & _ & _ & Hhd & _). rewrite Hhd in He. destruct e as [n v].
  rewrite Hh, Hpt, Hcat. unfold route in Hroute. destruct (_ && _).
  - apply model_route_ok in Hroute as (_ & m & b & secret & x & ? & ? & ? & ? & ? & ? & Hx & [Hone Hno]%placeholder_in_place & Hhs & ?).
    rewrite Hhs in He. apply elem_of_insert_header in He as [[-> ->]|[Hn [He Hr]%sanitized_header]].
    + right. split; [done|]. exists m, b, secret. split_and!; try done. by rewrite (from_str_bytes _ _ Hx).
    + left. split_and!; [done..|]. by eapply Hno.
  - left. apply proxy_route_ok in Hroute as (_ & Hb & Hhs). rewrite Hhs in He.
    apply sanitized_header in He as [He Hr]. split_and!; [done..|]. intros Hp%contains_iff.
    destruct (brings_credentials_false _ Hb _ _ He) as (_ & _ & Hno). unfold carries_placeholder in Hno. cbn [fst snd] in *.
    change (chars "placeholder://") with PLACEHOLDER in Hp. congruence.
Qed.

(** A tunnel carries TLS to the host it was asked for.  A tunnel that is opened was asked
    for under an egress rule without method and path limits, the layer 7 rules leave its
    host ungoverned, every address it may dial passes the boundary, and the bytes
    forwarded first are exactly the records of one client hello whose server name is the
    host of the request; what the guest sent after them is untouched. *)
Theorem tunnel_reaches_the_named_host w w' now r g g' t stream g1 g2 hello rest :
  handle w now r g = (g', Tunnelled t) → open_tunnel w' t stream g1 = (g2, Some (hello, rest)) →
  active g = true
  ∧ (∃ rule, endpoint (compiled g) t.(t_host) t.(t_port) = Some rule ∧ rule.(e_methods) = [] ∧ rule.(e_paths) = [])
  ∧ is_model_host (compiled g) t.(t_host) = false
  ∧ allowed (tunnel_verdict g.(policy_cell).(active_l7) t.(t_host)) = true
  ∧ (∀ ip, ip ∈ t.(t_addresses) → check_destination (compiled g) t.(t_host) ip = Ok ())
  ∧ ∃ recs h, stream = hello ++ rest ∧ hello = flat_map encode_record recs
      ∧ flat_map r_fragment recs = message (encode_hello h) ∧ hello_ok h (chars t.(t_host)).
Proof.
  intros (Ha & Hc & Hp & Hcn)%handle_tunnelled Ho. unfold connect in Hcn. cbv zeta in Hcn.
  rewrite Hc, Hp in Hcn. ok_inv Hcn. injection Hcn as <-. unfold ok_or in *.
  destruct (endpoint _ _ _) as [rule|] eqn:Hr; [|done]. simplify_eq/=.
  repeat match goal with Hx : _ || _ = false |- _ => apply orb_false_iff in Hx as [? ?] end.
  destruct (resolve w (compiled g) _ _) as [ips|] eqn:Hres; [|done]. simplify_eq/=.
  apply resolve_ok in Hres as [_ Hips]. split_and!; [done| |done| |done|].
  - eexists. split; [done|].
    by split; [destruct (e_methods _)|destruct (e_paths _)].
  - by destruct (tunnel_verdict _ _).
  - unfold open_tunnel in Ho. destruct (read_client_hello stream) as [[[hl sni] rs]|] eqn:Hh; [|done].
    cbn [t_host] in Ho. case_bool_decide as Hsni; cbn [negb] in Ho; [|done]. subst sni.
    destruct (debit _ _ _ _ g1) as [g3 dr]. destruct (negb (is_ok dr)); [done|].
    destruct (_ <? _); [done|]. destruct (record _ _ g3) as [g4 rr]. destruct (is_ok rr); [|done].
    injection Ho as <- <- <-. unfold read_client_hello in Hh.
    apply read_records_sound in Hh as (recs & hello' & -> & -> & _ & _ & Hm & _ & Hsni).
    apply parse_sni_iff in Hsni as (h & Hok' & ->). exists recs, h. by split_and!.
Qed.

Lemma endpoint_respelled c canonical host port :
  canonical_name canonical 2 → eq_ignore_case (chars canonical) (chars host) = true →
  endpoint c host port = endpoint c canonical port.
Proof.
  intros [Hl Hs]%canonical_lower He%eq_ignore_case_iff. unfold endpoint.
  induction (egress (network (cp_policy c))) as [|r rules IH]; [done|]. cbn [List.find].
  assert (eq_ignore_case (chars (e_host r)) (chars host) = eq_ignore_case (chars (e_host r)) (chars canonical))
    as ->; [|by rewrite IH].
  apply eq_true_iff_eq. by rewrite !eq_ignore_case_iff, Hs, <-He.
Qed.

(** The model endpoint is reachable around the broker.  The proxy refuses the model's host
    by comparing spellings, but finds the egress rule without regard to case or a trailing
    dot; so a request for the model's host in another spelling is routed as an ordinary
    proxy request under the model's own rule: no credential binding is checked and the
    admission reserves no model request. *)
Theorem respelled_model_host_is_proxied w c m r a scheme rule :
  c.(cp_policy).(model) = Some m → canonical_name m.(m_host) 2 →
  r.(u_scheme) = Some scheme → scheme ∈ ["http"; "https"]%string → r.(u_authority) = Some a →
  a.(a_port) = Some m.(m_port) → a.(a_host) ≠ m.(m_host) →
  eq_ignore_case (chars m.(m_host)) (chars a.(a_host)) = true →
  L7.contains (chars "@") (chars a.(a_text)) = false → text_of "host" r.(headers) = Some a.(a_text) →
  brings_credentials r.(headers) = false →
  endpoint c m.(m_host) m.(m_port) = Some rule →
  safe_path r.(u_path) = true → r.(method) ∈ rule.(e_methods) → path_allowed r.(u_path) rule.(e_paths) = true →
  ∃ t, route w c r = Ok t ∧ t.(r_category) = Network ∧ t.(r_host) = a.(a_host) ∧ t.(r_port) = m.(m_port)
    ∧ t.(r_path) = r.(u_path) ∧ (admission_debit t.(r_category)).(d_model_requests) = 0.
Proof.
  intros Hm Hcn Hs Hsc Ha Hp Hne Heq Hat Hhost Hb He Hsafe Hmeth Hpath.
  unfold route, proxy_route, is_model_host. cbv zeta. rewrite Hs, bool_decide_false by done. cbn [andb].
  rewrite (bool_decide_true (scheme ∈ _)) by done. rewrite Ha. cbn -[safe_path path_allowed endpoint chars L7.contains text_of brings_credentials sanitized]. rewrite Hp. cbn -[safe_path path_allowed endpoint chars L7.contains text_of brings_credentials sanitized].
  rewrite Hat, Hhost, bool_decide_true by done. cbn -[safe_path path_allowed endpoint chars L7.contains text_of brings_credentials sanitized].
  rewrite Hb, Hm, bool_decide_false by congruence. rewrite (endpoint_respelled c m.(m_host)), He by done.
  cbn -[safe_path path_allowed sanitized]. rewrite Hsafe, Hpath, (bool_decide_true (method r ∈ _)), !andb_false_r by done.
  cbn -[path_allowed sanitized]. by eexists.
Qed.

(** Bodies are bounded and pass in order.  Whatever other tasks do in between (policy
    changes keep the limits), what an upload or one direction of a tunnel writes is an
    initial part of what was read, piece by piece, and within the policy's bound on a
    request or response body together with what was counted before; a downloaded
    response passes on at most the bound on a response body. *)
Theorem bodies_stay_bounded (g : Gateway) (outgoing : bool) (n : Z) (ps : list Piece)
    (items : list (Piece * list Piece)) :
  0 ≤ n → (∀ o, body_cap o g < u64_max) → Forall (sane_piece g) ps →
  Forall (λ i, sane_piece g i.1 ∧ Forall (sane_piece g) i.2) items →
  (∃ k, (pump outgoing n ps g).1.2 = take k (bytes <$> ps))
  ∧ n + weight (pump outgoing n ps g).1.2 ≤ Z.max n (body_cap outgoing g)
  ∧ weight (download 0 items g).1.2 ≤ Z.max 0 (body_cap false g).
Proof.
  intros Hn Hc Hs Hi. destruct (pump outgoing n ps g) as [[g1 written] fin] eqn:Hp.
  destruct (download 0 items g) as [[g2 passed] fin2] eqn:Hd. cbn [fst snd].
  apply pump_bounded in Hp as [Hk Hw]; [|done..]. apply download_bounded in Hd; [|done..].
  split_and!; [done|done|lia].
Qed.

(** The guest is answered with no redirect, no declared body above the limit, no cookie
    and no hop-by-hop header. *)
Lemma answer_is_clean w u g g' st h :
  respond w u g = (g', Answered st h) →
  g' = g ∧ st = u.(up_status) ∧ ¬ (300 ≤ st < 400)
  ∧ (∀ n, u.(up_length) = Some n → n ≤ (compiled g).(cp_policy).(limits).(max_response_bytes))
  ∧ ∀ name v, (name, v) ∈ h → name ≠ "set-cookie"%string ∧ name ∉ STRIPPED ∧ (name, v) ∈ u.(up_headers).
Proof.
  unfold respond. cbv zeta. destruct (_ && _) eqn:Hr; [done|]. destruct (match _ with Some _ => _ | None => _ end) eqn:Hl; [done|].
  intros [= <- <- <-]. apply andb_false_iff in Hr. rewrite Z.leb_gt, Z.ltb_ge in Hr.
  split_and!; [done|done|lia| |].
  - intros n Hn. rewrite Hn in Hl. by apply Z.ltb_ge in Hl.
  - intros name v Hin. apply list_elem_of_filter in Hin as [Hc Hs]. apply elem_of_sanitized in Hs as (? & ? & _). done.
Qed.

End Theorems.

(** ** Examples *)
Module SampleBroker.
Import Boundary.SampleNet L7.SampleL7.

#[global] Instance http_lib : HttpLib := {|
  to_str v := if forallb (λ b, in_range 32 126 b || (byte_of b =? 9)) v then Some (string_of v) else None;
  from_str s := if any_byte (λ b, (byte_of b <? 32) || (byte_of b =? 127)) s then None else Some (chars s);
  to_bytes b limit := if b.(broken) || (limit <? count (content b)) then None else Some (content b) |}.

#[global] Instance http_laws : HttpLaws http_lib.
Proof.
  split; simpl.
  - intros v s. case_match; [|done]. intros [= <-]. apply chars_string_of.
  - intros s v. case_match; [done|]. by intros [= <-].
  - intros b limit s. destruct b.(broken); simpl; [done|]. case_match; [done|]. by intros [= <-].
Qed.

Definition endpoint_model : ModelEndpoint := model_with_paths ["/v1/"%string].
Definition model_policy : GuardPolicy :=
  match template ModelOnly (Some endpoint_model) [] with Ok p => normalized p | Err _ => sample_policy end.
Definition compiled_model : CompiledPolicy := {|
  cp_policy := model_policy; policy_hash := "h"; boundary := sample_boundary |}.

Definition gateway : Gateway :=
  step (install_policy {| active_compiled := compiled_model; active_l7 := None |} SampleGateway.started)
       (LBeat (seconds 1)).

Definition world : World := {|
  broker := "10.0.0.1:3128"; permit_free := true; canaries := Some SampleCanaries.set;
  secrets := {[ DEFAULT_CREDENTIAL_BINDING := "s3cret"%string ]};
  lookup_host := Some [V4 (ip4 1 1 1 1)]; cancelled := false; granted := Ok (); client_built := true;
  sink_ok := true |}.

Definition header (n v : string) : string * list ascii := (n, chars v).

Definition model_request : Request := {|
  method := "POST"; u_scheme := None; u_authority := None; u_path := "/model/model-main/v1/chat";
  u_query := None;
  headers := [header "host" "10.0.0.1:3128"; header "authorization" "Bearer placeholder://model-main"]; r_body := buffered (chars "{}") |}.

(** The model's host with one letter in upper case. *)
Definition respelled : Authority := {|
  a_text := "Api.example.com:443"; a_host := "Api.example.com"; a_port := Some 443 |}.
Definition proxy_request : Request := {|
  method := "POST"; u_scheme := Some "https"%string; u_authority := Some respelled; u_path := "/v1/chat";
  u_query := None; headers := [header "host" "Api.example.com:443"]; r_body := buffered [] |}.

Definition sent : Forward := {|
  f_category := Model; f_scheme := "https"; f_host := "api.example.com"; f_port := 443; f_path := "/v1/chat";
  f_query := None; f_method := "POST"; f_headers := [header "authorization" "Bearer s3cret"]; f_body := buffered (chars "{}");
  f_addresses := [V4 (ip4 1 1 1 1)]; f_debit := admission_debit Model |}.

Lemma model_request_sent : (handle world (seconds 2) model_request gateway).2 = Sent sent.
Proof. vm_compute. reflexivity. Qed.


Lemma secret_only_reaches_its_destination_witness :
  header "authorization" "Bearer placeholder://model-main" ∈ model_request.(headers)
  ∧ ∃ b secret, world.(secrets) !! b.(c_name) = Some secret
    ∧ header "authorization" "Bearer s3cret" = (b.(c_header), chars (under_scheme b secret)).
Proof.
  split; [right; left|]. destruct (handle world (seconds 2) model_request gateway) as [g' o] eqn:Hh.
  pose proof model_request_sent as Ho. rewrite Hh in Ho. cbn in Ho. subst o.
  destruct (secret_only_reaches_its_destination _ _ _ _ _ _ (header "authorization" "Bearer s3cret") Hh)
    as [(_ & Hr & _)|(_ & m & b & secret & _ & _ & _ & _ & _ & ? & _ & ?)].
  - left.
  - destruct Hr. left.
  - exists b, secret. split; assumption.
Defined.

Definition opaque_rule : EgressRule := {|
  e_host := "allowed.example"; e_port := 443; e_protocol := EGRESS_PROTOCOL_TCP; e_methods := []; e_paths := [] |}.
Definition opaque : CompiledPolicy := {|
  cp_policy := {| version := 1;
    network := {| dns := {| allowed_zones := ["allowed.example"%string]; allowed_record_types := ["A"%string] |};
                  egress := [opaque_rule] |};
    Policy.model := None; credentials := []; limits := default_limits |};
  policy_hash := "h"; boundary := sample_boundary |}.
Definition opaque_gateway : Gateway :=
  install_policy {| active_compiled := opaque; active_l7 := None |} gateway.
Definition connect_request : Request := {|
  method := "CONNECT"; u_scheme := None;
  u_authority := Some {| a_text := "allowed.example:443"; a_host := "allowed.example"; a_port := Some 443 |};
  u_path := ""; u_query := None; headers := [header "host" "allowed.example:443"]; r_body := buffered [] |}.
Definition tunnel : Tunnel := {|
  t_host := "allowed.example"; t_port := 443; t_addresses := [V4 (ip4 1 1 1 1)] |}.

Lemma tunnel_reaches_the_named_host_witness :
  ∃ recs h rest hello, sample_stream = hello ++ rest ∧ hello = flat_map encode_record recs
    ∧ flat_map r_fragment recs = message (encode_hello h) ∧ hello_ok h (chars "allowed.example").
Proof.
  assert (Hh : ∃ g', handle world (seconds 2) connect_request opaque_gateway = (g', Tunnelled tunnel))
    by (eexists; vm_compute; reflexivity).
  destruct Hh as [g' Hh].
  destruct (open_tunnel world tunnel sample_stream opaque_gateway) as [g2 [[hello rest]|]] eqn:Ho.
  - destruct (tunnel_reaches_the_named_host _ _ _ _ _ _ _ _ _ _ _ _ Hh Ho)
      as (_ & _ & _ & _ & _ & recs & h & ? & ? & ? & ?).
    exists recs, h, rest, hello. split_and!; assumption.
  - exfalso. apply (f_equal (λ x, bool_decide (x.2 = None))) in Ho. vm_compute in Ho. discriminate.
Defined.

Lemma respelled_model_host_is_proxied_witness :
  ∃ t, route world compiled_model proxy_request = Ok t ∧ t.(r_category) = Network.
Proof.
  destruct (respelled_model_host_is_proxied world compiled_model endpoint_model proxy_request respelled
    "https" (from_model endpoint_model)) as (t & ? & ? & _);
    try (vm_compute; reflexivity).
  - apply validate_dns_name_iff. vm_compute. reflexivity.
  - right. left.
  - discriminate.
  - left.
  - exists t. split; assumption.
Defined.

Lemma bodies_stay_bounded_witness :
  weight (pump true 0 [{| between := [LBeat (seconds 2)]; bytes := chars "hello"; p_cancelled := false;
                          p_granted := Ok () |}] gateway).1.2 ≤ default_limits.(max_request_bytes).
Proof.
  assert (Hl : limits (cp_policy (compiled gateway)) = default_limits) by (vm_compute; reflexivity).
  eapply Z.le_trans; [eapply (bodies_stay_bounded gateway true 0 [_] [])|].
  - lia.
  - intros o. unfold body_cap. rewrite Hl. by destruct o.
  - by repeat constructor.
  - constructor.
  - unfold body_cap. rewrite Hl. by vm_compute.
Defined.

End SampleBroker.
