(* ===== verification/Dns.v ===== *)
(** * Dns: the resolver that answers for the policy

    [crates/aiec-guard/src/dns.rs]: the check that a packet is one plain question, and
    [answer], which decides what a guest's question is told.  The [hickory] message codec
    is a parameter ([DnsCodec]); budgets, rate and journal are those of the gateway, and
    resolution is the broker's.  A question for a canary's name is refused once the
    containment it started has answered; the cut that containment makes is in [Canaries]
    and not in the state [answer] returns. *)

From Stdlib Require Import Ascii.
From S2P Require Import Prelude Policy Events Boundary L7 Text Sni Store Proposals Gateway Canaries Broker.

Definition DNS_FRAME : Z := 4096.

(** ** The shape of a question *)

(** [usize::from(length > 0)]: the dot before every label but the first. *)
Definition separator (length : Z) : Z := if 0 <? length then 1 else 0.

Definition all_zero (s : list ascii) : bool := forallb (λ b, byte_of b =? 0) s.

(** One option-free OPT record. *)
Definition opt_valid (opt : list ascii) : bool :=
  match opt with
  | [o0; o1; o2; _; _; o5; o6; o7; o8; o9; o10] =>
      all_zero [o0; o1] && (byte_of o2 =? 41) && all_zero [o5; o6; o7; o8; o9; o10]
  | _ => false
  end.

(** The loop over the labels, from what is left of the packet. *)
Fixpoint labels_valid (fuel : nat) (additional : bool) (s : list ascii) (length_so_far : Z) : bool :=
  match fuel with
  | O => false
  | S fuel =>
      match s with
      | [] => false
      | size :: s =>
          if byte_of size =? 0 then
            if (253 <? length_so_far) || (count s <? 4) then false
            else if negb additional then count s =? 4 else opt_valid (drop 4 s)
          else if (63 <? byte_of size) || (count s <? byte_of size) then false
          else
            let l := length_so_far + (byte_of size + separator length_so_far) in
            if 253 <? l then false
            else labels_valid fuel additional (drop (Z.to_nat (byte_of size)) s) l
      end
  end.

Definition raw_question_valid (bytes : list ascii) : bool :=
  match bytes with
  | _ :: _ :: _ :: _ :: b4 :: b5 :: b6 :: b7 :: b8 :: b9 :: b10 :: b11 :: rest =>
      if (count bytes <? 17) || negb (byte_of b4 =? 0) || negb (byte_of b5 =? 1)
         || negb (all_zero [b6; b7; b8; b9])
         || negb ((byte_of b10 =? 0) && ((byte_of b11 =? 0) || (byte_of b11 =? 1)))
      then false
      else labels_valid (S (length rest)) (negb (byte_of b11 =? 0)) rest 0
  | _ => false
  end.

(** ** Messages *)
(** A name in its wire spelling ([to_ascii]) and decoded ([to_utf8]). *)
Record Question := { q_name : string; q_utf8 : string; q_type : Z; q_class : Z }.

Record DnsMessage := {
  is_query : bool; opcode_is_query : bool; queries : list Question; answers_empty : bool;
  name_servers_empty : bool; additionals_empty : bool }.

Inductive ResponseCode := NoError | FormErr | NXDomain | DnsRefused.
#[global] Instance ResponseCode_eq_dec : EqDecision ResponseCode. Proof. solve_decision. Defined.

Record Reply := {
  reply_id : Z; code : ResponseCode; question : option Question; addresses : list IpAddr; truncated : bool }.

Class DnsCodec := {
  from_vec : list ascii → option DnsMessage;
  to_vec : Reply → option (list ascii) }.

(** [RecordType]'s number and name of the two types that are answered. *)
Definition TYPE_A : Z := 1.
Definition TYPE_AAAA : Z := 28.
Definition CLASS_IN : Z := 1.

(** ** The decision *)

(** [trim_end_matches('.')], case folded. *)
Definition query_name (q : Question) : string :=
  string_of (to_ascii_lowercase <$> trim_end_char dot (chars q.(q_name))).

Definition valid_query_label (label : list ascii) : bool :=
  negb (bool_decide (label = [])) && (count label <=? 63)
  && negb (bool_decide (head label = Some "-"%char)) && negb (bool_decide (last label = Some "-"%char))
  && forallb (λ b, is_ascii_lowercase b || is_ascii_digit b || is_char "-" b) label.

Definition valid_name (name : string) : bool :=
  (slen name <=? 253) && negb (is_empty name) && forallb valid_query_label (split_on dot (chars name)).

(** What the question is told and what the journal says of it. *)
Record Decided := {
  d_code : ResponseCode; d_question : option Question; d_addresses : list IpAddr; d_decision : Decision;
  d_why : string; d_name : option string }.

Definition refused (code : ResponseCode) (q : option Question) (why : string) (name : option string) : Decided := {|
  d_code := code; d_question := q; d_addresses := []; d_decision := Deny; d_why := why; d_name := name |}.

(** The addresses of the asked type, each once, in the order resolved. *)
Fixpoint of_type (kind : Z) (seen ips : list IpAddr) : list IpAddr :=
  match ips with
  | [] => []
  | ip :: ips =>
      if bool_decide (ip ∈ seen) then of_type kind seen ips
      else
        match ip with
        | V4 _ => if kind =? TYPE_A then ip :: of_type kind (ip :: seen) ips else of_type kind (ip :: seen) ips
        | V6 _ => if kind =? TYPE_AAAA then ip :: of_type kind (ip :: seen) ips else of_type kind (ip :: seen) ips
        end
  end.

(** What the outside answers while one packet is handled: [lookup_failed] says that a
    lookup without an answer failed and did not time out, [observed] what became of a
    canary's containment and its record ([Canaries.observe]). *)
Record DnsWorld := {
  dw_world : World; bind_ip : Z; lookup_failed : bool; observed : result GuardError.t (); elapsed : Z;
  first_debit : bool * result GuardError.t (); second_debit : bool * result GuardError.t () }.

Section Answer.
Context `{IpNetLib, DnsCodec}.

Definition type_name (kind : Z) : option string :=
  if kind =? TYPE_A then Some "A"%string else if kind =? TYPE_AAAA then Some "AAAA"%string else None.

Definition type_permitted (c : CompiledPolicy) (kind : Z) : bool :=
  match type_name kind with
  | Some t => bool_decide (t ∈ c.(cp_policy).(network).(dns).(allowed_record_types))
  | None => false
  end.

(** The port of the first rule for the name, with which it is resolved. *)
Definition rule_port (c : CompiledPolicy) (name : string) : option Z :=
  e_port <$> List.find (λ r, bool_decide (r.(e_host) = name)) c.(cp_policy).(network).(egress).

Definition resolved (w : DnsWorld) (c : CompiledPolicy) (q : Question) (name : string) (port : Z) : Decided :=
  let to_model := is_model_host c name in
  let answered := if to_model then Ok [V4 w.(bind_ip)] else resolve w.(dw_world) c name port in
  match answered with
  | Ok ips =>
      match of_type q.(q_type) [] ips with
      | [] => refused NXDomain (Some q) "DNS NXDOMAIN" (Some name)
      | found => {| d_code := NoError; d_question := Some q; d_addresses := found; d_decision := Allow;
                    d_why := if to_model then "DNS model points to gateway" else "DNS validated destination";
                    d_name := Some name |}
      end
  | Err _ =>
      if bool_decide (test_addresses c.(boundary) name port = [])
         && match w.(dw_world).(lookup_host) with None => w.(lookup_failed) | Some _ => false end
      then refused NXDomain (Some q) "DNS NXDOMAIN" (Some name)
      else refused DnsRefused (Some q) "DNS resolved destination denied" (Some name)
  end.

Definition decide_question (w : DnsWorld) (c : CompiledPolicy) (q : Question) : Decided :=
  let name := query_name q in
  if negb (valid_name name) then refused FormErr (Some q) "DNS name too long or malformed" None
  else if negb (q.(q_class) =? CLASS_IN) then refused FormErr (Some q) "malformed DNS query" (Some name)
  else if negb (type_permitted c q.(q_type)) then refused DnsRefused (Some q) "DNS record type denied" (Some name)
  else
    match rule_port c name with
    | Some port =>
        if negb (allows_dns c name q.(q_type)) then refused DnsRefused (Some q) "DNS name denied" (Some name)
        else resolved w c q name port
    | None => refused DnsRefused (Some q) "DNS name denied" (Some name)
    end.

(** A canary trips when its name is asked for and its containment answered. *)
Definition canary_trip (w : DnsWorld) (m : DnsMessage) : bool :=
  match w.(dw_world).(canaries), head m.(queries) with
  | Some set, Some q => bool_decide (is_Some (hostname_resolved set q.(q_utf8))) && is_ok w.(observed)
  | _, _ => false
  end.

Definition shape_valid (m : DnsMessage) (bytes : list ascii) : bool :=
  m.(is_query) && m.(opcode_is_query) && (count m.(queries) =? 1) && m.(answers_empty)
  && m.(name_servers_empty) && m.(additionals_empty) && raw_question_valid bytes.

Definition decide_message (w : DnsWorld) (c : CompiledPolicy) (bytes : list ascii) : Decided :=
  if (DNS_FRAME <? count bytes) || (count bytes <? 12) || negb (raw_question_valid bytes)
  then refused FormErr None "malformed DNS query" None
  else
    match from_vec bytes with
    | None => refused FormErr None "malformed DNS query" None
    | Some m =>
        let tripped := canary_trip w m in
        let why := if tripped then "canary hostname refused"%string else "malformed DNS query"%string in
        if negb (shape_valid m bytes) then refused FormErr None why None
        else if tripped then refused DnsRefused (head m.(queries)) why None
        else match head m.(queries) with
             | Some q => decide_question w c q
             | None => refused FormErr None why None
             end
    end.

(** [u16::from_be_bytes] of the first two bytes. *)
Definition message_id (bytes : list ascii) : Z :=
  match bytes with a :: b :: _ => byte_of a * 256 + byte_of b | _ => 0 end.

Definition dns_event (w : DnsWorld) (g : Gateway) (d : Decision) (why : string) (name : option string)
    (sent received : Z) : EventInput := measured_event g Dns d why name sent received w.(elapsed).

(** The reply on the wire: over UDP one that does not fit loses its answers. *)
Definition encode (tcp : bool) (r : Reply) : result GuardError.t (list ascii) :=
  let? wire := ok_or (to_vec r) GuardError.Unavailable in
  if negb tcp && (512 <? count wire)
  then ok_or (to_vec {| reply_id := r.(reply_id); code := r.(code); question := r.(question);
                        addresses := []; truncated := true |}) GuardError.Unavailable
  else Ok wire.

Definition answer (w : DnsWorld) (now : Instant) (bytes : list ascii) (tcp : bool)
    : Gateway → Gateway * result GuardError.t (option (list ascii)) := λ g,
  let ok := w.(dw_world).(sink_ok) in
  let '(g, debited) := debit true (count bytes) w.(first_debit).1 w.(first_debit).2 g in
  if negb (is_ok debited) then
    let '(g, r) := record ok (dns_event w g Deny "DNS outbound byte budget exhausted" None (count bytes) 0) g in
    (g, let? _ := r in Ok None)
  else
    let '(g, d) :=
      if negb (active g) then (g, refused DnsRefused None "gateway cut" None)
      else
        let '(g, rated) := rate now true g in
        (g, if is_ok rated then decide_message w (compiled g) bytes
            else refused DnsRefused None "DNS rate exhausted" None) in
    match encode tcp {| reply_id := message_id bytes; code := d.(d_code); question := d.(d_question);
                        addresses := d.(d_addresses); truncated := false |} with
    | Err e => (g, Err e)
    | Ok wire =>
        let '(g, debited) := debit false (count wire) w.(second_debit).1 w.(second_debit).2 g in
        if negb (is_ok debited) then
          let '(g, r) := record ok (dns_event w g Deny "DNS inbound byte budget exhausted" d.(d_name)
                                      (count bytes) 0) g in
          (g, let? _ := r in Ok None)
        else
          let '(g, r) := record ok (dns_event w g d.(d_decision) d.(d_why) d.(d_name) (count bytes)
                                      (count wire)) g in
          (g, let? _ := r in Ok (Some wire))
    end.

(** One turn of [serve_udp]: what is sent back to [peer]. *)
Definition udp_packet (w : DnsWorld) (now : Instant) (guest_ip : Z) (peer : IpAddr) (bytes : list ascii)
    : Gateway → Gateway * result GuardError.t (option (list ascii)) := λ g,
  if negb (bool_decide (peer = V4 guest_ip)) then
    let '(g, r) := record w.(dw_world).(sink_ok)
                     (measured_event g Dns Deny "DNS guest source mismatch" None (count bytes) 0 0) g in
    (g, let? _ := r in Ok None)
  else
    let '(g, r) := answer w now bytes false g in
    (g, let? reply := r in Ok (if active g then reply else None)).

(** The length is written as [u16]. *)
Definition framed (wire : list ascii) : list ascii :=
  u8 (count wire / 256 mod 256) :: u8 (count wire mod 256) :: wire.

(** One connection of [serve_tcp], with [size] the length its client announced and
    [bytes] what was then read: the frame that is written back. *)
Definition tcp_connection (w : DnsWorld) (now : Instant) (guest_ip : Z) (peer : IpAddr) (size : Z)
    (bytes : option (list ascii)) : Gateway → Gateway * result GuardError.t (option (list ascii)) := λ g,
  let ok := w.(dw_world).(sink_ok) in
  if negb (bool_decide (peer = V4 guest_ip)) then
    let '(g, r) := record ok (measured_event g Dns Deny "DNS guest source mismatch" None 0 0 0) g in
    (g, let? _ := r in Ok None)
  else if negb w.(dw_world).(permit_free) then (g, Ok None)
  else if (size =? 0) || (DNS_FRAME <? size) then
    let '(g, _) := rate now true g in
    let '(g, _) := debit true 2 w.(first_debit).1 w.(first_debit).2 g in
    let '(g, r) := record ok (measured_event g Dns Deny "DNS TCP frame too large or empty" None 2 0 0) g in
    (g, let? _ := r in Ok None)
  else
    match bytes with
    | None => (g, Err GuardError.Io)
    | Some bytes =>
        let '(g, r) := answer w now bytes true g in
        (g, let? reply := r in Ok (framed <$> reply))
    end.

End Answer.

(** ** The abstract syntax of a question *)
Record RawQuestion := {
  rq_id : list ascii; rq_flags : list ascii; rq_labels : list (list ascii); rq_type_class : list ascii;
  rq_opt : option (list ascii) }.

Definition encode_label (l : list ascii) : list ascii := u8 (count l) :: l.

(** An OPT record has a payload size and otherwise fixed bytes. *)
Definition encode_opt (o : option (list ascii)) : list ascii :=
  match o with None => [] | Some size => [u8 0; u8 0; u8 41] ++ size ++ repeat (u8 0) 6 end.

Definition encode_question (q : RawQuestion) : list ascii :=
  q.(rq_id) ++ q.(rq_flags) ++ [u8 0; u8 1; u8 0; u8 0; u8 0; u8 0; u8 0;
    match q.(rq_opt) with None => u8 0 | Some _ => u8 1 end]
  ++ concat (encode_label <$> q.(rq_labels)) ++ u8 0 :: q.(rq_type_class) ++ encode_opt q.(rq_opt).

(** The length of the dotted name. *)
Fixpoint dotted (n : Z) (ls : list (list ascii)) : Z :=
  match ls with [] => n | l :: ls => dotted (n + (count l + separator n)) ls end.

Definition label_ok (l : list ascii) : Prop := 0 < count l ≤ 63.

Definition question_ok (q : RawQuestion) : Prop :=
  count q.(rq_id) = 2 ∧ count q.(rq_flags) = 2 ∧ count q.(rq_type_class) = 4
  ∧ Forall label_ok q.(rq_labels) ∧ dotted 0 q.(rq_labels) ≤ 253
  ∧ match q.(rq_opt) with None => True | Some size => count size = 2 end.

(** ** Lemmas: the shape of a question *)
Lemma byte_eq c z : 0 ≤ z < 256 → byte_of c =? z = bool_decide (c = u8 z).
Proof.
  intros Hz. apply eq_true_iff_eq. rewrite Z.eqb_eq, bool_decide_eq_true. split.
  - intros Hc. apply byte_of_inj. by rewrite byte_of_u8.
  - intros ->. by apply byte_of_u8.
Qed.

Lemma separator_range n : 0 ≤ separator n ≤ 1.
Proof. unfold separator. case_match; lia. Qed.

Lemma dotted_le n ls : 0 ≤ n → n ≤ dotted n ls.
Proof.
  revert n. induction ls as [|l ls IH]; intros n Hn; simpl; [lia|].
  assert (0 ≤ count l) by (unfold count; lia). pose proof (separator_range n).
  specialize (IH (n + (count l + separator n))). lia.
Qed.

Lemma count_length (l : list ascii) n : count l = Z.of_nat n ↔ length l = n.
Proof. unfold count. lia. Qed.

Lemma opt_valid_iff opt : opt_valid opt = true ↔ ∃ size, count size = 2 ∧ opt = encode_opt (Some size).
Proof.
  unfold opt_valid, all_zero. split.
  - intros Ho. do 11 (destruct opt as [|? opt]; [done|]). destruct opt; [|done]. cbn [forallb] in Ho.
    rewrite !byte_eq in Ho by lia. rewrite !andb_true_iff, !bool_decide_eq_true in Ho.
    destruct_and!. subst. eexists [_; _]. split; done.
  - intros (size & Hs & ->). apply (count_length size 2) in Hs. destruct size as [|a [|b [|]]]; try done.
Qed.

(** What follows the header of a valid question. *)
Definition tail_of (additional : bool) (n : Z) (s : list ascii) : Prop :=
  ∃ labels tc opt, s = concat (encode_label <$> labels) ++ u8 0 :: tc ++ encode_opt opt
    ∧ Forall label_ok labels ∧ dotted n labels ≤ 253 ∧ count tc = 4
    ∧ match opt with None => additional = false | Some size => additional = true ∧ count size = 2 end.

Lemma labels_valid_sound fuel additional : ∀ s n,
  0 ≤ n → labels_valid fuel additional s n = true → tail_of additional n s.
Proof.
  induction fuel as [|fuel IH]; intros s n Hn Hv; [done|]. cbn [labels_valid] in Hv.
  destruct s as [|size s]; [done|]. destruct (byte_of size =? 0) eqn:Hz.
  - rewrite byte_eq in Hz by lia. apply bool_decide_eq_true in Hz as ->.
    destruct (_ || _) eqn:Hb in Hv; [done|]. apply orb_false_iff in Hb as [Hb1%Z.ltb_ge Hb2%Z.ltb_ge].
    destruct additional; cbn [negb] in Hv.
    + apply opt_valid_iff in Hv as (sz & Hsz & Hd). exists [], (take 4 s), (Some sz).
      change (concat (encode_label <$> [])) with (@nil ascii). cbn [app dotted]. rewrite <-Hd, take_drop. split_and!; [done|constructor|done| |done|done].
      unfold count in *. rewrite length_take. lia.
    + apply Z.eqb_eq in Hv. exists [], s, None. simpl. rewrite app_nil_r. by split_and!; try constructor.
  - destruct (_ || _) eqn:Hb in Hv; [done|]. apply orb_false_iff in Hb as [Hb1%Z.ltb_ge Hb2%Z.ltb_ge].
    destruct (253 <? _) eqn:Hl; [done|]. pose proof (byte_of_range size) as Hr. apply Z.eqb_neq in Hz.
    apply IH in Hv as (labels & tc & opt & Hs & Hok & Hd & Htc & Ho);
      [|pose proof (separator_range n); lia].
    set (k := Z.to_nat (byte_of size)) in *.
    assert (Hk : count (take k s) = byte_of size) by (unfold count in *; rewrite length_take; lia).
    exists (take k s :: labels), tc, opt. rewrite fmap_cons. cbn [concat dotted]. rewrite Hk.
    split_and!; [|constructor; [unfold label_ok; lia|done]|done..].
    unfold encode_label at 1. rewrite Hk. cbn [app]. f_equal.
    + symmetry. apply byte_of_inj. by rewrite byte_of_u8.
    + rewrite <-app_assoc, <-Hs. by rewrite take_drop.
Qed.

Lemma labels_valid_complete additional labels : ∀ fuel n tc opt,
  let s := concat (encode_label <$> labels) ++ u8 0 :: tc ++ encode_opt opt in
  (length s < fuel)%nat → 0 ≤ n → Forall label_ok labels → dotted n labels ≤ 253 → count tc = 4 →
  match opt with None => additional = false | Some size => additional = true ∧ count size = 2 end →
  labels_valid fuel additional s n = true.
Proof.
  induction labels as [|l labels IH]; intros fuel n tc opt s Hf Hn Hok Hd Htc Ho; unfold s in *; clear s;
    (destruct fuel as [|fuel]; [lia|]); cbn [labels_valid].
  - change (concat (encode_label <$> [])) with (@nil ascii). cbn [app dotted] in *.
    rewrite byte_of_u8 by lia. cbn [Z.eqb]. rewrite (proj2 (Z.ltb_ge _ _)) by lia. cbn [orb].
    assert (Hlen : length tc = 4%nat) by (by apply (count_length tc 4)).
    unfold count at 1. rewrite length_app, (proj2 (Z.ltb_ge _ _)) by lia.
    destruct opt as [size|].
    + destruct Ho as [-> Hs]. cbn [negb]. rewrite drop_app_le, (drop_ge tc) by lia. apply opt_valid_iff. by exists size.
    + subst. cbn [negb encode_opt]. rewrite app_nil_r. by apply Z.eqb_eq.
  - apply Forall_cons in Hok as [Hl Hok]. unfold label_ok in Hl. rewrite fmap_cons. cbn [concat app].
    unfold encode_label at 1. cbn [app dotted] in *. rewrite byte_of_u8 by lia.
    rewrite (proj2 (Z.eqb_neq _ _)) by lia. rewrite <-app_assoc.
    assert (Hle := dotted_le (n + (count l + separator n)) labels).
    pose proof (separator_range n).
    rewrite !(proj2 (Z.ltb_ge _ _)) by (rewrite ?count_app; unfold count in *; rewrite ?length_app; lia). cbn [orb].
    replace (Z.to_nat (count l)) with (length l) by (unfold count; lia). rewrite drop_app_length.
    apply IH; try done; [|lia]. rewrite fmap_cons in Hf. cbn [concat encode_label app length] in Hf.
    rewrite <-app_assoc, !length_app in Hf. rewrite !length_app. simpl in *. rewrite ?length_app in *. lia.
Qed.

(** The packet filter accepts exactly the plain questions: a header with one question
    and no records but an optional OPT, labels of 1 to 63 bytes written out in full with
    a dotted length of at most 253, a type and a class, at most one option-free OPT
    record, and nothing after it.  No compression pointer and no trailing byte passes. *)
Theorem raw_question_valid_exact (bytes : list ascii) :
  raw_question_valid bytes = true ↔ ∃ q, question_ok q ∧ bytes = encode_question q.
Proof.
  split.
  - intros Hv. do 12 (destruct bytes as [|? bytes]; [done|]). cbn [raw_question_valid] in Hv.
    destruct (_ || _) eqn:Hb in Hv; [done|]. rewrite !orb_false_iff, !negb_false_iff in Hb.
    destruct Hb as [[[[_ H4] H5] Hz] H10]. cbn [all_zero forallb] in Hz.
    rewrite !byte_eq in Hz by lia. rewrite !byte_eq in H10 by lia. rewrite byte_eq in H4, H5, Hv by lia.
    rewrite !andb_true_iff, !bool_decide_eq_true in Hz.
    rewrite andb_true_iff, orb_true_iff, !bool_decide_eq_true in H10.
    apply bool_decide_eq_true in H4, H5. destruct H10 as [-> H11]. destruct_and!. subst.
    apply labels_valid_sound in Hv as (labels & tc & opt & -> & Hok & Hd & Htc & Ho); [|lia].
    eexists {| rq_id := [_; _]; rq_flags := [_; _]; rq_labels := labels; rq_type_class := tc; rq_opt := opt |}.
    split; [by split_and!; try done; destruct opt; destruct_and?|].
    unfold encode_question. cbn -[encode_opt encode_label concat u8]. do 11 f_equal.
    destruct opt, H11 as [->| ->]; destruct_and?; done.
  - intros (q & (Hid & Hfl & Htc & Hok & Hd & Ho) & ->). destruct q as [id fl labels tc opt]. cbn in Hid, Hfl, Htc, Hok, Hd, Ho.
    apply (count_length _ 2) in Hid, Hfl. destruct id as [|? [|? [|]]]; try done.
    destruct fl as [|? [|? [|]]]; try done. unfold encode_question. cbn [rq_id rq_flags rq_labels rq_type_class rq_opt app].
    cbn [raw_question_valid all_zero forallb].
    rewrite (proj2 (Z.ltb_ge _ 17)) by (unfold count in *; cbn [length]; rewrite length_app; cbn [length]; rewrite length_app; lia).
    rewrite labels_valid_complete with (opt := opt); try done; [by destruct opt|lia|by destruct opt].
Qed.

(** ** What is answered *)
Section AnswerLemmas.
Context `{IpNetLib, DnsCodec}.

(** The addresses [ips] may be told to who asks [q]: a rule and a zone admit the name,
    the policy the type, and every address has the asked family and passes the boundary,
    or is the gateway's own for the model's name. *)
Definition tellable (w : DnsWorld) (c : CompiledPolicy) (q : Question) (ips : list IpAddr) : Prop :=
  (∃ r, r ∈ c.(cp_policy).(network).(egress) ∧ r.(e_host) = query_name q)
  ∧ allows_dns c (query_name q) q.(q_type) = true ∧ q.(q_class) = CLASS_IN
  ∧ NoDup ips
  ∧ Forall (λ ip, match ip with V4 _ => q.(q_type) = TYPE_A | V6 _ => q.(q_type) = TYPE_AAAA end) ips
  ∧ Forall (λ ip, is_model_host c (query_name q) = true ∧ ip = V4 w.(bind_ip)
                  ∨ is_model_host c (query_name q) = false ∧ check_destination c (query_name q) ip = Ok ()) ips.

Lemma of_type_spec kind ips : ∀ seen,
  NoDup (of_type kind seen ips)
  ∧ Forall (λ ip, ip ∉ seen ∧ ip ∈ ips ∧ match ip with V4 _ => kind = TYPE_A | V6 _ => kind = TYPE_AAAA end)
      (of_type kind seen ips).
Proof.
  induction ips as [|ip ips IH]; intros seen; cbn [of_type]; [by split; constructor|].
  assert (Hw : ∀ seen', seen ⊆ seen' → Forall (λ ip0, ip0 ∉ seen ∧ ip0 ∈ ip :: ips
      ∧ match ip0 with V4 _ => kind = TYPE_A | V6 _ => kind = TYPE_AAAA end) (of_type kind seen' ips)).
  { intros seen' Hs. eapply Forall_impl; [apply (IH seen')|]. cbn. set_solver. }
  case_bool_decide as Hin; [split; [apply IH|by apply Hw]|].
  destruct (IH (ip :: seen)) as [Hnd Hall].
  assert (ip ∉ of_type kind (ip :: seen) ips).
  { rewrite Forall_forall in Hall. intros Hip. apply Hall in Hip as [Hip _]. set_solver. }
  destruct ip; case_match; (split; [by try constructor|]); try apply Forall_cons; try (split; [|apply Hw; set_solver]);
    try (apply Hw; set_solver); rewrite Z.eqb_eq in *; set_solver.
Qed.

(** Whatever is decided, addresses go out with [Allow] and nothing else does. *)
Definition sound_decision (w : DnsWorld) (c : CompiledPolicy) (q : Question) (d : Decided) : Prop :=
  d.(d_addresses) = [] ∧ d.(d_decision) = Deny ∧ d.(d_code) ≠ NoError
  ∨ d.(d_addresses) ≠ [] ∧ d.(d_decision) = Allow ∧ d.(d_code) = NoError ∧ d.(d_question) = Some q
    ∧ d.(d_name) = Some (query_name q) ∧ tellable w c q d.(d_addresses).

Lemma refused_sound w c q code q' why name : code ≠ NoError → sound_decision w c q (refused code q' why name).
Proof. by left. Qed.

Lemma rule_port_ok c name port :
  rule_port c name = Some port → ∃ r, r ∈ c.(cp_policy).(network).(egress) ∧ r.(e_host) = name.
Proof.
  unfold rule_port. intros (r & Hr & _)%fmap_Some. apply List.find_some in Hr as [Hin Hh].
  apply bool_decide_eq_true in Hh. exists r. by rewrite list_elem_of_In.
Qed.

Lemma decide_question_sound w c q : sound_decision w c q (decide_question w c q).
Proof.
  unfold decide_question. cbv zeta. repeat (case_match; [by apply refused_sound|]).
  match goal with H : negb (q_class q =? _) = false |- _ => rename H into Hc end.
  apply negb_false_iff, Z.eqb_eq in Hc.
  destruct (rule_port _ _) as [port|] eqn:Hp; [|by apply refused_sound].
  case_match eqn:Hd; [by apply refused_sound|]. apply negb_false_iff in Hd.
  apply rule_port_ok in Hp. unfold resolved. cbv zeta.
  destruct (if is_model_host _ _ then _ else _) as [ips|e] eqn:Ha;
    [|destruct (_ && _); by apply refused_sound].
  destruct (of_type _ _ _) as [|ip found] eqn:Ho; [by apply refused_sound|]. right. cbn [d_addresses d_decision d_code d_question d_name].
  destruct (of_type_spec (q_type q) ips []) as [Hnd Hall]. rewrite Ho in Hnd, Hall.
  split_and!; try done. split_and!; try done; (eapply Forall_impl; [exact Hall|]); cbn; [by intros ? (?&?&?)|].
  intros i (_ & Hi & _). destruct (is_model_host _ _) eqn:Hm; [left|right].
  - injection Ha as <-. split; [done|]. by apply list_elem_of_singleton in Hi.
  - apply resolve_ok in Ha as [_ Hall']. split; [done|]. by apply Hall'.
Qed.

Lemma decide_message_sound w c bytes : ∃ q,
  sound_decision w c q (decide_message w c bytes)
  ∧ ((decide_message w c bytes).(d_addresses) ≠ [] →
     raw_question_valid bytes = true ∧ count bytes ≤ DNS_FRAME
     ∧ ∃ m, from_vec bytes = Some m ∧ m.(queries) = [q] ∧ canary_trip w m = false).
Proof.
  assert (Href : ∀ code q why name, code ≠ NoError → ∃ q',
    sound_decision w c q' (refused code q why name) ∧ ((refused code q why name).(d_addresses) ≠ [] →
     raw_question_valid bytes = true ∧ count bytes ≤ DNS_FRAME
     ∧ ∃ m, from_vec bytes = Some m ∧ m.(queries) = [q'] ∧ canary_trip w m = false)).
  { intros code q why name Hc. exists {| q_name := ""; q_utf8 := ""; q_type := 0; q_class := 0 |}.
    split; [by left|done]. }
  unfold decide_message. cbv zeta. destruct (_ || _) eqn:Hb; [by apply Href|].
  rewrite !orb_false_iff, negb_false_iff in Hb. destruct Hb as [[Hb%Z.ltb_ge _] Hv].
  destruct (from_vec bytes) as [m|] eqn:Hm; [|by apply Href].
  destruct (shape_valid m bytes) eqn:Hs; cbn [negb]; [|by apply Href].
  destruct (canary_trip w m) eqn:Ht; [by apply Href|].
  unfold shape_valid in Hs. rewrite !andb_true_iff in Hs. destruct Hs as [[[[[[_ _] Hn%Z.eqb_eq] _] _] _] _]. unfold count in Hn.
  destruct (queries m) as [|q [|q' qs]] eqn:Hq; [done| |cbn in Hn; lia]. exists q. cbn [head].
  split; [apply decide_question_sound|]. intros _. split_and!; [done|done|]. by exists m.
Qed.

(** Budgets and rates decide nothing else. *)
Lemma debit_keeps o n cancelled granted g g' r :
  debit o n cancelled granted g = (g', r) → active g' = active g ∧ compiled g' = compiled g.
Proof. unfold debit. cbv zeta. intros Hd. repeat case_match; simplify_eq/=; done. Qed.

Lemma rate_keeps now dns g g' r :
  rate now dns g = (g', r) → active g' = active g ∧ compiled g' = compiled g.
Proof. unfold rate. cbv zeta. intros Hd. repeat case_match; simplify_eq/=; done. Qed.

(** C33: A guest learns an address only for a name the policy admits.  When [answer] sends a
    reply that carries addresses, the gateway was active, the packet was one plain
    question, no canary had tripped, a rule and a zone admit the name and its type, and
    each address has the asked family, appears once, and passes the boundary's check for
    that name (for the model's own name it is the gateway's address).  Every reply that
    leaves has been journalled with its verdict: allowed if and only if it had addresses. *)
Theorem dns_answers_only_permitted (w : DnsWorld) (now : Instant) (bytes : list ascii) (tcp : bool)
    (g g' : Gateway) (wire : list ascii) :
  answer w now bytes tcp g = (g', Ok (Some wire)) →
  ∃ g1 d q, encode tcp {| reply_id := message_id bytes; code := d.(d_code); question := d.(d_question);
                          addresses := d.(d_addresses); truncated := false |} = Ok wire
    ∧ last g'.(audit).(journal)
      = Some (dns_event w g1 d.(d_decision) d.(d_why) d.(d_name) (count bytes) (count wire))
    ∧ sound_decision w (compiled g) q d
    ∧ (d.(d_addresses) ≠ [] → active g = true ∧ raw_question_valid bytes = true
       ∧ ∃ m, from_vec bytes = Some m ∧ m.(queries) = [q] ∧ canary_trip w m = false).
Proof.
  unfold answer. cbv zeta. intros Ha.
  destruct (debit true _ _ _ g) as [g0 r0] eqn:Hd0. apply debit_keeps in Hd0 as [Hact Hc].
  destruct (is_ok r0); cbn [negb] in Ha; [|destruct (record _ _ g0) as [? []]; by simplify_eq/=].
  destruct (if negb (active g0) then _ else _) as [g1 d] eqn:Hd.
  assert (∃ q, sound_decision w (compiled g) q d ∧ (d.(d_addresses) ≠ [] → active g = true
    ∧ raw_question_valid bytes = true
    ∧ ∃ m, from_vec bytes = Some m ∧ m.(queries) = [q] ∧ canary_trip w m = false)) as (q & Hs & Hq).
  { rewrite <-Hact, <-Hc.
    assert (Href : ∀ why, let d := refused DnsRefused None why None in
      sound_decision w (compiled g0) {| q_name := ""; q_utf8 := ""; q_type := 0; q_class := 0 |} d
      ∧ (d.(d_addresses) ≠ [] → False)) by (intros why; split; [by left|done]).
    destruct (active g0); cbn [negb] in Hd;
      [|injection Hd as <- <-; eexists; split; [apply Href|intros []%Href]].
    destruct (rate now true g0) as [g2 r2] eqn:Hr. apply rate_keeps in Hr as [_ Hc2].
    destruct (is_ok r2); injection Hd as <- <-;
      [|eexists; split; [apply Href|intros []%Href]].
    rewrite <-Hc2. destruct (decide_message_sound w (compiled g2) bytes) as (q & Hs & Hq).
    exists q. split; [done|]. intros (? & _ & ?)%Hq. done. }
  destruct (encode _ _) as [wire'|] eqn:He; [|done].
  destruct (debit false _ _ _ g1) as [g3 r3]. destruct (is_ok r3); cbn [negb] in Ha;
    [|destruct (record _ _ g3) as [? []]; by simplify_eq/=].
  unfold record in Ha. destruct (sink_ok _); [|done]. injection Ha as <- <-.
  exists g3, d, q. split_and!; [done| |done|done]. cbn. by rewrite last_snoc.
Qed.

(** A reply leaves the UDP socket only to the guest and only while the gateway is active;
    the frame a TCP client reads is one [answer] journalled. *)
Lemma udp_reply_answered w now guest_ip peer bytes g g' wire :
  udp_packet w now guest_ip peer bytes g = (g', Ok (Some wire)) →
  peer = V4 guest_ip ∧ active g' = true ∧ answer w now bytes false g = (g', Ok (Some wire)).
Proof.
  unfold udp_packet. case_bool_decide as Hp; cbn [negb]; [|destruct (record _ _ _) as [? []]; by intros [=]].
  destruct (answer w now bytes false g) as [g1 [reply|e]]; cbn; [|done].
  destruct (active g1) eqn:Ha; intros [= -> ->]. by rewrite Ha.
Qed.

Lemma tcp_reply_answered w now guest_ip peer size bytes g g' frame :
  tcp_connection w now guest_ip peer size bytes g = (g', Ok (Some frame)) →
  peer = V4 guest_ip ∧ size ≤ DNS_FRAME
  ∧ ∃ b wire, bytes = Some b ∧ answer w now b true g = (g', Ok (Some wire)) ∧ frame = framed wire.
Proof.
  unfold tcp_connection. cbv zeta.
  case_bool_decide as Hp; cbn [negb]; [|destruct (record _ _ _) as [? []]; by intros [=]].
  destruct (permit_free _); cbn [negb]; [|by intros [=]].
  destruct (_ || _) eqn:Hs.
  - destruct (rate _ _ _) as [g1 ?]. destruct (debit _ _ _ _ g1) as [g2 ?].
    destruct (record _ _ g2) as [? []]; by intros [=].
  - apply orb_false_iff in Hs as [_ Hs%Z.ltb_ge]. destruct bytes as [b|]; [|done].
    destruct (answer w now b true g) as [g1 [[wire|]|e]] eqn:Ha; cbn; intros [= <- <-].
    split_and!; [done|done|]. by exists b, wire.
Qed.

(** Denied names never reach a resolver.  If what the host's resolver says can change
    what a packet is told (two worlds that differ in nothing but the lookup decide it
    differently), then the packet asks one question of a name that a rule and a zone of the
    policy admit, with a permitted type and no reviewed test address, and no canary
    tripped.  So no question about another name carries data out through a lookup. *)
Theorem resolver_sees_only_permitted (w w' : DnsWorld) (c : CompiledPolicy) (bytes : list ascii) :
  w.(dw_world).(canaries) = w'.(dw_world).(canaries) → w.(observed) = w'.(observed) →
  w.(bind_ip) = w'.(bind_ip) →
  decide_message w c bytes ≠ decide_message w' c bytes →
  ∃ m q port, from_vec bytes = Some m ∧ m.(queries) = [q] ∧ canary_trip w m = false
    ∧ rule_port c (query_name q) = Some port ∧ allows_dns c (query_name q) q.(q_type) = true
    ∧ is_model_host c (query_name q) = false ∧ test_addresses c.(boundary) (query_name q) port = [].
Proof.
  intros Hcan Hobs Hip. unfold decide_message, canary_trip. cbv zeta. rewrite <-Hcan, <-Hobs.
  destruct (_ || _); [done|]. destruct (from_vec bytes) as [m|] eqn:Hm; [|done].
  destruct (shape_valid m bytes) eqn:Hs; cbn [negb]; [|done].
  unfold shape_valid in Hs. rewrite !andb_true_iff in Hs.
  destruct Hs as [[[[[[_ _] Hn%Z.eqb_eq] _] _] _] _]. unfold count in Hn.
  destruct (queries m) as [|q [|q' qs]] eqn:Hq; [done| |cbn in Hn; lia]. cbn [head].
  destruct (match canaries (dw_world w) with Some _ => _ | None => _ end) eqn:Ht; [done|].
  unfold decide_question. cbv zeta. repeat (case_match; [done|]).
  destruct (rule_port _ _) as [port|] eqn:Hp; [|done].
  destruct (allows_dns c (query_name q) (q_type q)) eqn:Had; cbn [negb]; [|done].
  unfold resolved, resolve. cbv zeta. rewrite <-Hip.
  destruct (is_model_host _ _) eqn:Hmod; [done|].
  case_bool_decide as Hta; cbn [negb]; [|done].
  intros _. exists m, q, port. by rewrite Hq.
Qed.

Definition without_canaries (w : DnsWorld) : DnsWorld := {|
  dw_world := {| broker := w.(dw_world).(broker); permit_free := w.(dw_world).(permit_free); canaries := None;
                 secrets := w.(dw_world).(secrets);
                 lookup_host := w.(dw_world).(lookup_host); cancelled := w.(dw_world).(cancelled);
                 granted := w.(dw_world).(granted); client_built := w.(dw_world).(client_built);
                 sink_ok := w.(dw_world).(sink_ok) |};
  bind_ip := w.(bind_ip); lookup_failed := w.(lookup_failed); observed := w.(observed); elapsed := w.(elapsed);
  first_debit := w.(first_debit); second_debit := w.(second_debit) |}.

(** A tripped canary name is terminal only when its observation succeeds.  When
    containing or recording the trip fails, the question is decided as if no canary were
    configured, so a name that the policy also admits is resolved and answered. *)
Theorem unobserved_canary_is_resolved (w : DnsWorld) (c : CompiledPolicy) (bytes : list ascii) (e : GuardError.t) :
  w.(observed) = Err e → decide_message w c bytes = decide_message (without_canaries w) c bytes.
Proof.
  intros Hobs. unfold decide_message. cbv zeta.
  assert (Ht : ∀ m, canary_trip w m = false).
  { intros m. unfold canary_trip. rewrite Hobs. cbn [is_ok]. repeat case_match; try done. apply andb_false_r. }
  destruct (_ || _); [done|]. destruct (from_vec bytes) as [m|]; [|done]. rewrite Ht.
  unfold canary_trip at 1 2. cbn [without_canaries dw_world canaries].
  destruct (negb _); [done|]. by destruct (head _).
Qed.

End AnswerLemmas.

(** ** Examples *)
Module SampleDns.
Import Boundary.SampleNet.

Definition raw (labels : list string) : RawQuestion := {|
  rq_id := [u8 0; u8 7]; rq_flags := [u8 1; u8 0]; rq_labels := chars <$> labels;
  rq_type_class := [u8 0; u8 1; u8 0; u8 1]; rq_opt := None |}.
Definition asked (name : string) : Question :=
  {| q_name := name; q_utf8 := name; q_type := TYPE_A; q_class := CLASS_IN |}.
Definition message (q : Question) : DnsMessage := {|
  is_query := true; opcode_is_query := true; queries := [q]; answers_empty := true; name_servers_empty := true;
  additionals_empty := true |}.

Definition packet : list ascii := encode_question (raw ["Files"; "example"; "com"]).
Definition canary_packet : list ascii := encode_question (raw ["exfil"; "canary"; "invalid"]).

(** A codec for the two packets, with replies of sixteen bytes and sixteen more per address. *)
#[global] Instance codec : DnsCodec := {|
  from_vec bytes := if decide (bytes = packet) then Some (message (asked "Files.example.com."))
                    else if decide (bytes = canary_packet) then Some (message (asked "exfil.canary.invalid."))
                    else None;
  to_vec r := Some (repeat (u8 0) (16 * S (length r.(addresses)))) |}.

(** The canary's name is also an admitted destination. *)
Definition policy : GuardPolicy := {|
  version := 1;
  network := {| dns := {| allowed_zones := ["files.example.com"; "exfil.canary.invalid"]%string;
                          allowed_record_types := ["A"; "AAAA"]%string |};
                egress := [ {| e_host := "files.example.com"; e_port := 443; e_protocol := EGRESS_PROTOCOL_TCP;
                               e_methods := []; e_paths := [] |};
                            {| e_host := "exfil.canary.invalid"; e_port := 443; e_protocol := EGRESS_PROTOCOL_TCP;
                               e_methods := []; e_paths := [] |} ] |};
  model := None; credentials := []; limits := default_limits |}.
Definition compiled_policy : CompiledPolicy := {|
  cp_policy := policy; policy_hash := "h"; boundary := sample_boundary |}.
Definition gateway : Gateway :=
  step (install_policy {| active_compiled := compiled_policy; active_l7 := None |} SampleGateway.started)
       (LBeat (seconds 1)).

Definition world (seen : result GuardError.t ()) (answered : option (list IpAddr)) : DnsWorld := {|
  dw_world := {| broker := "10.0.0.1:3128"; permit_free := true; canaries := Some SampleCanaries.set;
                 secrets := ∅; lookup_host := answered; cancelled := false; granted := Ok ();
                 client_built := true; sink_ok := true |};
  bind_ip := ip4 10 0 0 1; lookup_failed := true; observed := seen; elapsed := 3;
  first_debit := (false, Ok ()); second_debit := (false, Ok ()) |}.
Definition public : option (list IpAddr) := Some [V4 (ip4 1 1 1 1)].

Lemma packet_answered :
  (answer (world (Ok ()) public) (seconds 2) packet false gateway).2 = Ok (Some (repeat (u8 0) 32)).
Proof. vm_compute. reflexivity. Qed.

Lemma dns_answers_only_permitted_witness :
  ∃ d q, d.(d_decision) = Allow ∧ tellable (world (Ok ()) public) compiled_policy q d.(d_addresses).
Proof.
  destruct (answer (world (Ok ()) public) (seconds 2) packet false gateway) as [g' r] eqn:Ha.
  pose proof packet_answered as Hr. rewrite Ha in Hr. cbn [snd] in Hr. subst r.
  destruct (dns_answers_only_permitted _ _ _ _ _ _ _ Ha) as (g1 & d & q & He & _ & [Hs|Hs] & _).
  - exfalso. destruct Hs as (Hd & _). unfold encode in He. cbn [to_vec codec addresses] in He. rewrite Hd in He.
    vm_compute in He. discriminate He.
  - exists d, q. split; [apply Hs|exact (proj2 (proj2 (proj2 (proj2 (proj2 Hs)))))].
Defined.

Lemma resolver_sees_only_permitted_witness : ∃ q, allows_dns compiled_policy (query_name q) q.(q_type) = true.
Proof.
  destruct (resolver_sees_only_permitted (world (Ok ()) public) (world (Ok ()) None) compiled_policy packet
    eq_refl eq_refl eq_refl) as (m & q & port & _ & _ & _ & _ & Had & _).
  - intros Heq. apply (f_equal d_code) in Heq. vm_compute in Heq. discriminate Heq.
  - exists q. exact Had.
Defined.

(** The canary's name is refused when its trip is observed, and answered when not. *)
Lemma unobserved_canary_is_resolved_witness :
  (decide_message (world (Ok ()) public) compiled_policy canary_packet).(d_code) = DnsRefused
  ∧ (decide_message (world (Err GuardError.Io) public) compiled_policy canary_packet).(d_addresses)
    = [V4 (ip4 1 1 1 1)].
Proof.
  split; [vm_compute; reflexivity|].
  rewrite (unobserved_canary_is_resolved (world (Err GuardError.Io) public) compiled_policy canary_packet
    GuardError.Io eq_refl).
  vm_compute. reflexivity.
Defined.

End SampleDns.
