(* ===== verification/ArtifactGc.v ===== *)
(** * ArtifactGc: snapshots, object references and the deletion ledger

    [crates/aiec-storage/src/memory_artifact_gc.rs] and the snapshot operations of
    [crates/aiec-storage/src/lib.rs], with [validate_object_key] of
    [object_store.rs].  The ledger records, per object key, its state, the number
    of snapshot rows that name it, and the claim of the worker deleting it.

    A [BTreeMap] keyed by strings is a [gmap] whose keys are visited in the order
    of [sort_strings].  A reference count is a [usize]: the invariant [counted]
    shows that the decrement never goes below zero; overflow of the increment is
    not modelled. *)

From Stdlib Require Import Ascii.
From stdpp Require Import relations.
From S2P Require Import Prelude Lifecycle Events Policy Store.
Import Sandboxes.

(** ** Object keys *)
Definition slash : ascii := "/"%char.

Definition unsafe_component (component : list ascii) : bool :=
  bool_decide (component = []) || bool_decide (component = chars ".")
  || bool_decide (component = chars "..").

Definition validate_object_key (key : string) : result StoreError.t () :=
  bail_if is_empty key || (1024 <? slen key) with StoreError.InvalidObjectKey;
  bail_if bool_decide (head (chars key) = Some slash)
          || bool_decide (last (chars key) = Some slash)
          || any_byte (is_char (ascii_of_nat 92)) key || any_byte is_ascii_control key
    with StoreError.InvalidObjectKey;
  bail_if existsb unsafe_component (split_on slash (chars key)) with StoreError.InvalidObjectKey;
  Ok ().

(** ** Links between rows and objects *)
Definition stored_keys (value : StoredSnapshot) : list (option string) :=
  [Some value.(st_object_key); Some value.(st_manifest_object_key);
   value.(st_memory_object_key); value.(st_disk_object_key); value.(st_workspace_object_key)].

Definition new_artifact (tenant : Uuid) (s : ObjectState) (now : Instant) : MemoryArtifact := {|
  ar_tenant := tenant; ar_state := s; ar_updated_at := now; ar_retry_at := now;
  ar_claim := None; ar_lease_until := None; ar_references := 0 |}.

Definition expired_state (s : ObjectState) : bool :=
  match s with Deleting | Deleted => true | _ => false end.

Definition linkable (objects : gmap string MemoryArtifact) (key : option string)
    : result StoreError.t () :=
  match key with
  | None => Ok ()
  | Some key =>
      let? _ := validate_object_key key in
      match objects !! key with
      | Some o => bail_if expired_state o.(ar_state) with StoreError.Conflict; Ok ()
      | None => Ok ()
      end
  end.

Definition link_object (now : Instant) (tenant : Uuid) (o : option MemoryArtifact)
    : MemoryArtifact :=
  match o with
  | Some o => {|
      ar_tenant := o.(ar_tenant); ar_state := Available; ar_updated_at := now;
      ar_retry_at := o.(ar_retry_at); ar_claim := o.(ar_claim);
      ar_lease_until := o.(ar_lease_until); ar_references := o.(ar_references) + 1 |}
  | None => {|
      ar_tenant := tenant; ar_state := Available; ar_updated_at := now; ar_retry_at := now;
      ar_claim := None; ar_lease_until := None; ar_references := 1 |}
  end.

Definition unlink_object (o : MemoryArtifact) : MemoryArtifact := {|
  ar_tenant := o.(ar_tenant); ar_state := o.(ar_state); ar_updated_at := o.(ar_updated_at);
  ar_retry_at := o.(ar_retry_at); ar_claim := o.(ar_claim);
  ar_lease_until := o.(ar_lease_until); ar_references := o.(ar_references) - 1 |}.

(** The body of a loop over [keys] that skips absent keys and keys already seen. *)
Fixpoint each_distinct (f : string → gmap string MemoryArtifact → gmap string MemoryArtifact)
    (seen keys : list (option string)) (objects : gmap string MemoryArtifact)
    : gmap string MemoryArtifact :=
  match keys with
  | [] => objects
  | key :: keys =>
      each_distinct f (seen ++ [key]) keys
        (match key with
         | Some k => if bool_decide (Some k ∈ seen) then objects else f k objects
         | None => objects
         end)
  end.

Definition link_keys (now : Instant) (tenant : Uuid) (keys : list (option string))
    (objects : gmap string MemoryArtifact) : result StoreError.t (gmap string MemoryArtifact) :=
  let? _ := each (linkable objects) keys in
  Ok (each_distinct (λ k m, <[k := link_object now tenant (m !! k)]> m) [] keys objects).

Definition unlink_keys (keys : list (option string)) (objects : gmap string MemoryArtifact)
    : gmap string MemoryArtifact :=
  each_distinct (λ k m, alter unlink_object k m) [] keys objects.

(** ** Snapshot rows *)
Definition has_row (id : Uuid) (d : MemoryData) : bool :=
  bool_decide (is_Some (d.(snapshots) !! id)) || bool_decide (is_Some (d.(stored_snapshots) !! id)).

Definition put_snapshot (now : Instant) (value : Snapshot) (d : MemoryData) : Op () :=
  commit d (
    bail_if has_row value.(snap_id) d with StoreError.Conflict;
    let? objects := link_keys now value.(snap_tenant_id) [Some value.(snap_object_key)]
                      d.(artifact_objects) in
    Ok (set_snapshots (<[value.(snap_id) := value]> d.(snapshots))
          (set_artifact_objects objects d), ())).

Definition get_snapshot (tenant id : Uuid) (d : MemoryData) : result StoreError.t Snapshot :=
  let? value := ok_or (d.(snapshots) !! id) StoreError.NotFound in
  bail_if negb (value.(snap_tenant_id) =? tenant)%N with StoreError.NotFound;
  Ok value.

Definition snapshot_key (s : Snapshot) : Instant * Uuid := (s.(snap_created_at), s.(snap_id)).

Definition list_snapshots `{HashOrder} (tenant sandbox : Uuid) (limit : Z)
    (after : option PageCursor) (d : MemoryData) : list Snapshot * option PageCursor :=
  listing snapshot_key
    (λ s, (s.(snap_tenant_id) =? tenant)%N && (s.(snap_sandbox_id) =? sandbox)%N)
    limit after (values d.(snapshots)).

Definition delete_snapshot (tenant id : Uuid) (d : MemoryData) : Op () :=
  commit d (
    let is_owned :=
      match d.(stored_snapshots) !! id with
      | Some s => (s.(st_tenant_id) =? tenant)%N | None => false end
      || match d.(snapshots) !! id with
         | Some s => (s.(snap_tenant_id) =? tenant)%N | None => false end in
    bail_if negb is_owned with StoreError.NotFound;
    let basic_key := snap_object_key <$> d.(snapshots) !! id in
    let unlinked :=
      match d.(stored_snapshots) !! id with
      | Some s => stored_keys s
      | None => [basic_key]
      end in
    Ok (set_artifact_objects (unlink_keys unlinked d.(artifact_objects))
          (set_stored_snapshots (delete id d.(stored_snapshots))
             (set_snapshots (delete id d.(snapshots)) d)), ())).

Definition basic_view (value : StoredSnapshot) : Snapshot := {|
  snap_id := value.(st_id); snap_tenant_id := value.(st_tenant_id);
  snap_sandbox_id := value.(st_sandbox_id); snap_object_key := value.(st_object_key);
  snap_size_bytes := value.(st_size_bytes); snap_image_id := value.(st_image_id);
  snap_created_at := value.(st_created_at) |}.

Definition put_stored_snapshot (now : Instant) (value : StoredSnapshot) (d : MemoryData) : Op () :=
  commit d (
    bail_if has_row value.(st_id) d with StoreError.Conflict;
    let? objects := link_keys now value.(st_tenant_id) (stored_keys value)
                      d.(artifact_objects) in
    Ok (set_stored_snapshots (<[value.(st_id) := value]> d.(stored_snapshots))
          (set_snapshots (<[value.(st_id) := basic_view value]> d.(snapshots))
             (set_artifact_objects objects d)), ())).

Definition get_stored_snapshot (tenant id : Uuid) (d : MemoryData)
    : result StoreError.t StoredSnapshot :=
  let? value := ok_or (d.(stored_snapshots) !! id) StoreError.NotFound in
  bail_if negb (value.(st_tenant_id) =? tenant)%N with StoreError.NotFound;
  Ok value.

Definition latest_stored_snapshot `{HashOrder} (tenant sandbox : Uuid) (kind : string)
    (d : MemoryData) : option StoredSnapshot :=
  max_by (λ a b, key_leb (a.(st_created_at), a.(st_id)) (b.(st_created_at), b.(st_id)))
    (base.filter (λ s, s.(st_tenant_id) = tenant ∧ s.(st_sandbox_id) = sandbox
                       ∧ s.(st_kind) = kind ∧ s.(st_complete) = true)
       (values d.(stored_snapshots))).

(** ** Uploads *)
Definition set_state (s : ObjectState) (now : Instant) (o : MemoryArtifact) : MemoryArtifact := {|
  ar_tenant := o.(ar_tenant); ar_state := s; ar_updated_at := now; ar_retry_at := now;
  ar_claim := None; ar_lease_until := None; ar_references := o.(ar_references) |}.

Definition touch (now : Instant) (o : MemoryArtifact) : MemoryArtifact := {|
  ar_tenant := o.(ar_tenant); ar_state := o.(ar_state); ar_updated_at := now;
  ar_retry_at := o.(ar_retry_at); ar_claim := o.(ar_claim);
  ar_lease_until := o.(ar_lease_until); ar_references := o.(ar_references) |}.

Definition put_object (key : string) (o : MemoryArtifact) (d : MemoryData) : MemoryData :=
  set_artifact_objects (<[key := o]> d.(artifact_objects)) d.

Definition known_tenant `{HashOrder} (tenant : Uuid) (d : MemoryData) : bool :=
  bool_decide (is_Some (d.(tenants) !! tenant))
  || existsb (λ v, (v.(sb_tenant_id) =? tenant)%N) (values d.(sandboxes))
  || existsb (λ v, (v.(key_tenant_id) =? tenant)%N) (values d.(keys))
  || existsb (λ v, (v.(snap_tenant_id) =? tenant)%N) (values d.(snapshots))
  || existsb (λ v, (v.(st_tenant_id) =? tenant)%N) (values d.(stored_snapshots)).

Definition reserve_artifact_upload `{HashOrder} (now : Instant) (tenant : Uuid)
    (run : option Uuid) (key : string) (d : MemoryData) : MemoryData * result CoreError.t () :=
  commit d (
    bail_if bool_decide (is_Some run) with CoreError.Unsupported;
    let? _ := map_err core_error (validate_object_key key) in
    bail_if negb (known_tenant tenant d) with CoreError.NotFound;
    match d.(artifact_objects) !! key with
    | Some o =>
        bail_if negb (o.(ar_tenant) =? tenant)%N || expired_state o.(ar_state)
          with CoreError.Conflict;
        Ok (put_object key (touch now o) d, ())
    | None => Ok (put_object key (new_artifact tenant Pending now) d, ())
    end).

Definition owned_object (tenant : Uuid) (key : string) (d : MemoryData)
    : result CoreError.t MemoryArtifact :=
  let? o := ok_or (d.(artifact_objects) !! key) CoreError.NotFound in
  bail_if negb (o.(ar_tenant) =? tenant)%N with CoreError.NotFound;
  Ok o.

(** An upload that finishes after its key expired is written down before it is
    refused, so that the object is collected again. *)
Definition complete_artifact_upload (now : Instant) (tenant : Uuid) (run : option Uuid)
    (key : string) (d : MemoryData) : MemoryData * result CoreError.t () :=
  if bool_decide (is_Some run) then (d, Err CoreError.Unsupported) else
  match owned_object tenant key d with
  | Err e => (d, Err e)
  | Ok o =>
      if expired_state o.(ar_state)
      then (put_object key (set_state Deleting now o) d, Err CoreError.Conflict)
      else (put_object key (set_state Available now o) d, Ok ())
  end.

Definition delete_artifact_upload (now : Instant) (tenant : Uuid) (run : option Uuid)
    (key : string) (d : MemoryData) : MemoryData * result CoreError.t () :=
  commit d (
    bail_if bool_decide (is_Some run) with CoreError.Unsupported;
    let? o := owned_object tenant key d in
    bail_if expired_state o.(ar_state) with CoreError.Conflict;
    Ok (put_object key (set_state Deleted now o) d, ())).

(** ** Collection *)
Record ArtifactDeletion := { del_key : string; del_tenant_id : Uuid; del_claim : Uuid }.

Definition sorted_keys (objects : gmap string MemoryArtifact) : list string :=
  sort_strings ((map_to_list objects).*1).

Definition after_cursor (cursor : option string) (key : string) : bool :=
  match cursor with None => true | Some c => negb (string_leb key c) end.

(** The keys one tick inspects. *)
Definition scan_window (cursor : option string) (limit : nat)
    (objects : gmap string MemoryArtifact) : list string :=
  take limit (base.filter (λ k, after_cursor cursor k = true) (sorted_keys objects)).

Definition collectable (now abandoned : Instant) (o : MemoryArtifact) : bool :=
  negb (bool_decide (o.(ar_state) = Deleted)
        || negb (o.(ar_references) =? 0)
        || (now <? o.(ar_retry_at))
        || match o.(ar_lease_until) with Some l => now <? l | None => false end
        || (negb (bool_decide (o.(ar_state) = Deleting)) && (abandoned <? o.(ar_updated_at)))).

Definition claim_object (lease_until : Instant) (claim : Uuid) (o : MemoryArtifact)
    : MemoryArtifact := {|
  ar_tenant := o.(ar_tenant); ar_state := Deleting; ar_updated_at := o.(ar_updated_at);
  ar_retry_at := o.(ar_retry_at); ar_claim := Some claim; ar_lease_until := Some lease_until;
  ar_references := o.(ar_references) |}.

(** [fresh] gives the [Uuid::new_v4] drawn for a key. *)
Fixpoint claim_loop (now abandoned lease_until : Instant) (fresh : string → Uuid)
    (window : list string) (objects : gmap string MemoryArtifact)
    : gmap string MemoryArtifact * list ArtifactDeletion :=
  match window with
  | [] => (objects, [])
  | key :: window =>
      match objects !! key with
      | Some o =>
          if collectable now abandoned o then
            let '(objects, claims) :=
              claim_loop now abandoned lease_until fresh window
                (<[key := claim_object lease_until (fresh key) o]> objects) in
            (objects,
             {| del_key := key; del_tenant_id := o.(ar_tenant); del_claim := fresh key |} :: claims)
          else claim_loop now abandoned lease_until fresh window objects
      | None => claim_loop now abandoned lease_until fresh window objects
      end
  end.

(** [min_utc] and [max_utc] bound chrono's instants. *)
Definition claim_artifact_deletions (min_utc max_utc now : Instant) (fresh : string → Uuid)
    (retention_seconds pending_grace_seconds limit lease_seconds : Z) (d : MemoryData)
    : MemoryData * result CoreError.t (list ArtifactDeletion) :=
  commit d (
    bail_if negb ((1 <=? retention_seconds) && (retention_seconds <=? 315360000))
            || negb ((600 <=? pending_grace_seconds) && (pending_grace_seconds <=? 315360000))
            || negb ((1 <=? limit) && (limit <=? 1000))
            || negb ((1 <=? lease_seconds) && (lease_seconds <=? 3600))
      with CoreError.InvalidRequest;
    let abandoned := now - seconds pending_grace_seconds in
    bail_if abandoned <? min_utc with CoreError.InvalidRequest;
    let lease_until := now + seconds lease_seconds in
    bail_if max_utc <? lease_until with CoreError.InvalidRequest;
    let window := scan_window d.(artifact_scan) (Z.to_nat limit) d.(artifact_objects) in
    let '(objects, claims) :=
      claim_loop now abandoned lease_until fresh window d.(artifact_objects) in
    Ok (set_artifact_scan (last window) (set_artifact_objects objects d), claims)).

Definition finish_artifact_deletion (now : Instant) (key : string) (claim : Uuid)
    (deleted : bool) (retry_at : Instant) (d : MemoryData) : MemoryData * result CoreError.t () :=
  commit d (
    let? o := ok_or (d.(artifact_objects) !! key) CoreError.Conflict in
    bail_if negb (bool_decide (o.(ar_state) = Deleting) && bool_decide (o.(ar_claim) = Some claim))
      with CoreError.Conflict;
    Ok (put_object key {|
          ar_tenant := o.(ar_tenant); ar_state := if deleted then Deleted else Deleting;
          ar_updated_at := now; ar_retry_at := retry_at; ar_claim := None;
          ar_lease_until := None; ar_references := o.(ar_references) |} d, ())).

(** ** Specification vocabulary *)

(** The object keys the row of a snapshot names: a stored row names every role. *)
Definition row_keys (d : MemoryData) (id : Uuid) : list (option string) :=
  match d.(stored_snapshots) !! id with
  | Some s => stored_keys s
  | None => match d.(snapshots) !! id with Some s => [Some s.(snap_object_key)] | None => [] end
  end.

Definition row_ids (d : MemoryData) : gset Uuid := dom d.(snapshots) ∪ dom d.(stored_snapshots).

(** The rows that name an object. *)
Definition holders (d : MemoryData) (key : string) : gset Uuid :=
  base.filter (λ id, Some key ∈ row_keys d id) (row_ids d).

Definition refs (objects : gmap string MemoryArtifact) (key : string) : Z :=
  match objects !! key with Some o => o.(ar_references) | None => 0 end.

Definition expired_key (objects : gmap string MemoryArtifact) (key : string) : Prop :=
  ∃ o, objects !! key = Some o ∧ expired_state o.(ar_state) = true.

Definition counted (d : MemoryData) : Prop :=
  ∀ key, refs d.(artifact_objects) key = Z.of_nat (size (holders d key)).

(** The operations that touch the ledger, and every other operation of the store,
    which leaves its three tables alone. *)
Inductive ledger_op :=
| PutSnapshot (now : Instant) (value : Snapshot)
| PutStoredSnapshot (now : Instant) (value : StoredSnapshot)
| DeleteSnapshot (tenant id : Uuid)
| ReserveUpload (now : Instant) (tenant : Uuid) (run : option Uuid) (key : string)
| CompleteUpload (now : Instant) (tenant : Uuid) (run : option Uuid) (key : string)
| DeleteUpload (now : Instant) (tenant : Uuid) (run : option Uuid) (key : string)
| ClaimDeletions (min_utc max_utc now : Instant) (fresh : string → Uuid)
    (retention_seconds pending_grace_seconds limit lease_seconds : Z)
| FinishDeletion (now : Instant) (key : string) (claim : Uuid) (deleted : bool)
    (retry_at : Instant).

Definition apply_ledger `{HashOrder} (op : ledger_op) (d : MemoryData) : MemoryData :=
  match op with
  | PutSnapshot now v => (put_snapshot now v d).1
  | PutStoredSnapshot now v => (put_stored_snapshot now v d).1
  | DeleteSnapshot tenant id => (delete_snapshot tenant id d).1
  | ReserveUpload now tenant run key => (reserve_artifact_upload now tenant run key d).1
  | CompleteUpload now tenant run key => (complete_artifact_upload now tenant run key d).1
  | DeleteUpload now tenant run key => (delete_artifact_upload now tenant run key d).1
  | ClaimDeletions lo hi now fresh r g l s => (claim_artifact_deletions lo hi now fresh r g l s d).1
  | FinishDeletion now key claim deleted retry =>
      (finish_artifact_deletion now key claim deleted retry d).1
  end.

Definition same_ledger (d d' : MemoryData) : Prop :=
  d'.(snapshots) = d.(snapshots) ∧ d'.(stored_snapshots) = d.(stored_snapshots)
  ∧ d'.(artifact_objects) = d.(artifact_objects).

Inductive ledger_step `{HashOrder} (d : MemoryData) : MemoryData → Prop :=
| ledger_own op : ledger_step d (apply_ledger op d)
| ledger_other d' : same_ledger d d' → ledger_step d d'.

(** ** Reference counts *)
Lemma elem_of_holders d key id : id ∈ holders d key ↔ Some key ∈ row_keys d id.
Proof.
  unfold holders, row_ids. rewrite elem_of_filter, elem_of_union, !elem_of_dom.
  split; [tauto|]. intros Hk. split; [done|]. unfold row_keys in Hk.
  destruct (stored_snapshots d !! id) eqn:?; [by right|].
  destruct (snapshots d !! id) eqn:?; [by left|]. by apply elem_of_nil in Hk.
Qed.

Lemma each_distinct_lookup f g seen ks m k :
  (∀ i m, f i m !! i = g (m !! i)) → (∀ i j m, i ≠ j → f i m !! j = m !! j) →
  each_distinct f seen ks m !! k
  = if bool_decide (Some k ∈ ks ∧ Some k ∉ seen) then g (m !! k) else m !! k.
Proof.
  intros Hf Hg. revert seen m. induction ks as [|key ks IH]; intros seen m; cbn [each_distinct].
  { by rewrite bool_decide_eq_false_2 by set_solver. }
  rewrite IH. destruct key as [i|].
  2:{ by rewrite (bool_decide_ext _ (Some k ∈ None :: ks ∧ Some k ∉ seen)) by set_solver. }
  destruct (decide (i = k)) as [->|Hne].
  - rewrite (bool_decide_eq_false_2 (Some k ∈ ks ∧ _)) by set_solver.
    case_bool_decide as Hs; [by rewrite bool_decide_eq_false_2 by set_solver|].
    rewrite bool_decide_eq_true_2 by set_solver. apply Hf.
  - rewrite (bool_decide_ext _ (Some k ∈ Some i :: ks ∧ Some k ∉ seen)) by set_solver.
    assert ((if bool_decide (Some i ∈ seen) then m else f i m) !! k = m !! k) as ->; [|done].
    case_bool_decide; [done|by apply Hg].
Qed.

Lemma refs_link now tenant ks objects objects' key :
  link_keys now tenant ks objects = Ok objects' →
  refs objects' key = refs objects key + (if bool_decide (Some key ∈ ks) then 1 else 0).
Proof.
  unfold link_keys. intros H. ok_inv H. simplify_eq. unfold refs.
  rewrite (each_distinct_lookup _ (λ o, Some (link_object now tenant o))).
  - rewrite (bool_decide_ext _ (Some key ∈ ks)) by set_solver.
    case_bool_decide; [|lia]. by destruct (objects !! key); simpl.
  - intros i m. apply lookup_insert_eq.
  - intros i j m ?. by apply lookup_insert_ne.
Qed.

Lemma refs_unlink ks objects key :
  (Some key ∈ ks → 0 < refs objects key) →
  refs (unlink_keys ks objects) key
  = refs objects key - (if bool_decide (Some key ∈ ks) then 1 else 0).
Proof.
  unfold unlink_keys, refs. intros Hpos.
  rewrite (each_distinct_lookup _ (fmap unlink_object)).
  - rewrite (bool_decide_ext _ (Some key ∈ ks)) by set_solver.
    case_bool_decide as Hk; [|lia]. specialize (Hpos Hk). destruct (objects !! key); simpl in *; lia.
  - intros i m. apply lookup_alter_eq.
  - intros i j m ?. by apply lookup_alter_ne.
Qed.

(** Adding (or, read backwards, removing) one row. *)
Lemma holders_shift d d' id ks key :
  row_keys d id = [] → (∀ i, row_keys d' i = if decide (i = id) then ks else row_keys d i) →
  Z.of_nat (size (holders d' key))
  = Z.of_nat (size (holders d key)) + (if bool_decide (Some key ∈ ks) then 1 else 0).
Proof.
  intros Hid Hrow. case_bool_decide as Hk.
  - assert (holders d' key = {[id]} ∪ holders d key) as ->.
    { apply set_eq. intros i. rewrite elem_of_union, elem_of_singleton, !elem_of_holders, Hrow.
      case_decide; naive_solver. }
    rewrite size_union; [rewrite size_singleton; lia|].
    intros i. rewrite elem_of_singleton, elem_of_holders. intros -> Hi.
    rewrite Hid in Hi. by apply elem_of_nil in Hi.
  - assert (holders d' key = holders d key) as ->; [|lia].
    apply set_eq. intros i. rewrite !elem_of_holders, Hrow. case_decide; [|done].
    subst. rewrite Hid. set_solver.
Qed.

Lemma row_keys_absent d id : has_row id d = false → row_keys d id = [].
Proof.
  unfold has_row, row_keys. intros H. apply orb_false_iff in H as [H1 H2].
  apply bool_decide_eq_false, eq_None_not_Some in H1, H2. by rewrite H2, H1.
Qed.

Lemma counted_add d d' id ks :
  counted d → row_keys d id = [] →
  (∀ i, row_keys d' i = if decide (i = id) then ks else row_keys d i) →
  (∀ key, refs d'.(artifact_objects) key
          = refs d.(artifact_objects) key + (if bool_decide (Some key ∈ ks) then 1 else 0)) →
  counted d'.
Proof. intros Hc Hid Hrow Hrefs key. by rewrite Hrefs, Hc, (holders_shift d d' id ks). Qed.

Lemma counted_remove d d' id :
  counted d →
  (∀ i, row_keys d' i = if decide (i = id) then [] else row_keys d i) →
  d'.(artifact_objects) = unlink_keys (row_keys d id) d.(artifact_objects) → counted d'.
Proof.
  intros Hc Hrow Hobj key.
  assert (Hs := holders_shift d' d id (row_keys d id) key).
  rewrite Hrow, decide_True in Hs by done. specialize (Hs eq_refl).
  rewrite Hobj, refs_unlink, Hc.
  - rewrite Hs; [lia|]. intros i. destruct (decide (i = id)) as [->|]; [done|]. by rewrite Hrow, decide_False.
  - rewrite Hc. intros Hk. apply elem_of_holders in Hk.
    assert (size (holders d key) ≠ 0%nat); [|lia]. rewrite size_non_empty_iff. set_solver.
Qed.

Lemma counted_objects d d' :
  counted d → d'.(snapshots) = d.(snapshots) → d'.(stored_snapshots) = d.(stored_snapshots) →
  (∀ key, refs d'.(artifact_objects) key = refs d.(artifact_objects) key) → counted d'.
Proof.
  intros Hc H1 H2 Hrefs key. rewrite Hrefs, Hc. unfold holders, row_ids, row_keys.
  by rewrite H1, H2.
Qed.

Lemma refs_insert objects key o k :
  o.(ar_references) = refs objects key → refs (<[key := o]> objects) k = refs objects k.
Proof.
  intros Ho. unfold refs in *. destruct (decide (key = k)) as [->|];
    [by rewrite lookup_insert_eq|by rewrite lookup_insert_ne].
Qed.

Lemma put_object_counted d key o :
  counted d → o.(ar_references) = refs d.(artifact_objects) key → counted (put_object key o d).
Proof.
  intros Hc Ho. eapply counted_objects; [exact Hc|done|done|]. intros k. by apply refs_insert.
Qed.

Lemma claim_loop_refs now ab lu fresh window objects k :
  refs (claim_loop now ab lu fresh window objects).1 k = refs objects k.
Proof.
  revert objects. induction window as [|key window IH]; intros objects; simpl; [done|].
  destruct (objects !! key) as [o|] eqn:Ho; [|apply IH].
  case_match; [|apply IH].
  destruct (claim_loop _ _ _ _ _ (<[_ := _]> _)) as [ob cl] eqn:Hcl. simpl.
  change ob with (ob, cl).1. rewrite <-Hcl, IH. apply refs_insert.
  simpl. unfold refs. by rewrite Ho.
Qed.

Lemma owned_object_ok tenant key d o :
  owned_object tenant key d = Ok o → d.(artifact_objects) !! key = Some o.
Proof.
  unfold owned_object, ok_or. intros H. ok_inv H. simplify_eq.
  by destruct (artifact_objects d !! key); simplify_eq.
Qed.

Lemma refs_lookup objects key o : objects !! key = Some o → refs objects key = o.(ar_references).
Proof. unfold refs. by intros ->. Qed.

(** What the two insertions do to the ledger. *)
Definition added (d d' : MemoryData) (id : Uuid) (ks : list (option string)) : Prop :=
  has_row id d = false
  ∧ (∃ now tenant, link_keys now tenant ks d.(artifact_objects) = Ok d'.(artifact_objects))
  ∧ ∀ i, row_keys d' i = if decide (i = id) then ks else row_keys d i.

Lemma put_snapshot_effect now v d :
  (put_snapshot now v d).1 = d
  ∨ added d (put_snapshot now v d).1 v.(snap_id) [Some v.(snap_object_key)].
Proof.
  unfold put_snapshot. destruct (has_row _ d) eqn:Hrow; [by left|].
  destruct (link_keys _ _ _ _) as [objects|] eqn:Hl; [right|by left].
  split_and!; [done|by do 2 eexists|]. intros i. unfold row_keys. simpl.
  apply orb_false_iff in Hrow as [_ Hrow]. apply bool_decide_eq_false, eq_None_not_Some in Hrow.
  destruct (decide (i = snap_id v)) as [->|].
  - by rewrite Hrow, lookup_insert_eq.
  - by rewrite lookup_insert_ne.
Qed.

Lemma put_stored_snapshot_effect now v d :
  (put_stored_snapshot now v d).1 = d
  ∨ added d (put_stored_snapshot now v d).1 v.(st_id) (stored_keys v).
Proof.
  unfold put_stored_snapshot. destruct (has_row _ d) eqn:Hrow; [by left|].
  destruct (link_keys _ _ _ _) as [objects|] eqn:Hl; [right|by left].
  split_and!; [done|by do 2 eexists|]. intros i. unfold row_keys. cbn -[stored_keys].
  destruct (decide (i = st_id v)) as [->|].
  - by rewrite lookup_insert_eq.
  - by rewrite !lookup_insert_ne.
Qed.

Lemma delete_snapshot_effect tenant id d :
  (delete_snapshot tenant id d).1 = d
  ∨ (∀ i, row_keys (delete_snapshot tenant id d).1 i = if decide (i = id) then [] else row_keys d i)
    ∧ (delete_snapshot tenant id d).1.(artifact_objects)
      = unlink_keys (row_keys d id) d.(artifact_objects).
Proof.
  unfold delete_snapshot. cbv zeta. destruct (negb _) eqn:Hown; [by left|right]. simpl. split.
  - intros i. unfold row_keys. simpl. destruct (decide (i = id)) as [->|].
    + by rewrite !lookup_delete_eq.
    + by rewrite !lookup_delete_ne.
  - unfold row_keys. destruct (stored_snapshots d !! id); [done|].
    by destruct (snapshots d !! id).
Qed.

Lemma added_counted d d' id ks : counted d → added d d' id ks → counted d'.
Proof.
  intros Hc (Hid & (now & tenant & Hl) & Hrow).
  eapply counted_add; [exact Hc|by apply row_keys_absent|done|].
  intros key. by eapply refs_link.
Qed.

Section Invariant.
Context `{HashOrder}.

Lemma apply_ledger_counted op d : counted d → counted (apply_ledger op d).
Proof.
  intros Hc. destruct op; cbn [apply_ledger].
  - destruct (put_snapshot_effect now value d) as [->|]; [done|]. by eapply added_counted.
  - destruct (put_stored_snapshot_effect now value d) as [->|]; [done|]. by eapply added_counted.
  - destruct (delete_snapshot_effect tenant id d) as [->|[Hr Ho]]; [done|].
    by eapply counted_remove.
  - apply (commit_preserves counted); [done|]. intros d' [] H'. cbv zeta in H'. ok_inv H'.
    case_match; ok_inv H'; simplify_eq; apply put_object_counted; [done| |done|].
    + by erewrite refs_lookup by eassumption.
    + unfold refs. by rewrite H0.
  - unfold complete_artifact_upload. case_match; [done|]. case_match eqn:Ho; [|done].
    apply owned_object_ok, refs_lookup in Ho.
    case_match; apply put_object_counted; by rewrite ?Ho.
  - apply (commit_preserves counted); [done|]. intros d' [] H'. cbv zeta in H'. ok_inv H'. simplify_eq.
    apply owned_object_ok, refs_lookup in Hok. apply put_object_counted; by rewrite ?Hok.
  - apply (commit_preserves counted); [done|]. intros d' cl H'. cbv zeta in H'. ok_inv H'.
    destruct (claim_loop _ _ _ _ _ _) as [ob cl'] eqn:Hcl. simplify_eq.
    eapply counted_objects; [exact Hc|done|done|]. intros k. simpl.
    change ob with (ob, cl).1. rewrite <-Hcl. apply claim_loop_refs.
  - apply (commit_preserves counted); [done|]. intros d' [] H'. cbv zeta in H'. ok_inv H'. simplify_eq.
    apply put_object_counted; [done|]. unfold ok_or in Hok.
    destruct (artifact_objects d !! key) eqn:Ho; simplify_eq.
    by erewrite refs_lookup by eassumption.
Qed.

Lemma ledger_step_counted d d' : ledger_step d d' → counted d → counted d'.
Proof.
  intros [op|d'' (H1 & H2 & H3)] Hc; [by apply apply_ledger_counted|].
  eapply counted_objects; [exact Hc|done|done|]. intros key. by rewrite H3.
Qed.

End Invariant.

(** ** Expired keys *)

(** A key the collector owns: expired, and named by no row. *)
Definition dead (d : MemoryData) (key : string) : Prop :=
  expired_key d.(artifact_objects) key ∧ ∀ id, Some key ∉ row_keys d id.

Lemma expired_insert objects key0 o key :
  expired_key objects key → (key0 = key → expired_state o.(ar_state) = true) →
  expired_key (<[key0 := o]> objects) key.
Proof.
  intros (o' & Ho' & He) Ho. destruct (decide (key0 = key)) as [->|Hne].
  - exists o. rewrite lookup_insert_eq. auto.
  - exists o'. by rewrite lookup_insert_ne.
Qed.

Lemma claim_loop_expired now ab lu fresh window objects key :
  expired_key objects key → expired_key (claim_loop now ab lu fresh window objects).1 key.
Proof.
  revert objects. induction window as [|k window IH]; intros objects He; simpl; [done|].
  destruct (objects !! k) as [o|] eqn:Ho; [|by apply IH].
  case_match; [|by apply IH].
  specialize (IH (<[k := claim_object lu (fresh k) o]> objects)).
  destruct (claim_loop _ _ _ _ _ (<[_ := _]> _)) as [ob cl]. apply IH. by apply expired_insert.
Qed.

(** A claim is handed out only for an object no row names, and expires it. *)
Lemma claim_loop_claims now ab lu fresh window objects c :
  c ∈ (claim_loop now ab lu fresh window objects).2 →
  expired_key (claim_loop now ab lu fresh window objects).1 c.(del_key)
  ∧ refs objects c.(del_key) = 0.
Proof.
  revert objects. induction window as [|k window IH]; intros objects Hc; simpl in *;
    [by apply elem_of_nil in Hc|].
  destruct (objects !! k) as [o|] eqn:Ho; [|by apply IH].
  destruct (collectable now ab o) eqn:Hcol; [|by apply IH].
  pose proof (claim_loop_expired now ab lu fresh window
    (<[k := claim_object lu (fresh k) o]> objects)) as He.
  specialize (IH (<[k := claim_object lu (fresh k) o]> objects)).
  destruct (claim_loop _ _ _ _ _ (<[_ := _]> _)) as [ob cl]. simpl in *.
  apply elem_of_cons in Hc as [->|Hc]; simpl.
  - split.
    + apply He. exists (claim_object lu (fresh k) o). by rewrite lookup_insert_eq.
    + rewrite (refs_lookup _ _ o) by done. unfold collectable in Hcol. bools. by apply Z.eqb_eq.
  - destruct (IH Hc) as [Hx Hr]. split; [done|]. rewrite <-Hr. symmetry. apply refs_insert.
    simpl. by rewrite (refs_lookup _ _ o).
Qed.

Lemma link_keys_live now tenant ks objects objects' key :
  link_keys now tenant ks objects = Ok objects' → expired_key objects key →
  (Some key ∉ ks) ∧ objects' !! key = objects !! key.
Proof.
  unfold link_keys. intros Hl (o & Ho & He). ok_inv Hl. simplify_eq.
  assert (Hn : Some key ∉ ks).
  { intros Hk. apply each_ok in Hok. rewrite Forall_forall in Hok. specialize (Hok _ Hk).
    unfold linkable in Hok. ok_inv Hok. by rewrite Ho, He in Hok. }
  split; [done|]. rewrite (each_distinct_lookup _ (λ o, Some (link_object now tenant o))).
  - by rewrite bool_decide_eq_false_2 by tauto.
  - intros i m. apply lookup_insert_eq.
  - intros i j m ?. by apply lookup_insert_ne.
Qed.

Lemma unlink_keys_expired ks objects key :
  expired_key objects key → expired_key (unlink_keys ks objects) key.
Proof.
  intros (o & Ho & He). unfold unlink_keys, expired_key.
  rewrite (each_distinct_lookup _ (fmap unlink_object)), Ho.
  - case_bool_decide; [|by exists o]. by exists (unlink_object o).
  - intros i m. apply lookup_alter_eq.
  - intros i j m ?. by apply lookup_alter_ne.
Qed.

Lemma added_dead d d' id ks key : dead d key → added d d' id ks → dead d' key.
Proof.
  intros [He Hrow] (_ & (now & tenant & Hl) & Hr).
  destruct (link_keys_live _ _ _ _ _ _ Hl He) as [Hk Hlook].
  split; [unfold expired_key; by rewrite Hlook|]. intros i. rewrite Hr. by case_decide.
Qed.

Lemma dead_objects d d' key :
  dead d key → d'.(snapshots) = d.(snapshots) → d'.(stored_snapshots) = d.(stored_snapshots) →
  expired_key d'.(artifact_objects) key → dead d' key.
Proof. intros [_ Hr] H1 H2 He. split; [done|]. intros id. unfold row_keys. rewrite H1, H2. apply Hr. Qed.

Section Dead.
Context `{HashOrder}.

Lemma put_object_dead d key0 o key :
  dead d key → (key0 = key → expired_state o.(ar_state) = true) → dead (put_object key0 o d) key.
Proof. intros Hd Ho. eapply dead_objects; [exact Hd|done|done|]. apply expired_insert; [apply Hd|done]. Qed.

Lemma dead_state d key o :
  dead d key → d.(artifact_objects) !! key = Some o → expired_state o.(ar_state) = true.
Proof. intros [(o' & Ho' & He) _] Ho. by simplify_eq. Qed.

Lemma apply_ledger_dead op d key : dead d key → dead (apply_ledger op d) key.
Proof.
  intros Hd. destruct op; cbn [apply_ledger].
  - destruct (put_snapshot_effect now value d) as [->|]; [done|]. by eapply added_dead.
  - destruct (put_stored_snapshot_effect now value d) as [->|]; [done|]. by eapply added_dead.
  - destruct (delete_snapshot_effect tenant id d) as [->|[Hr Ho]]; [done|]. destruct Hd as [He Hn].
    split; [rewrite Ho; by apply unlink_keys_expired|].
    intros i. rewrite Hr. case_decide; [apply not_elem_of_nil|apply Hn].
  - apply (commit_preserves (λ d, dead d key)); [done|]. intros d' [] H'. ok_inv H'.
    case_match eqn:Ho; ok_inv H'; simplify_eq; apply put_object_dead; [done| |done|]; intros ->.
    + bools. by rewrite (dead_state d key) in * by done.
    + by destruct Hd as [(o & ? & _) _]; simplify_eq.
  - unfold complete_artifact_upload. case_match; [done|]. case_match eqn:Ho; [|done].
    apply owned_object_ok in Ho.
    case_match eqn:He; apply put_object_dead; try done. intros ->.
    by rewrite (dead_state d key) in He.
  - apply (commit_preserves (λ d, dead d key)); [done|]. intros d' [] H'. ok_inv H'. simplify_eq.
    apply put_object_dead; done.
  - apply (commit_preserves (λ d, dead d key)); [done|]. intros d' cl H'. cbv zeta in H'. ok_inv H'.
    destruct (claim_loop _ _ _ _ _ _) as [ob cl'] eqn:Hcl. simplify_eq.
    eapply dead_objects; [exact Hd|done|done|]. simpl. change ob with (ob, cl).1. rewrite <-Hcl.
    apply claim_loop_expired, Hd.
  - apply (commit_preserves (λ d, dead d key)); [done|]. intros d' [] H'. ok_inv H'. simplify_eq.
    apply put_object_dead; [done|]. by destruct deleted.
Qed.

Lemma ledger_step_dead d d' key : ledger_step d d' → dead d key → dead d' key.
Proof.
  intros [op|d'' (H1 & H2 & H3)] Hd; [by apply apply_ledger_dead|].
  eapply dead_objects; [exact Hd|done|done|]. rewrite H3. apply Hd.
Qed.

Lemma counted_empty : counted empty_store.
Proof. done. Qed.

End Dead.

(** ** The scan *)
Lemma string_leb_refl s : string_leb s s = true.
Proof. by destruct (string_leb_total s s). Qed.

Lemma sorted_keys_sorted objects :
  StronglySorted (λ a b, string_leb a b = true) (sorted_keys objects).
Proof. apply sort_by_sorted; eauto with order. Qed.

Lemma sorted_keys_perm objects : sorted_keys objects ≡ₚ (map_to_list objects).*1.
Proof. apply sort_by_perm. Qed.

Lemma sorted_keys_NoDup objects : NoDup (sorted_keys objects).
Proof. rewrite sorted_keys_perm. apply NoDup_fst_map_to_list. Qed.

Lemma elem_of_sorted_keys objects key : key ∈ sorted_keys objects ↔ is_Some (objects !! key).
Proof.
  rewrite sorted_keys_perm, list_elem_of_fmap. split.
  - intros ([k o] & -> & Ho%elem_of_map_to_list). by exists o.
  - intros [o Ho]. exists (key, o). by rewrite elem_of_map_to_list.
Qed.

Lemma sorted_keys_dom objects objects' :
  (∀ k, is_Some (objects' !! k) ↔ is_Some (objects !! k)) → sorted_keys objects' = sorted_keys objects.
Proof.
  intros Hd. apply sort_strings_unique. apply NoDup_Permutation;
    [apply NoDup_fst_map_to_list|apply NoDup_fst_map_to_list|].
  intros k. by rewrite <-!sorted_keys_perm, !elem_of_sorted_keys.
Qed.

Section Scan.
Context (objects : gmap string MemoryArtifact) (limit : nat) (Hlimit : (0 < limit)%nat).

(** The keys still ahead of a cursor. *)
Definition ahead (cursor : option string) : list string :=
  base.filter (λ k, after_cursor cursor k = true) (sorted_keys objects).

Lemma ahead_None : ahead None = sorted_keys objects.
Proof. by apply filter_all. Qed.

Lemma ahead_split pre x suf : sorted_keys objects = pre ++ x :: suf → ahead (Some x) = suf.
Proof.
  intros Hs. unfold ahead. pose proof (sorted_keys_sorted objects) as Hsort.
  pose proof (sorted_keys_NoDup objects) as Hnd. rewrite Hs in Hsort, Hnd |- *.
  apply StronglySorted_app in Hsort as (Hpre & _ & Hsuf).
  apply StronglySorted_inv in Hsuf as [_ Hsuf]. rewrite Forall_forall in Hsuf.
  apply NoDup_app in Hnd as (_ & _ & [Hx _]%NoDup_cons).
  rewrite filter_app, filter_cons, filter_none, filter_all; simpl.
  - by rewrite decide_False by (by rewrite string_leb_refl).
  - intros y Hy. apply negb_true_iff, not_true_iff_false. intros Hle. apply Hx.
    by rewrite (string_leb_antisym x y) by auto.
  - intros y Hy. rewrite (Hpre y x Hy) by left. done.
Qed.

(** The part of the key order ahead of a cursor is a suffix of it. *)
Lemma ahead_suffix cursor : ∃ pre, sorted_keys objects = pre ++ ahead cursor.
Proof.
  destruct cursor as [c|]; [|exists []; by rewrite ahead_None]. unfold ahead.
  induction (sorted_keys_sorted objects) as [|x l Hl [pre IH] Hx]; [by exists []|].
  rewrite filter_cons. simpl. destruct (string_leb x c) eqn:Hxc; simpl.
  - exists (x :: pre). simpl in IH. by rewrite IH at 1.
  - exists []. simpl. f_equal. symmetry. apply filter_all. intros y Hy. apply negb_true_iff.
    destruct (string_leb y c) eqn:Hyc; [|done]. rewrite Forall_forall in Hx.
    by rewrite (string_leb_trans x y c) in Hxc by auto.
Qed.

Lemma ahead_next cursor :
  ahead (last (scan_window cursor limit objects))
  = match ahead cursor with [] => sorted_keys objects | _ => drop limit (ahead cursor) end.
Proof.
  destruct (ahead_suffix cursor) as [pre Hs]. unfold scan_window. fold (ahead cursor).
  destruct (ahead cursor) as [|x rest] eqn:Ha; [by rewrite take_nil; apply ahead_None|].
  destruct (last (take limit (x :: rest))) as [k|] eqn:Hl.
  - apply last_Some in Hl as [l' Hl]. apply (ahead_split (pre ++ l') k).
    rewrite Hs, <-(take_drop limit (x :: rest)), Hl at 1. by rewrite <-!app_assoc.
  - apply last_None in Hl. destruct limit; [lia|done].
Qed.

(** The scan reaches a key within [n] more windows: the key is fewer than [n] keys
    ahead, or there is room to wrap around first. *)
Definition reaches (cursor : option string) (key : string) (n : nat) : Prop :=
  (∃ i, ahead cursor !! i = Some key ∧ (i < n)%nat)
  ∨ (length (ahead cursor) + length (sorted_keys objects) < n)%nat.

Lemma scan_progress cursor key n :
  is_Some (objects !! key) → key ∉ scan_window cursor limit objects →
  reaches cursor key (S n) → reaches (last (scan_window cursor limit objects)) key n.
Proof.
  intros Hk Hw Hr. unfold reaches. rewrite ahead_next.
  unfold scan_window in Hw. fold (ahead cursor) in Hw.
  destruct Hr as [(i & Hi & Hn)|Hn].
  - assert (limit ≤ i)%nat.
    { destruct (decide (i < limit)%nat) as [Hlt|]; [|lia]. destruct Hw.
      eapply list_elem_of_lookup_2. rewrite lookup_take_lt; [exact Hi|done]. }
    destruct (ahead cursor) as [|x rest] eqn:Ha; [done|]. left. exists (i - limit)%nat.
    rewrite lookup_drop. by replace (limit + (i - limit))%nat with i by lia; split; [|lia].
  - destruct (ahead cursor) as [|x rest] eqn:Ha; simpl in Hn.
    + left. apply elem_of_sorted_keys, list_elem_of_lookup_1 in Hk as [j Hj]. exists j.
      split; [done|]. apply lookup_lt_Some in Hj. lia.
    + right. rewrite length_drop. simpl. lia.
Qed.

End Scan.

(** ** Ticks of the collector *)
Lemma claim_loop_other now ab lu fresh window objects key :
  key ∉ window → (claim_loop now ab lu fresh window objects).1 !! key = objects !! key.
Proof.
  revert objects. induction window as [|k window IH]; intros objects Hk; simpl; [done|].
  apply not_elem_of_cons in Hk as [Hne Hk].
  destruct (objects !! k) as [o|] eqn:Ho; [|by apply IH]. case_match; [|by apply IH].
  specialize (IH (<[k := claim_object lu (fresh k) o]> objects) Hk).
  destruct (claim_loop _ _ _ _ _ (<[_ := _]> _)) as [ob cl]. simpl in *.
  by rewrite IH, lookup_insert_ne.
Qed.

Lemma claim_loop_dom now ab lu fresh window objects k :
  is_Some ((claim_loop now ab lu fresh window objects).1 !! k) ↔ is_Some (objects !! k).
Proof.
  revert objects. induction window as [|key window IH]; intros objects; simpl; [done|].
  destruct (objects !! key) as [o|] eqn:Ho; [|by apply IH]. case_match; [|by apply IH].
  specialize (IH (<[key := claim_object lu (fresh key) o]> objects)).
  destruct (claim_loop _ _ _ _ _ (<[_ := _]> _)) as [ob cl]. simpl in *. rewrite IH.
  destruct (decide (key = k)) as [->|]; [|by rewrite lookup_insert_ne].
  by rewrite lookup_insert_eq, Ho.
Qed.

Lemma claim_loop_window now ab lu fresh window objects key o :
  key ∈ window → objects !! key = Some o → collectable now ab o = true →
  ∃ c, c ∈ (claim_loop now ab lu fresh window objects).2 ∧ c.(del_key) = key.
Proof.
  revert objects. induction window as [|k window IH]; intros objects Hk Ho Hc; simpl;
    [by apply elem_of_nil in Hk|].
  destruct (decide (k = key)) as [->|Hne].
  - rewrite Ho, Hc. destruct (claim_loop _ _ _ _ _ (<[_ := _]> _)) as [ob cl].
    by eexists; split; [left|].
  - apply elem_of_cons in Hk as [?|Hk]; [done|].
    destruct (objects !! k) as [o'|] eqn:Ho'; [|by apply IH]. case_match; [|by apply IH].
    destruct (IH (<[k := claim_object lu (fresh k) o']> objects)) as (c & Hin & Hkey);
      [done|by rewrite lookup_insert_ne|done|].
    destruct (claim_loop _ _ _ _ _ (<[_ := _]> _)) as [ob cl]. exists c. split; [by right|done].
Qed.

Section Ticks.
Context (min_utc max_utc : Instant) (retention grace limit lease : Z).

Definition bounds_ok : Prop :=
  1 ≤ retention ≤ 315360000 ∧ 600 ≤ grace ≤ 315360000 ∧ 1 ≤ limit ≤ 1000 ∧ 1 ≤ lease ≤ 3600.

(** A run of the collector at the given instants, and every claim it hands out. *)
Fixpoint ticks (nows : list (Instant * (string → Uuid))) (d : MemoryData)
    : MemoryData * list ArtifactDeletion :=
  match nows with
  | [] => (d, [])
  | (now, fresh) :: nows =>
      let '(d, r) :=
        claim_artifact_deletions min_utc max_utc now fresh retention grace limit lease d in
      let '(d, rest) := ticks nows d in
      (d, match r with Ok claims => claims ++ rest | Err _ => rest end)
  end.

Definition in_time (now : Instant) : Prop :=
  min_utc ≤ now - seconds grace ∧ now + seconds lease ≤ max_utc.

Lemma claim_result now fresh d :
  bounds_ok → in_time now →
  claim_artifact_deletions min_utc max_utc now fresh retention grace limit lease d
  = let window := scan_window d.(artifact_scan) (Z.to_nat limit) d.(artifact_objects) in
    let r := claim_loop now (now - seconds grace) (now + seconds lease) fresh window
               d.(artifact_objects) in
    (set_artifact_scan (last window) (set_artifact_objects r.1 d), Ok r.2).
Proof.
  intros (Hr & Hg & Hl & Hs) [Hmin Hmax]. unfold claim_artifact_deletions.
  rewrite !(proj2 (Z.leb_le _ _)) by lia. cbn [negb orb andb].
  rewrite !(proj2 (Z.ltb_ge _ _)) by lia. cbv zeta. by destruct (claim_loop _ _ _ _ _ _).
Qed.

Lemma collectable_later now now' o :
  now ≤ now' → collectable now (now - seconds grace) o = true →
  collectable now' (now' - seconds grace) o = true.
Proof.
  unfold collectable. rewrite !negb_true_iff, !orb_false_iff, !andb_false_iff.
  intros Hle ((((Hs & Hr) & Ht) & Hl) & Hu). split_and!; [done|done| | |].
  - apply Z.ltb_ge in Ht. apply Z.ltb_ge. lia.
  - destruct (ar_lease_until o); [|done]. apply Z.ltb_ge in Hl. apply Z.ltb_ge. lia.
  - destruct Hu as [Hu|Hu]; [by left|right]. apply Z.ltb_ge in Hu. apply Z.ltb_ge. lia.
Qed.

(** One tick claims the object or leaves it as it was. *)
Lemma tick_claims_or_skips now fresh d key o :
  bounds_ok → in_time now → d.(artifact_objects) !! key = Some o →
  collectable now (now - seconds grace) o = true →
  let window := scan_window d.(artifact_scan) (Z.to_nat limit) d.(artifact_objects) in
  ∃ d' claims,
    claim_artifact_deletions min_utc max_utc now fresh retention grace limit lease d = (d', Ok claims)
    ∧ ((∃ c, c ∈ claims ∧ c.(del_key) = key)
       ∨ (key ∉ window) ∧ d'.(artifact_objects) !! key = Some o ∧ d'.(artifact_scan) = last window
         ∧ sorted_keys d'.(artifact_objects) = sorted_keys d.(artifact_objects)).
Proof.
  intros Hb Hin Ho Hc window. rewrite claim_result by done. do 2 eexists. split; [done|].
  destruct (decide (key ∈ window)) as [Hw|Hw]; [left; by eapply claim_loop_window|right].
  split_and!; [done| |done|].
  - by simpl; rewrite claim_loop_other.
  - apply sorted_keys_dom. intros k. apply claim_loop_dom.
Qed.

(** An object that stays collectable is claimed once the scan reaches it. *)
Lemma ticks_claim nows d key o now0 :
  bounds_ok → d.(artifact_objects) !! key = Some o →
  collectable now0 (now0 - seconds grace) o = true →
  Forall (λ t, now0 ≤ t.1 ∧ in_time t.1) nows →
  reaches d.(artifact_objects) d.(artifact_scan) key (length nows) →
  ∃ c, c ∈ (ticks nows d).2 ∧ c.(del_key) = key.
Proof.
  intros Hb Ho Hc. revert d Ho. induction nows as [|[now fresh] nows IH]; intros d Ho Hall Hpos.
  { destruct Hpos as [(i & _ & Hi)|Hi]; simpl in Hi; lia. }
  apply Forall_cons in Hall as [[Hnow Hin] Hall].
  destruct (tick_claims_or_skips now fresh d key o) as (d' & claims & Hcl & Hor);
    [done|done|done|by eapply collectable_later|].
  cbn [ticks]. rewrite Hcl. destruct (ticks nows d') as [d'' rest] eqn:Ht.
  destruct Hor as [(c & ? & ?)|(Hw & Ho' & Hscan & Hsk)].
  { exists c. split; [|done]. apply elem_of_app. by left. }
  destruct (IH d' Ho' Hall) as (c & Hc' & ?).
  - unfold reaches, ahead. rewrite Hsk, Hscan. apply scan_progress; [|by eexists|done|done].
    destruct Hb as (_ & _ & ? & _). lia.
  - exists c. split; [|done]. rewrite Ht in Hc'. apply elem_of_app. by right.
Qed.

End Ticks.

(** The ledger operations leave every other table alone. *)
Lemma apply_ledger_frame {B} (f : MemoryData → B) `{HashOrder} op d :
  (∀ v d, f (set_snapshots v d) = f d) → (∀ v d, f (set_stored_snapshots v d) = f d) →
  (∀ v d, f (set_artifact_objects v d) = f d) → (∀ v d, f (set_artifact_scan v d) = f d) →
  f (apply_ledger op d) = f d.
Proof.
  intros H1 H2 H3 H4. destruct op; cbn [apply_ledger];
    try (apply commit_frame; intros ? ? Hr; cbv zeta in Hr; ok_inv Hr;
         repeat (case_match; try discriminate Hr); simplify_eq;
         unfold put_object; by rewrite ?H4, ?H2, ?H1, ?H3, ?H2, ?H1, ?H3).
  unfold complete_artifact_upload, put_object. repeat case_match; simpl; by rewrite ?H3.
Qed.

(** ** Theorems *)

(** In every store reachable by snapshot, upload and collection operations,
    interleaved with operations on the other tables, the reference count of an
    object is exactly the number of snapshot rows that name it; so the count an
    unlink decrements is never zero. *)
Theorem reference_counts_exact `{HashOrder} (d : MemoryData) :
  rtc ledger_step empty_store d →
  (∀ key, refs d.(artifact_objects) key = Z.of_nat (size (holders d key)))
  ∧ ∀ id key, Some key ∈ row_keys d id → 0 < refs d.(artifact_objects) key.
Proof.
  intros Hr. assert (Hc : counted d).
  { eapply (rtc_ind_r counted); [apply counted_empty| |exact Hr].
    intros d1 d2 _ Hs Hc. by eapply ledger_step_counted. }
  split; [exact Hc|]. intros id key Hk. rewrite (Hc key). apply elem_of_holders in Hk.
  assert (size (holders d key) ≠ 0%nat); [|lia]. rewrite size_non_empty_iff. set_solver.
Qed.

(** C28: A key handed to the collector for deletion is named by no snapshot row, then
    or at any later time, whatever operations follow: an expired key never becomes
    usable again. *)
Theorem claimed_object_never_referenced `{HashOrder} (d d1 d2 : MemoryData)
    min_utc max_utc now fresh retention grace limit lease claims c :
  rtc ledger_step empty_store d →
  claim_artifact_deletions min_utc max_utc now fresh retention grace limit lease d
    = (d1, Ok claims) →
  c ∈ claims → rtc ledger_step d1 d2 →
  ∀ id, Some c.(del_key) ∉ row_keys d2 id.
Proof.
  intros Hr Hcl Hc Hr2. assert (Hcount : counted d).
  { eapply (rtc_ind_r counted); [apply counted_empty| |exact Hr].
    intros ?? _ Hs ?. by eapply ledger_step_counted. }
  assert (Hd1 : dead d1 c.(del_key)).
  { apply commit_ok in Hcl. cbv zeta in Hcl. ok_inv Hcl.
    pose proof (claim_loop_claims now (now - seconds grace) (now + seconds lease) fresh
      (scan_window (artifact_scan d) (Z.to_nat limit) (artifact_objects d))
      (artifact_objects d) c) as Hl.
    destruct (claim_loop _ _ _ _ _ _) as [objects cl]. simplify_eq. simpl in Hl.
    destruct (Hl Hc) as [He Hz]. split; [done|]. intros id Hk.
    assert (Hin : id ∈ holders d c.(del_key)) by (by apply elem_of_holders).
    rewrite Hcount in Hz. assert (size (holders d (del_key c)) ≠ 0%nat); [|lia].
    rewrite size_non_empty_iff. set_solver. }
  assert (Hd2 : dead d2 c.(del_key)); [|apply Hd2].
  eapply (rtc_ind_r (λ d, dead d c.(del_key))); [exact Hd1| |exact Hr2].
  intros ?? _ ??. by eapply ledger_step_dead.
Qed.

(** The bounded scan starves no object.  An object that is collectable at [now0]
    is claimed by one of the following ticks, however small the window and wherever
    the cursor stands, as soon as there are more ticks than twice the number of
    ledger entries. *)
Theorem collectable_object_is_claimed min_utc max_utc retention grace limit lease
    (nows : list (Instant * (string → Uuid))) (d : MemoryData) key o now0 :
  bounds_ok retention grace limit lease → d.(artifact_objects) !! key = Some o →
  collectable now0 (now0 - seconds grace) o = true →
  Forall (λ t, now0 ≤ t.1 ∧ in_time min_utc max_utc grace lease t.1) nows →
  (2 * size d.(artifact_objects) < length nows)%nat →
  ∃ c, c ∈ (ticks min_utc max_utc retention grace limit lease nows d).2 ∧ c.(del_key) = key.
Proof.
  intros Hb Ho Hc Hall Hlen. eapply ticks_claim; [done..|]. right.
  destruct (ahead_suffix d.(artifact_objects) d.(artifact_scan)) as [pre Hs].
  apply (f_equal length) in Hs. rewrite length_app in Hs.
  assert (length (sorted_keys d.(artifact_objects)) = size d.(artifact_objects)); [|lia].
  by rewrite sorted_keys_perm, length_fmap, length_map_to_list.
Qed.

(** ** A concrete ledger *)
Module SampleLedger.

#[global] Instance order : HashOrder := {| iter := λ A m, map_to_list m |}.

#[global] Instance order_laws : HashOrderLaws order.
Proof. constructor. done. Qed.

Definition stored : StoredSnapshot := {|
  st_id := 7%N; st_tenant_id := 1%N; st_sandbox_id := 2%N; st_object_key := "snap/a";
  st_manifest_object_key := "snap/a"; st_memory_object_key := Some "snap/b"%string;
  st_disk_object_key := None; st_workspace_object_key := None; st_size_bytes := 10;
  st_image_id := "img"; st_checksum_sha256 := ""; st_kind := "vm"; st_complete := true;
  st_created_at := 0 |}.

Definition with_row : MemoryData := (put_stored_snapshot 0 stored empty_store).1.
Definition without_row : MemoryData := (delete_snapshot 1 7 with_row).1.

(** An hour later both objects are past the upload grace. *)
Definition later : Instant := seconds 3600.
Definition claimed :=
  claim_artifact_deletions (- seconds 100000) (seconds 100000) later (λ _, 9%N) 60 600 10 60
    without_row.
Definition claims : list ArtifactDeletion :=
  match claimed.2 with Ok l => l | Err _ => [] end.

Lemma with_row_reachable : rtc ledger_step empty_store with_row.
Proof. apply rtc_once, (ledger_own _ (PutStoredSnapshot 0 stored)). Qed.

Lemma without_row_reachable : rtc ledger_step empty_store without_row.
Proof. eapply rtc_r; [apply with_row_reachable|]. apply (ledger_own _ (DeleteSnapshot 1 7)). Qed.

Lemma reference_counts_exact_witness :
  refs with_row.(artifact_objects) "snap/a" = 1
  ∧ 0 < refs with_row.(artifact_objects) "snap/b".
Proof.
  split; [vm_compute; reflexivity|].
  destruct (reference_counts_exact with_row with_row_reachable) as [_ H].
  apply (H 7%N). apply (bool_decide_unpack _). vm_compute. exact I.
Defined.

Lemma claimed_object_never_referenced_witness :
  (del_key <$> claims) = ["snap/a"; "snap/b"]%string
  ∧ ∀ id, Some "snap/a"%string ∉ row_keys claimed.1 id.
Proof.
  split; [vm_compute; reflexivity|].
  assert (Hc : claimed = (claimed.1, Ok claims)) by (vm_compute; reflexivity).
  refine (claimed_object_never_referenced without_row claimed.1 claimed.1
    (- seconds 100000) (seconds 100000) later (λ _, 9%N) 60 600 10 60 claims
    {| del_key := "snap/a"; del_tenant_id := 1%N; del_claim := 9%N |}
    without_row_reachable Hc _ (rtc_refl _ _)).
  assert (claims = [{| del_key := "snap/a"; del_tenant_id := 1%N; del_claim := 9%N |};
                    {| del_key := "snap/b"; del_tenant_id := 1%N; del_claim := 9%N |}]) as ->
    by (vm_compute; reflexivity).
  left.
Defined.

(** One key per tick: five ticks are enough for two keys. *)
Lemma collectable_object_is_claimed_witness :
  ∃ c, c ∈ (ticks (- seconds 100000) (seconds 100000) 60 600 1 60
              (replicate 5 (later, λ _, 9%N)) without_row).2
       ∧ c.(del_key) = "snap/b"%string.
Proof.
  destruct (without_row.(artifact_objects) !! "snap/b"%string) as [o|] eqn:Ho;
    [|vm_compute in Ho; discriminate Ho].
  apply (collectable_object_is_claimed (- seconds 100000) (seconds 100000) 60 600 1 60
    (replicate 5 (later, λ _, 9%N)) without_row "snap/b" o later).
  - unfold bounds_ok. lia.
  - exact Ho.
  - vm_compute in Ho. injection Ho as <-. vm_compute. reflexivity.
  - apply Forall_replicate. unfold in_time, later, seconds. simpl. lia.
  - vm_compute. lia.
Defined.

End SampleLedger.
