(* ===== verification/GuardStore.v ===== *)
(** * GuardStore: budgets, incidents, quarantine, proposals and approvals

    [crates/aiec-storage/src/guard.rs] and the tool-approval operations of
    [crates/aiec-storage/src/lib.rs].  [op] lists every operation that writes the
    in-memory store, and [run] performs a sequence of them; the invariants hold of
    every store [run] reaches from the empty one. *)

From Stdlib Require Import Ascii.
From S2P Require Import Prelude Lifecycle Events Policy Store ArtifactGc.
Import Sandboxes.

(** ** Budgets *)
Definition with_usage (b : GuardBudgetState) (hash : string) (requests bytes_in bytes_out : Z)
    (q : bool) : GuardBudgetState := {|
  b_identity := {| gi_sandbox_id := b.(b_identity).(gi_sandbox_id);
                   gi_tenant_id := b.(b_identity).(gi_tenant_id); gi_policy_hash := hash |};
  b_expires_at := b.(b_expires_at); max_model_requests_cap := b.(max_model_requests_cap);
  max_bytes_in := b.(max_bytes_in); max_bytes_out := b.(max_bytes_out);
  model_requests := requests; b_bytes_in := bytes_in; b_bytes_out := bytes_out;
  quarantined := q |}.

Definition set_quarantined (q : bool) (b : GuardBudgetState) : GuardBudgetState :=
  with_usage b b.(b_identity).(gi_policy_hash) b.(model_requests) b.(b_bytes_in) b.(b_bytes_out) q.

Definition initialize (existing : option GuardBudgetState) (state : GuardBudgetState)
    : result StoreError.t GuardBudgetState :=
  match existing with
  | Some e =>
      bail_if negb (e.(b_identity).(gi_sandbox_id) =? state.(b_identity).(gi_sandbox_id))%N
              || negb (e.(b_identity).(gi_tenant_id) =? state.(b_identity).(gi_tenant_id))%N
              || negb (e.(b_expires_at) =? state.(b_expires_at))
              || negb (e.(max_model_requests_cap) =? state.(max_model_requests_cap))
              || negb (e.(max_bytes_in) =? state.(max_bytes_in))
              || negb (e.(max_bytes_out) =? state.(max_bytes_out))
        with StoreError.Conflict;
      Ok (with_usage e state.(b_identity).(gi_policy_hash) e.(model_requests) e.(b_bytes_in)
            e.(b_bytes_out) e.(quarantined))
  | None =>
      bail_if negb (state.(model_requests) =? 0) || negb (state.(b_bytes_in) =? 0)
              || negb (state.(b_bytes_out) =? 0) || state.(quarantined)
        with StoreError.Conflict;
      Ok state
  end.

Definition validate_fence (lease : WorkerLease) (fence : GuardFence) (now : Instant)
    : result StoreError.t () :=
  bail_if negb (lease.(le_id) =? fence.(lease_id))%N
          || negb (bool_decide (lease.(le_status) = "active"%string))
          || (lease.(le_expires_at) <=? now) with StoreError.Conflict;
  bail_if (fence.(generation) <=? 0) || (lease.(le_generation) <? fence.(generation))
    with StoreError.Conflict;
  Ok ().

(** The closure [add] of [reserve]. *)
Definition add (used amount cap : Z) : result StoreError.t Z :=
  match checked_add u64_max used amount with
  | Some next => bail_if cap <? next with StoreError.QuotaExceeded; Ok next
  | None => Err StoreError.QuotaExceeded
  end.

Definition reserve (state : GuardBudgetState) (sandbox : Sandbox) (identity : GuardIdentity)
    (debit : BudgetDebit) (now : Instant) : result StoreError.t GuardBudgetState :=
  bail_if negb (bool_decide (state.(b_identity) = identity)) with StoreError.Conflict;
  bail_if state.(quarantined) with StoreError.Conflict;
  bail_if negb (consumes sandbox.(sb_state)) with StoreError.Conflict;
  bail_if state.(b_expires_at) <=? now with StoreError.QuotaExceeded;
  let? requests := add state.(model_requests) debit.(d_model_requests)
                     state.(max_model_requests_cap) in
  let? bytes_in := add state.(b_bytes_in) debit.(d_bytes_in) state.(max_bytes_in) in
  let? bytes_out := add state.(b_bytes_out) debit.(d_bytes_out) state.(max_bytes_out) in
  Ok (with_usage state state.(b_identity).(gi_policy_hash) requests bytes_in bytes_out
        state.(quarantined)).

Definition expired (state : GuardBudgetState) (now : Instant) : bool :=
  negb state.(quarantined)
  && ((state.(b_expires_at) <=? now)
      || (state.(max_model_requests_cap) <=? state.(model_requests))
      || (state.(max_bytes_in) <=? state.(b_bytes_in))
      || (state.(max_bytes_out) <=? state.(b_bytes_out))).

(** ** Incidents *)
Section Incidents.
Context `{Host}.

(** The loop over the evidence, carrying the hash the next event must chain to. *)
Fixpoint evidence_chain (identity : GuardIdentity) (previous : string) (es : list GuardEvent)
    : result StoreError.t string :=
  match es with
  | [] => Ok previous
  | e :: es =>
      bail_if negb (e.(sandbox_id) =? identity.(gi_sandbox_id))%N
              || negb (e.(tenant_id) =? identity.(gi_tenant_id))%N
              || negb (bool_decide (Events.policy_hash e = identity.(gi_policy_hash)))
              || negb (bool_decide (e.(previous_hash) = previous)) with StoreError.Conflict;
      let? _ := map_err (λ _, StoreError.Conflict) (verify_bounds e) in
      let? _ := map_err (λ _, StoreError.Conflict) (verify_self_hash e) in
      evidence_chain identity e.(current_hash) es
  end.

Definition validate_incident_evidence (i : GuardIncident) : result StoreError.t () :=
  let count := Z.of_nat (length i.(in_events)) in
  let last_sequence :=
    n ← checked_add u64_max i.(event_start_sequence) count; checked_sub n 1 in
  bail_if (i.(event_start_sequence) =? 0)
          || negb (bool_decide (last_sequence = Some i.(event_sequence))) with StoreError.Conflict;
  bail_if negb (slen i.(event_previous_hash) =? 64)
          || negb (all_bytes is_lower_hex i.(event_previous_hash)) with StoreError.Conflict;
  let? previous := evidence_chain i.(in_identity) i.(event_previous_hash) i.(in_events) in
  bail_if negb (bool_decide (i.(event_head) = previous)) with StoreError.Conflict;
  Ok ().

Definition starts_with (l prefix : list GuardEvent) : bool := bool_decide (prefix `prefix_of` l).

(** [for x in new { if !old.contains(x) { old.push(x) } }]. *)
Definition push_new {A} `{EqDecision A} (old new : list A) : list A :=
  foldl (λ acc x, if bool_decide (x ∈ acc) then acc else acc ++ [x]) old new.

Definition or_else {A} (a b : option A) : option A := match a with Some _ => a | None => b end.

(** Merging into an incident on record, before the completion check. *)
Definition merge_open (e i : GuardIncident) : GuardIncident :=
  let longer := (length e.(in_events) <? length i.(in_events))%nat in
  {| in_id := e.(in_id); in_identity := e.(in_identity); in_fence := e.(in_fence);
     in_rules := push_new e.(in_rules) i.(in_rules); triggered_at := e.(triggered_at);
     network_cut_at := or_else e.(network_cut_at) i.(network_cut_at);
     paused_at := or_else e.(paused_at) i.(paused_at);
     snapshot_id := or_else e.(snapshot_id) i.(snapshot_id);
     completed_at := i.(completed_at);
     in_events := if longer then i.(in_events) else e.(in_events);
     event_start_sequence := e.(event_start_sequence);
     event_previous_hash := e.(event_previous_hash);
     event_sequence := if longer then i.(event_sequence) else e.(event_sequence);
     event_head := if longer then i.(event_head) else e.(event_head);
     in_errors := push_new e.(in_errors) i.(in_errors);
     notified_at := or_else e.(notified_at) i.(notified_at);
     report := if is_empty i.(report) then e.(report) else i.(report) |}.

Definition merge_completed (e i : GuardIncident) : GuardIncident := {|
  in_id := e.(in_id); in_identity := e.(in_identity); in_fence := e.(in_fence);
  in_rules := e.(in_rules); triggered_at := e.(triggered_at);
  network_cut_at := e.(network_cut_at); paused_at := e.(paused_at);
  snapshot_id := e.(snapshot_id); completed_at := e.(completed_at); in_events := e.(in_events);
  event_start_sequence := e.(event_start_sequence);
  event_previous_hash := e.(event_previous_hash); event_sequence := e.(event_sequence);
  event_head := e.(event_head); in_errors := push_new e.(in_errors) i.(in_errors);
  notified_at := or_else e.(notified_at) i.(notified_at); report := e.(report) |}.

Definition merge_existing (e i : GuardIncident) : result StoreError.t GuardIncident :=
  bail_if negb (bool_decide (e.(in_identity) = i.(in_identity)))
          || negb (e.(in_fence).(lease_id) =? i.(in_fence).(lease_id))%N with StoreError.Conflict;
  bail_if bool_decide (is_Some e.(snapshot_id)) && bool_decide (is_Some i.(snapshot_id))
          && negb (bool_decide (e.(snapshot_id) = i.(snapshot_id))) with StoreError.Conflict;
  bail_if negb (starts_with i.(in_events) e.(in_events))
          && negb (starts_with e.(in_events) i.(in_events)) with StoreError.Conflict;
  bail_if negb (e.(event_start_sequence) =? i.(event_start_sequence))
          || negb (bool_decide (e.(event_previous_hash) = i.(event_previous_hash)))
          || (bool_decide (length e.(in_events) = length i.(in_events))
              && (negb (e.(event_sequence) =? i.(event_sequence))
                  || negb (bool_decide (e.(event_head) = i.(event_head)))))
    with StoreError.Conflict;
  Ok (match e.(completed_at) with None => merge_open e i | Some _ => merge_completed e i end).

Definition may_complete (i : GuardIncident) : bool :=
  bool_decide (is_Some i.(network_cut_at)) && bool_decide (is_Some i.(paused_at))
  && match i.(snapshot_id) with Some s => negb (is_empty s) | None => false end
  && negb (is_empty i.(report)).

(** The last statement of the source restores the first fence, which both merges
    above keep. *)
Definition merge_incident (existing : option GuardIncident) (incoming : GuardIncident)
    : result StoreError.t GuardIncident :=
  let? _ := validate_incident_evidence incoming in
  let? merged :=
    match existing with None => Ok incoming | Some e => merge_existing e incoming end in
  bail_if bool_decide (is_Some merged.(completed_at)) && negb (may_complete merged)
    with StoreError.Conflict;
  Ok merged.

End Incidents.

(** ** Operations on the store *)
Section Operations.
Context `{Host, HashOrder}.

Definition memory_lease (now : Instant) (tenant id : Uuid) (fence : GuardFence) (d : MemoryData)
    : result StoreError.t () :=
  let? lease := ok_or (List.find (active tenant id) (values d.(leases))) StoreError.Conflict in
  validate_fence lease fence now.

Definition put_budget (id : Uuid) (b : GuardBudgetState) (d : MemoryData) : MemoryData :=
  set_guard_budgets (<[id := b]> d.(guard_budgets)) d.

Definition put_guard_budget (state : GuardBudgetState) (d : MemoryData) : Op GuardBudgetState :=
  commit d (
    let? sandbox := owned d state.(b_identity).(gi_tenant_id) state.(b_identity).(gi_sandbox_id) in
    let? state := initialize (d.(guard_budgets) !! sandbox.(sb_id)) state in
    let state :=
      if bool_decide (sandbox.(sb_state) = Quarantined) then set_quarantined true state else state in
    Ok (put_budget sandbox.(sb_id) state d, state)).

Definition get_guard_budget (tenant id : Uuid) (d : MemoryData)
    : result StoreError.t GuardBudgetState :=
  let? _ := owned d tenant id in
  ok_or (d.(guard_budgets) !! id) StoreError.NotFound.

(** [now] is read by the lease check, [now'] by the expiry check. *)
Definition reserve_guard_budget (now now' : Instant) (identity : GuardIdentity)
    (fence : GuardFence) (debit : BudgetDebit) (d : MemoryData) : Op GuardBudgetState :=
  commit d (
    let? sandbox := owned d identity.(gi_tenant_id) identity.(gi_sandbox_id) in
    let? _ := memory_lease now identity.(gi_tenant_id) identity.(gi_sandbox_id) fence d in
    let? state := ok_or (d.(guard_budgets) !! sandbox.(sb_id)) StoreError.NotFound in
    let? after := reserve state sandbox identity debit now' in
    Ok (put_budget sandbox.(sb_id) after d, after)).

Definition put_guard_incident (now : Instant) (incident : GuardIncident) (d : MemoryData)
    : Op GuardIncident :=
  commit d (
    let identity := incident.(in_identity) in
    let? _ := owned d identity.(gi_tenant_id) identity.(gi_sandbox_id) in
    let? _ := memory_lease now identity.(gi_tenant_id) identity.(gi_sandbox_id)
                incident.(in_fence) d in
    let? budget := ok_or (d.(guard_budgets) !! identity.(gi_sandbox_id)) StoreError.NotFound in
    bail_if negb (bool_decide (budget.(b_identity) = identity)) with StoreError.Conflict;
    let id := identity.(gi_sandbox_id) in
    let? merged := merge_incident (d.(guard_incidents) !! id) incident in
    Ok (set_guard_incidents (<[id := merged]> d.(guard_incidents)) d, merged)).

Definition get_guard_incident (tenant id : Uuid) (d : MemoryData)
    : result StoreError.t GuardIncident :=
  let? _ := owned d tenant id in
  ok_or (d.(guard_incidents) !! id) StoreError.NotFound.

(** A budget the reaper can act on: spent, of a consuming sandbox it can fence. *)
Definition reapable (now : Instant) (d : MemoryData) (b : GuardBudgetState) : bool :=
  expired b now
  && match d.(sandboxes) !! b.(b_identity).(gi_sandbox_id) with
     | None => false
     | Some s =>
         consumes s.(sb_state)
         && existsb (λ l, active b.(b_identity).(gi_tenant_id) b.(b_identity).(gi_sandbox_id) l
                          && (now <? l.(le_expires_at))) (values d.(leases))
     end.

Definition by_sandbox (a b : GuardBudgetState) : bool :=
  (a.(b_identity).(gi_sandbox_id) <=? b.(b_identity).(gi_sandbox_id))%N.

Definition list_expired_guard_budgets (now : Instant) (limit : nat) (d : MemoryData)
    : list GuardBudgetState :=
  take limit (sort_by by_sandbox
    (base.filter (λ b, reapable now d b = true) (values d.(guard_budgets)))).

Definition mark_guard_quarantined (now now' : Instant) (tenant id : Uuid) (fence : GuardFence)
    (d : MemoryData) : Op Sandbox :=
  commit d (
    let? sandbox := owned d tenant id in
    let? _ := memory_lease now tenant id fence d in
    bail_if negb (bool_decide (sandbox.(sb_state) = Quarantined))
            && negb (can_transition_to sandbox.(sb_state) Quarantined) with StoreError.Conflict;
    let? budget := ok_or (d.(guard_budgets) !! id) StoreError.NotFound in
    let d := put_budget id (set_quarantined true budget) d in
    if bool_decide (sandbox.(sb_state) = Quarantined) then Ok (d, sandbox)
    else
      let sandbox := with_state Quarantined now' sandbox in
      Ok (put_sandbox id sandbox d, sandbox)).

Definition with_guard (config : GuardConfig) (hash : string) (now : Instant) (s : Sandbox)
    : Sandbox := {|
  sb_id := s.(sb_id); sb_tenant_id := s.(sb_tenant_id); sb_node_id := s.(sb_node_id);
  sb_image_id := s.(sb_image_id); sb_state := s.(sb_state); sb_runtime := s.(sb_runtime);
  sb_cpu := s.(sb_cpu); sb_memory_mb := s.(sb_memory_mb); sb_disk_mb := s.(sb_disk_mb);
  sb_timeout_seconds := s.(sb_timeout_seconds); sb_network := s.(sb_network);
  sb_environment := {|
    workspace := s.(sb_environment).(workspace); toolkits := s.(sb_environment).(toolkits);
    layers := s.(sb_environment).(layers); guard := Some config;
    guard_policy_hash := Some hash |};
  sb_created_at := s.(sb_created_at); sb_updated_at := now;
  sb_runtime_path := s.(sb_runtime_path) |}.

Definition update_guard_policy (now : Instant) (tenant sandbox : Uuid) (config : GuardConfig)
    (hash : string) (d : MemoryData) : Op () :=
  commit d (
    let? row := owned d tenant sandbox in
    Ok (put_sandbox sandbox (with_guard config hash now row) d, ())).

(** [released_by] is not used by the source. *)
Definition release_guard_quarantine (now : Instant) (tenant sandbox : Uuid) (d : MemoryData)
    : Op Sandbox :=
  commit d (
    let? row := owned d tenant sandbox in
    bail_if negb (bool_decide (row.(sb_state) = Quarantined)) with StoreError.Conflict;
    let released := with_state Paused now row in
    let d := put_sandbox sandbox released d in
    Ok (set_guard_budgets (alter (set_quarantined false) sandbox d.(guard_budgets)) d, released)).

(** ** Proposals *)
Definition same_ask (a b : GuardProposal) : bool :=
  (a.(gp_sandbox_id) =? b.(gp_sandbox_id))%N && (a.(gp_tenant_id) =? b.(gp_tenant_id))%N
  && bool_decide (a.(gp_agent_id) = b.(gp_agent_id))
  && bool_decide (a.(gp_base_policy_hash) = b.(gp_base_policy_hash))
  && bool_decide (a.(gp_request) = b.(gp_request)) && (a.(gp_created_at) =? b.(gp_created_at)).

(** [entry(id).or_insert(..)] enters an absent row before the checks, so the store
    of every outcome is written out. *)
Definition put_guard_proposal (p : GuardProposal) (d : MemoryData) : Op GuardProposal :=
  match owned d p.(gp_tenant_id) p.(gp_sandbox_id) with
  | Err e => (d, Err e)
  | Ok _ =>
      let stored := default p (d.(guard_proposals) !! p.(gp_id)) in
      let entered := set_guard_proposals (<[p.(gp_id) := stored]> d.(guard_proposals)) d in
      if negb (same_ask stored p) then (entered, Err StoreError.Conflict)
      else if negb (bool_decide (stored.(gp_state) = ProposalPending)) then (entered, Ok stored)
      else if negb (bool_decide (p.(gp_state) = ProposalPending))
              && (bool_decide (p.(gp_decided_by) = None) || bool_decide (p.(gp_decided_at) = None))
      then (entered, Err StoreError.Conflict)
      else (set_guard_proposals (<[p.(gp_id) := p]> d.(guard_proposals)) d, Ok p)
  end.

Definition proposal_key (p : GuardProposal) : Instant * Uuid := (p.(gp_created_at), p.(gp_id)).

Definition list_guard_proposals (tenant sandbox : Uuid) (limit : Z) (after : option PageCursor)
    (d : MemoryData) : result StoreError.t (list GuardProposal * option PageCursor) :=
  let? _ := owned d tenant sandbox in
  Ok (listing proposal_key
        (λ p, (p.(gp_tenant_id) =? tenant)%N && (p.(gp_sandbox_id) =? sandbox)%N)
        limit after (values d.(guard_proposals))).

Definition get_guard_proposal (tenant sandbox id : Uuid) (d : MemoryData)
    : result StoreError.t GuardProposal :=
  let? _ := owned d tenant sandbox in
  ok_or (d.(guard_proposals) !! id) StoreError.NotFound.

(** ** Tool approvals *)
Definition digest_ok (digest : string) : bool :=
  (slen digest =? 64)
  && all_bytes (λ b, is_ascii_hexdigit b && negb (is_ascii_uppercase b)) digest.

Definition with_expiry (t : Instant) (a : GuardToolApproval) : GuardToolApproval := {|
  ta_id := a.(ta_id); ta_sandbox_id := a.(ta_sandbox_id); ta_tenant_id := a.(ta_tenant_id);
  ta_tool := a.(ta_tool); ta_request_digest := a.(ta_request_digest); ta_detail := a.(ta_detail);
  ta_requested_by_key_id := a.(ta_requested_by_key_id);
  ta_requested_by_label := a.(ta_requested_by_label); ta_state := a.(ta_state);
  ta_decided_by_key_id := a.(ta_decided_by_key_id);
  ta_decided_by_label := a.(ta_decided_by_label); ta_decided_at := a.(ta_decided_at);
  ta_expires_at := t; ta_consumed_at := a.(ta_consumed_at); ta_created_at := a.(ta_created_at) |}.

Definition put_approval (a : GuardToolApproval) (d : MemoryData) : MemoryData :=
  set_guard_tool_approvals (<[a.(ta_id) := a]> d.(guard_tool_approvals)) d.

(** The row the live-request key of an ask already occupies. *)
Definition same_live_request (a row : GuardToolApproval) : bool :=
  (row.(ta_tenant_id) =? a.(ta_tenant_id))%N && (row.(ta_sandbox_id) =? a.(ta_sandbox_id))%N
  && (row.(ta_requested_by_key_id) =? a.(ta_requested_by_key_id))%N
  && bool_decide (row.(ta_tool) = a.(ta_tool))
  && bool_decide (row.(ta_request_digest) = a.(ta_request_digest))
  && bool_decide (row.(ta_state) = ApprovalPending).

Definition put_guard_tool_approval (now : Instant) (a : GuardToolApproval) (d : MemoryData)
    : Op GuardToolApproval :=
  commit d (
    bail_if negb (digest_ok a.(ta_request_digest)) with StoreError.Conflict;
    bail_if a.(ta_expires_at) <=? a.(ta_created_at) with StoreError.Conflict;
    bail_if bool_decide (is_Some (d.(guard_tool_approvals) !! a.(ta_id))) with StoreError.Conflict;
    match List.find (same_live_request a) (values d.(guard_tool_approvals)) with
    | Some existing =>
        if existing.(ta_expires_at) <=? now then
          let reopened := with_expiry a.(ta_expires_at) existing in
          Ok (put_approval reopened d, reopened)
        else Ok (d, existing)
    | None => Ok (put_approval a d, a)
    end).

Record ApprovalDecisionRequest := {
  dr_tenant : Uuid; dr_sandbox : Uuid; dr_request_id : Uuid; dr_decision : ApprovalState;
  dr_decided_by_key_id : Uuid; dr_decided_by_label : string; dr_at : Instant }.

Definition decided (r : ApprovalDecisionRequest) (a : GuardToolApproval) : GuardToolApproval := {|
  ta_id := a.(ta_id); ta_sandbox_id := a.(ta_sandbox_id); ta_tenant_id := a.(ta_tenant_id);
  ta_tool := a.(ta_tool); ta_request_digest := a.(ta_request_digest); ta_detail := a.(ta_detail);
  ta_requested_by_key_id := a.(ta_requested_by_key_id);
  ta_requested_by_label := a.(ta_requested_by_label); ta_state := r.(dr_decision);
  ta_decided_by_key_id := Some r.(dr_decided_by_key_id);
  ta_decided_by_label := Some r.(dr_decided_by_label); ta_decided_at := Some r.(dr_at);
  ta_expires_at := a.(ta_expires_at); ta_consumed_at := a.(ta_consumed_at);
  ta_created_at := a.(ta_created_at) |}.

Definition may_decide (r : ApprovalDecisionRequest) (a : GuardToolApproval) : bool :=
  negb (negb (a.(ta_tenant_id) =? r.(dr_tenant))%N
        || negb (a.(ta_sandbox_id) =? r.(dr_sandbox))%N
        || negb (bool_decide (a.(ta_state) = ApprovalPending))
        || (a.(ta_requested_by_key_id) =? r.(dr_decided_by_key_id))%N
        || (r.(dr_at) <? a.(ta_created_at)) || (a.(ta_expires_at) <=? r.(dr_at))).

(** The row is written back under the key it was found at. *)
Definition decide_guard_tool_approval (r : ApprovalDecisionRequest) (d : MemoryData)
    : Op (option GuardToolApproval) :=
  if bool_decide (r.(dr_decision) = ApprovalPending) then (d, Ok None)
  else
    match d.(guard_tool_approvals) !! r.(dr_request_id) with
    | None => (d, Ok None)
    | Some a =>
        if may_decide r a then
          (set_guard_tool_approvals
             (<[r.(dr_request_id) := decided r a]> d.(guard_tool_approvals)) d,
           Ok (Some (decided r a)))
        else (d, Ok None)
    end.

Definition spendable (tenant sandbox : Uuid) (tool digest : string) (requested_by : Uuid)
    (now : Instant) (a : GuardToolApproval) : bool :=
  (a.(ta_tenant_id) =? tenant)%N && (a.(ta_sandbox_id) =? sandbox)%N
  && bool_decide (a.(ta_tool) = tool) && bool_decide (a.(ta_request_digest) = digest)
  && (a.(ta_requested_by_key_id) =? requested_by)%N
  && bool_decide (a.(ta_state) = ApprovalGranted) && bool_decide (a.(ta_consumed_at) = None)
  && (now <? a.(ta_expires_at))
  && match a.(ta_decided_at) with Some t => t <=? now | None => false end.

(** The order of [(decided_at, id)]. *)
Definition decided_leb (a b : GuardToolApproval) : bool :=
  match a.(ta_decided_at), b.(ta_decided_at) with
  | Some t, Some u => key_leb (t, a.(ta_id)) (u, b.(ta_id))
  | None, None => (a.(ta_id) <=? b.(ta_id))%N
  | None, Some _ => true
  | Some _, None => false
  end.

Definition consumed (now : Instant) (a : GuardToolApproval) : GuardToolApproval := {|
  ta_id := a.(ta_id); ta_sandbox_id := a.(ta_sandbox_id); ta_tenant_id := a.(ta_tenant_id);
  ta_tool := a.(ta_tool); ta_request_digest := a.(ta_request_digest); ta_detail := a.(ta_detail);
  ta_requested_by_key_id := a.(ta_requested_by_key_id);
  ta_requested_by_label := a.(ta_requested_by_label); ta_state := a.(ta_state);
  ta_decided_by_key_id := a.(ta_decided_by_key_id);
  ta_decided_by_label := a.(ta_decided_by_label); ta_decided_at := a.(ta_decided_at);
  ta_expires_at := a.(ta_expires_at); ta_consumed_at := Some now;
  ta_created_at := a.(ta_created_at) |}.

(** The second lookup is the source's [get_mut(..).expect(..)], which the invariant
    that a row sits under its own identifier makes succeed. *)
Definition consume_guard_tool_approval (tenant sandbox : Uuid) (tool digest : string)
    (requested_by : Uuid) (now : Instant) (d : MemoryData) : Op (option GuardToolApproval) :=
  match max_by decided_leb
          (base.filter (λ a, spendable tenant sandbox tool digest requested_by now a = true)
             (values d.(guard_tool_approvals))) with
  | None => (d, Ok None)
  | Some a =>
      match d.(guard_tool_approvals) !! a.(ta_id) with
      | None => (d, Ok None)
      | Some row =>
          (set_guard_tool_approvals (<[a.(ta_id) := consumed now row]> d.(guard_tool_approvals)) d,
           Ok (Some (consumed now row)))
      end
  end.

Definition approval_key (a : GuardToolApproval) : Instant * Uuid := (a.(ta_created_at), a.(ta_id)).

Definition list_guard_tool_approvals (tenant sandbox : Uuid) (limit : Z)
    (after : option PageCursor) (d : MemoryData) : list GuardToolApproval * option PageCursor :=
  listing approval_key
    (λ a, (a.(ta_tenant_id) =? tenant)%N && (a.(ta_sandbox_id) =? sandbox)%N)
    limit after (values d.(guard_tool_approvals)).

End Operations.

(** ** Runs of the store *)
Inductive op :=
| CreateSandbox (value : Sandbox)
| UpdateState (now : Instant) (tenant id : Uuid) (expected next : SandboxState)
    (runtime_path : option string)
| DeleteSandbox (now : Instant) (tenant id : Uuid)
| PutKey (value : ApiKeyRecord)
| RevokeKey (now : Instant) (tenant id : Uuid)
| AppendUsage (value : UsageEvent)
| RegisterNode (value : Node)
| PutTenant (value : TenantRecord)
| RenewLease (now now' : Instant) (tenant id : Uuid) (gen ttl_seconds : Z)
| Ledger (o : ledger_op)
| PutBudget (state : GuardBudgetState)
| Reserve (now now' : Instant) (identity : GuardIdentity) (fence : GuardFence)
    (debit : BudgetDebit)
| PutIncident (now : Instant) (incident : GuardIncident)
| MarkQuarantined (now now' : Instant) (tenant id : Uuid) (fence : GuardFence)
| UpdatePolicy (now : Instant) (tenant sandbox : Uuid) (config : GuardConfig) (hash : string)
| ReleaseQuarantine (now : Instant) (tenant sandbox : Uuid)
| PutProposal (p : GuardProposal)
| PutApproval (now : Instant) (a : GuardToolApproval)
| DecideApproval (r : ApprovalDecisionRequest)
| ConsumeApproval (tenant sandbox : Uuid) (tool digest : string) (requested_by : Uuid)
    (now : Instant).

Section Runs.
Context `{Host, HashOrder}.

Definition apply (o : op) (d : MemoryData) : MemoryData :=
  match o with
  | CreateSandbox value => (create_sandbox value d).1
  | UpdateState now tenant id expected next path =>
      (update_state now tenant id expected next path d).1
  | DeleteSandbox now tenant id => (delete_sandbox now tenant id d).1
  | PutKey value => (put_key value d).1
  | RevokeKey now tenant id => (revoke_key now tenant id d).1
  | AppendUsage value => (append_usage value d).1
  | RegisterNode value => (register_node value d).1
  | PutTenant value => (put_tenant value d).1
  | RenewLease now now' tenant id gen ttl => (renew_worker_lease now now' tenant id gen ttl d).1
  | Ledger o => apply_ledger o d
  | PutBudget state => (put_guard_budget state d).1
  | Reserve now now' identity fence debit =>
      (reserve_guard_budget now now' identity fence debit d).1
  | PutIncident now incident => (put_guard_incident now incident d).1
  | MarkQuarantined now now' tenant id fence =>
      (mark_guard_quarantined now now' tenant id fence d).1
  | UpdatePolicy now tenant sandbox config hash =>
      (update_guard_policy now tenant sandbox config hash d).1
  | ReleaseQuarantine now tenant sandbox => (release_guard_quarantine now tenant sandbox d).1
  | PutProposal p => (put_guard_proposal p d).1
  | PutApproval now a => (put_guard_tool_approval now a d).1
  | DecideApproval r => (decide_guard_tool_approval r d).1
  | ConsumeApproval tenant sandbox tool digest by_key now =>
      (consume_guard_tool_approval tenant sandbox tool digest by_key now d).1
  end.

(** [run leases ops]: the operations in order on a store that holds the given
    worker leases, which the scheduler writes. *)
Definition with_leases (ls : gmap Uuid WorkerLease) : MemoryData := set_leases ls empty_store.

Definition run (ops : list op) (d : MemoryData) : MemoryData := foldl (λ d o, apply o d) d ops.

End Runs.

(** ** Frames: the tables an operation does not write *)
Definition touches_sandboxes (o : op) : bool :=
  match o with
  | CreateSandbox _ | UpdateState _ _ _ _ _ _ | DeleteSandbox _ _ _ | MarkQuarantined _ _ _ _ _
  | UpdatePolicy _ _ _ _ _ | ReleaseQuarantine _ _ _ => true
  | _ => false
  end.

Definition touches_budgets (o : op) : bool :=
  match o with
  | PutBudget _ | Reserve _ _ _ _ _ | MarkQuarantined _ _ _ _ _ | ReleaseQuarantine _ _ _ => true
  | _ => false
  end.

Definition touches_approvals (o : op) : bool :=
  match o with PutApproval _ _ | DecideApproval _ | ConsumeApproval _ _ _ _ _ _ => true | _ => false end.

Section Frames.
Context `{Host, HashOrder}.

Lemma put_guard_proposal_frame {B} (f : MemoryData → B) p d :
  (∀ v d, f (set_guard_proposals v d) = f d) → f (put_guard_proposal p d).1 = f d.
Proof. intros Hf. unfold put_guard_proposal. repeat case_match; simpl; by rewrite ?Hf. Qed.

Lemma frame_sandboxes o d :
  touches_sandboxes o = false → (apply o d).(sandboxes) = d.(sandboxes).
Proof.
  destruct o; try done; intros _; cbn [apply];
    first [done | by apply apply_ledger_frame | by apply put_guard_proposal_frame
          | frame_op | idtac].
  - unfold decide_guard_tool_approval. by repeat case_match.
  - unfold consume_guard_tool_approval. by repeat case_match.
Qed.

Lemma frame_budgets o d :
  touches_budgets o = false → (apply o d).(guard_budgets) = d.(guard_budgets).
Proof.
  destruct o; try done; intros _; cbn [apply];
    first [done | by apply apply_ledger_frame | by apply put_guard_proposal_frame
          | frame_op | idtac].
  - unfold decide_guard_tool_approval. by repeat case_match.
  - unfold consume_guard_tool_approval. by repeat case_match.
Qed.

Lemma frame_approvals o d :
  touches_approvals o = false → (apply o d).(guard_tool_approvals) = d.(guard_tool_approvals).
Proof.
  destruct o; try done; intros _; cbn [apply];
    first [done | by apply apply_ledger_frame | by apply put_guard_proposal_frame
          | frame_op | idtac].
Qed.

Lemma frame_proposals o d :
  (∀ p, o ≠ PutProposal p) → (apply o d).(guard_proposals) = d.(guard_proposals).
Proof.
  destruct o; intros Hp; try (by destruct (Hp p)); cbn [apply];
    first [done | by apply apply_ledger_frame | frame_op | idtac].
  - unfold decide_guard_tool_approval. by repeat case_match.
  - unfold consume_guard_tool_approval. by repeat case_match.
Qed.

(** Every run of the store is a run of the ledger. *)
Lemma apply_ledger_step o d : ledger_step d (apply o d).
Proof.
  destruct o; try (apply ledger_own); apply ledger_other; cbn [apply]; split_and!;
    first [done | by apply put_guard_proposal_frame | frame_op | idtac].
  all: unfold decide_guard_tool_approval, consume_guard_tool_approval; by repeat case_match.
Qed.

End Frames.

(** ** The latch and the caps *)
Definition within_caps (b : GuardBudgetState) : Prop :=
  0 ≤ b.(model_requests) ≤ b.(max_model_requests_cap)
  ∧ 0 ≤ b.(b_bytes_in) ≤ b.(max_bytes_in) ∧ 0 ≤ b.(b_bytes_out) ≤ b.(max_bytes_out).

(** A budget belongs to its sandbox, is latched exactly while the sandbox is
    quarantined, and is never overspent. *)
Definition budget_for (id : Uuid) (s : Sandbox) (b : GuardBudgetState) : Prop :=
  b.(b_identity).(gi_sandbox_id) = id ∧ b.(b_identity).(gi_tenant_id) = s.(sb_tenant_id)
  ∧ (b.(quarantined) = true ↔ s.(sb_state) = Quarantined) ∧ within_caps b.

Record consistent (d : MemoryData) : Prop := {
  sandboxes_keyed : ∀ id s, d.(sandboxes) !! id = Some s → s.(sb_id) = id;
  budgets_owned : ∀ id b, d.(guard_budgets) !! id = Some b →
    ∃ s, d.(sandboxes) !! id = Some s ∧ budget_for id s b }.

(** The caps and debits a caller can pass are unsigned. *)
Definition unsigned (o : op) : Prop :=
  match o with
  | PutBudget b =>
      0 ≤ b.(max_model_requests_cap) ∧ 0 ≤ b.(max_bytes_in) ∧ 0 ≤ b.(max_bytes_out)
  | Reserve _ _ _ _ x => 0 ≤ x.(d_model_requests) ∧ 0 ≤ x.(d_bytes_in) ∧ 0 ≤ x.(d_bytes_out)
  | _ => True
  end.

Lemma owned_ok d tenant id s :
  owned d tenant id = Ok s ↔ d.(sandboxes) !! id = Some s ∧ s.(sb_tenant_id) = tenant.
Proof.
  unfold owned. destruct (sandboxes d !! id) as [s'|]; [|naive_solver].
  destruct (N.eqb_spec (sb_tenant_id s') tenant); naive_solver.
Qed.

Lemma add_ok used amount cap n :
  add used amount cap = Ok n ↔ n = used + amount ∧ used + amount ≤ u64_max ∧ used + amount ≤ cap.
Proof.
  unfold add. destruct (checked_add u64_max used amount) as [m|] eqn:Hm.
  - apply checked_add_Some in Hm as [-> Hm]. destruct (Z.ltb_spec cap (used + amount)); naive_solver lia.
  - unfold checked_add in Hm. destruct (Z.leb_spec (used + amount) u64_max); naive_solver lia.
Qed.

(** A reservation adds the debit to each counter and changes nothing else. *)
Lemma reserve_ok b s identity x now b' :
  reserve b s identity x now = Ok b' →
  b.(b_identity) = identity ∧ b.(quarantined) = false ∧ consumes s.(sb_state) = true
  ∧ now < b.(b_expires_at)
  ∧ b' = with_usage b b.(b_identity).(gi_policy_hash) (b.(model_requests) + x.(d_model_requests))
           (b.(b_bytes_in) + x.(d_bytes_in)) (b.(b_bytes_out) + x.(d_bytes_out)) false
  ∧ b'.(model_requests) ≤ b.(max_model_requests_cap) ∧ b'.(b_bytes_in) ≤ b.(max_bytes_in)
  ∧ b'.(b_bytes_out) ≤ b.(max_bytes_out).
Proof.
  unfold reserve. intros H. ok_inv H.
  apply add_ok in Hok as (-> & _ & ?), Hok0 as (-> & _ & ?), Hok1 as (-> & _ & ?).
  bools. apply Z.leb_gt in Hif2. injection H as <-. simpl. by split_and!.
Qed.

(** The part of a budget no operation changes. *)
Definition same_terms (b b' : GuardBudgetState) : Prop :=
  b'.(max_model_requests_cap) = b.(max_model_requests_cap) ∧ b'.(max_bytes_in) = b.(max_bytes_in)
  ∧ b'.(max_bytes_out) = b.(max_bytes_out) ∧ b'.(b_expires_at) = b.(b_expires_at)
  ∧ b'.(b_identity).(gi_sandbox_id) = b.(b_identity).(gi_sandbox_id)
  ∧ b'.(b_identity).(gi_tenant_id) = b.(b_identity).(gi_tenant_id).

Lemma initialize_ok e b b' :
  initialize e b = Ok b' →
  b'.(b_identity) = b.(b_identity) ∧ b'.(max_model_requests_cap) = b.(max_model_requests_cap)
  ∧ b'.(max_bytes_in) = b.(max_bytes_in) ∧ b'.(max_bytes_out) = b.(max_bytes_out)
  ∧ match e with
    | Some e =>
        b'.(quarantined) = e.(quarantined) ∧ b'.(model_requests) = e.(model_requests)
        ∧ b'.(b_bytes_in) = e.(b_bytes_in) ∧ b'.(b_bytes_out) = e.(b_bytes_out)
        ∧ same_terms e b'
    | None =>
        b'.(quarantined) = false ∧ b'.(model_requests) = 0 ∧ b'.(b_bytes_in) = 0
        ∧ b'.(b_bytes_out) = 0
    end.
Proof.
  unfold initialize. intros H. destruct e as [e|]; ok_inv H; injection H as <-; bools;
    repeat match goal with
    | H : (_ =? _)%N = true |- _ => apply N.eqb_eq in H
    | H : (_ =? _) = true |- _ => apply Z.eqb_eq in H
    end; simpl.
  - split_and!; try done. destruct (b_identity b) eqn:Hb. simpl in *. by f_equal.
  - by split_and!.
Qed.

Lemma consistent_update d d' id s' :
  consistent d →
  (∀ i, i ≠ id → d'.(sandboxes) !! i = d.(sandboxes) !! i
                 ∧ d'.(guard_budgets) !! i = d.(guard_budgets) !! i) →
  d'.(sandboxes) !! id = Some s' → s'.(sb_id) = id →
  (∀ b, d'.(guard_budgets) !! id = Some b → budget_for id s' b) → consistent d'.
Proof.
  intros [Hk Hb] Hframe Hs Hid Hnew. split.
  - intros i s Hi. destruct (decide (i = id)) as [->|Hne]; [naive_solver|].
    apply Hk. by rewrite <-(proj1 (Hframe i Hne)).
  - intros i b Hi. destruct (decide (i = id)) as [->|Hne]; [eauto|].
    rewrite (proj1 (Hframe i Hne)). apply Hb. by rewrite <-(proj2 (Hframe i Hne)).
Qed.

Lemma consistent_frame d d' :
  consistent d → d'.(sandboxes) = d.(sandboxes) → d'.(guard_budgets) = d.(guard_budgets) →
  consistent d'.
Proof. intros [Hk Hb] H1 H2. split; by rewrite ?H1, ?H2. Qed.

(** Rewriting one sandbox row without moving it in or out of quarantine. *)
Lemma consistent_put_sandbox d id s s' :
  consistent d → d.(sandboxes) !! id = Some s → s'.(sb_id) = s.(sb_id) →
  s'.(sb_tenant_id) = s.(sb_tenant_id) →
  (s'.(sb_state) = Quarantined ↔ s.(sb_state) = Quarantined) → consistent (put_sandbox id s' d).
Proof.
  intros Hc Hs Hid Ht Hq. eapply (consistent_update d _ id s'); [done| | | |]; simpl.
  - intros i Hi. by rewrite lookup_insert_ne.
  - apply lookup_insert_eq.
  - rewrite Hid. by apply (sandboxes_keyed d Hc).
  - intros b Hb. destruct (budgets_owned d Hc id b Hb) as (s0 & Hs0 & Hfor). simplify_eq.
    unfold budget_for in *. rewrite Ht, Hq. tauto.
Qed.

Lemma consistent_put_budget d id s b :
  consistent d → d.(sandboxes) !! id = Some s → budget_for id s b → consistent (put_budget id b d).
Proof.
  intros Hc Hs Hb. eapply (consistent_update d _ id s); [done| |done| |]; simpl.
  - intros i Hi. by rewrite lookup_insert_ne.
  - by apply (sandboxes_keyed d Hc).
  - intros b'. rewrite lookup_insert_eq. naive_solver.
Qed.

Section Consistency.
Context `{Host, HashOrder}.

Lemma create_sandbox_consistent v d : consistent d → consistent (create_sandbox v d).1.
Proof.
  intros Hc. apply (commit_preserves consistent); [done|]. intros d' [] Hr. cbv zeta in Hr. ok_inv Hr. simplify_eq.
  apply bool_decide_eq_false, eq_None_not_Some in Hif.
  eapply (consistent_update d _ v.(sb_id) v); [done| | |done|]; simpl.
  - intros i Hi. by rewrite lookup_insert_ne.
  - apply lookup_insert_eq.
  - intros b Hb. destruct (budgets_owned d Hc _ _ Hb) as (s & Hs & _). by rewrite Hif in Hs.
Qed.

(** The transition table has no edge into or out of quarantine that [update_state]
    lets through. *)
Lemma update_state_consistent now tenant id expected next path d :
  consistent d → consistent (update_state now tenant id expected next path d).1.
Proof.
  intros Hc. apply (commit_preserves consistent); [done|]. intros d' s' Hr. cbv zeta in Hr. ok_inv Hr.
  apply owned_ok in Hok as [Hs Ht]. case_bool_decide as Hst; [by simplify_eq|].
  ok_inv Hr. simplify_eq. eapply consistent_put_sandbox; [done|exact Hs|done|done|]. simpl.
  apply orb_false_iff in Hif0 as [_ Hmove%negb_false_iff]. split; intros Hq.
  - apply andb_false_iff in Hif as [Hif|Hif]; bools; done.
  - rewrite Hq in Hmove. by destruct next.
Qed.

Lemma delete_sandbox_consistent now tenant id d :
  consistent d → consistent (delete_sandbox now tenant id d).1.
Proof.
  intros Hc. apply (commit_preserves consistent); [done|]. intros d' [] Hr. cbv zeta in Hr. ok_inv Hr.
  apply owned_ok in Hok as [Hs Ht]. bools. simplify_eq.
  by eapply consistent_put_sandbox; [|exact Hs| | |].
Qed.

Lemma update_guard_policy_consistent now tenant id config hash d :
  consistent d → consistent (update_guard_policy now tenant id config hash d).1.
Proof.
  intros Hc. apply (commit_preserves consistent); [done|]. intros d' [] Hr. cbv zeta in Hr. ok_inv Hr.
  apply owned_ok in Hok as [Hs Ht]. simplify_eq.
  by eapply consistent_put_sandbox; [|exact Hs| | |].
Qed.

Lemma put_guard_budget_consistent b d :
  unsigned (PutBudget b) → consistent d → consistent (put_guard_budget b d).1.
Proof.
  intros (Hu1 & Hu2 & Hu3) Hc. apply (commit_preserves consistent); [done|].
  intros d' b' Hr. cbv zeta in Hr. ok_inv Hr. apply owned_ok in Hok as [Hs Ht].
  pose proof (sandboxes_keyed d Hc _ _ Hs) as Hid. rewrite Hid in *. simplify_eq.
  eapply consistent_put_budget; [done|exact Hs|].
  apply initialize_ok in Hok0 as (Hident & Hc1 & Hc2 & Hc3 & He).
  destruct (guard_budgets d !! _) as [e|] eqn:Hb.
  - destruct (budgets_owned d Hc _ _ Hb) as (s & Hs' & _ & _ & Hl & Hcaps). simplify_eq.
    destruct He as (Hq & Hm & Hi & Ho & ? & ? & ? & _). unfold budget_for, within_caps in *.
    case_bool_decide as Hst; simpl; rewrite ?Hident, ?Hm, ?Hi, ?Ho; rewrite ?Hq;
      (split_and!; [done|done|tauto|lia..]).
  - destruct He as (Hq & Hm & Hi & Ho). unfold budget_for, within_caps.
    case_bool_decide as Hst; simpl; rewrite ?Hident, ?Hm, ?Hi, ?Ho, ?Hq;
      (split_and!; [done|done|naive_solver|lia..]).
Qed.

Lemma reserve_guard_budget_consistent now now' identity fence x d :
  unsigned (Reserve now now' identity fence x) → consistent d →
  consistent (reserve_guard_budget now now' identity fence x d).1.
Proof.
  intros (Hu1 & Hu2 & Hu3) Hc. apply (commit_preserves consistent); [done|].
  intros d' b' Hr. cbv zeta in Hr. ok_inv Hr. apply owned_ok in Hok as [Hs Ht].
  pose proof (sandboxes_keyed d Hc _ _ Hs) as Hid. rewrite Hid in *. simplify_eq.
  unfold ok_or in Hok1. destruct (guard_budgets d !! _) as [e|] eqn:Hb; simplify_eq.
  destruct (budgets_owned d Hc _ _ Hb) as (s & Hs' & Hi1 & Hi2 & Hl & Hcaps). simplify_eq.
  apply reserve_ok in Hok2 as (? & Hq & _ & _ & -> & ? & ? & ?). simpl in *.
  eapply consistent_put_budget; [done|exact Hs|].
  unfold budget_for, within_caps in *. simpl. rewrite Hq in Hl.
  split_and!; [done|done|done|lia..].
Qed.

Lemma mark_guard_quarantined_consistent now now' tenant id fence d :
  consistent d → consistent (mark_guard_quarantined now now' tenant id fence d).1.
Proof.
  intros Hc. apply (commit_preserves consistent); [done|]. intros d' s' Hr.
  cbv zeta in Hr. ok_inv Hr. apply owned_ok in Hok as [Hs Ht].
  unfold ok_or in Hok1. destruct (guard_budgets d !! _) as [e|] eqn:Hb; simplify_eq.
  destruct (budgets_owned d Hc _ _ Hb) as (s & Hs'' & Hi1 & Hi2 & Hl & Hcaps). simplify_eq.
  case_bool_decide as Hst; simplify_eq.
  - eapply consistent_put_budget; [done|exact Hs|]. by split_and!.
  - eapply (consistent_update d _ (gi_sandbox_id (b_identity a1))); [done| |simpl; apply lookup_insert_eq| |];
      simpl.
    + intros i Hi. by rewrite !lookup_insert_ne.
    + by apply (sandboxes_keyed d Hc).
    + intros b. rewrite lookup_insert_eq. intros [= <-]. by split_and!.
Qed.

Lemma release_guard_quarantine_consistent now tenant id d :
  consistent d → consistent (release_guard_quarantine now tenant id d).1.
Proof.
  intros Hc. apply (commit_preserves consistent); [done|]. intros d' s' Hr.
  cbv zeta in Hr. ok_inv Hr. apply owned_ok in Hok as [Hs Ht]. simplify_eq.
  eapply (consistent_update d _ id); [done| |simpl; apply lookup_insert_eq| |]; simpl.
  - intros i Hi. by rewrite lookup_insert_ne, lookup_alter_ne.
  - by apply (sandboxes_keyed d Hc).
  - intros b. rewrite lookup_alter_eq. destruct (guard_budgets d !! id) as [e|] eqn:Hb; [|done].
    intros [= <-]. destruct (budgets_owned d Hc _ _ Hb) as (s & Hs' & Hi1 & Hi2 & Hl & Hcaps).
    simplify_eq. by split_and!.
Qed.

Lemma apply_consistent o d : unsigned o → consistent d → consistent (apply o d).
Proof.
  intros Hu Hc. destruct o;
    try (eapply consistent_frame; [exact Hc|by apply frame_sandboxes|by apply frame_budgets]);
    cbn [apply].
  - by apply create_sandbox_consistent.
  - by apply update_state_consistent.
  - by apply delete_sandbox_consistent.
  - by apply put_guard_budget_consistent.
  - by apply reserve_guard_budget_consistent.
  - by apply mark_guard_quarantined_consistent.
  - by apply update_guard_policy_consistent.
  - by apply release_guard_quarantine_consistent.
Qed.

Lemma run_consistent ops d : Forall unsigned ops → consistent d → consistent (run ops d).
Proof.
  intros Hu. revert d. induction Hu as [|o ops Ho _ IH]; intros d Hc; [done|].
  by apply IH, apply_consistent.
Qed.

Lemma with_leases_consistent ls : consistent (with_leases ls).
Proof. by split. Qed.

End Consistency.

(** ** Accounting *)
Definition no_debit : BudgetDebit := {| d_model_requests := 0; d_bytes_in := 0; d_bytes_out := 0 |}.

Definition add_debit (x y : BudgetDebit) : BudgetDebit := {|
  d_model_requests := x.(d_model_requests) + y.(d_model_requests);
  d_bytes_in := x.(d_bytes_in) + y.(d_bytes_in);
  d_bytes_out := x.(d_bytes_out) + y.(d_bytes_out) |}.

(** What is booked on a budget. *)
Definition booked (b : GuardBudgetState) : BudgetDebit := {|
  d_model_requests := b.(model_requests); d_bytes_in := b.(b_bytes_in);
  d_bytes_out := b.(b_bytes_out) |}.

Definition usage_of (id : Uuid) (d : MemoryData) : BudgetDebit :=
  match d.(guard_budgets) !! id with Some b => booked b | None => no_debit end.

Section Accounting.
Context `{Host, HashOrder}.

(** The debit an operation is granted for a sandbox. *)
Definition granted (id : Uuid) (o : op) (d : MemoryData) : BudgetDebit :=
  match o with
  | Reserve now now' identity fence x =>
      if (identity.(gi_sandbox_id) =? id)%N
         && is_ok (reserve_guard_budget now now' identity fence x d).2
      then x else no_debit
  | _ => no_debit
  end.

Fixpoint spent (id : Uuid) (ops : list op) (d : MemoryData) : BudgetDebit :=
  match ops with
  | [] => no_debit
  | o :: ops => add_debit (granted id o d) (spent id ops (apply o d))
  end.

Lemma add_debit_zero x : add_debit x no_debit = x.
Proof. destruct x. unfold add_debit. simpl. f_equal; lia. Qed.

Lemma add_debit_assoc x y z : add_debit x (add_debit y z) = add_debit (add_debit x y) z.
Proof. unfold add_debit. simpl. f_equal; lia. Qed.

Lemma usage_put_budget id i b d :
  usage_of i (put_budget id b d) = if decide (id = i) then booked b else usage_of i d.
Proof.
  unfold usage_of, put_budget. simpl. case_decide as Hi.
  - subst. by rewrite lookup_insert_eq.
  - by rewrite lookup_insert_ne.
Qed.

Lemma put_guard_budget_usage i b d : usage_of i (put_guard_budget b d).1 = usage_of i d.
Proof.
  apply commit_frame. intros d' b' Hr. cbv zeta in Hr. ok_inv Hr. injection Hr as <- <-.
  rewrite usage_put_budget. case_decide; [subst i|done].
  apply initialize_ok in Hok0 as (_ & _ & _ & _ & He). unfold usage_of, booked, no_debit.
  destruct (guard_budgets d !! _) as [e|].
  - destruct He as (_ & Hm & Hi & Ho & _).
    case_bool_decide; simpl; by rewrite ?Hm, ?Hi, ?Ho.
  - destruct He as (_ & Hm & Hi & Ho). case_bool_decide; simpl; by rewrite ?Hm, ?Hi, ?Ho.
Qed.

Lemma mark_guard_quarantined_usage i now now' tenant id fence d :
  usage_of i (mark_guard_quarantined now now' tenant id fence d).1 = usage_of i d.
Proof.
  apply commit_frame. intros d' s' Hr. cbv zeta in Hr. ok_inv Hr.
  unfold ok_or in Hok1. destruct (guard_budgets d !! id) as [e|] eqn:Hb; [|done].
  injection Hok1 as <-.
  assert (usage_of i (put_budget id (set_quarantined true e) d) = usage_of i d) as Hu.
  { rewrite usage_put_budget. destruct (decide (id = i)) as [<-|]; [|done].
    unfold usage_of. by rewrite Hb. }
  case_bool_decide; by simplify_eq.
Qed.

Lemma release_guard_quarantine_usage i now tenant id d :
  usage_of i (release_guard_quarantine now tenant id d).1 = usage_of i d.
Proof.
  apply commit_frame. intros d' s' Hr. cbv zeta in Hr. ok_inv Hr. simplify_eq.
  unfold usage_of. simpl. destruct (decide (id = i)) as [->|].
  - rewrite lookup_alter_eq. by destruct (guard_budgets d !! i).
  - by rewrite lookup_alter_ne.
Qed.

Lemma reserve_guard_budget_usage i now now' identity fence x d :
  consistent d →
  usage_of i (reserve_guard_budget now now' identity fence x d).1
  = add_debit (usage_of i d) (granted i (Reserve now now' identity fence x) d).
Proof.
  intros Hc. cbn [granted]. unfold reserve_guard_budget.
  destruct (let? _ := owned _ _ _ in _) as [[d' b']|] eqn:Hr; simpl.
  2:{ by rewrite andb_false_r, add_debit_zero. }
  rewrite andb_true_r. ok_inv Hr. apply owned_ok in Hok as [Hs Ht].
  rewrite (sandboxes_keyed d Hc _ _ Hs) in *. injection Hr as <- <-.
  rewrite usage_put_budget. destruct (N.eqb_spec (gi_sandbox_id identity) i) as [<-|Hne].
  - rewrite decide_True by done. unfold ok_or in Hok1. unfold usage_of.
    destruct (guard_budgets d !! _); [|done]. injection Hok1 as ->.
    by apply reserve_ok in Hok2 as (_ & _ & _ & _ & -> & _).
  - by rewrite decide_False, add_debit_zero.
Qed.

Lemma apply_usage id o d :
  consistent d → usage_of id (apply o d) = add_debit (usage_of id d) (granted id o d).
Proof.
  intros Hc. destruct (touches_budgets o) eqn:Ht.
  - destruct o; try done; cbn [apply].
    + rewrite put_guard_budget_usage. simpl. by rewrite add_debit_zero.
    + by apply reserve_guard_budget_usage.
    + rewrite mark_guard_quarantined_usage. simpl. by rewrite add_debit_zero.
    + rewrite release_guard_quarantine_usage. simpl. by rewrite add_debit_zero.
  - unfold usage_of. rewrite frame_budgets by done.
    destruct o; try done; simpl; by rewrite add_debit_zero.
Qed.

Lemma run_usage id ops d :
  Forall unsigned ops → consistent d →
  usage_of id (run ops d) = add_debit (usage_of id d) (spent id ops d).
Proof.
  intros Hu. revert d. induction Hu as [|o ops Ho _ IH]; intros d Hc; simpl.
  { by rewrite add_debit_zero. }
  change (foldl _ (apply o d) ops) with (run ops (apply o d)).
  rewrite IH by (by apply apply_consistent). by rewrite apply_usage, add_debit_assoc.
Qed.

Lemma same_terms_refl b : same_terms b b.
Proof. by split_and!. Qed.

Lemma same_terms_trans a b c : same_terms a b → same_terms b c → same_terms a c.
Proof. unfold same_terms. intuition congruence. Qed.

Lemma apply_terms o d id b :
  consistent d → d.(guard_budgets) !! id = Some b →
  ∃ b', (apply o d).(guard_budgets) !! id = Some b' ∧ same_terms b b'.
Proof.
  intros Hc Hb. destruct (touches_budgets o) eqn:Ht.
  2:{ exists b. rewrite frame_budgets by done. by split; [|apply same_terms_refl]. }
  set (P := λ d, ∃ b', guard_budgets d !! id = Some b' ∧ same_terms b b').
  assert (HP : P d) by (exists b; split; [done|apply same_terms_refl]).
  assert (Hput : ∀ i b', (i = id → same_terms b b') → P (put_budget i b' d)).
  { intros i b' Hi. unfold P, put_budget. simpl. destruct (decide (i = id)) as [->|].
    - rewrite lookup_insert_eq. eauto.
    - rewrite lookup_insert_ne by done. exact HP. }
  destruct o; try done; cbn [apply]; apply (commit_preserves P); try done; intros d' r Hr;
    cbv zeta in Hr; ok_inv Hr.
  - apply owned_ok in Hok as [Hs _]. rewrite (sandboxes_keyed d Hc _ _ Hs) in *. simplify_eq.
    apply Hput. intros Hi. rewrite Hi, Hb in Hok0.
    apply initialize_ok in Hok0 as (_ & _ & _ & _ & _ & _ & _ & _ & Hterms).
    by case_bool_decide.
  - apply owned_ok in Hok as [Hs _]. rewrite (sandboxes_keyed d Hc _ _ Hs) in *. simplify_eq.
    apply Hput. intros Hi. unfold ok_or in Hok1. rewrite Hi, Hb in Hok1. simplify_eq.
    apply reserve_ok in Hok2 as (_ & _ & _ & _ & -> & _). by split_and!.
  - unfold ok_or in Hok1. destruct (guard_budgets d !! id0) as [e|] eqn:He; [|done]. injection Hok1 as <-.
    assert (HP' : P (put_budget id0 (set_quarantined true e) d)).
    { apply Hput. intros ->. simplify_eq. by split_and!. }
    case_bool_decide; by simplify_eq.
  - simplify_eq. unfold P. simpl. destruct (decide (sandbox = id)) as [->|].
    + rewrite lookup_alter_eq, Hb. eexists. split; [done|]. by split_and!.
    + rewrite lookup_alter_ne by done. exact HP.
Qed.

End Accounting.

(** ** What an operation can do to a sandbox row *)
Section Rows.
Context `{Host, HashOrder}.

Definition row_move (o : op) (d : MemoryData) (id : Uuid) (s s' : Sandbox) : Prop :=
  s'.(sb_state) = s.(sb_state)
  ∨ (s.(sb_state) ≠ Quarantined ∧ s'.(sb_state) ≠ Quarantined)
  ∨ (s.(sb_state) = Quarantined ∧ s'.(sb_state) = Paused
     ∧ ∃ now, o = ReleaseQuarantine now s.(sb_tenant_id) id)
  ∨ (s.(sb_state) ≠ Quarantined ∧ s'.(sb_state) = Quarantined
     ∧ ∃ now now' fence, o = MarkQuarantined now now' s.(sb_tenant_id) id fence
       ∧ memory_lease now s.(sb_tenant_id) id fence d = Ok ()
       ∧ can_transition_to s.(sb_state) Quarantined = true).

(** Writing another row, or the row itself by a legal move, is a legal move. *)
Lemma put_sandbox_move o d d' id s i s0 s' :
  d.(sandboxes) !! id = Some s → d.(sandboxes) !! i = Some s0 →
  d'.(sandboxes) = <[i := s']> d.(sandboxes) → s'.(sb_tenant_id) = s0.(sb_tenant_id) →
  row_move o d i s0 s' →
  ∃ s'', d'.(sandboxes) !! id = Some s'' ∧ s''.(sb_tenant_id) = s.(sb_tenant_id)
         ∧ row_move o d id s s''.
Proof.
  intros Hs Hi Hd Ht Hm. rewrite Hd. destruct (decide (i = id)) as [->|].
  - simplify_eq. exists s'. by rewrite lookup_insert_eq.
  - exists s. rewrite lookup_insert_ne by done. split_and!; [done|done|by left].
Qed.

Lemma sandbox_row_move o d id s :
  d.(sandboxes) !! id = Some s →
  ∃ s', (apply o d).(sandboxes) !! id = Some s' ∧ s'.(sb_tenant_id) = s.(sb_tenant_id)
        ∧ row_move o d id s s'.
Proof.
  intros Hs. destruct (touches_sandboxes o) eqn:Ht.
  2:{ exists s. rewrite frame_sandboxes by done. split_and!; [done|done|by left]. }
  assert (Hd : ∃ s', d.(sandboxes) !! id = Some s' ∧ s'.(sb_tenant_id) = s.(sb_tenant_id)
                     ∧ row_move o d id s s') by (exists s; split_and!; [done|done|by left]).
  set (P := λ d', ∃ s', sandboxes d' !! id = Some s' ∧ sb_tenant_id s' = sb_tenant_id s
                        ∧ row_move o d id s s').
  destruct o; try done; cbn [apply]; apply (commit_preserves P); try exact Hd; intros d' r Hr;
    cbv zeta in Hr; ok_inv Hr; try (apply owned_ok in Hok as [Hrow Hten]).
  - apply bool_decide_eq_false, eq_None_not_Some in Hif. simplify_eq. exists s. simpl.
    rewrite lookup_insert_ne by congruence. split_and!; [done|done|by left].
  - case_bool_decide; [by simplify_eq|]. ok_inv Hr. simplify_eq.
    eapply put_sandbox_move; [exact Hs|exact Hrow|done|done|]. right; left. simpl.
    apply orb_false_iff in Hif0 as [_ Hmove%negb_false_iff].
    split; intros Hq; rewrite Hq in *; [by destruct next|].
    apply andb_false_iff in Hif as [Hif|Hif]; bools; [done|]. by rewrite Hif in *.
  - bools. simplify_eq. eapply put_sandbox_move; [exact Hs|exact Hrow|done|done|].
    by right; left.
  - case_bool_decide as Hq; simplify_eq; [exact Hd|].
    eapply put_sandbox_move; [exact Hs|exact Hrow|done|done|]. right; right; right.
    rewrite andb_true_l in Hif. apply negb_false_iff in Hif.
    split_and!; [done|done|]. by do 3 eexists.
  - simplify_eq. eapply put_sandbox_move; [exact Hs|exact Hrow|done|done|]. by left.
  - bools. simplify_eq. eapply put_sandbox_move; [exact Hs|exact Hrow|done|done|].
    right; right; left. split_and!; [done|done|by eexists].
Qed.

(** A fence the store accepts names a lease it holds. *)
Lemma memory_lease_ok `{!HashOrderLaws H0} now tenant id fence d :
  memory_lease now tenant id fence d = Ok () →
  ∃ k lease, d.(leases) !! k = Some lease ∧ lease.(le_id) = fence.(lease_id)
    ∧ lease.(le_tenant_id) = tenant ∧ lease.(le_sandbox_id) = id
    ∧ lease.(le_status) = "active"%string ∧ now < lease.(le_expires_at)
    ∧ 0 < fence.(generation) ≤ lease.(le_generation).
Proof.
  unfold memory_lease, validate_fence, ok_or. intros Hr.
  destruct (List.find _ _) as [lease|] eqn:Hf; [|done]. apply List.find_some in Hf as [Hin Hact].
  apply list_elem_of_In, elem_of_values in Hin as [k Hk]. unfold active in Hact.
  ok_inv Hr. bools. exists k, lease.
  repeat match goal with
  | H : (_ =? _)%N = true |- _ => apply N.eqb_eq in H
  | H : (_ <=? _) = false |- _ => apply Z.leb_gt in H
  | H : (_ <? _) = false |- _ => apply Z.ltb_ge in H
  end. by split_and!.
Qed.

End Rows.

(** ** Approvals *)

(** Requests enter the store the way the approval route of the API writes them. *)
Definition fresh_request (o : op) : Prop :=
  match o with
  | PutApproval _ a =>
      a.(ta_state) = ApprovalPending ∧ a.(ta_decided_by_key_id) = None
      ∧ a.(ta_decided_at) = None ∧ a.(ta_consumed_at) = None
  | _ => True
  end.

(** A decision was taken by another key, while the request was open. *)
Definition decided_by_other (a : GuardToolApproval) : Prop :=
  ∃ k t, a.(ta_decided_by_key_id) = Some k ∧ k ≠ a.(ta_requested_by_key_id)
         ∧ a.(ta_decided_at) = Some t ∧ a.(ta_created_at) ≤ t < a.(ta_expires_at).

Definition approval_ok (id : Uuid) (a : GuardToolApproval) : Prop :=
  a.(ta_id) = id
  ∧ match a.(ta_state) with
    | ApprovalPending => a.(ta_consumed_at) = None
    | ApprovalGranted => decided_by_other a
    | ApprovalDenied => decided_by_other a ∧ a.(ta_consumed_at) = None
    end.

Definition approvals_ok (d : MemoryData) : Prop :=
  ∀ id a, d.(guard_tool_approvals) !! id = Some a → approval_ok id a.

Lemma max_by_elem {A} (leb : A → A → bool) l x : max_by leb l = Some x → x ∈ l.
Proof.
  unfold max_by. assert (Hg : ∀ acc, foldl (λ best x, match best with
      | Some b => Some (if leb b x then x else b) | None => Some x end) acc l = Some x →
      acc = Some x ∨ x ∈ l).
  { induction l as [|y l IH]; intros acc Hx; simpl in Hx; [by left|].
    apply IH in Hx as [Hx|Hx]; [|by right; right]. destruct acc as [b|]; simplify_eq.
    - destruct (leb b y); [right; left|by left].
    - right. left. }
  intros Hx. by destruct (Hg None Hx).
Qed.

Section Approvals.
Context `{Host, HashOrder, !HashOrderLaws H0}.

(** The three writers of the table replace one row by what the source computes. *)
Lemma consume_effect tenant sandbox tool digest key now d :
  approvals_ok d →
  consume_guard_tool_approval tenant sandbox tool digest key now d = (d, Ok None)
  ∨ ∃ a, d.(guard_tool_approvals) !! a.(ta_id) = Some a
         ∧ spendable tenant sandbox tool digest key now a = true
         ∧ consume_guard_tool_approval tenant sandbox tool digest key now d
           = (put_approval (consumed now a) d, Ok (Some (consumed now a))).
Proof.
  intros Hok. unfold consume_guard_tool_approval.
  destruct (max_by _ _) as [a|] eqn:Hm; [right|by left].
  apply max_by_elem, list_elem_of_filter in Hm as [Hsp Hin].
  apply elem_of_values in Hin as [k Hk]. destruct (Hok _ _ Hk) as [Hid _].
  exists a. rewrite Hid, Hk. split_and!; [done|done|]. unfold put_approval. simpl. by rewrite Hid.
Qed.

Lemma decide_effect r d :
  decide_guard_tool_approval r d = (d, Ok None)
  ∨ ∃ a, d.(guard_tool_approvals) !! r.(dr_request_id) = Some a ∧ may_decide r a = true
         ∧ r.(dr_decision) ≠ ApprovalPending
         ∧ (decide_guard_tool_approval r d).1.(guard_tool_approvals)
           = <[r.(dr_request_id) := decided r a]> d.(guard_tool_approvals).
Proof.
  unfold decide_guard_tool_approval. case_bool_decide; [by left|].
  destruct (guard_tool_approvals d !! _) as [a|]; [|by left].
  destruct (may_decide r a) eqn:Hd; [right|by left]. by exists a.
Qed.

Lemma put_effect now a d :
  approvals_ok d →
  (put_guard_tool_approval now a d).1 = d
  ∨ (∃ e, d.(guard_tool_approvals) !! e.(ta_id) = Some e ∧ e.(ta_state) = ApprovalPending
          ∧ (put_guard_tool_approval now a d).1 = put_approval (with_expiry a.(ta_expires_at) e) d)
  ∨ d.(guard_tool_approvals) !! a.(ta_id) = None
    ∧ (put_guard_tool_approval now a d).1 = put_approval a d.
Proof.
  intros Hok. unfold put_guard_tool_approval.
  destruct (negb (digest_ok _)); [by left|]. destruct (_ <=? _); [by left|].
  case_bool_decide as Hnew; [by left|]. apply eq_None_not_Some in Hnew.
  destruct (List.find _ _) as [e|] eqn:Hf; [|by right; right].
  apply List.find_some in Hf as [Hin He]. apply list_elem_of_In, elem_of_values in Hin as [k Hk].
  destruct (Hok _ _ Hk) as [Hid _]. unfold same_live_request in He. bools.
  destruct (_ <=? now); [right; left|by left]. exists e. by rewrite Hid.
Qed.

Lemma may_decide_true r a :
  may_decide r a = true →
  a.(ta_state) = ApprovalPending ∧ a.(ta_requested_by_key_id) ≠ r.(dr_decided_by_key_id)
  ∧ a.(ta_created_at) ≤ r.(dr_at) < a.(ta_expires_at).
Proof.
  unfold may_decide. intros H1. bools.
  repeat match goal with
  | H : (_ =? _)%N = false |- _ => apply N.eqb_neq in H
  | H : (_ <=? _) = false |- _ => apply Z.leb_gt in H
  | H : (_ <? _) = false |- _ => apply Z.ltb_ge in H
  end. by split_and!.
Qed.

Lemma spendable_true tenant sandbox tool digest key now a :
  spendable tenant sandbox tool digest key now a = true →
  a.(ta_tenant_id) = tenant ∧ a.(ta_sandbox_id) = sandbox ∧ a.(ta_tool) = tool
  ∧ a.(ta_request_digest) = digest ∧ a.(ta_requested_by_key_id) = key
  ∧ a.(ta_state) = ApprovalGranted ∧ a.(ta_consumed_at) = None ∧ now < a.(ta_expires_at)
  ∧ ∃ t, a.(ta_decided_at) = Some t ∧ t ≤ now.
Proof.
  unfold spendable. intros H1. bools.
  repeat match goal with
  | H : (_ =? _)%N = true |- _ => apply N.eqb_eq in H
  | H : (_ <? _) = true |- _ => apply Z.ltb_lt in H
  end. split_and!; try done. destruct (ta_decided_at a) as [t|]; [|done]. exists t.
  split; [done|by apply Z.leb_le].
Qed.

(** A row the store already decided about does not change but to be spent. *)
Lemma approval_row_fate o d i a :
  approvals_ok d → d.(guard_tool_approvals) !! i = Some a → a.(ta_consumed_at) ≠ None →
  (apply o d).(guard_tool_approvals) !! i = Some a.
Proof.
  intros Hok Hi Hc. destruct (Hok _ _ Hi) as [Hid Hst].
  assert (Hg : a.(ta_state) = ApprovalGranted) by (destruct (ta_state a); naive_solver).
  destruct (touches_approvals o) eqn:Ht; [|by rewrite frame_approvals].
  destruct o; try done; cbn [apply].
  - destruct (put_effect now a0 d Hok) as [->|[(e & He & Hp & ->)|[Hn ->]]]; [done| |]; simpl.
    + rewrite lookup_insert_ne; [done|]. intros Heq. rewrite Heq, Hi in He. injection He as <-. congruence.
    + rewrite lookup_insert_ne; [done|]. intros Heq. by rewrite Heq, Hi in Hn.
  - destruct (decide_effect r d) as [->|(e & He & Hm & _ & ->)]; [done|].
    rewrite lookup_insert_ne; [done|]. intros <-. simplify_eq.
    apply may_decide_true in Hm as [Hp _]. congruence.
  - destruct (consume_effect tenant sandbox tool digest requested_by now d Hok)
      as [->|(e & He & Hs & ->)]; [done|]. simpl.
    rewrite lookup_insert_ne; [done|]. intros <-. simplify_eq.
    apply spendable_true in Hs as (_ & _ & _ & _ & _ & _ & Hn & _). congruence.
Qed.

Lemma put_approval_ok a d :
  approvals_ok d → approval_ok a.(ta_id) a → approvals_ok (put_approval a d).
Proof.
  intros Hok Ha i b. simpl. destruct (decide (a.(ta_id) = i)) as [<-|].
  - rewrite lookup_insert_eq. by intros [= <-].
  - rewrite lookup_insert_ne by done. apply Hok.
Qed.

Lemma apply_approvals_ok o d : fresh_request o → approvals_ok d → approvals_ok (apply o d).
Proof.
  intros Hf Hok. destruct (touches_approvals o) eqn:Ht.
  2:{ intros i a. rewrite frame_approvals by done. apply Hok. }
  destruct o; try done; cbn [apply].
  - destruct (put_effect now a d Hok) as [->|[(e & He & Hp & ->)|[Hn ->]]]; [done| |];
      apply put_approval_ok; try done.
    + destruct (Hok _ _ He) as [_ Hst]. rewrite Hp in Hst. split; [done|]. simpl. by rewrite Hp.
    + destruct Hf as (Hp & _ & _ & Hn'). split; [done|]. by rewrite Hp.
  - destruct (decide_effect r d) as [->|(e & He & Hm & Hne & Hd)]; [done|].
    intros i b. rewrite Hd. destruct (decide (r.(dr_request_id) = i)) as [<-|].
    + rewrite lookup_insert_eq. intros [= <-]. destruct (Hok _ _ He) as [Hid Hst].
      apply may_decide_true in Hm as (Hp & Hk & Hwin). rewrite Hp in Hst. split; [done|].
      assert (Ho : decided_by_other (decided r e)) by (do 2 eexists; split_and!; naive_solver).
      simpl. destruct (dr_decision r); naive_solver.
    + rewrite lookup_insert_ne by done. apply Hok.
  - destruct (consume_effect tenant sandbox tool digest requested_by now d Hok)
      as [->|(e & He & Hs & ->)]; [done|]. apply put_approval_ok; [done|].
    apply spendable_true in Hs as (_ & _ & _ & _ & _ & Hg & _).
    destruct (Hok _ _ He) as [_ Hst]. rewrite Hg in Hst. split; [done|]. simpl. by rewrite Hg.
Qed.

Lemma run_approvals_ok ops d :
  Forall fresh_request ops → approvals_ok d → approvals_ok (run ops d).
Proof.
  intros Hf. revert d. induction Hf as [|o ops Ho _ IH]; intros d Hok; [done|].
  by apply IH, apply_approvals_ok.
Qed.

(** How often a run spends the approval [i]. *)
Definition spends (i : Uuid) (o : op) (d : MemoryData) : nat :=
  match o with
  | ConsumeApproval tenant sandbox tool digest key now =>
      match (consume_guard_tool_approval tenant sandbox tool digest key now d).2 with
      | Ok (Some a) => if (a.(ta_id) =? i)%N then 1 else 0
      | _ => 0
      end
  | _ => 0
  end.

Fixpoint uses (i : Uuid) (ops : list op) (d : MemoryData) : nat :=
  match ops with
  | [] => 0
  | o :: ops => spends i o d + uses i ops (apply o d)
  end.

Lemma spends_effect i o d :
  approvals_ok d →
  spends i o d = 0%nat
  ∨ spends i o d = 1%nat
    ∧ (∃ a, d.(guard_tool_approvals) !! i = Some a ∧ a.(ta_consumed_at) = None)
    ∧ ∃ a, (apply o d).(guard_tool_approvals) !! i = Some a ∧ a.(ta_consumed_at) ≠ None.
Proof.
  intros Hok. destruct o; try (by left). cbn [spends apply].
  destruct (consume_effect tenant sandbox tool digest requested_by now d Hok)
    as [->|(e & He & Hs & ->)]; [by left|]. simpl.
  destruct (N.eqb_spec (ta_id e) i) as [<-|]; [right|by left].
  apply spendable_true in Hs as (_ & _ & _ & _ & _ & _ & Hn & _).
  split_and!; [done|by eexists|]. exists (consumed now e). by rewrite lookup_insert_eq.
Qed.

Lemma uses_spent i ops d a :
  Forall fresh_request ops → approvals_ok d → d.(guard_tool_approvals) !! i = Some a →
  a.(ta_consumed_at) ≠ None → uses i ops d = 0%nat.
Proof.
  intros Hf. revert d. induction Hf as [|o ops Ho Hf IH]; intros d Hok Ha Hc; [done|]. simpl.
  rewrite IH; [|by apply apply_approvals_ok|by apply approval_row_fate|done].
  destruct (spends_effect i o d Hok) as [->|(_ & (b & ? & ?) & _)]; [done|]. by simplify_eq.
Qed.

Lemma uses_at_most_once i ops d :
  Forall fresh_request ops → approvals_ok d → (uses i ops d ≤ 1)%nat.
Proof.
  intros Hf. revert d. induction Hf as [|o ops Ho Hf IH]; intros d Hok; simpl; [lia|].
  pose proof (apply_approvals_ok o d Ho Hok) as Hok'.
  destruct (spends_effect i o d Hok) as [->|(-> & _ & a & Ha & Hc)]; [by apply IH|].
  rewrite (uses_spent i ops _ a) by done. lia.
Qed.

End Approvals.

(** ** Proposals *)

(** What may happen to a proposal on record: nothing to what it asks, nothing at all
    once it is decided, and a decision only with an operator and a time. *)
Definition proposal_evolves (p p' : GuardProposal) : Prop :=
  same_ask p p' = true
  ∧ (p.(gp_state) ≠ ProposalPending → p' = p)
  ∧ (p.(gp_state) = ProposalPending → p'.(gp_state) ≠ ProposalPending →
     is_Some p'.(gp_decided_by) ∧ is_Some p'.(gp_decided_at)).

Lemma same_ask_refl p : same_ask p p = true.
Proof. unfold same_ask. by rewrite !N.eqb_refl, Z.eqb_refl, !bool_decide_eq_true_2. Qed.

Lemma same_ask_trans p q r : same_ask p q = true → same_ask q r = true → same_ask p r = true.
Proof.
  unfold same_ask. rewrite !andb_true_iff, !bool_decide_eq_true, !N.eqb_eq, !Z.eqb_eq.
  intuition congruence.
Qed.

Lemma proposal_evolves_refl p : proposal_evolves p p.
Proof. split_and!; [apply same_ask_refl|done|done]. Qed.

Lemma proposal_evolves_trans p q r :
  proposal_evolves p q → proposal_evolves q r → proposal_evolves p r.
Proof.
  intros (Ha & Hd & Hp) (Ha' & Hd' & Hp'). split_and!; [by eapply same_ask_trans| |].
  - intros Hn. rewrite <-(Hd Hn). apply Hd'. by rewrite (Hd Hn).
  - intros He Hn. destruct (decide (gp_state q = ProposalPending)); [by apply Hp'|].
    rewrite (Hd' n). by apply Hp.
Qed.

Section Proposals.
Context `{Host, HashOrder}.

Lemma apply_proposal o d id p :
  d.(guard_proposals) !! id = Some p →
  ∃ p', (apply o d).(guard_proposals) !! id = Some p' ∧ proposal_evolves p p'.
Proof.
  intros Hp. assert (Hkeep : ∃ p', Some p = Some p' ∧ proposal_evolves p p')
    by (exists p; split; [done|apply proposal_evolves_refl]).
  destruct o; try (rewrite frame_proposals, Hp by done; exact Hkeep).
  cbn [apply]. unfold put_guard_proposal.
  destruct (owned _ _ _); [|simpl; by rewrite Hp]. simpl.
  destruct (decide (gp_id p0 = id)) as [<-|Hne].
  2:{ repeat case_match; simpl; rewrite lookup_insert_ne, Hp by done; exact Hkeep. }
  rewrite Hp. simpl. destruct (same_ask p p0) eqn:Hask; simpl;
    [|by rewrite lookup_insert_eq].
  case_bool_decide as Hpend; simpl; [|by rewrite lookup_insert_eq].
  destruct (_ && _) eqn:Hop; simpl; rewrite lookup_insert_eq; [exact Hkeep|].
  exists p0. split; [done|]. split_and!; [done|done|]. intros _ Hn.
  rewrite bool_decide_eq_false_2 in Hop by done. simpl in Hop. bools.
  by rewrite <-!not_eq_None_Some.
Qed.

Lemma run_proposal ops d id p :
  d.(guard_proposals) !! id = Some p →
  ∃ p', (run ops d).(guard_proposals) !! id = Some p' ∧ proposal_evolves p p'.
Proof.
  revert d p. induction ops as [|o ops IH]; intros d p Hp.
  { exists p. split; [done|apply proposal_evolves_refl]. }
  destruct (apply_proposal o d id p Hp) as (q & Hq & Hpq).
  destruct (IH (apply o d) q Hq) as (r & Hr & Hqr). exists r. split; [exact Hr|].
  by eapply proposal_evolves_trans.
Qed.

End Proposals.

(** ** Incidents *)
Lemma push_new_contained {A} `{EqDecision A} (old new : list A) :
  (∀ x, x ∈ new → x ∈ old) → push_new old new = old.
Proof.
  revert old. induction new as [|x new IH]; intros old Hin; simpl; [done|].
  rewrite bool_decide_eq_true_2 by (apply Hin; left). apply IH. intros y Hy. apply Hin. by right.
Qed.

Lemma push_new_prefix {A} `{EqDecision A} (old new : list A) : old `prefix_of` push_new old new.
Proof.
  revert old. induction new as [|x new IH]; intros old; simpl; [done|].
  case_bool_decide; [apply IH|]. etrans; [|apply IH]. by exists [x].
Qed.

Lemma push_new_elem {A} `{EqDecision A} (old new : list A) x : x ∈ new → x ∈ push_new old new.
Proof.
  revert old. induction new as [|y new IH]; intros old Hx; simpl; [by apply elem_of_nil in Hx|].
  apply elem_of_cons in Hx as [->|Hx]; [|by apply IH].
  case_bool_decide as Hy.
  - destruct (push_new_prefix old new) as [rest ->]. apply elem_of_app. by left.
  - destruct (push_new_prefix (old ++ [y]) new) as [rest ->]. set_solver.
Qed.

Lemma push_new_idem {A} `{EqDecision A} (old new : list A) :
  push_new (push_new old new) new = push_new old new.
Proof. apply push_new_contained. intros x. apply push_new_elem. Qed.

Lemma or_else_idem {A} (a b : option A) : or_else (or_else a b) b = or_else a b.
Proof. by destruct a, b. Qed.

Section IncidentLemmas.
Context `{Host}.

(** What [merge_existing] checked. *)
Record compatible (e i : GuardIncident) : Prop := {
  compat_identity : e.(in_identity) = i.(in_identity);
  compat_lease : e.(in_fence).(lease_id) = i.(in_fence).(lease_id);
  compat_snapshot : e.(snapshot_id) = None ∨ i.(snapshot_id) = None
    ∨ e.(snapshot_id) = i.(snapshot_id);
  compat_events : e.(in_events) `prefix_of` i.(in_events) ∨ i.(in_events) `prefix_of` e.(in_events);
  compat_start : e.(event_start_sequence) = i.(event_start_sequence);
  compat_previous : e.(event_previous_hash) = i.(event_previous_hash);
  compat_anchor : length e.(in_events) = length i.(in_events) →
    e.(event_sequence) = i.(event_sequence) ∧ e.(event_head) = i.(event_head) }.

Lemma merge_existing_ok e i r :
  merge_existing e i = Ok r ↔
  compatible e i
  ∧ r = match e.(completed_at) with None => merge_open e i | Some _ => merge_completed e i end.
Proof.
  unfold merge_existing, starts_with. split.
  - intros Hr. ok_inv Hr. injection Hr as <-. split; [|done].
    apply orb_false_iff in Hif as [Hid Hlease%negb_false_iff%N.eqb_eq].
    apply orb_false_iff in Hif2 as [Hif2 Hanchor].
    apply orb_false_iff in Hif2 as [Hst%negb_false_iff%Z.eqb_eq Hprev]. bools.
    split; try done.
    + destruct (snapshot_id e) as [a|], (snapshot_id i) as [b|]; auto.
      rewrite !bool_decide_eq_true_2 in Hif0 by done. simpl in Hif0. bools. auto.
    + apply andb_false_iff in Hif1 as [Hif1|Hif1]; bools; auto.
    + intros Hlen. rewrite bool_decide_eq_true_2 in Hanchor by done. simpl in Hanchor. bools.
      by split; [apply Z.eqb_eq|].
  - intros [[Hid Hlease Hsnap Hev Hst Hprev Hanc] ->].
    rewrite (bool_decide_eq_true_2 _ Hid), Hlease, N.eqb_refl, Hst, Z.eqb_refl,
      (bool_decide_eq_true_2 _ Hprev). simpl.
    assert (bool_decide (is_Some (snapshot_id e)) && bool_decide (is_Some (snapshot_id i))
            && negb (bool_decide (snapshot_id e = snapshot_id i)) = false) as ->.
    { destruct Hsnap as [->|[->| ->]]; [done|by rewrite andb_false_r|].
      by rewrite (bool_decide_eq_true_2 (snapshot_id i = _)), !andb_false_r. }
    assert (negb (bool_decide (in_events e `prefix_of` in_events i))
            && negb (bool_decide (in_events i `prefix_of` in_events e)) = false) as ->.
    { destruct Hev as [Hev|Hev]; rewrite (bool_decide_eq_true_2 _ Hev);
        [done|by rewrite andb_false_r]. }
    case_bool_decide as Hlen; [|done]. destruct (Hanc Hlen) as [-> ->].
    by rewrite Z.eqb_refl, bool_decide_eq_true_2.
Qed.

Lemma merge_incident_ok existing i r :
  merge_incident existing i = Ok r ↔
  validate_incident_evidence i = Ok ()
  ∧ match existing with None => r = i | Some e => merge_existing e i = Ok r end
  ∧ (is_Some r.(completed_at) → may_complete r = true).
Proof.
  unfold merge_incident. split.
  - intros Hr. ok_inv Hr. injection Hr as <-. split_and!; [done|by destruct existing; simplify_eq|].
    intros Hc. rewrite bool_decide_eq_true_2 in Hif by done. simpl in Hif. by bools.
  - intros (-> & Hm & Hc).
    assert (match existing with None => Ok i | Some e => merge_existing e i end = Ok r) as ->.
    { destruct existing; [done|by subst]. }
    case_bool_decide as Hs; [|done]. by rewrite Hc.
Qed.

Definition merged (e i : GuardIncident) : GuardIncident :=
  match e.(completed_at) with None => merge_open e i | Some _ => merge_completed e i end.

Lemma merged_compatible e i : compatible e i → compatible (merged e i) i.
Proof.
  intros [Hid Hlease Hsnap Hev Hst Hprev Hanc]. unfold merged.
  destruct (completed_at e); split; simpl; try done.
  - destruct (snapshot_id e), (snapshot_id i); simpl; naive_solver.
  - case_match; [by left|done].
  - destruct (Nat.ltb_spec (length (in_events e)) (length (in_events i))); auto.
Qed.

(** Merging the same report again changes nothing. *)
Lemma merged_again e i : compatible e i → merged (merged e i) i = merged e i.
Proof.
  intros [Hid Hlease Hsnap Hev Hst Hprev Hanc]. unfold merged.
  destruct (completed_at e) as [t|] eqn:Hc; simpl.
  - rewrite Hc. unfold merge_completed. simpl. by rewrite push_new_idem, or_else_idem.
  - destruct (completed_at i) eqn:Hi.
    + unfold merge_completed, merge_open. simpl. by rewrite push_new_idem, or_else_idem, Hi.
    + unfold merge_open at 1. simpl. rewrite !push_new_idem, !or_else_idem.
      assert (Hl : (length (if (length (in_events e) <? length (in_events i))%nat
                   then in_events i else in_events e) <? length (in_events i))%nat = false).
      { destruct (Nat.ltb_spec (length (in_events e)) (length (in_events i)));
          apply Nat.ltb_ge; lia. }
      rewrite Hl. unfold merge_open. f_equal. by destruct (is_empty (report i)).
Qed.

Lemma merged_self i : merged i i = i.
Proof.
  assert (Hor : ∀ A (x : option A), or_else x x = x) by (by intros A [|]).
  unfold merged, merge_completed, merge_open.
  rewrite Nat.ltb_irrefl, !push_new_contained, !Hor by done.
  destruct (completed_at i) eqn:Hc; destruct i; simpl in *; subst; [done|by case_match].
Qed.

Lemma merged_events e i : compatible e i → e.(in_events) `prefix_of` (merged e i).(in_events).
Proof.
  intros Hcomp. unfold merged. destruct (completed_at e); simpl; [done|].
  destruct (Nat.ltb_spec (length (in_events e)) (length (in_events i))) as [Hlt|]; [|done].
  destruct (compat_events e i Hcomp) as [?|Hp]; [done|]. apply prefix_length in Hp. lia.
Qed.

(** The evidence of a merge is the evidence of one of its parts. *)
Lemma merged_valid e i :
  compatible e i → validate_incident_evidence e = Ok () → validate_incident_evidence i = Ok () →
  validate_incident_evidence (merged e i) = Ok ().
Proof.
  intros Hcomp He Hi. unfold merged. destruct (completed_at e); [exact He|].
  unfold validate_incident_evidence, merge_open. cbn [in_events in_identity event_start_sequence
    event_previous_hash event_sequence event_head].
  destruct (_ <? _)%nat; [|exact He].
  rewrite (compat_identity e i Hcomp), (compat_start e i Hcomp), (compat_previous e i Hcomp).
  exact Hi.
Qed.

End IncidentLemmas.

(** ** Theorems *)
Section Theorems.
Context `{Host, HashOrder, !HashOrderLaws H0}.

(** C9: Budgets.  Over any sequence of operations, what is booked on a budget is
    exactly the sum of the debits that were granted, it never exceeds the caps, and
    the caps, the expiry and the owner of the budget never change: neither policy
    updates, nor a release from quarantine, nor initializing it again buys a second
    allowance. *)
Theorem budget_accounting ls (ops later : list op) id b :
  Forall unsigned (ops ++ later) →
  (run ops (with_leases ls)).(guard_budgets) !! id = Some b →
  ∃ b', (run (ops ++ later) (with_leases ls)).(guard_budgets) !! id = Some b'
    ∧ same_terms b b' ∧ within_caps b'
    ∧ booked b' = spent id (ops ++ later) (with_leases ls).
Proof.
  intros Hu Hb. pose proof (with_leases_consistent ls) as Hc0.
  apply Forall_app in Hu as Hu'. destruct Hu' as [Hu1 Hu2].
  assert (Hc1 : consistent (run ops (with_leases ls))) by (by apply run_consistent).
  assert (Hrun : run (ops ++ later) (with_leases ls) = run later (run ops (with_leases ls))).
  { unfold run. apply foldl_app. }
  assert (Hterms : ∃ b', (run later (run ops (with_leases ls))).(guard_budgets) !! id = Some b'
                         ∧ same_terms b b').
  { revert Hb Hc1. generalize (run ops (with_leases ls)) as d. clear -Hu2.
    revert b. induction Hu2 as [|o later Ho _ IH]; intros b d Hb Hc.
    { exists b. split; [done|apply same_terms_refl]. }
    destruct (apply_terms o d id b Hc Hb) as (b1 & Hb1 & Ht1).
    destruct (IH b1 (apply o d) Hb1) as (b2 & Hb2 & Ht2); [by apply apply_consistent|].
    exists b2. split; [exact Hb2|]. by eapply same_terms_trans. }
  destruct Hterms as (b' & Hb' & Ht). exists b'. rewrite Hrun. split_and!; [done|done| |].
  - destruct (budgets_owned _ (run_consistent later _ Hu2 Hc1) id b' Hb') as (s & _ & _ & _ & _ & Hw).
    exact Hw.
  - pose proof (run_usage id (ops ++ later) (with_leases ls) Hu Hc0) as Husage.
    rewrite Hrun in Husage. unfold usage_of in Husage. rewrite Hb' in Husage. rewrite Husage.
    simpl. unfold add_debit. destruct (spent _ _ _). simpl. f_equal; lia.
Qed.

(** C3: Quarantine is left only by a release.  Whatever operation follows, a
    quarantined sandbox stays quarantined unless its own tenant releases it, its
    budget stays latched, and no reservation against it succeeds. *)
Theorem quarantine_left_only_by_release ls (ops : list op) (o : op) id s :
  Forall unsigned ops → unsigned o →
  let d := run ops (with_leases ls) in
  d.(sandboxes) !! id = Some s → s.(sb_state) = Quarantined →
  ((∃ now, o = ReleaseQuarantine now s.(sb_tenant_id) id)
   ∨ (∃ s', (apply o d).(sandboxes) !! id = Some s' ∧ s'.(sb_state) = Quarantined)
     ∧ ∀ b, (apply o d).(guard_budgets) !! id = Some b → b.(quarantined) = true)
  ∧ ∀ now now' identity fence x, identity.(gi_sandbox_id) = id →
      is_ok (reserve_guard_budget now now' identity fence x d).2 = false.
Proof.
  intros Hu Ho d Hs Hq. assert (Hc : consistent d) by (apply run_consistent; [done|apply with_leases_consistent]).
  split.
  - destruct (sandbox_row_move o d id s Hs) as (s' & Hs' & _ & Hmove).
    assert (Hkept : s'.(sb_state) = Quarantined ∨ ∃ now, o = ReleaseQuarantine now s.(sb_tenant_id) id).
    { destruct Hmove as [Hm|[[Hm _]|[(_ & _ & Hm)|(Hm & _)]]]; [left; congruence|done|by right|done]. }
    destruct Hkept as [Hk|Hk]; [right|by left]. split; [by exists s'|]. intros b Hb.
    destruct (budgets_owned _ (apply_consistent o d Ho Hc) id b Hb) as (s2 & Hs2 & _ & _ & Hl & _).
    apply Hl. congruence.
  - intros now now' identity fence x <-. unfold reserve_guard_budget.
    destruct (let? _ := owned _ _ _ in _) as [[d' b']|] eqn:Hr; [|done]. exfalso.
    ok_inv Hr. apply owned_ok in Hok as [Hrow _]. rewrite Hs in Hrow. injection Hrow as <-.
    rewrite (sandboxes_keyed d Hc _ _ Hs) in *. unfold ok_or in Hok1.
    destruct (guard_budgets d !! _) as [b|] eqn:Hb; [|done]. injection Hok1 as ->.
    destruct (budgets_owned d Hc _ _ Hb) as (s2 & Hs2 & _ & _ & Hl & _).
    apply reserve_ok in Hok2 as (_ & Hq' & _). assert (s2 = s) as -> by congruence.
    apply Hl in Hq. congruence.
Qed.

(** Quarantine is entered only under a live fence.  An existing sandbox becomes
    quarantined by no other operation than the atomic quarantine, which names an
    unexpired active lease of that sandbox and a generation the lease issued; and
    its budget is latched in the same step. *)
Theorem quarantine_needs_live_fence ls (ops : list op) (o : op) id s s' :
  Forall unsigned ops → unsigned o →
  let d := run ops (with_leases ls) in
  d.(sandboxes) !! id = Some s → s.(sb_state) ≠ Quarantined →
  (apply o d).(sandboxes) !! id = Some s' → s'.(sb_state) = Quarantined →
  ∃ now now' fence k lease b,
    o = MarkQuarantined now now' s.(sb_tenant_id) id fence
    ∧ can_transition_to s.(sb_state) Quarantined = true
    ∧ d.(leases) !! k = Some lease ∧ lease.(le_id) = fence.(lease_id)
    ∧ lease.(le_tenant_id) = s.(sb_tenant_id) ∧ lease.(le_sandbox_id) = id
    ∧ lease.(le_status) = "active"%string ∧ now < lease.(le_expires_at)
    ∧ 0 < fence.(generation) ≤ lease.(le_generation)
    ∧ (apply o d).(guard_budgets) !! id = Some b ∧ b.(quarantined) = true.
Proof.
  intros Hu Ho d Hs Hq Hs' Hq'.
  assert (Hc : consistent d) by (apply run_consistent; [done|apply with_leases_consistent]).
  destruct (sandbox_row_move o d id s Hs) as (s2 & Hs2 & _ & Hmove).
  assert (s2 = s') as -> by congruence.
  destruct Hmove as [Hm|[[_ Hm]|[(Hm & _)|(_ & _ & now & now' & fence & -> & Hl & Ht)]]];
    [congruence|done|done|].
  destruct (memory_lease_ok now (sb_tenant_id s) id fence d Hl)
    as (k & lease & Hk & Hid & Hten & Hsb & Hact & Hexp & Hgen).
  pose proof (apply_consistent (MarkQuarantined now now' (sb_tenant_id s) id fence) d Ho Hc) as Hc'.
  assert (Hb : ∃ b, (apply (MarkQuarantined now now' (sb_tenant_id s) id fence) d).(guard_budgets)
                      !! id = Some b).
  { cbn [apply] in Hs' |- *. unfold mark_guard_quarantined in Hs' |- *.
    destruct (let? _ := owned _ _ _ in _) as [[d' r]|] eqn:Hr; simpl in Hs' |- *.
    - cbv zeta in Hr. ok_inv Hr. case_bool_decide; simplify_eq; simpl;
        rewrite lookup_insert_eq; by eexists.
    - congruence. }
  destruct Hb as [b Hb]. destruct (budgets_owned _ Hc' id b Hb) as (s3 & Hs3 & _ & _ & Hlatch & _).
  exists now, now', fence, k, lease, b. split_and!; try done; try lia.
  apply Hlatch. congruence.
Qed.

(** C29: An approval authorises one call.  When every request enters undecided, as the
    approval route writes it, no sequence of operations spends one approval twice;
    and an approval is only ever spent for the tool, arguments and requester it
    names, inside its window, after another key granted it. *)
Theorem approval_authorises_one_call ls (ops : list op) :
  Forall fresh_request ops →
  (∀ i, (uses i ops (with_leases ls) ≤ 1)%nat)
  ∧ ∀ tenant sandbox tool digest key now d' a,
      consume_guard_tool_approval tenant sandbox tool digest key now (run ops (with_leases ls))
        = (d', Ok (Some a)) →
      ∃ row k t,
        (run ops (with_leases ls)).(guard_tool_approvals) !! a.(ta_id) = Some row
        ∧ row.(ta_tenant_id) = tenant ∧ row.(ta_sandbox_id) = sandbox ∧ row.(ta_tool) = tool
        ∧ row.(ta_request_digest) = digest ∧ row.(ta_requested_by_key_id) = key
        ∧ row.(ta_state) = ApprovalGranted ∧ row.(ta_consumed_at) = None
        ∧ row.(ta_decided_by_key_id) = Some k ∧ k ≠ key ∧ row.(ta_decided_at) = Some t
        ∧ t ≤ now < row.(ta_expires_at).
Proof.
  intros Hf. assert (Hok0 : approvals_ok (with_leases ls)) by done.
  split; [intros i; by apply uses_at_most_once|].
  intros tenant sandbox tool digest key now d' a Hcons.
  pose proof (run_approvals_ok ops _ Hf Hok0) as Hok.
  destruct (consume_effect tenant sandbox tool digest key now _ Hok) as [He|(row & Hrow & Hs & He)];
    rewrite He in Hcons; [done|]. injection Hcons as _ <-.
  apply spendable_true in Hs as (? & ? & ? & ? & Hkey & Hg & ? & ? & u & Hu & ?).
  destruct (Hok _ _ Hrow) as [_ Hst]. rewrite Hg in Hst.
  destruct Hst as (k & t & Hk & Hne & Ht & _). assert (u = t) as -> by congruence.
  exists row, k, t. split_and!; try done; congruence.
Qed.

(** A decision on a policy proposal is final.  Whatever follows, what a proposal
    asks never changes, a decided proposal keeps every field, and a pending one is
    decided only together with an operator and a time. *)
Theorem decided_proposals_are_final (ops : list op) (d : MemoryData) id p :
  d.(guard_proposals) !! id = Some p →
  ∃ p', (run ops d).(guard_proposals) !! id = Some p'
    ∧ p'.(gp_request) = p.(gp_request) ∧ p'.(gp_sandbox_id) = p.(gp_sandbox_id)
    ∧ p'.(gp_tenant_id) = p.(gp_tenant_id) ∧ p'.(gp_agent_id) = p.(gp_agent_id)
    ∧ p'.(gp_base_policy_hash) = p.(gp_base_policy_hash)
    ∧ p'.(gp_created_at) = p.(gp_created_at)
    ∧ (p.(gp_state) ≠ ProposalPending → p' = p)
    ∧ (p.(gp_state) = ProposalPending → p'.(gp_state) ≠ ProposalPending →
       is_Some p'.(gp_decided_by) ∧ is_Some p'.(gp_decided_at)).
Proof.
  intros Hp. destruct (run_proposal ops d id p Hp) as (p' & Hp' & Hask & Hd & Hdec).
  unfold same_ask in Hask.
  rewrite !andb_true_iff, !bool_decide_eq_true, !N.eqb_eq, !Z.eqb_eq in Hask.
  exists p'. intuition congruence.
Qed.

(** Incident evidence is append-only.  Merging a report into an incident on
    record keeps its identity, owning fence and anchors, extends the evidence, the
    rules and the errors without rewriting any, keeps the evidence chain valid, never
    moves a stage that was reached, freezes a completed incident, and completes one
    only with the network cut, the machine paused, a snapshot and a report. *)
Theorem incident_evidence_append_only e i r :
  validate_incident_evidence e = Ok () → merge_incident (Some e) i = Ok r →
  (r.(in_id) = e.(in_id) ∧ r.(in_identity) = e.(in_identity) ∧ r.(in_fence) = e.(in_fence)
   ∧ r.(triggered_at) = e.(triggered_at)
   ∧ r.(event_start_sequence) = e.(event_start_sequence)
   ∧ r.(event_previous_hash) = e.(event_previous_hash))
  ∧ (e.(in_events) `prefix_of` r.(in_events) ∧ e.(in_rules) `prefix_of` r.(in_rules)
     ∧ e.(in_errors) `prefix_of` r.(in_errors) ∧ validate_incident_evidence r = Ok ())
  ∧ (∀ t, e.(network_cut_at) = Some t → r.(network_cut_at) = Some t)
  ∧ (∀ t, e.(paused_at) = Some t → r.(paused_at) = Some t)
  ∧ (∀ x, e.(snapshot_id) = Some x → r.(snapshot_id) = Some x)
  ∧ (is_Some e.(completed_at) →
     r.(completed_at) = e.(completed_at) ∧ r.(in_events) = e.(in_events)
     ∧ r.(in_rules) = e.(in_rules) ∧ r.(snapshot_id) = e.(snapshot_id) ∧ r.(report) = e.(report))
  ∧ (is_Some r.(completed_at) →
     is_Some r.(network_cut_at) ∧ is_Some r.(paused_at) ∧ is_Some r.(snapshot_id)
     ∧ r.(report) ≠ ""%string).
Proof.
  intros Hv Hm. apply merge_incident_ok in Hm as (Hi & Hm & Hdone).
  apply merge_existing_ok in Hm as [Hcomp Hr]. fold (merged e i) in Hr. subst r.
  pose proof (merged_events e i Hcomp) as Hev. pose proof (merged_valid e i Hcomp Hv Hi) as Hval.
  split_and!; try done; unfold merged in *.
  1-6: by destruct (completed_at e).
  - destruct (completed_at e); [done|apply push_new_prefix].
  - destruct (completed_at e); apply push_new_prefix.
  - intros t Ht. destruct (completed_at e); simpl; by rewrite Ht.
  - intros t Ht. destruct (completed_at e); simpl; by rewrite Ht.
  - intros x Hx. destruct (completed_at e); simpl; by rewrite Hx.
  - intros [t Ht]. by rewrite Ht.
  - intros Hc. specialize (Hdone Hc). unfold may_complete in Hdone. bools.
    split_and!; [done|done| |].
    + by destruct (snapshot_id _).
    + intros He. unfold is_empty in *. by rewrite He in *.
Qed.

(** Retrying a report is harmless: merging it a second time into what the first
    merge stored gives the stored incident back. *)
Theorem incident_retry_idempotent existing i r :
  merge_incident existing i = Ok r → merge_incident (Some r) i = Ok r.
Proof.
  intros Hm. apply merge_incident_ok in Hm as (Hi & Hm & Hdone).
  apply merge_incident_ok. split_and!; [done| |done]. apply merge_existing_ok.
  destruct existing as [e|]; [apply merge_existing_ok in Hm as [Hcomp ->]; fold (merged e i)|subst r].
  - split; [by apply merged_compatible|]. fold (merged (merged e i) i). symmetry.
    by apply merged_again.
  - split; [by split; auto|]. symmetry. apply merged_self.
Qed.

(** Paging shows everything once.  In every reachable store, a reader that follows
    the cursors of [list_sandboxes] from the first page, with any page size, is shown
    each sandbox of the tenant exactly once, newest first, and stops. *)
Theorem sandbox_pages_complete ls (ops : list op) tenant limit (fuel : nat) :
  Forall unsigned ops →
  let d := run ops (with_leases ls) in
  (size d.(sandboxes) < fuel)%nat →
  ∃ shown,
    walk (λ after, list_sandboxes tenant limit after d) fuel None = Some shown
    ∧ shown ≡ₚ base.filter (λ s, (s.(sb_tenant_id) =? tenant)%N = true) (values d.(sandboxes))
    ∧ NoDup (sb_id <$> shown)
    ∧ StronglySorted (λ a b, key_leb (sandbox_key b) (sandbox_key a) = true) shown.
Proof.
  intros Hu d Hfuel. assert (Hc : consistent d) by (apply run_consistent; [done|apply with_leases_consistent]).
  assert (Hnd : NoDup (sandbox_key <$> values d.(sandboxes))).
  { apply (values_NoDup sandbox_key sb_id snd); [done|]. apply (sandboxes_keyed d Hc). }
  set (keep := λ s : Sandbox, (s.(sb_tenant_id) =? tenant)%N).
  exists (sort_by (newest_first sandbox_key) (base.filter (λ s, keep s = true) (values d.(sandboxes)))).
  split_and!.
  - apply (walk_rest sandbox_key keep limit (values (sandboxes d)) Hnd fuel [] _ eq_refl).
    rewrite sort_by_perm. eapply Nat.le_lt_trans; [apply length_filter|].
    unfold values. by rewrite length_fmap, iter_entries, length_map_to_list.
  - apply sort_by_perm.
  - rewrite sort_by_perm. eapply sublist_NoDup; [|apply fmap_sublist, sublist_filter].
    apply (values_NoDup sb_id sb_id id); [done|]. apply (sandboxes_keyed d Hc).
  - apply sort_by_sorted; [apply newest_total|apply newest_trans].
Qed.

End Theorems.

(** ** A concrete store *)
Module SampleGuard.

Definition sandbox_of (tenant id : Uuid) (created : Instant) : Sandbox := {|
  sb_id := id; sb_tenant_id := tenant; sb_node_id := None; sb_image_id := "img";
  sb_state := Running; sb_runtime := Docker; sb_cpu := 1; sb_memory_mb := 512;
  sb_disk_mb := 2048; sb_timeout_seconds := 900; sb_network := Disabled;
  sb_environment := {| workspace := Empty; toolkits := []; layers := []; guard := None;
                       guard_policy_hash := None |};
  sb_created_at := created; sb_updated_at := created; sb_runtime_path := None |}.

Definition proposal : GuardProposal := {|
  gp_id := 9%N; gp_sandbox_id := 20%N; gp_tenant_id := 10%N; gp_agent_id := "agent";
  gp_request := {| pr_summary := "reach the registry"; pr_allow := [] |};
  gp_base_policy_hash := ""; gp_state := ProposalPending; gp_decided_by := None;
  gp_decided_at := None; gp_created_at := 5 |}.

End SampleGuard.

(** The in-memory store reads a proposal by its identifier alone: there is a run
    after which a tenant that owns one sandbox is shown the proposal of another
    tenant's sandbox. *)
Theorem foreign_proposal_readable `{Host, HashOrder} :
  ∃ (ops : list op) (s : Sandbox) (p : GuardProposal),
    let d := run ops (with_leases ∅) in
    owned d 1 2 = Ok s ∧ get_guard_proposal 1 2 9 d = Ok p
    ∧ p.(gp_tenant_id) ≠ 1%N ∧ p.(gp_sandbox_id) ≠ 2%N.
Proof.
  exists [CreateSandbox (SampleGuard.sandbox_of 1 2 0); CreateSandbox (SampleGuard.sandbox_of 10 20 1);
          PutProposal SampleGuard.proposal], (SampleGuard.sandbox_of 1 2 0), SampleGuard.proposal.
  by vm_compute.
Qed.

Module GuardWitnesses.
Import SampleGuard.

Definition lease : WorkerLease := {|
  le_id := 5%N; le_tenant_id := 1%N; le_sandbox_id := 2%N; le_node_id := 3%N;
  le_generation := 3; le_status := "active"; le_reason := None; le_expires_at := 1000;
  le_created_at := 0; le_updated_at := 0 |}.

Definition held : gmap Uuid WorkerLease := {[ 5%N := lease ]}.
Definition fence : GuardFence := {| lease_id := 5%N; generation := 2 |}.
Definition identity : GuardIdentity := {|
  gi_sandbox_id := 2%N; gi_tenant_id := 1%N; gi_policy_hash := Sample.first.(policy_hash) |}.
Definition budget : GuardBudgetState := {|
  b_identity := identity; b_expires_at := 900; max_model_requests_cap := 2; max_bytes_in := 100;
  max_bytes_out := 100; model_requests := 0; b_bytes_in := 0; b_bytes_out := 0;
  quarantined := false |}.
Definition debit : BudgetDebit := {| d_model_requests := 1; d_bytes_in := 10; d_bytes_out := 20 |}.

Definition opening : list op :=
  [CreateSandbox (sandbox_of 1 2 0); PutBudget budget; Reserve 10 10 identity fence debit].
Definition contained : list op := opening ++ [MarkQuarantined 20 20 1 2 fence].

Lemma opening_unsigned : Forall unsigned opening.
Proof. repeat constructor; simpl; lia. Qed.

Lemma contained_unsigned : Forall unsigned contained.
Proof. repeat constructor; simpl; lia. Qed.

(** After a release and a renewed initialization the granted debit is still booked. *)
Definition afterwards : list op :=
  [MarkQuarantined 20 20 1 2 fence; ReleaseQuarantine 30 1 2; PutBudget budget].

Lemma budget_accounting_witness :
  ∃ b', (run (opening ++ afterwards) (with_leases held)).(guard_budgets) !! 2%N = Some b'
    ∧ booked b' = debit.
Proof.
  destruct ((run opening (with_leases held)).(guard_budgets) !! 2%N) as [b|] eqn:Hb;
    [|vm_compute in Hb; discriminate Hb].
  destruct (budget_accounting held opening afterwards 2 b) as (b' & Hb' & _ & _ & Hs).
  - repeat constructor; simpl; lia.
  - exact Hb.
  - exists b'. split; [exact Hb'|]. rewrite Hs. vm_compute. reflexivity.
Defined.

Lemma quarantine_left_only_by_release_witness :
  ∃ s', (apply (DeleteSandbox 40 1 2) (run contained (with_leases held))).(sandboxes) !! 2%N
        = Some s' ∧ s'.(sb_state) = Quarantined.
Proof.
  destruct ((run contained (with_leases held)).(sandboxes) !! 2%N) as [s|] eqn:Hs;
    [|vm_compute in Hs; discriminate Hs].
  destruct (quarantine_left_only_by_release held contained (DeleteSandbox 40 1 2) 2 s
    contained_unsigned I Hs) as [[[now Hr]|[Hk _]] _].
  - vm_compute in Hs. injection Hs as <-. reflexivity.
  - discriminate Hr.
  - exact Hk.
Defined.

Lemma quarantine_needs_live_fence_witness :
  ∃ k l, (run opening (with_leases held)).(leases) !! k = Some l ∧ l.(le_sandbox_id) = 2%N.
Proof.
  destruct ((run opening (with_leases held)).(sandboxes) !! 2%N) as [s|] eqn:Hs;
    [|vm_compute in Hs; discriminate Hs].
  destruct ((apply (MarkQuarantined 20 20 1 2 fence) (run opening (with_leases held))).(sandboxes)
              !! 2%N) as [s'|] eqn:Hs'; [|vm_compute in Hs'; discriminate Hs'].
  destruct (quarantine_needs_live_fence held opening (MarkQuarantined 20 20 1 2 fence) 2 s s'
    opening_unsigned I Hs) as (_ & _ & _ & k & l & _ & _ & _ & Hk & _ & _ & Hid & _).
  - vm_compute in Hs. injection Hs as <-. discriminate.
  - exact Hs'.
  - vm_compute in Hs'. injection Hs' as <-. reflexivity.
  - exists k, l. split; [exact Hk|exact Hid].
Defined.

Definition digest : string :=
  "0123456789abcdef0123456789abcdef0123456789abcdef0123456789abcdef".

Definition ask : GuardToolApproval := {|
  ta_id := 30%N; ta_sandbox_id := 2%N; ta_tenant_id := 1%N; ta_tool := "sandbox.destroy";
  ta_request_digest := digest; ta_detail := None; ta_requested_by_key_id := 40%N;
  ta_requested_by_label := "key"; ta_state := ApprovalPending; ta_decided_by_key_id := None;
  ta_decided_by_label := None; ta_decided_at := None; ta_expires_at := 100;
  ta_consumed_at := None; ta_created_at := 0 |}.

Definition approved : list op :=
  [PutApproval 0 ask;
   DecideApproval {| dr_tenant := 1%N; dr_sandbox := 2%N; dr_request_id := 30%N;
     dr_decision := ApprovalGranted; dr_decided_by_key_id := 41%N; dr_decided_by_label := "op";
     dr_at := 10 |}].

(** The granted call runs once; a second attempt spends nothing. *)
Definition spend : op := ConsumeApproval 1 2 "sandbox.destroy" digest 40 20.

Lemma approval_authorises_one_call_witness :
  uses 30 (approved ++ [spend; spend]) (with_leases ∅) = 1%nat
  ∧ (uses 30 (approved ++ [spend; spend]) (with_leases ∅) ≤ 1)%nat.
Proof.
  split; [vm_compute; reflexivity|].
  apply (approval_authorises_one_call ∅ (approved ++ [spend; spend])).
  repeat constructor.
Defined.

Lemma decided_proposals_are_final_witness :
  ∃ p', (run [DeleteSandbox 7 10 20]
          (run [CreateSandbox (sandbox_of 10 20 1); PutProposal proposal] (with_leases ∅)))
          .(guard_proposals) !! 9%N = Some p' ∧ p'.(gp_agent_id) = "agent"%string.
Proof.
  destruct (decided_proposals_are_final [DeleteSandbox 7 10 20]
    (run [CreateSandbox (sandbox_of 10 20 1); PutProposal proposal] (with_leases ∅)) 9 proposal)
    as (p' & Hp' & _ & _ & _ & Ha & _); [vm_compute; reflexivity|].
  exists p'. split; [exact Hp'|exact Ha].
Defined.

(** A first report without evidence, and a second one with an event. *)
Definition report_with (es : list GuardEvent) : GuardIncident := {|
  in_id := 50%N;
  in_identity := {| gi_sandbox_id := Sample.first.(sandbox_id);
    gi_tenant_id := Sample.first.(tenant_id); gi_policy_hash := Sample.first.(policy_hash) |};
  in_fence := fence; in_rules := []; triggered_at := 0; network_cut_at := None;
  paused_at := None; snapshot_id := None; completed_at := None; in_events := es;
  event_start_sequence := 1; event_previous_hash := GENESIS_HASH;
  event_sequence := Z.of_nat (length es);
  event_head := default GENESIS_HASH (current_hash <$> last es); in_errors := [];
  notified_at := None; report := "" |}.

Definition merged_report : GuardIncident := merged (report_with []) (report_with [Sample.first]).

Lemma incident_evidence_append_only_witness :
  merge_incident (Some (report_with [])) (report_with [Sample.first]) = Ok merged_report
  ∧ validate_incident_evidence merged_report = Ok ().
Proof.
  assert (Hr : merge_incident (Some (report_with [])) (report_with [Sample.first])
               = Ok merged_report) by (vm_compute; reflexivity).
  assert (Hv : validate_incident_evidence (report_with []) = Ok ()) by (vm_compute; reflexivity).
  split; [exact Hr|].
  destruct (incident_evidence_append_only _ _ _ Hv Hr) as (_ & (_ & _ & _ & Hvalid) & _).
  exact Hvalid.
Defined.

Lemma incident_retry_idempotent_witness :
  merge_incident (Some merged_report) (report_with [Sample.first]) = Ok merged_report.
Proof.
  assert (Hr : merge_incident (Some (report_with [])) (report_with [Sample.first])
               = Ok merged_report) by (vm_compute; reflexivity).
  exact (incident_retry_idempotent _ _ _ Hr).
Defined.

Definition three : list op :=
  [CreateSandbox (sandbox_of 1 2 0); CreateSandbox (sandbox_of 10 20 1);
   CreateSandbox (sandbox_of 1 3 7)].

Lemma sandbox_pages_complete_witness :
  ∃ shown, walk (λ after, list_sandboxes 1 1 after (run three (with_leases ∅))) 4 None = Some shown
           ∧ NoDup (sb_id <$> shown).
Proof.
  destruct (sandbox_pages_complete ∅ three 1 1 4) as (shown & Hw & _ & Hnd & _).
  - repeat constructor.
  - vm_compute. lia.
  - exists shown. split; [exact Hw|exact Hnd].
Defined.

End GuardWitnesses.
