(* ===== verification/Quarantine.v ===== *)
(** * Quarantine: the control plane's path from a rule to a contained guest

    [crates/aiec-api/src/guard.rs] and [guard_release.rs]: the observation a watchdog
    polls, the heartbeat, the two requests that quarantine a sandbox and the reaper, the
    stages of a quarantine, the release, and the budget a guarded sandbox starts with.

    A handler is a function on a [World]: the metadata store, a counter of the points at
    which it awaits, and what it has done so far.  Everything outside the control plane is
    an answer that may differ at every such point ([Surroundings]): the clock, fresh
    identifiers, the scheduler, the worker that owns the sandbox, the notifier, the text of
    an error, and the writes other requests make to the store in between.  The store is the
    in-memory one of [GuardStore].  [GuardPolicy::hash] is an argument.  A request and the
    task it spawns, which outlives it, are one sequence of calls. *)

From Stdlib Require Import Ascii.
From S2P Require Import Canaries.
From S2P Require Import Prelude Policy Boundary L7 Text Render Enforcement.
From S2P Require Import Lifecycle Events Store ArtifactGc GuardStore Watchdog Report.
Import Sandboxes.

Definition TELEMETRY_PAGE : Z := 4096.
Definition MAX_INCIDENT_RULES : Z := 16.
Definition REAPER_WINDOW : nat := 64.

(** ** Messages *)
(** The commands these handlers send to the worker. *)
Inductive GuardControlCommand :=
| CObserve (policy_hash : string) (after : Z)
| CHeartbeat (policy_hash : string)
| CCut (policy_hash : string)
| CAppendEvent (policy_hash : string) (event : EventInput)
| CCapturePaused (snapshot_id : string)
| CRelease (policy_hash : string).

Record GuardRuntimeObservation := {
  ro_identity : GuardIdentity; ro_counters : CounterSnapshot; ro_events : list GuardEvent; ro_observed_at : Instant;
  ro_start_sequence : Z; ro_previous_hash : string; ro_sequence : Z; ro_head : string; ro_network_cut : bool }.

Inductive GuardControlResponse :=
| RUnit
| RObservation (o : GuardRuntimeObservation)
| REvent (e : GuardEvent)
| RForensics (snapshot_id : string) (size_bytes : Z)
| RReleased (policy_hash : string)
| RPolicyApplied (proposal_id : Uuid) (previous_policy_hash policy_hash : string) (already_applied : bool).

Record QuarantineRequest := { qr_fence : GuardFence; qr_policy_hash : string; qr_rules : list RuleTrigger }.

Record Principal := { pr_tenant_id : Uuid; pr_key_id : Uuid; pr_scopes : list Scope }.

(** [ApiFailure], by status and code. *)
Module ApiFailure.
Inductive t :=
| BadRequest | Forbidden | NotFound | Conflict | PayloadTooLarge | TooManyRequests | ServiceUnavailable | Transient
| NotImplemented | Backend | Internal | BadGateway
| Panicked (** the task has panicked *).
End ApiFailure.

Definition failure_of (e : CoreError.t) : ApiFailure.t :=
  match e with
  | CoreError.InvalidRequest => ApiFailure.BadRequest
  | CoreError.Forbidden => ApiFailure.Forbidden
  | CoreError.NotFound => ApiFailure.NotFound
  | CoreError.Conflict => ApiFailure.Conflict
  | CoreError.LimitExceeded => ApiFailure.PayloadTooLarge
  | CoreError.QuotaExceeded => ApiFailure.TooManyRequests
  | CoreError.Unavailable => ApiFailure.ServiceUnavailable
  | CoreError.Transient => ApiFailure.Transient
  | CoreError.Unsupported => ApiFailure.NotImplemented
  | CoreError.Backend => ApiFailure.Backend
  | CoreError.Io => ApiFailure.Internal
  end.

#[global] Instance Scope_eq_dec : EqDecision Scope.
Proof. solve_decision. Defined.

Definition authorize (p : Principal) (required : Scope) : result CoreError.t () :=
  if bool_decide (Admin ∈ p.(pr_scopes)) || bool_decide (required ∈ p.(pr_scopes)) then Ok () else Err CoreError.Forbidden.

(** [GuardPolicy::hash]: SHA-256 of the canonical JSON. *)
Class PolicyDigest := policy_digest : GuardPolicy → result GuardError.t string.

(** ** The surroundings *)
Record Surroundings := {
  now_at : nat → Instant;
  id_at : nat → Uuid;
  text_at : nat → string;
  fence_at : nat → result CoreError.t GuardFence;
  runtime_at : nat → result CoreError.t ();
  worker_at : nat → GuardFence → GuardControlCommand → result CoreError.t GuardControlResponse;
  others_at : nat → list op;
  notifier_at : nat → option (result GuardError.t bool) (** delivered? *) }.

(** What a handler does: commands to the worker and writes to the store, with their outcome. *)
Inductive Act :=
| Sent (c : GuardControlCommand)
| Marked (ok : bool)
| Recorded (ok : bool)
| Reopened (ok : bool).

Record World := { tick : nat; data : MemoryData; acts : list Act }.

Definition M (A : Type) : Type := World → World * A.
#[global] Instance M_ret : MRet M := λ A a w, (w, a).
#[global] Instance M_bind : MBind M := λ A B k m w, let '(w', a) := m w in k a w'.
Definition andThen {A B} (m : M (result ApiFailure.t A)) (k : A → M (result ApiFailure.t B)) : M (result ApiFailure.t B) :=
  r ← m; match r with Ok a => k a | Err e => mret (Err e) end.
Notation "'let!' x := m 'in' k" := (andThen m (λ x, k)) (at level 200, x pattern, m at level 100, k at level 200).

Definition fail {A} (e : ApiFailure.t) : M (result ApiFailure.t A) := mret (Err e).
Definition done_ {A} (a : A) : M (result ApiFailure.t A) := mret (Ok a).
Definition lift {A} (r : result ApiFailure.t A) : M (result ApiFailure.t A) := mret r.

Section Handlers.
Context `{Host, HashOrder, PolicyDigest}.
Variable env : Surroundings.

(** ** Awaiting *)
(** The store as this point finds it, after the writes of other requests. *)
Definition found (w : World) : MemoryData := run (env.(others_at) w.(tick)) w.(data).

Definition access {A} (note : bool → list Act) (f : Instant → Instant → MemoryData → Op A) : M (result ApiFailure.t A) := λ w,
  let '(d, r) := f (env.(now_at) w.(tick)) (env.(now_at) (S w.(tick))) (found w) in
  ({| tick := S (S w.(tick)); data := d; acts := w.(acts) ++ note (is_ok r) |}, map_err (failure_of ∘ core_error) r).

Definition fetch {A} (f : MemoryData → result StoreError.t A) : M (result ApiFailure.t A) :=
  access (λ _, []) (λ _ _ d, (d, f d)).

Definition ask {A} (f : nat → A) : M A := λ w, ({| tick := S w.(tick); data := w.(data); acts := w.(acts) |}, f w.(tick)).

Definition now : M Instant := ask env.(now_at).
Definition new_id : M Uuid := ask env.(id_at).
Definition error_text : M string := ask env.(text_at).
Definition runtime_for (s : Sandbox) : M (result ApiFailure.t ()) := ask (λ n, map_err failure_of (env.(runtime_at) n)).

Definition guard_control (fence : GuardFence) (c : GuardControlCommand) : M (result CoreError.t GuardControlResponse) := λ w,
  ({| tick := S w.(tick); data := w.(data); acts := w.(acts) ++ [Sent c] |}, env.(worker_at) w.(tick) fence c).

(** ** Reading *)
Definition recorded_policy_hash (s : Sandbox) : result ApiFailure.t string :=
  match s.(sb_environment).(guard) with
  | None => Err ApiFailure.Conflict
  | Some g =>
      map_err (λ _, ApiFailure.Conflict) (let? p := effective_policy g in policy_digest p)
  end.

Definition current_fence : M (result ApiFailure.t GuardFence) := ask (λ n, map_err failure_of (env.(fence_at) n)).

Definition observe (tenant id : Uuid) (after : Z) : M (result ApiFailure.t GuardObservation) :=
  let! sandbox := fetch (get_sandbox tenant id) in
  let! hash := lift (recorded_policy_hash sandbox) in
  let! fence := current_fence in
  let! _ := runtime_for sandbox in
  reply ← guard_control fence (CObserve hash after);
  match reply with
  | Err e => fail (failure_of e)
  | Ok (RObservation observed) =>
      if TELEMETRY_PAGE <=? saturating_sub observed.(ro_sequence) observed.(ro_start_sequence) then fail ApiFailure.Conflict
      else
        let! budget := fetch (get_guard_budget tenant id) in
        if negb (bool_decide (budget.(b_identity).(gi_policy_hash) = hash)) then fail ApiFailure.Conflict
        else done_ {|
          o_identity := budget.(b_identity); o_fence := fence; o_counters := observed.(ro_counters);
          o_events := observed.(ro_events); observed_at := observed.(ro_observed_at);
          o_start_sequence := observed.(ro_start_sequence); o_previous_hash := observed.(ro_previous_hash);
          o_sequence := observed.(ro_sequence); o_head := observed.(ro_head);
          network_cut := observed.(ro_network_cut); paused := bool_decide (sandbox.(sb_state) = Paused); o_budget := budget |}
  | Ok _ => fail ApiFailure.BadGateway
  end.

Definition guard_telemetry (principal : Principal) (id : Uuid) (after : Z) : M (result ApiFailure.t GuardObservation) :=
  let! _ := lift (map_err failure_of (authorize principal GuardRead)) in
  observe principal.(pr_tenant_id) id after.

Definition guard_heartbeat (principal : Principal) (id : Uuid) : M (result ApiFailure.t ()) :=
  let! _ := lift (map_err failure_of (authorize principal GuardHeartbeat)) in
  let! observation := observe principal.(pr_tenant_id) id 0 in
  let! sandbox := fetch (get_sandbox principal.(pr_tenant_id) id) in
  let! _ := runtime_for sandbox in
  reply ← guard_control observation.(o_fence) (CHeartbeat observation.(o_identity).(gi_policy_hash));
  match reply with Ok _ => done_ () | Err e => fail (failure_of e) end.

(** ** Incidents *)
(** An incident with its stages, evidence and report replaced. *)
Definition with_stages (i : GuardIncident) (cut pause completed notified : option Instant) (snapshot : option string)
    (events : list GuardEvent) (sequence : Z) (head : string) (errors : list string) (text : string) : GuardIncident := {|
  in_id := i.(in_id); in_identity := i.(in_identity); in_fence := i.(in_fence); in_rules := i.(in_rules);
  triggered_at := i.(triggered_at); network_cut_at := cut; paused_at := pause; snapshot_id := snapshot;
  completed_at := completed; in_events := events; event_start_sequence := i.(event_start_sequence);
  event_previous_hash := i.(event_previous_hash); event_sequence := sequence; event_head := head; in_errors := errors;
  notified_at := notified; report := text |}.

Definition set_cut (t : Instant) (i : GuardIncident) : GuardIncident :=
  with_stages i (Some t) i.(paused_at) i.(completed_at) i.(notified_at) i.(snapshot_id) i.(in_events) i.(event_sequence)
    i.(event_head) i.(in_errors) i.(report).
Definition set_capture (snapshot : string) (t : Instant) (i : GuardIncident) : GuardIncident :=
  with_stages i i.(network_cut_at) (Some t) i.(completed_at) i.(notified_at) (Some snapshot) i.(in_events) i.(event_sequence)
    i.(event_head) i.(in_errors) i.(report).
Definition set_completed (t : Instant) (i : GuardIncident) : GuardIncident :=
  with_stages i i.(network_cut_at) i.(paused_at) (Some t) i.(notified_at) i.(snapshot_id) i.(in_events) i.(event_sequence)
    i.(event_head) i.(in_errors) i.(report).
Definition set_notified (t : Instant) (i : GuardIncident) : GuardIncident :=
  with_stages i i.(network_cut_at) i.(paused_at) i.(completed_at) (Some t) i.(snapshot_id) i.(in_events) i.(event_sequence)
    i.(event_head) i.(in_errors) i.(report).
Definition set_errors (errors : list string) (i : GuardIncident) : GuardIncident :=
  with_stages i i.(network_cut_at) i.(paused_at) i.(completed_at) i.(notified_at) i.(snapshot_id) i.(in_events)
    i.(event_sequence) i.(event_head) errors i.(report).
Definition set_report (text : string) (i : GuardIncident) : GuardIncident :=
  with_stages i i.(network_cut_at) i.(paused_at) i.(completed_at) i.(notified_at) i.(snapshot_id) i.(in_events)
    i.(event_sequence) i.(event_head) i.(in_errors) text.
Definition extend (events : list GuardEvent) (sequence : Z) (head : string) (i : GuardIncident) : GuardIncident :=
  with_stages i i.(network_cut_at) i.(paused_at) i.(completed_at) i.(notified_at) i.(snapshot_id)
    (i.(in_events) ++ events) sequence head i.(in_errors) i.(report).

Definition put_incident (i : GuardIncident) : M (result ApiFailure.t GuardIncident) :=
  access (λ ok, [Recorded ok]) (λ now _ d, put_guard_incident now i d).

Definition all_stages (i : GuardIncident) : bool :=
  bool_decide (is_Some i.(network_cut_at)) && bool_decide (is_Some i.(paused_at))
  && bool_decide (is_Some i.(snapshot_id)) && negb (is_empty i.(report)).

Definition persist (incident : GuardIncident) : M (result ApiFailure.t GuardIncident) :=
  let! stored := put_incident incident in
  if bool_decide (is_Some incident.(completed_at)) then done_ stored
  else if negb (all_stages stored) then done_ stored
  else t ← now; put_incident (set_completed t stored).

Definition record_stage (incident : GuardIncident) (failures : list string) : M (result ApiFailure.t GuardIncident) :=
  persist (set_errors (push_new incident.(in_errors) failures) incident).

Definition existing_incident (tenant id : Uuid) : M (option GuardIncident) :=
  r ← fetch (get_guard_incident tenant id); mret (match r with Ok i => Some i | Err _ => None end).

(** The incident a quarantine opens, anchored in the page that was read. *)
Definition opened (id : Uuid) (t : Instant) (fence : GuardFence) (rules : list RuleTrigger) (seed : GuardObservation) : GuardIncident := {|
  in_id := id; in_identity := seed.(o_identity); in_fence := fence; in_rules := rules; triggered_at := t;
  network_cut_at := None; paused_at := None; snapshot_id := None; completed_at := None; in_events := seed.(o_events);
  event_start_sequence := seed.(o_start_sequence); event_previous_hash := seed.(o_previous_hash);
  event_sequence := seed.(o_sequence); event_head := seed.(o_head); in_errors := []; notified_at := None; report := "" |}.

(** A lease other than the current one, or a generation that was never issued. *)
Definition stale (fence request : GuardFence) : bool :=
  negb (fence.(lease_id) =? request.(lease_id))%N || (fence.(generation) <? request.(generation)).

(** An incident whose stages are complete. *)
Definition closed (existing : option GuardIncident) : option GuardIncident :=
  i ← existing; if bool_decide (is_Some i.(completed_at)) then Some i else None.

Definition begin_quarantine (tenant id : Uuid) (request : QuarantineRequest) : M (result ApiFailure.t GuardIncident) :=
  let! sandbox := fetch (get_sandbox tenant id) in
  let! hash := lift (recorded_policy_hash sandbox) in
  if negb (bool_decide (hash = request.(qr_policy_hash))) then fail ApiFailure.Conflict
  else
    existing ← existing_incident tenant id;
    match closed existing with
    | Some incident => done_ incident
    | None =>
        let! fence := current_fence in
        if stale fence request.(qr_fence) then fail ApiFailure.Conflict
        else
          let! seed := observe tenant id 0 in
          if is_empty seed.(o_head) then fail ApiFailure.Conflict
          else
            again ← existing_incident tenant id;
            match again with
            | Some incident => persist incident
            | None => i ← new_id; t ← now; persist (opened i t fence request.(qr_rules) seed)
            end
    end.

(** ** Stages *)
(** 1. The network cut. *)
Definition cut_stage (fence : GuardFence) (hash : string) (incident : GuardIncident) : M (GuardIncident * list string) :=
  match incident.(network_cut_at) with
  | Some _ => mret (incident, [])
  | None =>
      reply ← guard_control fence (CCut hash);
      match reply with
      | Ok _ => t ← now; mret (set_cut t incident, [])
      | Err _ => text ← error_text; mret (incident, ["network cut: " +:+ text])
      end
  end.

(** 2. The capture while paused. *)
Definition capture_stage (fence : GuardFence) (incident : GuardIncident) : M (GuardIncident * list string) :=
  match incident.(snapshot_id) with
  | Some _ => mret (incident, [])
  | None =>
      reply ← guard_control fence (CCapturePaused (uuid_to_string incident.(in_id)));
      match reply with
      | Ok (RForensics snapshot _) => t ← now; mret (set_capture snapshot t incident, [])
      | Ok _ => mret (incident, ["worker did not confirm a forensic capture"%string])
      | Err _ => text ← error_text; mret (incident, ["forensic capture: " +:+ text])
      end
  end.

Definition mark (tenant id : Uuid) (fence : GuardFence) : M (result ApiFailure.t Sandbox) :=
  access (λ ok, [Marked ok]) (λ now now' d, mark_guard_quarantined now now' tenant id fence d).

Definition quarantine_event (id tenant : Uuid) (hash : string) (rules : list RuleTrigger) : EventInput :=
  let triggered_by := match rules with rule :: _ => rule.(rt_rule) | [] => "quarantine"%string end in
  {| i_sandbox_id := id; i_tenant_id := tenant; i_policy_hash := hash; i_category := CQuarantine;
     i_decision := Events.Quarantine; i_reason := triggered_by; i_destination := rt_rule <$> head rules;
     i_request_bytes := 0; i_response_bytes := 0; i_duration_ms := 0 |}.

(** 4. The authoritative event, appended once. *)
Definition event_stage (tenant id : Uuid) (fence : GuardFence) (hash : string) (rules : list RuleTrigger)
    : M (result ApiFailure.t (list string)) :=
  let! seen := observe tenant id 0 in
  if existsb (λ e, bool_decide (e.(category) = CQuarantine)) seen.(o_events) then done_ []
  else
    reply ← guard_control fence (CAppendEvent hash (quarantine_event id tenant hash rules));
    match reply with
    | Ok _ => done_ []
    | Err _ => text ← error_text; done_ ["guard event: " +:+ text]
    end.

(** The evidence after the event, re-read from the stream. *)
Definition evidence_stage (tenant id : Uuid) (incident : GuardIncident) (failures : list string)
    : M (GuardIncident * list string) :=
  fresh ← observe tenant id incident.(event_sequence);
  match fresh with
  | Ok fresh =>
      let continues := match fresh.(o_events) with
                       | e :: _ => bool_decide (e.(previous_hash) = incident.(event_head))
                       | [] => true
                       end in
      if continues then mret (extend fresh.(o_events) fresh.(o_sequence) fresh.(o_head) incident, failures)
      else mret (incident, failures ++ ["authoritative evidence did not continue the incident window"%string])
  | Err _ => text ← error_text; mret (incident, failures ++ ["authoritative evidence: " +:+ text])
  end.

Definition report_stage (incident : GuardIncident) (failures : list string)
    : M (result ApiFailure.t (GuardIncident * list string)) :=
  match generate_incident_report incident with
  | None => fail ApiFailure.Panicked
  | Some (Ok text) => done_ (set_report text incident, failures)
  | Some (Err _) => text ← error_text; done_ (incident, failures ++ ["incident report: " +:+ text])
  end.

(** 5. The notification. *)
Definition notify_stage (incident : GuardIncident) : M (result ApiFailure.t GuardIncident) :=
  if bool_decide (is_Some incident.(completed_at)) && bool_decide (incident.(notified_at) = None) then
    notifier ← ask env.(notifier_at);
    match notifier with
    | Some (Ok true) => t ← now; persist (set_notified t incident)
    | _ => done_ incident
    end
  else done_ incident.

Definition advance_quarantine (tenant id : Uuid) : M (result ApiFailure.t GuardIncident) :=
  let! sandbox := fetch (get_sandbox tenant id) in
  let! hash := lift (recorded_policy_hash sandbox) in
  let! fence := current_fence in
  let! _ := runtime_for sandbox in
  named ← existing_incident tenant id;
  let rules := match named with Some i => i.(in_rules) | None => [] end in
  existing ← existing_incident tenant id;
  let! incident := lift (ok_or existing ApiFailure.NotFound) in
  '(incident, failures) ← cut_stage fence hash incident;
  let! incident := record_stage incident failures in
  '(incident, failures) ← capture_stage fence incident;
  let! incident := record_stage incident failures in
  marked ← mark tenant id fence;
  match marked with
  | Err _ => let! _ := record_stage incident ["durable quarantine mark"%string] in fail ApiFailure.Conflict
  | Ok _ =>
      let! incident := record_stage incident [] in
      let! failures := event_stage tenant id fence hash rules in
      '(incident, failures) ← evidence_stage tenant id incident failures;
      let! finished := report_stage incident failures in
      let! incident := record_stage finished.1 finished.2 in
      let! incident := (if all_stages incident && bool_decide (incident.(completed_at) = None)
                        then record_stage incident [] else done_ incident) in
      notify_stage incident
  end.

(** ** Requests *)
(** The request opens the incident; its stages run on a task of their own. *)
Definition quarantine (tenant id : Uuid) (request : QuarantineRequest) : M (result ApiFailure.t GuardIncident) :=
  let! incident := begin_quarantine tenant id request in
  _ ← advance_quarantine tenant id;
  done_ incident.

Definition guard_quarantine (principal : Principal) (id : Uuid) (request : QuarantineRequest) : M (result ApiFailure.t GuardIncident) :=
  let! _ := lift (map_err failure_of (authorize principal GuardQuarantine)) in
  if bool_decide (request.(qr_rules) = []) || (MAX_INCIDENT_RULES <? count request.(qr_rules)) then fail ApiFailure.BadRequest
  else quarantine principal.(pr_tenant_id) id request.

(** The event a credential canary leaves in the journal. *)
Definition canary_event (reference hash policy : string) (e : GuardEvent) : bool :=
  bool_decide (e.(category) = Credential) && bool_decide (e.(decision) = Events.Quarantine)
  && bool_decide (e.(destination) = Some reference) && bool_decide (e.(current_hash) = hash)
  && bool_decide (Events.policy_hash e = policy).

Definition worker_guard_quarantine (node : Uuid) (identity : GuardIdentity) (request : QuarantineRequest)
    : M (result ApiFailure.t ()) :=
  let tenant := identity.(gi_tenant_id) in
  let id := identity.(gi_sandbox_id) in
  let! sandbox := fetch (get_sandbox tenant id) in
  if negb (bool_decide (sandbox.(sb_node_id) = Some node))
     || negb (bool_decide (identity.(gi_policy_hash) = request.(qr_policy_hash))) then fail ApiFailure.Conflict
  else
    let! hash := lift (recorded_policy_hash sandbox) in
    if negb (bool_decide (hash = identity.(gi_policy_hash))) then fail ApiFailure.Conflict
    else
      let! fence := current_fence in
      if stale fence request.(qr_fence) then fail ApiFailure.Conflict
      else
        match request.(qr_rules) with
        | [{| rt_rule := rule; evidence_references := [reference; event_hash] |}] =>
            if negb (bool_decide (rule = RULE_CANARY_CREDENTIAL)) then fail ApiFailure.BadRequest
            else
              let! observation := observe sandbox.(sb_tenant_id) sandbox.(sb_id) 0 in
              if negb observation.(network_cut)
                 || negb (existsb (canary_event reference event_hash identity.(gi_policy_hash)) observation.(o_events))
              then fail ApiFailure.Conflict
              else
                let! _ := begin_quarantine sandbox.(sb_tenant_id) sandbox.(sb_id) request in
                let! _ := mark sandbox.(sb_tenant_id) sandbox.(sb_id) fence in
                _ ← advance_quarantine sandbox.(sb_tenant_id) sandbox.(sb_id);
                done_ ()
        | _ => fail ApiFailure.BadRequest
        end.

(** ** The reaper *)
Definition spent_rule (b : GuardBudgetState) : string :=
  if (b.(max_model_requests_cap) <=? b.(model_requests)) || (b.(max_bytes_in) <=? b.(b_bytes_in))
     || (b.(max_bytes_out) <=? b.(b_bytes_out))
  then "durable_budget_exhausted" else "sandbox_lifetime_expired".

Definition reap (b : GuardBudgetState) : M () :=
  if b.(quarantined) then mret ()
  else
    let tenant := b.(b_identity).(gi_tenant_id) in
    let id := b.(b_identity).(gi_sandbox_id) in
    fence ← current_fence;
    sandbox ← (match fence with Ok _ => fetch (get_sandbox tenant id) | Err e => fail e end);
    match fence, (let? s := sandbox in recorded_policy_hash s) with
    | Ok fence, Ok hash =>
        _ ← quarantine tenant id {|
          qr_fence := fence; qr_policy_hash := hash;
          qr_rules := [{| rt_rule := spent_rule b; first_event_sequence := None;
                          evidence_references := ["durable-control-plane-budget"%string] |}] |};
        mret ()
    | _, _ => mret ()
    end.

Fixpoint reap_all (expired : list GuardBudgetState) : M () :=
  match expired with [] => mret () | b :: expired => _ ← reap b; reap_all expired end.

Definition reap_guard_budgets (t : Instant) : M () :=
  expired ← fetch (λ d, Ok (list_expired_guard_budgets t REAPER_WINDOW d));
  match expired with Ok expired => reap_all expired | Err _ => mret () end.

(** ** Budgets *)
(** The ceilings a guarded sandbox is held to. *)
Definition initial_budget (s : Sandbox) (g : GuardConfig) (p : GuardPolicy) (hash : string) : GuardBudgetState := {|
  b_identity := {| gi_sandbox_id := s.(sb_id); gi_tenant_id := s.(sb_tenant_id); gi_policy_hash := hash |};
  b_expires_at := s.(sb_created_at) + seconds s.(sb_timeout_seconds);
  max_model_requests_cap := g.(max_model_requests); max_bytes_in := p.(limits).(bytes_in);
  max_bytes_out := p.(limits).(bytes_out); model_requests := 0; b_bytes_in := 0; b_bytes_out := 0; quarantined := false |}.

Definition initialize_guard_budget (s : Sandbox) : M (result ApiFailure.t ()) :=
  match s.(sb_environment).(guard) with
  | None => done_ ()
  | Some g =>
      let! p := lift (map_err (λ _, ApiFailure.BadRequest) (effective_policy g)) in
      let! hash := lift (map_err (λ _, ApiFailure.BadRequest) (policy_digest p)) in
      let! _ := access (λ _, []) (λ _ _ d, put_guard_budget (initial_budget s g p hash) d) in
      done_ ()
  end.

Definition api_reserve_guard_budget (node : Uuid) (identity : GuardIdentity) (fence : GuardFence) (debit : BudgetDebit)
    : M (result ApiFailure.t ()) :=
  let! sandbox := fetch (get_sandbox identity.(gi_tenant_id) identity.(gi_sandbox_id)) in
  if negb (bool_decide (sandbox.(sb_node_id) = Some node)) then fail ApiFailure.Conflict
  else
    let! _ := access (λ _, []) (λ now now' d, reserve_guard_budget now now' identity fence debit d) in
    done_ ().

(** ** The release *)
(** [printable]: no control character, ASCII only. *)
Definition bad_label (max : Z) (label : string) : bool := is_empty label || (max <? slen label) || negb (all_bytes (in_range 32 126) label).

Definition release_sandbox (principal : Principal) (id : Uuid) (operator_label note : option string)
    : M (result ApiFailure.t (string * string)) :=
  let tenant := principal.(pr_tenant_id) in
  let! _ := lift (map_err failure_of (authorize principal GuardRelease)) in
  let! sandbox := fetch (get_sandbox tenant id) in
  if negb (bool_decide (sandbox.(sb_state) = Quarantined)) then fail ApiFailure.Conflict
  else if is_some_and operator_label (bad_label 64) then fail ApiFailure.BadRequest
  else if is_some_and note (bad_label 512) then fail ApiFailure.BadRequest
  else
    let released_by := "key:" +:+ uuid_to_string principal.(pr_key_id)
                       +:+ match operator_label with Some l => "/" +:+ l | None => "" end in
    let! hash := lift (ok_or sandbox.(sb_environment).(guard_policy_hash) ApiFailure.Conflict) in
    let! fence := current_fence in
    let! _ := runtime_for sandbox in
    reply ← guard_control fence (CRelease hash);
    match reply with
    | Err e => fail (failure_of e)
    | Ok _ =>
        released ← access (λ ok, [Reopened ok]) (λ now _ d, release_guard_quarantine now tenant id d);
        match released with
        | Ok _ => done_ (released_by, hash)
        | Err _ => fail ApiFailure.Conflict
        end
    end.

End Handlers.

(** ** What a handler does *)
(** [m] adds to the acts of its world acts [t] with [Q t a], where [a] is what it returns. *)
Definition emits {A} (m : M A) (Q : list Act → A → Prop) : Prop :=
  ∀ w, ∃ t, (m w).1.(acts) = w.(acts) ++ t ∧ Q t (m w).2.

Lemma emits_mono {A} (m : M A) (Q R : list Act → A → Prop) : emits m Q → (∀ t a, Q t a → R t a) → emits m R.
Proof. intros Hm Hq w. destruct (Hm w) as (t & Ht & HQ). exists t. split; [done|]. by apply Hq. Qed.

Lemma emits_ret {A} (a : A) (Q : list Act → A → Prop) : Q [] a → emits (mret a) Q.
Proof. intros Hq w. exists []. cbn. by rewrite app_nil_r. Qed.

Lemma emits_bind {A B} (m : M A) (k : A → M B) (Q : list Act → A → Prop) (R : list Act → B → Prop) :
  emits m Q → (∀ t a, Q t a → emits (k a) (λ t' b, R (t ++ t') b)) → emits (a ← m; k a) R.
Proof.
  intros Hm Hk w. destruct (Hm w) as (t & Ht & HQ). unfold mbind, M_bind. destruct (m w) as [w' a]. cbn in *.
  destruct (Hk t a HQ w') as (t' & Ht' & HR). exists (t ++ t'). rewrite Ht', Ht, app_assoc. done.
Qed.

Lemma emits_then {A B} (m : M (result ApiFailure.t A)) (k : A → M (result ApiFailure.t B)) (Q : list Act → result ApiFailure.t A → Prop)
    (R : list Act → result ApiFailure.t B → Prop) :
  emits m Q → (∀ t e, Q t (Err e) → R t (Err e)) → (∀ t a, Q t (Ok a) → emits (k a) (λ t' b, R (t ++ t') b)) →
  emits (andThen m k) R.
Proof.
  intros Hm He Hk. apply (emits_bind _ _ Q); [exact Hm|]. intros t [a|e] HQ; [by apply Hk|].
  apply emits_ret. rewrite app_nil_r. by apply He.
Qed.

Section Emissions.
Context `{Host, HashOrder, PolicyDigest}.
Variable env : Surroundings.

Lemma emits_access {A} note (f : Instant → Instant → MemoryData → Op A) :
  emits (access env note f) (λ t r, t = note (is_ok r)).
Proof.
  intros w. unfold access. destruct (f _ _ _) as [d r]. exists (note (is_ok r)). split; [done|]. by destruct r.
Qed.

Lemma emits_fetch {A} (f : MemoryData → result StoreError.t A) : emits (fetch env f) (λ t _, t = []).
Proof. apply emits_access. Qed.

Lemma emits_ask {A} (f : nat → A) : emits (ask f) (λ t _, t = []).
Proof. intros w. exists []. cbn. by rewrite app_nil_r. Qed.

Lemma emits_control fence c : emits (guard_control env fence c) (λ t r, t = [Sent c] ∧ ∃ n, r = env.(worker_at) n fence c).
Proof. intros w. exists [Sent c]. split; [done|]. split; [done|]. by eexists. Qed.

End Emissions.

(** ** The order of the stages *)
Definition stage (a : Act) : option nat :=
  match a with
  | Sent (CCut _) => Some 1%nat
  | Sent (CCapturePaused _) => Some 2%nat
  | Marked _ => Some 3%nat
  | Sent (CAppendEvent _ _) => Some 4%nat
  | _ => None
  end.

(** The stages of [t], each at most once, in order, from [lo] up to but not including [hi]. *)
Definition in_stages (lo hi : nat) (t : list Act) : Prop :=
  StronglySorted lt (omap stage t) ∧ Forall (λ k, lo ≤ k < hi)%nat (omap stage t).

Lemma in_stages_app a b c t u : (a ≤ b ≤ c)%nat → in_stages a b t → in_stages b c u → in_stages a c (t ++ u).
Proof.
  intros Habc [Hs Hf] [Hs' Hf']. unfold in_stages. rewrite omap_app. rewrite Forall_forall in Hf, Hf'. split.
  - apply StronglySorted_app. split_and!; [|done|done]. intros x y Hx Hy. apply Hf in Hx. apply Hf' in Hy. lia.
  - apply Forall_app. split; apply Forall_forall; intros k Hk; [apply Hf in Hk|apply Hf' in Hk]; lia.
Qed.

Lemma in_stages_none a b t : omap stage t = [] → in_stages a b t.
Proof. intros Ht. unfold in_stages. rewrite Ht. split; constructor. Qed.

Lemma in_stages_one a b x k : stage x = Some k → (a ≤ k < b)%nat → in_stages a b [x].
Proof. intros Hx Hk. unfold in_stages. cbn. rewrite Hx. split; repeat constructor; lia. Qed.

Definition silent (t : list Act) : Prop := omap stage t = [].
Lemma silent_app t u : silent t → silent u → silent (t ++ u).
Proof. unfold silent. rewrite omap_app. by intros -> ->. Qed.

Section Order.
Context `{Host, HashOrder, PolicyDigest}.
Variable env : Surroundings.

(** A write of the incident shows only in the record of it, and fails only if it is refused. *)
Definition written {A} (t : list Act) (r : result ApiFailure.t A) : Prop :=
  silent t ∧ (is_ok r = false → Recorded false ∈ t).

Lemma put_incident_written i : emits (put_incident env i) written.
Proof. eapply emits_mono; [apply emits_access|]. intros t r ->. split; [done|]. cbn. intros ->. apply list_elem_of_here. Qed.

Lemma written_then {A B} (m : M (result ApiFailure.t A)) (k : A → M (result ApiFailure.t B)) :
  emits m written → (∀ a, emits (k a) written) → emits (andThen m k) written.
Proof.
  intros Hm Hk. eapply emits_then; [exact Hm|by intros t e []|]. intros t a [Hs _]. eapply emits_mono; [apply Hk|].
  intros t' r [Hs' Hr]. split; [by apply silent_app|]. intros He. apply elem_of_app. right. by apply Hr.
Qed.

Lemma written_done {A} (a : A) : emits (done_ a) written.
Proof. by apply emits_ret. Qed.

Lemma persist_written i : emits (persist env i) written.
Proof.
  apply written_then; [apply put_incident_written|]. intros stored. repeat case_match; try apply written_done.
  eapply emits_bind; [apply emits_ask|]. intros t a ->. apply put_incident_written.
Qed.

Lemma record_written i failures : emits (record_stage env i failures) written.
Proof. apply persist_written. Qed.

Lemma silent_fetch {A} (f : MemoryData → result StoreError.t A) : emits (fetch env f) (λ t _, t = []).
Proof. apply emits_fetch. Qed.

Lemma existing_silent tenant id : emits (existing_incident env tenant id) (λ t _, t = []).
Proof. eapply emits_bind; [apply emits_fetch|]. intros t r ->. by apply emits_ret. Qed.

Lemma observe_silent tenant id after : emits (observe env tenant id after) (λ t _, silent t).
Proof.
  unfold observe. eapply emits_then; [apply emits_fetch|by intros t e ->|]. intros t s ->.
  eapply emits_then; [by apply (emits_ret _ (λ t _, t = []))|by intros t e ->|]. intros t h ->.
  eapply emits_then; [apply emits_ask|by intros t e ->|]. intros t f ->.
  eapply emits_then; [apply emits_ask|by intros t e ->|]. intros t u ->.
  eapply emits_bind; [apply emits_control|]. intros t reply [-> _]. destruct reply as [[]|]; try by apply emits_ret.
  case_match; [by apply emits_ret|]. eapply emits_then; [apply emits_fetch|by intros t e ->|]. intros t b ->.
  by case_match; apply emits_ret.
Qed.

Lemma cut_stage_order fence hash i : emits (cut_stage env fence hash i) (λ t _, in_stages 1 2 t).
Proof.
  unfold cut_stage. destruct (network_cut_at i); [by apply emits_ret, in_stages_none|].
  eapply emits_bind; [apply emits_control|]. intros t reply [-> _].
  destruct reply; (eapply emits_bind; [apply emits_ask|]; intros t x ->; apply emits_ret; apply (in_stages_one _ _ _ 1); [done|lia]).
Qed.

Lemma capture_stage_order fence i : emits (capture_stage env fence i) (λ t _, in_stages 2 3 t).
Proof.
  unfold capture_stage. destruct (snapshot_id i); [by apply emits_ret, in_stages_none|].
  eapply emits_bind; [apply emits_control|]. intros t reply [-> _].
  assert (Hc : in_stages 2 3 [Sent (CCapturePaused (uuid_to_string (in_id i)))]) by (by apply (in_stages_one _ _ _ 2); [|lia]).
  destruct reply as [[]|]; first [by apply emits_ret
    | eapply emits_bind; [apply emits_ask|]; intros t x ->; by apply emits_ret].
Qed.

Lemma event_stage_order tenant id fence hash rules : emits (event_stage env tenant id fence hash rules) (λ t _, in_stages 4 5 t).
Proof.
  unfold event_stage. eapply emits_then; [apply observe_silent|by intros t e; apply in_stages_none|]. intros t seen Ht.
  assert (Happ : ∀ u, in_stages 4 5 u → in_stages 4 5 (t ++ u)).
  { intros u Hu. apply (in_stages_app 4 4 5); [lia|by apply in_stages_none|done]. }
  case_match; [by apply emits_ret, Happ, in_stages_none|]. eapply emits_bind; [apply emits_control|]. intros u reply [-> _].
  destruct reply; [apply emits_ret|eapply emits_bind; [apply emits_ask|]; intros v x ->; apply emits_ret; cbn];
    apply Happ; by apply (in_stages_one _ _ _ 4); [|lia].
Qed.

Lemma evidence_stage_silent tenant id i failures : emits (evidence_stage env tenant id i failures) (λ t _, silent t).
Proof.
  unfold evidence_stage. eapply emits_bind; [apply observe_silent|]. intros t [fresh|e] Ht.
  - destruct (match o_events fresh with [] => _ | _ => _ end); apply emits_ret; by rewrite app_nil_r.
  - eapply emits_bind; [apply emits_ask|]. intros u x ->. apply emits_ret. by rewrite !app_nil_r.
Qed.

Lemma report_stage_silent i failures : emits (report_stage env i failures) (λ t _, t = []).
Proof.
  unfold report_stage. destruct (generate_incident_report i) as [[|]|]; [by apply emits_ret| |by apply emits_ret].
  eapply emits_bind; [apply emits_ask|]. intros u x ->. by apply emits_ret.
Qed.

Lemma notify_stage_silent i : emits (notify_stage env i) (λ t _, silent t).
Proof.
  unfold notify_stage. case_match; [|by apply emits_ret]. eapply emits_bind; [apply emits_ask|]. intros t n ->.
  destruct n as [[[]|]|]; try by apply emits_ret. eapply emits_bind; [apply emits_ask|]. intros t x ->.
  eapply emits_mono; [apply persist_written|]. by intros u r [].
Qed.

(** What follows a successful mark. *)
Lemma after_mark tenant id fence hash rules i :
  emits (let! incident := record_stage env i [] in
         let! failures := event_stage env tenant id fence hash rules in
         '(incident, failures) ← evidence_stage env tenant id incident failures;
         let! finished := report_stage env incident failures in
         let! incident := record_stage env finished.1 finished.2 in
         let! incident := (if all_stages incident && bool_decide (incident.(completed_at) = None)
                           then record_stage env incident [] else done_ incident) in
         notify_stage env incident) (λ t _, in_stages 4 5 t).
Proof.
  assert (Hl : ∀ t u, silent t → in_stages 4 5 u → in_stages 4 5 (t ++ u)).
  { intros t u Ht Hu. by apply (in_stages_app 4 4 5); [lia|apply in_stages_none|]. }
  assert (Hr : ∀ t u, in_stages 4 5 t → silent u → in_stages 4 5 (t ++ u)).
  { intros t u Ht Hu. apply (in_stages_app 4 5 5); [lia|done|by apply in_stages_none]. }
  eapply emits_then; [apply record_written|by intros t e [Ht _]; apply in_stages_none|]. intros t0 i1 [E0 _].
  eapply emits_then; [apply event_stage_order|by intros t e Ht; apply Hl|]. intros t1 fs E1.
  eapply emits_bind; [apply evidence_stage_silent|]. intros t2 [i2 fs2] E2.
  eapply emits_then; [apply report_stage_silent|by intros t e ->; rewrite app_nil_r; apply Hl, Hr|]. intros t3 [i3 fs3] ->.
  eapply emits_then; [apply record_written|by intros t e [Ht _]; cbn; apply Hl, Hr, silent_app|]. intros t4 i4 [E4 _].
  apply (emits_then _ _ written); [|by intros t e [Ht _]; apply Hl, Hr; repeat apply silent_app|intros t5 i5 [E5 _]].
  { destruct (all_stages i4 && _); [apply record_written|apply written_done]. }
  eapply emits_mono; [apply notify_stage_silent|]. intros t6 r E6. cbn. apply Hl; [done|]. apply Hr; [done|]. by repeat apply silent_app.
Qed.

End Order.

(** Steps that show nothing. *)
Ltac quiet_step :=
  first [eapply emits_then; [first [apply emits_fetch | apply emits_ask | by apply (emits_ret _ (λ t _, t = []))]|intros ? ? ->|intros ? ? ->]
        |eapply emits_bind; [first [apply existing_silent | apply emits_ask]|intros ? ? ->]].

(** C21: whatever the worker, the store, the clock and other requests do, one pass over a
    quarantine issues each of its stages at most once and in order: the cut, the capture, the
    durable mark, the event.  A pass that succeeds has marked the sandbox, and once its first
    stage has begun only a refused write of the incident keeps it from trying. *)
Theorem quarantine_stages_in_order `{Host, HashOrder, PolicyDigest} env tenant id :
  emits (advance_quarantine env tenant id) (λ t r,
    in_stages 1 5 t ∧ (is_ok r = true → Marked true ∈ t)
    ∧ (t = [] ∨ Recorded false ∈ t ∨ ∃ ok, Marked ok ∈ t)).
Proof.
  assert (Hbad : ∀ t u, in_stages 1 3 t → silent u ∧ Recorded false ∈ u →
    in_stages 1 5 (t ++ u) ∧ (false = true → Marked true ∈ t ++ u)
    ∧ (t ++ u = [] ∨ Recorded false ∈ t ++ u ∨ ∃ ok, Marked ok ∈ t ++ u)).
  { intros t u Ht [Hs Hu]. split_and!; [by apply (in_stages_app 1 3 5); [lia| |apply in_stages_none]|done|].
    right. left. apply elem_of_app. by right. }
  unfold advance_quarantine.
  do 4 (quiet_step; [by split_and!; [apply in_stages_none| |left]|]). do 2 quiet_step.
  quiet_step; [by split_and!; [apply in_stages_none| |left]|].
  eapply emits_bind; [apply cut_stage_order|]. intros t1 [i1 fs1] E1. cbn [app].
  assert (H1' : in_stages 1 3 t1) by (rewrite <-(app_nil_r t1); by apply (in_stages_app 1 2 3); [lia| |apply in_stages_none]).
  eapply emits_then; [apply record_written|intros u e [Hs Hu]; apply Hbad; auto|]. intros t2 i2 [E2 _].
  eapply emits_bind; [apply capture_stage_order|]. intros t3 [i3 fs3] E3.
  assert (H13 : in_stages 1 3 (t1 ++ t2 ++ t3)).
  { apply (in_stages_app 1 2 3); [lia|done|]. by apply (in_stages_app 2 2 3); [lia|apply in_stages_none|]. }
  eapply emits_then; [apply record_written|intros u e [Hs Hu]; rewrite !app_assoc, <-(app_assoc t1); apply Hbad; auto|].
  intros t4 i4 [E4 _]. eapply emits_bind; [apply emits_access|]. intros t5 marked ->.
  assert (H14 : in_stages 1 3 (t1 ++ t2 ++ t3 ++ t4)).
  { rewrite !app_assoc, <-(app_assoc t1). by apply (in_stages_app 1 3 3); [lia| |apply in_stages_none]. }
  assert (Hm : ∀ ok u, in_stages 4 5 u → in_stages 1 5 (t1 ++ t2 ++ t3 ++ t4 ++ [Marked ok] ++ u)
    ∧ Marked ok ∈ t1 ++ t2 ++ t3 ++ t4 ++ [Marked ok] ++ u).
  { intros ok u Hu. split; [|set_solver]. replace (t1 ++ t2 ++ t3 ++ t4 ++ [Marked ok] ++ u)
      with ((t1 ++ t2 ++ t3 ++ t4) ++ [Marked ok] ++ u) by (by rewrite <-!app_assoc).
    apply (in_stages_app 1 3 5); [lia|done|]. apply (in_stages_app 3 4 5); [lia| |done].
    by apply (in_stages_one _ _ _ 3); [|lia]. }
  destruct marked as [s|e].
  - eapply emits_mono; [apply after_mark|]. intros u r Hu. destruct (Hm true u Hu) as [Ho Hin].
    split_and!; [exact Ho|by intros _|]. right. right. by exists true.
  - eapply emits_then; [apply record_written|intros u e' [Hs _]|intros u i' [Hs _]; apply emits_ret; rewrite app_nil_r];
      destruct (Hm false u) as [Ho Hin]; try (by apply in_stages_none); (split_and!; [exact Ho|done|]; right; right; by exists false).
Qed.

(** ** Invariants of the incident on record *)
(** [m] keeps [I] of the world and returns something with [R]. *)
Definition keeps {A} (I : World → Prop) (m : M A) (R : A → Prop) : Prop :=
  ∀ w, I w → I (m w).1 ∧ R (m w).2.

Definition on_ok {A} (R : A → Prop) (r : result ApiFailure.t A) : Prop := match r with Ok a => R a | Err _ => True end.

Lemma on_ok_true {A} (r : result ApiFailure.t A) : on_ok (λ _, True) r.
Proof. by destruct r. Qed.

Lemma kept_ret {A} I (a : A) (R : A → Prop) : R a → keeps I (mret a) R.
Proof. by intros Ha w Hw. Qed.

Lemma kept_bind {A B} I (m : M A) (k : A → M B) (R : A → Prop) (R' : B → Prop) :
  keeps I m R → (∀ a, R a → keeps I (k a) R') → keeps I (a ← m; k a) R'.
Proof.
  intros Hm Hk w Hw. destruct (Hm w Hw) as [Hi Hr]. unfold mbind, M_bind. destruct (m w) as [w' a]. by apply Hk.
Qed.

Lemma keeps_then {A B} I (m : M (result ApiFailure.t A)) (k : A → M (result ApiFailure.t B)) (R : A → Prop) (R' : B → Prop) :
  keeps I m (on_ok R) → (∀ a, R a → keeps I (k a) (on_ok R')) → keeps I (andThen m k) (on_ok R').
Proof. intros Hm Hk. apply (kept_bind _ _ _ (on_ok R)); [done|]. intros [a|e] Ha; [by apply Hk|by apply kept_ret]. Qed.

Lemma keeps_any {A} I (m : M A) (R : A → Prop) : keeps I m R → keeps I m (λ _, True).
Proof. intros Hm w Hw. by destruct (Hm w Hw). Qed.

Lemma frame_incidents `{Host, HashOrder} o d :
  (∀ now i, o ≠ PutIncident now i) → (apply o d).(guard_incidents) = d.(guard_incidents).
Proof.
  destruct o; intros Hp; try (exfalso; by eapply Hp); cbn [apply];
    first [done | by apply apply_ledger_frame | by apply put_guard_proposal_frame | frame_op | idtac].
  - unfold decide_guard_tool_approval. by repeat case_match.
  - unfold consume_guard_tool_approval. by repeat case_match.
Qed.

Lemma put_guard_incident_effect `{Host, HashOrder} now i d :
  (∃ e, put_guard_incident now i d = (d, Err e))
  ∨ ∃ m, put_guard_incident now i d = (set_guard_incidents (<[i.(in_identity).(gi_sandbox_id) := m]> d.(guard_incidents)) d, Ok m)
    ∧ merge_incident (d.(guard_incidents) !! i.(in_identity).(gi_sandbox_id)) i = Ok m.
Proof.
  unfold put_guard_incident. destruct (owned d _ _); [|left; eexists; reflexivity].
  destruct (memory_lease now _ _ _ d); [|left; eexists; reflexivity]. destruct (ok_or _ _); [|left; eexists; reflexivity].
  cbn zeta. destruct (negb _); [left; eexists; reflexivity|].
  destruct (merge_incident _ i) as [m|] eqn:Hm; [|left; eexists; reflexivity].
  right. exists m. done.
Qed.

Lemma keeps_weaken {A} I (m : M A) (R R' : A → Prop) : keeps I m R → (∀ a, R a → R' a) → keeps I m R'.
Proof. intros Hm Hr w Hw. destruct (Hm w Hw). split; [done|by apply Hr]. Qed.

(** A property of the store that other requests keep, and acts that are all [good]. *)
Section Worlds.
Context `{Host, HashOrder, PolicyDigest}.
Variables (env : Surroundings) (J : MemoryData → Prop) (before : list Act) (good : Act → Prop).
Hypothesis J_others : ∀ n d, J d → J (run (env.(others_at) n) d).
Hypothesis good_observe : ∀ h after, good (Sent (CObserve h after)).

Definition holds (w : World) : Prop := J w.(data) ∧ ∃ t, w.(acts) = before ++ t ∧ Forall good t.

Lemma good_more t a : (∃ u, t = before ++ u ∧ Forall good u) → Forall good a → ∃ u, t ++ a = before ++ u ∧ Forall good u.
Proof. intros (u & -> & Hu) Ha. exists (u ++ a). rewrite app_assoc. split; [done|by apply Forall_app]. Qed.

Lemma holds_access {A} note (f : Instant → Instant → MemoryData → Op A) (R : A → Prop) :
  (∀ t t' d, J d → J (f t t' d).1 ∧ Forall good (note (is_ok (f t t' d).2)) ∧ ∀ a, (f t t' d).2 = Ok a → R a) →
  keeps holds (access env note f) (on_ok R).
Proof.
  intros Hf w [Hd Ha]. apply (J_others w.(tick)) in Hd. unfold access, found.
  destruct (Hf (env.(now_at) w.(tick)) (env.(now_at) (S w.(tick))) _ Hd) as (Hd' & Hn & Hr).
  destruct (f _ _ _) as [d r]. split; [split; [exact Hd'|by apply good_more]|]. destruct r; cbn; [by apply Hr|done].
Qed.

Lemma holds_fetch {A} (f : MemoryData → result StoreError.t A) (R : A → Prop) :
  (∀ d a, J d → f d = Ok a → R a) → keeps holds (fetch env f) (on_ok R).
Proof. intros Hf. apply holds_access. intros t t' d Hd. split_and!; [exact Hd|done|]. intros a. by apply Hf. Qed.

Lemma holds_ask {A} (f : nat → A) (R : A → Prop) : (∀ n, R (f n)) → keeps holds (ask f) R.
Proof. intros Hf w Hw. split; [exact Hw|apply Hf]. Qed.

Lemma holds_control fence c : good (Sent c) → keeps holds (guard_control env fence c) (λ r, ∃ n, r = env.(worker_at) n fence c).
Proof.
  intros Hc w [Hd Ha]. split; [|by eexists]. split; [exact Hd|]. apply good_more; [exact Ha|]. by apply Forall_singleton.
Qed.

(** An observation is what the worker answered, under the policy of the budget. *)
Definition observed_by (after : Z) (o : GuardObservation) : Prop :=
  ∃ n r, env.(worker_at) n o.(o_fence) (CObserve o.(o_identity).(gi_policy_hash) after) = Ok (RObservation r)
    ∧ o.(o_events) = r.(ro_events) ∧ o.(network_cut) = r.(ro_network_cut).

Lemma holds_observe tenant sandbox after : keeps holds (observe env tenant sandbox after) (on_ok (observed_by after)).
Proof.
  unfold observe. apply (keeps_then _ _ _ (λ _, True)); [by apply holds_fetch|]. intros s _.
  apply (keeps_then _ _ _ (λ _, True)); [apply kept_ret, on_ok_true|]. intros h _.
  apply (keeps_then _ _ _ (λ _, True)); [apply holds_ask; intros n; apply on_ok_true|]. intros f _.
  apply (keeps_then _ _ _ (λ _, True)); [apply holds_ask; intros n; apply on_ok_true|]. intros u _.
  eapply kept_bind; [apply holds_control, good_observe|]. intros [[]|] [n Hn]; try by apply kept_ret.
  case_match; [by apply kept_ret|]. apply (keeps_then _ _ _ (λ _, True)); [by apply holds_fetch|]. intros b _.
  case_bool_decide as Hb; apply kept_ret; [|done]. exists n, o. cbn. by rewrite Hb.
Qed.

End Worlds.

Section Invariant.
Context `{Host, HashOrder, PolicyDigest}.
Variables (env : Surroundings) (id : Uuid) (S T : GuardIncident → Prop) (before : list Act) (good : Act → Prop).

(** A merge of anything with [T] keeps [S]. *)
Hypothesis stable : ∀ e i m, S e → T i → merge_incident (Some e) i = Ok m → S m.
(** What other requests write to this incident has [T]. *)
Hypothesis others_T : ∀ n now i, PutIncident now i ∈ env.(others_at) n → i.(in_identity).(gi_sandbox_id) = id → T i.

(** Only the cut and the capture may fail to be [good]. *)
Hypothesis free : ∀ a, (∀ h, a ≠ Sent (CCut h)) → (∀ s, a ≠ Sent (CCapturePaused s)) → good a.

Definition standing (d : MemoryData) : Prop :=
  ∃ i, d.(guard_incidents) !! id = Some i ∧ i.(in_identity).(gi_sandbox_id) = id ∧ S i.
Definition stands : World → Prop := holds standing before good.

(** An incident of this sandbox with [S]. *)
Definition ours (i : GuardIncident) : Prop := i.(in_identity).(gi_sandbox_id) = id ∧ S i.

Lemma merged_identity existing i m : merge_incident existing i = Ok m → m.(in_identity) = i.(in_identity).
Proof.
  intros (_ & Hm & _)%merge_incident_ok. destruct existing as [e|]; [|by subst].
  apply merge_existing_ok in Hm as [Hc ->]. rewrite <-(compat_identity _ _ Hc). by destruct (completed_at e).
Qed.

Lemma put_standing now i d : standing d → (i.(in_identity).(gi_sandbox_id) = id → T i) →
  standing (put_guard_incident now i d).1
  ∧ ∀ m, (put_guard_incident now i d).2 = Ok m →
      m.(in_identity) = i.(in_identity) ∧ (i.(in_identity).(gi_sandbox_id) = id → S m).
Proof.
  intros (e & He & Hid & Hs) Ht. destruct (put_guard_incident_effect now i d) as [[x ->]|(m & -> & Hm)]; [split; [by exists e|done]|].
  cbn [fst snd]. unfold standing. cbn [guard_incidents set_guard_incidents]. pose proof (merged_identity _ _ _ Hm) as Hi.
  destruct (decide (i.(in_identity).(gi_sandbox_id) = id)) as [Heq|Hne].
  - rewrite Heq in Hm |- *. rewrite He in Hm. assert (Hsm : S m) by (eapply stable; eauto).
    split; [exists m; rewrite lookup_insert_eq; by rewrite Hi|by intros m' [= <-]].
  - split; [exists e; by rewrite lookup_insert_ne|]. by intros m' [= <-].
Qed.

Lemma run_standing n d : standing d → standing (run (env.(others_at) n) d).
Proof.
  pose proof (others_T n) as Ho. revert d. induction (env.(others_at) n) as [|o ops IH]; intros d Hd; [done|].
  cbn [run foldl]. apply IH; [intros now i Hin; apply (Ho now i), list_elem_of_further, Hin|].
  assert (Hc : (∃ now i, o = PutIncident now i) ∨ ∀ now i, o ≠ PutIncident now i) by (destruct o; eauto; by right).
  destruct Hc as [(now & i & ->)|Hno].
  - apply put_standing; [done|]. intros Hi. by apply (Ho now i); [apply list_elem_of_here|].
  - destruct Hd as (i & Hi & Hr). exists i. by rewrite frame_incidents.
Qed.

Lemma keeps_fetch {A} (f : MemoryData → result StoreError.t A) (R : A → Prop) :
  (∀ d a, standing d → f d = Ok a → R a) → keeps stands (fetch env f) (on_ok R).
Proof. apply holds_fetch, run_standing. Qed.

Lemma keeps_ask {A} (f : nat → A) (R : A → Prop) : (∀ n, R (f n)) → keeps stands (ask f) R.
Proof. apply holds_ask. Qed.

Lemma keeps_control fence c : good (Sent c) → keeps stands (guard_control env fence c) (λ _, True).
Proof. intros Hc. eapply keeps_any, holds_control, Hc. Qed.

Lemma keeps_put_any i : (i.(in_identity).(gi_sandbox_id) = id → T i) →
  keeps stands (put_incident env i) (on_ok (λ m, m.(in_identity) = i.(in_identity) ∧ (i.(in_identity).(gi_sandbox_id) = id → S m))).
Proof.
  intros Ht. apply (holds_access env standing before good run_standing). intros t t' d Hd.
  destruct (put_standing t i d Hd Ht). split_and!; [done|by apply Forall_singleton, free|done].
Qed.

Lemma keeps_put i : i.(in_identity).(gi_sandbox_id) = id → T i → keeps stands (put_incident env i) (on_ok ours).
Proof.
  intros Hi Ht. eapply keeps_weaken; [by apply keeps_put_any|]. intros [m|] Hm; [|done]. destruct Hm as [Hm Hs].
  split; [by rewrite Hm|by apply Hs].
Qed.

Lemma keeps_mark tenant sandbox fence : keeps stands (mark env tenant sandbox fence) (λ _, True).
Proof.
  eapply keeps_any, (holds_access env standing before good run_standing _ _ (λ _, True)).
  intros t t' d (i & Hi & Hr). split_and!; [|by apply Forall_singleton, free|done]. exists i. split; [|done]. rewrite <-Hi. f_equal.
  by apply (frame_incidents (MarkQuarantined t t' tenant sandbox fence)).
Qed.

Lemma keeps_existing tenant : keeps stands (existing_incident env tenant id) (from_option ours True).
Proof.
  apply (kept_bind _ _ _ (on_ok ours)).
  - apply keeps_fetch. intros d i (e & He & Hid & Hs). unfold get_guard_incident. rewrite He.
    destruct (owned d tenant id); [|done]. cbn. by intros [= <-].
  - intros [i|] Hi; by apply kept_ret.
Qed.

Lemma keeps_observe tenant sandbox after : keeps stands (observe env tenant sandbox after) (on_ok (λ _, True)).
Proof.
  eapply keeps_weaken; [apply (holds_observe env standing before good run_standing); intros; by apply free|]. intros; apply on_ok_true.
Qed.

(** What the stages write has [T], and what they may skip they skip. *)
Hypothesis S_T : ∀ i, S i → T i.
Hypothesis T_errors : ∀ i es, T i → T (set_errors es i).
Hypothesis T_completed : ∀ i t, S i → all_stages i = true → T (set_completed t i).
Hypothesis T_notified : ∀ i t, S i → is_Some i.(completed_at) → T (set_notified t i).
Hypothesis T_report : ∀ i text, S i → generate_incident_report i = Some (Ok text) → T (set_report text i).
Hypothesis S_extend : ∀ i es q h, S i → S (extend es q h i).
Hypothesis cut_T : ∀ i n, S i → i.(network_cut_at) = None → T (set_cut (env.(now_at) n) i) ∧ ∀ h, good (Sent (CCut h)).
Hypothesis capture_T : ∀ i n s, S i → i.(snapshot_id) = None →
  T (set_capture s (env.(now_at) n) i) ∧ ∀ x, good (Sent (CCapturePaused x)).

Hypothesis T_opened : ∀ i t f rules seed, T (opened i t f rules seed).

(** An incident of this sandbox that may be written. *)
Definition writable (i : GuardIncident) : Prop := i.(in_identity).(gi_sandbox_id) = id ∧ T i.
Lemma ours_writable i : ours i → writable i.
Proof. intros [Hi Hs]. split; [exact Hi|by apply S_T]. Qed.

Lemma keeps_persist i : writable i → keeps stands (persist env i) (on_ok ours).
Proof.
  intros [Hi Ht]. unfold persist. apply (keeps_then _ _ _ ours); [by apply keeps_put|]. intros m [Hm Hs].
  destruct (bool_decide _); [by apply kept_ret|]. destruct (all_stages m) eqn:Ha; cbn [negb]; [|by apply kept_ret].
  apply (kept_bind _ _ _ (λ _, True)); [by apply keeps_ask|]. intros t _. apply keeps_put; [exact Hm|by apply T_completed].
Qed.

Lemma keeps_record i failures : writable i → keeps stands (record_stage env i failures) (on_ok ours).
Proof. intros [Hi Ht]. apply keeps_persist. split; [exact Hi|by apply T_errors]. Qed.

Lemma keeps_cut_stage fence hash i : ours i → keeps stands (cut_stage env fence hash i) (λ r, writable r.1).
Proof.
  intros Ho. pose proof (ours_writable i Ho) as Hw. destruct Ho as [Hi Hs]. unfold cut_stage.
  destruct (network_cut_at i) eqn:Hc; [by apply kept_ret|].
  apply (kept_bind _ _ _ (λ _, True)); [by apply keeps_control; apply (cut_T i 0 Hs Hc)|].
  intros [r|e] _; [|apply (kept_bind _ _ _ (λ _, True)); [by apply keeps_ask|]; intros x _; by apply kept_ret].
  apply (kept_bind _ _ _ (λ t, T (set_cut t i))); [apply keeps_ask; intros n; by apply cut_T|]. intros t Ht. by apply kept_ret.
Qed.

Lemma keeps_capture_stage fence i : ours i → keeps stands (capture_stage env fence i) (λ r, writable r.1).
Proof.
  intros Ho. pose proof (ours_writable i Ho) as Hw. destruct Ho as [Hi Hs]. unfold capture_stage.
  destruct (snapshot_id i) eqn:Hc; [by apply kept_ret|].
  apply (kept_bind _ _ _ (λ _, True)); [by apply keeps_control; apply (capture_T i 0 "" Hs Hc)|].
  intros [[| | |x size| |]|e] _; try (by apply kept_ret); [|apply (kept_bind _ _ _ (λ _, True)); [by apply keeps_ask|]; intros x _; by apply kept_ret].
  apply (kept_bind _ _ _ (λ t, T (set_capture x t i))); [apply keeps_ask; intros n; by apply capture_T|].
  intros t Ht. by apply kept_ret.
Qed.

Lemma keeps_event_stage tenant fence hash rules : keeps stands (event_stage env tenant id fence hash rules) (on_ok (λ _, True)).
Proof.
  unfold event_stage. apply (keeps_then _ _ _ (λ _, True)); [apply keeps_observe|]. intros seen _.
  case_match; [by apply kept_ret|]. apply (kept_bind _ _ _ (λ _, True)); [by apply keeps_control, free|].
  intros [r|e] _; [by apply kept_ret|]. apply (kept_bind _ _ _ (λ _, True)); [by apply keeps_ask|]. intros x _. by apply kept_ret.
Qed.

Lemma keeps_evidence_stage tenant i failures : ours i → keeps stands (evidence_stage env tenant id i failures) (λ r, ours r.1).
Proof.
  intros Ho. unfold evidence_stage. apply (kept_bind _ _ _ (on_ok (λ _, True))); [apply keeps_observe|].
  intros [fresh|e] _; [|apply (kept_bind _ _ _ (λ _, True)); [by apply keeps_ask|]; intros x _; by apply kept_ret].
  destruct (match o_events fresh with [] => _ | _ => _ end); apply kept_ret; cbn [fst]; [|exact Ho].
  destruct Ho as [Hi Hs]. split; [exact Hi|by apply S_extend].
Qed.

Lemma keeps_report_stage i failures : ours i → keeps stands (report_stage env i failures) (on_ok (λ r, writable r.1)).
Proof.
  intros Ho. pose proof (ours_writable i Ho) as Hw. destruct Ho as [Hi Hs]. unfold report_stage.
  destruct (generate_incident_report i) as [[text|e]|] eqn:Hg; [apply kept_ret; split; [exact Hi|by apply T_report]| |by apply kept_ret].
  apply (kept_bind _ _ _ (λ _, True)); [by apply keeps_ask|]. intros x _. by apply kept_ret.
Qed.

Lemma keeps_notify_stage i : ours i → keeps stands (notify_stage env i) (on_ok ours).
Proof.
  intros Ho. unfold notify_stage. destruct (bool_decide (is_Some _)) eqn:Hc; [|by apply kept_ret]. apply bool_decide_eq_true in Hc.
  case_match; [|by apply kept_ret]. apply (kept_bind _ _ _ (λ _, True)); [by apply keeps_ask|]. intros [[[]|]|] _; try by apply kept_ret.
  apply (kept_bind _ _ _ (λ _, True)); [by apply keeps_ask|]. intros t _. apply keeps_persist. destruct Ho as [Hi Hs].
  split; [exact Hi|by apply T_notified].
Qed.

Lemma keeps_advance tenant : keeps stands (advance_quarantine env tenant id) (on_ok ours).
Proof.
  unfold advance_quarantine. apply (keeps_then _ _ _ (λ _, True)); [by apply keeps_fetch|]. intros s _.
  apply (keeps_then _ _ _ (λ _, True)); [apply kept_ret, on_ok_true|]. intros h _.
  apply (keeps_then _ _ _ (λ _, True)); [apply keeps_ask; intros n; apply on_ok_true|]. intros f _.
  apply (keeps_then _ _ _ (λ _, True)); [apply keeps_ask; intros n; apply on_ok_true|]. intros u _.
  apply (kept_bind _ _ _ (from_option ours True)); [apply keeps_existing|]. intros named _. cbn zeta.
  apply (kept_bind _ _ _ (from_option ours True)); [apply keeps_existing|]. intros existing He.
  apply (keeps_then _ _ _ ours); [by apply kept_ret; destruct existing|]. intros i0 H0'.
  apply (kept_bind _ _ _ (λ r, writable r.1)); [by apply keeps_cut_stage|]. intros [i1 fs1] Hi1.
  apply (keeps_then _ _ _ ours); [by apply keeps_record|]. intros i2 Hi2.
  apply (kept_bind _ _ _ (λ r, writable r.1)); [by apply keeps_capture_stage|]. intros [i3 fs3] Hi3.
  apply (keeps_then _ _ _ ours); [by apply keeps_record|]. intros i4 Hi4.
  apply (kept_bind _ _ _ (λ _, True)); [apply keeps_mark|]. intros [sandbox|e] _.
  2: { apply (keeps_then _ _ _ ours); [by apply keeps_record, ours_writable|]. intros x _. by apply kept_ret. }
  apply (keeps_then _ _ _ ours); [by apply keeps_record, ours_writable|]. intros i5 Hi5.
  apply (keeps_then _ _ _ (λ _, True)); [apply keeps_event_stage|]. intros fs _.
  apply (kept_bind _ _ _ (λ r, ours r.1)); [by apply keeps_evidence_stage|]. intros [i6 fs6] Hi6.
  apply (keeps_then _ _ _ (λ r, writable r.1)); [by apply keeps_report_stage|]. intros [i7 fs7] Hi7.
  apply (keeps_then _ _ _ ours); [by apply keeps_record|]. intros i8 Hi8.
  apply (keeps_then _ _ _ ours); [case_match; [by apply keeps_record, ours_writable|by apply kept_ret]|]. intros i9 Hi9.
  by apply keeps_notify_stage.
Qed.

Lemma keeps_open i t f rules seed : keeps stands (persist env (opened i t f rules seed)) (on_ok (λ _, True)).
Proof.
  unfold persist. eapply keeps_then; [by apply keeps_put_any; intros _; apply T_opened|]. intros m [Hm Hs]. cbn [completed_at opened].
  destruct (bool_decide _); [by apply kept_ret|]. destruct (all_stages m) eqn:Ha; cbn [negb]; [|by apply kept_ret].
  apply (kept_bind _ _ _ (λ _, True)); [by apply keeps_ask|]. intros x _. eapply keeps_weaken; [|intros; apply on_ok_true].
  apply keeps_put_any. intros Hid. apply T_completed; [|exact Ha]. apply Hs. rewrite <-Hm. exact Hid.
Qed.

(** A quarantine of a sandbox that has an incident keeps what holds of that incident. *)
Lemma keeps_begin tenant request : keeps stands (begin_quarantine env tenant id request) (on_ok (λ _, True)).
Proof.
  unfold begin_quarantine. apply (keeps_then _ _ _ (λ _, True)); [by apply keeps_fetch|]. intros s _.
  apply (keeps_then _ _ _ (λ _, True)); [apply kept_ret, on_ok_true|]. intros h _. case_match; [by apply kept_ret|].
  apply (kept_bind _ _ _ (from_option ours True)); [apply keeps_existing|]. intros existing He.
  destruct (closed existing) as [i|] eqn:Hc.
  { by apply kept_ret. }
  apply (keeps_then _ _ _ (λ _, True)); [apply keeps_ask; intros n; apply on_ok_true|]. intros f _. case_match; [by apply kept_ret|].
  apply (keeps_then _ _ _ (λ _, True)); [apply keeps_observe|]. intros seed _. case_match; [by apply kept_ret|].
  apply (kept_bind _ _ _ (from_option ours True)); [apply keeps_existing|]. intros again Ha.
  destruct again as [i|]; [eapply keeps_weaken; [by apply keeps_persist, ours_writable|]; intros; apply on_ok_true|].
  apply (kept_bind _ _ _ (λ _, True)); [by apply keeps_ask|]. intros i _.
  apply (kept_bind _ _ _ (λ _, True)); [by apply keeps_ask|]. intros t _. apply keeps_open.
Qed.

Lemma keeps_quarantine tenant request : keeps stands (quarantine env tenant id request) (on_ok (λ _, True)).
Proof.
  unfold quarantine. apply (keeps_then _ _ _ (λ _, True)); [apply keeps_begin|]. intros i _.
  apply (kept_bind _ _ _ (on_ok ours)); [apply keeps_advance|]. intros r _. by apply kept_ret.
Qed.

End Invariant.

(** ** A second quarantine *)
(** Its network was cut and its machine captured, at whatever time. *)
Definition captured (i : GuardIncident) : Prop := is_Some i.(network_cut_at) ∧ is_Some i.(snapshot_id).

Lemma captured_stable `{Host} e i m : captured e → merge_incident (Some e) i = Ok m → captured m.
Proof.
  intros [[t Ht] [x Hx]] (_ & Hm & _)%merge_incident_ok. apply merge_existing_ok in Hm as [_ ->].
  destruct (completed_at e); split; cbn; rewrite ?Ht, ?Hx; by eexists.
Qed.

Definition cuts_or_captures (a : Act) : Prop := (∃ h, a = Sent (CCut h)) ∨ (∃ s, a = Sent (CCapturePaused s)).

(** once an incident of a sandbox has recorded a cut and a capture, no later quarantine
    of that sandbox cuts its network or pauses it, whatever happened in between: an incident
    outlives the release that reopens the sandbox, and both stages are skipped as done. *)
Theorem quarantine_after_release_cuts_nothing `{Host, HashOrder, PolicyDigest} env tenant id request w i :
  w.(data).(guard_incidents) !! id = Some i → i.(in_identity).(gi_sandbox_id) = id → captured i →
  ∃ t, (quarantine env tenant id request w).1.(acts) = w.(acts) ++ t ∧ Forall (λ a, ¬ cuts_or_captures a) t.
Proof.
  intros Hi Hid Hc.
  assert (Hk : keeps (stands id captured w.(acts) (λ a, ¬ cuts_or_captures a)) (quarantine env tenant id request) (on_ok (λ _, True))).
  { apply (keeps_quarantine env id captured (λ _, True)); try done.
    - intros e j m He _ Hm. by eapply captured_stable.
    - intros a Ha Hb [[h ->]|[s ->]]; [by apply (Ha h)|by apply (Hb s)].
    - intros j n [[t Ht] _] Hn. by rewrite Hn in Ht.
    - intros j n s [_ [t Ht]] Hn. by rewrite Hn in Ht. }
  destruct (Hk w) as [[_ Ha] _]; [|exact Ha]. split; [by exists i|]. exists []. rewrite app_nil_r. by split.
Qed.

(** ** Incidents that cannot complete *)
Definition unreported (i : GuardIncident) : Prop := i.(completed_at) = None ∧ i.(report) = ""%string.
(** Paused at [p], and not cut by then. *)
Definition late (p : Instant) (i : GuardIncident) : Prop :=
  unreported i ∧ i.(paused_at) = Some p ∧ ∀ c, i.(network_cut_at) = Some c → p < c.
(** More evidence than one page. *)
Definition oversized (i : GuardIncident) : Prop := unreported i ∧ MAX_PAGE_EVENTS < count i.(in_events).

Lemma merged_unreported `{Host} e i m : unreported e → unreported i → merge_incident (Some e) i = Ok m →
  unreported m ∧ m = merge_open e i.
Proof.
  intros [Hc Hr] [Hc' Hr'] (_ & Hm & _)%merge_incident_ok. apply merge_existing_ok in Hm as [_ ->]. rewrite Hc.
  split; [|done]. unfold unreported. cbn. by rewrite Hr', Hc'.
Qed.

Lemma late_invalid `{Host} p i : late p i → is_ok (validate_incident i) = false.
Proof.
  intros (_ & Hp & Hc). destruct (validate_incident i) as [u|] eqn:Hv; [|done]. exfalso. unfold validate_incident in Hv.
  ok_inv Hv. match goal with E : _ || _ || _ = false |- _ => apply orb_false_iff in E as [E _]; apply orb_false_iff in E as [_ E] end.
  rewrite Hp in Hif0. cbn in Hif0. destruct (network_cut_at i) as [c|]; cbn in Hif0; [|done].
  apply Z.ltb_ge in Hif0. specialize (Hc c eq_refl). lia.
Qed.

Lemma oversized_invalid `{Host} i : oversized i → is_ok (validate_incident i) = false.
Proof.
  intros [_ Ho]. destruct (validate_incident i) as [u|] eqn:Hv; [|done]. exfalso. unfold validate_incident in Hv. ok_inv Hv.
  match goal with E : validate_event_page _ _ _ _ _ _ = Ok _ |- _ => unfold validate_event_page in E; ok_inv E end.
  repeat match goal with E : _ || _ = false |- _ => apply orb_false_iff in E as [? ?] end.
  repeat match goal with E : (MAX_PAGE_EVENTS <? _) = false |- _ => apply Z.ltb_ge in E end. lia.
Qed.

Lemma invalid_unreported `{Host} i text : is_ok (validate_incident i) = false → generate_incident_report i ≠ Some (Ok text).
Proof. unfold generate_incident_report. by destruct (validate_incident i). Qed.

Section Blocked.
Context `{Host, HashOrder, PolicyDigest}.
Variables (env : Surroundings) (tenant id : Uuid) (request : QuarantineRequest).
(** The other requests leave the incident of this sandbox alone. *)
Hypothesis alone : ∀ n now i, PutIncident now i ∈ env.(others_at) n → i.(in_identity).(gi_sandbox_id) ≠ id.

Lemma all_stages_unreported i : unreported i → all_stages i = false.
Proof. intros [_ Hr]. unfold all_stages. rewrite Hr. cbn. by rewrite andb_false_r. Qed.

Lemma late_stays p w : (∀ n, p < env.(now_at) n) →
  stands id (late p) w.(acts) (λ _, True) w →
  stands id (late p) w.(acts) (λ _, True) (quarantine env tenant id request w).1.
Proof.
  intros Hclock Hw.
  apply (keeps_quarantine env id (late p) (λ i, unreported i ∧ ∀ c, i.(network_cut_at) = Some c → p < c)); [..|exact Hw]; try done.
  - intros e i m (Hu & Hp & Hc) (Hu' & Hc') Hm. destruct (merged_unreported e i m Hu Hu' Hm) as [Hum ->].
    split_and!; [done|cbn; by rewrite Hp|]. cbn. intros c. unfold or_else. destruct (network_cut_at e) as [x|]; [apply Hc|apply Hc'].
  - intros n now i Hin Hi. by destruct (alone n now i Hin).
  - by intros i (Hu & _ & Hc).
  - intros i t (Hu & _) Ha. by rewrite all_stages_unreported in Ha.
  - intros i t (Hu & _) [x Hx]. destruct Hu as [Hu _]. by rewrite Hu in Hx.
  - intros i text Hl Hg. exfalso. by eapply (invalid_unreported i text), Hg; eapply late_invalid.
  - intros i n (Hu & Hp & Hc) Hn. split; [|done]. split; [done|]. cbn. intros c [= <-]. apply Hclock.
  - intros i n s (Hu & Hp & Hc) Hn. done.
Qed.

Lemma oversized_stays w :
  stands id oversized w.(acts) (λ _, True) w →
  stands id oversized w.(acts) (λ _, True) (quarantine env tenant id request w).1.
Proof.
  intros Hw. apply (keeps_quarantine env id oversized unreported); [..|exact Hw]; try done.
  - intros e i m [Hu Ho] Hu' Hm. pose proof Hm as Hm'. apply merge_incident_ok in Hm' as (_ & Hm' & _).
    apply merge_existing_ok in Hm' as [Hcomp Hmm]. fold (merged e i) in Hmm.
    destruct (merged_unreported e i m Hu Hu' Hm) as [Hum _]. split; [done|].
    pose proof (prefix_length _ _ (merged_events e i Hcomp)) as Hl. rewrite <-Hmm in Hl. unfold count in *. lia.
  - intros n now i Hin Hi. by destruct (alone n now i Hin).
  - by intros i [].
  - intros i t [Hu _] Ha. by rewrite all_stages_unreported in Ha.
  - intros i t [[Hu _] _] [x Hx]. by rewrite Hu in Hx.
  - intros i text Hl Hg. exfalso. by eapply (invalid_unreported i text), Hg; eapply oversized_invalid.
  - intros i es q h [Hu Ho]. split; [done|]. cbn. rewrite count_app. pose proof (count_nonneg es). lia.
  - by intros i n [Hu _] _.
  - by intros i n s [Hu _] _.
Qed.

End Blocked.

(** an incident whose machine was captured before its network was cut, or whose evidence
    has outgrown one page, is never reported and never completes, however often its quarantine
    is repeated: each repetition leaves it so. *)
Theorem blocked_incident_never_completes `{Host, HashOrder, PolicyDigest} env tenant id request w i p :
  (∀ n now j, PutIncident now j ∈ env.(others_at) n → j.(in_identity).(gi_sandbox_id) ≠ id) → (∀ n, p < env.(now_at) n) →
  w.(data).(guard_incidents) !! id = Some i → i.(in_identity).(gi_sandbox_id) = id → late p i ∨ oversized i →
  ∃ i', (quarantine env tenant id request w).1.(data).(guard_incidents) !! id = Some i'
    ∧ i'.(in_identity).(gi_sandbox_id) = id ∧ (late p i' ∨ oversized i').
Proof.
  intros Ho Hclock Hi Hid Hb. assert (Ha : ∃ t, w.(acts) = w.(acts) ++ t ∧ Forall (λ _, True) t).
  { exists []. by rewrite app_nil_r. }
  destruct Hb as [Hl|Hl].
  - destruct (late_stays env tenant id request Ho p w Hclock) as [(i' & Hi' & Hid' & Hs) _]; [by split; [exists i|]|].
    exists i'. auto.
  - destruct (oversized_stays env tenant id request Ho w) as [(i' & Hi' & Hid' & Hs) _]; [by split; [exists i|]|].
    exists i'. auto.
Qed.

(** ** Records of an earlier policy *)
Lemma foreign_evidence `{Host} i e :
  e ∈ i.(in_events) → Events.policy_hash e ≠ i.(in_identity).(gi_policy_hash) → validate_incident_evidence i ≠ Ok ().
Proof.
  intros Hin Hne Hv. unfold validate_incident_evidence in Hv. ok_inv Hv.
  match goal with E : evidence_chain _ _ _ = Ok ?a |- _ => clear -Hin Hne E; revert E end. generalize (event_previous_hash i) as previous.
  induction (in_events i) as [|x es IH]; [by apply elem_of_nil in Hin|]. intros previous Hc. cbn [evidence_chain] in Hc. ok_inv Hc.
  repeat match goal with E : _ || _ = false |- _ => apply orb_false_iff in E as [? ?] end. bools.
  apply elem_of_cons in Hin as [->|Hin]; [done|]. by eapply (IH Hin).
Qed.

Lemma put_foreign `{Host, HashOrder} now i d e :
  e ∈ i.(in_events) → Events.policy_hash e ≠ i.(in_identity).(gi_policy_hash) → ∃ x, put_guard_incident now i d = (d, Err x).
Proof.
  intros Hin Hne. destruct (put_guard_incident_effect now i d) as [Hp|(m & _ & Hm)]; [done|].
  apply merge_incident_ok in Hm as (Hv & _). by destruct (foreign_evidence i e Hin Hne).
Qed.

Section Foreign.
Context `{Host, HashOrder, PolicyDigest}.
Variables (env : Surroundings) (tenant id : Uuid) (request : QuarantineRequest) (before : list Act).
Hypothesis foreign : ∀ n f h after r, env.(worker_at) n f (CObserve h after) = Ok (RObservation r) →
  ∃ e, e ∈ r.(ro_events) ∧ Events.policy_hash e ≠ h.
Hypothesis untouched : ∀ n now i, PutIncident now i ∈ env.(others_at) n → i.(in_identity).(gi_sandbox_id) ≠ id.

Definition no_incident (d : MemoryData) : Prop := d.(guard_incidents) !! id = None.
(** Only reads, and writes that were refused. *)
Definition futile (a : Act) : Prop := (∃ h after, a = Sent (CObserve h after)) ∨ a = Recorded false.

Lemma no_incident_others n d : no_incident d → no_incident (run (env.(others_at) n) d).
Proof.
  pose proof (untouched n) as Ho. unfold no_incident. revert d. induction (env.(others_at) n) as [|o ops IH]; intros d Hd; [done|].
  cbn [run foldl]. apply IH; [intros now i Hin; apply (Ho now i), list_elem_of_further, Hin|].
  assert (Hc : (∃ now i, o = PutIncident now i) ∨ ∀ now i, o ≠ PutIncident now i) by (destruct o; eauto; by right).
  destruct Hc as [(now & i & ->)|Hno]; [|by rewrite frame_incidents].
  cbn [apply]. destruct (put_guard_incident_effect now i d) as [[x ->]|(m & -> & _)]; [done|]. cbn [fst guard_incidents set_guard_incidents].
  rewrite lookup_insert_ne; [done|]. apply (Ho now i), list_elem_of_here.
Qed.

Lemma no_incident_existing : keeps (holds no_incident before futile) (existing_incident env tenant id) (λ r, r = None).
Proof.
  apply (kept_bind _ _ _ (on_ok (λ _, False))); [|intros [i|e] Hi; [destruct Hi|by apply kept_ret]].
  apply holds_fetch; [apply no_incident_others|]. intros d i Hd. unfold get_guard_incident. rewrite Hd. by destruct (owned d tenant id).
Qed.

Lemma foreign_begin : keeps (holds no_incident before futile) (begin_quarantine env tenant id request) (λ r, is_ok r = false).
Proof.
  set (R := λ _ : GuardIncident, False). apply (keeps_weaken _ _ (on_ok R)); [|by intros [i|]]. unfold begin_quarantine.
  apply (keeps_then _ _ _ (λ _, True)); [by apply holds_fetch; [apply no_incident_others|]|]. intros s _.
  apply (keeps_then _ _ _ (λ _, True)); [apply kept_ret, on_ok_true|]. intros h _. case_match; [by apply kept_ret|].
  eapply kept_bind; [apply no_incident_existing|]. intros existing ->. cbn [closed mbind option_bind].
  apply (keeps_then _ _ _ (λ _, True)); [apply holds_ask; intros n; apply on_ok_true|]. intros f _. case_match; [by apply kept_ret|].
  apply (keeps_then _ _ _ (observed_by env 0)).
  { apply holds_observe; [apply no_incident_others|]. intros h' after. left. by eexists _, _. }
  intros seed (n & r & Hr & Hev & _). case_match; [by apply kept_ret|].
  eapply kept_bind; [apply no_incident_existing|]. intros again ->.
  apply (kept_bind _ _ _ (λ _, True)); [by apply holds_ask|]. intros i _.
  apply (kept_bind _ _ _ (λ _, True)); [by apply holds_ask|]. intros t _.
  destruct (foreign _ _ _ _ _ Hr) as (e & Hin & Hne). rewrite <-Hev in Hin.
  unfold persist. apply (keeps_then _ _ _ (λ _, False)); [|done].
  apply holds_access; [apply no_incident_others|]. intros t1 t2 d Hd.
  destruct (put_foreign t1 (opened i t f (qr_rules request) seed) d e Hin Hne) as [x ->].
  split_and!; [done|apply Forall_singleton; by right|done].
Qed.

End Foreign.

(** as long as the journal's page holds a record under an earlier policy, or cannot be
    read at all, a guest that has no incident yet cannot be contained: its quarantine fails
    before the cut is sent and leaves no incident, and the watchdog refuses every observation
    the control plane gives it. *)
Theorem earlier_policy_blocks_containment `{Host, HashOrder, PolicyDigest, Texts, Entropy} env tenant id request w :
  (∀ n f h after r, env.(worker_at) n f (CObserve h after) = Ok (RObservation r) →
     ∃ e, e ∈ r.(ro_events) ∧ Events.policy_hash e ≠ h) →
  (∀ n now i, PutIncident now i ∈ env.(others_at) n → i.(in_identity).(gi_sandbox_id) ≠ id) →
  w.(data).(guard_incidents) !! id = None →
  (is_ok (quarantine env tenant id request w).2 = false
   ∧ (quarantine env tenant id request w).1.(data).(guard_incidents) !! id = None
   ∧ ∃ t, (quarantine env tenant id request w).1.(acts) = w.(acts) ++ t ∧ Forall futile t)
  ∧ ∀ watchdog o t after, observed_by env after o → is_ok (Watchdog.observe watchdog o t).2 = false.
Proof.
  intros Hf Ho Hn. split.
  - destruct (foreign_begin env tenant id request w.(acts) Hf Ho w) as [[Hd Ha] Hr].
    { split; [exact Hn|]. exists []. by rewrite app_nil_r. }
    unfold quarantine, andThen, mbind, M_bind. destruct (begin_quarantine env tenant id request w) as [w' [i|e]]; [done|]. done.
  - intros wd o t after (n & r & Hr & Hev & _). destruct (Watchdog.observe wd o t) as [wd' [d|e]] eqn:Hobs; [|done]. exfalso.
    apply observe_ok in Hobs as [Ha _]. apply admissible_passed in Ha. destruct (page_ok _ _ _ _ _ _ (passed_page _ _ Ha)) as (_ & _ & _ & _ & _ & Hb).
    destruct (Hf _ _ _ _ _ Hr) as (e & Hin & Hne). rewrite <-Hev in Hin. rewrite Forall_forall in Hb.
    destruct (Hb e Hin) as (_ & _ & Hp & _). apply Hne. rewrite Hp. by rewrite (passed_identity _ _ Ha).
Qed.

(** ** Acknowledgements *)
Section Acknowledged.
Context `{Host, HashOrder, PolicyDigest}.
Variable env : Surroundings.

Lemma emits_observe tenant id after : emits (observe env tenant id after) (λ t r, silent t ∧ on_ok (observed_by env after) r).
Proof.
  intros w. destruct (observe_silent env tenant id after w) as (t & Ht & Hs). exists t. split_and!; [done|done|].
  assert (Hk : keeps (holds (λ _, True) [] (λ _, True)) (observe env tenant id after) (on_ok (observed_by env after))).
  { by apply holds_observe. }
  destruct (Hk w) as [_ Hr]; [|exact Hr]. split; [done|]. exists w.(acts). split; [done|]. by apply Forall_true.
Qed.

Lemma emits_any {A} (m : M A) Q : emits m Q → emits m (λ _ _, True).
Proof. intros Hm. by eapply emits_mono. Qed.

Lemma begin_emits tenant id request : emits (begin_quarantine env tenant id request) (λ _ _, True).
Proof.
  unfold begin_quarantine. do 2 (quiet_step; [done|]). case_match; [by apply emits_ret|]. quiet_step.
  destruct (closed a1); [by apply emits_ret|]. quiet_step; [done|]. case_match; [by apply emits_ret|].
  eapply emits_then; [apply observe_silent|done|]. intros t o _. case_match; [by apply emits_ret|].
  eapply emits_bind; [apply existing_silent|]. intros t' [i|] _; [eapply emits_any, persist_written|].
  quiet_step. quiet_step. eapply emits_any, persist_written.
Qed.

End Acknowledged.

(** a worker's request for quarantine is acknowledged only when the sandbox has been
    marked durably, and only on evidence the control plane has read itself: the network is cut
    and the journal holds the credential canary's record, under the policy in force, with the
    reference and the hash the request names. *)
Theorem acknowledged_quarantine_is_evidenced `{Host, HashOrder, PolicyDigest} env node identity request :
  emits (worker_guard_quarantine env node identity request) (λ t r, is_ok r = true →
    Marked true ∈ t ∧ ∃ rule reference hash o e,
      request.(qr_rules) = [rule] ∧ rule.(rt_rule) = RULE_CANARY_CREDENTIAL ∧ rule.(evidence_references) = [reference; hash]
      ∧ observed_by env 0 o ∧ o.(network_cut) = true ∧ e ∈ o.(o_events)
      ∧ canary_event reference hash identity.(gi_policy_hash) e = true).
Proof.
  unfold worker_guard_quarantine. quiet_step; [done|]. case_match; [by apply emits_ret|]. quiet_step; [done|].
  case_match; [by apply emits_ret|]. quiet_step; [done|]. case_match; [by apply emits_ret|].
  destruct request.(qr_rules) as [|rule [|]] eqn:Hrules; [by apply emits_ret| |by destruct rule as [? ? [|? [|? []]]]; apply emits_ret].
  destruct rule as [name first refs] eqn:Hrule. destruct refs as [|reference [|hash []]]; try by apply emits_ret.
  destruct (bool_decide (name = RULE_CANARY_CREDENTIAL)) eqn:Hname; cbn [negb]; [apply bool_decide_eq_true in Hname|by apply emits_ret].
  eapply emits_then; [apply emits_observe|done|]. intros t o [_ Ho]. destruct (network_cut o) eqn:Hcut; [|by apply emits_ret].
  destruct (existsb _ (o_events o)) eqn:Hex; [|by apply emits_ret]. cbn [negb orb].
  apply existsb_exists in Hex as (e & He & Hcan).
  eapply emits_then; [apply begin_emits|done|]. intros t1 i _.
  eapply emits_then; [apply emits_access|done|]. intros t2 s Ht2. cbn in Ht2. subst t2.
  eapply emits_bind; [apply quarantine_stages_in_order|]. intros t3 r3 _. apply emits_ret. intros _. split.
  - set_solver.
  - exists (Build_RuleTrigger name first [reference; hash]), reference, hash, o, e. split_and!; try done. by apply list_elem_of_In.
Qed.

(** a sandbox is released durably only for a principal that may release, and after its
    worker has answered that the network is open again; the request succeeds exactly when the
    store has recorded the release. *)
Theorem release_follows_the_worker `{Host, HashOrder, PolicyDigest} env principal id label note :
  emits (release_sandbox env principal id label note) (λ t r,
    (t = [] ∧ is_ok r = false)
    ∨ ∃ h f n, authorize principal GuardRelease = Ok ()
        ∧ ((t = [Sent (CRelease h)] ∧ is_ok r = false)
           ∨ ∃ ok, t = [Sent (CRelease h); Reopened ok] ∧ is_ok r = ok ∧ is_ok (env.(worker_at) n f (CRelease h)) = true)).
Proof.
  unfold release_sandbox. cbn zeta. destruct (authorize principal GuardRelease) as [[]|e] eqn:Ha; [|by apply emits_ret; left].
  eapply emits_then; [by apply (emits_ret _ (λ t _, t = []))|by intros t e ->; left|]. intros t u ->.
  quiet_step; [by left|]. do 3 (case_match; [by apply emits_ret; left|]). do 3 (quiet_step; [by left|]).
  eapply emits_bind; [apply emits_control|]. intros t reply [-> [n Hn]]. destruct reply as [x|e].
  - eapply emits_bind; [apply emits_access|]. intros t r ->. destruct r as [s|e]; apply emits_ret; right;
      eexists _, _, n; (split; [done|]); right; eexists; (split_and!; [done|done|by rewrite <-Hn]).
  - apply emits_ret. right. eexists _, a1, n. split; [done|]. left. done.
Qed.

(** ** A quarantine whose stages all succeed *)
(** [m] takes every world with [P] to one with [Q]. *)
Definition total {A} (P : World → Prop) (m : M A) (Q : World → A → Prop) : Prop := ∀ w, P w → Q (m w).1 (m w).2.
Definition succeeds {A} (P : World → Prop) (m : M (result ApiFailure.t A)) (Q : World → A → Prop) : Prop :=
  total P m (λ w r, ∃ a, r = Ok a ∧ Q w a).

Lemma total_ret {A} (P : World → Prop) (a : A) (Q : World → A → Prop) : (∀ w, P w → Q w a) → total P (mret a) Q.
Proof. intros Hq w Hw. by apply Hq. Qed.

Lemma total_bind {A B} P (m : M A) (k : A → M B) Q R : total P m Q → (∀ a, total (λ w, Q w a) (k a) R) → total P (a ← m; k a) R.
Proof. intros Hm Hk w Hw. specialize (Hm w Hw). unfold mbind, M_bind. destruct (m w) as [w' a]. by apply Hk. Qed.

Lemma succeeds_then {A B} P (m : M (result ApiFailure.t A)) (k : A → M (result ApiFailure.t B)) Q R :
  succeeds P m Q → (∀ a, succeeds (λ w, Q w a) (k a) R) → succeeds P (andThen m k) R.
Proof.
  intros Hm Hk. eapply total_bind; [exact Hm|]. intros r w (a & -> & Hq). by apply Hk.
Qed.

Lemma succeeds_done {A} (P : World → Prop) (a : A) (Q : World → A → Prop) : (∀ w, P w → Q w a) → succeeds P (done_ a) Q.
Proof. intros Hq w Hw. exists a. split; [done|by apply Hq]. Qed.

Lemma succeeds_known {A B} P (a : A) (k : A → M (result ApiFailure.t B)) R : succeeds P (k a) R → succeeds P (andThen (done_ a) k) R.
Proof. intros Hk w Hw. exact (Hk w Hw). Qed.

Lemma total_pre {A} (P P' : World → Prop) (m : M A) Q : (∀ w, P w → P' w) → total P' m Q → total P m Q.
Proof. intros Hp Hm w Hw. by apply Hm, Hp. Qed.

Lemma total_given {A} (φ : Prop) P (m : M A) Q : (φ → total P m Q) → total (λ w, φ ∧ P w) m Q.
Proof. intros Hm w [Hp Hw]. by apply Hm. Qed.

Lemma total_some {A X} (P : X → World → Prop) (m : M A) Q : (∀ x, total (P x) m Q) → total (λ w, ∃ x, P x w) m Q.
Proof. intros Hm w [x Hw]. by apply (Hm x). Qed.

(** The page a worker shows of a journal of at most one page. *)
Definition page_of (i : GuardIdentity) (counters : CounterSnapshot) (t : Instant) (cut : bool) (journal : list GuardEvent) (after : Z)
    : GuardRuntimeObservation := {|
  ro_identity := i; ro_counters := counters; ro_events := drop (Z.to_nat after) journal; ro_observed_at := t;
  ro_start_sequence := after + 1; ro_previous_hash := head_from GENESIS_HASH (take (Z.to_nat after) journal);
  ro_sequence := count journal; ro_head := head_from GENESIS_HASH journal; ro_network_cut := cut |}.

Section Completion.
Context `{Host, HashOrder, PolicyDigest}.
Variables (env : Surroundings) (tenant id : Uuid) (request : QuarantineRequest) (fence : GuardFence) (hash snapshot : string)
  (journal : nat → list GuardEvent) (ls : gmap Uuid WorkerLease).

Definition whose : GuardIdentity := {| gi_sandbox_id := id; gi_tenant_id := tenant; gi_policy_hash := hash |}.

(** The surroundings do what they are asked. *)
Record helpful : Prop := {
  h_others n : env.(others_at) n = [];
  h_fence n : env.(fence_at) n = Ok fence;
  h_runtime n : env.(runtime_at) n = Ok ();
  h_clock n m : (n ≤ m)%nat → env.(now_at) n ≤ env.(now_at) m;
  h_id n : env.(id_at) n ≠ 0%N;
  h_cut n : is_ok (env.(worker_at) n fence (CCut hash)) = true;
  h_capture n x : ∃ size, env.(worker_at) n fence (CCapturePaused x) = Ok (RForensics snapshot size);
  h_append n e : is_ok (env.(worker_at) n fence (CAppendEvent hash e)) = true;
  h_observe n after : ∃ counters t cut,
    env.(worker_at) n fence (CObserve hash after) = Ok (RObservation (page_of whose counters t cut (journal n) after)) }.

(** The journal grows, stays within one page and is the guest's. *)
Record sound_journal : Prop := {
  j_grows n m : (n ≤ m)%nat → journal n `prefix_of` journal m;
  j_page n : count (journal n) ≤ MAX_PAGE_EVENTS;
  j_chain n : verify_from GENESIS_HASH (journal n) = Ok ();
  j_belongs n : Forall (belongs whose) (journal n) }.

(** The request names the sandbox's policy and lease and rules that fit the journal. *)
Record fitting_request : Prop := {
  r_hash : request.(qr_policy_hash) = hash;
  r_fence : stale fence request.(qr_fence) = false;
  r_lease : fence.(lease_id) ≠ 0%N;
  r_identity : valid_identity whose = Ok ();
  r_snapshot : snapshot ≠ ""%string ∧ bounded_ascii 256 snapshot = true;
  r_rules : validate_rules request.(qr_rules) = Ok ();
  r_references n i : i.(event_start_sequence) = 1 → i.(in_events) = journal n → i.(event_sequence) = count (journal n) →
    each (rule_ok i) request.(qr_rules) = Ok () }.

(** The sandbox and its lease in the store; quarantined when [q]. *)
Record guarded (q : bool) (d : MemoryData) : Prop := {
  g_sandbox : ∃ s, d.(sandboxes) !! id = Some s ∧ s.(sb_tenant_id) = tenant ∧ recorded_policy_hash s = Ok hash
    ∧ (s.(sb_state) = Quarantined ∨ can_transition_to s.(sb_state) Quarantined = true)
    ∧ (q = true → s.(sb_state) = Quarantined);
  g_budget : ∃ b, d.(guard_budgets) !! id = Some b ∧ b.(b_identity) = whose ∧ (q = true → b.(quarantined) = true);
  g_leases : d.(leases) = ls }.

(** The incident at a point of the run. *)
Definition inc (i : Uuid) (t : Instant) (cut pause completed : option Instant) (captured : option string)
    (events : list GuardEvent) (notified : option Instant) (text : string) : GuardIncident := {|
  in_id := i; in_identity := whose; in_fence := fence; in_rules := request.(qr_rules); triggered_at := t;
  network_cut_at := cut; paused_at := pause; snapshot_id := captured; completed_at := completed; in_events := events;
  event_start_sequence := 1; event_previous_hash := GENESIS_HASH; event_sequence := count events;
  event_head := head_from GENESIS_HASH events; in_errors := []; notified_at := notified; report := text |}.

Record at_point (q : bool) (k : nat) (i : option GuardIncident) (w : World) : Prop := {
  p_tick : (k ≤ w.(tick))%nat;
  p_guarded : guarded q w.(data);
  p_incident : w.(data).(guard_incidents) !! id = i }.

Hypothesis He : helpful.
Hypothesis Hj : sound_journal.
Hypothesis Hr : fitting_request.
Hypothesis leased : ∀ n d, d.(leases) = ls → memory_lease (env.(now_at) n) tenant id fence d = Ok ().

Lemma found_same w : found env w = w.(data).
Proof. unfold found. by rewrite (h_others He). Qed.

Lemma guarded_owned q d : guarded q d → ∃ s, owned d tenant id = Ok s ∧ recorded_policy_hash s = Ok hash.
Proof. intros [(s & Hs & Ht & Hp & _) _ _]. exists s. unfold owned. rewrite Hs, Ht, N.eqb_refl. by split. Qed.

Lemma fetch_ok {A} q k i (f : MemoryData → result StoreError.t A) (R : A → Prop) :
  (∀ d, guarded q d → d.(guard_incidents) !! id = i → ∃ a, f d = Ok a ∧ R a) →
  succeeds (at_point q k i) (fetch env f) (λ w a, at_point q k i w ∧ R a).
Proof.
  intros Hf w [Hk Hg Hi]. unfold fetch, access. rewrite found_same. destruct (Hf _ Hg Hi) as (a & -> & Ha). cbn.
  exists a. split; [done|]. split; [|done]. split; [cbn; lia|exact Hg|exact Hi].
Qed.

Lemma ask_ok {A} q k i (f : nat → A) :
  total (at_point q k i) (ask f) (λ w a, ∃ n, a = f n ∧ (k ≤ n)%nat ∧ at_point q (S n) i w).
Proof. intros w [Hk Hg Hi]. exists w.(tick). split_and!; [done|done|]. by split. Qed.

Lemma control_ok q k i c :
  total (at_point q k i) (guard_control env fence c) (λ w r, ∃ n, r = env.(worker_at) n fence c ∧ (k ≤ n)%nat ∧ at_point q (S n) i w).
Proof. intros w [Hk Hg Hi]. exists w.(tick). split_and!; [done|done|]. by split. Qed.

Lemma chain_evidence p es : verify_from p es = Ok () → Forall (belongs whose) es →
  evidence_chain whose p es = Ok (head_from p es) ∧ follow whose p es = Ok (head_from p es).
Proof.
  revert p. induction es as [|e es IH]; intros p Hv Hb; [done|]. apply Forall_cons in Hb as [(B1 & B2 & B3 & B4) Hb].
  cbn [verify_from] in Hv. ok_inv Hv. bools. destruct (IH _ Hv Hb) as [IH1 IH2]. cbn [evidence_chain follow].
  rewrite B4, B1, B2, B3, !N.eqb_refl, !bool_decide_eq_true_2 by done. cbn [negb orb map_err].
  match goal with E : verify_self_hash e = Ok ?u |- _ => destruct u; rewrite E end. cbn [map_err].
  rewrite head_from_cons. by rewrite IH1, IH2.
Qed.

Lemma journal_hash n : is_hash (head_from GENESIS_HASH (journal n)) = true.
Proof.
  pose proof (j_belongs Hj n) as Hb. unfold head_from. destruct (last (journal n)) as [e|] eqn:Hl; [|by vm_compute].
  apply last_Some in Hl as [l Hl]. rewrite Hl in Hb. apply Forall_app in Hb as [_ Hb]. apply Forall_cons in Hb as [(_ & _ & _ & Hv) _].
  unfold verify_bounds in Hv. ok_inv Hv. apply orb_false_iff in Hif as [_ Hif%negb_false_iff]. by apply sha_is_hash.
Qed.

Lemma page_bound : MAX_PAGE_EVENTS = 4096.
Proof. reflexivity. Qed.

Lemma evidence_valid i t c p d s n nt text : validate_incident_evidence (inc i t c p d s (journal n) nt text) = Ok ().
Proof.
  pose proof (j_page Hj n) as Hp. rewrite page_bound in Hp. pose proof (count_nonneg (journal n)).
  destruct (chain_evidence GENESIS_HASH (journal n) (j_chain Hj n) (j_belongs Hj n)) as [Hc _].
  unfold validate_incident_evidence, inc. cbn [in_events event_start_sequence event_sequence event_previous_hash in_identity event_head].
  rewrite Hc. unfold checked_add. fold (count (journal n)). rewrite (proj2 (Z.leb_le _ _)) by (unfold u64_max; lia). cbn [mbind option_bind].
  unfold checked_sub. rewrite (proj2 (Z.leb_le _ _)) by lia. rewrite bool_decide_eq_true_2 by (f_equal; lia).
  cbn [negb orb]. change (1 =? 0) with false. cbn [orb]. rewrite bool_decide_eq_true_2 by done. done.
Qed.

(** The incident may be reported once it has been cut, or before it is paused. *)
Lemma incident_valid i t c p s n : i ≠ 0%N → t ≤ c → c ≤ p →
  s = Some snapshot →
  validate_incident (inc i t (Some c) (Some p) None s (journal n) None "") = Ok ().
Proof.
  intros Hi Ht Hp ->. pose proof (j_page Hj n) as Hpage. pose proof (count_nonneg (journal n)).
  destruct (chain_evidence GENESIS_HASH (journal n) (j_chain Hj n) (j_belongs Hj n)) as [_ Hf].
  assert (Hev : validate_event_page whose (journal n) 0 GENESIS_HASH (count (journal n)) (head_from GENESIS_HASH (journal n)) = Ok ()).
  { unfold validate_event_page. rewrite (r_identity Hr), (proj2 (Z.ltb_ge _ _)) by done. unfold checked_add.
    rewrite (proj2 (Z.leb_le _ _)) by (rewrite page_bound in Hpage; unfold u64_max; lia).
    rewrite bool_decide_eq_true_2 by (f_equal; lia). cbn [negb orb]. rewrite Hf, journal_hash. by rewrite !bool_decide_eq_true_2. }
  pose proof (leased 0 (set_leases ls empty_store) eq_refl) as Hl. unfold memory_lease, validate_fence in Hl. ok_inv Hl. ok_inv Hl.
  repeat match goal with E : _ || _ = false |- _ => apply orb_false_iff in E as [? ?] end.
  match goal with E : (generation fence <=? 0) = false |- _ => apply Z.leb_gt in E end.
  unfold validate_incident. cbn [inc in_rules event_start_sequence in_identity in_events event_previous_hash event_sequence event_head in_id
    in_fence snapshot_id in_errors network_cut_at paused_at completed_at triggered_at].
  rewrite (r_rules Hr). change (checked_sub 1 1) with (Some 0). cbn [ok_or]. rewrite Hev.
  rewrite (proj2 (N.eqb_neq _ _) Hi), (proj2 (N.eqb_neq _ _) (r_lease Hr)), (proj2 (Z.ltb_ge _ _)) by lia.
  destruct (r_snapshot Hr) as [_ Hb]. cbn [is_some_and is_none_or orb existsb]. rewrite Hb.
  change (32 <? count (@nil string)) with false. cbn [negb orb].
  rewrite (r_references Hr n) by done. rewrite !(proj2 (Z.ltb_ge _ _)) by lia. done.
Qed.

(** [i] adds to [e]: the store takes it as it is. *)
Definition grows (e i : GuardIncident) : Prop := compatible e i ∧ merged e i = i.

Definition later {A} (a b : option A) : Prop := a = None ∨ a = b.
Lemma or_else_later {A} (a b : option A) : later a b → or_else a b = b.
Proof. by intros [->| ->]; [|destruct b]. Qed.

Lemma inc_open i t c p s ev nt r c' p' d' s' ev' nt' r' :
  later c c' → later p p' → later s s' → later nt nt' → ev `prefix_of` ev' → (r = ""%string ∨ r' = r) →
  grows (inc i t c p None s ev nt r) (inc i t c' p' d' s' ev' nt' r').
Proof.
  intros Hc Hp Hs Hn Hev Hre. split.
  - split; try done; cbn.
    + destruct Hs as [->| ->]; auto.
    + by left.
    + intros Hl. by rewrite (prefix_length_eq _ _ Hev) by lia.
  - unfold merged, merge_open. cbn [inc in_id in_identity in_fence in_rules triggered_at network_cut_at paused_at snapshot_id completed_at in_events
      event_start_sequence event_previous_hash event_sequence event_head in_errors notified_at report].
    rewrite !or_else_later by done. rewrite !push_new_contained by done.
    assert (Hev' : (if (length ev <? length ev')%nat then ev' else ev) = ev').
    { destruct (Nat.ltb_spec (length ev) (length ev')); [done|]. by apply prefix_length_eq. }
    assert (Hrr : (if is_empty r' then r else r') = r').
    { unfold is_empty. case_bool_decide; [|done]. subst. by destruct Hre as [->|<-]. }
    rewrite Hev', Hrr. unfold inc. f_equal; destruct (Nat.ltb_spec (length ev) (length ev')); try done;
      by rewrite (prefix_length_eq _ _ Hev) by lia.
Qed.

Lemma inc_done i t c p x s ev nt r nt' : later nt nt' → grows (inc i t c p (Some x) s ev nt r) (inc i t c p (Some x) s ev nt' r).
Proof.
  intros Hn. split; [split; try done; cbn; auto|]. unfold merged, merge_completed.
  cbn [inc in_id in_identity in_fence in_rules triggered_at network_cut_at paused_at snapshot_id completed_at in_events
      event_start_sequence event_previous_hash event_sequence event_head in_errors notified_at report]. by rewrite or_else_later.
Qed.

Lemma put_ok q k e i :
  i.(in_identity) = whose → i.(in_fence) = fence → validate_incident_evidence i = Ok () →
  (∀ e', e = Some e' → grows e' i) → (is_Some i.(completed_at) → may_complete i = true) →
  succeeds (at_point q k e) (put_incident env i) (λ w a, a = i ∧ at_point q k (Some i) w).
Proof.
  intros Hi Hf Hv Hg Hc w [Hk Hd Hin]. unfold put_incident, access. rewrite found_same. unfold put_guard_incident. rewrite Hi, Hf.
  cbn [gi_sandbox_id gi_tenant_id whose]. destruct (guarded_owned q _ Hd) as (s & -> & _). rewrite (leased _ _ (g_leases _ _ Hd)).
  destruct (g_budget _ _ Hd) as (b & Hb & Hbi & Hbq). rewrite Hb. cbn [ok_or]. rewrite Hbi, bool_decide_eq_true_2 by done. cbn [negb].
  assert (Hm : merge_incident (w.(data).(guard_incidents) !! id) i = Ok i).
  { apply merge_incident_ok. rewrite Hin. split_and!; [done| |done]. destruct e as [e|]; [|done].
    destruct (Hg e eq_refl) as [Hcomp Hmm]. apply merge_existing_ok. split; [done|]. symmetry. exact Hmm. }
  rewrite Hm. cbn. exists i. split; [done|]. split; [done|]. split; [cbn; lia| |apply lookup_insert_eq].
  destruct Hd. by split.
Qed.

Lemma persist_open q k e i :
  i.(in_identity) = whose → i.(in_fence) = fence → validate_incident_evidence i = Ok () →
  (∀ e', e = Some e' → grows e' i) → i.(completed_at) = None → all_stages i = false →
  succeeds (at_point q k e) (persist env i) (λ w a, a = i ∧ at_point q k (Some i) w).
Proof.
  intros Hi Hf Hv Hg Hc Ha. eapply succeeds_then; [apply put_ok; try done; intros [x Hx]; by rewrite Hc in Hx|].
  intros a w [-> Hw]. rewrite Hc, Ha. cbn. by exists i.
Qed.

Lemma sandbox_ok q k i :
  succeeds (at_point q k i) (fetch env (get_sandbox tenant id)) (λ w s, at_point q k i w ∧ recorded_policy_hash s = Ok hash).
Proof. apply fetch_ok. intros d Hd _. by apply guarded_owned in Hd. Qed.

Lemma lease_ok q k i : succeeds (at_point q k i) (current_fence env) (λ w f, f = fence ∧ at_point q k i w).
Proof.
  intros w [Hk Hg Hi]. exists fence. unfold current_fence, ask. cbn. rewrite (h_fence He). split; [done|]. split; [done|]. by split; [cbn; lia| |].
Qed.

Lemma runtime_ok q k i s : succeeds (at_point q k i) (runtime_for env s) (λ w _, at_point q k i w).
Proof.
  intros w [Hk Hg Hi]. exists (). unfold runtime_for, ask. cbn. rewrite (h_runtime He). split; [done|]. by split; [cbn; lia| |].
Qed.

(** The head of every handler: the sandbox, its policy, its lease and its worker. *)
Lemma lift_hash {B} q k i (s : Sandbox) (m : string → M (result ApiFailure.t B)) Q :
  succeeds (at_point q k i) (m hash) Q →
  succeeds (λ w, at_point q k i w ∧ recorded_policy_hash s = Ok hash) (let! h := lift (recorded_policy_hash s) in m h) Q.
Proof. intros Hm w [Hw Hs]. unfold andThen, lift, mbind, M_bind, mret, M_ret. rewrite Hs. by apply Hm. Qed.

(** What an observation shows of the journal. *)
Record shows (after : Z) (n : nat) (o : GuardObservation) : Prop := {
  s_identity : o.(o_identity) = whose;
  s_events : o.(o_events) = drop (Z.to_nat after) (journal n);
  s_start : o.(o_start_sequence) = after + 1;
  s_previous : o.(o_previous_hash) = head_from GENESIS_HASH (take (Z.to_nat after) (journal n));
  s_sequence : o.(o_sequence) = count (journal n);
  s_head : o.(o_head) = head_from GENESIS_HASH (journal n) }.

Lemma observation_ok q k i after : 0 ≤ after →
  succeeds (at_point q k i) (observe env tenant id after) (λ w o, ∃ n, ((k ≤ n)%nat ∧ shows after n o) ∧ at_point q (S n) i w).
Proof.
  intros Ha. eapply succeeds_then; [apply sandbox_ok|]. intros s. apply lift_hash.
  eapply succeeds_then; [apply lease_ok|]. intros f. apply total_given. intros ->.
  eapply succeeds_then; [apply runtime_ok|]. intros []. eapply total_bind; [apply control_ok|].
  intros r. apply total_some. intros n. apply total_given. intros ->. apply total_given. intros Hkn.
  destruct (h_observe He n after) as (counters & t & cut & ->). cbn [page_of ro_sequence ro_start_sequence].
  pose proof (j_page Hj n) as Hpage. rewrite page_bound in Hpage.
  rewrite (proj2 (Z.leb_gt _ _)) by (unfold saturating_sub, TELEMETRY_PAGE; lia).
  eapply succeeds_then; [apply (fetch_ok q (S n) i _ (λ b, b.(b_identity) = whose))|].
  { intros d Hd _. destruct (guarded_owned q d Hd) as (x & Hx & _). destruct (g_budget _ _ Hd) as (b & Hb & Hbi & _).
    exists b. unfold get_guard_budget. rewrite Hx, Hb. done. }
  intros b w [Hw Hb]. rewrite Hb. cbn [gi_policy_hash whose]. rewrite bool_decide_eq_true_2 by done. cbn [negb].
  eexists. split; [done|]. exists n. split; [|exact Hw]. split; [done|]. by split.
Qed.

Lemma existing_ok q k i : total (at_point q k i) (existing_incident env tenant id) (λ w r, r = i ∧ at_point q k i w).
Proof.
  intros w [Hk Hg Hi]. unfold existing_incident, fetch, access, mbind, M_bind. rewrite found_same. cbn.
  unfold get_guard_incident. destruct (guarded_owned q _ Hg) as (s & -> & _). rewrite Hi. split; [by destruct i|]. by split; [cbn; lia| |].
Qed.

Lemma head_not_empty n : is_empty (head_from GENESIS_HASH (journal n)) = false.
Proof.
  pose proof (journal_hash n) as Hh. unfold is_empty. apply bool_decide_eq_false. intros E. rewrite E in Hh. by vm_compute in Hh.
Qed.

(** The incident as it is opened: a fresh identifier, the request's rules and the journal. *)
Lemma begin_ok q k0 : succeeds (at_point q k0 None) (begin_quarantine env tenant id request) (λ w i,
  ∃ k u n t, ((k0 ≤ n ≤ k)%nat ∧ u ≠ 0%N ∧ t ≤ env.(now_at) k) ∧ i = inc u t None None None None (journal n) None "" ∧ at_point q k (Some i) w).
Proof.
  eapply succeeds_then; [apply sandbox_ok|]. intros s. apply lift_hash.
  rewrite bool_decide_eq_true_2 by (symmetry; apply (r_hash Hr)). cbn [negb].
  eapply total_bind; [apply existing_ok|]. intros x. apply total_given. intros ->. cbn [closed mbind option_bind].
  eapply succeeds_then; [apply lease_ok|]. intros f. apply total_given. intros ->. rewrite (r_fence Hr).
  eapply succeeds_then; [by apply observation_ok|]. intros o. apply total_some. intros n. apply total_given. intros [Hn Ho].
  rewrite (s_head _ _ _ Ho), head_not_empty.
  eapply total_bind; [apply existing_ok|]. intros x. apply total_given. intros ->.
  eapply total_bind; [apply ask_ok|]. intros u. apply total_some. intros n1. apply total_given. intros ->. apply total_given. intros Hn1.
  eapply total_bind; [apply ask_ok|]. intros t. apply total_some. intros n2. apply total_given. intros ->. apply total_given. intros Hn2.
  set (u := env.(id_at) n1). set (t := env.(now_at) n2).
  assert (Hi : opened u t fence request.(qr_rules) o = inc u t None None None None (journal n) None "").
  { destruct Ho as [O1 O2 O3 O4 O5 O6]. unfold opened, inc. by rewrite O1, O2, O3, O4, O5, O6. }
  rewrite Hi. intros w Hw. destruct (persist_open q (S n2) None (inc u t None None None None (journal n) None "")) with (w := w)
    as (a & Ha & -> & Hw'); try done; [apply evidence_valid|].
  exists (inc u t None None None None (journal n) None ""). split; [exact Ha|]. exists (S n2), u, n, t.
  split_and!; [lia|lia|apply (h_id He)|apply (h_clock He); lia|done|exact Hw'].
Qed.

(** Recording a stage that succeeded. *)
Lemma stage_ok q k e i t c p s ev nt :
  (∀ e', e = Some e' → grows e' (inc i t c p None s ev nt "")) → (∃ n, ev = journal n) →
  succeeds (at_point q k e) (record_stage env (inc i t c p None s ev nt "") [])
    (λ w a, a = inc i t c p None s ev nt "" ∧ at_point q k (Some (inc i t c p None s ev nt "")) w).
Proof.
  intros Hg [n ->]. unfold record_stage. change (set_errors _ _) with (inc i t c p None s (journal n) nt "").
  apply persist_open; try done; [apply evidence_valid|]. unfold all_stages. cbn. apply andb_false_r.
Qed.

Lemma latched_identity b : b.(b_identity) = whose → b_identity (set_quarantined true b) = whose.
Proof. intros Hb. unfold set_quarantined, with_usage. cbn. by rewrite Hb. Qed.

Lemma mark_ok q k i : succeeds (at_point q k i) (mark env tenant id fence) (λ w _, at_point true k i w).
Proof.
  intros w [Hk Hd Hi]. pose proof (g_leases _ _ Hd) as Hl. destruct (g_budget _ _ Hd) as (b & Hb & Hbi & _).
  destruct (g_sandbox _ _ Hd) as (s & Hs & Ht & Hp & Hst & _).
  unfold mark, access. rewrite found_same. unfold mark_guard_quarantined, owned. rewrite Hs, Ht, N.eqb_refl, (leased _ _ Hl), Hb.
  cbn [ok_or negb]. destruct (decide (s.(sb_state) = Quarantined)) as [Hq|Hq].
  - rewrite bool_decide_eq_true_2 by done. cbn. exists s. split; [done|]. split; [cbn; lia| |exact Hi].
    split; [exists s; by auto| |exact Hl]. exists (set_quarantined true b). split_and!; [apply lookup_insert_eq|by apply latched_identity|done].
  - rewrite bool_decide_eq_false_2 by done. destruct Hst as [|Hst]; [done|]. rewrite Hst. cbn.
    exists (with_state Quarantined (env.(now_at) (S w.(tick))) s). split; [done|]. split; [cbn; lia| |exact Hi]. split.
    + exists (with_state Quarantined (env.(now_at) (S w.(tick))) s). split_and!; [apply lookup_insert_eq|exact Ht|exact Hp|by left|done].
    + exists (set_quarantined true b). split_and!; [apply lookup_insert_eq|by apply latched_identity|done].
    + exact Hl.
Qed.

Lemma cut_ok q k e i t ev :
  total (at_point q k e) (cut_stage env fence hash (inc i t None None None None ev None "")) (λ w r,
    ∃ n, r = (inc i t (Some (env.(now_at) n)) None None None ev None "", []) ∧ (k ≤ n)%nat ∧ at_point q (S n) e w).
Proof.
  eapply total_bind; [apply control_ok|]. intros r. apply total_some. intros n. apply total_given. intros ->. apply total_given. intros Hn.
  pose proof (h_cut He n) as Hc. destruct (env.(worker_at) n fence (CCut hash)) as [x|]; [|done].
  eapply total_bind; [apply ask_ok|]. intros x'. apply total_some. intros n'. apply total_given. intros ->. apply total_given. intros Hn'.
  apply total_ret. intros w Hw. exists n'. split_and!; [done|lia|done].
Qed.

Lemma capture_ok q k e i t c ev :
  total (at_point q k e) (capture_stage env fence (inc i t c None None None ev None "")) (λ w r,
    ∃ n, r = (inc i t c (Some (env.(now_at) n)) None (Some snapshot) ev None "", []) ∧ (k ≤ n)%nat ∧ at_point q (S n) e w).
Proof.
  eapply total_bind; [apply control_ok|]. intros r. apply total_some. intros n. apply total_given. intros ->. apply total_given. intros Hn.
  destruct (h_capture He n (uuid_to_string i)) as [size Hc]. cbn [inc in_id]. rewrite Hc.
  eapply total_bind; [apply ask_ok|]. intros x'. apply total_some. intros n'. apply total_given. intros ->. apply total_given. intros Hn'.
  apply total_ret. intros w Hw. exists n'. split_and!; [done|lia|done].
Qed.

Lemma event_ok q k e rules :
  succeeds (at_point q k e) (event_stage env tenant id fence hash rules) (λ w r, r = [] ∧ at_point q k e w).
Proof.
  eapply succeeds_then; [by apply observation_ok|]. intros o. apply total_some. intros n. apply total_given. intros [Hn _].
  destruct (existsb _ _).
  - apply succeeds_done. intros w [Hk Hg Hi]. split; [done|]. by split; [lia| |].
  - eapply total_bind; [apply control_ok|]. intros r. apply total_some. intros n'. apply total_given. intros ->. apply total_given. intros Hn'.
    pose proof (h_append He n' (quarantine_event id tenant hash rules)) as Ha. destruct (env.(worker_at) n' fence _); [|done].
    apply succeeds_done. intros w [Hk Hg Hi]. split; [done|]. by split; [lia| |].
Qed.

Lemma journal_extends n m : (n ≤ m)%nat →
  journal n ++ drop (Z.to_nat (count (journal n))) (journal m) = journal m
  ∧ match drop (Z.to_nat (count (journal n))) (journal m) with
    | e :: _ => bool_decide (e.(previous_hash) = head_from GENESIS_HASH (journal n)) = true
    | [] => True
    end.
Proof.
  intros Hnm. destruct (j_grows Hj n m Hnm) as [l Hl]. rewrite Hl. unfold count. rewrite Nat2Z.id, drop_app_length.
  split; [done|]. destruct l as [|e l]; [done|]. pose proof (j_chain Hj m) as Hc. rewrite Hl in Hc.
  rewrite cons_middle, app_assoc in Hc. apply verify_from_prefix, verify_from_snoc in Hc as (_ & Hc & _). by apply bool_decide_eq_true_2.
Qed.

Lemma evidence_ok q k e i t c p s n : (n ≤ k)%nat →
  total (at_point q k e) (evidence_stage env tenant id (inc i t c p None s (journal n) None "") []) (λ w r,
    ∃ m, r = (inc i t c p None s (journal m) None "", []) ∧ (k ≤ m)%nat ∧ at_point q (S m) e w).
Proof.
  intros Hnk. eapply total_bind; [apply observation_ok, count_nonneg|]. intros r w (o & -> & m & [Hm [O1 O2 O3 O4 O5 O6]] & Hw).
  cbn [inc event_sequence event_head] in *. destruct (journal_extends n m) as [Hx Hc]; [lia|]. rewrite O2, O5, O6.
  exists m. split_and!; [|done|].
  - destruct (drop _ _) as [|e1 l] eqn:Hdrop; [|rewrite Hc]; cbn [fst snd mret M_ret]; unfold extend, with_stages, inc; cbn; by rewrite Hx.
  - by destruct (drop _ _); [|rewrite Hc].
Qed.

Lemma report_ok q k e i t c p n : i ≠ 0%N → t ≤ c → c ≤ p →
  succeeds (at_point q k e) (report_stage env (inc i t (Some c) (Some p) None (Some snapshot) (journal n) None "") []) (λ w r,
    ∃ text, (r = (inc i t (Some c) (Some p) None (Some snapshot) (journal n) None text, []) ∧ text ≠ ""%string) ∧ at_point q k e w).
Proof.
  intros Hi Ht Hp w Hw. set (x := inc i t (Some c) (Some p) None (Some snapshot) (journal n) None "").
  assert (Hv : validate_incident x = Ok ()) by by apply incident_valid. destruct (first_lines_some x Hv) as (first & Hf & _).
  unfold report_stage, generate_incident_report, report_lines. rewrite Hv, Hf. cbn [mbind option_bind fmap option_fmap option_map compose].
  eexists. split; [done|]. eexists. split; [split; [done|]|exact Hw]. done.
Qed.

Lemma complete_ok q k i t c p ev n text : ev `prefix_of` journal n → text ≠ ""%string →
  succeeds (at_point q k (Some (inc i t (Some c) (Some p) None (Some snapshot) ev None "")))
    (record_stage env (inc i t (Some c) (Some p) None (Some snapshot) (journal n) None text) []) (λ w a,
    ∃ x, a = inc i t (Some c) (Some p) (Some x) (Some snapshot) (journal n) None text ∧ at_point q k (Some a) w).
Proof.
  intros Hev Ht. unfold record_stage, persist. set (y := inc i t (Some c) (Some p) None (Some snapshot) (journal n) None text).
  change (set_errors _ _) with y. eapply succeeds_then; [apply (put_ok q k); try done|].
  { apply evidence_valid. } { intros e' [= <-]. apply inc_open; try (by right); [done|by left]. } { intros [? [=]]. }
  intros a. apply total_given. intros ->. cbn [completed_at y inc]. rewrite bool_decide_eq_false_2 by by intros [? [=]].
  assert (Hempty : is_empty text = false) by by apply bool_decide_eq_false_2.
  assert (Hall : all_stages y = true) by (unfold all_stages; cbn; by rewrite Hempty). rewrite Hall. cbn [negb].
  eapply total_bind; [apply ask_ok|]. intros x. apply total_some. intros m. apply total_given. intros ->. apply total_given. intros Hm.
  intros w Hw. destruct (put_ok q k (Some y) (set_completed (env.(now_at) m) y)) with (w := w) as (a & Ha & -> & Hw'); try done.
  - apply (evidence_valid i t (Some c) (Some p) (Some (env.(now_at) m)) (Some snapshot) n None text).
  - intros e' [= <-]. apply inc_open; try (by right); done.
  - intros _. unfold may_complete. cbn. rewrite Hempty. unfold is_empty. rewrite bool_decide_eq_false_2; [done|apply (r_snapshot Hr)].
  - destruct Hw. by split; [lia| |].
  - eexists. split; [exact Ha|]. by eexists.
Qed.

Lemma notify_ok q k i t c p x n text :
  let y nt := inc i t (Some c) (Some p) (Some x) (Some snapshot) (journal n) nt text in text ≠ ""%string →
  succeeds (at_point q k (Some (y None))) (notify_stage env (y None)) (λ w a, ∃ nt, a = y nt ∧ at_point q k (Some a) w).
Proof.
  intros y Ht. eapply total_bind; [apply ask_ok|]. intros nr. apply total_some. intros m. apply total_given. intros _. apply total_given. intros Hm.
  assert (Hback : ∀ w, at_point q (S m) (Some (y None)) w → at_point q k (Some (y None)) w) by (intros w []; by split; [lia| |]).
  assert (Hsame : succeeds (at_point q (S m) (Some (y None))) (done_ (y None)) (λ w a, ∃ nt, a = y nt ∧ at_point q k (Some a) w)).
  { apply succeeds_done. intros w Hw. exists None. split; [done|by apply Hback]. }
  destruct nr as [[[]|]|]; try exact Hsame. eapply total_pre; [exact Hback|]. clear Hback Hsame.
  eapply total_bind; [apply ask_ok|]. intros z. apply total_some. intros m'. apply total_given. intros _. apply total_given. intros Hm'.
  change (set_notified z (y None)) with (y (Some z)). unfold persist. eapply succeeds_then; [apply (put_ok q (S m') _ (y (Some z))); try done|].
  - apply evidence_valid.
  - intros e' [= <-]. apply inc_done. by left.
  - intros _. unfold may_complete. cbn. unfold is_empty. rewrite !bool_decide_eq_false_2; [done|done|apply (r_snapshot Hr)].
  - intros a w [-> Hw]. cbn [completed_at y inc]. rewrite bool_decide_eq_true_2 by by eexists. exists (y (Some z)). split; [done|].
    exists (Some z). split; [done|]. destruct Hw as [Hk Hd Hi]. split; [|exact Hd|exact Hi]. cbn. lia.
Qed.

(** The incident of a finished run. *)
Definition finished (k0 : nat) (w : World) : Prop := ∃ k u t c p x n nt text, (text ≠ ""%string ∧ t ≤ c ≤ p ∧ (k0 ≤ n)%nat)
  ∧ at_point true k (Some (inc u t (Some c) (Some p) (Some x) (Some snapshot) (journal n) nt text)) w.

Lemma advance_ok q k u t n : (n ≤ k)%nat → u ≠ 0%N → t ≤ env.(now_at) k →
  succeeds (at_point q k (Some (inc u t None None None None (journal n) None ""))) (advance_quarantine env tenant id) (λ w _, finished k w).
Proof.
  intros Hn Hu Ht. eapply succeeds_then; [apply sandbox_ok|]. intros s. apply lift_hash.
  eapply succeeds_then; [apply lease_ok|]. intros f. apply total_given. intros ->.
  eapply succeeds_then; [apply runtime_ok|]. intros [].
  do 2 (eapply total_bind; [apply existing_ok|]; intros e; apply total_given; intros ->).
  apply succeeds_known.
  eapply total_bind; [apply cut_ok|]. intros r. apply total_some. intros nc. apply total_given. intros ->. apply total_given. intros Hc.
  eapply succeeds_then; [apply stage_ok; [intros e [= <-]; apply inc_open; (by left) || done|by eexists]|]. intros e. apply total_given. intros ->.
  eapply total_bind; [apply capture_ok|]. intros r. apply total_some. intros np. apply total_given. intros ->. apply total_given. intros Hp.
  eapply succeeds_then; [apply stage_ok; [intros e [= <-]; apply inc_open; (by left) || (by right) || done|by eexists]|].
  intros e. apply total_given. intros ->. eapply total_bind; [apply mark_ok|]. intros r. apply total_some. intros sb. apply total_given. intros ->.
  eapply succeeds_then; [apply stage_ok; [intros e [= <-]; apply inc_open; (by left) || (by right) || done|by eexists]|].
  intros e. apply total_given. intros ->. eapply succeeds_then; [apply event_ok|]. intros e. apply total_given. intros ->.
  eapply total_bind; [apply (evidence_ok true (S np)); lia|]. intros r. apply total_some. intros m. apply total_given. intros ->. apply total_given. intros Hm.
  assert (Hts : t ≤ env.(now_at) nc ≤ env.(now_at) np).
  { split; [transitivity (env.(now_at) k); [done|]|]; apply (h_clock He); lia. }
  eapply succeeds_then; [apply report_ok; [done|lia|lia]|].
  intros e. apply total_some. intros text. apply total_given. intros [-> Htext].
  eapply succeeds_then; [apply complete_ok; [apply (j_grows Hj); lia|done]|]. intros e. apply total_some. intros x. apply total_given. intros ->.
  cbn [inc completed_at]. rewrite (bool_decide_eq_false_2 (_ = None)), andb_false_r by done.
  apply succeeds_known.
  intros w Hw. destruct (notify_ok true (S m) u t _ _ x m text Htext w Hw) as (a & Ha & nt & -> & Hw'). eexists. split; [exact Ha|].
  exists (S m), u, t, (env.(now_at) nc), (env.(now_at) np), x, m, nt, text. split; [|exact Hw']. split_and!; [done|lia|lia|lia].
Qed.

Lemma quarantine_ok q k0 : succeeds (at_point q k0 None) (quarantine env tenant id request) (λ w _, finished k0 w).
Proof.
  eapply succeeds_then; [apply begin_ok|]. intros i. apply total_some. intros k. apply total_some. intros u. apply total_some. intros n.
  apply total_some. intros t. apply total_given. intros (Hn & Hu & Ht). apply total_given. intros ->.
  eapply total_bind; [apply advance_ok; [lia|done|done]|]. intros r w (a & -> & k' & u' & t' & c & p & x & m & nt & text & (Ht' & Ho & Hm) & Hw).
  eexists. split; [done|]. exists k', u', t', c, p, x, m, nt, text. split; [|exact Hw]. split_and!; [done|lia|lia|lia].
Qed.

End Completion.

(** C19: a quarantine whose surroundings cooperate runs to completion. The sandbox's current
    lease is live, its worker answers, its journal fits one page and holds only records of the
    policy in force, and no incident is on record: then the request succeeds, the sandbox is
    durably quarantined with its budget latched, and the incident on record is complete: it
    gives the cut and the later capture, the request's rules, a report, and the journal as it
    stood at some point of the run, so every record written before the request. *)
Theorem cooperative_quarantine_completes `{Host, HashOrder, PolicyDigest} env tenant id request fence hash snapshot journal q w :
  helpful env tenant id fence hash snapshot journal → sound_journal tenant id hash journal →
  fitting_request tenant id request fence hash snapshot journal →
  (∀ n d, d.(leases) = w.(data).(leases) → memory_lease (env.(now_at) n) tenant id fence d = Ok ()) →
  guarded tenant id hash w.(data).(leases) q w.(data) → w.(data).(guard_incidents) !! id = None →
  let w' := (quarantine env tenant id request w).1 in
  is_ok (quarantine env tenant id request w).2 = true
  ∧ (∃ s, w'.(data).(sandboxes) !! id = Some s ∧ s.(sb_state) = Quarantined)
  ∧ (∃ b, w'.(data).(guard_budgets) !! id = Some b ∧ b.(quarantined) = true)
  ∧ ∃ i c p n, w'.(data).(guard_incidents) !! id = Some i ∧ is_Some i.(completed_at) ∧ i.(network_cut_at) = Some c
      ∧ i.(paused_at) = Some p ∧ i.(triggered_at) ≤ c ≤ p ∧ i.(snapshot_id) = Some snapshot ∧ i.(report) ≠ ""%string
      ∧ i.(in_rules) = request.(qr_rules) ∧ i.(in_events) = journal n ∧ journal w.(tick) `prefix_of` i.(in_events).
Proof.
  intros He Hj Hr Hl Hg Hi w'.
  destruct (quarantine_ok env tenant id request fence hash snapshot journal w.(data).(leases) He Hj Hr Hl q w.(tick) w) as (a & Ha & Hf).
  { split; [done|exact Hg|exact Hi]. }
  destruct Hf as (k & u & t & c & p & x & n & nt & text & (Htext & Ho & Hn) & [_ Hd Hin]). fold w' in Hd, Hin.
  destruct (g_sandbox _ _ _ _ _ _ Hd) as (s & Hs & _ & _ & _ & Hq). destruct (g_budget _ _ _ _ _ _ Hd) as (b & Hb & _ & Hbq).
  rewrite Ha. split_and!; [done|by exists s; auto|by exists b; auto|]. eexists _, c, p, n. split; [exact Hin|].
  cbn [inc completed_at]. split_and!; [by eexists|done|done|apply Ho|apply Ho|done|done|done|done|]. by apply (j_grows _ _ _ _ Hj).
Qed.

(** ** A concrete sandbox *)
Module SampleQuarantine.
Import SampleWatchdog.
#[local] Existing Instances length_host ArtifactGc.SampleLedger.order.

#[global] Instance sample_policy_digest : PolicyDigest := λ _, Ok GENESIS_HASH.

Definition fence : GuardFence := {| lease_id := 3; generation := 1 |}.
Definition lease : WorkerLease := {|
  le_id := 3; le_tenant_id := 9; le_sandbox_id := 7; le_node_id := 4; le_generation := 1; le_status := "active";
  le_reason := None; le_expires_at := 9000000000; le_created_at := 0; le_updated_at := 0 |}.
Definition sandbox : Sandbox := {|
  sb_id := 7; sb_tenant_id := 9; sb_node_id := Some 4%N; sb_image_id := "img"; sb_state := Running; sb_runtime := Docker;
  sb_cpu := 1; sb_memory_mb := 512; sb_disk_mb := 2048; sb_timeout_seconds := 900; sb_network := Disabled;
  sb_environment := {| workspace := Empty; toolkits := []; layers := []; guard := Some Policy.sample_config;
                       guard_policy_hash := Some GENESIS_HASH |};
  sb_created_at := 0; sb_updated_at := 0; sb_runtime_path := None |}.
Definition store : MemoryData :=
  set_leases {[ 3%N := lease ]} (set_guard_budgets {[ 7%N := budget 1 ]} (set_sandboxes {[ 7%N := sandbox ]} empty_store)).
Definition world (d : MemoryData) : World := {| tick := 0; data := d; acts := [] |}.

Definition request : QuarantineRequest := {|
  qr_fence := fence; qr_policy_hash := GENESIS_HASH;
  qr_rules := [{| rt_rule := "durable_budget_exhausted"; first_event_sequence := None;
                  evidence_references := ["durable-control-plane-budget"%string] |}] |}.

(** The second record arrives while the quarantine runs. *)
Definition journal (n : nat) : list GuardEvent := if (n <? 12)%nat then [denial1] else [denial1; denial2].

Definition answers (pages : nat → Z → GuardRuntimeObservation) (n : nat) (_ : GuardFence) (c : GuardControlCommand)
    : result CoreError.t GuardControlResponse :=
  match c with
  | CObserve _ after => Ok (RObservation (pages n after))
  | CCapturePaused x => Ok (RForensics "capture" 4096)
  | _ => Ok RUnit
  end.
Definition surroundings (pages : nat → Z → GuardRuntimeObservation) : Surroundings := {|
  now_at _ := 3000000000; id_at _ := 11%N; text_at _ := ""; fence_at _ := Ok fence; runtime_at _ := Ok ();
  worker_at := answers pages; others_at _ := []; notifier_at _ := Some (Ok true) |}.
Definition pages (n : nat) (after : Z) : GuardRuntimeObservation :=
  page_of identity (o_counters page1) 3000000000 false (journal n) after.
Definition env : Surroundings := surroundings pages.

Lemma journal_cases n : journal n = [denial1] ∨ journal n = [denial1; denial2].
Proof. unfold journal. destruct (n <? 12)%nat; auto. Qed.

Lemma env_helpful : helpful env 9 7 fence GENESIS_HASH "capture" journal.
Proof.
  split; try done; [intros n x; by exists 4096|]. intros n after. by exists (o_counters page1), 3000000000, false.
Qed.

Lemma journal_sound : sound_journal 9 7 GENESIS_HASH journal.
Proof.
  split.
  - intros n m Hnm. unfold journal. destruct (Nat.ltb_spec n 12), (Nat.ltb_spec m 12); [done|by exists [denial2]|lia|done].
  - intros n. destruct (journal_cases n) as [-> | ->]; vm_compute; discriminate.
  - intros n. destruct (journal_cases n) as [-> | ->]; vm_compute; reflexivity.
  - intros n. destruct (journal_cases n) as [-> | ->]; repeat (constructor; [split_and!; vm_compute; reflexivity|]); constructor.
Qed.

Lemma request_fits : fitting_request 9 7 request fence GENESIS_HASH "capture" journal.
Proof.
  split; try (vm_compute; reflexivity); [done|]. split; [done|vm_compute; reflexivity].
Qed.

Lemma store_leased n d : d.(leases) = store.(leases) → memory_lease (env.(now_at) n) 9 7 fence d = Ok ().
Proof. intros Hd. unfold memory_lease. rewrite Hd. vm_compute. reflexivity. Qed.

Lemma store_guarded : guarded 9 7 GENESIS_HASH store.(leases) false store.
Proof.
  split; [|by exists (budget 1)|done]. exists sandbox. split_and!; [done|done|vm_compute; reflexivity| |done]. right. vm_compute. reflexivity.
Qed.

(** The watched guest is contained, and its incident completed. *)
Lemma cooperative_quarantine_completes_witness :
  is_ok (quarantine env 9 7 request (world store)).2 = true
  ∧ ∃ i, (quarantine env 9 7 request (world store)).1.(data).(guard_incidents) !! 7%N = Some i ∧ is_Some i.(completed_at).
Proof.
  destruct (cooperative_quarantine_completes env 9 7 request fence GENESIS_HASH "capture" journal false (world store)
    env_helpful journal_sound request_fits store_leased store_guarded eq_refl) as (Hok & _ & _ & i & c & p & n & Hi & Hc & _).
  split; [exact Hok|]. exists i. exact (conj Hi Hc).
Defined.

(** An incident of the same guest, with its cut and its capture as given. *)
Definition stored (cut pause : option Instant) (snapshot : option string) : GuardIncident :=
  with_stages incident cut pause None None snapshot incident.(in_events) incident.(event_sequence) incident.(event_head) [] "".
Definition holding (i : GuardIncident) : World := world (set_guard_incidents {[ 7%N := i ]} store).

(** The guest was captured, released and is to be contained again: nothing is cut. *)
Lemma quarantine_after_release_cuts_nothing_witness :
  ∃ t, (quarantine env 9 7 request (holding (stored (Some 2100000000) (Some 2200000000) (Some "capture"%string)))).1.(acts) = t
    ∧ Forall (λ a, ¬ cuts_or_captures a) t.
Proof.
  destruct (quarantine_after_release_cuts_nothing env 9 7 request
    (holding (stored (Some 2100000000) (Some 2200000000) (Some "capture"%string))) _ eq_refl eq_refl
    (conj (ex_intro _ _ eq_refl) (ex_intro _ _ eq_refl))) as (t & Ht & Hf).
  exists t. exact (conj Ht Hf).
Defined.

(** The first cut failed and the capture succeeded: every later run leaves the incident open. *)
Lemma blocked_incident_never_completes_witness :
  ∃ i, (quarantine env 9 7 request (holding (stored None (Some 2200000000) (Some "capture"%string)))).1.(data).(guard_incidents) !! 7%N = Some i
    ∧ (late 2200000000 i ∨ oversized i).
Proof.
  destruct (blocked_incident_never_completes env 9 7 request (holding (stored None (Some 2200000000) (Some "capture"%string)))
    (stored None (Some 2200000000) (Some "capture"%string)) 2200000000) as (i & Hi & _ & Hl).
  - intros n now j Hin. by apply not_elem_of_nil in Hin.
  - intros n. cbn. lia.
  - reflexivity.
  - reflexivity.
  - left. split; [by split|]. split; [reflexivity|]. intros c [=].
  - exists i. exact (conj Hi Hl).
Defined.

(** A worker that refuses any policy but the one in force, and whose journal still holds a
    record of the policy before it. *)
Definition before : GuardEvent := with_hash {|
  timestamp := 1000000000; event_id := 1; sandbox_id := 7; tenant_id := 9; policy_hash := denial1.(current_hash); category := Dns;
  decision := Deny; reason := "DNS name denied"; destination := Some "a.example"%string; request_bytes := 10;
  response_bytes := 0; duration_ms := 2; previous_hash := GENESIS_HASH; current_hash := "" |}.
Definition remembers (n : nat) (f : GuardFence) (c : GuardControlCommand) : result CoreError.t GuardControlResponse :=
  match c with
  | CObserve h after =>
      if bool_decide (h = policy_hash before) then Err CoreError.Conflict
      else Ok (RObservation (page_of identity (o_counters page1) 3000000000 false [before] 0))
  | _ => Ok RUnit
  end.
Definition env' : Surroundings := {|
  now_at _ := 3000000000; id_at _ := 11%N; text_at _ := ""; fence_at _ := Ok fence; runtime_at _ := Ok ();
  worker_at := remembers; others_at _ := []; notifier_at _ := None |}.

Lemma earlier_policy_blocks_containment_witness :
  is_ok (quarantine env' 9 7 request (world store)).2 = false
  ∧ (quarantine env' 9 7 request (world store)).1.(data).(guard_incidents) !! 7%N = None.
Proof.
  destruct (earlier_policy_blocks_containment env' 9 7 request (world store)) as [(Hf & Hn & _) _].
  - intros n f h after r. cbn [worker_at env' remembers]. case_bool_decide as Hh; [discriminate|]. intros [= <-].
    exists before. split; [by apply list_elem_of_singleton|]. intros E. by apply Hh.
  - intros n now i Hin. by apply not_elem_of_nil in Hin.
  - reflexivity.
  - exact (conj Hf Hn).
Defined.

End SampleQuarantine.
