(* ===== verification/Remote.v ===== *)
(** * Remote: the second copy of the event stream

    [crates/aiec-guard/src/events/remote.rs]: the bounded queue behind the journal, the
    worker that delivers its records in batches, and the HTTPS sink; and the call in
    [events/file.rs] that offers a durable record to the queue.

    The queue, its worker and the journal run concurrently: a [Remote] is their shared
    state, an [Event] one thing one of them does, and [step] what it does.  What a sink
    answers is an argument of the attempt; [SinkLaws] is what the trait asks of a sink and
    is proved of the HTTPS sink, whose endpoint answers anything at all ([Exchange]).  The
    JSON of a record is [Journal]'s, that of an acknowledgement an argument ([AckJson]).
    Sending a record to the queue and counting it are one step, though another thread may
    read the counters in between.  The configuration of the HTTP client is not modelled. *)

From S2P Require Import Prelude Events Journal.

Definition MAX_ACK_BYTES : Z := 4096.

Definition len {A} (l : list A) : Z := Z.of_nat (length l).

Record RemoteAck := { accepted : Z; head_hash : string; request_id : option string }.

(** The acknowledgement a correct remote returns. *)
Definition for_batch (batch : list GuardEvent) : option RemoteAck :=
  e ← last batch; Some {| accepted := len batch; head_hash := e.(current_hash); request_id := None |}.

(** ** The HTTPS sink *)
Record AckWire := { w_accepted : Z; w_head_hash : string; w_request_id : option string }.
Class AckJson := ack_from_slice : list Byte → option AckWire.

(** What comes back from one request: nothing, or a status and the chunks of a body, of
    which one may fail to arrive. *)
Inductive Exchange :=
| Unreachable
| Response (status : Z) (chunks : list (option (list Byte))).

Section Sink.
Context `{Json, AckJson}.

Fixpoint read_bounded (body : list Byte) (chunks : list (option (list Byte))) : result GuardError.t (list Byte) :=
  match chunks with
  | [] => Ok body
  | None :: _ => Err GuardError.Unavailable
  | Some chunk :: chunks =>
      bail_if MAX_ACK_BYTES <? len body + len chunk with GuardError.Unavailable;
      read_bounded (body ++ chunk) chunks
  end.

Definition parse_ack (body : list Byte) (batch : list GuardEvent) : result GuardError.t RemoteAck :=
  let? wire := ok_or (ack_from_slice body) GuardError.Integrity in
  let? expected := ok_or (current_hash <$> last batch) GuardError.Denied in
  bail_if negb (is_sha256_hex wire.(w_head_hash)) with GuardError.Integrity;
  bail_if negb (wire.(w_accepted) =? len batch) with GuardError.Integrity;
  bail_if negb (bool_decide (wire.(w_head_hash) = expected)) with GuardError.Integrity;
  Ok {| accepted := wire.(w_accepted); head_hash := wire.(w_head_hash); request_id := wire.(w_request_id) |}.

(** [windows(2)]: each record names the one before it. *)
Fixpoint chained (batch : list GuardEvent) : bool :=
  match batch with
  | e :: ((f :: _) as batch) => bool_decide (e.(current_hash) = f.(previous_hash)) && chained batch
  | _ => true
  end.

Fixpoint ndjson (batch : list GuardEvent) : result GuardError.t (list Byte) :=
  match batch with
  | [] => Ok []
  | e :: batch =>
      let? line := ok_or (to_vec e) GuardError.Json in
      bail_if MAX_LINE_BYTES <? len line + 1 with GuardError.Denied;
      let? body := ndjson batch in
      Ok (line ++ [newline] ++ body)
  end.

(** The body a batch is sent as. *)
Definition prepared (max_batch_events : Z) (batch : list GuardEvent) : result GuardError.t (list Byte) :=
  bail_if bool_decide (batch = []) || (max_batch_events <? len batch) with GuardError.Denied;
  bail_if negb (chained batch) with GuardError.Integrity;
  ndjson batch.

Definition is_success (status : Z) : bool := (200 <=? status) && (status <? 300).

Definition deliver (max_batch_events : Z) (x : Exchange) (batch : list GuardEvent) : result GuardError.t RemoteAck :=
  let? _ := prepared max_batch_events batch in
  match x with
  | Unreachable => Err GuardError.Unavailable
  | Response status chunks =>
      bail_if negb (is_success status) with GuardError.Unavailable;
      let? body := read_bounded [] chunks in
      parse_ack body batch
  end.

End Sink.

(** ** The queue *)
Record RemoteQueueConfig := { capacity : Z; max_batch_events : Z; max_attempts : Z }.
Definition default_queue : RemoteQueueConfig := {| capacity := 1024; max_batch_events := 64; max_attempts := 3 |}.

(** The last failure an operator reads: the sink's, or the queue's own. *)
Inductive LastError := SinkFailed (e : GuardError.t) | QueueRefused.

Record RemoteStats := {
  queued : Z; delivered_events : Z; delivered_batches : Z; failed_attempts : Z; undelivered_events : Z;
  unqueued_events : Z; consecutive_failures : Z; last_acknowledged_hash : option string; last_error : option LastError }.
Definition no_stats : RemoteStats := {|
  queued := 0; delivered_events := 0; delivered_batches := 0; failed_attempts := 0; undelivered_events := 0;
  unqueued_events := 0; consecutive_failures := 0; last_acknowledged_hash := None; last_error := None |}.

(** [AtomicU64::fetch_add] wraps around. *)
Definition fetch_add (a n : Z) : Z := (a + n) mod 2 ^ 64.

Definition count_queued (s : RemoteStats) : RemoteStats := {|
  queued := fetch_add s.(queued) 1; delivered_events := s.(delivered_events); delivered_batches := s.(delivered_batches);
  failed_attempts := s.(failed_attempts); undelivered_events := s.(undelivered_events);
  unqueued_events := s.(unqueued_events); consecutive_failures := s.(consecutive_failures);
  last_acknowledged_hash := s.(last_acknowledged_hash); last_error := s.(last_error) |}.
Definition count_unqueued (s : RemoteStats) : RemoteStats := {|
  queued := s.(queued); delivered_events := s.(delivered_events); delivered_batches := s.(delivered_batches);
  failed_attempts := s.(failed_attempts); undelivered_events := s.(undelivered_events);
  unqueued_events := fetch_add s.(unqueued_events) 1; consecutive_failures := s.(consecutive_failures);
  last_acknowledged_hash := s.(last_acknowledged_hash); last_error := Some QueueRefused |}.
Definition count_delivered (n : Z) (head : string) (s : RemoteStats) : RemoteStats := {|
  queued := s.(queued); delivered_events := fetch_add s.(delivered_events) n;
  delivered_batches := fetch_add s.(delivered_batches) 1; failed_attempts := s.(failed_attempts);
  undelivered_events := s.(undelivered_events); unqueued_events := s.(unqueued_events); consecutive_failures := 0;
  last_acknowledged_hash := Some head; last_error := None |}.
Definition count_failed (e : GuardError.t) (s : RemoteStats) : RemoteStats := {|
  queued := s.(queued); delivered_events := s.(delivered_events); delivered_batches := s.(delivered_batches);
  failed_attempts := fetch_add s.(failed_attempts) 1; undelivered_events := s.(undelivered_events);
  unqueued_events := s.(unqueued_events); consecutive_failures := s.(consecutive_failures);
  last_acknowledged_hash := s.(last_acknowledged_hash); last_error := Some (SinkFailed e) |}.
Definition count_undelivered (n : Z) (s : RemoteStats) : RemoteStats := {|
  queued := s.(queued); delivered_events := s.(delivered_events); delivered_batches := s.(delivered_batches);
  failed_attempts := s.(failed_attempts); undelivered_events := fetch_add s.(undelivered_events) n;
  unqueued_events := s.(unqueued_events); consecutive_failures := fetch_add s.(consecutive_failures) 1;
  last_acknowledged_hash := s.(last_acknowledged_hash); last_error := s.(last_error) |}.

(** Where the worker is: waiting for a record, filling a batch, at an attempt, asleep after
    a failed one, at its end, or gone in a panic of the sink. *)
Inductive Worker :=
| Receiving
| Batching (batch : list GuardEvent)
| Delivering (batch : list GuardEvent) (attempt : Z)
| Asleep (batch : list GuardEvent) (attempt millis : Z)
| Stopped
| Panicked.

Record Remote := {
  config : RemoteQueueConfig; waiting : list GuardEvent; open_ : bool (** the sender is alive *);
  worker : Worker; stats : RemoteStats }.

Definition set_worker (w : Worker) (r : Remote) : Remote := {|
  config := r.(config); waiting := r.(waiting); open_ := r.(open_); worker := w; stats := r.(stats) |}.
Definition set_stats (s : RemoteStats) (r : Remote) : Remote := {|
  config := r.(config); waiting := r.(waiting); open_ := r.(open_); worker := r.(worker); stats := s |}.
Definition set_waiting (l : list GuardEvent) (r : Remote) : Remote := {|
  config := r.(config); waiting := l; open_ := r.(open_); worker := r.(worker); stats := r.(stats) |}.

Definition start (c : RemoteQueueConfig) : result GuardError.t Remote :=
  bail_if (c.(capacity) =? 0) || (65536 <? c.(capacity)) with GuardError.Denied;
  bail_if (c.(max_batch_events) =? 0) || (1024 <? c.(max_batch_events)) with GuardError.Denied;
  bail_if (c.(max_attempts) =? 0) || (10 <? c.(max_attempts)) with GuardError.Denied;
  Ok {| config := c; waiting := []; open_ := true; worker := Receiving; stats := no_stats |}.

(** A channel whose receiver is gone refuses like a full one. *)
Definition receiver_gone (w : Worker) : bool := match w with Stopped | Panicked => true | _ => false end.

Definition takes (r : Remote) : bool := negb (receiver_gone r.(worker)) && (len r.(waiting) <? r.(config).(capacity)).

Definition enqueue (e : GuardEvent) (r : Remote) : Remote :=
  if takes r then set_stats (count_queued r.(stats)) (set_waiting (r.(waiting) ++ [e]) r)
  else set_stats (count_unqueued r.(stats)) r.

(** [Duration::from_millis] of the wait after attempt [attempt]. *)
Definition backoff (attempt : Z) : Z := Z.min (Z.min u64_max (50 * Z.shiftl 1 (Z.min attempt 5))) 2000.

(** ** The worker *)
(** The outer loop: a record, or the end of the channel. *)
Definition recv (r : Remote) : option Remote :=
  match r.(waiting) with
  | first :: l => Some (set_worker (Batching [first]) (set_waiting l r))
  | [] => if r.(open_) then None else Some (set_worker Stopped r)
  end.

(** The inner loop: what is queued already, up to the size of a batch. *)
Definition fill (batch : list GuardEvent) (r : Remote) : Remote :=
  if len batch <? r.(config).(max_batch_events) then
    match r.(waiting) with
    | next :: l => set_worker (Batching (batch ++ [next])) (set_waiting l r)
    | [] => set_worker (Delivering batch 0) r
    end
  else set_worker (Delivering batch 0) r.

(** One attempt of [deliver_batch]. *)
Definition attempted (batch : list GuardEvent) (attempt : Z) (answer : result GuardError.t RemoteAck) (r : Remote) : Remote :=
  match answer with
  | Ok ack => set_worker Receiving (set_stats (count_delivered (len batch) ack.(head_hash) r.(stats)) r)
  | Err e =>
      let r := set_stats (count_failed e r.(stats)) r in
      if attempt + 1 <? r.(config).(max_attempts) then set_worker (Asleep batch attempt (backoff attempt)) r
      else set_worker Receiving (set_stats (count_undelivered (len batch) r.(stats)) r)
  end.

(** [deliver] panicked: the task and the receiver are dropped. *)
Definition panicked (r : Remote) : Remote := set_worker Panicked (set_waiting [] r).

(** ** Runs *)
Inductive Event (X : Type) :=
| Offer (e : GuardEvent)
| Work
| Answer (x : option X) (** [None]: the sink panics *)
| Shutdown.
Arguments Offer {X} e.
Arguments Work {X}.
Arguments Answer {X} x.
Arguments Shutdown {X}.

(** What a run shows: records the queue took or refused, batches that were settled, and what
    a panic of the sink took with it. *)
Inductive Note :=
| Took (e : GuardEvent)
| Refused (e : GuardEvent)
| Delivered (batch : list GuardEvent) (head : string)
| Dropped (batch : list GuardEvent)
| Lost (events : list GuardEvent).

Section Runs.
Context {X : Type} (sink : X → list GuardEvent → result GuardError.t RemoteAck).

Definition work (r : Remote) : option Remote :=
  match r.(worker) with
  | Receiving => recv r
  | Batching batch => Some (fill batch r)
  | Asleep batch attempt _ => Some (set_worker (Delivering batch (attempt + 1)) r)
  | _ => None
  end.

Definition settled (batch : list GuardEvent) (attempt : Z) (answer : result GuardError.t RemoteAck) (r : Remote) : list Note :=
  match answer with
  | Ok ack => [Delivered batch ack.(head_hash)]
  | Err _ => if attempt + 1 <? r.(config).(max_attempts) then [] else [Dropped batch]
  end.

Definition step (l : Event X) (r : Remote) : option (Remote * list Note) :=
  match l with
  | Offer e => if r.(open_) then Some (enqueue e r, [if takes r then Took e else Refused e]) else None
  | Work => r' ← work r; Some (r', [])
  | Answer x =>
      match r.(worker), x with
      | Delivering batch attempt, Some x =>
          Some (attempted batch attempt (sink x batch) r, settled batch attempt (sink x batch) r)
      | Delivering batch _, None => Some (panicked r, [Lost (batch ++ r.(waiting))])
      | _, _ => None
      end
  | Shutdown =>
      if r.(open_) then
        Some ({| config := r.(config); waiting := r.(waiting); open_ := false; worker := r.(worker); stats := r.(stats) |}, [])
      else None
  end.

Fixpoint run (ls : list (Event X)) (r : Remote) : option (Remote * list Note) :=
  match ls with
  | [] => Some (r, [])
  | l :: ls => '(r, n) ← step l r; '(r, ns) ← run ls r; Some (r, n ++ ns)
  end.

End Runs.

(** What the trait asks of a sink: an acknowledgement confirms the whole batch by the hash
    of its last record. *)
Class SinkLaws {X} (sink : X → list GuardEvent → result GuardError.t RemoteAck) : Prop :=
  sink_confirms x batch ack : sink x batch = Ok ack → Some ack.(head_hash) = current_hash <$> last batch.

(** ** What a run has done *)
Definition taken_by (n : Note) : option GuardEvent := match n with Took e => Some e | _ => None end.
Definition refused_by (n : Note) : option GuardEvent := match n with Refused e => Some e | _ => None end.
Definition delivered_by (n : Note) : option (list GuardEvent) := match n with Delivered b _ => Some b | _ => None end.
Definition dropped_by (n : Note) : option (list GuardEvent) := match n with Dropped b => Some b | _ => None end.
Definition settled_by (n : Note) : option (list GuardEvent) := match n with Delivered b _ | Dropped b => Some b | _ => None end.

Definition lost_by (n : Note) : option (list GuardEvent) := match n with Lost l => Some l | _ => None end.

Definition in_flight (w : Worker) : list GuardEvent :=
  match w with Batching b | Delivering b _ | Asleep b _ _ => b | _ => [] end.

(** The records the queue took are, in order, those of the settled batches, those lost in a
    panic, the batch at hand and the queue; the counters count them. *)
Record accounted (ns : list Note) (r : Remote) : Prop := {
  a_order : omap taken_by ns = concat (omap settled_by ns) ++ concat (omap lost_by ns) ++ in_flight r.(worker) ++ r.(waiting);
  a_lost : r.(worker) ≠ Panicked → omap lost_by ns = [];
  a_queued : r.(stats).(queued) = len (omap taken_by ns) mod 2 ^ 64;
  a_unqueued : r.(stats).(unqueued_events) = len (omap refused_by ns) mod 2 ^ 64;
  a_delivered : r.(stats).(delivered_events) = len (concat (omap delivered_by ns)) mod 2 ^ 64;
  a_undelivered : r.(stats).(undelivered_events) = len (concat (omap dropped_by ns)) mod 2 ^ 64;
  a_head : r.(stats).(last_acknowledged_hash) = current_hash <$> last (concat (omap delivered_by ns)) }.

Record bounded (r : Remote) : Prop := {
  b_config : 0 < r.(config).(capacity) ∧ 0 < r.(config).(max_batch_events) ∧ 0 < r.(config).(max_attempts);
  b_waiting : len r.(waiting) ≤ r.(config).(capacity);
  b_batch : len (in_flight r.(worker)) ≤ r.(config).(max_batch_events);
  b_nonempty : match r.(worker) with Batching b | Delivering b _ | Asleep b _ _ => b ≠ [] | _ => True end;
  b_stopped : r.(worker) = Stopped → r.(waiting) = [];
  b_attempt : match r.(worker) with
              | Delivering _ a => 0 ≤ a < r.(config).(max_attempts)
              | Asleep _ a _ => 0 ≤ a ∧ a + 1 < r.(config).(max_attempts)
              | _ => True
              end }.

Lemma len_app {A} (l k : list A) : len (l ++ k) = len l + len k.
Proof. unfold len. rewrite length_app. lia. Qed.

Lemma fetch_add_count {A} (l k : list A) : fetch_add (len l mod 2 ^ 64) (len k) = len (l ++ k) mod 2 ^ 64.
Proof. unfold fetch_add. by rewrite len_app, Zplus_mod_idemp_l. Qed.

Lemma concat_snoc {A} (ls : list (list A)) l : concat (ls ++ [l]) = concat ls ++ l.
Proof. rewrite concat_app. cbn. by rewrite app_nil_r. Qed.

Lemma last_nonempty_app {A} (l k : list A) : k ≠ [] → last (l ++ k) = last k.
Proof. intros Hk. rewrite last_app. destruct (last k) eqn:E; [done|]. by apply last_None in E. Qed.

Ltac bounds := split; cbn in *; unfold len in *; rewrite ?length_app; cbn in *; try done; try lia.

Section Accounting.
Context {X : Type} (sink : X → list GuardEvent → result GuardError.t RemoteAck) `{!SinkLaws sink}.

Lemma step_bounded l r r' n : bounded r → step sink l r = Some (r', n) → bounded r'.
Proof.
  intros [Hc Hw Hb Hn Hst Ha] Hs. destruct r as [c w o k st]. cbn in *. destruct l as [e| |x|]; cbn in Hs.
  - destruct o; [|done]. simplify_eq. unfold enqueue. destruct (takes _) eqn:Ht; [|by split]. unfold takes in Ht. cbn in Ht. bools. bounds. by intros ->.
  - rewrite bind_Some in Hs. destruct Hs as (r0 & Hwk & [= <- <-]). destruct k as [|b|b a|b a m| |]; cbn in Hwk; simplify_eq; try done.
    + unfold recv in Hwk. cbn in Hwk. destruct w as [|e w]; [destruct o; simplify_eq; bounds|]. simplify_eq. bounds.
    + unfold fill. cbn. destruct (Z.ltb_spec (len b) (max_batch_events c)); [destruct w as [|e w]|]; bounds. by destruct b.
    + bounds.
  - destruct k as [|b|b a|b a m| |]; try done. destruct x as [x|]; simplify_eq; [|bounds].
    unfold attempted. destruct (sink x b) as [ack|e]; [bounds|]. cbn. destruct (Z.ltb_spec (a + 1) (max_attempts c)); bounds.
  - destruct o; simplify_eq. by split.
Qed.

Lemma step_accounted l r r' n ns : bounded r → accounted ns r → step sink l r = Some (r', n) → accounted (ns ++ n) r'.
Proof using All.
  intros Hb [Ho Hlo Hq Hu Hd Hx Hh] Hs. pose proof (b_nonempty _ Hb) as Hne. destruct r as [c w o k st]. cbn in *. destruct l as [e| |x|]; cbn in Hs.
  - destruct o; [|done]. simplify_eq. unfold enqueue. destruct (takes _) eqn:Ht.
    + split; rewrite ?omap_app; cbn -[fetch_add]; rewrite ?app_nil_r; try done.
      * rewrite Ho. by rewrite <-!(assoc_L (++)).
      * rewrite Hq. apply (fetch_add_count _ [e]).
    + split; rewrite ?omap_app; cbn -[fetch_add]; rewrite ?app_nil_r; try done. rewrite Hu. apply (fetch_add_count _ [e]).
  - rewrite bind_Some in Hs. destruct Hs as (r0 & Hw & [= <- <-]). rewrite app_nil_r.
    destruct k as [|b|b a|b a m| |]; cbn in Hw; simplify_eq; try done; specialize (Hlo ltac:(done)); rewrite Hlo in Ho; cbn in Ho.
    + unfold recv in Hw. cbn in Hw. destruct w as [|e w]; [destruct o; simplify_eq|]; simplify_eq; split; cbn; rewrite ?Hlo; done.
    + unfold fill. cbn. destruct (len b <? _); [destruct w as [|e w]|]; split; cbn; rewrite ?Hlo; try done.
      cbn. rewrite Ho. by rewrite <-!(assoc_L (++)).
    + split; cbn; rewrite ?Hlo; done.
  - destruct k as [|b|b a|b a m| |]; try done. specialize (Hlo ltac:(done)). rewrite Hlo in Ho. cbn in Ho. destruct x as [x|]; simplify_eq.
    2:{ split; rewrite ?omap_app, ?Hlo; cbn; rewrite ?app_nil_r; done. }
    unfold attempted, settled in *. cbn in *. destruct (sink x b) as [ack|e] eqn:E.
    + apply (sink_confirms x b ack) in E. split; rewrite ?omap_app, ?Hlo; cbn -[fetch_add]; rewrite ?app_nil_r; try done.
      * by rewrite concat_snoc, <-(assoc_L (++)).
      * rewrite concat_snoc, Hd. apply fetch_add_count.
      * by rewrite concat_snoc, last_nonempty_app.
    + destruct (a + 1 <? _); [rewrite app_nil_r; split; cbn; rewrite ?Hlo; done|]. split; rewrite ?omap_app, ?Hlo; cbn -[fetch_add]; rewrite ?app_nil_r; try done.
      * by rewrite concat_snoc, <-(assoc_L (++)).
      * rewrite concat_snoc, Hx. apply fetch_add_count.
  - destruct o; simplify_eq. rewrite app_nil_r. by split.
Qed.

End Accounting.

Section Reached.
Context {X : Type} (sink : X → list GuardEvent → result GuardError.t RemoteAck) `{!SinkLaws sink}.

Lemma start_ok c r : 0 ≤ c.(capacity) → 0 ≤ c.(max_batch_events) → 0 ≤ c.(max_attempts) → start c = Ok r → bounded r ∧ accounted [] r.
Proof.
  intros Hc Hb Ha Hs. unfold start in Hs. ok_inv Hs. injection Hs as <-. bools. split; [bounds|by split].
Qed.

Lemma run_accounted ls r r' ns n : bounded r → accounted ns r → run sink ls r = Some (r', n) → bounded r' ∧ accounted (ns ++ n) r'.
Proof using All.
  revert r ns n. induction ls as [|l ls IH]; intros r ns n Hb Ha Hr; cbn in Hr; [simplify_eq; by rewrite app_nil_r|].
  rewrite bind_Some in Hr. destruct Hr as ([r1 n1] & Hs & Hr). rewrite bind_Some in Hr. destruct Hr as ([r2 n2] & Hr & [= <- <-]).
  rewrite (assoc_L (++)). eapply IH; [by eapply step_bounded|by eapply step_accounted|done].
Qed.

Lemma run_app ls ks r : run sink (ls ++ ks) r = ('(r1, n1) ← run sink ls r; '(r2, n2) ← run sink ks r1; Some (r2, n1 ++ n2)).
Proof.
  revert r. induction ls as [|l ls IH]; intros r; cbn.
  - by destruct (run sink ks r) as [[]|].
  - destruct (step sink l r) as [[r1 n1]|]; [|done]. cbn. rewrite IH. destruct (run sink ls r1) as [[r2 n2]|]; [|done]. cbn.
    destruct (run sink ks r2) as [[r3 n3]|]; [|done]. cbn. by rewrite (assoc_L (++)).
Qed.

(** ** The end of a run *)
(** A bound on what the worker still does once nothing is offered any more. *)
Definition todo (r : Remote) : Z :=
  let a := r.(config).(max_attempts) in
  (2 * a + 3) * len r.(waiting)
  + match r.(worker) with
    | Receiving => 1
    | Batching _ => 2 * a + 2
    | Delivering _ k => 2 * (a - k) + 1
    | Asleep _ k _ => 2 * (a - k)
    | Stopped | Panicked => 0
    end.

Lemma todo_nonneg r : bounded r → 0 ≤ todo r.
Proof. intros [Hc _ _ _ _ Ha]. unfold todo, len. destruct r.(worker); nia. Qed.

Lemma step_todo l r r' n : bounded r → r.(open_) = false → step sink l r = Some (r', n) → todo r' < todo r ∧ r'.(open_) = false.
Proof.
  intros [Hc Hw Hb Hn Hst Ha] Ho Hs. destruct r as [c w o k st]. cbn in *. subst o. destruct l as [e| |x|]; cbn in Hs; try done.
  - rewrite bind_Some in Hs. destruct Hs as (r0 & Hwk & [= <- <-]). destruct k as [|b|b a|b a m| |]; cbn in Hwk; simplify_eq; try done.
    + unfold recv in Hwk. cbn in Hwk. destruct w as [|e w]; simplify_eq; unfold todo, len; cbn; (split; [nia|done]).
    + unfold fill. cbn. destruct (len b <? _); [destruct w as [|e w]|]; unfold todo, len; cbn; (split; [nia|done]).
    + unfold todo, len; cbn; (split; [nia|done]).
  - destruct k as [|b|b a|b a m| |]; try done. destruct x as [x|]; simplify_eq; [|unfold todo, len; cbn; (split; [nia|done])].
    unfold attempted. destruct (sink x b) as [ack|e]; [unfold todo, len; cbn; (split; [nia|done])|]. cbn.
    destruct (a + 1 <? _); unfold todo, len; cbn; (split; [nia|done]).
Qed.

Lemma run_todo ls r r' ns : bounded r → r.(open_) = false → run sink ls r = Some (r', ns) → len ls + todo r' ≤ todo r.
Proof.
  revert r ns. induction ls as [|l ls IH]; intros r ns Hb Ho Hr; cbn in Hr; [simplify_eq; unfold len; cbn; lia|].
  rewrite bind_Some in Hr. destruct Hr as ([r1 n1] & Hs & Hr). rewrite bind_Some in Hr. destruct Hr as ([r2 n2] & Hr & [= <- <-]).
  destruct (step_todo _ _ _ _ Hb Ho Hs) as [Hlt Ho']. specialize (IH _ _ (step_bounded _ _ _ _ _ Hb Hs) Ho' Hr).
  unfold len in *. cbn [length]. lia.
Qed.

Lemma step_enabled x r : bounded r → r.(open_) = false → receiver_gone r.(worker) = false →
  is_Some (step sink Work r) ∨ is_Some (step sink (Answer (Some x)) r).
Proof.
  intros Hb Ho Hg. destruct r as [c w o k st]. cbn in *. subst o. destruct k as [|b|b a|b a m| |]; try done; try (left; by eexists); [|right; by eexists].
  left. cbn. unfold recv. cbn. destruct w; by eexists.
Qed.

End Reached.

(** ** The HTTPS sink keeps the trait's promise *)
Lemma parse_ack_ok `{AckJson} body batch ack : parse_ack body batch = Ok ack →
  ack.(accepted) = len batch ∧ Some ack.(head_hash) = current_hash <$> last batch.
Proof.
  intros Hp. unfold parse_ack in Hp. ok_inv Hp. bools. injection Hp as <-. cbn [accepted head_hash].
  split; [by apply Z.eqb_eq|]. unfold ok_or in *. destruct (current_hash <$> last batch); simplify_eq. done.
Qed.

Lemma deliver_ok `{Json, AckJson} m x batch ack : deliver m x batch = Ok ack →
  (∃ body status chunks, prepared m batch = Ok body ∧ x = Response status chunks ∧ is_success status = true)
  ∧ ack.(accepted) = len batch ∧ Some ack.(head_hash) = current_hash <$> last batch.
Proof.
  intros Hd. unfold deliver in Hd. ok_inv Hd. destruct x as [|status chunks]; [done|]. ok_inv Hd.
  split; [|by apply parse_ack_ok in Hd]. bools. by eexists _, status, chunks.
Qed.

#[global] Instance deliver_laws `{Json, AckJson} m : SinkLaws (deliver m).
Proof. intros x batch ack Hd. by apply deliver_ok in Hd as (_ & _ & ?). Qed.

(** A batch with a gap is refused whatever the endpoint would answer. *)
Lemma gap_refused `{Json, AckJson} m x batch : chained batch = false → is_ok (deliver m x batch) = false.
Proof. intros Hc. unfold deliver, prepared. rewrite Hc. by destruct (_ || _). Qed.

Lemma chained_app es fs : chained (es ++ fs) = true → chained es = true ∧ chained fs = true.
Proof.
  induction es as [|e es IH]; [by split|]. destruct es as [|e' es]; cbn -[chained].
  - destruct fs as [|f fs]; [by split|]. cbn. intros [_ Hf]%andb_true_iff. by split.
  - intros Hc. change (bool_decide (e.(current_hash) = e'.(previous_hash)) && chained (e' :: es ++ fs) = true) in Hc.
    apply andb_true_iff in Hc as [He Hc]. destruct (IH Hc) as [Hes Hfs]. split; [|done].
    change (bool_decide (e.(current_hash) = e'.(previous_hash)) && chained (e' :: es) = true). by rewrite He, Hes.
Qed.

Lemma verified_chained `{Host} h es : verify_from h es = Ok () → chained es = true.
Proof.
  revert h. induction es as [|e es IH]; intros h Hv; [done|]. cbn [verify_from] in Hv. ok_inv Hv. bools. pose proof (IH _ Hv) as Hc.
  destruct es as [|f es]; [done|]. cbn [verify_from] in Hv. ok_inv Hv. bools. cbn -[chained]. 
  change (bool_decide (e.(current_hash) = f.(previous_hash)) && chained (f :: es) = true). rewrite Hc. by rewrite bool_decide_eq_true_2.
Qed.

(** ** The journal and its copy *)
Definition offered_by (n : Note) : option GuardEvent := match n with Took e | Refused e => Some e | _ => None end.

Section Mirror.
Context `{Host, Json} {X : Type} (sink : X → list GuardEvent → result GuardError.t RemoteAck).

(** An append with a remote attached: the record is offered while the lock is held, once it
    is durable. *)
Definition append_mirrored (io : WriteOutcome) (fsync : bool) (now : Instant) (id : Uuid) (i : EventInput) (j : Journal) (r : Remote)
    : Journal * Remote * result GuardError.t GuardEvent :=
  match append_locked io fsync now id i j with
  | (j, Ok e) => (j, enqueue e r, Ok e)
  | (j, Err x) => (j, r, Err x)
  end.

Inductive Move :=
| Append (io : WriteOutcome) (fsync : bool) (now : Instant) (id : Uuid) (i : EventInput)
| Beside (l : Event X) (** anything but an offer *).

Definition requested (m : Move) : option (Instant * Uuid * EventInput) :=
  match m with Append _ _ now id i => Some (now, id, i) | Beside _ => None end.

(** A run of the journal and its copy, whatever the file system answers: the records the
    journal acknowledged and what the copy shows. *)
Fixpoint mirrored (ms : list Move) (j : Journal) (r : Remote) : option (Journal * Remote * list GuardEvent * list Note) :=
  match ms with
  | [] => Some (j, r, [], [])
  | Append io fsync now id i :: ms =>
      if negb r.(open_) then None
      else
        let took := takes r in
        match append_mirrored io fsync now id i j r with
        | (j, r, Ok e) =>
            '(j, r, es, ns) ← mirrored ms j r; Some (j, r, e :: es, (if took then Took e else Refused e) :: ns)
        | (j, r, Err _) => mirrored ms j r
        end
  | Beside (Offer _) :: _ => None
  | Beside l :: ms => '(r, n) ← step sink l r; '(j, r, es, ns) ← mirrored ms j r; Some (j, r, es, n ++ ns)
  end.

Lemma step_offers l r r' n : step sink l r = Some (r', n) → (∀ e, l ≠ Offer e) → omap offered_by n = [].
Proof.
  intros Hs Hl. destruct l as [e| |x|]; [by destruct (Hl e)| | |]; cbn in Hs.
  - rewrite bind_Some in Hs. by destruct Hs as (r0 & _ & [= <- <-]).
  - destruct r.(worker) as [|b|b a|b a m| |]; try done. destruct x as [x|]; simplify_eq; [|done]. unfold settled. by repeat case_match.
  - destruct r.(open_); by simplify_eq.
Qed.

Lemma mirrored_run ms j r j' r' es ns : mirrored ms j r = Some (j', r', es, ns) →
  (∃ ls, run sink ls r = Some (r', ns)) ∧ omap offered_by ns = es.
Proof.
  revert j r es ns. induction ms as [|m ms IH]; intros j r es ns Hm; [cbn in Hm; simplify_eq; split; [by exists []|done]|].
  destruct m as [io fsync now id i|l].
  - cbn [mirrored] in Hm. destruct (open_ r) eqn:Ho; [|done]. cbn [negb] in Hm. unfold append_mirrored in Hm.
    destruct (append_locked io fsync now id i j) as [j1 [e|x]] eqn:Ha; [|by eapply IH].
    rewrite bind_Some in Hm. destruct Hm as ([[[j2 r2] es2] ns2] & Hm & [= <- <- <- <-]). destruct (IH _ _ _ _ Hm) as ([ls Hls] & He).
    split; [|by destruct (takes r); cbn; f_equal]. exists (Offer e :: ls). cbn. by rewrite Ho; cbn; rewrite Hls.
  - assert (Hl : ∀ e, l ≠ Offer e) by (intros e ->; done). assert (Hm' : ('(r, n) ← step sink l r; '(j, r, es, ns) ← mirrored ms j r; Some (j, r, es, n ++ ns)) = Some (j', r', es, ns)).
    { by destruct l; [done| | |]. }
    rewrite bind_Some in Hm'. destruct Hm' as ([r1 n1] & Hs & Hm'). rewrite bind_Some in Hm'. destruct Hm' as ([[[j2 r2] es2] ns2] & Hm' & [= <- <- <- <-]).
    destruct (IH _ _ _ _ Hm') as ([ls Hls] & He). split; [|by rewrite omap_app, (step_offers _ _ _ _ Hs Hl)].
    exists (l :: ls). cbn [run]. rewrite Hs. cbn. by rewrite Hls.
Qed.

End Mirror.

(** Whatever becomes of the file, the records a journal acknowledges chain in memory. *)
Lemma append_chains `{HostLaws, JsonLaws} io fsync now id i j j' a es : request_ok now id i →
  verify_from GENESIS_HASH es = Ok () → Forall representable es → j.(head) = head_of es →
  append_locked io fsync now id i j = (j', a) →
  let es' := match a with Ok e => es ++ [e] | Err _ => es end in
  verify_from GENESIS_HASH es' = Ok () ∧ Forall representable es' ∧ j'.(head) = head_of es'.
Proof.
  intros Hq Hv Hr Hh. unfold append_locked. destruct (prepare now id i j) as [[e record]|] eqn:Hp; [|by intros [= <- <-]].
  destruct io; [|by intros [= <- <-]]. destruct fsync; cbn [negb]; [|by intros [= <- <-]]. intros [= <- <-]. cbn.
  apply prepare_ok in Hp as (Hn & _). pose proof (new_representable _ _ _ _ _ Hq Hn) as Hre.
  apply new_previous in Hn as (Hprev & Hhash & _). rewrite Hh in Hprev.
  split_and!; [by apply verify_from_snoc|by apply Forall_app; split; [|apply Forall_singleton]|by rewrite head_of_snoc].
Qed.

Lemma mirrored_chains `{HostLaws, JsonLaws} {X} (sink : X → list GuardEvent → result GuardError.t RemoteAck) ms j r j' r' es0 es ns :
  Forall (λ '(now, id, i), request_ok now id i) (omap requested ms) →
  verify_from GENESIS_HASH es0 = Ok () → Forall representable es0 → j.(head) = head_of es0 →
  mirrored sink ms j r = Some (j', r', es, ns) →
  verify_from GENESIS_HASH (es0 ++ es) = Ok () ∧ Forall representable (es0 ++ es).
Proof.
  revert j r es0 es ns. induction ms as [|m ms IH]; intros j r es0 es ns Hq Hv Hr Hh Hm; [cbn in Hm; simplify_eq; by rewrite app_nil_r|].
  destruct m as [io fsync now id i|l].
  - cbn in Hq. apply Forall_cons in Hq as [Hq1 Hq]. cbn [mirrored] in Hm. destruct (open_ r); [|done]. cbn [negb] in Hm. unfold append_mirrored in Hm.
    destruct (append_locked io fsync now id i j) as [j1 a] eqn:Ha.
    destruct (append_chains _ _ _ _ _ _ _ _ es0 Hq1 Hv Hr Hh Ha) as (Hv1 & Hr1 & Hh1).
    destruct a as [e|x]; [|by eapply IH]. rewrite bind_Some in Hm. destruct Hm as ([[[j2 r2] es2] ns2] & Hm & [= <- <- <- <-]).
    rewrite (assoc_L (++) es0 [e] es2 : es0 ++ e :: es2 = (es0 ++ [e]) ++ es2). by eapply IH.
  - assert (Hm' : ('(r, n) ← step sink l r; '(j, r, es, ns) ← mirrored sink ms j r; Some (j, r, es, n ++ ns)) = Some (j', r', es, ns)).
    { by destruct l; [done| | |]. }
    rewrite bind_Some in Hm'. destruct Hm' as ([r1 n1] & Hs & Hm'). rewrite bind_Some in Hm'. destruct Hm' as ([[[j2 r2] es2] ns2] & Hm' & [= <- <- <- <-]).
    by eapply IH.
Qed.

Lemma settled_split (ns : list Note) :
  len (concat (omap settled_by ns)) = len (concat (omap delivered_by ns)) + len (concat (omap dropped_by ns)).
Proof. induction ns as [|n ns IH]; [done|]. destruct n; cbn; rewrite ?len_app; lia. Qed.

Lemma omap_none {A B} (f : A → option B) l x : omap f l = [] → x ∈ l → f x = None.
Proof.
  intros Ho Hx. destruct (f x) as [y|] eqn:E; [|done]. assert (Hy : y ∈ omap f l) by (apply list_elem_of_omap; eauto).
  rewrite Ho in Hy. by apply not_elem_of_nil in Hy.
Qed.

Lemma taken_all (ns : list Note) : omap refused_by ns = [] → omap taken_by ns = omap offered_by ns.
Proof.
  intros Hr. induction ns as [|n ns IH]; [done|]. destruct n as [e|e|b h|b|l]; cbn in *; [|done|by apply IH..]. f_equal. by apply IH.
Qed.

Lemma taken_offered (ns : list Note) e : e ∈ omap taken_by ns → e ∈ omap offered_by ns.
Proof. rewrite !list_elem_of_omap. intros (n & Hn & He). exists n. split; [done|]. destruct n; by simplify_eq/=. Qed.

Lemma elem_of_concat {A} (ls : list (list A)) x : x ∈ concat ls ↔ ∃ l, l ∈ ls ∧ x ∈ l.
Proof. rewrite list_elem_of_In, in_concat. by setoid_rewrite list_elem_of_In. Qed.

Lemma delivered_settled (ns : list Note) e : e ∈ concat (omap delivered_by ns) → e ∈ concat (omap settled_by ns).
Proof.
  rewrite !elem_of_concat. intros (b & Hb & He). exists b. split; [|done]. apply list_elem_of_omap in Hb as (n & Hn & Hd).
  apply list_elem_of_omap. exists n. split; [done|]. destruct n; by simplify_eq/=.
Qed.

Lemma stored_representable `{HostLaws, JsonLaws} es bytes : stored es bytes → Forall representable es.
Proof. induction 1; by constructor. Qed.

(** A record of a verified journal ends a prefix of it that is verified too. *)
Lemma chain_at `{HostLaws} es e : verify_from GENESIS_HASH es = Ok () → Forall representable es → e ∈ es →
  ∃ k, verify_from GENESIS_HASH (take k es) = Ok () ∧ Forall representable (take k es) ∧ head_of (take k es) = e.(current_hash)
    ∧ last (take k es) = Some e.
Proof.
  intros Hv Hr (i & Hi)%list_elem_of_lookup_1. exists (S i). rewrite (take_S_r _ _ e) by done. split_and!.
  - rewrite <-(take_drop (S i) es), (take_S_r _ _ e) in Hv by done. by apply verify_from_prefix in Hv.
  - apply Forall_app. split; [by apply Forall_take|]. apply Forall_singleton. rewrite Forall_lookup in Hr. by eapply Hr.
  - by rewrite head_of_snoc.
  - apply last_snoc.
Qed.

(** ** Theorems *)
Section Theorems.
Context `{HostLaws, JsonLaws} {X : Type} (sink : X → list GuardEvent → result GuardError.t RemoteAck) `{!SinkLaws sink}.

(** What a run of the journal and its copy comes to. *)
Lemma mirrored_reaches c r0 ms j r es ns :
  0 ≤ c.(capacity) → 0 ≤ c.(max_batch_events) → 0 ≤ c.(max_attempts) → start c = Ok r0 →
  Forall (λ '(now, id, i), request_ok now id i) (omap requested ms) → mirrored sink ms empty_journal r0 = Some (j, r, es, ns) →
  (verify_from GENESIS_HASH es = Ok () ∧ Forall representable es) ∧ bounded r ∧ accounted ns r ∧ omap offered_by ns = es.
Proof using All.
  intros Hc Hb Ha Hs Hq Hm. destruct (start_ok c r0 Hc Hb Ha Hs) as [Hb0 Ha0].
  pose proof (mirrored_chains sink ms empty_journal r0 j r [] es ns Hq eq_refl (Forall_nil_2 _) eq_refl Hm) as Hch.
  apply mirrored_run in Hm as ([ls Hls] & He). destruct (run_accounted sink ls r0 r [] ns Hb0 Ha0 Hls) as [Hbd Hac].
  split; [exact Hch|]. split; [exact Hbd|]. split; [exact Hac|exact He].
Qed.

End Theorems.

(** C13: the copy is the journal in order, and every record of it is accounted for.  In any
    interleaving of appends, whatever the file system answers them, worker steps, answers and
    panics of a sink that keeps the trait's promise, and a shutdown: what was offered to the
    queue is the acknowledged records; what the queue took is, in their order, the batches
    that were settled, what a panic of the sink took with it (nothing before one), the batch
    at hand and the queue; the counters count the records taken, refused, delivered and
    dropped, and none counts what a panic lost; the queue and the batch stay within their
    bounds; and while nothing was refused every batch is a run of consecutive records. *)
Theorem remote_copy_in_order `{HostLaws, JsonLaws} {X} (sink : X → list GuardEvent → result GuardError.t RemoteAck) `{!SinkLaws sink}
    c r0 ms j r es ns :
  0 ≤ c.(capacity) → 0 ≤ c.(max_batch_events) → 0 ≤ c.(max_attempts) → start c = Ok r0 →
  Forall (λ '(now, id, i), request_ok now id i) (omap requested ms) → mirrored sink ms empty_journal r0 = Some (j, r, es, ns) →
  omap offered_by ns = es
  ∧ omap taken_by ns = concat (omap settled_by ns) ++ concat (omap lost_by ns) ++ in_flight r.(worker) ++ r.(waiting)
  ∧ (r.(worker) ≠ Panicked → omap lost_by ns = [])
  ∧ r.(stats).(queued) = len (omap taken_by ns) mod 2 ^ 64 ∧ r.(stats).(unqueued_events) = len (omap refused_by ns) mod 2 ^ 64
  ∧ r.(stats).(delivered_events) = len (concat (omap delivered_by ns)) mod 2 ^ 64
  ∧ r.(stats).(undelivered_events) = len (concat (omap dropped_by ns)) mod 2 ^ 64
  ∧ len r.(waiting) ≤ r.(config).(capacity) ∧ len (in_flight r.(worker)) ≤ r.(config).(max_batch_events)
  ∧ (omap refused_by ns = [] → concat (omap settled_by ns) `prefix_of` es
      ∧ ∀ b, b ∈ omap settled_by ns → chained b = true).
Proof.
  intros Hc Hb Ha Hs Hq Hm. destruct (mirrored_reaches sink c r0 ms j r es ns Hc Hb Ha Hs Hq Hm) as ([Hv _] & [_ Hw Hbt _ _ _] & [Ho Hlo Hqu Hu Hd Hx _] & He).
  split_and!; try done. intros Hr. assert (Hp : concat (omap settled_by ns) `prefix_of` es).
  { rewrite <-He, <-(taken_all _ Hr), Ho. by eexists. }
  split; [done|]. intros b Hb'. pose proof (verified_chained _ _ Hv) as Hch. destruct Hp as [rest Hrest]. rewrite Hrest in Hch.
  apply chained_app in Hch as [Hch _]. apply list_elem_of_split in Hb' as (l1 & l2 & Hl). rewrite Hl, concat_app in Hch.
  apply chained_app in Hch as [_ Hch]. cbn in Hch. by apply chained_app in Hch as [Hch _].
Qed.

(** C24: the hash the remote last acknowledged anchors the journal.  It is the hash of one of
    its records, and any journal that verifies from genesis and still holds a record with
    that hash has the same records up to it, or SHA-256 collided or hashed a record to the
    genesis constant: removing, changing or reordering records before the anchor shows. *)
Theorem acknowledged_head_anchors_journal `{HostLaws, JsonLaws} {X} (sink : X → list GuardEvent → result GuardError.t RemoteAck)
    `{!SinkLaws sink} c r0 ms j r es ns h :
  0 ≤ c.(capacity) → 0 ≤ c.(max_batch_events) → 0 ≤ c.(max_attempts) → start c = Ok r0 →
  Forall (λ '(now, id, i), request_ok now id i) (omap requested ms) → mirrored sink ms empty_journal r0 = Some (j, r, es, ns) →
  r.(stats).(last_acknowledged_hash) = Some h →
  ∃ k e, last (take k es) = Some e ∧ e.(current_hash) = h ∧
    ∀ fs f, verify_from GENESIS_HASH fs = Ok () → Forall representable fs → f ∈ fs → f.(current_hash) = h →
      take k es `prefix_of` fs ∨ collision es fs ∨ genesis_preimage (es ++ fs).
Proof.
  intros Hc Hb Ha Hs Hq Hm Hh. destruct (mirrored_reaches sink c r0 ms j r es ns Hc Hb Ha Hs Hq Hm) as ([Hj Hr] & _ & Hac & He).
  rewrite (a_head _ _ Hac), fmap_Some in Hh. destruct Hh as (e & Hl & ->).
  assert (Hin : e ∈ es).
  { rewrite <-He. apply taken_offered. rewrite (a_order _ _ Hac). apply elem_of_app. left. apply delivered_settled.
    by apply last_Some_elem_of. }
  destruct (chain_at es e Hj Hr Hin) as (k & Hv & Hrk & Hhead & Hlast). exists k, e. split_and!; [done|done|].
  intros fs f Hvf Hrf Hf Hfh. destruct (chain_at fs f Hvf Hrf Hf) as (m & Hvm & Hrm & Hheadm & _).
  destruct (head_determines_chain _ _ Hrk Hrm Hv Hvm) as [Heq|[Hcol|[_ Hgen]]]; [by rewrite Hhead, Hheadm| | |].
  - left. rewrite Heq. exists (drop m fs). by rewrite take_drop.
  - right. left. apply (collision_app _ (drop k es) _ (drop m fs)) in Hcol. by rewrite !take_drop in Hcol.
  - right. right. destruct Hgen as (g & Hg & Hgg). exists g. split; [|done]. apply elem_of_app in Hg as [Hg|Hg]; apply elem_of_app; [left|right];
      by eapply elem_of_take in Hg as (? & Hg & _); eapply list_elem_of_lookup_2.
Qed.

(** after a shutdown the worker comes to an end and has settled every record.  From any
    state a run reaches with the sender dropped, a further run is at most [todo] steps long,
    the worker can go on until it has stopped or the sink has panicked, and once it has
    stopped the queue is empty and every record it took was delivered or dropped. *)
Theorem shutdown_settles_every_record {X} (sink : X → list GuardEvent → result GuardError.t RemoteAck) `{!SinkLaws sink} c r0 ls r ns :
  0 ≤ c.(capacity) → 0 ≤ c.(max_batch_events) → 0 ≤ c.(max_attempts) → start c = Ok r0 →
  run sink ls r0 = Some (r, ns) → r.(open_) = false →
  (∀ ks r' ns', run sink ks r = Some (r', ns') → len ks ≤ todo r)
  ∧ (∀ x, receiver_gone r.(worker) = false → is_Some (step sink Work r) ∨ is_Some (step sink (Answer (Some x)) r))
  ∧ (r.(worker) = Stopped → r.(waiting) = [] ∧ omap taken_by ns = concat (omap settled_by ns)
      ∧ r.(stats).(queued) = fetch_add r.(stats).(delivered_events) r.(stats).(undelivered_events)).
Proof.
  intros Hc Hb Ha Hs Hr Ho. destruct (start_ok c r0 Hc Hb Ha Hs) as [Hb0 Ha0].
  destruct (run_accounted sink ls r0 r [] ns Hb0 Ha0 Hr) as [Hbd Hac]. split_and!.
  - intros ks r' ns' Hk. pose proof (run_todo sink ks r r' ns' Hbd Ho Hk). destruct (run_accounted sink ks r r' ns ns' Hbd Hac Hk) as [Hbd' _].
    pose proof (todo_nonneg r' Hbd'). lia.
  - intros x Hg. by apply step_enabled.
  - intros Hw. pose proof (b_stopped _ Hbd Hw) as Hwait. pose proof (a_order _ _ Hac) as Horder. rewrite (a_lost _ _ Hac), Hw, Hwait in Horder by (by rewrite Hw).
    cbn in Horder. rewrite !app_nil_r in Horder. split_and!; [done|done|].
    rewrite (a_queued _ _ Hac), (a_delivered _ _ Hac), (a_undelivered _ _ Hac). cbn [app]. unfold fetch_add.
    by rewrite Horder, settled_split, <-Zplus_mod.
Qed.

(** [k] attempts at one batch, with the waits between them. *)
Fixpoint attempts {X} (k : nat) (answers : nat → X) : list (Event X) :=
  match k with
  | 0%nat => []
  | 1%nat => [Answer (Some (answers 1%nat))]
  | S k => Answer (Some (answers (S k))) :: Work :: attempts k answers
  end.

Lemma attempts_refused {X} (sink : X → list GuardEvent → result GuardError.t RemoteAck) b a k answers r :
  (∀ x, is_ok (sink x b) = false) → r.(worker) = Delivering b a → r.(config).(max_attempts) = a + Z.of_nat k → (0 < k)%nat →
  ∃ r', run sink (attempts k answers) r = Some (r', [Dropped b]) ∧ r'.(worker) = Receiving
    ∧ r'.(stats).(last_acknowledged_hash) = r.(stats).(last_acknowledged_hash)
    ∧ r'.(stats).(delivered_events) = r.(stats).(delivered_events).
Proof.
  intros Hx. revert a r. induction k as [|k IH]; intros a r Hw Hk Hpos; [lia|]. pose proof (Hx (answers (S k))) as Hans.
  destruct k as [|k].
  - cbn [attempts run step]. rewrite Hw. unfold settled, attempted. destruct (sink (answers 1%nat) b) as [ack|e] eqn:E; [done|].
    cbn. rewrite (proj2 (Z.ltb_ge _ _)) by lia. cbn. eexists. split_and!; [done|done|done|done].
  - change (attempts (S (S k)) answers) with (Answer (Some (answers (S (S k)))) :: Work :: attempts (S k) answers).
    cbn [run step]. rewrite Hw. unfold settled, attempted. destruct (sink (answers (S (S k))) b) as [ack|e] eqn:E; [done|].
    cbn [config set_stats]. rewrite (proj2 (Z.ltb_lt _ _)) by lia. cbn -[attempts].
    match goal with |- context [run sink (attempts (S k) answers) ?r1] => destruct (IH (a + 1) r1) as (r' & Hrun & Hw' & Hl & Hd); [done|cbn; lia|lia|] end.
    rewrite Hrun. cbn. exists r'. split_and!; [done|exact Hw'|exact Hl|exact Hd].
Qed.

(** a record the queue refuses takes accepted records with it.  With room for one record
    and batches of two, let [e1] be queued, [e2] refused because the queue is full, and
    [e3] queued once the worker has taken [e1]: whatever the endpoint answers, however
    often, both accepted records are dropped and nothing was ever sent, since a batch with a
    gap is refused before it is sent. *)
Theorem gap_loses_accepted_records `{Json, AckJson} m e1 e2 e3 k (answers : nat → Exchange) :
  e1.(current_hash) ≠ e3.(previous_hash) → (0 < k ≤ 10)%nat →
  ∃ r0 r, start {| capacity := 1; max_batch_events := 2; max_attempts := Z.of_nat k |} = Ok r0
    ∧ run (deliver m) ([Offer e1; Offer e2; Work; Offer e3; Work; Work] ++ attempts k answers) r0
        = Some (r, [Took e1; Refused e2; Took e3; Dropped [e1; e3]])
    ∧ r.(stats).(delivered_events) = 0 ∧ r.(stats).(last_acknowledged_hash) = None
    ∧ ∀ x, is_ok (deliver m x [e1; e3]) = false.
Proof.
  intros Hgap Hk. assert (Hc : chained [e1; e3] = false) by (cbn; by rewrite bool_decide_eq_false_2).
  unfold start. cbn [capacity max_batch_events max_attempts]. rewrite (proj2 (Z.eqb_neq (Z.of_nat k) 0)), (proj2 (Z.ltb_ge 10 _)) by lia. cbn [orb].
  eexists. set (b := [e1; e3]) in *.
  set (r1 := {|
    config := {| capacity := 1; max_batch_events := 2; max_attempts := Z.of_nat k |}; waiting := []; open_ := true; worker := Delivering b 0;
    stats := count_queued (count_unqueued (count_queued no_stats)) |}).
  destruct (attempts_refused (deliver m) b 0 k answers r1) as (r & Hrun & _ & Hl & Hd); [intros x; by apply gap_refused|done|done|lia|].
  exists r. split; [done|]. split; [|split_and!; [by rewrite Hd|by rewrite Hl|intros x; by apply gap_refused]].
  rewrite run_app. match goal with |- context [run _ [_; _; _; _; _; _] ?r0] =>
    assert (Hpre : run (deliver m) [Offer e1; Offer e2; Work; Offer e3; Work; Work] r0 = Some (r1, [Took e1; Refused e2; Took e3])) by reflexivity end.
  rewrite Hpre. cbn [mbind option_bind]. by rewrite Hrun.
Qed.

(** ** A concrete copy *)
Module SampleRemote.
Import Events.Sample SampleJson.

(** An endpoint that acknowledges one record. *)
#[global] Instance sample_ack : AckJson := λ body,
  if bool_decide (body = [byte 65]) then Some {| w_accepted := 1; w_head_hash := first.(current_hash); w_request_id := None |} else None.

Definition remote0 : Remote := {|
  config := default_queue; waiting := []; open_ := true; worker := Receiving; stats := no_stats |}.
Definition moves : list Move :=
  [Append Written true 1000 1 (input 10); Append Written false 1500 2 (input 10); Beside Work; Beside Work; Beside (Answer (Some (Response 200 [Some [byte 65]])))].
Definition settled_remote : Remote := {|
  config := default_queue; waiting := []; open_ := true; worker := Receiving;
  stats := count_delivered 1 first.(current_hash) (count_queued no_stats) |}.

Definition after_moves : Journal := fst (append_locked Written false 1500 2 (input 10) after_first).

Lemma moves_ok : Forall (λ '(now, id, i), request_ok now id i) (omap (requested (X := Exchange)) moves).
Proof. repeat constructor; vm_compute; done. Qed.
Lemma moves_run : mirrored (deliver 64) moves empty_journal remote0
  = Some (after_moves, settled_remote, [first], [Took first; Delivered [first] first.(current_hash)]).
Proof. vm_compute. reflexivity. Qed.

Lemma remote_copy_in_order_witness :
  omap offered_by [Took first; Delivered [first] first.(current_hash)] = [first] ∧ settled_remote.(stats).(delivered_events) = 1.
Proof.
  destruct (remote_copy_in_order (deliver 64) default_queue remote0 moves after_moves settled_remote [first]
    [Took first; Delivered [first] first.(current_hash)]) as (Ho & _ & _ & _ & _ & Hd & _);
    [vm_compute; discriminate|vm_compute; discriminate|vm_compute; discriminate|vm_compute; reflexivity|exact moves_ok|exact moves_run|].
  split; [exact Ho|]. rewrite Hd. vm_compute. reflexivity.
Defined.

Lemma acknowledged_head_anchors_journal_witness :
  ∃ k e, last (take k [first]) = Some e ∧ e.(current_hash) = first.(current_hash).
Proof.
  destruct (acknowledged_head_anchors_journal (deliver 64) default_queue remote0 moves after_moves settled_remote [first]
    [Took first; Delivered [first] first.(current_hash)] first.(current_hash)) as (k & e & Hl & He & _);
    [vm_compute; discriminate|vm_compute; discriminate|vm_compute; discriminate|vm_compute; reflexivity|exact moves_ok|exact moves_run|vm_compute; reflexivity|].
  exists k, e. exact (conj Hl He).
Defined.

Definition closing : list (Event Exchange) :=
  [Offer first; Work; Shutdown; Work; Answer (Some (Response 200 [Some [byte 65]])); Work].
Definition closed_remote : Remote := {|
  config := default_queue; waiting := []; open_ := false; worker := Stopped;
  stats := count_delivered 1 first.(current_hash) (count_queued no_stats) |}.

Lemma shutdown_settles_every_record_witness :
  run (deliver 64) closing remote0 = Some (closed_remote, [Took first; Delivered [first] first.(current_hash)])
  ∧ closed_remote.(stats).(queued) = fetch_add closed_remote.(stats).(delivered_events) closed_remote.(stats).(undelivered_events).
Proof.
  assert (Hr : run (deliver 64) closing remote0 = Some (closed_remote, [Took first; Delivered [first] first.(current_hash)]))
    by (vm_compute; reflexivity).
  split; [exact Hr|].
  destruct (shutdown_settles_every_record (deliver 64) default_queue remote0 closing closed_remote
    [Took first; Delivered [first] first.(current_hash)]) as (_ & _ & Hst);
    [vm_compute; discriminate|vm_compute; discriminate|vm_compute; discriminate|vm_compute; reflexivity|exact Hr|reflexivity|].
  destruct (Hst eq_refl) as (_ & _ & Hq). exact Hq.
Defined.

Lemma gap_loses_accepted_records_witness :
  ∃ r, run (deliver 64) ([Offer first; Offer first; Work; Offer first; Work; Work] ++ attempts 3 (λ _, Response 200 [Some [byte 65]]))
        {| config := {| capacity := 1; max_batch_events := 2; max_attempts := 3 |}; waiting := []; open_ := true; worker := Receiving;
           stats := no_stats |} = Some (r, [Took first; Refused first; Took first; Dropped [first; first]]).
Proof.
  destruct (gap_loses_accepted_records 64 first first first 3 (λ _, Response 200 [Some [byte 65]])) as (r0 & r & Hs & Hr & _);
    [vm_compute; discriminate|lia|]. injection Hs as <-. exists r. exact Hr.
Defined.

End SampleRemote.
