(* ===== verification/RunStore.v ===== *)
(** * RunStore: runs in PostgreSQL

    The tables [runs], [run_attempts], [run_events] and [run_sandboxes] of
    [migrations/0011_runs.sql] and the statements that write them:
    [crates/aiec-storage/src/postgres.rs] from [insert_run_tx] to [delete_run], and
    [retire_run] of [run_queue.rs].

    A [Database] holds the tables as maps by primary key.  A statement is a function on it:
    its [WHERE] clause is the guard, a comparison with a null is not true, and [now()] is an
    argument, the start of the transaction.  A transaction is atomic: each of these locks
    the rows it decides on before it writes them.  A violated key or check is
    [RunError.Conflict], a violated foreign key or a missing row [RunError.Database].
    Instants are microseconds, columns the statements only carry are
    opaque texts.  Whether a machine belongs to a tenant is a table of its own
    ([machines]). *)

From S2P Require Import Prelude Lifecycle.
Import Runs.

Module RunError.
Inductive t := NotFound | Conflict | QuotaExceeded | InvalidRequest | Database.
#[global] Instance t_eq_dec : EqDecision t.
Proof. solve_decision. Defined.
End RunError.

(** ** Tables *)
Record CleanupReport := { cr_sandbox_id : Uuid; cr_error : string }.

(** How each command went, the report of a failed teardown, and the rest as one text. *)
Record RunResults := {
  rs_setup : list bool; rs_task : option bool; rs_validations : list bool; rs_document : string; cleanup_failed : option CleanupReport }.

Definition default_results : RunResults := {|
  rs_setup := []; rs_task := None; rs_validations := []; rs_document := ""; cleanup_failed := None |}.

Definition with_report (r : RunResults) (report : option CleanupReport) : RunResults := {|
  rs_setup := r.(rs_setup); rs_task := r.(rs_task); rs_validations := r.(rs_validations); rs_document := r.(rs_document);
  cleanup_failed := report |}.

Record Run := {
  r_id : Uuid; r_tenant_id : Uuid; r_state : RunState; r_queued_at : option Instant; r_started_at : option Instant;
  r_completed_at : option Instant; r_timeout_seconds : option Z; r_document : string; r_placement : string;
  r_results : RunResults; r_failure_reason : option string; r_retained_sandbox_id : option Uuid;
  r_retained_until : option Instant; r_idempotency_key : option string }.

Record RunAttempt := {
  a_run_id : Uuid; attempt_number : Z; a_sandbox_id : option Uuid; a_state : RunState; a_failure_reason : option string;
  a_completed_at : option Instant; a_document : string }.

Inductive QueueStatus := QQueued | Executing | Reclaiming | Finished.
#[global] Instance QueueStatus_eq_dec : EqDecision QueueStatus.
Proof. solve_decision. Defined.

(** A row of [run_queue]. *)
Record QueueRow := {
  q_tenant_id : Uuid; q_request : string; q_status : QueueStatus; enqueued_at : Instant; queue_deadline : Instant;
  execution_seconds : Z; execution_deadline : option Instant; q_owner : option Uuid; lease_until : option Instant;
  q_failure_reason : option string }.

Record Database := {
  tenants : gset Uuid; machines : gmap Uuid Uuid (** of a machine, its tenant *);
  runs : gmap Uuid Run; attempts : gmap Uuid RunAttempt; events : gset Uuid (** runs with an event *);
  links : gset (Uuid * Uuid); queue : gmap Uuid QueueRow; dispatched : gmap Uuid (option Instant) }.

Definition set_runs (v : gmap Uuid Run) (d : Database) : Database := {|
  tenants := d.(tenants); machines := d.(machines); runs := v; attempts := d.(attempts); events := d.(events);
  links := d.(links); queue := d.(queue); dispatched := d.(dispatched) |}.
Definition set_attempts (v : gmap Uuid RunAttempt) (d : Database) : Database := {|
  tenants := d.(tenants); machines := d.(machines); runs := d.(runs); attempts := v; events := d.(events);
  links := d.(links); queue := d.(queue); dispatched := d.(dispatched) |}.
Definition set_events (v : gset Uuid) (d : Database) : Database := {|
  tenants := d.(tenants); machines := d.(machines); runs := d.(runs); attempts := d.(attempts); events := v;
  links := d.(links); queue := d.(queue); dispatched := d.(dispatched) |}.
Definition set_links (v : gset (Uuid * Uuid)) (d : Database) : Database := {|
  tenants := d.(tenants); machines := d.(machines); runs := d.(runs); attempts := d.(attempts); events := d.(events);
  links := v; queue := d.(queue); dispatched := d.(dispatched) |}.
Definition set_queue (v : gmap Uuid QueueRow) (d : Database) : Database := {|
  tenants := d.(tenants); machines := d.(machines); runs := d.(runs); attempts := d.(attempts); events := d.(events);
  links := d.(links); queue := v; dispatched := d.(dispatched) |}.
Definition set_dispatched (v : gmap Uuid (option Instant)) (d : Database) : Database := {|
  tenants := d.(tenants); machines := d.(machines); runs := d.(runs); attempts := d.(attempts); events := d.(events);
  links := d.(links); queue := d.(queue); dispatched := v |}.

(** A transaction: what it leaves and answers; one that fails leaves everything. *)
Abbreviation Tx A := (Database * result RunError.t A)%type (only parsing).
Definition transaction {A} (d : Database) (r : result RunError.t (Database * A)) : Tx A :=
  match r with Ok (d', a) => (d', Ok a) | Err e => (d, Err e) end.

(** [COALESCE] *)
Definition coalesce {A} (a b : option A) : option A := match a with Some _ => a | None => b end.

Definition with_outcome (r : Run) (s : RunState) (queued started completed : option Instant) (results : RunResults)
    (reason : option string) : Run := {|
  r_id := r.(r_id); r_tenant_id := r.(r_tenant_id); r_state := s; r_queued_at := queued; r_started_at := started;
  r_completed_at := completed; r_timeout_seconds := r.(r_timeout_seconds); r_document := r.(r_document);
  r_placement := r.(r_placement); r_results := results; r_failure_reason := reason;
  r_retained_sandbox_id := r.(r_retained_sandbox_id); r_retained_until := r.(r_retained_until);
  r_idempotency_key := r.(r_idempotency_key) |}.
Definition with_placement (r : Run) (placement : string) : Run := {|
  r_id := r.(r_id); r_tenant_id := r.(r_tenant_id); r_state := r.(r_state); r_queued_at := r.(r_queued_at);
  r_started_at := r.(r_started_at); r_completed_at := r.(r_completed_at); r_timeout_seconds := r.(r_timeout_seconds);
  r_document := r.(r_document); r_placement := placement; r_results := r.(r_results);
  r_failure_reason := r.(r_failure_reason); r_retained_sandbox_id := r.(r_retained_sandbox_id);
  r_retained_until := r.(r_retained_until); r_idempotency_key := r.(r_idempotency_key) |}.
Definition with_retention (r : Run) (kept : option Uuid) (until : option Instant) (results : RunResults) : Run := {|
  r_id := r.(r_id); r_tenant_id := r.(r_tenant_id); r_state := r.(r_state); r_queued_at := r.(r_queued_at);
  r_started_at := r.(r_started_at); r_completed_at := r.(r_completed_at); r_timeout_seconds := r.(r_timeout_seconds);
  r_document := r.(r_document); r_placement := r.(r_placement); r_results := results;
  r_failure_reason := r.(r_failure_reason); r_retained_sandbox_id := kept; r_retained_until := until;
  r_idempotency_key := r.(r_idempotency_key) |}.

(** ** Statements *)
(** The row a tenant names by its id. *)
Definition owned (d : Database) (tenant id : Uuid) : option Run :=
  r ← d.(runs) !! id; if (r.(r_tenant_id) =? tenant)%N then Some r else None.

Definition get_run (tenant id : Uuid) (d : Database) : result RunError.t Run := ok_or (owned d tenant id) RunError.NotFound.

Definition put_run (id : Uuid) (r : Run) (d : Database) : Database := set_runs (<[id := r]> d.(runs)) d.

(** The run of this tenant with this key, by the partial unique index. *)
Definition keyed (d : Database) (tenant : Uuid) (key : string) : option Run :=
  snd <$> List.find (λ p, (p.2.(r_tenant_id) =? tenant)%N && bool_decide (p.2.(r_idempotency_key) = Some key)) (map_to_list d.(runs)).

Definition insert_run (value : Run) (d : Database) : result RunError.t (Database * Run) :=
  bail_if (value.(r_tenant_id) =? 0)%N with RunError.Conflict;
  match (key ← value.(r_idempotency_key); keyed d value.(r_tenant_id) key) with
  | Some existing => Ok (d, existing)
  | None =>
      bail_if bool_decide (is_Some (d.(runs) !! value.(r_id))) with RunError.Conflict;
      bail_if negb (bool_decide (value.(r_tenant_id) ∈ d.(tenants))) with RunError.Database;
      Ok (put_run value.(r_id) value d, value)
  end.

Definition create_run (value : Run) (d : Database) : Tx Run := transaction d (insert_run value d).

Definition update_run_state (now : Instant) (tenant id : Uuid) (from to : RunState) (d : Database) : Tx Run :=
  transaction d (
    bail_if negb (can_transition_to from to) with RunError.Conflict;
    match owned d tenant id with
    | Some r =>
        bail_if negb (bool_decide (r.(r_state) = from)) with RunError.Conflict;
        let r' := with_outcome r to
          (if bool_decide (to ≠ Queued) then coalesce r.(r_queued_at) (Some now) else r.(r_queued_at))
          (if bool_decide (to ∈ [Running; Validating; Collecting]) then coalesce r.(r_started_at) (Some now) else r.(r_started_at))
          (if is_terminal to then Some now else r.(r_completed_at)) r.(r_results) r.(r_failure_reason) in
        Ok (put_run id r' d, r')
    | None => Err RunError.NotFound
    end).

Definition record_run_results (now : Instant) (tenant id : Uuid) (results : RunResults) (state : RunState) (d : Database) : Tx Run :=
  transaction d (
    let? r := get_run tenant id d in
    bail_if negb (bool_decide (r.(r_state) = state)) && negb (can_transition_to r.(r_state) state) with RunError.Conflict;
    let r' := with_outcome r state r.(r_queued_at) r.(r_started_at)
      (if is_terminal state then coalesce r.(r_completed_at) (Some now) else r.(r_completed_at)) results r.(r_failure_reason) in
    Ok (put_run id r' d, r')).

Definition set_run_failure (now : Instant) (tenant id : Uuid) (reason : option string) (state : RunState) (d : Database) : Tx Run :=
  transaction d (
    let? r := get_run tenant id d in
    let r' := with_outcome r (if bool_decide (r.(r_state) ∈ [Succeeded; Cancelled]) then r.(r_state) else state)
      r.(r_queued_at) r.(r_started_at) (coalesce r.(r_completed_at) (Some now)) r.(r_results) reason in
    Ok (put_run id r' d, r')).

Definition record_run_failure (now : Instant) (tenant id : Uuid) (results : RunResults) (reason : option string) (d : Database) : Tx Run :=
  transaction d (
    let? r := get_run tenant id d in
    let failed := bool_decide (r.(r_state) = Failed) in
    let final := bool_decide (r.(r_state) ∈ [Succeeded; Cancelled]) in
    let r' := with_outcome r (if final then r.(r_state) else Failed) r.(r_queued_at) r.(r_started_at)
      (if final then r.(r_completed_at) else coalesce r.(r_completed_at) (Some now))
      (if failed then r.(r_results) else results) (if failed then r.(r_failure_reason) else reason) in
    Ok (put_run id r' d, r')).

Definition set_run_placement (tenant id : Uuid) (placement : string) (d : Database) : Tx Run :=
  transaction d (let? r := get_run tenant id d in let r' := with_placement r placement in Ok (put_run id r' d, r')).

(** Only the run's own machine, of its own tenant, and never in place of another. *)
Definition retain_run_sandbox (tenant id sandbox : Uuid) (until : Instant) (d : Database) : Tx Run :=
  transaction d (
    let? r := get_run tenant id d in
    bail_if negb (bool_decide (r.(r_retained_sandbox_id) = None) || bool_decide (r.(r_retained_sandbox_id) = Some sandbox))
            || negb (bool_decide (d.(machines) !! sandbox = Some tenant)) || negb (bool_decide ((id, sandbox) ∈ d.(links)))
      with RunError.Conflict;
    let r' := with_retention r (Some sandbox) (Some until) r.(r_results) in
    Ok (put_run id r' d, r')).

Definition record_retention_cleanup_failure (tenant id sandbox : Uuid) (error : string) (d : Database) : Tx Run :=
  transaction d (
    let? r := get_run tenant id d in
    bail_if negb (bool_decide (r.(r_retained_sandbox_id) = Some sandbox)) with RunError.NotFound;
    let r' := with_retention r r.(r_retained_sandbox_id) r.(r_retained_until)
      (with_report r.(r_results) (Some {| cr_sandbox_id := sandbox; cr_error := error |})) in
    Ok (put_run id r' d, r')).

Definition clear_run_retention (tenant id sandbox : Uuid) (d : Database) : Tx Run :=
  transaction d (
    let? r := get_run tenant id d in
    bail_if negb (bool_decide (r.(r_retained_sandbox_id) = Some sandbox)) with RunError.NotFound;
    let about := bool_decide (cr_sandbox_id <$> r.(r_results).(cleanup_failed) = Some sandbox) in
    let r' := with_retention r None None
      (with_report r.(r_results) (if about then None else r.(r_results).(cleanup_failed))) in
    Ok (put_run id r' d, r')).

(** The row goes with its attempts and its queue entry; one with events or machines stays. *)
Definition delete_run (tenant id : Uuid) (d : Database) : Tx () :=
  transaction d (
    let? r := get_run tenant id d in
    bail_if bool_decide (is_Some r.(r_retained_sandbox_id)) || existsb (λ l, (l.1 =? id)%N) (elements d.(links)) with RunError.Conflict;
    bail_if bool_decide (id ∈ d.(events)) with RunError.Conflict;
    Ok (set_runs (delete id d.(runs))
          (set_attempts (filter (λ p, p.2.(a_run_id) ≠ id) d.(attempts)) (set_queue (delete id d.(queue)) d)), ())).

(** The kind of an event is only checked not to be [blank], its detail to be an object. *)
Definition append_run_event (tenant id : Uuid) (sandbox : option Uuid) (blank is_object : bool) (d : Database) : Tx () :=
  transaction d (
    bail_if blank with RunError.Conflict;
    bail_if negb is_object with RunError.Conflict;
    let? _ := get_run tenant id d in
    bail_if match sandbox with Some s => negb (bool_decide (d.(machines) !! s = Some tenant)) | None => false end with RunError.Conflict;
    Ok (set_events ({[id]} ∪ d.(events)) d, ())).

Definition link_run_sandbox (tenant id sandbox : Uuid) (blank : bool) (d : Database) : Tx () :=
  transaction d (
    bail_if blank with RunError.Conflict;
    let? _ := get_run tenant id d in
    bail_if negb (bool_decide (d.(machines) !! sandbox = Some tenant)) with RunError.Conflict;
    Ok (set_links ({[(id, sandbox)]} ∪ d.(links)) d, ())).

(** ** Attempts *)
Definition may_name (d : Database) (tenant : Uuid) (sandbox : option Uuid) : bool :=
  match sandbox with Some s => bool_decide (d.(machines) !! s = Some tenant) | None => true end.

Definition numbered (d : Database) (run : Uuid) (n : Z) : bool :=
  existsb (λ p, (p.2.(a_run_id) =? run)%N && (p.2.(attempt_number) =? n)) (map_to_list d.(attempts)).

Definition attempt_recordable (s : RunState) : bool := bool_decide (s ∈ [Running; Succeeded; Failed; Cancelled]).

Definition record_run_attempt (tenant aid : Uuid) (value : RunAttempt) (d : Database) : Tx () :=
  transaction d (
    bail_if value.(attempt_number) <=? 0 with RunError.Conflict;
    bail_if negb (attempt_recordable value.(a_state)) with RunError.Conflict;
    let? _ := get_run tenant value.(a_run_id) d in
    bail_if negb (may_name d tenant value.(a_sandbox_id)) with RunError.Conflict;
    bail_if bool_decide (is_Some (d.(attempts) !! aid)) || numbered d value.(a_run_id) value.(attempt_number) with RunError.Conflict;
    Ok (set_attempts (<[aid := value]> d.(attempts)) d, ())).

Definition complete_run_attempt (tenant aid : Uuid) (value : RunAttempt) (d : Database) : Tx () :=
  transaction d (
    bail_if negb (is_terminal value.(a_state)) || bool_decide (value.(a_completed_at) = None) with RunError.Conflict;
    match d.(attempts) !! aid, owned d tenant value.(a_run_id) with
    | Some a, Some _ =>
        bail_if negb (a.(a_run_id) =? value.(a_run_id))%N || negb (bool_decide (a.(a_state) = Running))
                || bool_decide (is_Some a.(a_completed_at)) with RunError.Conflict;
        Ok (set_attempts (<[aid := {|
              a_run_id := a.(a_run_id); attempt_number := a.(attempt_number); a_sandbox_id := a.(a_sandbox_id);
              a_state := value.(a_state); a_failure_reason := value.(a_failure_reason);
              a_completed_at := value.(a_completed_at); a_document := value.(a_document) |}]> d.(attempts)) d, ())
    | _, _ => Err RunError.Conflict
    end).

(** An attempt of the run that is still open is closed as failed. *)
Definition closed_attempt (now : Instant) (id : Uuid) (reason : string) (a : RunAttempt) : RunAttempt :=
  if (a.(a_run_id) =? id)%N && bool_decide (a.(a_completed_at) = None) then {|
    a_run_id := a.(a_run_id); attempt_number := a.(attempt_number); a_sandbox_id := a.(a_sandbox_id); a_state := Failed;
    a_failure_reason := coalesce a.(a_failure_reason) (Some reason); a_completed_at := Some now; a_document := a.(a_document) |}
  else a.

Definition retire_run (now : Instant) (id : Uuid) (reason : string) (d : Database) : Database :=
  let d := match d.(runs) !! id with
           | Some r =>
               if is_terminal r.(r_state) then d
               else put_run id (with_outcome r Failed r.(r_queued_at) r.(r_started_at) (Some now) r.(r_results) (Some reason)) d
           | None => d
           end in
  set_attempts (closed_attempt now id reason <$> d.(attempts)) d.

(** Compute for an attempt: the machine is inserted, charged to the attempt and linked, only
    while the run is active.  [admitted] is the quota's answer. *)
Definition create_attempt_sandbox (tenant run aid sandbox : Uuid) (admitted : result RunError.t ()) (d : Database) : Tx () :=
  transaction d (
    let? r := get_run tenant run d in
    bail_if negb (is_active r.(r_state)) with RunError.Conflict;
    let? _ := admitted in
    bail_if bool_decide (is_Some (d.(machines) !! sandbox)) with RunError.Conflict;
    let? a := ok_or (d.(attempts) !! aid) RunError.Conflict in
    bail_if negb (a.(a_run_id) =? run)%N || negb (bool_decide (a.(a_state) = Running)) || bool_decide (is_Some a.(a_completed_at))
            || bool_decide (is_Some a.(a_sandbox_id)) with RunError.Conflict;
    Ok ({| tenants := d.(tenants); machines := <[sandbox := tenant]> d.(machines); runs := d.(runs);
           attempts := <[aid := {| a_run_id := a.(a_run_id); attempt_number := a.(attempt_number); a_sandbox_id := Some sandbox;
                                   a_state := a.(a_state); a_failure_reason := a.(a_failure_reason);
                                   a_completed_at := a.(a_completed_at); a_document := a.(a_document) |}]> d.(attempts);
           events := d.(events); links := {[(run, sandbox)]} ∪ d.(links); queue := d.(queue); dispatched := d.(dispatched) |}, ())).
