(* ===== verification/RunQueue.v ===== *)
(** * RunQueue: admission, dispatch and recovery of runs

    [crates/aiec-storage/src/run_queue.rs] over the table of [migrations/0013_run_queue.sql]:
    admission with its quotas, the fair claim, recovery, and the writes of an executor under
    its lease; [RunQueueLimits] of [aiec-core/src/run_queue.rs]; and in
    [aiec-api/src/run_queue.rs] the executor's reaction to what became of its work and the
    waiter of a request.

    Admission, claim and recovery run one at a time under an advisory lock ([gate]); the
    other statements update one row.  Rows another transaction holds are an argument
    ([locked]: [SKIP LOCKED] passes over them), and so is [now()], which need not grow from
    one transaction to the next.  Sequences of writes start from empty tables ([opened]), so
    without the rows the migration wrote for runs that were there before it. *)

From S2P Require Import Prelude Lifecycle RunStore.
Import Runs.

Definition MAX_EXECUTION_SECONDS : Z := 86520.
Definition PLACEMENT_GRACE_SECONDS : Z := 120.

(** [n * interval '1 second'] *)
Definition interval (n : Z) : Z := n * 1000000.

Record RunQueueLimits := {
  global_pending : Z; tenant_pending : Z; max_active : Z; queue_timeout_seconds : Z; lease_seconds : Z }.
Definition default_limits : RunQueueLimits := {|
  global_pending := 1024; tenant_pending := 128; max_active := 4; queue_timeout_seconds := 300; lease_seconds := 30 |}.

Definition validate_limits (l : RunQueueLimits) : result RunError.t RunQueueLimits :=
  bail_if (l.(global_pending) =? 0) || (100000 <? l.(global_pending)) || (l.(tenant_pending) =? 0)
          || (l.(global_pending) <? l.(tenant_pending)) || (l.(max_active) =? 0) || (256 <? l.(max_active))
          || (l.(global_pending) <? l.(max_active))
          || negb ((1 <=? l.(queue_timeout_seconds)) && (l.(queue_timeout_seconds) <=? 86400))
          || negb ((6 <=? l.(lease_seconds)) && (l.(lease_seconds) <=? 300)) with RunError.InvalidRequest;
  Ok l.

(** A committed ownership grant. *)
Record RunQueueClaim := {
  c_run : Run; c_request : string; c_owner : Uuid; c_lease_until : Instant; c_execution_deadline : option Instant;
  reclaiming : bool }.

(** ** Counting and choosing rows *)
Definition holds_slot (r : QueueRow) : bool := match r.(q_status) with Executing | Reclaiming => true | _ => false end.
Definition pending (r : QueueRow) : bool := negb (bool_decide (r.(q_status) = Finished)).

(** How many rows satisfy [p]. *)
Definition rows_in (p : QueueRow → bool) (m : gmap Uuid QueueRow) : Z := Z.of_nat (length (List.filter (p ∘ snd) (map_to_list m))).
Definition rows (p : QueueRow → bool) (d : Database) : Z := rows_in p d.(queue).

Definition of_tenant (tenant : Uuid) (r : QueueRow) : bool := (r.(q_tenant_id) =? tenant)%N.

Fixpoint keys_leb (a b : list Z) : bool :=
  match a, b with
  | [], _ => true
  | _ :: _, [] => false
  | x :: a, y :: b => if x <? y then true else if y <? x then false else keys_leb a b
  end.

(** [ORDER BY key LIMIT 1] over the rows that satisfy [p]. *)
Definition select_first (p : Uuid * QueueRow → bool) (key : Uuid * QueueRow → list Z) (d : Database) : option (Uuid * QueueRow) :=
  head (sort_by (λ a b, keys_leb (key a) (key b)) (List.filter p (map_to_list d.(queue)))).

Definition past (now : Instant) (t : option Instant) : bool := match t with Some t => t <=? now | None => false end.
Definition ahead (now : Instant) (t : option Instant) : bool := match t with Some t => now <? t | None => false end.

Definition state_of (d : Database) (id : Uuid) : option RunState := r_state <$> d.(runs) !! id.

Definition put_row (id : Uuid) (r : QueueRow) (d : Database) : Database := set_queue (<[id := r]> d.(queue)) d.

Definition with_grant (r : QueueRow) (s : QueueStatus) (owner : option Uuid) (lease deadline : option Instant) (reason : option string)
    : QueueRow := {|
  q_tenant_id := r.(q_tenant_id); q_request := r.(q_request); q_status := s; enqueued_at := r.(enqueued_at);
  queue_deadline := r.(queue_deadline); execution_seconds := r.(execution_seconds); execution_deadline := deadline;
  q_owner := owner; lease_until := lease; q_failure_reason := reason |}.

Definition claim_row (id : Uuid) (d : Database) : result RunError.t RunQueueClaim :=
  match d.(runs) !! id, d.(queue) !! id with
  | Some run, Some row =>
      match row.(q_owner), row.(lease_until) with
      | Some owner, Some lease =>
          Ok {| c_run := run; c_request := row.(q_request); c_owner := owner; c_lease_until := lease;
                c_execution_deadline := row.(execution_deadline); reclaiming := bool_decide (row.(q_status) = Reclaiming) |}
      | _, _ => Err RunError.Database
      end
  | _, _ => Err RunError.Database
  end.

(** ** Admission *)
(** How long the run may take from its claim on. *)
Definition execution_budget (timeout : option Z) : result RunError.t Z :=
  match checked_add u64_max (default 600 timeout) PLACEMENT_GRACE_SECONDS with
  | Some n => bail_if MAX_EXECUTION_SECONDS <? n with RunError.InvalidRequest; Ok n
  | None => Err RunError.InvalidRequest
  end.

Definition queue_entry (now : Instant) (tenant : Uuid) (request : string) (limits : RunQueueLimits) (n : Z) : QueueRow := {|
  q_tenant_id := tenant; q_request := request; q_status := QQueued; enqueued_at := now;
  queue_deadline := now + interval limits.(queue_timeout_seconds); execution_seconds := n; execution_deadline := None;
  q_owner := None; lease_until := None; q_failure_reason := None |}.

Definition known (tenant : Uuid) (d : Database) : Database :=
  match d.(dispatched) !! tenant with Some _ => d | None => set_dispatched (<[tenant := None]> d.(dispatched)) d end.

(** [request] is [None] when the document is not an object. *)
Definition enqueue_run (now : Instant) (run : Run) (request : option string) (limits : RunQueueLimits) (d : Database) : Tx Run :=
  transaction d (
    let? limits := validate_limits limits in
    match request with
    | None => Err RunError.Conflict
    | Some request =>
        bail_if negb (bool_decide (run.(r_state) = Queued)) with RunError.Conflict;
        let? n := execution_budget run.(r_timeout_seconds) in
        match (key ← run.(r_idempotency_key); keyed d run.(r_tenant_id) key) with
        | Some existing => Ok (d, existing)
        | None =>
            bail_if (limits.(global_pending) <=? rows pending d)
                    || (limits.(tenant_pending) <=? rows (λ r, pending r && of_tenant run.(r_tenant_id) r) d)
              with RunError.QuotaExceeded;
            let? dr := insert_run run d in
            let '(d, created) := dr in
            if (created.(r_id) =? run.(r_id))%N then
              Ok (put_row created.(r_id) (queue_entry now created.(r_tenant_id) request limits n) (known created.(r_tenant_id) d), created)
            else Ok (d, created)
        end
    end).

(** ** Dispatch *)
Definition may_claim (now : Instant) (locked : gset Uuid) (d : Database) (p : Uuid * QueueRow) : bool :=
  bool_decide (p.2.(q_status) = QQueued) && (now <? p.2.(queue_deadline)) && bool_decide (state_of d p.1 = Some Queued)
  && bool_decide (is_Some (d.(dispatched) !! p.2.(q_tenant_id))) && negb (bool_decide (p.1 ∈ locked)).

(** Tenants that hold less, then those that were served longest ago, then the oldest row. *)
Definition claim_key (d : Database) (p : Uuid * QueueRow) : list Z :=
  [rows (λ r, holds_slot r && of_tenant p.2.(q_tenant_id) r) d]
  ++ match d.(dispatched) !! p.2.(q_tenant_id) with Some (Some t) => [1; t] | _ => [0; 0] end
  ++ [p.2.(enqueued_at); Z.of_N p.1].

Definition granted (now : Instant) (owner : Uuid) (limits : RunQueueLimits) (r : QueueRow) : QueueRow :=
  let deadline := now + interval r.(execution_seconds) in
  with_grant r Executing (Some owner) (Some (Z.min (now + interval limits.(lease_seconds)) deadline)) (Some deadline) r.(q_failure_reason).

Definition claim_run_queue (now : Instant) (locked : gset Uuid) (owner : Uuid) (limits : RunQueueLimits) (d : Database)
    : Tx (option RunQueueClaim) :=
  transaction d (
    let? limits := validate_limits limits in
    if limits.(max_active) <=? rows holds_slot d then Ok (d, None)
    else
      match select_first (may_claim now locked d) (claim_key d) d with
      | None => Ok (d, None)
      | Some (id, row) =>
          let d := put_row id (granted now owner limits row) d in
          let d := set_dispatched (alter (λ _, Some now) row.(q_tenant_id) d.(dispatched)) d in
          let? claim := claim_row id d in
          Ok (d, Some claim)
      end).

(** ** Recovery *)
Definition may_recover (now : Instant) (locked : gset Uuid) (d : Database) (p : Uuid * QueueRow) : bool :=
  match state_of d p.1 with
  | Some s =>
      ((holds_slot p.2 && past now p.2.(lease_until))
       || (bool_decide (p.2.(q_status) = QQueued) && ((p.2.(queue_deadline) <=? now) || negb (bool_decide (s = Queued)))))
      && negb (bool_decide (p.1 ∈ locked))
  | None => false
  end.

Definition recover_key (p : Uuid * QueueRow) : list Z :=
  [if bool_decide (p.2.(q_status) = QQueued) then 1 else 0; p.2.(enqueued_at); Z.of_N p.1].

Definition recovery_reason (d : Database) (id : Uuid) (row : QueueRow) : string :=
  match row.(q_failure_reason) with
  | Some reason => reason
  | None =>
      if bool_decide (row.(q_status) = QQueued) then
        if bool_decide (state_of d id = Some Queued) then "Run queue deadline exceeded" else "Run stopped before dispatch"
      else "Run executor lease or execution deadline expired"
  end.

Definition recover_run_queue (now : Instant) (locked : gset Uuid) (owner : Uuid) (limits : RunQueueLimits) (d : Database)
    : Tx (option RunQueueClaim) :=
  transaction d (
    let? limits := validate_limits limits in
    match select_first (may_recover now locked d) recover_key d with
    | None => Ok (d, None)
    | Some (id, row) =>
        if bool_decide (row.(q_status) = QQueued) && (limits.(max_active) <=? rows holds_slot d) then Ok (d, None)
        else
          let reason := recovery_reason d id row in
          let d := put_row id (with_grant row Reclaiming (Some owner) (Some (now + interval limits.(lease_seconds)))
                                 row.(execution_deadline) (Some reason)) d in
          let d := retire_run now id reason d in
          let? claim := claim_row id d in
          Ok (d, Some claim)
    end).

(** ** Under a lease *)
(** [WHERE tenant_id = $1 AND run_id = $2 AND owner = $3 AND lease_until > now()] *)
Definition leased (now : Instant) (tenant run owner : Uuid) (d : Database) : option QueueRow :=
  r ← d.(queue) !! run;
  if of_tenant tenant r && bool_decide (r.(q_owner) = Some owner) && ahead now r.(lease_until) then Some r else None.

Definition in_time (now : Instant) (r : QueueRow) : bool :=
  bool_decide (r.(q_status) = Reclaiming) || ahead now r.(execution_deadline).

(** [LEAST] passes over a null. *)
Definition least (a : Z) (b : option Z) : Z := match b with Some b => Z.min a b | None => a end.

Definition heartbeat_run_queue (now : Instant) (tenant run owner : Uuid) (lease_seconds : Z) (d : Database) : Tx bool :=
  transaction d (
    bail_if negb ((6 <=? lease_seconds) && (lease_seconds <=? 300)) with RunError.Conflict;
    match leased now tenant run owner d with
    | Some r =>
        if holds_slot r && in_time now r then
          let lease := if bool_decide (r.(q_status) = Executing) then least (now + interval lease_seconds) r.(execution_deadline)
                       else now + interval lease_seconds in
          Ok (put_row run (with_grant r r.(q_status) r.(q_owner) (Some lease) r.(execution_deadline) r.(q_failure_reason)) d, true)
        else Ok (d, false)
    | None => Ok (d, false)
    end).

Definition fail_run_queue (now : Instant) (tenant run owner : Uuid) (reason : string) (d : Database) : Tx bool :=
  transaction d (
    match leased now tenant run owner d with
    | Some r =>
        if bool_decide (r.(q_status) = Executing) && ahead now r.(execution_deadline) then
          Ok (retire_run now run reason
                (put_row run (with_grant r Reclaiming r.(q_owner) r.(lease_until) r.(execution_deadline) (Some reason)) d), true)
        else Ok (d, false)
    | None => Ok (d, false)
    end).

(** Only a settled run whose machines are gone leaves the queue. *)
Definition settled_cleanly (d : Database) (run : Uuid) : bool :=
  match d.(runs) !! run with
  | Some r => is_terminal r.(r_state) && bool_decide (r.(r_results).(cleanup_failed) = None)
  | None => false
  end.

Definition finish_run_queue (now : Instant) (tenant run owner : Uuid) (d : Database) : Tx bool :=
  transaction d (
    match leased now tenant run owner d with
    | Some r =>
        if holds_slot r && in_time now r && settled_cleanly d run then
          Ok (put_row run (with_grant r Finished None None r.(execution_deadline) r.(q_failure_reason)) d, true)
        else Ok (d, false)
    | None => Ok (d, false)
    end).

Definition run_queue_finished (tenant run : Uuid) (d : Database) : result RunError.t bool :=
  let? _ := get_run tenant run d in
  Ok match d.(queue) !! run with Some r => bool_decide (r.(q_status) = Finished) | None => true end.

(** ** Lemmas: counting and choosing *)
Lemma filter_perm {A} (p : A → bool) l k : l ≡ₚ k → List.filter p l ≡ₚ List.filter p k.
Proof. induction 1 as [|x l k _ IH|x y l|l k m _ IH1 _ IH2]; cbn; repeat case_match; try done; [by rewrite IH|constructor|by rewrite IH1]. Qed.

Lemma rows_in_cons p id r m : m !! id = None → rows_in p (<[id := r]> m) = rows_in p m + Z.b2z (p r).
Proof.
  intros Hm. unfold rows_in. rewrite (filter_perm _ _ _ (map_to_list_insert m id r Hm)). cbn. destruct (p r); cbn [length Z.b2z]; lia.
Qed.

Lemma rows_in_delete p id r m : m !! id = Some r → rows_in p m = rows_in p (delete id m) + Z.b2z (p r).
Proof. intros Hm. rewrite <-(rows_in_cons p id r (delete id m)) by apply lookup_delete_eq. by rewrite insert_delete_id. Qed.

Lemma rows_in_insert p id r0 r m : m !! id = Some r0 → rows_in p (<[id := r]> m) = rows_in p m - Z.b2z (p r0) + Z.b2z (p r).
Proof.
  intros Hm. rewrite (rows_in_delete p id r0 m Hm), <-insert_delete_eq, rows_in_cons by apply lookup_delete_eq. lia.
Qed.

Lemma rows_in_nonneg p m : 0 ≤ rows_in p m.
Proof. unfold rows_in. lia. Qed.

Lemma rows_in_le p q m : (∀ r, p r = true → q r = true) → rows_in p m ≤ rows_in q m.
Proof.
  intros Hpq. unfold rows_in. induction (map_to_list m) as [|[i r] l IH]; [done|]. cbn. specialize (Hpq r).
  destruct (p r), (q r); cbn [length]; try lia; by specialize (Hpq eq_refl).
Qed.

Lemma rows_in_zero p m : rows_in p m = 0 → ∀ id r, m !! id = Some r → p r = false.
Proof.
  intros Hz id r Hr. rewrite (rows_in_delete p id r m Hr) in Hz. pose proof (rows_in_nonneg p (delete id m)). by destruct (p r); cbn in Hz; [lia|].
Qed.

Lemma rows_in_pos p m : 0 < rows_in p m → ∃ id r, m !! id = Some r ∧ p r = true.
Proof.
  unfold rows_in. intros Hp. destruct (List.filter _ _) as [|[id r] l] eqn:E; [done|]. exists id, r.
  assert (Hin : In (id, r) (List.filter (p ∘ snd) (map_to_list m))) by (rewrite E; by left).
  apply filter_In in Hin as [Hin Hq]. split; [by apply elem_of_map_to_list, list_elem_of_In|done].
Qed.

Lemma keys_leb_total a b : keys_leb a b = true ∨ keys_leb b a = true.
Proof.
  revert b. induction a as [|x a IH]; intros [|y b]; cbn; auto. destruct (Z.ltb_spec x y), (Z.ltb_spec y x); auto; try lia.
Qed.

Lemma keys_leb_trans a b c : keys_leb a b = true → keys_leb b c = true → keys_leb a c = true.
Proof.
  revert b c. induction a as [|x a IH]; intros [|y b] [|z c]; cbn; try done.
  destruct (Z.ltb_spec x y), (Z.ltb_spec y x), (Z.ltb_spec y z), (Z.ltb_spec z y), (Z.ltb_spec x z), (Z.ltb_spec z x); try done; try lia. apply IH.
Qed.

Section Select.
Variables (p : Uuid * QueueRow → bool) (key : Uuid * QueueRow → list Z) (d : Database).

Lemma selected x : select_first p key d = Some x →
  d.(queue) !! x.1 = Some x.2 ∧ p x = true
  ∧ ∀ y, d.(queue) !! y.1 = Some y.2 → p y = true → keys_leb (key x) (key y) = true.
Proof.
  unfold select_first. set (leb := λ a b, keys_leb (key a) (key b)). set (l := List.filter p (map_to_list d.(queue))). intros Hx.
  assert (Hs : StronglySorted (λ a b, leb a b = true) (sort_by leb l)).
  { apply sort_by_sorted; unfold leb; [intros; apply keys_leb_total|intros ? ? ?; apply keys_leb_trans]. }
  assert (Hmem : ∀ y, y ∈ sort_by leb l ↔ d.(queue) !! y.1 = Some y.2 ∧ p y = true).
  { intros y. rewrite (sort_by_perm leb l). unfold l. rewrite list_elem_of_In, filter_In, <-list_elem_of_In. destruct y. by rewrite elem_of_map_to_list. }
  destruct (sort_by leb l) as [|x' l'] eqn:E; [done|]. cbn in Hx. simplify_eq. destruct (proj1 (Hmem x) ltac:(left)) as [Hq Hp].
  split_and!; [done|done|]. intros y Hy Hpy. assert (Hin : y ∈ x :: l') by by apply Hmem. apply elem_of_cons in Hin as [->|Hin].
  - unfold leb in *. destruct (keys_leb_total (key x) (key x)); done.
  - apply StronglySorted_inv in Hs as [_ Hf]. rewrite Forall_forall in Hf. by apply Hf.
Qed.

Lemma none_selected : select_first p key d = None → ∀ y, d.(queue) !! y.1 = Some y.2 → p y = false.
Proof.
  unfold select_first. set (leb := λ a b, keys_leb (key a) (key b)). intros Hn y Hy. destruct (p y) eqn:Hp; [|done]. exfalso.
  assert (Hin : y ∈ sort_by leb (List.filter p (map_to_list d.(queue)))).
  { rewrite sort_by_perm, list_elem_of_In, filter_In, <-list_elem_of_In. destruct y. by rewrite elem_of_map_to_list. }
  destruct (sort_by leb _); [by apply not_elem_of_nil in Hin|done].
Qed.

End Select.

(** ** Operations *)
(** Everything that writes these tables; the queue's limits are the cluster's. *)
Inductive op :=
| Create (run : Run)
| Enqueue (now : Instant) (run : Run) (request : option string)
| Claim (now : Instant) (locked : gset Uuid) (owner : Uuid)
| Recover (now : Instant) (locked : gset Uuid) (owner : Uuid)
| Heartbeat (now : Instant) (tenant run owner : Uuid) (lease_seconds : Z)
| Fail_ (now : Instant) (tenant run owner : Uuid) (reason : string)
| Finish (now : Instant) (tenant run owner : Uuid)
| UpdateState (now : Instant) (tenant id : Uuid) (from to : RunState)
| RecordResults (now : Instant) (tenant id : Uuid) (results : RunResults) (state : RunState)
| SetFailure (now : Instant) (tenant id : Uuid) (reason : option string) (state : RunState)
| RecordFailure (now : Instant) (tenant id : Uuid) (results : RunResults) (reason : option string)
| Place (tenant id : Uuid) (placement : string)
| Retain (tenant id sandbox : Uuid) (until : Instant)
| RetentionFailed (tenant id sandbox : Uuid) (error : string)
| ClearRetention (tenant id sandbox : Uuid)
| DeleteRun (tenant id : Uuid)
| AppendEvent (tenant id : Uuid) (sandbox : option Uuid) (blank is_object : bool)
| Link (tenant id sandbox : Uuid) (blank : bool)
| RecordAttempt (tenant aid : Uuid) (value : RunAttempt)
| CompleteAttempt (tenant aid : Uuid) (value : RunAttempt)
| CreateAttemptSandbox (tenant run aid sandbox : Uuid) (admitted : result RunError.t ()).

(** What happened to the queue. *)
Inductive Label :=
| Silent
| Enqueued (id : Uuid)
| Executes (id owner : Uuid)
| Reclaims (id owner : Uuid)
| Beats (id owner : Uuid)
| Fails (id owner : Uuid)
| Finishes (id owner : Uuid)
| Forgets (id : Uuid).

Section Operations.
Variable limits : RunQueueLimits.

Definition quiet {A} (t : Tx A) : Database * Label := (t.1, Silent).
Definition if_true (t : Tx bool) (l : Label) : Database * Label := (t.1, match t.2 with Ok true => l | _ => Silent end).
Definition if_granted (t : Tx (option RunQueueClaim)) (l : Uuid → Label) : Database * Label :=
  (t.1, match t.2 with Ok (Some c) => l c.(c_run).(r_id) | _ => Silent end).

Definition apply (o : op) (d : Database) : Database * Label :=
  match o with
  | Create run => quiet (create_run run d)
  | Enqueue now run request =>
      let t := enqueue_run now run request limits d in
      (t.1, match d.(queue) !! run.(r_id), t.1.(queue) !! run.(r_id) with None, Some _ => Enqueued run.(r_id) | _, _ => Silent end)
  | Claim now locked owner => if_granted (claim_run_queue now locked owner limits d) (λ id, Executes id owner)
  | Recover now locked owner => if_granted (recover_run_queue now locked owner limits d) (λ id, Reclaims id owner)
  | Heartbeat now tenant run owner n => if_true (heartbeat_run_queue now tenant run owner n d) (Beats run owner)
  | Fail_ now tenant run owner reason => if_true (fail_run_queue now tenant run owner reason d) (Fails run owner)
  | Finish now tenant run owner => if_true (finish_run_queue now tenant run owner d) (Finishes run owner)
  | UpdateState now tenant id from to => quiet (update_run_state now tenant id from to d)
  | RecordResults now tenant id results state => quiet (record_run_results now tenant id results state d)
  | SetFailure now tenant id reason state => quiet (set_run_failure now tenant id reason state d)
  | RecordFailure now tenant id results reason => quiet (record_run_failure now tenant id results reason d)
  | Place tenant id placement => quiet (set_run_placement tenant id placement d)
  | Retain tenant id sandbox until => quiet (retain_run_sandbox tenant id sandbox until d)
  | RetentionFailed tenant id sandbox error => quiet (record_retention_cleanup_failure tenant id sandbox error d)
  | ClearRetention tenant id sandbox => quiet (clear_run_retention tenant id sandbox d)
  | DeleteRun tenant id => let t := delete_run tenant id d in (t.1, if is_ok t.2 then Forgets id else Silent)
  | AppendEvent tenant id sandbox blank is_object => quiet (append_run_event tenant id sandbox blank is_object d)
  | Link tenant id sandbox blank => quiet (link_run_sandbox tenant id sandbox blank d)
  | RecordAttempt tenant aid value => quiet (record_run_attempt tenant aid value d)
  | CompleteAttempt tenant aid value => quiet (complete_run_attempt tenant aid value d)
  | CreateAttemptSandbox tenant run aid sandbox admitted => quiet (create_attempt_sandbox tenant run aid sandbox admitted d)
  end.

Fixpoint run_ops (os : list op) (d : Database) : Database * list Label :=
  match os with
  | [] => (d, [])
  | o :: os => let '(d, l) := apply o d in let '(d, ls) := run_ops os d in (d, l :: ls)
  end.

(** ** The queue as a machine *)
Inductive qstep (m : gmap Uuid QueueRow) : Label → gmap Uuid QueueRow → Prop :=
| q_silent : qstep m Silent m
| q_enqueued id r :
    m !! id = None → r.(q_status) = QQueued → r.(q_owner) = None → r.(lease_until) = None → 0 < r.(execution_seconds) →
    rows_in pending m < limits.(global_pending) →
    rows_in (λ r', pending r' && of_tenant r.(q_tenant_id) r') m < limits.(tenant_pending) →
    qstep m (Enqueued id) (<[id := r]> m)
| q_executes now id owner r :
    m !! id = Some r → r.(q_status) = QQueued → now < r.(queue_deadline) → rows_in holds_slot m < limits.(max_active) →
    qstep m (Executes id owner) (<[id := granted now owner limits r]> m)
| q_reclaims now id owner r reason :
    m !! id = Some r →
    (holds_slot r = true ∧ past now r.(lease_until) = true) ∨ (r.(q_status) = QQueued ∧ rows_in holds_slot m < limits.(max_active)) →
    qstep m (Reclaims id owner)
      (<[id := with_grant r Reclaiming (Some owner) (Some (now + interval limits.(lease_seconds))) r.(execution_deadline) (Some reason)]> m)
| q_beats now id owner r n :
    m !! id = Some r → r.(q_owner) = Some owner → holds_slot r = true → ahead now r.(lease_until) = true → in_time now r = true →
    0 < n →
    qstep m (Beats id owner)
      (<[id := with_grant r r.(q_status) r.(q_owner)
          (Some (if bool_decide (r.(q_status) = Executing) then least (now + interval n) r.(execution_deadline) else now + interval n))
          r.(execution_deadline) r.(q_failure_reason)]> m)
| q_fails now id owner r reason :
    m !! id = Some r → r.(q_owner) = Some owner → r.(q_status) = Executing → ahead now r.(lease_until) = true →
    qstep m (Fails id owner) (<[id := with_grant r Reclaiming r.(q_owner) r.(lease_until) r.(execution_deadline) (Some reason)]> m)
| q_finishes now id owner r :
    m !! id = Some r → r.(q_owner) = Some owner → holds_slot r = true → ahead now r.(lease_until) = true → in_time now r = true →
    qstep m (Finishes id owner) (<[id := with_grant r Finished None None r.(execution_deadline) r.(q_failure_reason)]> m)
| q_forgets id : qstep m (Forgets id) (delete id m).

(** ** The operations refine the machine *)
(** Rows are stored under their own id, a queue entry has its run, of the same tenant. *)
Record keyed_well (d : Database) : Prop := {
  k_run id r : d.(runs) !! id = Some r → r.(r_id) = id;
  k_row id q : d.(queue) !! id = Some q → ∃ r, d.(runs) !! id = Some r ∧ r.(r_tenant_id) = q.(q_tenant_id);
  k_dispatched id q : d.(queue) !! id = Some q → is_Some (d.(dispatched) !! q.(q_tenant_id)) }.

(** The runs of [d'] are those of [d] with other contents. *)
Definition same_runs (d d' : Database) : Prop :=
  ∀ id r, d'.(runs) !! id = Some r → ∃ r0, d.(runs) !! id = Some r0 ∧ r.(r_id) = r0.(r_id) ∧ r.(r_tenant_id) = r0.(r_tenant_id).
Definition keeps_runs (d d' : Database) : Prop :=
  same_runs d d' ∧ ∀ id, is_Some (d.(runs) !! id) → is_Some (d'.(runs) !! id).

Lemma keeps_runs_put id r r0 d : d.(runs) !! id = Some r0 → r.(r_id) = r0.(r_id) → r.(r_tenant_id) = r0.(r_tenant_id) →
  keeps_runs d (put_run id r d).
Proof.
  intros Hr Hi Ht. split.
  - intros id' r'. cbn. destruct (decide (id = id')) as [->|Hne]; [rewrite lookup_insert_eq; intros [= <-]; by exists r0|].
    rewrite lookup_insert_ne by done. intros Hr'. by exists r'.
  - intros id' Hs. cbn. destruct (decide (id = id')) as [->|Hne]; [by rewrite lookup_insert_eq|by rewrite lookup_insert_ne].
Qed.

Lemma keeps_runs_refl d d' : d'.(runs) = d.(runs) → keeps_runs d d'.
Proof. intros Hr. split; [intros id r; rewrite Hr; by exists r|intros id; by rewrite Hr]. Qed.

Lemma keyed_keeps d d' : keyed_well d → keeps_runs d d' → d'.(queue) = d.(queue) → d'.(dispatched) = d.(dispatched) → keyed_well d'.
Proof.
  intros [K1 K2 K3] [Hs Hk] Hq Hd. split.
  - intros id r Hr. destruct (Hs id r Hr) as (r0 & Hr0 & -> & _). by apply K1.
  - intros id q Hrow. rewrite Hq in Hrow. destruct (K2 id q Hrow) as (r0 & Hr0 & Ht). destruct (Hk id) as [r Hr]; [by eexists|].
    exists r. split; [done|]. destruct (Hs id r Hr) as (r1 & Hr1 & _ & Ht1). rewrite Hr0 in Hr1. simplify_eq. congruence.
  - intros id q Hrow. rewrite Hq in Hrow. rewrite Hd. by eapply K3.
Qed.

Lemma owned_run d tenant id r : owned d tenant id = Some r → d.(runs) !! id = Some r ∧ r.(r_tenant_id) = tenant.
Proof. unfold owned. rewrite bind_Some. intros (r0 & Hr & Hif). destruct (N.eqb_spec r0.(r_tenant_id) tenant); simplify_eq. done. Qed.

Lemma get_run_run tenant id d r : get_run tenant id d = Ok r → d.(runs) !! id = Some r ∧ r.(r_tenant_id) = tenant.
Proof. unfold get_run. destruct (owned d tenant id) eqn:E; [|done]. intros [= <-]. by apply owned_run in E. Qed.

Lemma transaction_inv {A} (P : Database → Prop) d (r : result RunError.t (Database * A)) :
  P d → (∀ d' a, r = Ok (d', a) → P d') → P (transaction d r).1.
Proof. intros Hd Hr. destruct r as [[d' a]|]; [by eapply Hr|done]. Qed.

(** The runs keep their ids and tenants, the queue is left alone. *)
Definition framed (d d' : Database) : Prop := keeps_runs d d' ∧ d'.(queue) = d.(queue) ∧ d'.(dispatched) = d.(dispatched).

Lemma framed_refl d d' : d'.(runs) = d.(runs) → d'.(queue) = d.(queue) → d'.(dispatched) = d.(dispatched) → framed d d'.
Proof. intros Hr. split; [by apply keeps_runs_refl|done]. Qed.

Lemma framed_put id r r0 d : d.(runs) !! id = Some r0 → r.(r_id) = r0.(r_id) → r.(r_tenant_id) = r0.(r_tenant_id) → framed d (put_run id r d).
Proof. intros Hr Hi Ht. split; [by eapply keeps_runs_put|done]. Qed.

(** A statement that rewrites one run of the tenant. *)
Ltac rewrites_run :=
  apply transaction_inv; [by apply framed_refl|]; let d' := fresh in let a := fresh in let H := fresh in intros d' a H; ok_inv H;
  injection H as <- <-;
  match goal with E : get_run _ _ _ = Ok _ |- _ => apply get_run_run in E as [? _]; by eapply framed_put end.

Ltac leaves_runs :=
  apply transaction_inv; [by apply framed_refl|]; let d' := fresh in let a := fresh in let H := fresh in intros d' a H; ok_inv H;
  repeat case_match; simplify_eq; by apply framed_refl.

Lemma retire_framed now id reason d : framed d (retire_run now id reason d).
Proof.
  unfold retire_run. destruct (d.(runs) !! id) as [r|] eqn:Hr; [destruct (is_terminal _)|]; [by apply framed_refl| |by apply framed_refl].
  destruct (framed_put id (with_outcome r Failed r.(r_queued_at) r.(r_started_at) (Some now) r.(r_results) (Some reason)) r d Hr eq_refl eq_refl)
    as (Hk & _ & _). by split.
Qed.

(** The statements that leave the queue alone. *)
Definition writes_runs (o : op) : bool :=
  match o with
  | Create _ | Enqueue _ _ _ | Claim _ _ _ | Recover _ _ _ | Heartbeat _ _ _ _ _ | Fail_ _ _ _ _ _ | Finish _ _ _ _ | DeleteRun _ _ => false
  | _ => true
  end.

Lemma writers_framed o d : writes_runs o = true → framed d (apply o d).1 ∧ (apply o d).2 = Silent.
Proof.
  destruct o; try done; intros _; (split; [|done]); cbn [apply quiet fst]; unfold update_run_state, record_run_results, set_run_failure,
    record_run_failure, set_run_placement, retain_run_sandbox, record_retention_cleanup_failure, clear_run_retention, append_run_event,
    link_run_sandbox, record_run_attempt, complete_run_attempt, create_attempt_sandbox.
  - apply transaction_inv; [by apply framed_refl|]. intros d' a Hx. ok_inv Hx. destruct (owned d tenant id) as [r|] eqn:E; [|done]. ok_inv Hx.
    injection Hx as <- <-. apply owned_run in E as [Hr _]. by eapply framed_put.
  - rewrites_run.
  - rewrites_run.
  - rewrites_run.
  - rewrites_run.
  - rewrites_run.
  - rewrites_run.
  - rewrites_run.
  - leaves_runs.
  - leaves_runs.
  - leaves_runs.
  - leaves_runs.
  - leaves_runs.
Qed.

Definition refines (o : op) (d : Database) : Prop :=
  keyed_well d → keyed_well (apply o d).1 ∧ qstep d.(queue) (apply o d).2 (apply o d).1.(queue).

Lemma writers_refine o d : writes_runs o = true → refines o d.
Proof.
  intros Hw Hk. destruct (writers_framed o d Hw) as [(Hr & Hq & Hd) ->]. rewrite Hq. split; [by eapply keyed_keeps|constructor].
Qed.

Lemma insert_run_ok value d d' r : insert_run value d = Ok (d', r) →
  (d' = d ∧ ∃ key, value.(r_idempotency_key) = Some key ∧ keyed d value.(r_tenant_id) key = Some r)
  ∨ (d' = put_run value.(r_id) value d ∧ r = value ∧ d.(runs) !! value.(r_id) = None
     ∧ ∀ key, value.(r_idempotency_key) = Some key → keyed d value.(r_tenant_id) key = None).
Proof.
  unfold insert_run. intros Hi. ok_inv Hi. destruct (value.(r_idempotency_key)) as [key|] eqn:Hkey; cbn in Hi.
  - destruct (keyed d _ key) as [existing|] eqn:Hx; [left; simplify_eq; split; [done|by exists key]|].
    right. ok_inv Hi. bools. simplify_eq. split_and!; try done; [|intros k [= <-]; done].
    destruct (runs d !! _) eqn:E; [|done]. match goal with Hn : ¬ is_Some _ |- _ => by destruct Hn end.
  - right. ok_inv Hi. bools. simplify_eq. split_and!; try done.
    destruct (runs d !! _) eqn:E; [|done]. match goal with Hn : ¬ is_Some _ |- _ => by destruct Hn end.
Qed.

Lemma keyed_insert value d : keyed_well d → d.(runs) !! value.(r_id) = None → keyed_well (put_run value.(r_id) value d).
Proof.
  intros [K1 K2 K3] Hn. split.
  - intros id r. cbn. destruct (decide (value.(r_id) = id)) as [<-|Hne]; [by rewrite lookup_insert_eq; intros [= <-]|].
    rewrite lookup_insert_ne by done. apply K1.
  - intros id q Hq. destruct (K2 id q Hq) as (r & Hr & Ht). exists r. split; [|done]. cbn. rewrite lookup_insert_ne; [done|]. intros <-. congruence.
  - exact K3.
Qed.

Lemma create_refines run d : refines (Create run) d.
Proof.
  intros Hk. cbn [apply quiet fst snd]. unfold create_run. destruct (insert_run run d) as [[d' r]|] eqn:E; cbn; [|split; [done|constructor]].
  apply insert_run_ok in E as [[-> _]|(-> & _ & Hn & _)]; (split; [|constructor]); [done|by apply keyed_insert].
Qed.

Lemma delete_refines tenant id d : refines (DeleteRun tenant id) d.
Proof.
  intros Hk. cbn [apply fst snd]. unfold delete_run, transaction.
  match goal with |- context [match ?r with Ok _ => _ | Err _ => _ end] => destruct r as [[d' []]|] eqn:E end; cbn; [|split; [done|constructor]].
  ok_inv E. simplify_eq. cbn. split; [|constructor]. destruct Hk as [K1 K2 K3]. split; cbn.
  - intros i r Hi. apply lookup_delete_Some in Hi as [_ Hi]. by apply K1.
  - intros i q Hi. apply lookup_delete_Some in Hi as [Hne Hi]. destruct (K2 i q Hi) as (r & Hr & Ht). exists r. by rewrite lookup_delete_ne.
  - intros i q Hi. apply lookup_delete_Some in Hi as [_ Hi]. by eapply K3.
Qed.

(** A timeout is a [u64]. *)
Definition typed (o : op) : Prop :=
  match o with Enqueue _ run _ => 0 ≤ default 600 run.(r_timeout_seconds) | _ => True end.

Lemma budget_bounds timeout n : execution_budget timeout = Ok n → n = default 600 timeout + PLACEMENT_GRACE_SECONDS ∧ n ≤ MAX_EXECUTION_SECONDS.
Proof.
  unfold execution_budget, checked_add. intros Hx. destruct (_ <=? u64_max); [|done]. ok_inv Hx. injection Hx as <-. split; [done|]. lia.
Qed.

(** What admission leaves: nothing new, or the run with its entry, within both quotas. *)
Lemma enqueue_run_ok now run request d d' r : enqueue_run now run request limits d = (d', Ok r) →
  (d' = d ∧ ∃ key, run.(r_idempotency_key) = Some key ∧ keyed d run.(r_tenant_id) key = Some r)
  ∨ ∃ doc n, r = run ∧ request = Some doc ∧ execution_budget run.(r_timeout_seconds) = Ok n ∧ run.(r_state) = Queued
    ∧ d.(runs) !! run.(r_id) = None
    ∧ rows pending d < limits.(global_pending) ∧ rows (λ q, pending q && of_tenant run.(r_tenant_id) q) d < limits.(tenant_pending)
    ∧ d' = put_row run.(r_id) (queue_entry now run.(r_tenant_id) doc limits n) (known run.(r_tenant_id) (put_run run.(r_id) run d)).
Proof.
  unfold enqueue_run, transaction. intros Hx.
  match type of Hx with match ?t with Ok _ => _ | Err _ => _ end = _ => destruct t as [[d1 r1]|] eqn:E end; [|done]. injection Hx as -> ->.
  ok_inv E. match goal with Hv : validate_limits limits = Ok ?l |- _ => assert (l = limits) as -> by (unfold validate_limits in Hv; ok_inv Hv; by injection Hv) end.
  destruct request as [doc|]; [|done]. ok_inv E. destruct (run.(r_idempotency_key)) as [key|] eqn:Hkey; cbn in E;
    [destruct (keyed d _ key) as [existing|] eqn:Hx; [left; simplify_eq; split; [done|by exists key]|]|]; right; ok_inv E; bools;
    match goal with Hi : insert_run run d = Ok ?x |- _ => destruct x; apply insert_run_ok in Hi as [(_ & k & ? & ?)|(-> & -> & Hn & _)]; [congruence|] end;
    rewrite N.eqb_refl in E; injection E as <- <-; eexists _, _; split_and!; try done; lia.
Qed.

Lemma keyed_put_row id q q0 d : keyed_well d → d.(queue) !! id = Some q0 → q.(q_tenant_id) = q0.(q_tenant_id) → keyed_well (put_row id q d).
Proof.
  intros [K1 K2 K3] Hq Ht. split; [exact K1| |]; intros id' q'; cbn; destruct (decide (id = id')) as [<-|Hne];
    rewrite ?lookup_insert_eq, ?lookup_insert_ne by done; try (intros [= <-]; rewrite Ht); eauto.
Qed.

Lemma keyed_dispatched v d : keyed_well d → (∀ t, is_Some (d.(dispatched) !! t) → is_Some (v !! t)) → keyed_well (set_dispatched v d).
Proof. intros [K1 K2 K3] Hv. split; [exact K1|exact K2|]. intros id q Hq. apply Hv. by eapply K3. Qed.

Lemma known_dispatched t d t' : is_Some (d.(dispatched) !! t') → is_Some ((known t d).(dispatched) !! t').
Proof.
  unfold known. destruct (d.(dispatched) !! t) eqn:E; [done|]. cbn. intros Hs. rewrite lookup_insert_ne; [done|]. intros <-. by rewrite E in Hs; destruct Hs.
Qed.

Lemma known_known t d : is_Some ((known t d).(dispatched) !! t).
Proof. unfold known. destruct (d.(dispatched) !! t) eqn:E; [by rewrite E|]. cbn. by rewrite lookup_insert_eq. Qed.

Lemma known_same t d : (known t d).(runs) = d.(runs) ∧ (known t d).(queue) = d.(queue).
Proof. unfold known. by case_match. Qed.

Lemma enqueue_refines now run request d : typed (Enqueue now run request) → refines (Enqueue now run request) d.
Proof.
  intros Hty Hk. cbn [apply fst snd]. destruct (enqueue_run now run request limits d) as [d' [r|e]] eqn:E; cbn [fst].
  2:{ unfold enqueue_run, transaction in E. case_match; [by case_match|]. simplify_eq. destruct (queue d' !! r_id run); (split; [done|constructor]). }
  apply enqueue_run_ok in E as [[-> _]|(doc & n & -> & -> & Hn & Hst & Hnew & Hg & Ht & ->)].
  { destruct (queue d !! r_id run); (split; [done|constructor]). }
  assert (Hq : queue d !! r_id run = None).
  { destruct (queue d !! r_id run) eqn:E; [|done]. destruct (k_row _ Hk _ _ E) as (? & ? & _). congruence. }
  destruct (known_same run.(r_tenant_id) (put_run run.(r_id) run d)) as [Hr' Hq']. rewrite Hq. cbn. rewrite Hq', lookup_insert_eq. cbn.
  split.
  - pose proof (keyed_insert run d Hk Hnew) as [K1 K2 K3]. split; cbn; rewrite ?Hr', ?Hq'; [exact K1| |]; intros id q;
      (destruct (decide (run.(r_id) = id)) as [<-|Hne]; [rewrite lookup_insert_eq; intros [= <-]|rewrite lookup_insert_ne by done; intros Hi]).
    + exists run. split; [by cbn; rewrite lookup_insert_eq|done].
    + by apply K2.
    + apply known_known.
    + apply known_dispatched. by eapply K3.
  - apply budget_bounds in Hn as [-> _]. apply q_enqueued; try done. cbn. unfold PLACEMENT_GRACE_SECONDS. cbn in Hty. lia.
Qed.

Lemma leased_row now tenant run owner d q : leased now tenant run owner d = Some q →
  d.(queue) !! run = Some q ∧ q.(q_tenant_id) = tenant ∧ q.(q_owner) = Some owner ∧ ahead now q.(lease_until) = true.
Proof.
  unfold leased. rewrite bind_Some. intros (q' & Hq & Hif). destruct (_ && _) eqn:E; [|done]. bools. unfold of_tenant in *.
  match goal with Ht : (_ =? _)%N = true |- _ => apply N.eqb_eq in Ht end. by simplify_eq.
Qed.

Lemma keyed_retire now id reason d : keyed_well d → keyed_well (retire_run now id reason d).
Proof. intros Hk. destruct (retire_framed now id reason d) as (Hr & Hq & Hd). by eapply keyed_keeps. Qed.

Lemma heartbeat_refines now tenant run owner n d : refines (Heartbeat now tenant run owner n) d.
Proof.
  intros Hk. cbn [apply]. unfold if_true, heartbeat_run_queue.
  destruct (negb _) eqn:En; [split; [done|constructor]|]. bools.
  destruct (leased now tenant run owner d) as [q|] eqn:E; [|split; [done|constructor]]. apply leased_row in E as (Hq & _ & Ho & Hl).
  destruct (holds_slot q && in_time now q) eqn:Ei; [|split; [done|constructor]]. bools. cbn. split; [by eapply keyed_put_row|].
  by apply (q_beats _ now run owner q n); [..|lia].
Qed.

Lemma fail_refines now tenant run owner reason d : refines (Fail_ now tenant run owner reason) d.
Proof.
  intros Hk. cbn [apply]. unfold if_true, fail_run_queue.
  destruct (leased now tenant run owner d) as [q|] eqn:E; [|split; [done|constructor]]. apply leased_row in E as (Hq & _ & Ho & Hl).
  destruct (bool_decide _ && _) eqn:Ei; [|split; [done|constructor]]. bools. cbn [transaction fst snd].
  set (d1 := put_row _ _ _). destruct (retire_framed now run reason d1) as (_ & -> & _).
  split; [apply keyed_retire; by eapply keyed_put_row|by eapply q_fails].
Qed.

Lemma finish_refines now tenant run owner d : refines (Finish now tenant run owner) d.
Proof.
  intros Hk. cbn [apply]. unfold if_true, finish_run_queue.
  destruct (leased now tenant run owner d) as [q|] eqn:E; [|split; [done|constructor]]. apply leased_row in E as (Hq & _ & Ho & Hl).
  destruct (holds_slot q && in_time now q && _) eqn:Ei; [|split; [done|constructor]]. bools. cbn. split; [by eapply keyed_put_row|by eapply q_finishes].
Qed.

Lemma limits_same l : validate_limits limits = Ok l → l = limits.
Proof. unfold validate_limits. intros Hv. ok_inv Hv. by injection Hv. Qed.

(** What a claim does: nothing, or the grant of the first row that may be claimed. *)
Definition claims (now : Instant) (owner : Uuid) (id : Uuid) (q : QueueRow) (d : Database) : Database :=
  set_dispatched (alter (λ _, Some now) q.(q_tenant_id) d.(dispatched)) (put_row id (granted now owner limits q) d).

Lemma claim_cases now locked owner d : keyed_well d → is_ok (validate_limits limits) = true →
  (claim_run_queue now locked owner limits d = (d, Ok None)
   ∧ (limits.(max_active) ≤ rows holds_slot d ∨ select_first (may_claim now locked d) (claim_key d) d = None))
  ∨ ∃ id q r c, select_first (may_claim now locked d) (claim_key d) d = Some (id, q) ∧ rows holds_slot d < limits.(max_active)
      ∧ d.(runs) !! id = Some r ∧ c.(c_run) = r ∧ c.(c_owner) = owner ∧ c.(reclaiming) = false
      ∧ claim_run_queue now locked owner limits d = (claims now owner id q d, Ok (Some c)).
Proof.
  intros Hk Hv. unfold claim_run_queue. destruct (validate_limits limits) as [l|] eqn:El; [|done]. apply limits_same in El as ->.
  destruct (Z.leb_spec limits.(max_active) (rows holds_slot d)) as [Hle|Hlt]; [left; split; [done|by left]|].
  destruct (select_first _ _ d) as [[id q]|] eqn:Es; [|left; split; [done|by right]]. right.
  destruct (selected _ _ _ _ Es) as (Hq & _ & _). cbn in Hq. destruct (k_row _ Hk _ _ Hq) as (r & Hr & _).
  exists id, q, r. eexists. split; [done|]. split; [done|]. split; [done|]. unfold claim_row. cbn. rewrite Hr, lookup_insert_eq. cbn. split_and!; cycle -1; [reflexivity|done..].
Qed.

(** What recovery does. *)
Definition recovers (now : Instant) (owner : Uuid) (id : Uuid) (q : QueueRow) (d : Database) : Database :=
  retire_run now id (recovery_reason d id q)
    (put_row id (with_grant q Reclaiming (Some owner) (Some (now + interval limits.(lease_seconds))) q.(execution_deadline)
                   (Some (recovery_reason d id q))) d).

Lemma recover_cases now locked owner d : keyed_well d → is_ok (validate_limits limits) = true →
  (recover_run_queue now locked owner limits d = (d, Ok None)
   ∧ (select_first (may_recover now locked d) recover_key d = None
      ∨ limits.(max_active) ≤ rows holds_slot d
        ∧ ∃ id q, select_first (may_recover now locked d) recover_key d = Some (id, q) ∧ q.(q_status) = QQueued))
  ∨ ∃ id q c, select_first (may_recover now locked d) recover_key d = Some (id, q)
      ∧ (q.(q_status) = QQueued → rows holds_slot d < limits.(max_active))
      ∧ (recovers now owner id q d).(runs) !! id = Some c.(c_run) ∧ c.(c_owner) = owner ∧ c.(reclaiming) = true
      ∧ recover_run_queue now locked owner limits d = (recovers now owner id q d, Ok (Some c)).
Proof.
  intros Hk Hv. unfold recover_run_queue. destruct (validate_limits limits) as [l|] eqn:El; [|done]. apply limits_same in El as ->.
  destruct (select_first _ _ d) as [[id q]|] eqn:Es; [|left; split; [done|by left]].
  destruct (selected _ _ _ _ Es) as (Hq & _ & _). cbn in Hq. destruct (k_row _ Hk _ _ Hq) as (r & Hr & _).
  destruct (bool_decide _ && _) eqn:Eg.
  { bools. left. split; [done|]. right. split; [lia|]. by exists id, q. }
  right. exists id, q. unfold recovers. cbv zeta. set (d1 := put_row id _ d).
  destruct (retire_framed now id (recovery_reason d id q) d1) as ([_ Hs] & Hqq & _). destruct (Hs id) as [r' Hr']; [by eexists|].
  eexists. split; [done|]. unfold claim_row. rewrite Hqq, Hr'.
  replace (queue d1 !! id) with (Some (with_grant q Reclaiming (Some owner) (Some (now + interval limits.(lease_seconds))) q.(execution_deadline)
    (Some (recovery_reason d id q)))) by (cbn; by rewrite lookup_insert_eq). cbn.
  split_and!; cycle -1; [reflexivity| |done..].
  intros Hst. rewrite bool_decide_true in Eg by done. cbn in Eg. lia.
Qed.

Lemma keyed_claims now owner id q d : keyed_well d → d.(queue) !! id = Some q → keyed_well (claims now owner id q d).
Proof.
  intros Hk Hq. apply (keyed_dispatched _ (put_row id (granted now owner limits q) d)); [by eapply keyed_put_row|].
  intros t [x Hx]. cbn in *. destruct (decide (t = q.(q_tenant_id))) as [->|Hne];
    [rewrite lookup_alter_eq, Hx; by eexists|rewrite lookup_alter_ne by done; by eexists].
Qed.

Lemma keyed_recovers now owner id q d : keyed_well d → d.(queue) !! id = Some q → keyed_well (recovers now owner id q d).
Proof. intros Hk Hq. apply keyed_retire. by eapply keyed_put_row. Qed.

Lemma claim_refines now locked owner d : refines (Claim now locked owner) d.
Proof.
  intros Hk. cbn [apply]. unfold if_granted. destruct (is_ok (validate_limits limits)) eqn:Hv.
  2:{ unfold claim_run_queue. destruct (validate_limits limits); [done|]. split; [done|constructor]. }
  destruct (claim_cases now locked owner d Hk Hv) as [[-> _]|(id & q & r & c & Es & Ha & Hr & Hc & _ & _ & ->)]; cbn [fst snd];
    [split; [done|constructor]|].
  destruct (selected _ _ _ _ Es) as (Hq & Hp & _). rewrite Hc, (k_run _ Hk _ _ Hr). unfold may_claim in Hp. cbn in Hq, Hp. bools.
  split; [by apply keyed_claims|]. cbn. apply q_executes; [done..|lia|done].
Qed.

Lemma recover_refines now locked owner d : refines (Recover now locked owner) d.
Proof.
  intros Hk. cbn [apply]. unfold if_granted. destruct (is_ok (validate_limits limits)) eqn:Hv.
  2:{ unfold recover_run_queue. destruct (validate_limits limits); [done|]. split; [done|constructor]. }
  destruct (recover_cases now locked owner d Hk Hv) as [[-> _]|(id & q & c & Es & Ha & Hr & _ & _ & ->)]; cbn [fst snd];
    [split; [done|constructor]|].
  destruct (selected _ _ _ _ Es) as (Hq & Hp & _). cbn in Hq. pose proof (keyed_recovers now owner id q d Hk Hq) as Hk'.
  rewrite (k_run _ Hk' _ _ Hr). split; [done|]. unfold recovers. set (d1 := put_row id _ d).
  destruct (retire_framed now id (recovery_reason d id q) d1) as (_ & -> & _). apply q_reclaims; [done|].
  unfold may_recover in Hp. cbn in Hp. destruct (state_of d id); [|done]. bools.
  match goal with Ho : _ || _ = true |- _ => apply orb_true_iff in Ho as [Hh|Hh]; bools; [by left|right; auto] end.
Qed.

(** Every operation is a step of the machine, or leaves the queue alone. *)
Lemma operation_refines o d : typed o → refines o d.
Proof.
  destruct o; intros Ht; try (by apply writers_refine); auto using create_refines, enqueue_refines, claim_refines, recover_refines,
    heartbeat_refines, fail_refines, finish_refines, delete_refines.
Qed.

(** ** Invariants of the machine *)
(** The table's checks: a row holds a slot exactly while it has an owner and a lease, one
    that executes has a deadline its lease never passes. *)
Definition row_ok (r : QueueRow) : Prop :=
  match r.(q_status) with
  | QQueued | Finished => r.(q_owner) = None ∧ r.(lease_until) = None
  | Reclaiming => is_Some r.(q_owner) ∧ is_Some r.(lease_until)
  | Executing => is_Some r.(q_owner) ∧ ∃ lease deadline,
      r.(lease_until) = Some lease ∧ r.(execution_deadline) = Some deadline ∧ lease ≤ deadline
  end.

Record queue_ok (m : gmap Uuid QueueRow) : Prop := {
  ok_rows id r : m !! id = Some r → row_ok r;
  ok_active : rows_in holds_slot m ≤ limits.(max_active);
  ok_pending : rows_in pending m ≤ limits.(global_pending);
  ok_tenant t : rows_in (λ r, pending r && of_tenant t r) m ≤ limits.(tenant_pending) }.

Lemma row_ok_step m l m' : qstep m l m' → (∀ id r, m !! id = Some r → row_ok r) → ∀ id r, m' !! id = Some r → row_ok r.
Proof.
  intros Hs Hok id' r'. destruct Hs; try (intros Hx; apply lookup_insert_Some in Hx as [[_ <-]|[_ Hx]]; [|by eapply Hok]).
  - apply Hok.
  - unfold row_ok. by rewrite H0.
  - unfold row_ok, granted. cbn. split; [by eexists|]. eexists _, _. split_and!; [done..|lia].
  - unfold row_ok. cbn. split; by eexists.
  - specialize (Hok id r H). unfold row_ok in *. cbn. destruct (q_status r) eqn:Est; unfold holds_slot in *; rewrite ?Est in *; try done.
    + destruct Hok as (? & lease & dl & ? & Hd & ?). split; [done|]. rewrite Hd. cbn. eexists _, dl. split_and!; [done..|]. by apply Z.le_min_r.
  - specialize (Hok id r H). unfold row_ok in *. rewrite H1 in Hok. cbn. destruct Hok as (? & lease & dl & -> & _). by split; [|eexists].
  - done.
  - intros Hx. apply lookup_delete_Some in Hx as [_ Hx]. by eapply Hok.
Qed.

Lemma rows_in_rewrite p id r0 r m : m !! id = Some r0 → (p r = true → p r0 = true) → rows_in p (<[id := r]> m) ≤ rows_in p m.
Proof. intros Hm Hp. rewrite (rows_in_insert p id r0 r m Hm). destruct (p r), (p r0); cbn; try lia. Qed.

Lemma rows_in_forget p id m : rows_in p (delete id m) ≤ rows_in p m.
Proof. destruct (m !! id) as [r|] eqn:E; [rewrite (rows_in_delete p id r m E); destruct (p r); cbn; lia|by rewrite delete_id]. Qed.

Lemma pending_holds r : holds_slot r = true → pending r = true.
Proof. unfold holds_slot, pending. by destruct (q_status r). Qed.

Lemma active_step m l m' : qstep m l m' → rows_in holds_slot m ≤ limits.(max_active) → rows_in holds_slot m' ≤ limits.(max_active).
Proof.
  intros Hs Hle. destruct Hs; try (etrans; [|exact Hle]; (eapply rows_in_rewrite; [done|]); by cbn).
  - done.
  - rewrite rows_in_cons by done. unfold holds_slot at 2. rewrite H0. cbn. lia.
  - rewrite (rows_in_insert _ _ _ _ _ H). unfold holds_slot at 2. rewrite H0. cbn. lia.
  - rewrite (rows_in_insert _ _ _ _ _ H). destruct H0 as [[Hh _]|[Hh ?]]; [rewrite Hh|unfold holds_slot at 2; rewrite Hh]; cbn; lia.
  - etrans; [|exact Hle]. eapply rows_in_rewrite; [done|]. unfold holds_slot. by rewrite H1.
  - etrans; [|exact Hle]. apply rows_in_forget.
Qed.

(** Past admission no step adds a pending row. *)
Lemma pending_step m l m' p : qstep m l m' → (∀ id, l ≠ Enqueued id) → (∀ r, p r = true → pending r = true) →
  (∀ r s o le dl why, pending r = true → p (with_grant r s o le dl why) = true → p r = true) → rows_in p m' ≤ rows_in p m.
Proof.
  intros Hs Hl Hp Hw. destruct Hs; try (by destruct (Hl id)); try (eapply rows_in_rewrite; [done|]; apply Hw).
  - done.
  - unfold pending. by rewrite H0.
  - unfold pending. destruct H0 as [[Hh _]|[-> _]]; [by apply pending_holds|done].
  - by apply pending_holds.
  - unfold pending. by rewrite H1.
  - by apply pending_holds.
  - apply rows_in_forget.
Qed.

Lemma queue_ok_step m l m' : qstep m l m' → queue_ok m → queue_ok m'.
Proof.
  intros Hs [O1 O2 O3 O4]. split; [by eapply row_ok_step|by eapply active_step| |]; [|intros t];
    destruct (match l with Enqueued _ => true | _ => false end) eqn:El.
  - destruct l; try done. inversion Hs; subst. rewrite rows_in_cons by done. destruct (pending r); cbn; lia.
  - etrans; [|exact O3]. apply (pending_step m l m'); [done|by intros ? ->|done|]. done.
  - destruct l; try done. inversion Hs; subst. rewrite rows_in_cons by done. specialize (O4 t). unfold of_tenant at 2.
    destruct (N.eqb_spec (q_tenant_id r) t) as [<-|]; destruct (pending r); cbn; lia.
  - etrans; [|exact (O4 t)]. apply (pending_step m l m'); [done|by intros ? ->|by intros r Hr; bools|].
    intros r s o le dl why Hr Hx. bools. by rewrite Hr.
Qed.

(** ** Histories *)
Inductive qsteps (m : gmap Uuid QueueRow) : list Label → gmap Uuid QueueRow → Prop :=
| qs_nil : qsteps m [] m
| qs_snoc ls m1 l m2 : qsteps m ls m1 → qstep m1 l m2 → qsteps m (ls ++ [l]) m2.

Lemma run_ops_snoc os o d :
  run_ops (os ++ [o]) d = (let '(d1, ls) := run_ops os d in let '(d2, l) := apply o d1 in (d2, ls ++ [l])).
Proof.
  revert d. induction os as [|o' os IH]; intros d; cbn; [by destruct (apply o d)|]. destruct (apply o' d) as [d1 l1]. rewrite IH.
  destruct (run_ops os d1) as [d2 ls]. by destruct (apply o d2).
Qed.

Lemma run_ops_refines os d : Forall typed os → keyed_well d →
  keyed_well (run_ops os d).1 ∧ qsteps d.(queue) (run_ops os d).2 (run_ops os d).1.(queue).
Proof.
  intros Ht Hk. induction os as [|o os IH] using rev_ind; [split; [done|constructor]|]. apply Forall_app in Ht as [Ht Ho].
  apply Forall_cons in Ho as [Ho _]. rewrite run_ops_snoc. destruct (IH Ht) as [Hk1 Hs]. destruct (run_ops os d) as [d1 ls]. cbn in *.
  pose proof (operation_refines o d1 Ho Hk1) as [Hk2 Hs2]. destruct (apply o d1) as [d2 l]. cbn in *. split; [done|by econstructor].
Qed.

(** A rule-induction principle: what an empty queue has and every step keeps. *)
Lemma history_ind (P : list Label → gmap Uuid QueueRow → Prop) :
  P [] ∅ → (∀ ls m l m', P ls m → qstep m l m' → P (ls ++ [l]) m') → ∀ ls m, qsteps ∅ ls m → P ls m.
Proof. intros H0 Hs ls m Hq. induction Hq; [done|by eapply Hs]. Qed.

(** The database before the first run. *)
Definition opened (ts : gset Uuid) (ms : gmap Uuid Uuid) : Database := {|
  tenants := ts; machines := ms; runs := ∅; attempts := ∅; events := ∅; links := ∅; queue := ∅; dispatched := ∅ |}.

Lemma opened_keyed ts ms : keyed_well (opened ts ms).
Proof. split; intros id ? Hx; cbn in Hx; by rewrite lookup_empty in Hx. Qed.

(** Limits the code accepts; each is a [u32]. *)
Definition sound_limits : Prop :=
  is_ok (validate_limits limits) = true ∧ 0 ≤ limits.(global_pending) ∧ 0 ≤ limits.(tenant_pending) ∧ 0 ≤ limits.(max_active).

Lemma sound_positive : sound_limits → 0 < limits.(max_active) ∧ 0 < limits.(lease_seconds).
Proof. intros (Hv & Hg & Ht & Hm). unfold validate_limits in Hv. destruct (_ || _) eqn:E; [done|]. bools. lia. Qed.

Lemma rows_in_empty p : rows_in p ∅ = 0.
Proof. unfold rows_in. by rewrite map_to_list_empty. Qed.

Lemma history_ok ls m : sound_limits → qsteps ∅ ls m → queue_ok m.
Proof.
  intros (_ & Hg & Ht & Hm). apply (history_ind (λ _ m, queue_ok m)); [|intros ls' m1 l m2 Hok Hs; by eapply queue_ok_step].
  split; [intros id r Hx; by rewrite lookup_empty in Hx|..]; intros; rewrite rows_in_empty; lia.
Qed.

(** ** How often a run is dispatched *)
Definition is_enqueued (id : Uuid) (l : Label) : bool := match l with Enqueued i => (i =? id)%N | _ => false end.
Definition is_executes (id : Uuid) (l : Label) : bool := match l with Executes i _ => (i =? id)%N | _ => false end.
Definition is_forgets (id : Uuid) (l : Label) : bool := match l with Forgets i => (i =? id)%N | _ => false end.
Definition times (f : Label → bool) (ls : list Label) : nat := length (List.filter f ls).

Lemma times_snoc f ls l : times f (ls ++ [l]) = (times f ls + (if f l then 1 else 0))%nat.
Proof. unfold times. rewrite List.filter_app, length_app. cbn. by destruct (f l). Qed.

Definition waits (id : Uuid) (m : gmap Uuid QueueRow) : nat :=
  match m !! id with Some r => if bool_decide (r.(q_status) = QQueued) then 1 else 0 | None => 0 end.
Definition present (id : Uuid) (m : gmap Uuid QueueRow) : nat := match m !! id with Some _ => 1 | None => 0 end.

(** A dispatch uses up a waiting row, only admission makes one. *)
Lemma dispatch_step id m l m' : qstep m l m' →
  (waits id m' + (if is_executes id l then 1 else 0) ≤ waits id m + (if is_enqueued id l then 1 else 0))%nat
  ∧ (present id m + (if is_enqueued id l then 1 else 0) ≤ present id m' + (if is_forgets id l then 1 else 0))%nat.
Proof.
  unfold waits, present. intros Hs. destruct Hs as [|i r Hn Hq ? ?|now i o r Hi Hq|now i o r why Hi Hq|now i o r n Hi|now i o r why Hi ? Hq|now i o r Hi|i];
    cbn [is_executes is_enqueued is_forgets]; try (destruct (N.eqb_spec i id) as [->|Hne];
      [rewrite ?lookup_insert_eq, ?lookup_delete_eq; try rewrite Hi; try rewrite Hn|rewrite ?lookup_insert_ne, ?lookup_delete_ne by done; split; lia]);
    cbn; rewrite ?Hq; cbn; repeat case_match; simplify_eq; try (split; lia).
Qed.

Lemma history_dispatch id ls m : qsteps ∅ ls m →
  (times (is_executes id) ls + waits id m ≤ times (is_enqueued id) ls)%nat
  ∧ (times (is_enqueued id) ls ≤ times (is_forgets id) ls + present id m)%nat.
Proof.
  apply (history_ind (λ ls m, (times (is_executes id) ls + waits id m ≤ times (is_enqueued id) ls)%nat
    ∧ (times (is_enqueued id) ls ≤ times (is_forgets id) ls + present id m)%nat)); [by cbn; unfold waits, present; rewrite lookup_empty|].
  intros ls' m1 l m2 [H1 H2] Hs. destruct (dispatch_step id m1 l m2 Hs). rewrite !times_snoc. lia.
Qed.

(** ** Who holds a row *)
Definition hold (id : Uuid) (h : option Uuid) (l : Label) : option Uuid :=
  match l with
  | Executes i o | Reclaims i o => if (i =? id)%N then Some o else h
  | Enqueued i | Finishes i _ | Forgets i => if (i =? id)%N then None else h
  | Silent | Beats _ _ | Fails _ _ => h
  end.
Definition holder (id : Uuid) (ls : list Label) : option Uuid := fold_left (hold id) ls None.

(** The grant an executor's write rests on. *)
Definition acts (l : Label) : option (Uuid * Uuid) :=
  match l with Beats i o | Fails i o | Finishes i o => Some (i, o) | _ => None end.

Definition owner_of (m : gmap Uuid QueueRow) (id : Uuid) : option Uuid := m !! id ≫= q_owner.

Lemma owner_step id m l m' : qstep m l m' → owner_of m' id = hold id (owner_of m id) l.
Proof.
  unfold owner_of. intros Hs. destruct Hs as [|i r|now i o r Hi|now i o r why Hi|now i o r n Hi|now i o r why Hi|now i o r Hi|i]; cbn [hold]; [done|..];
    (destruct (N.eqb_spec i id) as [->|Hne]; [rewrite ?lookup_insert_eq, ?lookup_delete_eq|by rewrite ?lookup_insert_ne, ?lookup_delete_ne]);
    rewrite ?Hi; cbn; auto.
Qed.

Lemma history_holder id ls m : qsteps ∅ ls m → owner_of m id = holder id ls.
Proof.
  apply (history_ind (λ ls m, owner_of m id = holder id ls)); [by unfold owner_of; rewrite lookup_empty|].
  intros ls' m1 l m2 IH Hs. rewrite (owner_step _ _ _ _ Hs), IH. unfold holder. by rewrite fold_left_app.
Qed.

Lemma acts_step m l m' id o : qstep m l m' → acts l = Some (id, o) → owner_of m id = Some o.
Proof. intros Hs Ha. unfold owner_of. destruct Hs; simplify_eq/=; by rewrite H. Qed.

Lemma qsteps_split m ls1 l ls2 m' : qsteps m (ls1 ++ l :: ls2) m' → ∃ m1 m2, qsteps m ls1 m1 ∧ qstep m1 l m2.
Proof.
  revert m'. induction ls2 as [|l2 ls2 IH] using rev_ind; intros m' Hs.
  - inversion Hs as [|ls m1 l' m2 Hs1 Hs2 He]; [by destruct ls1|]. apply app_inj_tail in He as [-> ->]. by exists m1, m'.
  - rewrite app_comm_cons, app_assoc in Hs. inversion Hs as [He|ls m1 l' m2 Hs1 Hs2 He]; [by destruct ls1|].
    apply app_inj_tail in He as [-> ->]. by eapply IH.
Qed.

End Operations.

(** ** Theorems *)
Section Histories.
Context (limits : RunQueueLimits) (ts : gset Uuid) (ms : gmap Uuid Uuid) (os : list op).
Hypothesis operations_typed : Forall typed os.

Abbreviation store := (run_ops limits os (opened ts ms)).1.
Abbreviation labels := (run_ops limits os (opened ts ms)).2.

Lemma reached : keyed_well store ∧ qsteps limits ∅ labels store.(queue).
Proof. exact (run_ops_refines limits os (opened ts ms) operations_typed (opened_keyed ts ms)). Qed.

(** C6: whatever mix of admissions, claims, recoveries, executors' writes and other writes
    of runs reaches the database, the queue it leaves is one its machine reaches, every row
    satisfies the table's checks (an owner and a lease exactly while it holds a slot, a lease
    that never passes the execution deadline), and neither the number of slots held nor the
    pending rows, of all tenants or of one, passes its limit. *)
Theorem queue_never_exceeds_its_limits : sound_limits limits →
  qsteps limits ∅ labels store.(queue) ∧ queue_ok limits store.(queue).
Proof. intros Hl. destruct reached as [_ Hs]. split; [done|by eapply history_ok]. Qed.

(** C15: a run is dispatched at most as often as it was admitted, and admitted once unless its
    row was deleted in between: one that is never deleted is executed at most once, however
    many dispatchers and recoveries ran. *)
Theorem run_dispatched_at_most_once id :
  (times (is_executes id) labels ≤ times (is_enqueued id) labels)%nat
  ∧ (times (is_enqueued id) labels ≤ times (is_forgets id) labels + 1)%nat.
Proof.
  destruct reached as [_ Hs]. destruct (history_dispatch limits id _ _ Hs) as [H1 H2]. assert (present id store.(queue) ≤ 1)%nat; [|lia].
  unfold present. case_match; lia.
Qed.

(** C16: an executor's heartbeat, failure or completion takes effect only while the last grant
    of that run was its own, and a run is dispatched only while nobody holds it. *)
Theorem only_the_holder_writes ls1 l ls2 id owner : labels = ls1 ++ l :: ls2 →
  (acts l = Some (id, owner) → holder id ls1 = Some owner) ∧ (l = Executes id owner → sound_limits limits → holder id ls1 = None).
Proof.
  intros Hl. destruct reached as [_ Hs]. rewrite Hl in Hs. destruct (qsteps_split _ _ _ _ _ _ Hs) as (m1 & m2 & Hs1 & Hst).
  rewrite <-(history_holder limits id _ _ Hs1). split; [by eapply acts_step|]. intros -> Hv. inversion Hst; subst.
  pose proof (ok_rows _ _ (history_ok limits _ _ Hv Hs1) id r ltac:(done)) as Hok. unfold owner_of, row_ok in *.
  match goal with Hm : m1 !! id = Some r, Hq : q_status r = _ |- _ => rewrite Hm; rewrite Hq in Hok; by destruct Hok end.
Qed.

End Histories.

(** How many slots a tenant holds, and when it was last served. *)
Definition held (d : Database) (tenant : Uuid) : Z := rows (λ r, holds_slot r && of_tenant tenant r) d.
Definition served (d : Database) (tenant : Uuid) : option Instant := d.(dispatched) !! tenant ≫= id.
Definition no_later (a b : option Instant) : Prop := match a, b with None, _ => True | Some _, None => False | Some x, Some y => x ≤ y end.

(** [x] goes before [y]. *)
Definition fairer (d : Database) (x y : QueueRow) : Prop :=
  held d x.(q_tenant_id) ≤ held d y.(q_tenant_id)
  ∧ (held d x.(q_tenant_id) = held d y.(q_tenant_id) → no_later (served d x.(q_tenant_id)) (served d y.(q_tenant_id)))
  ∧ (x.(q_tenant_id) = y.(q_tenant_id) → x.(enqueued_at) ≤ y.(enqueued_at)).

Lemma claim_key_fair d x y : keys_leb (claim_key d x) (claim_key d y) = true → fairer d x.2 y.2.
Proof.
  unfold claim_key, fairer, served. fold (held d x.2.(q_tenant_id)). fold (held d y.2.(q_tenant_id)). cbn [app keys_leb].
  destruct (Z.ltb_spec (held d x.2.(q_tenant_id)) (held d y.2.(q_tenant_id))) as [Hlt|Hge].
  { intros _. split_and!; [lia|lia|]. intros He. rewrite He in Hlt. lia. }
  destruct (Z.ltb_spec (held d y.2.(q_tenant_id)) (held d x.2.(q_tenant_id))) as [Hlt|Hge2]; [done|].
  intros Hk. split; [lia|]. split.
  - intros _. destruct (dispatched d !! q_tenant_id x.2) as [[tx|]|], (dispatched d !! q_tenant_id y.2) as [[ty|]|]; cbn in *; try done.
    destruct (Z.ltb_spec tx ty), (Z.ltb_spec ty tx); try done; lia.
  - intros He. rewrite He in Hk. destruct (dispatched d !! q_tenant_id y.2) as [[ty|]|]; cbn in Hk; rewrite ?Z.ltb_irrefl in Hk;
      destruct (Z.ltb_spec x.2.(enqueued_at) y.2.(enqueued_at)), (Z.ltb_spec y.2.(enqueued_at) x.2.(enqueued_at)); try done; lia.
Qed.

(** C36: a claim is refused only when every slot is taken or no row may be claimed, and
    otherwise grants a row that may be claimed and that goes before all others: its tenant
    holds the fewest slots, among those was served longest ago (or never), and it is the
    oldest of its tenant. *)
Theorem claim_is_fair limits now locked owner d : keyed_well d → sound_limits limits →
  (claim_run_queue now locked owner limits d = (d, Ok None)
   ∧ (limits.(max_active) ≤ rows holds_slot d ∨ ∀ id q, d.(queue) !! id = Some q → may_claim now locked d (id, q) = false))
  ∨ ∃ id q c, claim_run_queue now locked owner limits d = (claims limits now owner id q d, Ok (Some c))
      ∧ d.(runs) !! id = Some c.(c_run) ∧ c.(c_owner) = owner ∧ c.(reclaiming) = false ∧ rows holds_slot d < limits.(max_active)
      ∧ d.(queue) !! id = Some q ∧ may_claim now locked d (id, q) = true
      ∧ ∀ id' q', d.(queue) !! id' = Some q' → may_claim now locked d (id', q') = true → fairer d q q'.
Proof.
  intros Hk [Hv _]. destruct (claim_cases limits now locked owner d Hk Hv) as [[-> Hn]|(id & q & r & c & Es & Ha & Hr & Hc & Ho & Hf & ->)].
  - left. split; [done|]. destruct Hn as [Hn|Hn]; [by left|]. right. intros id q Hq. by apply (none_selected _ _ _ Hn (id, q)).
  - right. destruct (selected _ _ _ _ Es) as (Hq & Hp & Hmin). exists id, q, c. rewrite Hc. split_and!; try done.
    intros id' q' Hq' Hp'. by apply (claim_key_fair d (id, q) (id', q')), Hmin.
Qed.

(** ** The life of a run *)
(** A run stays where it is or takes a step of its state machine. *)
Definition moves (d d' : Database) : Prop := ∀ id r, d.(runs) !! id = Some r →
  ∃ r', d'.(runs) !! id = Some r' ∧ (r'.(r_state) = r.(r_state) ∨ run_step r.(r_state) r'.(r_state)).

Lemma moves_same d d' : d'.(runs) = d.(runs) → moves d d'.
Proof. intros He id r Hr. rewrite He. eauto. Qed.

Lemma moves_put i r r0 d : d.(runs) !! i = Some r0 → r.(r_state) = r0.(r_state) ∨ run_step r0.(r_state) r.(r_state) → moves d (put_run i r d).
Proof.
  intros Hr Hs id r1 Hr1. cbn. destruct (decide (i = id)) as [->|Hne]; [rewrite lookup_insert_eq; simplify_eq; eauto|].
  rewrite lookup_insert_ne by done. eauto.
Qed.

Lemma moves_new i r d : d.(runs) !! i = None → moves d (put_run i r d).
Proof. intros Hn id r1 Hr1. cbn. rewrite lookup_insert_ne by congruence. eauto. Qed.

Lemma moves_transaction {A} d (r : result RunError.t (Database * A)) : (∀ d' a, r = Ok (d', a) → moves d d') → moves d (transaction d r).1.
Proof. intros Hr. destruct r as [[d' a]|]; cbn; [by eapply Hr|by apply moves_same]. Qed.

Lemma active_fails s : is_terminal s = false → run_step s Failed.
Proof. by destruct s. Qed.

Lemma moves_retire now i why d : moves d (retire_run now i why d).
Proof.
  unfold retire_run. destruct (d.(runs) !! i) as [r|] eqn:Hr; [destruct (is_terminal _) eqn:Et|]; try by apply moves_same.
  intros id r1 Hr1. cbn. destruct (decide (i = id)) as [->|Hne]; [rewrite lookup_insert_eq; simplify_eq|rewrite lookup_insert_ne by done; eauto].
  eexists. split; [done|]. right. cbn. by apply active_fails.
Qed.

(** The writes that keep to the state machine: all but a [set_run_failure] of the run to a state
    that is not a failure, since that statement only protects success and cancellation. *)
Definition keeps_to_lifecycle (id : Uuid) (o : op) : bool :=
  match o with SetFailure _ _ i _ state => negb (i =? id)%N || bool_decide (state = Failed) | _ => true end.

Lemma recover_moves limits now locked owner d : moves d (recover_run_queue now locked owner limits d).1.
Proof.
  unfold recover_run_queue. apply moves_transaction. intros d' a Hx. ok_inv Hx. case_match; [|simplify_eq; by apply moves_same]. case_match.
  case_match; [simplify_eq; by apply moves_same|]. ok_inv Hx. injection Hx as <- <-. set (d1 := put_row _ _ d). intros id r Hr. by apply (moves_retire _ _ _ d1).
Qed.

Lemma fail_moves now t i owner why d : moves d (fail_run_queue now t i owner why d).1.
Proof.
  unfold fail_run_queue. apply moves_transaction. intros d' a Hx. repeat case_match; simplify_eq; try by apply moves_same.
  set (d1 := put_row _ _ d). intros id r Hr. by apply (moves_retire _ _ _ d1).
Qed.

Lemma insert_moves v d d' r : insert_run v d = Ok (d', r) → moves d d'.
Proof. intros Hi. apply insert_run_ok in Hi as [[-> _]|(-> & _ & Hn & _)]; [by apply moves_same|by apply moves_new]. Qed.

Lemma enqueue_moves limits now v rq d : moves d (enqueue_run now v rq limits d).1.
Proof.
  unfold enqueue_run. apply moves_transaction. intros d' a Hx. ok_inv Hx. destruct rq; [|done]. ok_inv Hx. case_match; [by simplify_eq; apply moves_same|].
  ok_inv Hx. match goal with Hi : insert_run _ _ = Ok ?x |- _ => destruct x as [d1 c]; apply insert_moves in Hi as Hm end.
  intros id r Hr. destruct (Hm id r Hr) as (r' & Hr' & Hs). exists r'. split; [|done]. case_match; simplify_eq; [|done]. cbn. unfold known. by case_match.
Qed.

Ltac moves_row := apply moves_transaction; let d' := fresh in let a := fresh in let H := fresh in intros d' a H; ok_inv H; injection H as <- <-;
  match goal with E : get_run _ _ _ = Ok _ |- _ => apply get_run_run in E as [? _]; eapply moves_put; [done|cbn; bools; try (by left)] end.

Lemma results_move now t i results state d : moves d (record_run_results now t i results state d).1.
Proof.
  unfold record_run_results. moves_row. destruct (decide (r_state a = state)) as [->|Hne]; [by left|right]. rewrite bool_decide_false in Hif by done.
  cbn in Hif. by apply negb_false_iff in Hif.
Qed.

Lemma failure_moves now t i results why d : moves d (record_run_failure now t i results why d).1.
Proof. unfold record_run_failure. moves_row. case_bool_decide as Hf; [by left|]. destruct (r_state a) eqn:Es; try (by right); try (by left); by destruct Hf; rewrite elem_of_cons, elem_of_cons; auto. Qed.

Lemma update_moves now t i from to d : moves d (update_run_state now t i from to d).1.
Proof.
  unfold update_run_state. apply moves_transaction. intros d' a Hx. ok_inv Hx. destruct (owned d t i) as [r|] eqn:E; [|done]. ok_inv Hx.
  injection Hx as <- <-. apply owned_run in E as [Hr _]. eapply moves_put; [done|]. right. bools. cbn. unfold run_step. congruence.
Qed.

Lemma other_moves limits o d : writes_runs o = true → match o with SetFailure _ _ _ _ _ => False | _ => True end → moves d (apply limits o d).1.
Proof.
  destruct o; try done; intros _ Hs; cbn [apply quiet fst]; try done; auto using update_moves, results_move, failure_moves;
    unfold set_run_placement, retain_run_sandbox, record_retention_cleanup_failure, clear_run_retention, append_run_event, link_run_sandbox,
      record_run_attempt, complete_run_attempt, create_attempt_sandbox; try moves_row;
    apply moves_transaction; intros d' a Hx; ok_inv Hx; repeat case_match; simplify_eq; by apply moves_same.
Qed.

Lemma set_failure_step now t i why st d id r : (i ≠ id ∨ st = Failed) → d.(runs) !! id = Some r →
  ∃ r', (set_run_failure now t i why st d).1.(runs) !! id = Some r' ∧ (r'.(r_state) = r.(r_state) ∨ run_step r.(r_state) r'.(r_state)).
Proof.
  intros Hi Hr. unfold set_run_failure, transaction. match goal with |- context [match ?x with Ok _ => _ | Err _ => _ end] => destruct x as [[d1 u]|] eqn:E end;
    [|by exists r; split; [|left]].
  ok_inv E. injection E as <- <-. cbn. destruct (decide (i = id)) as [->|Hne]; [|exists r; rewrite lookup_insert_ne by done; by split; [|left]].
  destruct Hi as [Hi|Hi]; [done|subst st]. apply get_run_run in Hok as [Hr' _]. rewrite Hr in Hr'. injection Hr' as <-.
  rewrite lookup_insert_eq. eexists. split; [done|]. cbn. case_bool_decide as Hf; [by left|].
  destruct (r_state r) eqn:Es; try (by right); try (by left); by destruct Hf; rewrite elem_of_cons, elem_of_cons; auto.
Qed.

Lemma lifecycle_step limits id o d r : keeps_to_lifecycle id o = true → d.(runs) !! id = Some r →
  (apply limits o d).1.(runs) !! id = None ∧ (∃ t, o = DeleteRun t id)
  ∨ ∃ r', (apply limits o d).1.(runs) !! id = Some r' ∧ (r'.(r_state) = r.(r_state) ∨ run_step r.(r_state) r'.(r_state)).
Proof.
  intros Hl Hr. destruct (writes_runs o) eqn:Hw.
  - right. destruct o; try done; try (by apply (other_moves limits _ d Hw I)). cbn in *. apply set_failure_step; [|done].
    apply orb_true_iff in Hl as [Hl|Hl]; [left; by apply N.eqb_neq, negb_true_iff|right; by apply bool_decide_eq_true in Hl].
  - destruct o; try done; cbn [apply quiet if_true if_granted fst]; [right..|].
    + unfold create_run. apply moves_transaction; [|done]. intros d' a. apply insert_moves.
    + by apply enqueue_moves.
    + unfold claim_run_queue. apply moves_transaction; [|done]. intros d' a Hx. ok_inv Hx. repeat case_match; simplify_eq; try by apply moves_same.
    + by apply recover_moves.
    + unfold heartbeat_run_queue. apply moves_transaction; [|done]. intros d' a Hx. ok_inv Hx. repeat case_match; simplify_eq; by apply moves_same.
    + by apply fail_moves.
    + unfold finish_run_queue. apply moves_transaction; [|done]. intros d' a Hx. repeat case_match; simplify_eq; by apply moves_same.
    + unfold delete_run, transaction.
      match goal with |- context [match ?x with Ok _ => _ | Err _ => _ end] => destruct x as [[d1 u]|] eqn:E end; [|by right; exists r; split; [|left]].
      ok_inv E. simplify_eq. cbn. match goal with |- context [delete ?i _] => destruct (decide (i = id)) as [->|Hne] end.
      * left. rewrite lookup_delete_eq. by eauto.
      * right. exists r. rewrite lookup_delete_ne by done. by split; [|left].
Qed.

(** C35: whatever mix of writers a run has, until it is deleted its state only ever takes steps
    of its state machine, and a verdict, once stored, is final: recoveries, late results, late
    failures and cancellations leave it as it is.  The one write left out is a
    [set_run_failure] of the run to a state other than failed; see
    [set_failure_reopens_failed_run]. *)
Theorem run_states_follow_lifecycle limits id os d r : Forall (λ o, keeps_to_lifecycle id o = true) os → d.(runs) !! id = Some r →
  (∃ before t after, os = before ++ DeleteRun t id :: after ∧ (run_ops limits (before ++ [DeleteRun t id]) d).1.(runs) !! id = None)
  ∨ ∃ r', (run_ops limits os d).1.(runs) !! id = Some r' ∧ rtc run_step r.(r_state) r'.(r_state)
    ∧ (is_terminal r.(r_state) = true → r'.(r_state) = r.(r_state)).
Proof.
  revert d r. induction os as [|o os IH]; intros d r Hl Hr; [by right; exists r|]. apply Forall_cons in Hl as [Ho Hl]. cbn [run_ops].
  destruct (lifecycle_step limits id o d r Ho Hr) as [[Hn (t & ->)]|(r1 & Hr1 & Hs)].
  { left. exists [], t, os. split; [done|]. cbn [app run_ops]. by destruct (apply limits (DeleteRun t id) d) as [d1 l]. }
  destruct (apply limits o d) as [d1 l] eqn:Ha. cbn in Hr1.
  destruct (IH d1 r1 Hl Hr1) as [(before & t & after & -> & Hn)|(r2 & Hr2 & Hrtc & Hfin)].
  { left. exists (o :: before), t, after. split; [done|]. cbn [app run_ops]. rewrite Ha. by destruct (run_ops limits (before ++ [DeleteRun t id]) d1). }
  right. destruct (run_ops limits os d1) as [d2 ls]. exists r2. split; [done|]. cbn in *. destruct Hs as [Hs|Hs].
  - rewrite Hs in *. done.
  - split; [by eapply rtc_l|]. intros Ht. exfalso. by eapply terminal_stuck.
Qed.

(** [set_run_failure] takes a run that failed to any state it is given, a running one
    included. *)
Theorem set_failure_reopens_failed_run now id reason state d r : d.(runs) !! id = Some r → r.(r_state) = Failed →
  ∃ r', set_run_failure now r.(r_tenant_id) id reason state d = (put_run id r' d, Ok r') ∧ r'.(r_state) = state.
Proof.
  intros Hr Hs. unfold set_run_failure, get_run, owned. rewrite Hr. cbn. rewrite N.eqb_refl. cbn. rewrite Hs, bool_decide_false; [by eexists|].
  intros Hf. by repeat (apply elem_of_cons in Hf as [Hf|Hf]; [done|]); apply not_elem_of_nil in Hf.
Qed.

(** a failure that arrives late does rewrite a settled run: the results and the reason of
    a run that succeeded or was cancelled are replaced, only its verdict and the time of it
    stay. *)
Theorem late_failure_rewrites_results now id results reason d r : d.(runs) !! id = Some r → r.(r_state) ∈ [Succeeded; Cancelled] →
  ∃ r', record_run_failure now r.(r_tenant_id) id results reason d = (put_run id r' d, Ok r')
    ∧ r'.(r_state) = r.(r_state) ∧ r'.(r_completed_at) = r.(r_completed_at) ∧ r'.(r_results) = results ∧ r'.(r_failure_reason) = reason.
Proof.
  intros Hr Hs. unfold record_run_failure, get_run, owned. rewrite Hr. cbn. rewrite N.eqb_refl. cbn. rewrite (bool_decide_true _ Hs), bool_decide_false.
  - by eexists.
  - intros Hf. rewrite Hf in Hs. by repeat (apply elem_of_cons in Hs as [Hs|Hs]; [done|]); apply not_elem_of_nil in Hs.
Qed.

(** ** A sample *)
Module SampleRuns.

Definition run (id tenant : Uuid) (key : option string) : Run := {|
  r_id := id; r_tenant_id := tenant; r_state := Queued; r_queued_at := None; r_started_at := None; r_completed_at := None;
  r_timeout_seconds := None; r_document := ""; r_placement := ""; r_results := default_results;
  r_failure_reason := None; r_retained_sandbox_id := None; r_retained_until := None; r_idempotency_key := key |}.

Definition limits : RunQueueLimits := {|
  global_pending := 3; tenant_pending := 2; max_active := 1; queue_timeout_seconds := 300; lease_seconds := 30 |}.

(** Two tenants; the first admits two runs and a retry of one of them, the second one. *)
Definition admitted : list op := [
  Enqueue 0 (run 1 10 (Some "k")) (Some "r"); Enqueue 1 (run 2 10 None) (Some "r"); Enqueue 2 (run 3 10 None) (Some "r");
  Enqueue 3 (run 4 10 (Some "k")) (Some "r"); Enqueue 4 (run 5 20 None) (Some "r")].

(** The first run executes and settles; the second loses its executor and is taken over. *)
Definition served_runs : list op := [
  Claim 5 ∅ 100; Claim 6 ∅ 101; Heartbeat 7 10 1 100 30; UpdateState 8 10 1 Queued Cancelled; Finish 9 10 1 100;
  Claim 10 ∅ 102; Recover 11 ∅ 103; Recover (11 + interval 31) ∅ 103; Heartbeat (12 + interval 31) 20 5 102 30].

Definition start : Database := opened {[10%N; 20%N]} ∅.

Lemma admitted_typed : Forall typed (admitted ++ served_runs).
Proof. repeat (constructor; [exact I || (cbn; lia)|]). constructor. Qed.

Lemma limits_sound : sound_limits limits.
Proof. repeat split; cbn; lia. Qed.

Lemma sample_history : (run_ops limits (admitted ++ served_runs) start).2 = [
  Enqueued 1; Enqueued 2; Silent; Silent; Enqueued 5; Executes 1 100; Silent; Beats 1 100; Silent; Finishes 1 100; Executes 5 102; Silent;
  Reclaims 5 103; Silent].
Proof. vm_compute. reflexivity. Qed.

Lemma queue_never_exceeds_its_limits_witness :
  rows pending (run_ops limits (admitted ++ served_runs) start).1 = 2
  ∧ queue_ok limits (run_ops limits (admitted ++ served_runs) start).1.(queue).
Proof.
  split; [vm_compute; reflexivity|]. exact (proj2 (queue_never_exceeds_its_limits limits {[10%N; 20%N]} ∅ (admitted ++ served_runs) admitted_typed limits_sound)).
Defined.

Lemma run_dispatched_at_most_once_witness : (times (is_executes 5) (run_ops limits (admitted ++ served_runs) start).2 ≤ 1)%nat.
Proof.
  destruct (run_dispatched_at_most_once limits {[10%N; 20%N]} ∅ (admitted ++ served_runs) admitted_typed 5) as [H1 H2].
  etrans; [exact H1|]. etrans; [exact H2|]. fold start. rewrite sample_history. vm_compute. constructor.
Defined.

Lemma only_the_holder_writes_witness :
  holder 1 [Enqueued 1; Enqueued 2; Silent; Silent; Enqueued 5; Executes 1 100; Silent; Beats 1 100; Silent] = Some 100%N.
Proof.
  exact (proj1 (only_the_holder_writes limits {[10%N; 20%N]} ∅ (admitted ++ served_runs) admitted_typed
    [Enqueued 1; Enqueued 2; Silent; Silent; Enqueued 5; Executes 1 100; Silent; Beats 1 100; Silent] (Finishes 1 100)
    [Executes 5 102; Silent; Reclaims 5 103; Silent] 1 100 sample_history) eq_refl).
Defined.

Lemma claim_is_fair_witness : ∃ c, (claim_run_queue 5 ∅ 100 limits (run_ops limits admitted start).1).2 = Ok (Some c) ∧ c.(c_owner) = 100%N.
Proof.
  assert (Hk : keyed_well (run_ops limits admitted start).1).
  { apply (reached limits {[10%N; 20%N]} ∅ admitted). exact (proj1 (proj1 (Forall_app _ _ _) admitted_typed)). }
  destruct (claim_is_fair limits 5 ∅ 100 (run_ops limits admitted start).1 Hk limits_sound) as [[Hn _]|(id & q & c & -> & _ & Ho & _)].
  - exfalso. apply (f_equal snd) in Hn. vm_compute in Hn. discriminate Hn.
  - exists c. split; [reflexivity|exact Ho].
Defined.

(** The run of the second tenant is cancelled, then recovered, reported and failed. *)
Definition cancelled : Database := (run_ops limits (admitted ++ [UpdateState 6 20 5 Queued Cancelled]) start).1.
Definition late : list op := [
  Recover 7 ∅ 104; Fail_ 8 20 5 104 "late"; RecordResults 9 20 5 default_results Running; RecordFailure 10 20 5 default_results (Some "late");
  Finish 11 20 5 104; UpdateState 12 20 5 Cancelled Preparing; SetFailure 13 20 5 (Some "late") Failed].

Lemma run_states_follow_lifecycle_witness : ∃ r', (run_ops limits late cancelled).1.(runs) !! 5%N = Some r' ∧ r'.(r_state) = Cancelled.
Proof.
  assert (Hr : r_state <$> cancelled.(runs) !! 5%N = Some Cancelled) by (vm_compute; reflexivity).
  destruct (cancelled.(runs) !! 5%N) as [r|] eqn:E; [|discriminate Hr]. cbn in Hr. injection Hr as Hr.
  destruct (run_states_follow_lifecycle limits 5 late cancelled r) as [(before & t & after & Hd & _)|(r' & Hr' & _ & Hfin)];
    [repeat constructor|exact E| |].
  { exfalso. assert (Hin : In (DeleteRun t 5) late) by (rewrite Hd; apply in_or_app; right; left; reflexivity).
    repeat (destruct Hin as [Hin|Hin]; [discriminate Hin|]). exact Hin. }
  exists r'. split; [exact Hr'|]. rewrite Hfin; rewrite Hr; reflexivity.
Defined.

Lemma late_failure_rewrites_results_witness : ∃ r',
  (record_run_failure 9 20 5 default_results (Some "late") cancelled).1.(runs) !! 5%N = Some r' ∧ r'.(r_state) = Cancelled
  ∧ r'.(r_failure_reason) = Some "late".
Proof.
  assert (Hr : r_state <$> cancelled.(runs) !! 5%N = Some Cancelled) by (vm_compute; reflexivity).
  assert (Ht : r_tenant_id <$> cancelled.(runs) !! 5%N = Some 20%N) by (vm_compute; reflexivity).
  destruct (cancelled.(runs) !! 5%N) as [r|] eqn:E; [|discriminate Hr]. cbn in Hr, Ht. injection Hr as Hr. injection Ht as Ht.
  destruct (late_failure_rewrites_results 9 5 default_results (Some "late") cancelled r E) as (r' & Hx & Hs & _ & _ & Hf).
  - rewrite Hr. right. left.
  - rewrite Ht in Hx. rewrite Hx. exists r'. split; [apply lookup_insert_eq|]. split; [rewrite Hs; exact Hr|exact Hf].
Defined.

End SampleRuns.
