(* ===== verification/RunExecutor.v ===== *)
(** * RunExecutor: what an executor does with a run

    [crates/aiec-api/src/runs.rs] from [execute_created] to [cleanup], and the executor's side
    of [aiec-api/src/run_queue.rs]: the attempts of a run, their phases, the teardown of
    machines on every exit, settlement, reclamation, and the dispatcher's turn.

    A computation is a function on a [World]: the database, the machines seen destroyed, and
    the number of calls made so far.  Each call first lets every other writer commit what an
    [Env] says it commits at that point ([others]), then acts; what a call to a machine, a
    clock or a secret store answers is the environment's too, by the call's number.  A timer
    or a lost lease drops a computation between two calls ([Cut]): one that fires while a
    call is under way has the effect of the call and no answer.

    Outputs, timings, git evidence and the log are not modelled; provisioning is reduced to
    its one write of these tables. *)

From S2P Require Import Prelude Lifecycle RunStore RunQueue.
From Stdlib Require Import Ascii.
From stdpp Require Import pretty.
Import Runs.

(** ** Failures *)
Module CoreFailure.
Inductive t :=
| InvalidRequest (m : string) | NotFound (m : string) | Conflict (m : string) | Forbidden (m : string) | LimitExceeded (m : string)
| QuotaExceeded (m : string) | Unavailable (m : string) | Transient (m : string) | Unsupported (m : string) | Backend (m : string)
| Io (m : string).

Definition to_string (e : t) : string :=
  match e with
  | InvalidRequest m => "invalid request: " +:+ m
  | NotFound m => "not found: " +:+ m
  | Conflict m => "conflict: " +:+ m
  | Forbidden m => "forbidden: " +:+ m
  | LimitExceeded m => "limit exceeded: " +:+ m
  | QuotaExceeded m => "quota exceeded: " +:+ m
  | Unavailable m => "backend unavailable: " +:+ m
  | Transient m => "transient: " +:+ m
  | Unsupported m => "unsupported operation: " +:+ m
  | Backend m => "backend error: " +:+ m
  | Io m => "io error: " +:+ m
  end.
End CoreFailure.
Abbreviation Failure := CoreFailure.t.

(** [str::starts_with], and what follows the prefix. *)
Fixpoint after_prefix (p s : list ascii) : option (list ascii) :=
  match p, s with
  | [], _ => Some s
  | a :: p, b :: s => if Ascii.eqb a b then after_prefix p s else None
  | _ :: _, [] => None
  end.

(** What stands before the first colon and space. *)
Fixpoint before_colon (s : list ascii) : option (list ascii) :=
  match s with
  | (":" as a)%char :: ((" ")%char :: _) as rest => Some []
  | a :: rest => (λ l, a :: l) <$> before_colon rest
  | [] => None
  end.

Definition collection_prefixed (m : string) : bool :=
  match after_prefix (chars "artifact ") (chars m) ≫= before_colon with
  | Some name => negb (bool_decide (name = [])) && forallb (λ a, negb (Ascii.eqb a " " || Ascii.eqb a "010")) name
  | None => false
  end.

(** Whether a fresh machine is worth trying. *)
Definition is_retryable (e : Failure) : bool :=
  match e with
  | CoreFailure.Transient _ | CoreFailure.Unavailable _ => true
  | CoreFailure.Backend m => negb (collection_prefixed m)
  | _ => false
  end.

Definition LEASE_RESYNC_MESSAGES : list string :=
  ["worker lease generation or status changed"; "sandbox lease generation does not match the control plane"; "stale sandbox lease generation"].

Definition is_transient_destroy_error (e : Failure) : bool :=
  match e with
  | CoreFailure.Transient _ | CoreFailure.Unavailable _ | CoreFailure.Io _ => true
  | CoreFailure.Conflict m => bool_decide (m ∈ LEASE_RESYNC_MESSAGES)
  | CoreFailure.Backend m => bool_decide (is_Some (after_prefix (chars "worker transport:") (chars m)))
  | _ => false
  end.

(** Reading an artifact: what a failed read of the guest is reported as, and what a failed
    upload is. *)
Inductive Fetched := Stored | ReadFailed (e : Failure) | Rejected (e : Failure) | UploadTimedOut.

Definition read_failure (name : string) (e : Failure) : Failure :=
  match e with
  | CoreFailure.NotFound m => CoreFailure.NotFound ("artifact " +:+ name +:+ ": " +:+ m)
  | CoreFailure.LimitExceeded m => CoreFailure.LimitExceeded ("artifact " +:+ name +:+ ": " +:+ m)
  | e => e
  end.

Definition collect_one (name : string) (f : Fetched) : result Failure () :=
  match f with
  | Stored => Ok ()
  | ReadFailed e => Err (read_failure name e)
  | Rejected e => Err (CoreFailure.Unsupported ("artifact storage rejected " +:+ name +:+ ": " +:+ CoreFailure.to_string e))
  | UploadTimedOut => Err (CoreFailure.Unsupported ("artifact upload timed out for " +:+ name))
  end.

(** ** Environment *)
(** What provisioning comes to: nothing is created, or a machine that boots or does not. *)
Inductive Placed := Refused (e : Failure) | Boots (s : Uuid) | Breaks (s : Uuid) (e : Failure).

Record Request := {
  rq_setup : list (list string); rq_command : list string; rq_validations : list (list string); rq_artifacts : list string;
  rq_git_evidence : bool; rq_timeout : option Z; rq_retention : RetentionPolicy; rq_retained_seconds : option Z; rq_max_attempts : nat }.

Record Env := {
  limits : RunQueueLimits;
  others : nat → list op (** committed by other writers before a call *);
  wall : nat → Instant; mono : nat → Z;
  fresh : nat → Uuid;
  admitted : nat → result RunError.t () (** by the quota *);
  plan : nat → Placed;
  runtime : nat → result Failure () (** of the machine *); uploads : bool (** artifact storage is configured *);
  exec : nat → result Failure bool (** a command: whether it exited with zero in time *);
  secrets : nat → result Failure (string → string) (** resolved and merged: how to scrub what the run was given *);
  fetch : nat → Fetched;
  listed : nat → result Failure () (** the artifact rows *);
  gone : nat → Uuid → bool; guard : nat → Uuid → result Failure (); tear : nat → Uuid → result Failure ();
  timer : nat → option nat (** after how many calls an attempt is cut off *);
  lease : nat → option nat (** and a computation under a lease, which began with this call *);
  words : RunError.t → string; show : Uuid → string; placement_text : nat → string }.

Record World := { db : Database; tick : nat; cut_at : option nat; torn : gset Uuid; begun : nat }.

Inductive outcome (A : Type) := Done (a : A) | Fails_with (e : Failure) | Cut.
Arguments Done {A} _.
Arguments Fails_with {A} _.
Arguments Cut {A}.

Definition M (A : Type) : Type := World → World * outcome A.

#[global] Instance M_ret : MRet M := λ _ a w, (w, Done a).
#[global] Instance M_bind : MBind M := λ _ _ f m w,
  match m w with (w, Done a) => f a w | (w, Fails_with e) => (w, Fails_with e) | (w, Cut) => (w, Cut) end.

Definition fail {A} (e : Failure) : M A := λ w, (w, Fails_with e).
(** [?] *)
Definition ok {A} (m : M (result Failure A)) : M A := r ← m; match r with Ok a => mret a | Err e => fail e end.
(** [match] on what a fallible computation answers *)
Definition caught {A} (m : M A) : M (result Failure A) := λ w,
  match m w with (w, Done a) => (w, Done (Ok a)) | (w, Fails_with e) => (w, Done (Err e)) | (w, Cut) => (w, Cut) end.

Definition set_db (d : Database) (w : World) : World := {| db := d; tick := w.(tick); cut_at := w.(cut_at); torn := w.(torn); begun := w.(begun) |}.
Definition set_cut (c : option nat) (w : World) : World := {| db := w.(db); tick := w.(tick); cut_at := c; torn := w.(torn); begun := w.(begun) |}.

Definition reached_by (c : option nat) (n : nat) : bool := match c with Some c => (c <=? n)%nat | None => false end.
Definition sooner (a b : option nat) : option nat := match a, b with Some a, Some b => Some (Nat.min a b) | Some a, None => Some a | None, b => b end.

(** Phases of the work have the results so far, which a failure keeps, and then the run as
    the last one left it. *)
Abbreviation Phase := (M (result Failure () * RunResults))%type (only parsing).
Abbreviation Worked := (Run * (result Failure () * RunResults))%type (only parsing).

(** ** Calls *)
Section Executor.
Variable env : Env.

Definition commits (os : list op) (d : Database) : Database := (run_ops env.(limits) os d).1.

Definition step : M nat := λ w,
  if reached_by w.(cut_at) w.(tick) then (w, Cut)
  else ({| db := commits (env.(others) w.(tick)) w.(db); tick := S w.(tick); cut_at := w.(cut_at); torn := w.(torn); begun := w.(begun) |},
        Done w.(tick)).

Definition ask {A} (f : nat → A) : M A := n ← step; mret (f n).

(** An answer that is not waited for. *)
Definition peek {A} (f : nat → A) : M A := λ w, (w, Done (f w.(tick))).

(** [core_error] of [aiec-storage/src/lib.rs] *)
Definition core_error (e : RunError.t) : Failure :=
  match e with
  | RunError.NotFound => CoreFailure.NotFound "record not found"
  | RunError.Conflict => CoreFailure.Conflict (env.(words) e)
  | RunError.QuotaExceeded => CoreFailure.QuotaExceeded (env.(words) e)
  | RunError.InvalidRequest => CoreFailure.InvalidRequest (env.(words) e)
  | RunError.Database => CoreFailure.Backend (env.(words) e)
  end.

Definition transact {A} (f : Database → Tx A) : M (result Failure A) := λ w,
  let t := f w.(db) in (set_db t.1 w, Done match t.2 with Ok a => Ok a | Err e => Err (core_error e) end).

Definition store {A} (f : Instant → Database → Tx A) : M (result Failure A) := n ← step; transact (f (env.(wall) n)).

Definition fetch_run (tenant id : Uuid) : M (result Failure Run) := store (λ _ d, (d, get_run tenant id d)).

(** A timer around a computation; whatever surrounds it may fire as well. *)
Definition within {A} (c : option nat) (m : M A) : M (option (result Failure A)) := λ w,
  let outer := w.(cut_at) in
  let inner := (λ c, (c + w.(tick))%nat) <$> c in
  let '(w1, o) := m (set_cut (sooner outer inner) w) in
  let w1 := set_cut outer w1 in
  if reached_by outer w1.(tick) then (w1, Cut)
  else if reached_by inner w1.(tick) then (w1, Done None)
  else (w1, match o with Done a => Done (Some (Ok a)) | Fails_with e => Done (Some (Err e)) | Cut => Done None end).

Definition event (run : Run) : M () :=
  _ ← store (λ _ d, append_run_event run.(r_tenant_id) run.(r_id) run.(r_retained_sandbox_id) false true d); mret ().

(** ** Teardown *)
Definition seen_destroyed (s : Uuid) : M () := λ w,
  ({| db := w.(db); tick := w.(tick); cut_at := w.(cut_at); torn := {[s]} ∪ w.(torn); begun := w.(begun) |}, Done ()).

Fixpoint destroy_attempts (k : nat) (s : Uuid) : M (result Failure ()) :=
  match k with
  | O => mret (Err (CoreFailure.NotFound "sandbox was not destroyed"))
  | S k =>
      r ← ask (λ n, env.(tear) n s);
      match r with
      | Ok _ => _ ← seen_destroyed s; mret (Ok ())
      | Err e => if negb (is_transient_destroy_error e) || (k =? 0)%nat then mret (Err e) else destroy_attempts k s
      end
  end.

Definition ATTEMPTS : nat := 4.

Definition destroy_with_retry (s : Uuid) : M (result Failure ()) :=
  g ← ask (λ n, env.(guard) n s);
  match g with Ok _ => destroy_attempts ATTEMPTS s | Err e => mret (Err e) end.

(** The first failure names its machine, later ones are appended. *)
Definition report_failure (results : RunResults) (s : Uuid) (e : Failure) : RunResults :=
  with_report results (Some
    match results.(cleanup_failed) with
    | Some report => {| cr_sandbox_id := report.(cr_sandbox_id);
                        cr_error := report.(cr_error) +:+ "; sandbox " +:+ env.(show) s +:+ " teardown failed: " +:+ CoreFailure.to_string e |}
    | None => {| cr_sandbox_id := s; cr_error := CoreFailure.to_string e |}
    end).

Definition release (run : Run) (kept : option Uuid) (results : RunResults) (s : Uuid) : M RunResults :=
  if bool_decide (kept = Some s) then mret results
  else
    g ← ask (λ n, env.(gone) n s);
    if g : bool then _ ← seen_destroyed s; mret results
    else
      r ← destroy_with_retry s;
      match r with
      | Ok _ => _ ← event run; mret results
      | Err e => mret (report_failure results s e)
      end.

Fixpoint release_all (run : Run) (kept : option Uuid) (results : RunResults) (ids : list Uuid) : M RunResults :=
  match ids with
  | [] => mret results
  | s :: ids => results ← release run kept results s; release_all run kept results ids
  end.

Definition with_state (r : Run) (s : RunState) : Run :=
  with_outcome r s r.(r_queued_at) r.(r_started_at) r.(r_completed_at) r.(r_results) r.(r_failure_reason).
Definition with_reason (r : Run) (why : option string) : Run :=
  with_outcome r r.(r_state) r.(r_queued_at) r.(r_started_at) r.(r_completed_at) r.(r_results) why.

(** Retention, when asked for: the first machine is kept, once the store has it on record. *)
Definition keep (tenant : Uuid) (run : Run) (ids : list Uuid) (results : RunResults) (policy : RetentionPolicy) (retention : option Z)
    : M (Run * RunResults * option Uuid) :=
  let succeeded := bool_decide (run.(r_failure_reason) = None) in
  match retention, head ids with
  | Some n, Some kept =>
      if negb (bool_decide (run.(r_state) = Cancelled)) && should_retain policy succeeded then
        u ← store (λ now, retain_run_sandbox tenant run.(r_id) kept (now + interval n));
        match u with
        | Ok updated =>
            let run := with_retention run updated.(r_retained_sandbox_id) updated.(r_retained_until) run.(r_results) in
            _ ← event run; mret (run, results, Some kept)
        | Err e => mret (run, with_report results (Some {| cr_sandbox_id := kept;
                     cr_error := "could not record the retained sandbox: " +:+ CoreFailure.to_string e |}), None)
        end
      else mret (run, results, None)
  | _, _ => mret (run, results, None)
  end.

Definition cleanup (tenant : Uuid) (run : Run) (ids : list Uuid) (results : RunResults) (policy : RetentionPolicy) (retention : option Z)
    : M (Run * RunResults) :=
  if bool_decide (ids = []) then mret (run, results)
  else
    current ← fetch_run tenant run.(r_id);
    let run := match current with
               | Ok c => if bool_decide (c.(r_state) = Cancelled) then with_state run Cancelled else run
               | Err _ => run
               end in
    k ← keep tenant run ids results policy retention;
    let '(run, results, kept) := k in
    results ← release_all run kept results ids;
    mret (run, results).

(** ** One attempt *)
(** The next state; when another writer moved the run, its state is adopted. *)
Definition advance (run : Run) (next : RunState) : M (Run * result Failure ()) :=
  u ← store (λ now, update_run_state now run.(r_tenant_id) run.(r_id) run.(r_state) next);
  match u with
  | Ok updated => mret (updated, Ok ())
  | Err (CoreFailure.Conflict _ | CoreFailure.NotFound _) =>
      c ← fetch_run run.(r_tenant_id) run.(r_id);
      mret match c with
           | Ok run => (run, if bool_decide (run.(r_state) = next) then Ok ()
                             else Err (CoreFailure.Conflict "run progression stopped because its durable state changed"))
           | Err e => (run, Err e)
           end
  | Err e => mret (run, Err e)
  end.

(** What a refusal of the store is to the run loop. *)
Definition placement_error (e : Failure) : Failure :=
  match e with
  | CoreFailure.QuotaExceeded m => CoreFailure.QuotaExceeded m
  | CoreFailure.InvalidRequest m | CoreFailure.Unsupported m => CoreFailure.InvalidRequest m
  | CoreFailure.NotFound m | CoreFailure.Conflict m | CoreFailure.Forbidden m | CoreFailure.LimitExceeded m | CoreFailure.Unavailable m
  | CoreFailure.Transient m | CoreFailure.Backend m | CoreFailure.Io m => CoreFailure.Unavailable m
  end.

(** The machine is charged to the attempt and linked to the run before it boots. *)
Definition provision_sandbox (tenant : Uuid) (run : Run) (aid s : Uuid) (n : nat) : M (result Failure ()) :=
  r ← store (λ _, create_attempt_sandbox tenant run.(r_id) aid s (env.(admitted) n));
  mret match r with Ok _ => Ok () | Err e => Err (placement_error e) end.

Definition acquire_sandbox (tenant : Uuid) (run : Run) (aid : Uuid) : M (result Failure Uuid) :=
  n ← step;
  match env.(plan) n with
  | Refused e => mret (Err e)
  | Boots s => r ← provision_sandbox tenant run aid s n; mret match r with Ok _ => Ok s | Err e => Err e end
  | Breaks s e => r ← provision_sandbox tenant run aid s n; mret match r with Ok _ => Err e | Err e => Err e end
  end.

Definition run_command (run : Run) (command : list string) : M bool :=
  if bool_decide (command = []) then fail (CoreFailure.InvalidRequest "a command is empty")
  else
    _ ← event run;
    _ ← ok (peek env.(runtime));
    _ ← ok (ask env.(secrets));
    ok (ask env.(exec)).

Definition with_setup (r : RunResults) (b : bool) : RunResults := {|
  rs_setup := r.(rs_setup) ++ [b]; rs_task := r.(rs_task); rs_validations := r.(rs_validations); rs_document := r.(rs_document);
  cleanup_failed := r.(cleanup_failed) |}.
Definition with_task (r : RunResults) (b : bool) : RunResults := {|
  rs_setup := r.(rs_setup); rs_task := Some b; rs_validations := r.(rs_validations); rs_document := r.(rs_document);
  cleanup_failed := r.(cleanup_failed) |}.
Definition with_validation (r : RunResults) (b : bool) : RunResults := {|
  rs_setup := r.(rs_setup); rs_task := r.(rs_task); rs_validations := r.(rs_validations) ++ [b]; rs_document := r.(rs_document);
  cleanup_failed := r.(cleanup_failed) |}.

Fixpoint set_up (run : Run) (commands : list (list string)) (results : RunResults) : Phase :=
  match commands with
  | [] => mret (Ok (), results)
  | c :: commands =>
      r ← caught (run_command run c);
      match r with
      | Ok b =>
          let results := with_setup results b in
          if b : bool then set_up run commands results else mret (Err (CoreFailure.Backend "a setup command failed"), results)
      | Err e => mret (Err e, results)
      end
  end.

Fixpoint validate_all (run : Run) (commands : list (list string)) (results : RunResults) : Phase :=
  match commands with
  | [] => mret (Ok (), results)
  | c :: commands =>
      r ← caught (run_command run c);
      match r with
      | Ok b => validate_all run commands (with_validation results b)
      | Err e => mret (Err e, results)
      end
  end.

Fixpoint fetch_all (names : list string) : M (result Failure ()) :=
  match names with
  | [] => mret (Ok ())
  | name :: names =>
      f ← ask env.(fetch);
      match collect_one name f with Ok _ => fetch_all names | Err e => mret (Err e) end
  end.

(** What was collected is listed before a failure is raised. *)
Definition collect_artifacts (names : list string) : M () :=
  if bool_decide (names = []) then mret ()
  else if negb env.(uploads) then
    fail (CoreFailure.Unsupported ("the run asked for " +:+ pretty (length names) +:+ " artifact(s) but artifact storage is not configured"))
  else
    _ ← ok (peek env.(runtime));
    r ← fetch_all names;
    _ ← ok (ask env.(listed));
    match r with Ok _ => mret () | Err e => fail e end.

Definition phase {A} (run : Run) (results : RunResults) (m : M A) (k : A → M Worked) : M Worked :=
  r ← caught m; match r with Ok a => k a | Err e => mret (run, (Err e, results)) end.

Definition advancing (needed : bool) (run : Run) (next : RunState) (results : RunResults) (k : Run → M Worked) : M Worked :=
  if needed then
    a ← advance run next;
    match a with (run, Ok _) => k run | (run, Err e) => mret (run, (Err e, results)) end
  else k run.

Definition commands (run : Run) (m : Phase) (k : RunResults → M Worked) : M Worked :=
  s ← m; match s with (Ok _, results) => k results | (Err e, results) => mret (run, (Err e, results)) end.

Definition collection (run : Run) (rq : Request) (results : RunResults) : M Worked :=
  advancing true run Collecting results (λ run,
    phase run results (if rq.(rq_git_evidence) then _ ← ok (ask env.(secrets)); mret () else mret ()) (λ _,
    phase run results (collect_artifacts rq.(rq_artifacts)) (λ _,
    mret (run, (Ok (), results))))).

Definition validation (run : Run) (rq : Request) (results : RunResults) : M Worked :=
  advancing (negb (bool_decide (rq.(rq_validations) = []))) run Validating results (λ run,
    commands run (validate_all run rq.(rq_validations) results) (collection run rq)).

Definition task (run : Run) (rq : Request) (results : RunResults) : M Worked :=
  phase run results (run_command run rq.(rq_command)) (λ b,
    _ ← event run;
    validation run rq (with_task results b)).

Definition post_placement (run : Run) (rq : Request) (results : RunResults) : M Worked :=
  phase run results (ok (peek env.(runtime))) (λ _,
  advancing (negb (bool_decide (rq.(rq_setup) = []))) run Running results (λ run,
  commands run (set_up run rq.(rq_setup) results) (λ results,
  advancing (bool_decide (run.(r_state) = Preparing)) run Running results (λ run,
  task run rq results)))).

(** ** A run *)
Record AttemptOutcome := { ao_run : Run; succeeded : bool }.

Definition DEFAULT_RETENTION_SECONDS : Z := 3600.

Definition all_ok (results : RunResults) : bool :=
  match results.(rs_task) with Some true => forallb id results.(rs_validations) | _ => false end.
Definition setup_failed (results : RunResults) : bool := existsb negb results.(rs_setup).

(** Scrubbed with what the secret store has now, or not at all. *)
Definition scrubber : M (string → string) := r ← ask env.(secrets); mret match r with Ok f => f | Err _ => (λ t, t) end.

Definition failure_text (scrub : string → string) (attempt : result Failure ()) (results : RunResults) : option string :=
  match attempt with
  | Err e => Some (scrub (CoreFailure.to_string e))
  | Ok _ =>
      if all_ok results then None
      else Some (if bool_decide (results.(rs_task) = Some false) then "the task did not succeed" else "a validation failed")
  end.

Definition allow_retention (attempt : result Failure ()) (results : RunResults) (final_attempt : bool) : bool :=
  setup_failed results || match attempt with Err e => negb (is_retryable e) || final_attempt | Ok _ => true end.

(** The work on a machine, its teardown, and the record of both. *)
Definition on_machine (tenant : Uuid) (run : Run) (rq : Request) (s : Uuid) (final_attempt : bool) : M AttemptOutcome :=
  p ← post_placement run rq default_results;
  let '(run, (attempt, results)) := p in
  scrub ← scrubber;
  let run := with_reason run (failure_text scrub attempt results) in
  c ← cleanup tenant run [s] results rq.(rq_retention)
        (if allow_retention attempt results final_attempt then Some (default DEFAULT_RETENTION_SECONDS rq.(rq_retained_seconds)) else None);
  let '(run, results) := c in
  stored ← ok (store (λ now, record_run_results now tenant run.(r_id) results run.(r_state)));
  let recorded := with_reason stored run.(r_failure_reason) in
  match attempt with
  | Ok _ => mret {| ao_run := recorded; succeeded := all_ok results |}
  | Err e =>
      if bool_decide (recorded.(r_state) = Cancelled) || setup_failed recorded.(r_results)
      then mret {| ao_run := recorded; succeeded := false |}
      else fail e
  end.

Definition execute (tenant : Uuid) (run : Run) (rq : Request) (aid : Uuid) (final_attempt : bool) : M AttemptOutcome :=
  a ← advance run Preparing;
  match a with
  | (_, Err e) => fail e
  | (run, Ok _) =>
      placed ← acquire_sandbox tenant run aid;
      text ← peek env.(placement_text);
      match placed with
      | Err e => _ ← ok (store (λ _, set_run_placement tenant run.(r_id) text)); fail e
      | Ok s =>
          _ ← store (λ _, set_run_placement tenant run.(r_id) text);
          _ ← store (λ now, record_run_results now tenant run.(r_id) default_results run.(r_state));
          _ ← event run;
          on_machine tenant (with_placement run text) rq s final_attempt
      end
  end.

(** The machines linked to a run. *)
Definition linked (id : Uuid) (d : Database) : list Uuid := snd <$> List.filter (λ l, (l.1 =? id)%N) (elements d.(links)).

Definition list_run_sandboxes (tenant id : Uuid) : M (result Failure (list Uuid)) :=
  store (λ _ d, (d, Ok match owned d tenant id with Some _ => linked id d | None => [] end)).

(** An attempt under its timer, and the teardown no timer can skip. *)
Definition Attempted : Type := Run * option Failure * bool * bool.

Definition reclaimed (tenant : Uuid) (rq : Request) (a : Attempted) : M Attempted :=
  let '(current, error, succeeded, expired) := a in
  let cancelled := bool_decide (current.(r_state) = Cancelled) in
  if bool_decide (is_Some error) || cancelled then
    links ← ok (list_run_sandboxes tenant current.(r_id));
    let ids := List.filter (λ s, expired || cancelled || negb (bool_decide (current.(r_retained_sandbox_id) = Some s))) links in
    c ← cleanup tenant current ids current.(r_results) rq.(rq_retention) None;
    let '(current, results) := c in
    current ← ok (store (λ now, record_run_results now tenant current.(r_id) results current.(r_state)));
    mret (current, error, succeeded, expired)
  else mret a.

Definition attempt_once (tenant : Uuid) (run : Run) (rq : Request) (aid : Uuid) (number : nat) : M Attempted :=
  result ← within (env.(timer) number) (execute tenant run rq aid (number =? rq.(rq_max_attempts))%nat);
  a ← match result with
      | Some (Ok outcome) => mret (outcome.(ao_run), None, outcome.(succeeded), false)
      | Some (Err e) => current ← ok (fetch_run tenant run.(r_id)); mret (current, Some e, false, false)
      | None =>
          current ← ok (fetch_run tenant run.(r_id));
          mret (current, Some (CoreFailure.Unavailable "run execution deadline exceeded"), false, true)
      end;
  reclaimed tenant rq a.

Definition settle (tenant : Uuid) (run : Run) : M () :=
  let target := if bool_decide (is_Some run.(r_failure_reason)) then Failed else Succeeded in
  run ← ok (store (λ now, record_run_results now tenant run.(r_id) run.(r_results) target));
  event run.

Definition settle_failure (tenant : Uuid) (run : Run) (reason : option string) : M () :=
  run ← ok (store (λ now, record_run_failure now tenant run.(r_id) run.(r_results) reason));
  event run.

(** The attempt's own record, sealed before anything else happens to the run. *)
Definition seal (tenant : Uuid) (aid : Uuid) (number : nat) (a : Attempted) : M () :=
  let '(current, error, succeeded, _) := a in
  scrub ← scrubber;
  ok (store (λ _, complete_run_attempt tenant aid {|
    a_run_id := current.(r_id); attempt_number := Z.of_nat number; a_sandbox_id := None;
    a_state := if bool_decide (current.(r_state) = Cancelled) then Cancelled else if succeeded : bool then Succeeded else Failed;
    a_failure_reason := match error with Some e => Some (scrub (CoreFailure.to_string e)) | None => current.(r_failure_reason) end;
    a_completed_at := None; a_document := current.(r_placement) |})).

Definition DEFAULT_TIMEOUT_SECONDS : Z := 600.

Definition note_attempt : M () := λ w,
  ({| db := w.(db); tick := w.(tick); cut_at := w.(cut_at); torn := w.(torn); begun := S w.(begun) |}, Done ()).

Definition begin_attempt (tenant : Uuid) (run : Run) (number : nat) : M Uuid :=
  n ← step;
  let aid := env.(fresh) n in
  _ ← ok (transact (record_run_attempt tenant aid {|
    a_run_id := run.(r_id); attempt_number := Z.of_nat number; a_sandbox_id := None; a_state := Running; a_failure_reason := None;
    a_completed_at := None; a_document := "" |}));
  _ ← note_attempt;
  mret aid.

(** Attempts [number] .. [number + k - 1], and what is settled when none of them is the last word.
    [started] is when the first began; pauses between attempts change nothing. *)
Fixpoint attempts_from (tenant : Uuid) (rq : Request) (started : Z) (k number : nat) (run : Run) (last_error : option Failure) : M Run :=
  let exhausted (run : Run) (e : option Failure) :=
    _ ← settle_failure tenant run (CoreFailure.to_string <$> e);
    ok (fetch_run tenant run.(r_id)) in
  match k with
  | O => exhausted run last_error
  | S k =>
      run ← ok (fetch_run tenant run.(r_id));
      if is_terminal run.(r_state) then mret run
      else
        now ← peek env.(mono);
        if (interval (default DEFAULT_TIMEOUT_SECONDS rq.(rq_timeout) + PLACEMENT_GRACE_SECONDS) <=? now - started)%Z
        then exhausted run (Some (CoreFailure.Unavailable "run deadline exhausted"))
        else
          aid ← begin_attempt tenant run number;
          a ← attempt_once tenant run rq aid number;
          _ ← seal tenant aid number a;
          let '(current, error, succeeded, expired) := a in
          if bool_decide (current.(r_state) = Cancelled) then mret current
          else
            match error with
            | None =>
                _ ← (if succeeded : bool then settle tenant current else settle_failure tenant current current.(r_failure_reason));
                ok (fetch_run tenant current.(r_id))
            | Some e =>
                if is_retryable e && negb expired && bool_decide (current.(r_results).(cleanup_failed) = None)
                then attempts_from tenant rq started k (S number) current error
                else exhausted current error
            end
  end.

Definition execute_created (tenant : Uuid) (run : Run) (rq : Request) : M Run :=
  if is_terminal run.(r_state) then mret run
  else
    started ← peek env.(mono);
    attempts_from tenant rq started rq.(rq_max_attempts) 1 run None.

(** ** Reclamation and the dispatcher *)
Definition reclaim_run (run : Run) : M Run :=
  if negb (is_terminal run.(r_state)) then mret run
  else
    links ← ok (list_run_sandboxes run.(r_tenant_id) run.(r_id));
    let ids := List.filter (λ s, negb (bool_decide (run.(r_retained_sandbox_id) = Some s))) links in
    c ← cleanup run.(r_tenant_id) run ids (with_report run.(r_results) None) Destroy None;
    let '(current, results) := c in
    ok (store (λ now, record_run_results now run.(r_tenant_id) run.(r_id) results current.(r_state))).

(** Retention runs out: the machine is destroyed and the run forgets it, or the failure is on
    record. *)
Definition expire_retention (run : Run) : M (result Failure ()) :=
  match run.(r_retained_sandbox_id), run.(r_retained_until) with
  | Some s, Some until =>
      now ← peek env.(wall);
      if negb (is_terminal run.(r_state)) || (now <? until)%Z then mret (Ok ())
      else
        r ← destroy_with_retry s;
        match r with
        | Err e =>
            let m := CoreFailure.to_string e in
            _ ← ok (store (λ _, record_retention_cleanup_failure run.(r_tenant_id) run.(r_id) s m));
            mret (Err (CoreFailure.Unavailable m))
        | Ok _ =>
            _ ← ok (store (λ _, clear_run_retention run.(r_tenant_id) run.(r_id) s));
            _ ← event run;
            mret (Ok ())
        end
  | _, _ => mret (Ok ())
  end.

(** Work under a renewed lease: [None] when the lease is lost, the deadline passes or, for an
    execution, the service stops. *)
Definition with_lease {A} (m : M A) : M (option (result Failure A)) := λ w, within (env.(lease) w.(tick)) m w.

Definition finish (tenant id owner : Uuid) : M () := _ ← store (λ now, finish_run_queue now tenant id owner); mret ().

Definition reclaim_owned (claim : RunQueueClaim) : M () :=
  let run := claim.(c_run) in
  r ← with_lease (current ← ok (fetch_run run.(r_tenant_id) run.(r_id)); reclaim_run current);
  match r with
  | Some (Ok settled) =>
      if bool_decide (settled.(r_results).(cleanup_failed) = None) then finish settled.(r_tenant_id) settled.(r_id) claim.(c_owner) else mret ()
  | _ => mret ()
  end.

Definition fail_and_reclaim (claim : RunQueueClaim) (reason : string) : M () :=
  let run := claim.(c_run) in
  f ← store (λ now, fail_run_queue now run.(r_tenant_id) run.(r_id) claim.(c_owner) reason);
  match f with Ok true => reclaim_owned claim | _ => mret () end.

(** [request] is what the queue's document parses to, [stopping] whether the service stops. *)
Definition run_claim (claim : RunQueueClaim) (request : option Request) (stopping : bool) : M () :=
  if claim.(reclaiming) then reclaim_owned claim
  else
    match request with
    | None => fail_and_reclaim claim "Persisted Run request is invalid"
    | Some rq =>
        r ← with_lease (execute_created claim.(c_run).(r_tenant_id) claim.(c_run) rq);
        match r with
        | Some (Ok run) =>
            if is_terminal run.(r_state) && bool_decide (run.(r_results).(cleanup_failed) = None)
            then finish run.(r_tenant_id) run.(r_id) claim.(c_owner)
            else fail_and_reclaim claim "Run executor did not settle cleanly"
        | Some (Err _) => fail_and_reclaim claim "Run executor did not settle cleanly"
        | None => if stopping then mret () else fail_and_reclaim claim "Run executor lost ownership"
        end
    end.

(** One turn of the dispatcher: recovery comes before fresh work. *)
Definition dispatch (request : RunQueueClaim → option Request) (stopping : bool) : M () :=
  n ← step;
  let owner := env.(fresh) n in
  r ← store (λ now, recover_run_queue now ∅ owner env.(limits));
  c ← match r with
      | Ok (Some claim) => mret (Some claim)
      | Ok None => c ← store (λ now, claim_run_queue now ∅ owner env.(limits)); mret match c with Ok c => c | Err _ => None end
      | Err _ => mret None
      end;
  match c with Some claim => run_claim claim (request claim) stopping | None => mret () end.

End Executor.

(** ** Computations that return *)
Lemma bind_done {A B} (m : M A) (f : A → M B) w w' b : (m ≫= f) w = (w', Done b) → ∃ a w1, m w = (w1, Done a) ∧ f a w1 = (w', Done b).
Proof. unfold mbind, M_bind. destruct (m w) as [w1 [a|e|]]; [eauto|done|done]. Qed.

Lemma ret_done {A} (a b : A) w w' : (mret a : M A) w = (w', Done b) → w' = w ∧ b = a.
Proof. by intros [= -> ->]. Qed.

Lemma ok_done {A} (m : M (result Failure A)) w w' a : ok m w = (w', Done a) → m w = (w', Done (Ok a)).
Proof. intros Hx. apply bind_done in Hx as ([x|e] & w1 & Hm & Hx); [|done]. apply ret_done in Hx as [-> ->]. done. Qed.

Lemma store_done {A} env (f : Instant → Database → Tx A) w w' r : store env f w = (w', Done r) →
  ∃ n w1, step env w = (w1, Done n) ∧ w' = set_db (f (env.(wall) n) w1.(db)).1 w1 ∧ r = match (f (env.(wall) n) w1.(db)).2 with Ok a => Ok a | Err e => Err (core_error env e) end.
Proof. intros Hx. apply bind_done in Hx as (n & w1 & Hs & Hx). exists n, w1. split; [done|]. by injection Hx as <- <-. Qed.

(** Takes a returning computation apart, one bind at a time. *)
Ltac returns H :=
  repeat match type of H with
  | (mbind _ _) _ = (_, Done _) => let a := fresh "a" in let w := fresh "w" in let E := fresh "E" in apply bind_done in H as (a & w & E & H)
  | (mret _) _ = (_, Done _) => apply ret_done in H as [-> ->]
  end.

(** ** Which machines a run still holds *)
Create HintDb tame discriminated.

Section Held.
Variables (tenant id : Uuid).

Definition alive (d : Database) : Prop := ∃ r, d.(runs) !! id = Some r ∧ r.(r_id) = id ∧ r.(r_tenant_id) = tenant.
Definition retained (d : Database) : option Uuid := d.(runs) !! id ≫= r_retained_sandbox_id.
Definition claimed (d : Database) (s : Uuid) : Prop := (id, s) ∈ d.(links) ∧ retained d ≠ Some s.
(** Linked to the run, not on record as retained and not seen destroyed. *)
Definition held (w : World) (s : Uuid) : Prop := claimed w.(db) s ∧ s ∉ w.(torn).

(** The run stays, and holds no machine it did not hold. *)
Definition sheds (d d' : Database) : Prop := alive d → alive d' ∧ ∀ s, claimed d' s → claimed d s.

#[global] Instance sheds_preorder : PreOrder sheds.
Proof.
  split; [by intros d Ha|]. intros d1 d2 d3 H1 H2 Ha. destruct (H1 Ha) as [Ha2 Hs]. destruct (H2 Ha2) as [Ha3 Hs2]. split; [done|auto].
Qed.

Lemma sheds_same d d' : d'.(runs) = d.(runs) → d'.(links) = d.(links) → sheds d d'.
Proof. intros Hr Hl Ha. unfold alive, claimed, retained in *. by rewrite Hr, Hl. Qed.

Lemma sheds_put i r r0 d : d.(runs) !! i = Some r0 → r.(r_id) = r0.(r_id) → r.(r_tenant_id) = r0.(r_tenant_id) →
  (r0.(r_retained_sandbox_id) = None ∨ r.(r_retained_sandbox_id) = r0.(r_retained_sandbox_id)) → sheds d (put_run i r d).
Proof.
  intros Hr Hi Ht Hk (ra & Ha & Hid & Hten). unfold alive, claimed, retained. cbn. destruct (decide (i = id)) as [->|Hne].
  - rewrite lookup_insert_eq. rewrite Hr in Ha. injection Ha as ->. cbn. split; [exists r; split; [done|]; split; congruence|].
    intros s [Hl Hn]. rewrite Hr. cbn. split; [done|]. intros Hs. rewrite Hs in Hk. destruct Hk as [|Hk]; [done|]. by rewrite Hk in Hn.
  - rewrite lookup_insert_ne by done. split; [by exists ra|done].
Qed.

Lemma sheds_new i r d : d.(runs) !! i = None → sheds d (put_run i r d).
Proof.
  intros Hn (ra & Ha & Hid & Hten). unfold alive, claimed, retained. cbn. assert (i ≠ id) by congruence.
  rewrite lookup_insert_ne by done. split; [by exists ra|done].
Qed.

Lemma sheds_transaction {A} d (r : result RunError.t (Database * A)) : (∀ d' a, r = Ok (d', a) → sheds d d') → sheds d (transaction d r).1.
Proof. intros Hr. destruct r as [[d' a]|]; cbn; [by eapply Hr|reflexivity]. Qed.

Ltac sheds_row :=
  apply sheds_transaction; let d' := fresh in let a := fresh in let H := fresh in intros d' a H; ok_inv H; injection H as <- <-;
  match goal with E : get_run _ _ _ = Ok _ |- _ => apply get_run_run in E as [? _]; eapply sheds_put; [done..|cbn; bools; try (by right)] end.

Ltac sheds_else := apply sheds_transaction; let d' := fresh in let a := fresh in let H := fresh in
  intros d' a H; ok_inv H; repeat case_match; simplify_eq; by apply sheds_same.

Lemma sheds_update now t i from to d : sheds d (update_run_state now t i from to d).1.
Proof.
  unfold update_run_state. apply sheds_transaction. intros d' a Hx. ok_inv Hx. destruct (owned d t i) as [r|] eqn:E; [|done]. ok_inv Hx.
  injection Hx as <- <-. apply owned_run in E as [Hr _]. eapply sheds_put; [done..|by right].
Qed.
Lemma sheds_results now t i results state d : sheds d (record_run_results now t i results state d).1.
Proof. unfold record_run_results. sheds_row. Qed.
Lemma sheds_failure now t i results why d : sheds d (record_run_failure now t i results why d).1.
Proof. unfold record_run_failure. sheds_row. Qed.
Lemma sheds_set_failure now t i why state d : sheds d (set_run_failure now t i why state d).1.
Proof. unfold set_run_failure. sheds_row. Qed.
Lemma sheds_placement t i text d : sheds d (set_run_placement t i text d).1.
Proof. unfold set_run_placement. sheds_row. Qed.
Lemma sheds_retain t i s until d : sheds d (retain_run_sandbox t i s until d).1.
Proof.
  unfold retain_run_sandbox. sheds_row. cbn. repeat match goal with H : _ || _ = true |- _ => apply orb_true_iff in H as [H|H]; bools end; [by left|by right].
Qed.
Lemma sheds_retention_failed t i s e d : sheds d (record_retention_cleanup_failure t i s e d).1.
Proof. unfold record_retention_cleanup_failure. sheds_row. Qed.
Lemma sheds_event t i s b o d : sheds d (append_run_event t i s b o d).1.
Proof. unfold append_run_event. sheds_else. Qed.
Lemma sheds_attempt t aid v d : sheds d (record_run_attempt t aid v d).1.
Proof. unfold record_run_attempt. sheds_else. Qed.
Lemma sheds_complete t aid v d : sheds d (complete_run_attempt t aid v d).1.
Proof. unfold complete_run_attempt. sheds_else. Qed.

Lemma sheds_retire now i why d : sheds d (retire_run now i why d).
Proof.
  unfold retire_run. destruct (d.(runs) !! i) as [r|] eqn:Hr; [destruct (is_terminal _)|]; try by apply sheds_same.
  etrans; [|by apply sheds_same]. eapply sheds_put; [done..|by right].
Qed.

Lemma sheds_insert v d d' r : insert_run v d = Ok (d', r) → sheds d d'.
Proof. intros Hi. apply insert_run_ok in Hi as [[-> _]|(-> & _ & Hn & _)]; [reflexivity|by apply sheds_new]. Qed.

Lemma sheds_enqueue lim now v rq d : sheds d (enqueue_run now v rq lim d).1.
Proof.
  unfold enqueue_run. apply sheds_transaction. intros d' a Hx. ok_inv Hx. destruct rq; [|done]. ok_inv Hx. case_match; [by simplify_eq|].
  ok_inv Hx. match goal with Hi : insert_run _ _ = Ok ?x |- _ => destruct x as [d1 c]; apply sheds_insert in Hi as Hs end.
  etrans; [exact Hs|]. case_match; simplify_eq; [|reflexivity]. apply sheds_same; cbn; unfold known; by case_match.
Qed.

Lemma sheds_claim lim now locked owner d : sheds d (claim_run_queue now locked owner lim d).1.
Proof.
  unfold claim_run_queue. apply sheds_transaction. intros d' a Hx. ok_inv Hx. repeat case_match; simplify_eq; try reflexivity.
  ok_inv Hx. simplify_eq. by apply sheds_same.
Qed.

Lemma sheds_recover lim now locked owner d : sheds d (recover_run_queue now locked owner lim d).1.
Proof.
  unfold recover_run_queue. apply sheds_transaction. intros d' a Hx. ok_inv Hx. case_match; [|simplify_eq; reflexivity]. case_match. case_match; [simplify_eq; reflexivity|].
  ok_inv Hx. injection Hx as <- <-. etrans; [|apply sheds_retire]. by apply sheds_same.
Qed.

Lemma sheds_queue_writes now t i owner d :
  (∀ n, sheds d (heartbeat_run_queue now t i owner n d).1) ∧ (∀ why, sheds d (fail_run_queue now t i owner why d).1)
  ∧ sheds d (finish_run_queue now t i owner d).1.
Proof.
  split_and!; [intros n; unfold heartbeat_run_queue|intros why; unfold fail_run_queue|unfold finish_run_queue];
    apply sheds_transaction; intros d' a Hx; ok_inv Hx; destruct (leased now t i owner d); [case_match|..]; simplify_eq; try reflexivity;
    try by apply sheds_same.
  - case_match; simplify_eq; [|reflexivity]. etrans; [|apply sheds_retire]. by apply sheds_same.
  - case_match; simplify_eq; [by apply sheds_same|reflexivity].
Qed.

(** Writers that leave the run's machines to its executor. *)
Definition bystander (o : op) : bool :=
  match o with
  | DeleteRun _ i | ClearRetention _ i _ | Link _ i _ _ | CreateAttemptSandbox _ i _ _ _ => negb (i =? id)%N
  | _ => true
  end.

Lemma sheds_other_run i r r0 d : i ≠ id → d.(runs) !! i = Some r0 → sheds d (put_run i r d).
Proof.
  intros Hne Hr (ra & Ha & Hid & Hten). unfold alive, claimed, retained. cbn. rewrite lookup_insert_ne by done. split; [by exists ra|done].
Qed.

Lemma sheds_delete t i d : i ≠ id → sheds d (delete_run t i d).1.
Proof.
  intros Hne. unfold delete_run. apply sheds_transaction. intros d' a Hx. ok_inv Hx. simplify_eq. intros (ra & Ha & Hid & Hten).
  unfold alive, claimed, retained. cbn. rewrite lookup_delete_ne by done. split; [by exists ra|done].
Qed.

Lemma sheds_clear t i s d : i ≠ id → sheds d (clear_run_retention t i s d).1.
Proof.
  intros Hne. unfold clear_run_retention. apply sheds_transaction. intros d' a Hx. ok_inv Hx. injection Hx as <- <-.
  match goal with E : get_run _ _ _ = Ok _ |- _ => apply get_run_run in E as [? _] end. by eapply sheds_other_run.
Qed.

Lemma sheds_links d d' i s : i ≠ id → d'.(runs) = d.(runs) → d'.(links) = {[(i, s)]} ∪ d.(links) → sheds d d'.
Proof. intros Hne Hr Hl Ha. unfold alive, claimed, retained in *. rewrite Hr, Hl. split; [done|]. intros s' [Hin Hn]. split; [set_solver|done]. Qed.

Lemma bystander_sheds lim o d : bystander o = true → sheds d (RunQueue.apply lim o d).1.
Proof.
  destruct o; cbn; intros Hb; try (apply negb_true_iff, N.eqb_neq in Hb);
    auto using sheds_enqueue, sheds_claim, sheds_recover, sheds_update, sheds_results, sheds_failure, sheds_set_failure, sheds_placement,
      sheds_retain, sheds_retention_failed, sheds_clear, sheds_delete, sheds_event, sheds_attempt, sheds_complete; try apply sheds_queue_writes.
  - unfold create_run. apply sheds_transaction. intros d' a. apply sheds_insert.
  - unfold link_run_sandbox. apply sheds_transaction. intros d' a Hx. ok_inv Hx. simplify_eq. by eapply sheds_links.
  - unfold create_attempt_sandbox. apply sheds_transaction. intros d' a Hx. ok_inv Hx. simplify_eq. by eapply sheds_links.
Qed.

Lemma bystanders_shed lim os d : Forall (λ o, bystander o = true) os → sheds d (run_ops lim os d).1.
Proof.
  revert d. induction os as [|o os IH]; intros d Hb; [reflexivity|]. apply Forall_cons in Hb as [Hb Hbs]. cbn.
  pose proof (bystander_sheds lim o d Hb) as H1. destruct (RunQueue.apply lim o d) as [d1 l]. cbn in H1. specialize (IH d1 Hbs).
  destruct (run_ops lim os d1). cbn in *. by etrans.
Qed.

(** ** Computations that take no machine *)
Variable env : Env.
Hypothesis others_bystand : ∀ n, Forall (λ o, bystander o = true) (env.(others) n).

Definition passes (w w' : World) : Prop := sheds w.(db) w'.(db) ∧ w.(torn) ⊆ w'.(torn).

#[global] Instance passes_preorder : PreOrder passes.
Proof. split; [by split|]. intros w1 w2 w3 [S1 T1] [S2 T2]. split; [by etrans|set_solver]. Qed.

Lemma passes_alive w w' : passes w w' → alive w.(db) → alive w'.(db).
Proof. intros [Hs _] Ha. by apply Hs. Qed.

Lemma passes_held w w' s : passes w w' → alive w.(db) → held w' s → held w s.
Proof. intros [Hs Ht] Ha [Hc Hn]. split; [by apply Hs|set_solver]. Qed.

Definition tame {A} (m : M A) : Prop := ∀ w, passes w (m w).1.

Lemma tame_ret {A} (a : A) : tame (mret a).
Proof. intros w. reflexivity. Qed.
Lemma tame_fail {A} e : tame (@fail A e).
Proof. intros w. reflexivity. Qed.
Lemma tame_bind {A B} (m : M A) (f : A → M B) : tame m → (∀ a, tame (f a)) → tame (m ≫= f).
Proof.
  intros Hm Hf w. specialize (Hm w). unfold mbind, M_bind. destruct (m w) as [w1 [a|e|]]; cbn in *; [|done|done]. etrans; [exact Hm|apply Hf].
Qed.
Lemma tame_ok {A} (m : M (result Failure A)) : tame m → tame (ok m).
Proof. intros Hm. apply tame_bind; [done|]. intros [a|e]; [apply tame_ret|apply tame_fail]. Qed.
Lemma tame_caught {A} (m : M A) : tame m → tame (caught m).
Proof. intros Hm w. specialize (Hm w). unfold caught. destruct (m w) as [w1 [a|e|]]; exact Hm. Qed.
Lemma tame_step : tame (step env).
Proof.
  intros w. unfold step. destruct (reached_by _ _); [reflexivity|]. split; [|done]. cbn. by apply bystanders_shed.
Qed.
Lemma tame_ask {A} (f : nat → A) : tame (ask env f).
Proof. apply tame_bind; [apply tame_step|]. intros n. apply tame_ret. Qed.
Lemma tame_peek {A} (f : nat → A) : tame (peek f).
Proof. intros w. reflexivity. Qed.
Lemma tame_transact {A} (f : Database → Tx A) : (∀ d, sheds d (f d).1) → tame (transact env f).
Proof. intros Hf w. split; [apply Hf|done]. Qed.
Lemma tame_store {A} (f : Instant → Database → Tx A) : (∀ now d, sheds d (f now d).1) → tame (store env f).
Proof. intros Hf. apply tame_bind; [apply tame_step|]. intros n. by apply tame_transact. Qed.
Lemma tame_seen s : tame (seen_destroyed s).
Proof. intros w. split; [reflexivity|]. cbn. set_solver. Qed.
Lemma tame_fetch t i : tame (fetch_run env t i).
Proof. apply tame_store. reflexivity. Qed.
Lemma tame_event r : tame (event env r).
Proof. apply tame_bind; [|intros; apply tame_ret]. apply tame_store. intros. apply sheds_event. Qed.

#[local] Hint Resolve tame_ret tame_fail tame_step tame_ask tame_peek tame_seen tame_fetch tame_event
  sheds_update sheds_results sheds_failure sheds_placement sheds_retain sheds_attempt sheds_complete : tame.

(** Follows the shape of a computation. *)
Ltac tame := repeat first
  [ progress intros | solve [auto with tame] | apply tame_store | apply tame_ok | apply tame_caught | apply tame_bind
  | progress cbv zeta | match goal with |- tame (match ?x with _ => _ end) => destruct x end ].

Lemma tame_destroy s : tame (destroy_with_retry env s).
Proof. unfold destroy_with_retry. apply tame_bind; [auto with tame|]. intros [[]|e]; [|auto with tame]. induction ATTEMPTS as [|k IH]; cbn [destroy_attempts]; tame. Qed.
#[local] Hint Resolve tame_destroy : tame.

Lemma tame_release r kept results s : tame (release env r kept results s).
Proof. unfold release. tame. Qed.
#[local] Hint Resolve tame_release : tame.

Lemma tame_release_all r kept results ids : tame (release_all env r kept results ids).
Proof. revert results. induction ids as [|s ids IH]; intros results; cbn; tame. Qed.
Lemma tame_keep t r ids results policy retention : tame (keep env t r ids results policy retention).
Proof. unfold keep. tame. Qed.
#[local] Hint Resolve tame_release_all tame_keep : tame.

Lemma tame_cleanup t r ids results policy retention : tame (cleanup env t r ids results policy retention).
Proof. unfold cleanup. tame. Qed.
Lemma tame_advance r next : tame (advance env r next).
Proof. unfold advance. tame. Qed.
Lemma tame_command r c : tame (run_command env r c).
Proof. unfold run_command. tame. Qed.
#[local] Hint Resolve tame_cleanup tame_advance tame_command : tame.

Lemma tame_set_up r cs results : tame (set_up env r cs results).
Proof. revert results. induction cs as [|c cs IH]; intros results; cbn; tame. Qed.
Lemma tame_validate r cs results : tame (validate_all env r cs results).
Proof. revert results. induction cs as [|c cs IH]; intros results; cbn; tame. Qed.
Lemma tame_fetch_all names : tame (fetch_all env names).
Proof. induction names as [|n names IH]; cbn; tame. Qed.
#[local] Hint Resolve tame_set_up tame_validate tame_fetch_all : tame.

Lemma tame_post_placement r rq results : tame (post_placement env r rq results).
Proof. unfold post_placement, task, validation, collection, collect_artifacts, advancing, phase, commands. tame. Qed.

(** ** What a teardown leaves *)
Definition reported (results : RunResults) : Prop := results.(cleanup_failed) ≠ None.

Lemma destroy_seen s w w' : destroy_with_retry env s w = (w', Done (Ok ())) → s ∈ w'.(torn).
Proof.
  unfold destroy_with_retry. intros Hx. apply bind_done in Hx as ([[]|e] & w1 & _ & Hx); [|by apply ret_done in Hx as [_ ?]].
  revert w1 Hx. induction ATTEMPTS as [|k IH]; intros w1 Hx; cbn [destroy_attempts] in Hx; [by apply ret_done in Hx as [_ ?]|].
  apply bind_done in Hx as ([[]|e] & w2 & _ & Hx).
  - apply bind_done in Hx as (u & w3 & Hs & Hx). apply ret_done in Hx as [-> _]. injection Hs as <- _. cbn. set_solver.
  - case_match; [by apply ret_done in Hx as [_ ?]|by eapply IH].
Qed.

Lemma release_leaves r kept results s w w' results' : release env r kept results s w = (w', Done results') →
  (reported results → reported results') ∧ (s ∈ w'.(torn) ∨ kept = Some s ∨ reported results').
Proof.
  unfold release. case_bool_decide as Hk; [intros Hx; apply ret_done in Hx as [-> ->]; auto|]. intros Hx. returns Hx. destruct a.
  - returns Hx. injection E0 as <- _. cbn. split; [done|]. left. set_solver.
  - returns Hx. destruct a as [[]|e]; returns Hx.
    + split; [done|]. left. apply destroy_seen in E0. destruct (tame_event r w1) as [_ Ht]. rewrite E1 in Ht. set_solver.
    + split; [|right; right]; by unfold reported, report_failure, with_report.
Qed.

Lemma release_all_leaves r kept ids results w w' results' : release_all env r kept results ids w = (w', Done results') →
  (reported results → reported results') ∧ ∀ s, s ∈ ids → s ∈ w'.(torn) ∨ kept = Some s ∨ reported results'.
Proof.
  revert results w. induction ids as [|i ids IH]; intros results w Hx; cbn in Hx; returns Hx.
  - split; [done|]. intros s Hs. by apply not_elem_of_nil in Hs.
  - apply release_leaves in E as [H1 H2]. pose proof (tame_release_all r kept a ids w0) as [_ Ht]. rewrite Hx in Ht. cbn in Ht.
    destruct (IH _ _ Hx) as [H3 H4]. split; [auto|]. intros s Hs. apply elem_of_cons in Hs as [->|Hs]; [|auto].
    destruct H2 as [H2|[H2|H2]]; [left; set_solver|auto|auto].
Qed.

Lemma retain_retains t s until d d' u : retain_run_sandbox t id s until d = (d', Ok u) → retained d' = Some s.
Proof.
  unfold retain_run_sandbox, transaction. intros Hx. match type of Hx with match ?x with _ => _ end = _ => destruct x as [[d1 u1]|] eqn:E end; [|done].
  ok_inv E. injection E as <- <-. injection Hx as <- _. unfold retained. cbn. by rewrite lookup_insert_eq.
Qed.

(** A transaction of a returning computation: the database before it, which the world has
    reached, and after. *)
Lemma transacted {A} (f : Instant → Database → Tx A) w w' a : store env f w = (w', Done (Ok a)) →
  ∃ w1 now d, passes w w1 ∧ f now w1.(db) = (d, Ok a) ∧ w' = set_db d w1.
Proof.
  intros Hx. apply store_done in Hx as (n & w1 & Hs & -> & Hr). exists w1, (env.(wall) n).
  pose proof (tame_step w) as Hp. rewrite Hs in Hp. destruct (f (env.(wall) n) w1.(db)) as [d [x|e]]; [|done]. exists d. by simplify_eq/=.
Qed.

Lemma keep_leaves t r ids results policy retention w w' r' results' kept :
  keep env t r ids results policy retention w = (w', Done (r', results', Some kept)) → r.(r_id) = id → alive w.(db) →
  ¬ claimed w'.(db) kept.
Proof.
  unfold keep. intros Hx Hid Ha. destruct retention as [n|]; [|apply ret_done in Hx as [_ ?]; simplify_eq].
  destruct (head ids) as [k|]; [|apply ret_done in Hx as [_ ?]; simplify_eq]. case_match; [|apply ret_done in Hx as [_ ?]; simplify_eq].
  apply bind_done in Hx as ([u|e] & w1 & E & Hx); [|apply ret_done in Hx as [_ ?]; simplify_eq].
  apply bind_done in Hx as (v & w2 & Ev & Hx). apply ret_done in Hx as [-> ?]. simplify_eq.
  apply transacted in E as (w0 & now & d & Hp & Hr & ->). cbn in Hr. rewrite Hid in Hr.
  apply retain_retains in Hr as Hret.
  match type of Ev with event _ ?x _ = _ => pose proof (tame_event x (set_db d w0)) as [Hs _] end. rewrite Ev in Hs. cbn in Hs.
  intros Hc. assert (Hd : alive d).
  { match type of Hr with ?x = _ => assert (Hs0 : sheds w0.(db) x.1) by apply sheds_retain end. rewrite Hr in Hs0. apply Hs0. by eapply passes_alive. }
  apply Hs in Hc as [_ Hc]; [|done]. by rewrite Hret in Hc.
Qed.

Lemma keep_id t r ids results policy retention w w' r' results' kept :
  keep env t r ids results policy retention w = (w', Done (r', results', kept)) → r'.(r_id) = r.(r_id).
Proof.
  unfold keep. intros Hx. destruct retention as [n|]; [|by apply ret_done in Hx as [_ ?]; simplify_eq].
  destruct (head ids) as [k|]; [|by apply ret_done in Hx as [_ ?]; simplify_eq]. case_match; [|by apply ret_done in Hx as [_ ?]; simplify_eq].
  apply bind_done in Hx as ([u|e] & w1 & E & Hx); [|by apply ret_done in Hx as [_ ?]; simplify_eq].
  apply bind_done in Hx as (v & w2 & Ev & Hx). by apply ret_done in Hx as [-> ?]; simplify_eq.
Qed.

Lemma cleanup_leaves t r ids results policy retention w w' r' results' :
  cleanup env t r ids results policy retention w = (w', Done (r', results')) → r.(r_id) = id → alive w.(db) →
  r'.(r_id) = id ∧ ∀ s, s ∈ ids → held w' s → reported results'.
Proof.
  unfold cleanup. case_bool_decide as Hnil.
  { intros Hx Hid _. apply ret_done in Hx as [-> ?]. simplify_eq. split; [done|]. intros s Hs. by apply not_elem_of_nil in Hs. }
  intros Hx Hid Ha. apply bind_done in Hx as (c & w1 & Ec & Hx). pose proof (tame_fetch t r.(r_id) w) as Hp1. rewrite Ec in Hp1. cbn in Hp1.
  apply bind_done in Hx as ([[r2 results2] kept] & w2 & Ek & Hx). apply bind_done in Hx as (results3 & w3 & Er & Hx).
  apply ret_done in Hx as [-> ?]. simplify_eq. set (r1 := match c with Ok _ => _ | Err _ => _ end) in Ek.
  assert (Hid1 : r1.(r_id) = r_id r) by (unfold r1; destruct c; [by case_bool_decide|done]). apply keep_id in Ek as Hid2.
  split; [congruence|]. intros s Hs Hheld. apply release_all_leaves in Er as Hl. destruct Hl as [_ Hl].
  destruct (Hl s Hs) as [Ht|[->|Hrep]]; [by destruct Hheld|exfalso|done]. apply keep_leaves in Ek as Hn; [|congruence|by eapply passes_alive].
  apply Hn. pose proof (tame_release_all r2 (Some s) results2 ids w2) as Hp3. rewrite Er in Hp3. cbn in Hp3.
  pose proof (tame_keep t r1 ids results policy retention w1) as Hp2. rewrite Ek in Hp2. cbn in Hp2.
  eapply passes_held in Hheld; [by destruct Hheld|exact Hp3|]. eapply passes_alive; [exact Hp2|]. by eapply passes_alive.
Qed.

Lemma results_recorded now t results state d d' r : record_run_results now t id results state d = (d', Ok r) →
  d'.(runs) !! id = Some r ∧ r.(r_results) = results ∧ r.(r_id) = id ∨ ¬ alive d.
Proof.
  unfold record_run_results, transaction. intros Hx. match type of Hx with match ?x with _ => _ end = _ => destruct x as [[d1 u1]|] eqn:E end; [|done].
  ok_inv E. injection E as <- <-. injection Hx as <- <-. apply get_run_run in Hok as [Hr _].
  destruct (decide (a.(r_id) = id)) as [Hi|Hi]; [left|right].
  - cbn. rewrite lookup_insert_eq. done.
  - intros (r & Hr' & Hid & _). congruence.
Qed.

(** Every machine the run still holds is covered by a report on its row. *)
Definition accounted (w : World) : Prop := ∀ s, held w s → ∃ r, w.(db).(runs) !! id = Some r ∧ reported r.(r_results).

Lemma record_accounts t r results w w' r' :
  store env (λ now, record_run_results now t r.(r_id) results r.(r_state)) w = (w', Done (Ok r')) → r.(r_id) = id → alive w.(db) →
  (∀ s, held w s → reported results) → accounted w' ∧ r'.(r_id) = id.
Proof.
  intros Hx Hid Ha Hrep. apply transacted in Hx as (w1 & now & d & Hp & Hr & ->). rewrite Hid in Hr.
  assert (Hs : sheds w1.(db) (record_run_results now t id results r.(r_state) w1.(db)).1) by apply sheds_results. rewrite Hr in Hs. cbn in Hs.
  assert (Ha1 : alive w1.(db)) by by eapply passes_alive. apply results_recorded in Hr as [(Hr & Hres & Hi)|?]; [|done]. split; [|done].
  intros s Hheld. exists r'. split; [done|]. rewrite Hres. assert (Hw : held w s).
  { eapply passes_held; [etrans; [exact Hp|]|done|exact Hheld]. split; [exact Hs|done]. }
  eauto.
Qed.

Lemma advance_id r next w w' r' x : advance env r next w = (w', Done (r', x)) → alive w.(db) → r.(r_id) = id → r.(r_tenant_id) = tenant →
  r'.(r_id) = id ∧ r'.(r_tenant_id) = tenant.
Proof.
  unfold advance. intros Hx Ha Hid Ht. apply bind_done in Hx as ([u|e] & w1 & E & Hx).
  - apply ret_done in Hx as [-> ?]. simplify_eq. apply transacted in E as (w0 & now & d & Hp & Hr & ->).
    assert (Ha0 : alive w0.(db)) by by eapply passes_alive. unfold update_run_state, transaction in Hr.
    match type of Hr with match ?x with _ => _ end = _ => destruct x as [[d1 u1]|] eqn:Eu end; [|done]. ok_inv Eu.
    destruct (owned w0.(db) r.(r_tenant_id) r.(r_id)) as [ro|] eqn:Eo; [|done]. ok_inv Eu. injection Eu as <- <-. injection Hr as <- <-.
    apply owned_run in Eo as [Hro _]. destruct Ha0 as (ra & Hra & ? & ?). rewrite Hid in Hro. by simplify_eq.
  - assert (Hgen : ∀ (c : result Failure Run) (w2 : World), fetch_run env r.(r_tenant_id) r.(r_id) w1 = (w2, Done c) →
      ∀ rc, c = Ok rc → rc.(r_id) = id ∧ rc.(r_tenant_id) = tenant).
    { intros c w2 Hf rc ->. apply transacted in Hf as (w0 & now & d & Hp & Hr & ->). injection Hr as _ Hr.
      apply get_run_run in Hr as [Hr _]. rewrite Hid in Hr.
      assert (Ha0 : alive w0.(db)).
      { eapply passes_alive; [exact Hp|]. eapply passes_alive; [|exact Ha]. pose proof (tame_store (λ now, update_run_state now r.(r_tenant_id)
          r.(r_id) r.(r_state) next) ltac:(intros; apply sheds_update) w) as Hp0. by rewrite E in Hp0. }
      destruct Ha0 as (ra & Hra & ? & ?). by simplify_eq. }
    destruct e; try (by apply ret_done in Hx as [-> ?]; simplify_eq); apply bind_done in Hx as (c & w2 & Ef & Hx); apply ret_done in Hx as [-> Hc];
      destruct c as [rc|]; injection Hc as -> _; eauto.
Qed.

Lemma acquire_leaves r aid w w' s : acquire_sandbox env tenant r aid w = (w', Done (Ok s)) → r.(r_id) = id → alive w.(db) →
  alive w'.(db) ∧ ∀ s', held w' s' → held w s' ∨ s' = s.
Proof.
  unfold acquire_sandbox. intros Hx Hid Ha. apply bind_done in Hx as (n & w1 & Es & Hx). pose proof (tame_step w) as Hp1. rewrite Es in Hp1. cbn in Hp1.
  destruct (env.(plan) n) as [e|s1|s1 e]; [by apply ret_done in Hx as [_ ?]| |];
    apply bind_done in Hx as (c & w2 & Ep & Hx); apply ret_done in Hx as [-> Hc]; destruct c as [[]|]; simplify_eq.
  unfold provision_sandbox in Ep. apply bind_done in Ep as ([[]|] & w3 & Ep & Hx); apply ret_done in Hx as [-> ?]; [|done].
  apply transacted in Ep as (w0 & now & d & Hp & Hr & ->). unfold create_attempt_sandbox, transaction in Hr.
  match type of Hr with match ?x with _ => _ end = _ => destruct x as [[d1 u1]|] eqn:Eu end; [|done]. ok_inv Eu. simplify_eq. cbn.
  assert (Ha0 : alive w0.(db)) by (eapply passes_alive; [etrans; [exact Hp1|exact Hp]|done]).
  split; [exact Ha0|]. intros s' [[Hl Hret] Ht]. cbn in *.
  destruct (decide (s' = s1)) as [->|Hne]; [by right|left]. eapply passes_held; [etrans; [exact Hp1|exact Hp]|done|].
  split; [split; [set_solver|exact Hret]|exact Ht].
Qed.

(** The phases hand on the same run. *)
Definition ours (r : Run) : Prop := r.(r_id) = id ∧ r.(r_tenant_id) = tenant.
Definition carries (m : M Worked) : Prop := ∀ w w' r x, alive w.(db) → m w = (w', Done (r, x)) → ours r.

Lemma carries_ret r x : ours r → carries (mret (r, x)).
Proof. intros Ho w w' r' x' _ Hx. apply ret_done in Hx as [_ ?]. by simplify_eq. Qed.

Lemma carries_bind {A} (m : M A) (f : A → M Worked) : tame m → (∀ a, carries (f a)) → carries (m ≫= f).
Proof.
  intros Hm Hf w w' r x Ha Hx. apply bind_done in Hx as (a & w1 & E & Hx). specialize (Hm w). rewrite E in Hm.
  eapply Hf; [|exact Hx]. by eapply passes_alive.
Qed.

Lemma carries_phase {A} run results (m : M A) k : ours run → tame m → (∀ a, carries (k a)) → carries (phase run results m k).
Proof. intros Ho Hm Hk. apply carries_bind; [by apply tame_caught|]. intros [a|e]; [done|by apply carries_ret]. Qed.

Lemma carries_commands run m k : ours run → tame m → (∀ results, carries (k results)) → carries (commands run m k).
Proof. intros Ho Hm Hk. apply carries_bind; [done|]. intros [[a|e] results]; [done|by apply carries_ret]. Qed.

Lemma carries_advancing b run next results k : ours run → (∀ run', ours run' → carries (k run')) → carries (advancing env b run next results k).
Proof.
  intros Ho Hk. unfold advancing. destruct b; [|by apply Hk]. intros w w' r x Ha Hx. apply bind_done in Hx as ([r1 a1] & w1 & E & Hx).
  pose proof (tame_advance run next w) as Hp. rewrite E in Hp. destruct Ho as [Hid Ht]. destruct (advance_id _ _ _ _ _ _ E Ha Hid Ht) as [Hi1 Ht1].
  destruct a1 as [[]|e]; [|by apply ret_done in Hx as [_ ?]; simplify_eq]. eapply Hk; [by split| |exact Hx]. by eapply passes_alive.
Qed.

Lemma carries_post_placement r rq results : ours r → carries (post_placement env r rq results).
Proof.
  intros Ho. unfold post_placement, task, validation, collection.
  repeat first [ apply carries_phase; [done|unfold collect_artifacts; tame|intros] | apply carries_commands; [done|tame|intros]
               | apply carries_advancing; [done|intros ? ?] | apply carries_bind; [tame|intros] | by apply carries_ret ].
Qed.

Lemma on_machine_accounts r rq s last w w' o : on_machine env tenant r rq s last w = (w', Done o) → ours r → alive w.(db) →
  (∀ s', held w s' → s' = s) → accounted w' ∧ o.(ao_run).(r_id) = id.
Proof.
  unfold on_machine. intros Hx Ho Ha Hs. apply bind_done in Hx as ([r1 [a1 results1]] & w1 & E1 & Hx).
  destruct (carries_post_placement r rq default_results Ho w w1 r1 _ Ha E1) as [Hid1 Ht1].
  pose proof (tame_post_placement r rq default_results w) as Hp1. rewrite E1 in Hp1. cbn in Hp1.
  apply bind_done in Hx as (scrub & w2 & E2 & Hx). assert (Hp2 : passes w1 w2).
  { assert (Ht : tame (scrubber env)) by (unfold scrubber; tame). specialize (Ht w1). by rewrite E2 in Ht. }
  apply bind_done in Hx as ([r3 results3] & w3 & E3 & Hx).
  assert (Ha2 : alive w2.(db)) by (eapply passes_alive; [etrans; [exact Hp1|exact Hp2]|done]).
  apply cleanup_leaves in E3 as Hc; [|exact Hid1|done]. destruct Hc as [Hid3 Hrep].
  match type of E3 with cleanup _ ?t ?r ?i ?re ?p ?k _ = _ => pose proof (tame_cleanup t r i re p k w2) as Hp3 end. rewrite E3 in Hp3. cbn in Hp3.
  apply bind_done in Hx as (stored & w4 & E4 & Hx). apply ok_done in E4.
  apply record_accounts in E4 as [Hacc Hid4]; [|done|by eapply passes_alive|].
  - destruct a1 as [[]|e]; [apply ret_done in Hx as [-> ->]; done|]. case_match; [apply ret_done in Hx as [-> ->]; done|done].
  - intros s' Hh. apply (Hrep s'); [|done]. apply list_elem_of_singleton. apply Hs.
    eapply passes_held; [etrans; [exact Hp1|etrans; [exact Hp2|exact Hp3]]|done|done].
Qed.

Definition lives {A} (m : M A) : Prop := ∀ w, alive w.(db) → alive (m w).1.(db).

Lemma lives_tame {A} (m : M A) : tame m → lives m.
Proof. intros Hm w Ha. eapply passes_alive; [apply Hm|done]. Qed.
Lemma lives_bind {A B} (m : M A) (f : A → M B) : lives m → (∀ a, lives (f a)) → lives (m ≫= f).
Proof.
  intros Hm Hf w Ha. specialize (Hm w Ha). unfold mbind, M_bind. destruct (m w) as [w1 [a|e|]]; cbn in *; [by apply Hf|done|done].
Qed.
Lemma lives_acquire r aid : lives (acquire_sandbox env tenant r aid).
Proof.
  assert (Hp : ∀ s n, lives (provision_sandbox env tenant r aid s n)).
  { intros s n. apply lives_bind; [|intros; apply lives_tame; tame]. apply lives_bind; [apply lives_tame; tame|]. intros m w Ha. cbn.
    unfold create_attempt_sandbox, transaction. match goal with |- context [match ?x with Ok _ => _ | Err _ => _ end] => destruct x as [[d1 u1]|] eqn:Eu end;
      [|done]. cbn. ok_inv Eu. by simplify_eq. }
  apply lives_bind; [apply lives_tame; tame|]. intros n. case_match; [apply lives_tame; tame|..];
    (apply lives_bind; [apply Hp|]; intros; apply lives_tame; tame).
Qed.

Lemma on_machine_tame r rq s last : tame (on_machine env tenant r rq s last).
Proof. pose proof tame_post_placement. unfold on_machine, scrubber. tame. Qed.

Lemma lives_execute r rq aid last : lives (execute env tenant r rq aid last).
Proof.
  pose proof on_machine_tame. unfold execute. apply lives_bind; [apply lives_tame; tame|]. intros [r1 [[]|e]]; [|apply lives_tame; tame].
  apply lives_bind; [apply lives_acquire|]. intros x. apply lives_tame. tame.
Qed.

Lemma execute_accounts r rq aid last w w' o : execute env tenant r rq aid last w = (w', Done o) → ours r → alive w.(db) →
  (∀ s, ¬ held w s) → accounted w' ∧ o.(ao_run).(r_id) = id.
Proof.
  unfold execute. intros Hx [Hid Ht] Ha Hnone. apply bind_done in Hx as ([r1 x1] & w1 & E1 & Hx).
  pose proof (tame_advance r Preparing w) as Hp1. rewrite E1 in Hp1. cbn in Hp1. apply advance_id in E1 as Ho1; [|done..].
  destruct x1 as [[]|e]; [|done]. assert (Ha1 : alive w1.(db)) by by eapply passes_alive.
  apply bind_done in Hx as (x2 & w2 & E2 & Hx). apply bind_done in Hx as (text & w2' & Et & Hx). injection Et as <- <-.
  destruct x2 as [s|e]; [|by apply bind_done in Hx as (? & ? & _ & ?)].
  apply acquire_leaves in E2 as [Ha2 Hs2]; [|by destruct Ho1|done].
  apply bind_done in Hx as (x3 & w3 & E3 & Hx). apply bind_done in Hx as (x4 & w4 & E4 & Hx). apply bind_done in Hx as (x5 & w5 & E5 & Hx).
  assert (Hp : passes w2 w5).
  { etrans; [|etrans].
    - assert (Ht3 : tame (store env (λ _, set_run_placement tenant r1.(r_id) (placement_text env (tick w2))))) by tame. specialize (Ht3 w2). by rewrite E3 in Ht3.
    - assert (Ht4 : tame (store env (λ now, record_run_results now tenant r1.(r_id) default_results r1.(r_state)))) by tame. specialize (Ht4 w3). by rewrite E4 in Ht4.
    - pose proof (tame_event r1 w4) as Ht5. by rewrite E5 in Ht5. }
  eapply on_machine_accounts; [exact Hx|by destruct Ho1|by eapply passes_alive|]. intros s' Hh.
  eapply passes_held in Hh; [|exact Hp|done]. apply Hs2 in Hh as [Hh|]; [|done]. eapply passes_held in Hh; [|exact Hp1|done]. by destruct (Hnone s').
Qed.

Lemma fetch_ours w w' r : fetch_run env tenant id w = (w', Done (Ok r)) → alive w.(db) →
  r.(r_id) = id ∧ w'.(db).(runs) !! id = Some r ∧ alive w'.(db).
Proof.
  intros Hx Ha. apply transacted in Hx as (w1 & now & d & Hp & Hr & ->). injection Hr as <- Hr. apply get_run_run in Hr as [Hr _].
  assert (Ha1 : alive w1.(db)) by by eapply passes_alive. cbn. destruct Ha1 as (ra & Hra & ? & ?). simplify_eq. split_and!; [done|done|by eexists].
Qed.

Lemma linked_all s d : s ∈ linked id d ↔ (id, s) ∈ d.(links).
Proof.
  unfold linked. rewrite list_elem_of_fmap. split.
  - intros ([i x] & -> & Hin). apply list_elem_of_In, filter_In in Hin as [Hin Hi]. cbn in Hi. apply N.eqb_eq in Hi as ->. by apply elem_of_elements, list_elem_of_In.
  - intros Hin. exists (id, s). split; [done|]. apply list_elem_of_In, filter_In. split; [by apply list_elem_of_In, elem_of_elements|apply N.eqb_refl].
Qed.

Lemma listed_ours w w' l : list_run_sandboxes env tenant id w = (w', Done (Ok l)) → alive w.(db) →
  passes w w' ∧ ∀ s, (id, s) ∈ w'.(db).(links) → s ∈ l.
Proof.
  intros Hx Ha. apply transacted in Hx as (w1 & now & d & Hp & Hr & ->). injection Hr as <- Hr. split; [exact Hp|]. intros s Hs.
  assert (Ha1 : alive w1.(db)) by by eapply passes_alive. destruct Ha1 as (ra & Hra & _ & Ht). unfold owned in Hr. rewrite Hra in Hr. cbn in Hr.
  rewrite Ht, N.eqb_refl in Hr. subst l. by apply linked_all.
Qed.

Lemma reclaimed_accounts rq current error succ expired w w' a :
  reclaimed env tenant rq (current, error, succ, expired) w = (w', Done a) → current.(r_id) = id → alive w.(db) →
  (error = None → accounted w) →
  (error ≠ None → current.(r_state) ≠ Cancelled → expired = false → ∀ s, current.(r_retained_sandbox_id) = Some s → ¬ claimed w.(db) s) →
  accounted w'.
Proof.
  intros Hx Hid Ha Hnone Hkept. unfold reclaimed in Hx. destruct (bool_decide (is_Some error) || bool_decide (current.(r_state) = Cancelled)) eqn:Eb.
  2:{ apply ret_done in Hx as [-> _]. bools. apply Hnone. destruct error; [|done]. by match goal with H : ¬ is_Some _ |- _ => destruct H end. }
  apply bind_done in Hx as (l & w1 & E1 & Hx). apply ok_done in E1. rewrite Hid in E1. destruct (listed_ours _ _ _ E1 Ha) as [Hp1 Hl].
  assert (Ha1 : alive w1.(db)) by by eapply passes_alive. apply bind_done in Hx as ([r2 results2] & w2 & E2 & Hx).
  apply bind_done in Hx as (r3 & w3 & E3 & Hx). apply ret_done in Hx as [-> _]. apply ok_done in E3.
  match type of E2 with cleanup _ ?t ?r ?i ?re ?p ?k _ = _ => pose proof (tame_cleanup t r i re p k w1) as Hp2 end. rewrite E2 in Hp2. cbn in Hp2.
  apply cleanup_leaves in E2 as [Hid2 Hrep]; [|done|done]. apply record_accounts in E3 as [Hacc _]; [done|done|by eapply passes_alive|].
  intros s Hh. apply (Hrep s); [|done]. apply list_elem_of_In, filter_In. pose proof (passes_held _ _ _ Hp2 Ha1 Hh) as Hh1.
  split; [apply list_elem_of_In, Hl; by destruct Hh1 as [[? _] _]|]. destruct expired; [done|]. case_bool_decide as Hc; [done|]. cbn.
  destruct (decide (current.(r_retained_sandbox_id) = Some s)) as [Hr|Hr]; [|by rewrite bool_decide_false]. exfalso. pose proof (passes_held _ _ _ Hp1 Ha Hh1) as [Hcl _].
  eapply Hkept; [|done|done|exact Hr|exact Hcl]. rewrite orb_false_r in Eb. bools. intros ->. by destruct Eb.
Qed.

Lemma attempt_accounts r rq aid number w w' a : attempt_once env tenant r rq aid number w = (w', Done a) → ours r → alive w.(db) →
  (∀ s, ¬ held w s) → accounted w'.
Proof.
  intros Hx Ho Ha Hnone. unfold attempt_once in Hx. apply bind_done in Hx as (result & w1 & E1 & Hx). unfold within in E1.
  set (w0 := set_cut _ w) in E1. pose proof (lives_execute r rq aid (number =? rq.(rq_max_attempts))%nat w0 Ha) as Ha1.
  destruct (execute env tenant r rq aid _ w0) as [w2 o] eqn:Ee. cbn in Ha1.
  assert (Hw : w1 = set_cut w.(cut_at) w2) by (repeat case_match; by simplify_eq). subst w1.
  apply bind_done in Hx as (at1 & w3 & E3 & Hx).
  assert (Hfetch : ∀ cur, fetch_run env tenant r.(r_id) (set_cut w.(cut_at) w2) = (w3, Done (Ok cur)) → ∀ e exp succ,
    reclaimed env tenant rq (cur, Some e, succ, exp) w3 = (w', Done a) → accounted w').
  { intros cur Hf e exp succ Hrec. destruct Ho as [Hid _]. rewrite Hid in Hf. apply fetch_ours in Hf as (Hi & Hr & Ha3); [|exact Ha1].
    eapply reclaimed_accounts; [exact Hrec|done|done|done|]. intros _ _ _ s Hs [_ Hn]. apply Hn. unfold retained. by rewrite Hr. }
  destruct result as [[o1|e]|].
  - apply ret_done in E3 as [-> ->]. assert (Hd : o = Done o1) by (repeat case_match; by simplify_eq). subst o.
    destruct (execute_accounts _ _ _ _ _ _ _ Ee Ho Ha Hnone) as [Hacc Hi]. eapply reclaimed_accounts; [exact Hx|done|exact Ha1|intros _; exact Hacc|done].
  - apply bind_done in E3 as (cur & w4 & Ef & E3). apply ret_done in E3 as [-> ->]. apply ok_done in Ef. eauto.
  - apply bind_done in E3 as (cur & w4 & Ef & E3). apply ret_done in E3 as [-> ->]. apply ok_done in Ef. eauto.
Qed.

Lemma lives_within {A} c (m : M A) : lives m → lives (within c m).
Proof.
  intros Hm w Ha. unfold within. specialize (Hm (set_cut (sooner w.(cut_at) ((λ c, (c + w.(tick))%nat) <$> c)) w) Ha).
  destruct (m _) as [w1 o]. by repeat case_match.
Qed.

Lemma lives_attempt r rq aid number : lives (attempt_once env tenant r rq aid number).
Proof.
  assert (Hf : tame (list_run_sandboxes env tenant r.(r_id))) by (unfold list_run_sandboxes; apply tame_store; reflexivity).
  unfold attempt_once. apply lives_bind; [apply lives_within, lives_execute|]. intros result. apply lives_bind; [apply lives_tame; tame|].
  intros [[[cur e] su] ex]. apply lives_tame. unfold reclaimed, list_run_sandboxes. tame; reflexivity.
Qed.

(** The teardown of a settled run whose row was read just before. *)
Definition reclamation : M Run := current ← ok (fetch_run env tenant id); reclaim_run env current.

Lemma reclamation_accounts w w' row : reclamation w = (w', Done row) → alive w.(db) → is_terminal row.(r_state) = true → accounted w'.
Proof.
  unfold reclamation, reclaim_run. intros Hx Ha Hterm. apply bind_done in Hx as (cur & w0 & Ef & Hx). apply ok_done in Ef.
  apply fetch_ours in Ef as (Hid & Hrow & Ha0); [|done]. assert (Hten : cur.(r_tenant_id) = tenant).
  { destruct Ha0 as (ra & Hra & _ & Ht). by simplify_eq. }
  destruct (is_terminal cur.(r_state)) eqn:Hc; cbn [negb] in Hx; [|apply ret_done in Hx as [_ ->]; congruence].
  rewrite Hid, Hten in Hx. apply bind_done in Hx as (l & w1 & E1 & Hx). apply ok_done in E1. destruct (listed_ours _ _ _ E1 Ha0) as [Hp1 Hl].
  assert (Ha1 : alive w1.(db)) by by eapply passes_alive. apply bind_done in Hx as ([r2 results2] & w2 & E2 & Hx). apply ok_done in Hx.
  match type of E2 with cleanup _ ?t ?r ?i ?re ?p ?k _ = _ => pose proof (tame_cleanup t r i re p k w1) as Hp2 end. rewrite E2 in Hp2. cbn in Hp2.
  apply cleanup_leaves in E2 as [Hid2 Hrep]; [|done|done]. rewrite <-Hid2 in Hx.
  apply record_accounts in Hx as [Hacc _]; [done|done|by eapply passes_alive|].
  intros s Hh. apply (Hrep s); [|done]. apply list_elem_of_In, filter_In. pose proof (passes_held _ _ _ Hp2 Ha1 Hh) as Hh1.
  split; [apply list_elem_of_In, Hl; by destruct Hh1 as [[? _] _]|]. apply negb_true_iff, bool_decide_eq_false. intros Hr.
  destruct (passes_held _ _ _ Hp1 Ha0 Hh1) as [[_ Hn] _]. apply Hn. unfold retained. by rewrite Hrow.
Qed.

(** Every machine linked to the run was seen destroyed, is on record as retained, or the run's
    stored results carry a report that a machine outlived it. *)
Definition answered_for (w : World) : Prop := ∀ s, (id, s) ∈ w.(db).(links) →
  s ∈ w.(torn) ∨ retained w.(db) = Some s ∨ ∃ row, w.(db).(runs) !! id = Some row ∧ row.(r_results).(cleanup_failed) ≠ None.

Lemma accounted_answered w : accounted w → answered_for w.
Proof.
  intros Hacc s Hl. destruct (decide (s ∈ w.(torn))) as [|Ht]; [by left|right].
  destruct (decide (retained w.(db) = Some s)) as [|Hr]; [by left|right]. exact (Hacc s (conj (conj Hl Hr) Ht)).
Qed.

End Held.

(** C7: an attempt of a run that holds no machine when it begins, while no other writer
    links machines to that run, deletes it or clears its retention.  When the attempt returns
    (success, failure in any phase, cancellation by another writer, or its timer, which may
    fall between any two calls), every machine linked to the run has been seen destroyed, is
    on record as retained, or is covered by a report in the stored results.  When it does not
    return, because a write of the store was refused or the lease was lost anywhere, the same
    holds after the next reclamation of the settled run that returns, whatever others have
    written in between. *)
Theorem machines_destroyed_retained_or_reported tenant id env r rq aid number w w' o :
  (∀ n, Forall (λ o, bystander id o = true) (env.(others) n)) →
  alive tenant id w.(db) → ours tenant id r → (∀ s, ¬ held id w s) →
  attempt_once env tenant r rq aid number w = (w', o) →
  (∀ a, o = Done a → answered_for id w')
  ∧ ∀ env' c w'' row, (∀ n, Forall (λ o, bystander id o = true) (env'.(others) n)) →
      reclamation tenant id env' (set_cut c w') = (w'', Done row) → is_terminal row.(r_state) = true → answered_for id w''.
Proof.
  intros Hb Ha Ho Hnone Hx. split.
  - intros a ->. apply accounted_answered. by eapply (attempt_accounts tenant id env Hb).
  - intros env' c w'' row Hb' Hr Ht. apply accounted_answered. eapply (reclamation_accounts tenant id env' Hb'); [exact Hr| |exact Ht].
    pose proof (lives_attempt tenant id env Hb r rq aid number w Ha) as Hl. by rewrite Hx in Hl.
Qed.

(** ** Attempts are never sealed *)
Definition steady {A} (m : M A) : Prop := ∀ w, (m w).1.(begun) = w.(begun).

Lemma steady_bind {A B} (m : M A) (f : A → M B) : steady m → (∀ a, steady (f a)) → steady (m ≫= f).
Proof.
  intros Hm Hf w. specialize (Hm w). unfold mbind, M_bind. destruct (m w) as [w1 [a|e|]]; cbn in *; [|done|done]. by rewrite Hf.
Qed.
Lemma steady_store {A} env (f : Instant → Database → Tx A) : steady (store env f).
Proof. apply steady_bind; [|done]. intros w. unfold step. by case_match. Qed.
Lemma steady_ok {A} (m : M (result Failure A)) : steady m → steady (ok m).
Proof. intros Hm. apply steady_bind; [done|]. by intros [a|e]. Qed.
Lemma steady_settle_failure env t r why : steady (settle_failure env t r why).
Proof. apply steady_bind; [apply steady_ok, steady_store|]. intros a. apply steady_bind; [apply steady_store|done]. Qed.

Lemma complete_refused t aid v d : v.(a_completed_at) = None → complete_run_attempt t aid v d = (d, Err RunError.Conflict).
Proof. intros Hn. unfold complete_run_attempt. rewrite Hn. by rewrite orb_true_r. Qed.

Lemma seal_never_returns env t aid number a w w' : seal env t aid number a w ≠ (w', Done ()).
Proof.
  destruct a as [[[current error] succ] expired]. unfold seal. intros Hx. apply bind_done in Hx as (scrub & w1 & _ & Hx). apply ok_done in Hx.
  apply store_done in Hx as (n & w2 & _ & _ & Hx). by rewrite complete_refused in Hx.
Qed.

Lemma attempts_return_unbegun env t rq started k number run e w w' r :
  attempts_from env t rq started k number run e w = (w', Done r) → w'.(begun) = w.(begun).
Proof.
  assert (Hs : ∀ run e, steady (settle_failure env t run (CoreFailure.to_string <$> e) ≫= λ _, ok (fetch_run env t run.(r_id)))).
  { intros. apply steady_bind; [apply steady_settle_failure|]. intros _. apply steady_ok, steady_store. }
  destruct k as [|k]; cbn [attempts_from]; intros Hx; [by rewrite <-(Hs run e w), Hx|].
  apply bind_done in Hx as (run1 & w1 & E1 & Hx). pose proof (steady_ok _ (steady_store env (λ _ d, (d, get_run t run.(r_id) d))) w) as Hb1.
  unfold fetch_run in E1. rewrite E1 in Hb1. cbn in Hb1. rewrite <-Hb1. case_match; [by apply ret_done in Hx as [-> _]|].
  apply bind_done in Hx as (now & w2 & E2 & Hx). injection E2 as <- <-. case_match; [by rewrite <-(Hs run1 (Some (CoreFailure.Unavailable "run deadline exhausted")) w1), Hx|].
  apply bind_done in Hx as (aid & w3 & _ & Hx). apply bind_done in Hx as (a & w4 & _ & Hx). apply bind_done in Hx as ([] & w5 & E5 & _).
  by apply seal_never_returns in E5.
Qed.

(** C40: an execution that begins an attempt never returns a run.  The record that seals the
    attempt has no completion time, which the store refuses, so the execution ends in that
    refusal before it can settle the run, whatever the work came to. *)
Theorem begun_attempt_is_never_settled env t run rq w :
  (execute_created env t run rq w).1.(begun) = w.(begun) ∨ ∀ r, (execute_created env t run rq w).2 ≠ Done r.
Proof.
  destruct (execute_created env t run rq w) as [w' o] eqn:E. destruct o as [r|e|]; [left; cbn|by right..]. unfold execute_created in E.
  destruct (is_terminal run.(r_state)); [by apply ret_done in E as [-> _]|]. apply bind_done in E as (started & w1 & E1 & E). injection E1 as <- <-.
  by apply attempts_return_unbegun in E.
Qed.

(** ** A sample *)
Module SampleExecutor.

(** Machines that boot, commands that succeed, nobody else at work. *)
Definition env : Env := {|
  limits := SampleRuns.limits; others := λ _, []; wall := Z.of_nat; mono := λ _, 0%Z; fresh := λ n, (1000 + N.of_nat n)%N; admitted := λ _, Ok ();
  plan := λ n, Boots (2000 + N.of_nat n)%N; runtime := λ _, Ok (); uploads := true; exec := λ _, Ok true; secrets := λ _, Ok (λ t, t);
  fetch := λ _, Stored; listed := λ _, Ok (); gone := λ _ _, false; guard := λ _ _, Ok (); tear := λ _ _, Ok (); timer := λ _, None;
  lease := λ _, None; words := λ _, "refused"; show := λ _, "machine"; placement_text := λ _, "placed" |}.

Definition rq : Request := {|
  rq_setup := [["make"]]; rq_command := ["agent"]; rq_validations := [["test"]]; rq_artifacts := ["report.txt"]; rq_git_evidence := true;
  rq_timeout := None; rq_retention := Destroy; rq_retained_seconds := None; rq_max_attempts := 2 |}.

Definition world (d : Database) : World := {| db := d; tick := 0; cut_at := None; torn := ∅; begun := 0 |}.

(** One run of one tenant, admitted. *)
Definition admitted_run : Database := (run_ops SampleRuns.limits [Enqueue 0%Z (SampleRuns.run 1 10 None) (Some "r")] SampleRuns.start).1.

(** What a turn of the dispatcher makes of it: the run's state, its reason, whether its task
    succeeded, its attempts and its row in the queue. *)
Definition after_dispatch (w : World) : option RunState * option string * option bool * list (RunState * option string) * option QueueStatus :=
  let d := w.(db) in
  (r_state <$> d.(runs) !! 1%N, d.(runs) !! 1%N ≫= r_failure_reason, d.(runs) !! 1%N ≫= (λ r, r.(r_results).(rs_task)),
   (λ a, (a.2.(a_state), a.2.(a_failure_reason))) <$> map_to_list d.(attempts), q_status <$> d.(queue) !! 1%N).

(** on machines that boot and with every command, validation and collection succeeding,
    a dispatched run is recorded as failed. *)
Theorem successful_work_is_recorded_as_failed :
  after_dispatch (dispatch env (λ _, Some rq) false (world admitted_run)).1
  = (Some Failed, Some "Run executor did not settle cleanly", Some true,
     [(Failed, Some "Run executor did not settle cleanly")], Some Finished).
Proof. vm_compute. reflexivity. Qed.

Definition attempt : RunAttempt := {|
  a_run_id := 1; attempt_number := 1; a_sandbox_id := None; a_state := Running; a_failure_reason := None; a_completed_at := None; a_document := "" |}.
Definition begun_run : Database := (run_ops SampleRuns.limits [RecordAttempt 10 500 attempt] admitted_run).1.

(** Machines cannot be destroyed, and another writer cancels the run. *)
Definition stubborn : Env := {|
  limits := SampleRuns.limits; others := λ n, if (n =? 8)%nat then [UpdateState 8%Z 10 1 Running Cancelled] else []; wall := Z.of_nat; mono := λ _, 0%Z;
  fresh := λ n, (1000 + N.of_nat n)%N; admitted := λ _, Ok (); plan := λ n, Boots (2000 + N.of_nat n)%N; runtime := λ _, Ok (); uploads := true;
  exec := λ _, Ok true; secrets := λ _, Ok (λ t, t); fetch := λ _, Stored; listed := λ _, Ok (); gone := λ _ _, false; guard := λ _ _, Ok ();
  tear := λ _ _, Err (CoreFailure.Unavailable "worker gone"); timer := λ _, None; lease := λ _, None; words := λ _, "refused";
  show := λ _, "machine"; placement_text := λ _, "placed" |}.

Definition stubborn_attempt : World * outcome Attempted := attempt_once stubborn 10 (SampleRuns.run 1 10 None) rq 500 1 (world begun_run).

(** The same attempt loses its lease after six calls; the run is then failed by another
    writer, and reclaimed. *)
Definition lost : World := {| db := begun_run; tick := 0; cut_at := Some 6%nat; torn := ∅; begun := 0 |}.
Definition lost_attempt : World * outcome Attempted := attempt_once stubborn 10 (SampleRuns.run 1 10 None) rq 500 1 lost.
Definition later : Env := {|
  limits := SampleRuns.limits; others := λ n, if (n =? 6)%nat then [RecordFailure 8%Z 10 1 default_results (Some "lease lost"%string)] else [];
  wall := Z.of_nat; mono := λ _, 0%Z; fresh := λ n, (1000 + N.of_nat n)%N; admitted := λ _, Ok (); plan := λ n, Boots (2000 + N.of_nat n)%N;
  runtime := λ _, Ok (); uploads := true; exec := λ _, Ok true; secrets := λ _, Ok (λ t, t); fetch := λ _, Stored; listed := λ _, Ok ();
  gone := λ _ _, false; guard := λ _ _, Ok (); tear := λ _ _, Ok (); timer := λ _, None; lease := λ _, None; words := λ _, "refused";
  show := λ _, "machine"; placement_text := λ _, "placed" |}.
Definition reclaimed_later : World * outcome Run := reclamation 10 1 later (set_cut None lost_attempt.1).

Lemma begun_run_free : (∀ s, ¬ held 1 (world begun_run) s) ∧ ∀ s, ¬ held 1 lost s.
Proof.
  assert (He : begun_run.(links) = ∅) by (vm_compute; reflexivity).
  split; intros s [[Hs _] _]; change ((1%N, s) ∈ begun_run.(links)) in Hs; rewrite He in Hs; exact (not_elem_of_empty _ Hs).
Qed.

Lemma begun_run_alive : alive 10 1 begun_run.
Proof. eexists. vm_compute. repeat split; reflexivity. Qed.

Lemma stubborn_bystanders n : Forall (λ o, bystander 1 o = true) (stubborn.(others) n).
Proof. cbn. destruct (n =? 8)%nat; repeat constructor. Qed.

Lemma later_bystanders n : Forall (λ o, bystander 1 o = true) (later.(others) n).
Proof. cbn. destruct (n =? 6)%nat; repeat constructor. Qed.

Lemma machines_destroyed_retained_or_reported_witness :
  (2001%N ∉ stubborn_attempt.1.(torn) ∧ answered_for 1 stubborn_attempt.1)
  ∧ lost_attempt.2 = Cut ∧ 2001%N ∉ lost_attempt.1.(torn) ∧ answered_for 1 reclaimed_later.1.
Proof.
  assert (Ht : bool_decide (2001%N ∈ stubborn_attempt.1.(torn)) = false) by (vm_compute; reflexivity).
  assert (Hl : bool_decide (2001%N ∈ lost_attempt.1.(torn)) = false) by (vm_compute; reflexivity).
  split; [split; [exact (bool_decide_eq_false_1 _ Ht)|]|split; [vm_compute; reflexivity|split; [exact (bool_decide_eq_false_1 _ Hl)|]]].
  - clear Ht Hl. destruct stubborn_attempt as [w' o] eqn:E. assert (Hd : ∃ a, o = Done a).
    { apply (f_equal snd) in E. cbn [snd] in E. rewrite <-E. eexists. vm_compute. reflexivity. }
    destruct Hd as [a ->].
    exact (proj1 (machines_destroyed_retained_or_reported 10 1 stubborn (SampleRuns.run 1 10 None) rq 500 1 (world begun_run) w' (Done a)
      stubborn_bystanders begun_run_alive (conj eq_refl eq_refl) (proj1 begun_run_free) E) a eq_refl).
  - clear Ht Hl. destruct reclaimed_later as [w'' o] eqn:E. assert (Hd : ∃ row, o = Done row ∧ is_terminal row.(r_state) = true).
    { apply (f_equal snd) in E. cbn [snd] in E. rewrite <-E. eexists. vm_compute. split; reflexivity. }
    destruct Hd as (row & -> & Hterm).
    exact (proj2 (machines_destroyed_retained_or_reported 10 1 stubborn (SampleRuns.run 1 10 None) rq 500 1 lost lost_attempt.1 lost_attempt.2
      stubborn_bystanders begun_run_alive (conj eq_refl eq_refl) (proj2 begun_run_free) (surjective_pairing _)) later None w'' row
      later_bystanders E Hterm).
Defined.

End SampleExecutor.
