(* ===== verification/RunLiveness.v ===== *)
(** * RunLiveness: work that is abandoned is finished, a request that waits is answered

    Two liveness properties of the run queue.  When executors are gone, and every lease and
    deadline with them, each turn of a dispatcher ([RunExecutor.dispatch]) takes one row over
    and finishes it, so as many turns as rows are pending leave none.  And the request that
    submitted a run ([enqueue_and_wait] of [crates/aiec-api/src/run_queue.rs]) polls it with a
    growing delay and answers within the grace period of its settling, even when its
    teardown never ends. *)

From S2P Require Import Prelude Lifecycle RunStore RunQueue RunExecutor.
Import Runs.

(** ** A dispatcher alone *)
(** Nobody else writes, no lease is lost, machines can be destroyed, and any [window] calls in
    a row take less than a lease. *)
Record calm (window : nat) (env : Env) : Prop := {
  calm_others n : env.(others) n = [];
  calm_lease n : env.(lease) n = None;
  calm_guard n s : env.(guard) n s = Ok ();
  calm_tear n s : env.(tear) n s = Ok ();
  calm_limits : sound_limits env.(limits);
  calm_clock n m : (n ≤ m ≤ n + window)%nat → env.(wall) m < env.(wall) n + interval env.(limits).(lease_seconds) }.

Section Calm.
Context (window : nat) (env : Env) (Hcalm : calm window env).

(** Only machines, events and the count of calls changed, the latter by [k] at most. *)
Definition still (k : nat) (w w' : World) : Prop :=
  w'.(db).(runs) = w.(db).(runs) ∧ w'.(db).(queue) = w.(db).(queue) ∧ w'.(db).(dispatched) = w.(db).(dispatched)
  ∧ w'.(db).(links) = w.(db).(links) ∧ w'.(cut_at) = w.(cut_at) ∧ (w.(tick) ≤ w'.(tick) ≤ w.(tick) + k)%nat.

Lemma still_trans k k' w1 w2 w3 : still k w1 w2 → still k' w2 w3 → still (k + k') w1 w3.
Proof. intros (? & ? & ? & ? & ? & ?) (? & ? & ? & ? & ? & ?). split_and!; lia || congruence. Qed.

Lemma still_mono k k' w w' : (k ≤ k')%nat → still k w w' → still k' w w'.
Proof. intros ? (? & ? & ? & ? & ? & ?). split_and!; lia || done. Qed.

Definition ticked (w : World) : World := {|
  db := w.(db); tick := S w.(tick); cut_at := w.(cut_at); torn := w.(torn); begun := w.(begun) |}.

Lemma step_calm w : w.(cut_at) = None → step env w = (ticked w, Done w.(tick)).
Proof. intros Hc. unfold step, ticked, commits. by rewrite Hc, (calm_others _ _ Hcalm). Qed.

Lemma bind_calm {A B} (m : M A) (f : A → M B) w w' a : m w = (w', Done a) → (m ≫= f) w = f a w'.
Proof. unfold mbind, M_bind. by intros ->. Qed.

Lemma ask_calm {A} (f : nat → A) w : w.(cut_at) = None → ask env f w = (ticked w, Done (f w.(tick))).
Proof. intros Hc. unfold ask. by rewrite (bind_calm _ _ _ _ _ (step_calm w Hc)). Qed.

Lemma store_calm {A} (f : Instant → Database → Tx A) w d r : w.(cut_at) = None → f (env.(wall) w.(tick)) w.(db) = (d, Ok r) →
  store env f w = (set_db d (ticked w), Done (Ok r)).
Proof. intros Hc Hf. unfold store. rewrite (bind_calm _ _ _ _ _ (step_calm w Hc)). unfold transact. cbn. by rewrite Hf. Qed.

Lemma event_calm r w : w.(cut_at) = None → ∃ w', event env r w = (w', Done ()) ∧ still 1 w w'.
Proof.
  intros Hc. unfold event, store. set (f := λ (_ : Instant) d, append_run_event r.(r_tenant_id) r.(r_id) r.(r_retained_sandbox_id) false true d).
  assert (Hf : ∀ now d, (f now d).1.(runs) = d.(runs) ∧ (f now d).1.(queue) = d.(queue) ∧ (f now d).1.(dispatched) = d.(dispatched)
    ∧ (f now d).1.(links) = d.(links)).
  { intros now d. unfold f, append_run_event, transaction. match goal with |- context [match ?x with Ok _ => _ | Err _ => _ end] => destruct x as [[d1 u]|] eqn:E end;
      [|done]. ok_inv E. by simplify_eq. }
  destruct (Hf (env.(wall) w.(tick)) w.(db)) as (H1 & H2 & H3 & H4).
  exists (set_db (f (env.(wall) w.(tick)) w.(db)).1 (ticked w)). split; [|split_and!; cbn; done || lia].
  by rewrite (bind_calm _ _ w (set_db (f (env.(wall) w.(tick)) w.(db)).1 (ticked w))
    (match (f (env.(wall) w.(tick)) w.(db)).2 with Ok a => Ok a | Err e => Err (core_error env e) end))
    by (by rewrite (bind_calm _ _ _ _ _ (step_calm w Hc))).
Qed.

Lemma still_ticked w : still 1 w (ticked w).
Proof. split_and!; cbn; done || lia. Qed.

Lemma destroy_calm s w : w.(cut_at) = None → ∃ w', destroy_with_retry env s w = (w', Done (Ok ())) ∧ still 2 w w'.
Proof.
  intros Hc. unfold destroy_with_retry. rewrite (bind_calm _ _ _ _ _ (ask_calm (λ n, env.(guard) n s) w Hc)), (calm_guard _ _ Hcalm).
  unfold ATTEMPTS. cbn [destroy_attempts]. rewrite (bind_calm _ _ _ _ _ (ask_calm (λ n, env.(tear) n s) (ticked w) Hc)), (calm_tear _ _ Hcalm).
  eexists. split; [reflexivity|split_and!; cbn; done || lia].
Qed.

Lemma release_calm r results s w : w.(cut_at) = None → ∃ w', release env r None results s w = (w', Done results) ∧ still 4 w w'.
Proof.
  intros Hc. unfold release. rewrite bool_decide_false by done. rewrite (bind_calm _ _ _ _ _ (ask_calm (λ n, env.(gone) n s) w Hc)).
  destruct (env.(gone) w.(tick) s); [by eexists; split; [reflexivity|]; apply (still_mono 1); [lia|apply still_ticked]|].
  destruct (destroy_calm s (ticked w) Hc) as (w1 & E1 & Hs1). rewrite (bind_calm _ _ _ _ _ E1).
  assert (Hc1 : w1.(cut_at) = None) by (destruct Hs1 as (_ & _ & _ & _ & -> & _); done).
  destruct (event_calm r w1 Hc1) as (w2 & E2 & Hs2). rewrite (bind_calm _ _ _ _ _ E2). eexists. split; [reflexivity|].
  exact (still_trans 1 3 _ _ _ (still_ticked w) (still_trans 2 1 _ _ _ Hs1 Hs2)).
Qed.

Lemma still_cut k w w' : still k w w' → w.(cut_at) = None → w'.(cut_at) = None.
Proof. by intros (_ & _ & _ & _ & -> & _). Qed.

Lemma release_all_calm r results ids w : w.(cut_at) = None → ∃ w', release_all env r None results ids w = (w', Done results) ∧ still (4 * length ids) w w'.
Proof.
  revert w. induction ids as [|s ids IH]; intros w Hc; cbn [release_all]; [by exists w; split; [|split_and!; cbn; done || lia]|].
  destruct (release_calm r results s w Hc) as (w1 & E1 & Hs1). rewrite (bind_calm _ _ _ _ _ E1).
  destruct (IH w1 (still_cut _ _ _ Hs1 Hc)) as (w2 & E2 & Hs2). exists w2. split; [done|].
  eapply still_mono; [|exact (still_trans _ _ _ _ _ Hs1 Hs2)]. cbn. lia.
Qed.

Lemma cleanup_calm t r ids results w : w.(cut_at) = None → owned w.(db) t r.(r_id) = Some r →
  ∃ w' r', cleanup env t r ids results Destroy None w = (w', Done (r', results)) ∧ still (1 + 4 * length ids) w w' ∧ r'.(r_state) = r.(r_state).
Proof.
  intros Hc Ho. unfold cleanup. case_bool_decide; [exists w, r; split; [done|]; split; [split_and!; done || lia|done]|].
  assert (Hf : fetch_run env t r.(r_id) w = (set_db w.(db) (ticked w), Done (Ok r))).
  { apply store_calm; [done|]. unfold get_run. by rewrite Ho. }
  rewrite (bind_calm _ _ _ _ _ Hf). set (r1 := if bool_decide _ then _ else _). unfold keep.
  rewrite (bind_calm _ _ (set_db w.(db) (ticked w)) (set_db w.(db) (ticked w)) (r1, results, None)) by done.
  destruct (release_all_calm r1 results ids (set_db w.(db) (ticked w)) Hc) as (w1 & E1 & Hs1). rewrite (bind_calm _ _ _ _ _ E1).
  exists w1, r1. split; [done|]. split; [exact (still_trans 1 _ _ _ _ (still_ticked w : still 1 w (set_db w.(db) (ticked w))) Hs1)|]. unfold r1. by case_bool_decide.
Qed.

Lemma reclaim_run_calm id run w : w.(cut_at) = None → w.(db).(runs) !! id = Some run → run.(r_id) = id → is_terminal run.(r_state) = true →
  ∃ w' run', reclaim_run env run w = (w', Done run') ∧ w'.(cut_at) = None ∧ w'.(db).(runs) = <[id := run']> w.(db).(runs)
    ∧ w'.(db).(queue) = w.(db).(queue) ∧ w'.(db).(dispatched) = w.(db).(dispatched)
    ∧ run'.(r_id) = id ∧ run'.(r_tenant_id) = run.(r_tenant_id) ∧ is_terminal run'.(r_state) = true ∧ run'.(r_results).(cleanup_failed) = None
    ∧ w'.(db).(links) = w.(db).(links) ∧ (w.(tick) ≤ w'.(tick) ≤ w.(tick) + 3 + 4 * length (linked id w.(db)))%nat.
Proof.
  intros Hc Hr Hid Ht. unfold reclaim_run. rewrite Ht. cbn [negb].
  assert (Ho : ∀ d, d.(runs) = w.(db).(runs) → owned d run.(r_tenant_id) run.(r_id) = Some run).
  { intros d Hd. unfold owned. rewrite Hd, Hid, Hr. cbn. by rewrite N.eqb_refl. }
  assert (Hl : ok (list_run_sandboxes env run.(r_tenant_id) run.(r_id)) w = (set_db w.(db) (ticked w), Done (linked run.(r_id) w.(db)))).
  { unfold ok, list_run_sandboxes. rewrite (bind_calm _ _ w (set_db w.(db) (ticked w)) (Ok (linked run.(r_id) w.(db)))); [done|].
    apply store_calm; [done|]. by rewrite Ho. }
  rewrite (bind_calm _ _ _ _ _ Hl). set (ids := List.filter _ _).
  destruct (cleanup_calm run.(r_tenant_id) run ids (with_report run.(r_results) None) (set_db w.(db) (ticked w)) Hc (Ho _ eq_refl))
    as (w1 & r1 & E1 & Hs1 & Hst). rewrite (bind_calm _ _ _ _ _ E1). destruct Hs1 as (S1 & S2 & S3 & S4 & S5 & S6).
  assert (Hids : (length ids ≤ length (linked id w.(db)))%nat) by (unfold ids; rewrite Hid; apply List.filter_length_le).
  set (run' := with_outcome run run.(r_state) run.(r_queued_at) run.(r_started_at) (coalesce run.(r_completed_at) (Some (env.(wall) w1.(tick))))
    (with_report run.(r_results) None) run.(r_failure_reason)).
  exists (set_db (put_run id run' w1.(db)) (ticked w1)), run'. split.
  - unfold ok. rewrite (bind_calm _ _ w1 (set_db (put_run id run' w1.(db)) (ticked w1)) (Ok run')); [done|]. apply store_calm; [by rewrite S5|].
    unfold record_run_results, get_run. rewrite Ho by done. cbn. rewrite Hst, bool_decide_true by done. cbn. rewrite Ht. by rewrite Hid.
  - split_and!; try done; cbn in *; lia || congruence.
Qed.

Lemma finish_calm id q owner run w : w.(cut_at) = None → w.(db).(queue) !! id = Some q → w.(db).(runs) !! id = Some run →
  run.(r_tenant_id) = q.(q_tenant_id) → run.(r_id) = id → q.(q_owner) = Some owner → q.(q_status) = Reclaiming →
  ahead (env.(wall) w.(tick)) q.(lease_until) = true → is_terminal run.(r_state) = true → run.(r_results).(cleanup_failed) = None →
  finish env run.(r_tenant_id) run.(r_id) owner w
  = (set_db (put_row id (with_grant q Finished None None q.(execution_deadline) q.(q_failure_reason)) w.(db)) (ticked w), Done ()).
Proof.
  intros Hc Hq Hr Ht Hid Ho Hst Hl Hterm Hclean. unfold finish.
  rewrite (bind_calm _ _ w (set_db (put_row id (with_grant q Finished None None q.(execution_deadline) q.(q_failure_reason)) w.(db)) (ticked w)) (Ok true)); [done|].
  apply store_calm; [done|]. unfold finish_run_queue.
  assert (Hle : leased (env.(wall) w.(tick)) run.(r_tenant_id) run.(r_id) owner w.(db) = Some q).
  { unfold leased, of_tenant. rewrite Hid, Hq. cbn. by rewrite Ht, N.eqb_refl, Ho, Hl, bool_decide_true. }
  rewrite Hle. unfold holds_slot, in_time, settled_cleanly. rewrite Hst, Hid, Hr, Hterm, Hclean. done.
Qed.

(** Every lease and every deadline has passed, whatever clock a call reads. *)
Definition overdue (d : Database) : Prop := ∀ id q, d.(queue) !! id = Some q → ∀ n,
  (holds_slot q = true → past (env.(wall) n) q.(lease_until) = true) ∧ (q.(q_status) = QQueued → q.(queue_deadline) ≤ env.(wall) n).

Lemma overdue_recoverable d n id q : keyed_well d → overdue d → d.(queue) !! id = Some q → pending q = true →
  may_recover (env.(wall) n) ∅ d (id, q) = true.
Proof.
  intros Hk Ho Hq Hp. destruct (Ho id q Hq n) as [H1 H2]. destruct (k_row _ Hk _ _ Hq) as (r & Hr & _). unfold may_recover, state_of. cbn. rewrite Hr. cbn.
  rewrite (bool_decide_false (id ∈ (∅ : gset Uuid)) (not_elem_of_empty id)), andb_true_r. unfold pending, holds_slot in *. destruct (q_status q) eqn:Est; cbn in *; rewrite ?H1 by done; try done.
  specialize (H2 eq_refl). apply orb_true_iff. left. lia.
Qed.

Lemma recovery_granted d n owner : keyed_well d → overdue d → 0 < rows pending d →
  ∃ id q c, recover_run_queue (env.(wall) n) ∅ owner env.(limits) d = (recovers env.(limits) (env.(wall) n) owner id q d, Ok (Some c))
    ∧ d.(queue) !! id = Some q ∧ pending q = true
    ∧ (recovers env.(limits) (env.(wall) n) owner id q d).(runs) !! id = Some c.(c_run) ∧ c.(c_owner) = owner ∧ c.(reclaiming) = true.
Proof.
  intros Hk Ho Hp. destruct (calm_limits _ _ Hcalm) as [Hv Hl]. apply rows_in_pos in Hp as (i & p & Hi & Hpi).
  pose proof (overdue_recoverable d n i p Hk Ho Hi Hpi) as Hrec.
  destruct (recover_cases env.(limits) (env.(wall) n) ∅ owner d Hk Hv) as [[_ [Hn|(Hfull & id & q & Es & Hst)]]|(id & q & c & Es & _ & Hr & Hco & Hcr & E)].
  - by rewrite (none_selected _ _ _ Hn (i, p) Hi) in Hrec.
  - exfalso. destruct (sound_positive _ (calm_limits _ _ Hcalm)) as [Hm _]. assert (Hpos : 0 < rows holds_slot d) by lia.
    apply rows_in_pos in Hpos as (j & q' & Hj & Hh). destruct (selected _ _ _ _ Es) as (_ & _ & Hmin).
    specialize (Hmin (j, q') Hj (overdue_recoverable d n j q' Hk Ho Hj (pending_holds _ Hh))). unfold recover_key in Hmin. cbn in Hmin.
    rewrite Hst in Hmin. unfold holds_slot in Hh. by destruct (q_status q').
  - exists id, q, c. destruct (selected _ _ _ _ Es) as (Hq & Hm & _). split_and!; try done. unfold may_recover in Hm. cbn in Hm.
    destruct (state_of d id); [|done]. bools. unfold pending, holds_slot in *. by destruct (q_status q).
Qed.

Lemma retired_terminal now id why d r : (retire_run now id why d).(runs) !! id = Some r → is_Some (d.(runs) !! id) → is_terminal r.(r_state) = true.
Proof.
  unfold retire_run. intros Hr [r0 Hr0]. rewrite Hr0 in Hr. destruct (is_terminal r0.(r_state)) eqn:Et; cbn in Hr; [by rewrite Hr0 in Hr; simplify_eq|].
  rewrite lookup_insert_eq in Hr. by simplify_eq.
Qed.

Lemma keyed_rewritten id r0 r d d' : keyed_well d → d.(runs) !! id = Some r0 → r.(r_id) = r0.(r_id) → r.(r_tenant_id) = r0.(r_tenant_id) →
  d'.(runs) = <[id := r]> d.(runs) → d'.(queue) = d.(queue) → d'.(dispatched) = d.(dispatched) → keyed_well d'.
Proof.
  intros Hk Hr Hi Ht Hrs Hq Hd. apply (keyed_keeps d); [done| |done|done]. destruct (keeps_runs_put id r r0 d Hr Hi Ht) as [H1 H2].
  unfold keeps_runs, same_runs in *. by rewrite Hrs.
Qed.

(** A reclaiming claim is carried through: the run settles and its row is finished. *)
Lemma reclaim_owned_calm id q owner c w : w.(cut_at) = None → keyed_well w.(db) → w.(db).(runs) !! id = Some c.(c_run) →
  w.(db).(queue) !! id = Some q → c.(c_owner) = owner → q.(q_owner) = Some owner → q.(q_status) = Reclaiming →
  (∀ n, (w.(tick) ≤ n ≤ w.(tick) + 4 + 4 * length (linked id w.(db)))%nat → ahead (env.(wall) n) q.(lease_until) = true) →
  is_terminal c.(c_run).(r_state) = true →
  ∃ w' run, reclaim_owned env c w = (w', Done ()) ∧ w'.(cut_at) = None ∧ keyed_well w'.(db) ∧ w'.(db).(links) = w.(db).(links)
    ∧ w'.(db).(runs) = <[id := run]> w.(db).(runs) ∧ is_terminal run.(r_state) = true ∧ run.(r_results).(cleanup_failed) = None
    ∧ w'.(db).(queue) = <[id := with_grant q Finished None None q.(execution_deadline) q.(q_failure_reason)]> w.(db).(queue).
Proof.
  intros Hc Hk Hr Hq Hco Ho Hst Hl Ht. set (run := c.(c_run)) in *. pose proof (k_run _ Hk _ _ Hr) as Hid.
  destruct (k_row _ Hk _ _ Hq) as (r0 & Hr0 & Htq). rewrite Hr in Hr0. injection Hr0 as <-.
  assert (Hf : ok (fetch_run env run.(r_tenant_id) run.(r_id)) w = (set_db w.(db) (ticked w), Done run)).
  { unfold ok. rewrite (bind_calm _ _ w (set_db w.(db) (ticked w)) (Ok run)); [done|]. apply store_calm; [done|].
    unfold get_run, owned. rewrite Hid, Hr. cbn. by rewrite N.eqb_refl. }
  destruct (reclaim_run_calm id run (set_db w.(db) (ticked w)) Hc Hr Hid Ht) as (w1 & run' & E1 & Hc1 & Hrs & Hqs & Hds & Hid' & Hten & Hterm & Hclean & Hln & Htick).
  assert (Hw : with_lease env (current ← ok (fetch_run env run.(r_tenant_id) run.(r_id)); reclaim_run env current) w = (w1, Done (Some (Ok run')))).
  { unfold with_lease, within. rewrite (calm_lease _ _ Hcalm). cbn [fmap option_fmap option_map sooner]. rewrite Hc. cbn [sooner].
    replace (set_cut None w) with w by (destruct w; cbn in *; by subst). rewrite (bind_calm _ _ _ _ _ Hf), E1. cbn.
    replace (set_cut None w1) with w1 by (destruct w1; cbn in *; by subst). done. }
  unfold reclaim_owned. fold run. rewrite (bind_calm _ _ _ _ _ Hw), bool_decide_true by done.
  cbn in Hqs. assert (Hq1 : w1.(db).(queue) !! id = Some q) by by rewrite Hqs.
  assert (Hr1 : w1.(db).(runs) !! id = Some run') by (rewrite Hrs; apply lookup_insert_eq).
  cbn in Hln, Htick. assert (Hlive : ahead (env.(wall) w1.(tick)) q.(lease_until) = true).
  { apply Hl. unfold linked in *. cbn in *. lia. }
  eexists _, run'. split; [apply (finish_calm id q c.(c_owner) run' w1); try done; congruence|].
  split; [done|]. cbn. rewrite Hqs. split; [|done].
  eapply keyed_put_row; [|exact Hq1|done]. eapply (keyed_rewritten id run run' w.(db)); try done; congruence.
Qed.

(** Few enough machines that one run is torn down within a window. *)
Definition roomy (d : Database) : Prop := ∀ id, (5 + 4 * length (linked id d) ≤ window)%nat.

(** A run that has settled, its machines destroyed and its row finished. *)
Definition drained (d : Database) (id : Uuid) : Prop := ∃ run q, d.(runs) !! id = Some run ∧ d.(queue) !! id = Some q
  ∧ is_terminal run.(r_state) = true ∧ run.(r_results).(cleanup_failed) = None ∧ q.(q_status) = Finished.

(** One row changed, from pending to drained. *)
Definition drains (d d' : Database) : Prop := ∃ id run q q', d.(queue) !! id = Some q ∧ pending q = true
  ∧ d'.(queue) = <[id := q']> d.(queue) ∧ (∀ i, i ≠ id → d'.(runs) !! i = d.(runs) !! i) ∧ d'.(runs) !! id = Some run
  ∧ is_terminal run.(r_state) = true ∧ run.(r_results).(cleanup_failed) = None ∧ q'.(q_status) = Finished.

Lemma drains_kept d d' i : drains d d' →
  (drained d i ∨ (∃ q, d.(queue) !! i = Some q ∧ pending q = true)) → drained d' i ∨ (∃ q, d'.(queue) !! i = Some q ∧ pending q = true).
Proof.
  intros (id & run & q & q' & _ & _ & Hqs & Hne & Hr & Ht & Hc & Hf) Hi. destruct (decide (i = id)) as [->|Hi'].
  - left. exists run, q'. by rewrite Hqs, lookup_insert_eq.
  - unfold drained in *. rewrite Hqs, (Hne i Hi'), lookup_insert_ne by done. exact Hi.
Qed.

Lemma retire_links now id why d : (retire_run now id why d).(links) = d.(links).
Proof. unfold retire_run. destruct (_ !! id); [|done]. by destruct (is_terminal _). Qed.

Lemma retire_other now id why d i : i ≠ id → (retire_run now id why d).(runs) !! i = d.(runs) !! i.
Proof. intros Hi. unfold retire_run. destruct (_ !! id); [|done]. destruct (is_terminal _); [done|]. cbn. by rewrite lookup_insert_ne. Qed.

Lemma turn_calm request stopping w : w.(cut_at) = None → keyed_well w.(db) → overdue w.(db) → roomy w.(db) → 0 < rows pending w.(db) →
  ∃ w', dispatch env request stopping w = (w', Done ()) ∧ w'.(cut_at) = None ∧ keyed_well w'.(db) ∧ overdue w'.(db) ∧ roomy w'.(db)
    ∧ drains w.(db) w'.(db) ∧ rows pending w'.(db) = rows pending w.(db) - 1.
Proof.
  intros Hc Hk Ho Hroom Hp. unfold dispatch. rewrite (bind_calm _ _ _ _ _ (step_calm w Hc)). set (owner := env.(fresh) w.(tick)).
  destruct (recovery_granted w.(db) (S w.(tick)) owner Hk Ho Hp) as (id & q & c & Er & Hq & Hpq & Hr & Hco & Hcr).
  set (d1 := recovers _ _ _ _ _ _) in *. set (now := env.(wall) (S w.(tick))) in *.
  rewrite (bind_calm _ _ (ticked w) (set_db d1 (ticked (ticked w))) (Ok (Some c))) by (apply store_calm; [done|exact Er]).
  rewrite (bind_calm _ _ (set_db d1 (ticked (ticked w))) (set_db d1 (ticked (ticked w))) (Some c)) by done.
  unfold run_claim. rewrite Hcr. pose proof (keyed_recovers env.(limits) now owner id q w.(db) Hk Hq) as Hk1. fold d1 in Hk1.
  set (g := with_grant q Reclaiming (Some owner) (Some (now + interval env.(limits).(lease_seconds))) q.(execution_deadline)
              (Some (recovery_reason w.(db) id q))).
  assert (Hq1 : d1.(queue) = <[id := g]> w.(db).(queue)).
  { unfold d1, recovers. set (d0 := put_row id _ w.(db)). by destruct (retire_framed now id (recovery_reason w.(db) id q) d0) as (_ & -> & _). }
  assert (Hl1 : d1.(links) = w.(db).(links)) by (unfold d1, recovers; by rewrite retire_links).
  destruct (reclaim_owned_calm id g owner c (set_db d1 (ticked (ticked w)))) as (w' & run & E & Hc' & Hk' & Hl' & Hr' & Hterm & Hclean & Hq'); try done.
  - change (d1.(queue) !! id = Some g). rewrite Hq1. apply lookup_insert_eq.
  - intros n Hn. cbn in Hn |- *. assert (Hlen : linked id d1 = linked id w.(db)) by (unfold linked; by rewrite Hl1). rewrite Hlen in Hn.
    specialize (Hroom id). pose proof (calm_clock _ _ Hcalm (S w.(tick)) n ltac:(lia)) as Hclock. fold now in Hclock. lia.
  - eapply retired_terminal; [exact Hr|]. destruct (k_row _ Hk _ _ Hq) as (r & Hr0 & _). by exists r.
  - exists w'. split; [exact E|]. split; [done|]. split; [done|]. change (db (set_db d1 (ticked (ticked w)))) with d1 in Hq'. rewrite Hq1, insert_insert_eq in Hq'.
    change (db (set_db d1 (ticked (ticked w)))) with d1 in Hl', Hr'. split_and!.
    + intros i p Hi n. rewrite Hq' in Hi. apply lookup_insert_Some in Hi as [[<- <-]|[Hne Hi]]; [by split|exact (Ho i p Hi n)].
    + intros i. unfold linked. rewrite Hl', Hl1. apply Hroom.
    + exists id, run, q. eexists. split_and!; [exact Hq|exact Hpq|exact Hq'| |by rewrite Hr', lookup_insert_eq|done|done|done].
      intros i Hi. rewrite Hr', lookup_insert_ne by done. unfold d1, recovers. by rewrite retire_other.
    + unfold rows. rewrite Hq', (rows_in_insert _ _ _ _ _ Hq), Hpq. replace (pending (with_grant g Finished None None (execution_deadline g) (q_failure_reason g))) with false by done. cbn [Z.b2z]. lia.
Qed.

Fixpoint turns (k : nat) (request : RunQueueClaim → option Request) (stopping : bool) : M () :=
  match k with O => mret () | S k => _ ← dispatch env request stopping; turns k request stopping end.

Lemma turns_calm request stopping k w : w.(cut_at) = None → keyed_well w.(db) → overdue w.(db) → roomy w.(db) →
  rows pending w.(db) = Z.of_nat k →
  ∃ w', turns k request stopping w = (w', Done ()) ∧ rows pending w'.(db) = 0
    ∧ ∀ i, drained w.(db) i ∨ (∃ q, w.(db).(queue) !! i = Some q ∧ pending q = true) → drained w'.(db) i.
Proof.
  revert w. induction k as [|k IH]; intros w Hc Hk Ho Hm Hn.
  { exists w. split; [done|]. split; [lia|]. intros i [Hi|(q & Hq & Hp)]; [done|]. exfalso.
    by rewrite (rows_in_zero pending _ Hn i q Hq) in Hp. }
  cbn [turns]. destruct (turn_calm request stopping w Hc Hk Ho Hm ltac:(lia)) as (w1 & E1 & Hc1 & Hk1 & Ho1 & Hm1 & Hd1 & Hn1).
  rewrite (bind_calm _ _ _ _ _ E1). destruct (IH w1 Hc1 Hk1 Ho1 Hm1 ltac:(lia)) as (w2 & E2 & Hz & Hall). exists w2. split_and!; [done|done|].
  intros i Hi. apply Hall. by apply (drains_kept w.(db)).
Qed.

End Calm.

(** C17: a queue nobody works on any more drains.  Let every lease and deadline have passed,
    and let one dispatcher take its turns one after the other, while nobody else writes, it
    does not lose a lease, machines can be destroyed and the calls that tear one run down take
    less than a lease.  It takes over one row a turn, and after as many turns as there are
    pending rows none is left: each of those runs is settled without a failed teardown, and
    its row finished. *)
Theorem abandoned_queue_drains window env request stopping w :
  calm window env → w.(cut_at) = None → keyed_well w.(db) → overdue env w.(db) → roomy window w.(db) →
  ∃ w', turns env (Z.to_nat (rows pending w.(db))) request stopping w = (w', Done ()) ∧ rows pending w'.(db) = 0
    ∧ ∀ id q, w.(db).(queue) !! id = Some q → pending q = true →
        ∃ run q', w'.(db).(runs) !! id = Some run ∧ w'.(db).(queue) !! id = Some q'
          ∧ is_terminal run.(r_state) = true ∧ run.(r_results).(cleanup_failed) = None ∧ q'.(q_status) = Finished.
Proof.
  intros Hcalm Hc Hk Ho Hm. destruct (turns_calm window env Hcalm request stopping (Z.to_nat (rows pending w.(db))) w Hc Hk Ho Hm) as (w' & E & Hz & Hall).
  - rewrite Z2Nat.id; [done|]. apply rows_in_nonneg.
  - exists w'. split_and!; [done|done|]. intros id q Hq Hp. apply Hall. right. by exists q.
Qed.

(** ** The request that waits *)
(** Durations and readings of the monotonic clock are microseconds. *)
Definition WAIT_MIN_INTERVAL : Z := 100000.
Definition WAIT_MAX_INTERVAL : Z := 2000000.
Definition WAIT_SETTLED_GRACE : Z := 30000000.

Definition waiter_should_return (queue_finished : bool) (settled_for : Z) : bool := queue_finished || (WAIT_SETTLED_GRACE <=? settled_for).

Record Waiter := { delay : Z; observed : option (RunState * option Instant); terminal_since : option Z }.
Definition new_waiter : Waiter := {| delay := WAIT_MIN_INTERVAL; observed := None; terminal_since := None |}.

(** What the store shows a poll: the run, and whether its row is finished, which is only asked
    of a settled run; or that it cannot be read. *)
Inductive Poll := Seen (state : RunState) (completed_at : option Instant) (finished : bool) | Unread.

Inductive Reaction := Answer | Error | Sleep (d : Z) (wt : Waiter).

Definition react (now : Z) (p : Poll) (wt : Waiter) : Reaction :=
  match p with
  | Unread => Error
  | Seen state completed_at finished =>
      let since := if is_terminal state then Some (default now wt.(terminal_since)) else None in
      if match since with Some t => waiter_should_return finished (now - t) | None => false end then Answer
      else
        let seen := (state, completed_at) in
        let d := if match wt.(observed) with Some o => negb (bool_decide (o = seen)) | None => false end then WAIT_MIN_INTERVAL else wt.(delay) in
        Sleep d {| delay := Z.min (2 * d) WAIT_MAX_INTERVAL; observed := Some seen; terminal_since := since |}
  end.

(** Polls from number [n] on, the first at [now]; poll [n] and the return from its sleep take
    [cost n] more than the delay.  Answers with the time, or the fuel runs out. *)
Fixpoint wait (fuel : nat) (polls : nat → Poll) (cost : nat → Z) (n : nat) (now : Z) (wt : Waiter) : option (bool * Z) :=
  match fuel with
  | O => None
  | S fuel =>
      match react now (polls n) wt with
      | Answer => Some (true, now)
      | Error => Some (false, now)
      | Sleep d wt => wait fuel polls cost (S n) (now + d + cost n) wt
      end
  end.

Section Waiting.
Context (polls : nat → Poll) (cost : nat → Z) (k : nat) (limit : Z).
Hypothesis settled : ∀ n, (k ≤ n)%nat → ∃ s c f, polls n = Seen s c f ∧ is_terminal s = true.
Hypothesis costs : ∀ n, 0 ≤ cost n ≤ limit.

Definition patient (wt : Waiter) : Prop := WAIT_MIN_INTERVAL ≤ wt.(delay) ≤ WAIT_MAX_INTERVAL.

(** From the first poll of the settled run, at [start], each sleep takes a tenth of a
    second off the grace at least. *)
Lemma waits_out fuel n now wt start : (k ≤ n)%nat → patient wt → wt.(terminal_since) = Some start → start ≤ now →
  now < start + WAIT_SETTLED_GRACE + WAIT_MAX_INTERVAL + limit →
  WAIT_SETTLED_GRACE - (now - start) ≤ WAIT_MIN_INTERVAL * Z.of_nat fuel →
  ∃ t, wait (S fuel) polls cost n now wt = Some (true, t) ∧ t < start + WAIT_SETTLED_GRACE + WAIT_MAX_INTERVAL + limit.
Proof.
  revert n now wt. induction fuel as [|fuel IH]; intros n now wt Hn Hp Hs Hle Hlt Hf; destruct (settled n Hn) as (s & c & f & Hpoll & Hterm);
    cbn [wait]; unfold react; rewrite Hpoll, Hterm, Hs; cbn [default from_option id];
    (destruct (waiter_should_return f (now - start)) eqn:Ew; [by exists now|]); unfold waiter_should_return in Ew; apply orb_false_iff in Ew as [_ Ew];
    apply Z.leb_gt in Ew; [lia|].
  set (d := if _ : bool then _ else _). assert (Hd : WAIT_MIN_INTERVAL ≤ d ≤ WAIT_MAX_INTERVAL) by (unfold d; case_match; [done|exact Hp]).
  pose proof (costs n). apply IH; cbn [delay terminal_since]; [lia| |done|unfold WAIT_MIN_INTERVAL in *; lia|lia|unfold WAIT_MIN_INTERVAL in *; lia].
  unfold patient. cbn. unfold WAIT_MIN_INTERVAL, WAIT_MAX_INTERVAL in *. lia.
Qed.

Lemma waits_settled fuel now wt : Z.of_nat fuel = 300 → patient wt → wt.(terminal_since) = None →
  ∃ t, wait (S fuel) polls cost k now wt = Some (true, t) ∧ t < now + WAIT_SETTLED_GRACE + WAIT_MAX_INTERVAL + limit.
Proof.
  intros Hf Hp Hs. pose proof (costs k) as Hc. pose (wt' := {| delay := wt.(delay); observed := wt.(observed); terminal_since := Some now |}).
  assert (Hsame : wait (S fuel) polls cost k now wt = wait (S fuel) polls cost k now wt').
  { cbn [wait]. destruct (settled k ltac:(done)) as (s & c & f & Hpoll & Hterm). unfold react. by rewrite Hpoll, Hterm, Hs. }
  rewrite Hsame. apply (waits_out fuel k now wt' now); try done; unfold WAIT_SETTLED_GRACE, WAIT_MAX_INTERVAL, WAIT_MIN_INTERVAL; lia.
Qed.

End Waiting.

(** C38: a waiter answers.  Once every poll shows a settled run, the waiter answers within the
    grace period, its longest sleep and the cost of one poll, after at most three hundred
    polls more, whether or not the run's teardown ever finishes. *)
Theorem waiter_answers_settled_run polls cost k limit now wt :
  (∀ n, (k ≤ n)%nat → ∃ s c f, polls n = Seen s c f ∧ is_terminal s = true) → (∀ n, 0 ≤ cost n ≤ limit) → patient wt →
  wt.(terminal_since) = None →
  ∃ t, wait 301 polls cost k now wt = Some (true, t) ∧ t < now + WAIT_SETTLED_GRACE + WAIT_MAX_INTERVAL + limit.
Proof.
  intros Hset Hcost Hp Hs. by apply (waits_settled polls cost k limit Hset Hcost 300).
Qed.

(** ** A sample *)
Module SampleLiveness.

(** A dispatcher that comes back long after the executors are gone. *)
Definition env : Env := {|
  limits := SampleRuns.limits; others := λ _, []; wall := λ _, interval 1000; mono := λ _, 0; fresh := λ n, (1000 + N.of_nat n)%N;
  admitted := λ _, Ok (); plan := λ _, Refused (CoreFailure.Unavailable "no worker"); runtime := λ _, Ok (); uploads := true; exec := λ _, Ok true;
  secrets := λ _, Ok (λ t, t); fetch := λ _, Stored; listed := λ _, Ok (); gone := λ n _, Nat.even n; guard := λ _ _, Ok (); tear := λ _ _, Ok ();
  timer := λ _, None; lease := λ _, None; words := λ _, "refused"; show := λ _, "machine"; placement_text := λ _, "placed" |}.

(** One row executes, two wait. *)
Definition abandoned : World := {|
  db := (run_ops SampleRuns.limits (SampleRuns.admitted ++ [Claim 5 ∅ 100]) SampleRuns.start).1; tick := 0; cut_at := None; torn := ∅; begun := 0 |}.

Definition row_overdue (q : QueueRow) : bool :=
  (negb (holds_slot q) || past (interval 1000) q.(lease_until)) && (negb (bool_decide (q.(q_status) = QQueued)) || (q.(queue_deadline) <=? interval 1000)).

Lemma abandoned_queue_drains_witness :
  rows pending abandoned.(db) = 3
  ∧ ∃ w', turns env (Z.to_nat (rows pending abandoned.(db))) (λ _, None) false abandoned = (w', Done ()) ∧ rows pending w'.(db) = 0.
Proof.
  split; [vm_compute; reflexivity|].
  destruct (abandoned_queue_drains 5 env (λ _, None) false abandoned) as (w' & Hw & Hz & _).
  - split; try reflexivity. split; [vm_compute; reflexivity|]. repeat split; discriminate.
  - reflexivity.
  - apply (reached SampleRuns.limits {[10%N; 20%N]} ∅). repeat (constructor; [exact I || (cbn; lia)|]). constructor.
  - assert (Hall : forallb (row_overdue ∘ snd) (map_to_list abandoned.(db).(queue)) = true) by (vm_compute; reflexivity).
    intros id q Hq n. apply elem_of_map_to_list, list_elem_of_In in Hq. apply (proj1 (forallb_forall _ _) Hall) in Hq. cbn in Hq.
    apply andb_true_iff in Hq as [H1 H2]. split.
    + intros Hh. rewrite Hh in H1. exact H1.
    + intros Hst. rewrite bool_decide_true in H2 by exact Hst. apply Z.leb_le. exact H2.
  - assert (Hno : elements abandoned.(db).(links) = []) by (vm_compute; reflexivity).
    intros id. unfold linked. rewrite Hno. exact (le_n 5).
  - exists w'. split; [exact Hw|exact Hz].
Defined.

Lemma waiter_answers_settled_run_witness : ∃ t,
  wait 301 (λ _, Seen Failed (Some 7) false) (λ _, 5) 0 0 new_waiter = Some (true, t) ∧ t < WAIT_SETTLED_GRACE + WAIT_MAX_INTERVAL + 5.
Proof.
  destruct (waiter_answers_settled_run (λ _, Seen Failed (Some 7) false) (λ _, 5) 0 5 0 new_waiter) as (t & Ht & Hb).
  - intros n _. exists Failed, (Some 7), false. split; reflexivity.
  - intros n. split; discriminate.
  - split; discriminate.
  - reflexivity.
  - exists t. split; [exact Ht|exact Hb].
Defined.

End SampleLiveness.
