(* ===== verification/WorkerStore.v ===== *)
(** * WorkerStore: workers, leases and placement in PostgreSQL

    [crates/aiec-storage/src/postgres.rs]: the scheduler ([PostgresScheduler]) and the
    statements on [sandboxes], [nodes], [sandbox_leases], [sandbox_assignments],
    [sandbox_requests] and [reconciliation_actions], with the checks, keys and triggers of
    [migrations]; the two Guard statements on [sandboxes] ([postgres/guard]).

    [Tables] holds the tables by primary key; runs and attempts are those of [RunStore].  A
    transaction is atomic, since each locks the rows it decides on before it writes them; the
    exceptions are arguments.  [View] is what a round of a placement meets: the table its
    candidate statement reads, before it holds the lock of the host, the rows that others
    have locked ([SKIP LOCKED]), how its attempts at that lock end, and the table the
    headroom statement reads after them.  [Clock] has the instants of one call: [now()] and the readings of
    [Utc::now()].  The log [sandbox_events], which nothing here reads, is not modelled. *)

From S2P Require Import Prelude Lifecycle Runtime Events Policy Text Store ArtifactGc GuardStore.
From S2P Require Import RunStore.
Import Sandboxes.

Module LeaseError.
Inductive t := NotFound | Conflict | Transient | QuotaExceeded | InvalidRequest | Database.
#[global] Instance t_eq_dec : EqDecision t.
Proof. solve_decision. Defined.
End LeaseError.

(** ** What other code answers *)

(** The order in which PostgreSQL returns rows that [ORDER BY] leaves equal. *)
Class Heap := { heap : ∀ (K : Type) `{Countable K} (A : Type), gmap K A → list (K * A) }.
Arguments heap {_ K _ _ A} m.
Class HeapLaws (H : Heap) : Prop := {
  heap_rows : ∀ (K : Type) `{Countable K} (A : Type) (m : gmap K A), heap m ≡ₚ map_to_list m }.

(** PostgreSQL's [numeric]: quotients are rounded.  [literal m n] is [m] over ten to the [n]. *)
Class Numeric := {
  numeric : Type; literal : Z → Z → numeric; num_add : numeric → numeric → numeric;
  num_mul : numeric → numeric → numeric; num_div : numeric → numeric → numeric;
  greatest : numeric → numeric → numeric; num_leb : numeric → numeric → bool }.

(** SHA-256 of a JSON document, and [reqwest::Url] on a worker's endpoint. *)
Class Documents := {
  Value : Type; value_eq_dec :: EqDecision Value; value_text : Value → string;
  value_of : string → option Value;
  digest_sandbox :
    Uuid * string * SandboxState * RuntimeKind * Z * Z * Z * Z * SandboxNetwork * EnvironmentSpec → string;
  digest_schedule : string * option Uuid * Z * list (string * option RuntimeIsolation * bool) * option Uuid → string;
  https_endpoint : string → bool }.
Class DocumentsLaws (D : Documents) : Prop := { value_round_trip : ∀ v, value_of (value_text v) = Some v }.

(** ** Capacity *)
Record Capacity := { c_vcpus : Z; c_memory : Z; c_disk : Z }.
#[global] Instance Capacity_eq_dec : EqDecision Capacity.
Proof. solve_decision. Defined.

Inductive Resource := Vcpus | MemoryBytes | DiskBytes.

Definition amount (r : Resource) (c : Capacity) : Z :=
  match r with Vcpus => c.(c_vcpus) | MemoryBytes => c.(c_memory) | DiskBytes => c.(c_disk) end.

Definition cap_map (f : Z → Z → Z) (a b : Capacity) : Capacity := {|
  c_vcpus := f a.(c_vcpus) b.(c_vcpus); c_memory := f a.(c_memory) b.(c_memory); c_disk := f a.(c_disk) b.(c_disk) |}.
Definition cap_all (p : Z → Z → bool) (a b : Capacity) : bool :=
  p a.(c_vcpus) b.(c_vcpus) && p a.(c_memory) b.(c_memory) && p a.(c_disk) b.(c_disk).
Definition no_capacity : Capacity := {| c_vcpus := 0; c_memory := 0; c_disk := 0 |}.

Definition i32_max : Z := 2 ^ 31 - 1.

(** The widths of the columns: [integer], [bigint], [bigint]. *)
Definition widths : Capacity := {| c_vcpus := i32_max; c_memory := i64_max; c_disk := i64_max |}.

(** ** Tables *)

(** A value of a capability document: a flag, or the isolation class. *)
Abbreviation Field := (string * option RuntimeIsolation * bool)%type (only parsing).

Definition flag (name : string) (b : bool) : Field := (name, None, b).

(** The JSON form of [RuntimeCapabilities]; [minimum_disk_mb] is skipped. *)
Definition capability_document (c : RuntimeCapabilities) : list Field :=
  ("isolation"%string, Some c.(isolation), false) ::
  [flag "exec" c.(exec); flag "files" c.(files); flag "streaming" c.(streaming); flag "pty" c.(pty);
   flag "docker_image" c.(docker_image); flag "guest_agent" c.(guest_agent);
   flag "full_kernel_isolation" c.(full_kernel_isolation); flag "portable_workspace" c.(portable_workspace);
   flag "vm_snapshot" c.(vm_snapshot); flag "memory_resume" c.(memory_resume);
   flag "network_policy" c.(network_policy); flag "gpu" c.(gpu); flag "pause" c.(pause);
   flag "pause_reclaims_resources" c.(pause_reclaims_resources); flag "workspace_snapshot" c.(workspace_snapshot);
   flag "vsock" c.(vsock); flag "coding_guest" c.(coding_guest)].

(** The fields equal to [true] are kept, then an isolation class of [process] is removed. *)
Definition capability_predicate (required : option RuntimeCapabilities) : list Field :=
  match required with
  | Some c =>
      let fields := filter (λ f : Field, f.1.2 = None ∧ f.2 = true) (capability_document c) in
      filter (λ f : Field, f.1 ≠ ("isolation"%string, Some Process)) fields
  | None => [flag "exec" true; flag "files" true]
  end.

(** [@>] *)
Definition document_contains (actual : RuntimeCapabilities) (required : list Field) : bool :=
  forallb (λ f, bool_decide (f ∈ capability_document actual)) required.

(** A row of [sandboxes], with the columns [required_capabilities] and [guard_released_at]. *)
Record SandboxRow := { s_value : Sandbox; s_required : list Field; s_released_at : option Instant }.

(** What [metadata] says of the host.  A reading is the text of the JSON value at its path;
    the host's identity may be a string or something else. *)
Inductive HostId := HostString (s : string) | HostOther (s : string).
#[global] Instance HostId_eq_dec : EqDecision HostId.
Proof. solve_decision. Defined.

Record Metadata := {
  host_id : option HostId; p_total_vcpus : option string; p_available_vcpus : option string;
  p_memory : option string; p_disk : option string; m_rest : string }.
#[global] Instance Metadata_eq_dec : EqDecision Metadata.
Proof. solve_decision. Defined.

(** [metadata #>> '{pressure,host_id}'] *)
Definition host_text (m : Metadata) : option string :=
  match m.(host_id) with Some (HostString s) | Some (HostOther s) => Some s | None => None end.

Record NodeRow := {
  n_name : string; n_runtime : RuntimeKind; n_capabilities : RuntimeCapabilities; n_control_endpoint : string;
  n_total : Capacity; n_available : Capacity; n_sandbox_count : Z; n_observed_sandbox_count : Z; n_healthy : bool;
  n_version : Z; n_metadata : Metadata; n_last_error : option string; n_started_at : Instant; n_last_heartbeat : Instant;
  accepting_sandboxes : bool; drain_reason : option string }.

Record SandboxRequest := { rq_sandbox_id : Uuid; rq_fingerprint : string }.

Record Assignment := {
  as_sandbox_id : Uuid; as_node_id : Uuid; as_lease_id : Uuid; as_status : string; as_created_at : Instant;
  as_updated_at : Instant }.

Record ReconciliationAction := { ac_tenant_id : Uuid; ac_node_id : Uuid; ac_sandbox_id : Uuid; ac_lease_id : Uuid }.

(** Requests and assignments are keyed by tenant and request, actions by the lease and the
    generation their [source_key] spells. *)
Record Tables := {
  t_tenants : gset Uuid; t_quotas : gmap Uuid Quota.QuotaLimits; t_sandboxes : gmap Uuid SandboxRow;
  t_nodes : gmap Uuid NodeRow; t_leases : gmap Uuid WorkerLease; t_requests : gmap (Uuid * Uuid) SandboxRequest;
  t_assignments : gmap (Uuid * Uuid) Assignment; t_actions : gmap (Uuid * Z) ReconciliationAction;
  t_runs : RunStore.Database }.

Definition set_sandboxes (v : gmap Uuid SandboxRow) (t : Tables) : Tables := {|
  t_tenants := t.(t_tenants); t_quotas := t.(t_quotas); t_sandboxes := v; t_nodes := t.(t_nodes); t_leases := t.(t_leases);
  t_requests := t.(t_requests); t_assignments := t.(t_assignments); t_actions := t.(t_actions); t_runs := t.(t_runs) |}.
Definition set_nodes (v : gmap Uuid NodeRow) (t : Tables) : Tables := {|
  t_tenants := t.(t_tenants); t_quotas := t.(t_quotas); t_sandboxes := t.(t_sandboxes); t_nodes := v; t_leases := t.(t_leases);
  t_requests := t.(t_requests); t_assignments := t.(t_assignments); t_actions := t.(t_actions); t_runs := t.(t_runs) |}.
Definition set_leases (v : gmap Uuid WorkerLease) (t : Tables) : Tables := {|
  t_tenants := t.(t_tenants); t_quotas := t.(t_quotas); t_sandboxes := t.(t_sandboxes); t_nodes := t.(t_nodes); t_leases := v;
  t_requests := t.(t_requests); t_assignments := t.(t_assignments); t_actions := t.(t_actions); t_runs := t.(t_runs) |}.
Definition set_requests (v : gmap (Uuid * Uuid) SandboxRequest) (t : Tables) : Tables := {|
  t_tenants := t.(t_tenants); t_quotas := t.(t_quotas); t_sandboxes := t.(t_sandboxes); t_nodes := t.(t_nodes);
  t_leases := t.(t_leases); t_requests := v; t_assignments := t.(t_assignments); t_actions := t.(t_actions);
  t_runs := t.(t_runs) |}.
Definition set_assignments (v : gmap (Uuid * Uuid) Assignment) (t : Tables) : Tables := {|
  t_tenants := t.(t_tenants); t_quotas := t.(t_quotas); t_sandboxes := t.(t_sandboxes); t_nodes := t.(t_nodes);
  t_leases := t.(t_leases); t_requests := t.(t_requests); t_assignments := v; t_actions := t.(t_actions);
  t_runs := t.(t_runs) |}.
Definition set_actions (v : gmap (Uuid * Z) ReconciliationAction) (t : Tables) : Tables := {|
  t_tenants := t.(t_tenants); t_quotas := t.(t_quotas); t_sandboxes := t.(t_sandboxes); t_nodes := t.(t_nodes);
  t_leases := t.(t_leases); t_requests := t.(t_requests); t_assignments := t.(t_assignments); t_actions := v;
  t_runs := t.(t_runs) |}.
Definition set_runs (v : RunStore.Database) (t : Tables) : Tables := {|
  t_tenants := t.(t_tenants); t_quotas := t.(t_quotas); t_sandboxes := t.(t_sandboxes); t_nodes := t.(t_nodes);
  t_leases := t.(t_leases); t_requests := t.(t_requests); t_assignments := t.(t_assignments); t_actions := t.(t_actions);
  t_runs := v |}.

Abbreviation Attempt A := (result LeaseError.t A) (only parsing).

(** A transaction: what it leaves and answers; one that fails leaves everything. *)
Definition transaction {A} (t : Tables) (r : Attempt (Tables * A)) : Tables * Attempt A :=
  match r with Ok (t', a) => (t', Ok a) | Err e => (t, Err e) end.

(** The instants of one call: [now()], and [Utc::now()] when it decides and when it writes. *)
Record Clock := { tx_now : Instant; decided : Instant; written : Instant }.

(** ** Statements on [sandboxes] *)
Definition lock_sandbox (tenant id : Uuid) (t : Tables) : Attempt SandboxRow :=
  match t.(t_sandboxes) !! id with
  | Some row => bail_if negb (row.(s_value).(sb_tenant_id) =? tenant)%N with LeaseError.NotFound; Ok row
  | None => Err LeaseError.NotFound
  end.

Definition fetch_sandbox (tenant id : Uuid) (t : Tables) : Attempt Sandbox :=
  let? row := lock_sandbox tenant id t in Ok row.(s_value).

(** The columns a placement writes. *)
Definition placed (s : Sandbox) (node : option Uuid) (st : SandboxState) (path : option string) (now : Instant) : Sandbox := {|
  sb_id := s.(sb_id); sb_tenant_id := s.(sb_tenant_id); sb_node_id := node; sb_image_id := s.(sb_image_id); sb_state := st;
  sb_runtime := s.(sb_runtime); sb_cpu := s.(sb_cpu); sb_memory_mb := s.(sb_memory_mb); sb_disk_mb := s.(sb_disk_mb);
  sb_timeout_seconds := s.(sb_timeout_seconds); sb_network := s.(sb_network); sb_environment := s.(sb_environment);
  sb_created_at := s.(sb_created_at); sb_updated_at := now; sb_runtime_path := path |}.

Definition put_row (id : Uuid) (row : SandboxRow) (t : Tables) : Tables := set_sandboxes (<[id := row]> t.(t_sandboxes)) t.

Definition with_value (row : SandboxRow) (s : Sandbox) : SandboxRow := {|
  s_value := s; s_required := row.(s_required); s_released_at := row.(s_released_at) |}.

(** The trigger [guard_quarantine_latched] on an update of a row. *)
Definition latched (old new : SandboxRow) : bool :=
  (bool_decide (old.(s_value).(sb_state) = Quarantined) && negb (bool_decide (new.(s_value).(sb_state) = Quarantined))
   && (bool_decide (new.(s_released_at) = None) || negb (bool_decide (new.(s_value).(sb_state) = Paused))))
  || (bool_decide (is_Some new.(s_released_at)) && bool_decide (old.(s_released_at) = None)
      && negb (bool_decide (old.(s_value).(sb_state) = Quarantined))).

(** An update of the row [old]. *)
Definition update_row (id : Uuid) (old new : SandboxRow) (t : Tables) : Attempt Tables :=
  bail_if latched old new with LeaseError.Conflict; Ok (put_row id new t).

(** Clears the node of a sandbox that is still on it. *)
Definition clear_node (now : Instant) (tenant id node : Uuid) (t : Tables) : Tables :=
  match t.(t_sandboxes) !! id with
  | Some row =>
      let s := row.(s_value) in
      if (s.(sb_tenant_id) =? tenant)%N && bool_decide (s.(sb_node_id) = Some node)
      then put_row id (with_value row (placed s None s.(sb_state) s.(sb_runtime_path) now)) t else t
  | None => t
  end.

Definition apply_state_transition (wall : Instant) (row : SandboxRow) (expected next : SandboxState) (path : option string)
    (t : Tables) : Attempt (Tables * Sandbox) :=
  let value := row.(s_value) in
  bail_if bool_decide (next = Quarantined) && negb (bool_decide (value.(sb_state) = Quarantined)) with LeaseError.Conflict;
  if bool_decide (value.(sb_state) = next) then Ok (t, value) else
  bail_if negb (bool_decide (value.(sb_state) = expected)) || negb (can_transition_to value.(sb_state) next)
    with LeaseError.Conflict;
  let value := with_runtime_path path (with_state next wall value) in
  let? t := update_row value.(sb_id) row (with_value row value) t in
  Ok (t, value).

Definition update_state (wall : Instant) (tenant id : Uuid) (expected next : SandboxState) (path : option string)
    (t : Tables) : Tables * Attempt Sandbox :=
  transaction t (
    let? row := lock_sandbox tenant id t in
    apply_state_transition wall row expected next path t).

(** The usage is read from the tenant's sandboxes.  The sums are cast to [bigint]: rows hold
    32-bit columns, so they fit. *)
Definition counts_against (tenant : Uuid) (row : SandboxRow) : bool :=
  let s := row.(s_value) in
  (s.(sb_tenant_id) =? tenant)%N && negb (bool_decide (s.(sb_state) ∈ [Destroyed; Failed])).

Definition sum_of {A} (f : A → Z) (l : list A) : Z := foldr (λ x n, f x + n) 0 l.

Definition shape_of (s : Sandbox) : Quota.Shape := {|
  Quota.cpu := s.(sb_cpu); Quota.s_memory_mb := s.(sb_memory_mb); Quota.s_disk_mb := s.(sb_disk_mb) |}.

Definition tenant_usage (tenant : Uuid) (t : Tables) : Quota.QuotaUsage :=
  let rows := filter (λ row, counts_against tenant row = true) (snd <$> map_to_list t.(t_sandboxes)) in {|
  Quota.active_sandboxes := Z.of_nat (length rows); Quota.vcpus := sum_of (λ r, r.(s_value).(sb_cpu)) rows;
  Quota.memory_mb := sum_of (λ r, r.(s_value).(sb_memory_mb)) rows;
  Quota.disk_mb := sum_of (λ r, r.(s_value).(sb_disk_mb)) rows |}.

Definition admit_sandbox_quota (tenant : Uuid) (s : Sandbox) (t : Tables) : Attempt () :=
  let? limits := ok_or (t.(t_quotas) !! tenant) LeaseError.Database in
  let usage := tenant_usage tenant t in
  bail_if (u32_max <? usage.(Quota.active_sandboxes)) || (u32_max <? usage.(Quota.vcpus)) with LeaseError.QuotaExceeded;
  let? next := ok_or (Quota.add_sandbox usage (shape_of s)) LeaseError.QuotaExceeded in
  bail_if Quota.exceeds next limits with LeaseError.QuotaExceeded; Ok ().

Definition add_machine (sandbox tenant : Uuid) (r : RunStore.Database) : RunStore.Database := {|
  RunStore.tenants := r.(RunStore.tenants); RunStore.machines := <[sandbox := tenant]> r.(RunStore.machines);
  RunStore.runs := r.(RunStore.runs); RunStore.attempts := r.(RunStore.attempts); RunStore.events := r.(RunStore.events);
  RunStore.links := r.(RunStore.links); RunStore.queue := r.(RunStore.queue);
  RunStore.dispatched := r.(RunStore.dispatched) |}.

Definition insert_sandbox (value : Sandbox) (required : option RuntimeCapabilities) (t : Tables) : Attempt Tables :=
  bail_if (value.(sb_tenant_id) =? 0)%N with LeaseError.Conflict;
  bail_if (i32_max <? value.(sb_cpu)) || (i32_max <? value.(sb_memory_mb)) || (i32_max <? value.(sb_disk_mb))
          || (i64_max <? value.(sb_timeout_seconds)) with LeaseError.Conflict;
  bail_if (value.(sb_cpu) <=? 0) || (value.(sb_memory_mb) <=? 0) || (value.(sb_disk_mb) <=? 0)
          || (value.(sb_timeout_seconds) <=? 0) with LeaseError.Conflict;
  bail_if bool_decide (is_Some (t.(t_sandboxes) !! value.(sb_id))) with LeaseError.Conflict;
  bail_if negb (bool_decide (value.(sb_tenant_id) ∈ t.(t_tenants)))
          || match value.(sb_node_id) with Some n => bool_decide (t.(t_nodes) !! n = None) | None => false end
    with LeaseError.Database;
  let row := {| s_value := value; s_required := capability_predicate required; s_released_at := None |} in
  Ok (set_runs (add_machine value.(sb_id) value.(sb_tenant_id) t.(t_runs)) (put_row value.(sb_id) row t)).

Definition create_sandbox (value : Sandbox) (t : Tables) : Tables * Attempt () :=
  transaction t (
    let? _ := admit_sandbox_quota value.(sb_tenant_id) value t in
    let? t := insert_sandbox value None t in
    Ok (t, ())).

(** ** Guard *)

(** The row of [guard_budgets] is another table's: [budgeted] says whether there is one. *)
Definition mark_guard_quarantined (wall wall' : Instant) (tenant id : Uuid) (fence : GuardFence) (budgeted : bool)
    (t : Tables) : Tables * Attempt Sandbox :=
  transaction t (
    let held := filter (λ l, l.(le_tenant_id) = tenant ∧ l.(le_sandbox_id) = id ∧ l.(le_status) = "active"%string)
                       (snd <$> map_to_list t.(t_leases)) in
    let? row := lock_sandbox tenant id t in
    let? lease := ok_or (head held) LeaseError.Conflict in
    bail_if negb (is_ok (validate_fence lease fence wall)) with LeaseError.Conflict;
    let s := row.(s_value) in
    bail_if negb (bool_decide (s.(sb_state) = Quarantined)) && negb (can_transition_to s.(sb_state) Quarantined)
      with LeaseError.Conflict;
    bail_if negb budgeted with LeaseError.NotFound;
    if bool_decide (s.(sb_state) = Quarantined) then Ok (t, s) else
    let s := with_state Quarantined wall' s in
    let? t := update_row id row (with_value row s) t in
    Ok (t, s)).

Definition release_guard_quarantine (now : Instant) (tenant id : Uuid) (identified : bool) (t : Tables)
    : Tables * Attempt Sandbox :=
  transaction t (
    bail_if negb identified with LeaseError.InvalidRequest;
    let? row := map_err (λ _, LeaseError.Database) (lock_sandbox tenant id t) in
    bail_if negb (bool_decide (row.(s_value).(sb_state) = Quarantined)) with LeaseError.Conflict;
    let s := with_state Paused now row.(s_value) in
    let? t := update_row id row {| s_value := s; s_required := row.(s_required); s_released_at := Some now |} t in
    Ok (t, s)).

(** ** Workers *)
Definition sandbox_capacity_demand (s : Sandbox) : Attempt Capacity :=
  let memory_bytes := s.(sb_memory_mb) * 1048576 in
  bail_if u64_max <? memory_bytes with LeaseError.Conflict;
  let disk_bytes := s.(sb_disk_mb) * 1048576 in
  bail_if u64_max <? disk_bytes with LeaseError.Conflict;
  bail_if (i32_max <? s.(sb_cpu)) || (i64_max <? memory_bytes) || (i64_max <? disk_bytes) with LeaseError.Conflict;
  Ok {| c_vcpus := s.(sb_cpu); c_memory := memory_bytes; c_disk := disk_bytes |}.

Definition with_capacity (n : NodeRow) (available : Capacity) (count : Z) : NodeRow := {|
  n_name := n.(n_name); n_runtime := n.(n_runtime); n_capabilities := n.(n_capabilities);
  n_control_endpoint := n.(n_control_endpoint); n_total := n.(n_total); n_available := available; n_sandbox_count := count;
  n_observed_sandbox_count := n.(n_observed_sandbox_count); n_healthy := n.(n_healthy); n_version := n.(n_version);
  n_metadata := n.(n_metadata); n_last_error := n.(n_last_error); n_started_at := n.(n_started_at);
  n_last_heartbeat := n.(n_last_heartbeat); accepting_sandboxes := n.(accepting_sandboxes);
  drain_reason := n.(drain_reason) |}.

Definition put_node (id : Uuid) (n : NodeRow) (t : Tables) : Tables := set_nodes (<[id := n]> t.(t_nodes)) t.

(** The checks on the capacity of a row of [nodes], and all of them. *)
Definition capacity_storable (n : NodeRow) : bool :=
  cap_all Z.leb no_capacity n.(n_available) && cap_all Z.leb n.(n_available) n.(n_total) && (0 <=? n.(n_sandbox_count)).
Definition node_storable (n : NodeRow) : bool :=
  capacity_storable n && (0 <=? n.(n_observed_sandbox_count)) && (0 <? n.(n_version)).

Definition debit_capacity (id : Uuid) (demand : Capacity) (t : Tables) : Attempt Tables :=
  match t.(t_nodes) !! id with
  | Some n =>
      let n := with_capacity n (cap_map Z.sub n.(n_available) demand) (n.(n_sandbox_count) + 1) in
      bail_if i32_max <? n.(n_sandbox_count) with LeaseError.Database;
      bail_if negb (capacity_storable n) with LeaseError.Conflict;
      Ok (put_node id n t)
  | None => Ok t
  end.

(** [LEAST(total, available + demand)]; the sum is taken at the width of its column. *)
Definition credit_capacity (id : Uuid) (demand : Capacity) (t : Tables) : Attempt Tables :=
  match t.(t_nodes) !! id with
  | Some n =>
      let sum := cap_map Z.add n.(n_available) demand in
      bail_if negb (cap_all Z.leb sum widths) with LeaseError.Database;
      let n := with_capacity n (cap_map Z.min n.(n_total) sum) (Z.max 0 (n.(n_sandbox_count) - 1)) in
      bail_if negb (capacity_storable n) with LeaseError.Conflict;
      Ok (put_node id n t)
  | None => Ok t
  end.

(** *** Headroom of a host ([migrations/0016_host_cpu_budget.sql]) *)

(** A reading of at most [width] decimal digits. *)
Definition reading (width : Z) (text : option string) : option Z :=
  s ← text;
  if (1 <=? slen s) && (slen s <=? width) && all_bytes is_ascii_digit s
  then parse_unsigned (10 ^ width) (chars s) else None.

Record Sibling := { measured : option (Z * Capacity) (** the ceiling and what is available *); held : Capacity }.

Definition NODE_TTL : Z := seconds NODE_HEARTBEAT_TTL_SECONDS.

Definition is_fresh (now : Instant) (n : NodeRow) : bool := now - NODE_TTL <=? n.(n_last_heartbeat).

Definition held_by (n : NodeRow) : Capacity := cap_map (λ total available, Z.max (total - available) 0) n.(n_total) n.(n_available).

Definition sibling_of (now : Instant) (n : NodeRow) : Sibling :=
  let m := n.(n_metadata) in {|
  measured :=
    if is_fresh now n then
      ceiling ← reading 10 m.(p_total_vcpus); cpu ← reading 10 m.(p_available_vcpus);
      memory ← reading 20 m.(p_memory); disk ← reading 20 m.(p_disk);
      Some (ceiling, {| c_vcpus := cpu; c_memory := memory; c_disk := disk |})
    else None;
  held := held_by n |}.

Definition on_host (host : string) (nodes : gmap Uuid NodeRow) : list NodeRow :=
  filter (λ n, host_text n.(n_metadata) = Some host) (snd <$> map_to_list nodes).

(** [MIN] of a list that is not empty. *)
Definition min_of (l : list Z) : option Z :=
  match l with [] => None | x :: l => Some (foldr Z.min x l) end.

(** [LEAST] *)
Definition least (a b : option Z) : option Z :=
  match a, b with Some a, Some b => Some (Z.min a b) | Some a, None => Some a | None, b => b end.

Definition fits (minimum : option Z) (held demand : Z) : bool :=
  match minimum with Some m => demand <=? m - held | None => false end.

Definition aiec_host_has_headroom (host : option string) (demand : Capacity) (now : Instant) (nodes : gmap Uuid NodeRow) : bool :=
  match host with
  | Some host =>
      let siblings := sibling_of now <$> on_host host nodes in
      let readings := omap measured siblings in
      let holds r := sum_of (λ s, amount r s.(held)) siblings in
      (0 <? slen host) && cap_all Z.leb no_capacity demand && negb (bool_decide (readings = []))
      && fits (least (min_of (fst <$> readings)) (min_of ((λ p, p.2.(c_vcpus)) <$> readings))) (holds Vcpus) demand.(c_vcpus)
      && fits (min_of ((λ p, p.2.(c_memory)) <$> readings)) (holds MemoryBytes) demand.(c_memory)
      && fits (min_of ((λ p, p.2.(c_disk)) <$> readings)) (holds DiskBytes) demand.(c_disk)
  | None => false
  end.

(** *** Choice of a worker *)
Section Statements.
Context `{Heap, Numeric, Documents}.

Definition score (n : NodeRow) : numeric :=
  num_add
    (num_add
       (num_div (literal 10 1) (literal (Z.max n.(n_available).(c_vcpus) 1) 0))
       (num_div (literal 10 1) (greatest (num_div (literal n.(n_available).(c_memory) 0) (literal 1073741824 0)) (literal 25 2))))
    (num_mul (literal n.(n_sandbox_count) 0) (literal 1 4)).

(** [ORDER BY score, last_heartbeat DESC] *)
Definition better (a b : Uuid * NodeRow) : bool :=
  num_leb (score a.2) (score b.2)
  && (negb (num_leb (score b.2) (score a.2)) || (b.2.(n_last_heartbeat) <=? a.2.(n_last_heartbeat))).

(** The [WHERE] clause. *)
Definition schedulable (now : Instant) (runtime : RuntimeKind) (required : list Field) (demand : Capacity)
    (preferred : option Uuid) (excluded : list string) (nodes : gmap Uuid NodeRow) (p : Uuid * NodeRow) : bool :=
  let n := p.2 in
  n.(n_healthy) && is_fresh now n && n.(accepting_sandboxes) && cap_all Z.leb demand n.(n_available)
  && bool_decide (n.(n_runtime) = runtime) && document_contains n.(n_capabilities) required
  && match preferred with Some id => (p.1 =? id)%N | None => true end
  && match host_text n.(n_metadata) with
     | Some host => negb (bool_decide (host ∈ excluded))
     | None => bool_decide (excluded = [])
     end
  && aiec_host_has_headroom (host_text n.(n_metadata)) demand now nodes.

(** What one round of the loop meets: the table its first statement reads, the rows it skips
    because they are locked, the answers to its attempts at the lock of the host, and the
    table the statement after the lock reads. *)
Record View := { seen : gmap Uuid NodeRow; skipped : gset Uuid; lock_answers : list bool; checked : gmap Uuid NodeRow }.

(** The rounds of a transaction, by the table its debit will be written to. *)
Definition Views : Type := gmap Uuid NodeRow → nat → View.

Definition HOST_LOCK_ATTEMPTS : nat := 40.

Definition host_locked (v : View) : bool := existsb id (take HOST_LOCK_ATTEMPTS v.(lock_answers)).

Definition candidate (now : Instant) (runtime : RuntimeKind) (required : list Field) (demand : Capacity)
    (preferred : option Uuid) (excluded : list string) (v : View) : option (Uuid * NodeRow) :=
  head (sort_by better
    (filter (λ p, schedulable now runtime required demand preferred excluded v.(seen) p = true ∧ p.1 ∉ v.(skipped))
            (heap v.(seen)))).

(** The rounds of the loop.  A host that cannot be locked or no longer fits is excluded. *)
Fixpoint select_from (rounds : list View) (now : Instant) (runtime : RuntimeKind) (required : list Field) (demand : Capacity)
    (preferred : option Uuid) (excluded : list string) : Attempt (option (Uuid * NodeRow)) :=
  match rounds with
  | [] => Ok None
  | v :: rounds =>
      match candidate now runtime required demand preferred excluded v with
      | None => Ok None
      | Some p =>
          match p.2.(n_metadata).(host_id) with
          | Some (HostString host) =>
              if host_locked v && aiec_host_has_headroom (Some host) demand now v.(checked) then Ok (Some p)
              else select_from rounds now runtime required demand preferred (excluded ++ [host])
          | _ => Err LeaseError.Conflict
          end
      end
  end.

Definition PLACEMENT_ROUNDS : nat := 8.

Definition select_schedulable_node (now : Instant) (views : Views) (s : Sandbox) (preferred : option Uuid) (t : Tables)
    : Attempt (option (Uuid * NodeRow)) :=
  let? demand := sandbox_capacity_demand s in
  match t.(t_sandboxes) !! s.(sb_id) with
  | Some row =>
      select_from (views t.(t_nodes) <$> seq 0 PLACEMENT_ROUNDS) now s.(sb_runtime) row.(s_required) demand preferred []
  | None => Ok None
  end.

(** ** Leases *)
Definition with_status (l : WorkerLease) (status : string) (reason : option string) (now : Instant) : WorkerLease := {|
  le_id := l.(le_id); le_tenant_id := l.(le_tenant_id); le_sandbox_id := l.(le_sandbox_id); le_node_id := l.(le_node_id);
  le_generation := l.(le_generation); le_status := status; le_reason := reason; le_expires_at := l.(le_expires_at);
  le_created_at := l.(le_created_at); le_updated_at := now |}.

Definition renewed (l : WorkerLease) (ttl : Z) (now : Instant) : WorkerLease := {|
  le_id := l.(le_id); le_tenant_id := l.(le_tenant_id); le_sandbox_id := l.(le_sandbox_id); le_node_id := l.(le_node_id);
  le_generation := l.(le_generation) + 1; le_status := l.(le_status); le_reason := l.(le_reason);
  le_expires_at := now + seconds ttl; le_created_at := l.(le_created_at); le_updated_at := now |}.

Definition put_lease (l : WorkerLease) (t : Tables) : Tables := set_leases (<[l.(le_id) := l]> t.(t_leases)) t.

(** [ORDER BY created_at DESC LIMIT 1] *)
Definition newest (l : list WorkerLease) : option WorkerLease :=
  head (sort_by (λ a b, b.(le_created_at) <=? a.(le_created_at)) l).

Definition leases_where (p : WorkerLease → bool) (t : Tables) : list WorkerLease :=
  filter (λ l, p l = true) (snd <$> heap t.(t_leases)).

Definition of_sandbox (tenant sandbox : Uuid) (l : WorkerLease) : bool :=
  (l.(le_tenant_id) =? tenant)%N && (l.(le_sandbox_id) =? sandbox)%N.

Definition is_active (l : WorkerLease) : bool := bool_decide (l.(le_status) = "active"%string).

(** A lease whose worker's capacity is debited. *)
Definition is_held (l : WorkerLease) : bool := bool_decide (l.(le_status) ∈ ["active"; "completed"]%string).

Definition active_lease (now : Instant) (tenant sandbox : Uuid) (t : Tables) : option WorkerLease :=
  newest (leases_where (λ l, of_sandbox tenant sandbox l && is_active l && (now <? l.(le_expires_at))) t).

Definition fetch_lease_for_sandbox (tenant sandbox : Uuid) (t : Tables) : Attempt WorkerLease :=
  ok_or (newest (leases_where (of_sandbox tenant sandbox) t)) LeaseError.NotFound.

Definition get_worker_lease (tenant id : Uuid) (t : Tables) : Attempt WorkerLease :=
  match t.(t_leases) !! id with
  | Some l => bail_if negb (l.(le_tenant_id) =? tenant)%N with LeaseError.NotFound; Ok l
  | None => Err LeaseError.NotFound
  end.

Definition get_active_worker_lease (now : Instant) (tenant sandbox : Uuid) (t : Tables) : Attempt WorkerLease :=
  ok_or (active_lease now tenant sandbox t) LeaseError.NotFound.

(** Every assignment of the tenant on a lease. *)
Definition on_lease (tenant lease : Uuid) (f : Assignment → Assignment) (t : Tables) : Tables :=
  set_assignments (map_imap (λ k a, Some (if (k.1 =? tenant)%N && (a.(as_lease_id) =? lease)%N then f a else a))
                            t.(t_assignments)) t.

Definition with_assignment_status (status : string) (now : Instant) (a : Assignment) : Assignment := {|
  as_sandbox_id := a.(as_sandbox_id); as_node_id := a.(as_node_id); as_lease_id := a.(as_lease_id); as_status := status;
  as_created_at := a.(as_created_at); as_updated_at := now |}.

(** Settles a lease and gives its worker's capacity back. *)
Definition release_capacity (now : Instant) (lease : WorkerLease) (status reason : string) (t : Tables) : Attempt Tables :=
  let? l := ok_or (t.(t_leases) !! lease.(le_id)) LeaseError.Conflict in
  bail_if negb (is_held l) || negb (l.(le_generation) =? lease.(le_generation)) with LeaseError.Conflict;
  let t := put_lease (with_status l status (Some reason) now) t in
  let? s := fetch_sandbox lease.(le_tenant_id) lease.(le_sandbox_id) t in
  let? demand := sandbox_capacity_demand s in
  let? t := credit_capacity lease.(le_node_id) demand t in
  let t := clear_node now lease.(le_tenant_id) lease.(le_sandbox_id) lease.(le_node_id) t in
  Ok (on_lease lease.(le_tenant_id) lease.(le_id) (with_assignment_status status now) t).

(** Checks and keys of [sandbox_leases]: a positive generation, the primary key, one active
    lease for a sandbox, the node, and the sandbox of the tenant. *)
Definition insert_lease (l : WorkerLease) (t : Tables) : Attempt Tables :=
  bail_if l.(le_generation) <=? 0 with LeaseError.Conflict;
  bail_if bool_decide (is_Some (t.(t_leases) !! l.(le_id)))
          || existsb (λ p, is_active p.2 && (p.2.(le_sandbox_id) =? l.(le_sandbox_id))%N) (map_to_list t.(t_leases))
    with LeaseError.Conflict;
  bail_if bool_decide (t.(t_nodes) !! l.(le_node_id) = None)
          || match t.(t_sandboxes) !! l.(le_sandbox_id) with
             | Some row => negb (row.(s_value).(sb_tenant_id) =? l.(le_tenant_id))%N
             | None => true
             end with LeaseError.Database;
  Ok (put_lease l t).

Definition new_lease (id tenant sandbox node : Uuid) (gen : Z) (expires now : Instant) : WorkerLease := {|
  le_id := id; le_tenant_id := tenant; le_sandbox_id := sandbox; le_node_id := node; le_generation := gen;
  le_status := "active"; le_reason := None; le_expires_at := expires; le_created_at := now; le_updated_at := now |}.

Definition ttl_valid (ttl : Z) : bool := (1 <=? ttl) && (ttl <=? 3600).

(** The generation is a [bigint]: past its width the statement fails. *)
Definition renew_worker_lease (now : Instant) (tenant id : Uuid) (gen ttl : Z) (t : Tables) : Tables * Attempt WorkerLease :=
  transaction t (
    bail_if negb (ttl_valid ttl) with LeaseError.Conflict;
    let? l := get_worker_lease tenant id t in
    if (l.(le_generation) =? gen) && is_active l && (now <? l.(le_expires_at)) then
      bail_if i64_max <? l.(le_generation) + 1 with LeaseError.Database;
      let l := renewed l ttl now in Ok (put_lease l t, l)
    else Err LeaseError.Conflict).

Definition complete_worker_lease (now wall : Instant) (tenant id : Uuid) (gen : Z) (value : Value) (t : Tables)
    : Tables * Attempt WorkerLease :=
  transaction t (
    let? l := get_worker_lease tenant id t in
    if bool_decide (l.(le_status) = "completed"%string) then
      bail_if negb (bool_decide ((l.(le_reason) ≫= value_of) = Some value)) with LeaseError.Conflict;
      Ok (t, l)
    else
    bail_if l.(le_expires_at) <=? wall with LeaseError.Conflict;
    bail_if negb (is_active l) || negb (l.(le_generation) =? gen) with LeaseError.Conflict;
    let l := with_status l "completed" (Some (value_text value)) now in
    Ok (on_lease tenant id (with_assignment_status "completed" now) (put_lease l t), l)).

Definition release_worker_lease (now : Instant) (tenant id : Uuid) (gen : Z) (reason : string) (t : Tables)
    : Tables * Attempt WorkerLease :=
  transaction t (
    let? l := get_worker_lease tenant id t in
    if bool_decide (l.(le_status) = "released"%string) then
      bail_if negb (bool_decide (l.(le_reason) = Some reason)) with LeaseError.Conflict;
      Ok (t, l)
    else
    bail_if negb (is_held l) || negb (l.(le_generation) =? gen) with LeaseError.Conflict;
    let? t := release_capacity now l "released" reason t in
    let? l := ok_or (t.(t_leases) !! id) LeaseError.Database in
    Ok (t, l)).

(** [Scheduler::release]: the lease is read before the transaction, in [before]. *)
Definition scheduler_release (now : Instant) (tenant sandbox : Uuid) (before t : Tables) : Tables * Attempt () :=
  match newest (leases_where (λ l, of_sandbox tenant sandbox l && is_active l) before) with
  | Some l =>
      match release_worker_lease now tenant l.(le_id) l.(le_generation) "released through scheduler" t with
      | (t, r) => (t, let? _ := r in Ok ())
      end
  | None => (t, Err LeaseError.NotFound)
  end.

Record WorkerDispatch := { endpoint : string; wd_lease_id : Uuid; wd_generation : Z }.

Definition dispatch_target (now : Instant) (tenant sandbox : Uuid) (t : Tables) : Attempt WorkerDispatch :=
  let joined l := bool_decide (is_Some (t.(t_nodes) !! l.(le_node_id))) in
  let rows := leases_where (λ l, of_sandbox tenant sandbox l && is_active l && (now <? l.(le_expires_at)) && joined l) t in
  match newest rows with
  | Some l =>
      let? n := ok_or (t.(t_nodes) !! l.(le_node_id)) LeaseError.NotFound in
      Ok {| endpoint := n.(n_control_endpoint); wd_lease_id := l.(le_id); wd_generation := l.(le_generation) |}
  | None => Err LeaseError.NotFound
  end.

Definition update_state_with_lease (c : Clock) (tenant id : Uuid) (expected next : SandboxState) (lease : Uuid) (gen : Z)
    (t : Tables) : Tables * Attempt () :=
  transaction t (
    let? row := lock_sandbox tenant id t in
    match active_lease c.(tx_now) tenant id t with
    | None => Err LeaseError.Transient
    | Some current =>
        bail_if negb (current.(le_id) =? lease)%N with LeaseError.Transient;
        bail_if current.(le_generation) <? gen with LeaseError.Conflict;
        let? (t, _) := apply_state_transition c.(written) row expected next None t in
        Ok (t, ())
    end).

Definition delete_sandbox (now : Instant) (tenant id : Uuid) (t : Tables) : Tables * Attempt () :=
  transaction t (
    let lease := newest (leases_where (λ l, of_sandbox tenant id l && is_held l) t) in
    let? row := lock_sandbox tenant id t in
    bail_if bool_decide (row.(s_value).(sb_state) = Quarantined) with LeaseError.Conflict;
    let? t := match lease with
              | Some l => release_capacity now l "released" "sandbox deleted" t
              | None => Ok t
              end in
    if bool_decide (row.(s_value).(sb_state) = Destroyed) then Ok (t, ()) else
    let? row := lock_sandbox tenant id t in
    let? t := update_row id row (with_value row (with_state Destroyed now row.(s_value))) t in
    Ok (t, ())).

(** ** Scheduling *)
Record ScheduleRequest := {
  sr_tenant : Uuid; sr_request : Uuid; sr_sandbox : Sandbox; sr_ttl : Z; sr_preferred : option Uuid;
  sr_required : RuntimeCapabilities; sr_run : option Uuid }.

Record ScheduledSandbox := {
  sc_sandbox : Sandbox; sc_worker_id : Uuid; sc_endpoint : string; sc_lease_id : Uuid; sc_generation : Z }.

Record ProvisionAdmission := { scheduled : ScheduledSandbox; acquired : bool }.

Definition with_exec_and_files (c : RuntimeCapabilities) : RuntimeCapabilities := {|
  isolation := c.(isolation); exec := true; files := true; streaming := c.(streaming); pty := c.(pty);
  docker_image := c.(docker_image); guest_agent := c.(guest_agent); full_kernel_isolation := c.(full_kernel_isolation);
  portable_workspace := c.(portable_workspace); vm_snapshot := c.(vm_snapshot); memory_resume := c.(memory_resume);
  network_policy := c.(network_policy); gpu := c.(gpu); pause := c.(pause);
  pause_reclaims_resources := c.(pause_reclaims_resources); workspace_snapshot := c.(workspace_snapshot);
  vsock := c.(vsock); coding_guest := c.(coding_guest); minimum_disk_mb := c.(minimum_disk_mb) |}.

Definition sandbox_fingerprint (s : Sandbox) : string :=
  digest_sandbox (s.(sb_tenant_id), s.(sb_image_id), s.(sb_state), s.(sb_runtime), s.(sb_cpu), s.(sb_memory_mb),
                  s.(sb_disk_mb), s.(sb_timeout_seconds), s.(sb_network), s.(sb_environment)).

Definition schedule_fingerprint (s : Sandbox) (preferred : option Uuid) (ttl : Z) (required : RuntimeCapabilities)
    (run : option Uuid) : string :=
  digest_schedule (sandbox_fingerprint s, preferred, ttl, capability_document required, run).

(** The run a machine is for, locked. *)
Definition run_takes_compute (tenant : Uuid) (run : option Uuid) (t : Tables) : Attempt () :=
  match run with
  | Some id =>
      match RunStore.owned t.(t_runs) tenant id with
      | Some r => bail_if negb (Runs.is_active r.(r_state)) with LeaseError.Conflict; Ok ()
      | None => Err LeaseError.NotFound
      end
  | None => Ok ()
  end.

Definition link_attempt_sandbox (run attempt sandbox : Uuid) (t : Tables) : Attempt Tables :=
  let r := t.(t_runs) in
  let? a := ok_or (r.(attempts) !! attempt) LeaseError.Conflict in
  bail_if negb (a.(a_run_id) =? run)%N || negb (bool_decide (a.(a_state) = Runs.Running)) || bool_decide (is_Some a.(a_completed_at))
          || bool_decide (is_Some a.(a_sandbox_id)) with LeaseError.Conflict;
  let r := set_attempts (<[attempt := {|
             a_run_id := a.(a_run_id); attempt_number := a.(attempt_number); a_sandbox_id := Some sandbox;
             a_state := a.(a_state); a_failure_reason := a.(a_failure_reason); a_completed_at := a.(a_completed_at);
             a_document := a.(a_document) |}]> r.(attempts)) r in
  bail_if bool_decide ((run, sandbox) ∈ r.(links)) with LeaseError.Conflict;
  Ok (set_runs (set_links ({[(run, sandbox)]} ∪ r.(links)) r) t).

(** The reservation: choice and debit of a worker, the sandbox's node, the lease. *)
Definition reserve (c : Clock) (views : Views) (fresh tenant : Uuid) (s : Sandbox) (preferred : option Uuid)
    (retry : bool) (gen : Z) (expires : Instant) (t : Tables) : Attempt (Tables * (Uuid * NodeRow)) :=
  let? demand := sandbox_capacity_demand s in
  let? picked := select_schedulable_node c.(tx_now) views s preferred t in
  let? p := ok_or picked LeaseError.Transient in
  let? t := debit_capacity p.1 demand t in
  let? row := map_err (λ _, LeaseError.Conflict) (lock_sandbox tenant s.(sb_id) t) in
  let v := row.(s_value) in
  bail_if bool_decide (is_Some v.(sb_node_id)) with LeaseError.Conflict;
  let v := placed v (Some p.1) (if retry then Creating else v.(sb_state)) (if retry then None else v.(sb_runtime_path))
                  c.(tx_now) in
  let? t := update_row s.(sb_id) row (with_value row v) t in
  let? t := insert_lease (new_lease fresh tenant s.(sb_id) p.1 gen expires c.(written)) t in
  Ok (t, p).

Definition reserved_for (a : Assignment) (sandbox node lease : Uuid) (now : Instant) : Assignment := {|
  as_sandbox_id := sandbox; as_node_id := node; as_lease_id := lease; as_status := "reserved";
  as_created_at := a.(as_created_at); as_updated_at := now |}.

Definition new_assignment (sandbox node lease : Uuid) (now : Instant) : Assignment := {|
  as_sandbox_id := sandbox; as_node_id := node; as_lease_id := lease; as_status := "reserved"; as_created_at := now;
  as_updated_at := now |}.

(** A lease that is new is named by no assignment, so only the primary key can collide. *)
Definition assign (retry : bool) (key : Uuid * Uuid) (sandbox node lease : Uuid) (now : Instant) (t : Tables) : Attempt Tables :=
  match t.(t_assignments) !! key, retry with
  | Some a, true => Ok (set_assignments (<[key := reserved_for a sandbox node lease now]> t.(t_assignments)) t)
  | None, true => Ok t
  | Some _, false => Err LeaseError.Conflict
  | None, false => Ok (set_assignments (<[key := new_assignment sandbox node lease now]> t.(t_assignments)) t)
  end.

(** Everything after the request is known to be new or to need another worker. *)
Definition place (c : Clock) (views : Views) (fresh : Uuid) (q : ScheduleRequest) (s : Sandbox) (retry : bool) (gen : Z)
    (t : Tables) : Attempt (Tables * ProvisionAdmission) :=
  let tenant := q.(sr_tenant) in
  let? (t, p) := reserve c views fresh tenant s q.(sr_preferred) retry gen (c.(written) + seconds q.(sr_ttl)) t in
  let? t := assign retry (tenant, q.(sr_request)) s.(sb_id) p.1 fresh c.(written) t in
  let? t := match q.(sr_run) with
            | Some run => link_attempt_sandbox run q.(sr_request) s.(sb_id) t
            | None => Ok t
            end in
  let? s := fetch_sandbox tenant s.(sb_id) t in
  Ok (t, {| scheduled := {|
              sc_sandbox := placed s (Some p.1) s.(sb_state) s.(sb_runtime_path) c.(written); sc_worker_id := p.1;
              sc_endpoint := p.2.(n_control_endpoint); sc_lease_id := fresh; sc_generation := gen |};
            acquired := true |}).

Definition provisionable (s : SandboxState) : bool := negb (bool_decide (s ∈ [Destroying; Destroyed; Quarantined])).

Definition insert_request (key : Uuid * Uuid) (sandbox : Uuid) (fingerprint : string) (t : Tables) : Attempt Tables :=
  bail_if bool_decide (is_Some (t.(t_requests) !! key))
          || existsb (λ p, (p.1.1 =? key.1)%N && (p.2.(rq_sandbox_id) =? sandbox)%N) (map_to_list t.(t_requests))
    with LeaseError.Conflict;
  Ok (set_requests (<[key := {| rq_sandbox_id := sandbox; rq_fingerprint := fingerprint |}]> t.(t_requests)) t).

Definition schedule_on_node (c : Clock) (views : Views) (fresh : Uuid) (q : ScheduleRequest) (t : Tables)
    : Tables * Attempt ProvisionAdmission :=
  transaction t (
    let tenant := q.(sr_tenant) in
    let key := (tenant, q.(sr_request)) in
    let required := with_exec_and_files q.(sr_required) in
    let fingerprint := schedule_fingerprint q.(sr_sandbox) q.(sr_preferred) q.(sr_ttl) required q.(sr_run) in
    bail_if negb (ttl_valid q.(sr_ttl)) with LeaseError.Conflict;
    bail_if negb (q.(sr_sandbox).(sb_tenant_id) =? tenant)%N with LeaseError.Conflict;
    let? _ := run_takes_compute tenant q.(sr_run) t in
    match t.(t_requests) !! key with
    | Some known =>
        bail_if negb (bool_decide (known.(rq_fingerprint) = fingerprint)) with LeaseError.Conflict;
        let? lease := fetch_lease_for_sandbox tenant known.(rq_sandbox_id) t in
        let? row := lock_sandbox tenant known.(rq_sandbox_id) t in
        let s := row.(s_value) in
        bail_if negb (provisionable s.(sb_state)) with LeaseError.Conflict;
        if is_active lease && (c.(decided) <? lease.(le_expires_at)) then
          let? n := ok_or (t.(t_nodes) !! lease.(le_node_id)) LeaseError.Database in
          Ok (t, {| scheduled := {|
                      sc_sandbox := s; sc_worker_id := lease.(le_node_id); sc_endpoint := n.(n_control_endpoint);
                      sc_lease_id := lease.(le_id); sc_generation := lease.(le_generation) |};
                    acquired := false |})
        else
        let? t := if is_active lease then
                    let? t := release_capacity c.(tx_now) lease "expired" "lease_expired_reschedule" t in
                    Ok (clear_node c.(tx_now) tenant s.(sb_id) lease.(le_node_id) t)
                  else Ok t in
        let? gen := ok_or (checked_add i64_max lease.(le_generation) 1) LeaseError.Conflict in
        place c views fresh q s true gen t
    | None =>
        let? _ := admit_sandbox_quota tenant q.(sr_sandbox) t in
        let? t := insert_sandbox q.(sr_sandbox) (Some required) t in
        let? t := insert_request key q.(sr_sandbox).(sb_id) fingerprint t in
        place c views fresh q q.(sr_sandbox) false 1 t
    end).

Definition create_sandbox_idempotent (tenant request : Uuid) (s : Sandbox) (t : Tables) : Tables * Attempt Sandbox :=
  transaction t (
    bail_if negb (s.(sb_tenant_id) =? tenant)%N with LeaseError.Conflict;
    match t.(t_requests) !! (tenant, request) with
    | Some known =>
        bail_if negb (bool_decide (known.(rq_fingerprint) = sandbox_fingerprint s)) with LeaseError.Conflict;
        let? s := fetch_sandbox tenant known.(rq_sandbox_id) t in
        Ok (t, s)
    | None =>
        let? _ := admit_sandbox_quota tenant s t in
        let? t := insert_sandbox s None t in
        let? t := insert_request (tenant, request) s.(sb_id) (sandbox_fingerprint s) t in
        Ok (t, s)
    end).

Definition create_attempt_sandbox (run attempt : Uuid) (s : Sandbox) (required : RuntimeCapabilities) (t : Tables)
    : Tables * Attempt Sandbox :=
  transaction t (
    let? _ := run_takes_compute s.(sb_tenant_id) (Some run) t in
    let? _ := admit_sandbox_quota s.(sb_tenant_id) s t in
    let? t := insert_sandbox s (Some required) t in
    let? t := link_attempt_sandbox run attempt s.(sb_id) t in
    Ok (t, s)).

(** ** Recovery *)
Definition RECOVERY_LEASE_TTL_SECONDS : Z := 300.

Definition retarget_assignment (tenant sandbox expired node replacement : Uuid) (now : Instant) (t : Tables) : Attempt Tables :=
  if existsb (λ p, (p.1.1 =? tenant)%N && (p.2.(as_lease_id) =? expired)%N) (map_to_list t.(t_assignments)) then
    Ok (on_lease tenant expired (λ a, reserved_for a a.(as_sandbox_id) node replacement now) t)
  else
    let mine := filter (λ p, p.1.1 = tenant ∧ p.2.(rq_sandbox_id) = sandbox) (map_to_list t.(t_requests)) in
    let? p := ok_or (head mine) LeaseError.Conflict in
    let a := match t.(t_assignments) !! p.1 with
             | Some a => reserved_for a a.(as_sandbox_id) node replacement now
             | None => new_assignment sandbox node replacement now
             end in
    Ok (set_assignments (<[p.1 := a]> t.(t_assignments)) t).

Definition is_recoverable (s : SandboxState) : bool := bool_decide (s ∈ [Creating; Starting; Running; Paused; Restoring]).

Definition highest_generation (tenant sandbox : Uuid) (t : Tables) : Z :=
  foldr Z.max 0 (le_generation <$> leases_where (of_sandbox tenant sandbox) t).

Record Reassignment := { re_lease : WorkerLease; re_sandbox : Sandbox }.

(** The replacement of a lease that is settled: a worker, the next generation, the assignment
    and the state of a new placement. *)
Definition reassign_to (c : Clock) (fresh : Uuid) (lease : WorkerLease) (s : Sandbox) (p : Uuid * NodeRow) (t : Tables)
    : Attempt (Tables * option Reassignment) :=
  let tenant := lease.(le_tenant_id) in
  let sandbox := lease.(le_sandbox_id) in
  let? demand := sandbox_capacity_demand s in
  let? t := debit_capacity p.1 demand t in
  let? gen := ok_or (checked_add i64_max (Z.max (highest_generation tenant sandbox t) lease.(le_generation)) 1) LeaseError.Conflict in
  let expires := c.(written) + seconds RECOVERY_LEASE_TTL_SECONDS in
  let? t := insert_lease (new_lease fresh tenant sandbox p.1 gen expires c.(written)) t in
  let? t := retarget_assignment tenant sandbox lease.(le_id) p.1 fresh c.(written) t in
  let? row := lock_sandbox tenant sandbox t in
  bail_if negb (bool_decide (row.(s_value).(sb_state) = s.(sb_state))) with LeaseError.Conflict;
  let v := placed row.(s_value) (Some p.1) Creating None c.(written) in
  let? t := update_row sandbox row (with_value row v) t in
  let? l := ok_or (t.(t_leases) !! fresh) LeaseError.Database in
  Ok (t, Some {| re_lease := l; re_sandbox := v |}).

(** [busy]: another transaction has locked the lease.  Nothing is written on the early exits;
    without a worker, what was settled stays settled. *)
Definition reassign_expired_lease (c : Clock) (views : Views) (fresh lease : Uuid) (busy : bool) (t : Tables)
    : Tables * Attempt (option Reassignment) :=
  transaction t (
    match t.(t_leases) !! lease with
    | None => Ok (t, None)
    | Some l =>
        let tenant := l.(le_tenant_id) in
        let sandbox := l.(le_sandbox_id) in
        let owned := existsb (λ o, of_sandbox tenant sandbox o && is_active o && negb (o.(le_id) =? l.(le_id))%N)
                             (snd <$> map_to_list t.(t_leases)) in
        if busy || (c.(decided) <? l.(le_expires_at)) || negb (bool_decide (l.(le_status) ∈ ["active"; "expired"]%string)) || owned
        then Ok (t, None) else
        let? row := lock_sandbox tenant sandbox t in
        let s := row.(s_value) in
        let run_owned := existsb (λ k, (k.2 =? s.(sb_id))%N) (elements t.(t_runs).(links)) in
        if run_owned || negb (is_recoverable s.(sb_state)) then Ok (t, None) else
        let? t := if is_active l then release_capacity c.(tx_now) l "expired" "lease_expired_recovery" t
                  else Ok (clear_node c.(tx_now) tenant sandbox l.(le_node_id) t) in
        let? picked := select_schedulable_node c.(tx_now) views s None t in
        match picked with
        | None => Ok (t, None)
        | Some p => reassign_to c fresh l s p t
        end
    end).

(** [FOR UPDATE OF l SKIP LOCKED]: the rows of a join with [sandboxes], oldest expiry first. *)
Definition leases_of (p : WorkerLease → SandboxState → bool) (limit : nat) (locked : gset Uuid) (t : Tables) : list WorkerLease :=
  let joined l := match t.(t_sandboxes) !! l.(le_sandbox_id) with
                  | Some row => p l row.(s_value).(sb_state)
                  | None => false
                  end in
  take limit (sort_by (λ a b, a.(le_expires_at) <=? b.(le_expires_at))
                      (filter (λ l, l.(le_id) ∉ locked) (leases_where joined t))).

Definition swept (state : SandboxState) : bool := negb (bool_decide (state ∈ [Destroying; Quarantined])).

(** [ON CONFLICT (source_key) DO NOTHING], and the row that is there then. *)
Definition action_for (l : WorkerLease) (t : Tables) : ReconciliationAction :=
  match t.(t_actions) !! (l.(le_id), l.(le_generation)) with
  | Some known => known
  | None => {| ac_tenant_id := l.(le_tenant_id); ac_node_id := l.(le_node_id); ac_sandbox_id := l.(le_sandbox_id);
               ac_lease_id := l.(le_id) |}
  end.

(** The loop over the expired leases, with the actions recorded so far. *)
Fixpoint reconcile_all (now : Instant) (rows : list WorkerLease) (acc : list ReconciliationAction) (t : Tables)
    : Attempt (Tables * list ReconciliationAction) :=
  match rows with
  | [] => Ok (t, acc)
  | l :: rows =>
      let? row := lock_sandbox l.(le_tenant_id) l.(le_sandbox_id) t in
      if negb (swept row.(s_value).(sb_state)) then reconcile_all now rows acc t else
      let? t := release_capacity now l "expired" "lease expired" t in
      let action := action_for l t in
      reconcile_all now rows (acc ++ [action]) (set_actions (<[(l.(le_id), l.(le_generation)) := action]> t.(t_actions)) t)
  end.

Definition reconcile_expired_leases (now : Instant) (locked : gset Uuid) (limit : Z) (t : Tables)
    : Tables * Attempt (list ReconciliationAction) :=
  let expired l state := is_active l && (l.(le_expires_at) <=? now) && swept state in
  transaction t (reconcile_all now (leases_of expired (Z.to_nat (clamp 1 10000 limit)) locked t) [] t).

Record OrphanedLeaseRelease := { o_released : Z; already_released : Z }.

(** A conflict is the lease that was settled meanwhile, which writes nothing: the sizes of a
    stored sandbox fit, and a credit keeps the checks of its worker. *)
Fixpoint release_all (now : Instant) (rows : list WorkerLease) (acc : OrphanedLeaseRelease) (t : Tables)
    : Attempt (Tables * OrphanedLeaseRelease) :=
  match rows with
  | [] => Ok (t, acc)
  | l :: rows =>
      match release_capacity now l "released" "sandbox reached a terminal state" t with
      | Ok t => release_all now rows {| o_released := acc.(o_released) + 1; already_released := acc.(already_released) |} t
      | Err LeaseError.Conflict =>
          release_all now rows {| o_released := acc.(o_released); already_released := acc.(already_released) + 1 |} t
      | Err e => Err e
      end
  end.

Definition release_orphaned_leases (now : Instant) (locked : gset Uuid) (limit : Z) (t : Tables)
    : Tables * Attempt OrphanedLeaseRelease :=
  let orphaned l state := is_active l && bool_decide (state ∈ [Destroyed; Failed]) in
  transaction t (release_all now (leases_of orphaned (Z.to_nat (clamp 1 10000 limit)) locked t)
                             {| o_released := 0; already_released := 0 |} t).

(** ** Work of a worker *)
Record WorkerAssignment := { wa_tenant_id : Uuid; wa_request_id : Uuid; wa_sandbox : Sandbox; wa_lease : WorkerLease }.

Definition claimable (now : Instant) (node : Uuid) (t : Tables) (p : (Uuid * Uuid) * Assignment) : bool :=
  (p.2.(as_node_id) =? node)%N && bool_decide (p.2.(as_status) = "reserved"%string)
  && match t.(t_leases) !! p.2.(as_lease_id) with
     | Some l => is_active l && (now <? l.(le_expires_at))
     | None => false
     end
  && match t.(t_sandboxes) !! p.2.(as_sandbox_id) with
     | Some row => (row.(s_value).(sb_tenant_id) =? p.1.1)%N && negb (bool_decide (row.(s_value).(sb_state) = Quarantined))
     | None => false
     end.

Definition oldest_first (l : list ((Uuid * Uuid) * Assignment)) : list ((Uuid * Uuid) * Assignment) :=
  sort_by (λ a b, a.2.(as_created_at) <=? b.2.(as_created_at)) l.

Definition mark_assigned (now : Instant) (k : Uuid * Uuid) (t : Tables) : Tables :=
  match t.(t_assignments) !! k with
  | Some a =>
      if bool_decide (a.(as_status) = "reserved"%string)
      then set_assignments (<[k := with_assignment_status "assigned" now a]> t.(t_assignments)) t else t
  | None => t
  end.

(** The loop over the reservations.  One whose lease is gone stays reserved. *)
Fixpoint claim_all (now : Instant) (ttl : Z) (rows : list ((Uuid * Uuid) * Assignment)) (acc : list WorkerAssignment) (t : Tables)
    : Attempt (Tables * list WorkerAssignment) :=
  match rows with
  | [] => Ok (t, acc)
  | (k, a) :: rows =>
      match t.(t_leases) !! a.(as_lease_id) with
      | Some l =>
          if is_active l && (now <? l.(le_expires_at)) then
            bail_if i64_max <? l.(le_generation) + 1 with LeaseError.Database;
            let l := renewed l ttl now in
            let t := put_lease l t in
            let t := mark_assigned now k t in
            let? s := fetch_sandbox k.1 a.(as_sandbox_id) t in
            claim_all now ttl rows (acc ++ [{| wa_tenant_id := k.1; wa_request_id := k.2; wa_sandbox := s; wa_lease := l |}]) t
          else claim_all now ttl rows acc t
      | None => claim_all now ttl rows acc t
      end
  end.

Definition accepts (node : Uuid) (t : Tables) : bool :=
  match t.(t_nodes) !! node with Some n => n.(accepting_sandboxes) | None => false end.

(** [before] is what the first read sees, outside the transaction; [locked] and [taken] are the
    leases and the assignments other transactions hold. *)
Definition claim_worker_assignments (now : Instant) (node : Uuid) (limit ttl : Z) (before : Tables) (locked : gset Uuid)
    (taken : gset (Uuid * Uuid)) (t : Tables) : Tables * Attempt (list WorkerAssignment) :=
  transaction t (
    bail_if negb (ttl_valid ttl) with LeaseError.Conflict;
    if negb (accepts node before) then Ok (t, []) else
    let reservations := filter (λ p, claimable now node t p = true) (heap t.(t_assignments)) in
    let lease_ids := (λ p, p.2.(as_lease_id)) <$>
      take (Z.to_nat (clamp 1 100 limit)) (oldest_first (filter (λ p, p.2.(as_lease_id) ∉ locked) reservations)) in
    if bool_decide (lease_ids = []) then Ok (t, []) else
    if negb (accepts node t) then Ok (t, []) else
    let rows := oldest_first (filter (λ p, p.2.(as_lease_id) ∈ lease_ids ∧ p.1 ∉ taken) reservations) in
    claim_all now ttl rows [] t).

Record WorkerRegistration := {
  wr_node_id : Uuid; wr_name : string; wr_runtime : RuntimeKind; wr_capabilities : RuntimeCapabilities;
  wr_control_endpoint : string; wr_total : Capacity; wr_available : Capacity; wr_healthy : bool; wr_version : Z;
  wr_metadata : Metadata; wr_started_at : Instant; wr_last_heartbeat : Instant }.

(** What a capability document keeps. *)
Definition stored_capabilities (c : RuntimeCapabilities) : RuntimeCapabilities := {|
  isolation := c.(isolation); exec := c.(exec); files := c.(files); streaming := c.(streaming); pty := c.(pty);
  docker_image := c.(docker_image); guest_agent := c.(guest_agent); full_kernel_isolation := c.(full_kernel_isolation);
  portable_workspace := c.(portable_workspace); vm_snapshot := c.(vm_snapshot); memory_resume := c.(memory_resume);
  network_policy := c.(network_policy); gpu := c.(gpu); pause := c.(pause);
  pause_reclaims_resources := c.(pause_reclaims_resources); workspace_snapshot := c.(workspace_snapshot);
  vsock := c.(vsock); coding_guest := c.(coding_guest); minimum_disk_mb := 0 |}.

(** What a re-registration leaves available: the new total less what was in use. *)
Definition restated (total old_total old_available : Capacity) : Capacity :=
  cap_map Z.max no_capacity (cap_map Z.min total (cap_map Z.sub total (cap_map Z.sub old_total old_available))).

Definition registered (value : WorkerRegistration) (old : option NodeRow) : NodeRow := {|
  n_name := value.(wr_name); n_runtime := value.(wr_runtime); n_capabilities := stored_capabilities value.(wr_capabilities);
  n_control_endpoint := value.(wr_control_endpoint); n_total := value.(wr_total);
  n_available := match old with
                 | Some n => restated value.(wr_total) n.(n_total) n.(n_available)
                 | None => value.(wr_available)
                 end;
  n_sandbox_count := match old with Some n => n.(n_sandbox_count) | None => 0 end;
  n_observed_sandbox_count := match old with Some n => n.(n_observed_sandbox_count) | None => 0 end;
  n_healthy := value.(wr_healthy); n_version := value.(wr_version); n_metadata := value.(wr_metadata);
  n_last_error := match old with Some n => n.(n_last_error) | None => None end;
  n_started_at := value.(wr_started_at); n_last_heartbeat := value.(wr_last_heartbeat);
  accepting_sandboxes := match old with Some n => n.(accepting_sandboxes) | None => true end;
  drain_reason := match old with Some n => n.(drain_reason) | None => None end |}.

#[local] Instance RuntimeCapabilities_eq_dec : EqDecision RuntimeCapabilities.
Proof. solve_decision. Defined.

Definition same_registration (n : NodeRow) (value : WorkerRegistration) : bool :=
  bool_decide (n.(n_name) = value.(wr_name)) && bool_decide (n.(n_runtime) = value.(wr_runtime))
  && bool_decide (n.(n_capabilities) = value.(wr_capabilities)) && bool_decide (n.(n_control_endpoint) = value.(wr_control_endpoint))
  && bool_decide (n.(n_total) = value.(wr_total)) && Bool.eqb n.(n_healthy) value.(wr_healthy)
  && bool_decide (n.(n_metadata) = value.(wr_metadata)) && (n.(n_version) =? value.(wr_version)).

Definition named (name : string) (nodes : gmap Uuid NodeRow) : list Uuid :=
  fst <$> filter (λ p, p.2.(n_name) = name) (map_to_list nodes).

(** [blank] says that the name trims to nothing; [before] is what the lookup of the name sees. *)
Definition register_worker (value : WorkerRegistration) (blank : bool) (before t : Tables) : Tables * Attempt Uuid :=
  transaction t (
    bail_if blank with LeaseError.Conflict;
    bail_if (value.(wr_total).(c_vcpus) =? 0) || (value.(wr_version) =? 0) with LeaseError.Conflict;
    bail_if bool_decide (value.(wr_runtime) = Firecracker) && negb (https_endpoint value.(wr_control_endpoint))
      with LeaseError.Conflict;
    bail_if negb (cap_all Z.leb value.(wr_available) value.(wr_total)) with LeaseError.Conflict;
    let id := default value.(wr_node_id) (head (named value.(wr_name) before.(t_nodes))) in
    bail_if negb (cap_all Z.leb value.(wr_total) widths) || (i64_max <? value.(wr_version)) with LeaseError.Conflict;
    let taken := existsb (λ o, negb (o =? id)%N) (named value.(wr_name) t.(t_nodes)) in
    let old := t.(t_nodes) !! id in
    let? t := match old with
              | Some n =>
                  if n.(n_version) <? value.(wr_version) then
                    bail_if taken || negb (node_storable (registered value old)) with LeaseError.Conflict;
                    Ok (put_node id (registered value old) t)
                  else bail_if negb (same_registration n value) with LeaseError.Conflict; Ok t
              | None =>
                  bail_if taken || negb (node_storable (registered value old)) with LeaseError.Conflict;
                  Ok (put_node id (registered value old) t)
              end in
    let? id := ok_or (head (named value.(wr_name) t.(t_nodes))) LeaseError.Database in
    Ok (t, id)).

Record WorkerHeartbeat := {
  wh_node_id : Uuid; wh_sandbox_count : Z; wh_healthy : bool; wh_version : Z; wh_metadata : Metadata;
  wh_last_error : option string }.

Definition with_heartbeat (n : NodeRow) (h : WorkerHeartbeat) (now : Instant) : NodeRow := {|
  n_name := n.(n_name); n_runtime := n.(n_runtime); n_capabilities := n.(n_capabilities);
  n_control_endpoint := n.(n_control_endpoint); n_total := n.(n_total); n_available := n.(n_available);
  n_sandbox_count := n.(n_sandbox_count); n_observed_sandbox_count := h.(wh_sandbox_count); n_healthy := h.(wh_healthy);
  n_version := h.(wh_version); n_metadata := h.(wh_metadata); n_last_error := h.(wh_last_error);
  n_started_at := n.(n_started_at); n_last_heartbeat := now; accepting_sandboxes := n.(accepting_sandboxes);
  drain_reason := n.(drain_reason) |}.

Definition heartbeat_worker (now : Instant) (h : WorkerHeartbeat) (t : Tables) : Tables * Attempt NodeRow :=
  transaction t (
    let owned := leases_where (λ l, (l.(le_node_id) =? h.(wh_node_id))%N && is_active l && (now <? l.(le_expires_at))) t in
    bail_if bool_decide (owned = []) && h.(wh_healthy) && (0 <? h.(wh_sandbox_count)) with LeaseError.Conflict;
    bail_if (i64_max <? h.(wh_version)) || (i32_max <? h.(wh_sandbox_count)) with LeaseError.Conflict;
    match t.(t_nodes) !! h.(wh_node_id) with
    | Some n =>
        bail_if h.(wh_version) <? n.(n_version) with LeaseError.Conflict;
        let n := with_heartbeat n h now in
        bail_if negb (node_storable n) with LeaseError.Conflict;
        Ok (put_node h.(wh_node_id) n t, n)
    | None => Err LeaseError.Conflict
    end).

Definition with_drain (n : NodeRow) (accepting : bool) (reason : option string) : NodeRow := {|
  n_name := n.(n_name); n_runtime := n.(n_runtime); n_capabilities := n.(n_capabilities);
  n_control_endpoint := n.(n_control_endpoint); n_total := n.(n_total); n_available := n.(n_available);
  n_sandbox_count := n.(n_sandbox_count); n_observed_sandbox_count := n.(n_observed_sandbox_count);
  n_healthy := n.(n_healthy); n_version := n.(n_version); n_metadata := n.(n_metadata); n_last_error := n.(n_last_error);
  n_started_at := n.(n_started_at); n_last_heartbeat := n.(n_last_heartbeat); accepting_sandboxes := accepting;
  drain_reason := reason |}.

(** [reason] is trimmed, and [None] when nothing is left; [long] says it has too many characters. *)
Definition set_worker_draining (node : Uuid) (draining : bool) (reason : option string) (long : bool) (t : Tables)
    : Tables * Attempt NodeRow :=
  transaction t (
    bail_if bool_decide (is_Some reason) && long with LeaseError.Conflict;
    let? n := ok_or (t.(t_nodes) !! node) LeaseError.NotFound in
    let n := with_drain n (negb draining) (if draining then reason else None) in
    Ok (put_node node n t, n)).

End Statements.
