(* ===== verification/Scheduler.v ===== *)
(** * Scheduler: what placement, leases and recovery promise

    The operations of [WorkerStore] in any order ([op], [perform]), and the ledger they keep:
    the size of every sandbox, the leases, and what every worker has left ([Ledger]).  The
    ledger is a machine of its own ([lstep]) that each operation implements
    ([perform_refines]); that no worker is overcommitted, that a lease once lost stays lost
    and that fencing generations grow are proved of the machine.  The rest of the file is
    about single operations: the headroom a placement leaves on its host, the sweep of
    expired leases, retries, quarantine. *)

From S2P Require Import Prelude Lifecycle Runtime Events Policy Text Store ArtifactGc GuardStore.
From S2P Require Import RunStore WorkerStore.
Import Sandboxes.

(** ** Sums over a table *)
Definition msum {A} (f : A → Z) (m : gmap Uuid A) : Z := sum_of f (snd <$> map_to_list m).

Lemma sum_of_perm {A} (f : A → Z) l l' : l ≡ₚ l' → sum_of f l = sum_of f l'.
Proof. induction 1; simpl; lia. Qed.

Lemma sum_of_ext {A} (f g : A → Z) l : (∀ x, x ∈ l → f x = g x) → sum_of f l = sum_of g l.
Proof.
  induction l as [|x l IH]; intros Hl; simpl; [done|]. rewrite (Hl x) by left. rewrite IH; [done|].
  intros y Hy. apply Hl. by right.
Qed.

Lemma sum_of_nonneg {A} (f : A → Z) l : (∀ x, x ∈ l → 0 ≤ f x) → 0 ≤ sum_of f l.
Proof.
  induction l as [|x l IH]; intros Hl; simpl; [lia|].
  assert (0 ≤ f x) by (apply Hl; left). assert (0 ≤ sum_of f l); [|lia].
  apply IH. intros y Hy. apply Hl. by right.
Qed.

Lemma msum_new {A} (f : A → Z) m i x : m !! i = None → msum f (<[i := x]> m) = msum f m + f x.
Proof.
  intros Hi. unfold msum. rewrite (sum_of_perm f _ (x :: (snd <$> map_to_list m))); [simpl; lia|].
  by rewrite map_to_list_insert.
Qed.

Lemma msum_put {A} (f : A → Z) m i x y : m !! i = Some x → msum f (<[i := y]> m) = msum f m - f x + f y.
Proof.
  intros Hi. rewrite <-(insert_delete_id m i x Hi) at 2. rewrite <-insert_delete_eq.
  rewrite !msum_new by apply lookup_delete_eq. lia.
Qed.

Lemma msum_ext {A} (f g : A → Z) m : (∀ i x, m !! i = Some x → f x = g x) → msum f m = msum g m.
Proof.
  intros Hm. apply sum_of_ext. intros x [[i y] [-> Hy%elem_of_map_to_list]]%list_elem_of_fmap. by apply (Hm i).
Qed.

Lemma msum_nonneg {A} (f : A → Z) m : (∀ i x, m !! i = Some x → 0 ≤ f x) → 0 ≤ msum f m.
Proof.
  intros Hm. apply sum_of_nonneg. intros x [[i y] [-> Hy%elem_of_map_to_list]]%list_elem_of_fmap. by apply (Hm i).
Qed.

(** ** Capacity, resource by resource *)
Lemma amount_map r f a b : amount r (cap_map f a b) = f (amount r a) (amount r b).
Proof. by destruct r. Qed.

Lemma cap_all_spec p a b : cap_all p a b = true ↔ ∀ r, p (amount r a) (amount r b) = true.
Proof.
  unfold cap_all. rewrite !andb_true_iff. split.
  - intros [[? ?] ?] []; done.
  - intros Hr. split_and!; [apply (Hr Vcpus)|apply (Hr MemoryBytes)|apply (Hr DiskBytes)].
Qed.

Lemma cap_leb_spec a b : cap_all Z.leb a b = true ↔ ∀ r, amount r a ≤ amount r b.
Proof. rewrite cap_all_spec. split; intros Hr r; specialize (Hr r); lia. Qed.

Lemma amount_none r : amount r no_capacity = 0.
Proof. by destruct r. Qed.

(** ** The ledger *)
Record Size := { z_id : Uuid; z_tenant : Uuid; z_cpu : Z; z_memory_mb : Z; z_disk_mb : Z }.

Definition size_of (s : Sandbox) : Size := {|
  z_id := s.(sb_id); z_tenant := s.(sb_tenant_id); z_cpu := s.(sb_cpu); z_memory_mb := s.(sb_memory_mb);
  z_disk_mb := s.(sb_disk_mb) |}.

Record Book := { b_total : Capacity; b_available : Capacity; b_count : Z }.

Definition book_of (n : NodeRow) : Book := {|
  b_total := n.(n_total); b_available := n.(n_available); b_count := n.(n_sandbox_count) |}.

Record Ledger := { sizes : gmap Uuid Size; granted : gmap Uuid WorkerLease; books : gmap Uuid Book }.

Definition ledger (t : Tables) : Ledger := {|
  sizes := (λ row, size_of row.(s_value)) <$> t.(t_sandboxes); granted := t.(t_leases); books := book_of <$> t.(t_nodes) |}.

Definition demand_of (z : Size) : Capacity := {|
  c_vcpus := z.(z_cpu); c_memory := z.(z_memory_mb) * 1048576; c_disk := z.(z_disk_mb) * 1048576 |}.

(** What is counted: the use of a resource, or the leases themselves. *)
Inductive Gauge := Uses (r : Resource) | Leases.

Definition gauge (g : Gauge) (z : Size) : Z := match g with Uses r => amount r (demand_of z) | Leases => 1 end.

Definition load (g : Gauge) (node : Uuid) (szs : gmap Uuid Size) (l : WorkerLease) : Z :=
  if is_held l && (l.(le_node_id) =? node)%N
  then match szs !! l.(le_sandbox_id) with Some z => gauge g z | None => 0 end else 0.

(** What the leases held on a worker add up to. *)
Definition used (g : Gauge) (node : Uuid) (L : Ledger) : Z := msum (load g node L.(sizes)) L.(granted).

Definition is_final (l : WorkerLease) : bool := bool_decide (l.(le_status) ∈ ["released"; "expired"]%string).

(** A generation after those the sandbox has had: above every one, or next to that of the
    lease created last. *)
Definition succeeds (gen : Z) (sandbox : Uuid) (ls : gmap Uuid WorkerLease) : Prop :=
  (∀ i l, ls !! i = Some l → l.(le_sandbox_id) = sandbox → l.(le_generation) < gen)
  ∨ ∃ j l0, ls !! j = Some l0 ∧ l0.(le_sandbox_id) = sandbox ∧ gen = l0.(le_generation) + 1 ∧
      ∀ i l, ls !! i = Some l → l.(le_sandbox_id) = sandbox → l.(le_created_at) ≤ l0.(le_created_at).

Definition size_valid (z : Size) : Prop :=
  0 < z.(z_cpu) ≤ i32_max ∧ 0 < z.(z_memory_mb) ≤ i32_max ∧ 0 < z.(z_disk_mb) ≤ i32_max.

Definition credited (b : Book) (d : Capacity) : Book := {|
  b_total := b.(b_total); b_available := cap_map Z.min b.(b_total) (cap_map Z.add b.(b_available) d);
  b_count := Z.max 0 (b.(b_count) - 1) |}.
Definition debited (b : Book) (d : Capacity) : Book := {|
  b_total := b.(b_total); b_available := cap_map Z.sub b.(b_available) d; b_count := b.(b_count) + 1 |}.

Definition with_granted (ls : gmap Uuid WorkerLease) (L : Ledger) : Ledger := {|
  sizes := L.(sizes); granted := ls; books := L.(books) |}.
Definition with_books (bs : gmap Uuid Book) (L : Ledger) : Ledger := {|
  sizes := L.(sizes); granted := L.(granted); books := bs |}.

Definition within_widths (total : Capacity) : Prop := ∀ r, 0 ≤ amount r total ≤ amount r widths.

(** One entry.  [kept] asks that no worker restates a total below what it has in use, [timely]
    that a lease is created after those there are. *)
Inductive lstep (kept timely : Prop) (L : Ledger) : Ledger → Prop :=
| Create z : L.(sizes) !! z.(z_id) = None → size_valid z →
    lstep kept timely L {| sizes := <[z.(z_id) := z]> L.(sizes); granted := L.(granted); books := L.(books) |}
| Join id total available : L.(books) !! id = None → within_widths total →
    (∀ r, 0 ≤ amount r available ≤ amount r total) →
    lstep kept timely L (with_books (<[id := {| b_total := total; b_available := available; b_count := 0 |}]> L.(books)) L)
| Restate id b total : L.(books) !! id = Some b → within_widths total →
    (kept → ∀ r, amount r b.(b_total) - amount r b.(b_available) ≤ amount r total) →
    lstep kept timely L (with_books (<[id := {| b_total := total; b_available := restated total b.(b_total) b.(b_available);
                                                b_count := b.(b_count) |}]> L.(books)) L)
| Grant l z b : L.(granted) !! l.(le_id) = None → is_active l = true → 0 < l.(le_generation) →
    L.(sizes) !! l.(le_sandbox_id) = Some z → z.(z_tenant) = l.(le_tenant_id) → L.(books) !! l.(le_node_id) = Some b →
    (∀ i o, L.(granted) !! i = Some o → is_active o = true → o.(le_sandbox_id) ≠ l.(le_sandbox_id)) →
    (∀ r, amount r (demand_of z) ≤ amount r b.(b_available)) → succeeds l.(le_generation) l.(le_sandbox_id) L.(granted) →
    (timely → ∀ i o, L.(granted) !! i = Some o → o.(le_created_at) < l.(le_created_at)) →
    lstep kept timely L {| sizes := L.(sizes); granted := <[l.(le_id) := l]> L.(granted);
                           books := <[l.(le_node_id) := debited b (demand_of z)]> L.(books) |}
| Settle l z b status reason now : L.(granted) !! l.(le_id) = Some l → is_held l = true →
    status ∈ ["released"; "expired"]%string → L.(sizes) !! l.(le_sandbox_id) = Some z → L.(books) !! l.(le_node_id) = Some b →
    lstep kept timely L {| sizes := L.(sizes); granted := <[l.(le_id) := with_status l status reason now]> L.(granted);
                           books := <[l.(le_node_id) := credited b (demand_of z)]> L.(books) |}
| Renew l ttl now : L.(granted) !! l.(le_id) = Some l → is_active l = true → now < l.(le_expires_at) →
    lstep kept timely L (with_granted (<[l.(le_id) := renewed l ttl now]> L.(granted)) L)
| Complete l reason now : L.(granted) !! l.(le_id) = Some l → is_active l = true →
    lstep kept timely L (with_granted (<[l.(le_id) := with_status l "completed" reason now]> L.(granted)) L).

Abbreviation lsteps kept timely := (rtc (lstep kept timely)).

(** ** Invariants of the ledger *)
Record refs_ok (L : Ledger) : Prop := {
  size_keyed : ∀ i z, L.(sizes) !! i = Some z → z.(z_id) = i ∧ size_valid z;
  lease_keyed : ∀ i l, L.(granted) !! i = Some l → l.(le_id) = i ∧ 0 < l.(le_generation);
  lease_sandbox : ∀ i l, L.(granted) !! i = Some l →
    ∃ z, L.(sizes) !! l.(le_sandbox_id) = Some z ∧ z.(z_tenant) = l.(le_tenant_id);
  lease_node : ∀ i l, L.(granted) !! i = Some l → is_Some (L.(books) !! l.(le_node_id));
  one_active : ∀ i j l l', L.(granted) !! i = Some l → L.(granted) !! j = Some l' → is_active l = true →
    is_active l' = true → l.(le_sandbox_id) = l'.(le_sandbox_id) → i = j;
  book_ok : ∀ i b, L.(books) !! i = Some b → within_widths b.(b_total) ∧
    ∀ r, 0 ≤ amount r b.(b_available) ≤ amount r b.(b_total) }.

(** What identifies a lease. *)
Definition identity (l : WorkerLease) : Uuid * Uuid * Uuid * Uuid * Instant :=
  (l.(le_id), l.(le_tenant_id), l.(le_sandbox_id), l.(le_node_id), l.(le_created_at)).

Lemma identity_eq l l' : identity l = identity l' →
  l.(le_id) = l'.(le_id) ∧ l.(le_tenant_id) = l'.(le_tenant_id) ∧ l.(le_sandbox_id) = l'.(le_sandbox_id) ∧
  l.(le_node_id) = l'.(le_node_id) ∧ l.(le_created_at) = l'.(le_created_at).
Proof. unfold identity. naive_solver. Qed.

Lemma active_held l : is_active l = true → is_held l = true.
Proof. unfold is_active, is_held. rewrite !bool_decide_eq_true. intros ->. left. Qed.

Lemma final_not_held l : is_final l = true → is_held l = false.
Proof.
  unfold is_final, is_held. rewrite bool_decide_eq_true, bool_decide_eq_false, !elem_of_cons, !elem_of_nil.
  by intros [->|[->|[]]] [?|[?|[]]].
Qed.

Lemma final_not_active l : is_final l = true → is_active l = false.
Proof.
  intros Hl%final_not_held. destruct (is_active l) eqn:Ha; [|done]. by rewrite (active_held l Ha) in Hl.
Qed.

Lemma settled_final l status reason now :
  status ∈ ["released"; "expired"]%string → is_final (with_status l status reason now) = true.
Proof. intros ?. by apply bool_decide_eq_true. Qed.

(** What an entry does to a lease that is there: it keeps its identity, its generation does
    not fall, and one that is settled stays as it is. *)
Record follows (l l' : WorkerLease) : Prop := {
  follows_identity : identity l' = identity l;
  follows_generation : l.(le_generation) ≤ l'.(le_generation);
  follows_final : is_final l = true → l' = l }.

#[global] Instance follows_preorder : PreOrder follows.
Proof.
  split; [split; [done|lia|done]|]. intros a b c [H1 H2 H3] [H4 H5 H6]. split; [congruence|lia|].
  intros Ha. rewrite H6; [by apply H3|]. by rewrite (H3 Ha).
Qed.

Section Ledger.
Context (kept timely : Prop).
Abbreviation step := (lstep kept timely).

Lemma put_follows (m : gmap Uuid WorkerLease) (l l' : WorkerLease) i o :
  m !! l.(le_id) = Some l → follows l l' → m !! i = Some o →
  ∃ o', <[l.(le_id) := l']> m !! i = Some o' ∧ follows o o'.
Proof.
  intros Hl Hf Ho. destruct (decide (i = l.(le_id))) as [->|Hi].
  - exists l'. rewrite lookup_insert_eq. by simplify_eq.
  - exists o. by rewrite lookup_insert_ne.
Qed.

Lemma held_follows l l' : is_held l = true → identity l' = identity l → l.(le_generation) ≤ l'.(le_generation) → follows l l'.
Proof. intros Hh ? ?. split; [done..|]. intros Hf%final_not_held. congruence. Qed.

Lemma step_follows L L' i l : step L L' → L.(granted) !! i = Some l →
  ∃ l', L'.(granted) !! i = Some l' ∧ follows l l'.
Proof.
  intros Hs Hl. destruct Hs as [| | |o z b Ho ? ? ? ? ? ? ? ? ?|o z b st re now Ho Hh|o ttl now Ho Ha|o re now Ho Ha]; simpl;
    try (by exists l).
  - exists l. rewrite lookup_insert_ne; [done|congruence].
  - apply put_follows; [done|by apply held_follows|done].
  - apply put_follows; [done|apply held_follows; simpl; [by apply active_held|done|lia]|done].
  - apply put_follows; [done|by apply held_follows; [apply active_held|..]|done].
Qed.

Lemma steps_follow L L' i l : lsteps kept timely L L' → L.(granted) !! i = Some l →
  ∃ l', L'.(granted) !! i = Some l' ∧ follows l l'.
Proof.
  intros Hs. revert l. induction Hs as [L|L L1 L2 Hs _ IH]; intros l Hl; [by exists l|].
  destruct (step_follows _ _ _ _ Hs Hl) as (l1 & Hl1 & H1). destruct (IH _ Hl1) as (l2 & Hl2 & H2).
  exists l2. split; [done|]. by etrans.
Qed.

(** Sizes are kept, and workers stay. *)
Lemma step_grows L L' : step L L' →
  (∀ i z, L.(sizes) !! i = Some z → L'.(sizes) !! i = Some z) ∧
  (∀ i, is_Some (L.(books) !! i) → is_Some (L'.(books) !! i)).
Proof.
  intros Hs. split.
  - intros i z Hz. destruct Hs; simpl; try done. rewrite lookup_insert_ne; [done|congruence].
  - intros i Hb. destruct Hs; simpl; try done; rewrite lookup_insert_is_Some'; by right.
Qed.

Lemma put_one_active (m : gmap Uuid WorkerLease) l l' :
  m !! l.(le_id) = Some l → is_active l = true ∨ is_active l' = false → l'.(le_sandbox_id) = l.(le_sandbox_id) →
  (∀ i j o o', m !! i = Some o → m !! j = Some o' → is_active o = true → is_active o' = true →
     o.(le_sandbox_id) = o'.(le_sandbox_id) → i = j) →
  ∀ i j o o', <[l.(le_id) := l']> m !! i = Some o → <[l.(le_id) := l']> m !! j = Some o' → is_active o = true →
    is_active o' = true → o.(le_sandbox_id) = o'.(le_sandbox_id) → i = j.
Proof.
  intros Hl Ha Hs Hm i j o o' Ho Ho' Hao Hao' Heq.
  rewrite lookup_insert_Some in Ho, Ho'. destruct Ho as [[<- <-]|[Hi Ho]], Ho' as [[<- <-]|[Hj Ho']]; [done| | |by eapply Hm].
  - destruct Ha as [Ha|Ha]; [|congruence]. eapply (Hm _ _ l o'); [done..|congruence].
  - destruct Ha as [Ha|Ha]; [|congruence]. eapply (Hm _ _ o l); [done..|congruence].
Qed.

Lemma restated_amount total ot oa r :
  amount r (restated total ot oa) =
  Z.max 0 (Z.min (amount r total) (amount r total - (amount r ot - amount r oa))).
Proof. unfold restated. by rewrite !amount_map, amount_none. Qed.

Lemma credited_amount b d r :
  amount r (credited b d).(b_available) = Z.min (amount r b.(b_total)) (amount r b.(b_available) + amount r d).
Proof. unfold credited. simpl. by rewrite !amount_map. Qed.

Lemma debited_amount b d r : amount r (debited b d).(b_available) = amount r b.(b_available) - amount r d.
Proof. unfold debited. simpl. by rewrite !amount_map. Qed.

Lemma demand_nonneg z r : size_valid z → 0 ≤ amount r (demand_of z).
Proof. intros (? & ? & ?). destruct r; simpl; lia. Qed.

Lemma put_books_ok (bs : gmap Uuid Book) i b :
  (∀ j c, bs !! j = Some c → within_widths c.(b_total) ∧ ∀ r, 0 ≤ amount r c.(b_available) ≤ amount r c.(b_total)) →
  within_widths b.(b_total) → (∀ r, 0 ≤ amount r b.(b_available) ≤ amount r b.(b_total)) →
  ∀ j c, <[i := b]> bs !! j = Some c → within_widths c.(b_total) ∧ ∀ r, 0 ≤ amount r c.(b_available) ≤ amount r c.(b_total).
Proof. intros Hbs Hw Hb j c [[_ <-]|[_ Hc]]%lookup_insert_Some; [done|by eapply Hbs]. Qed.

Lemma step_books L L' : refs_ok L → step L L' →
  ∀ i b, L'.(books) !! i = Some b → within_widths b.(b_total) ∧ ∀ r, 0 ≤ amount r b.(b_available) ≤ amount r b.(b_total).
Proof.
  intros HL Hs. pose proof (book_ok _ HL) as Hb.
  destruct Hs as [z|id total av|id b total Hid Hw|l z b ? ? ? Hz ? Hn ? Hfit|l z b ? ? ? ? ? ? Hz Hn| |]; simpl;
    [done|apply put_books_ok; done| | | |done|done].
  - apply put_books_ok; [done..|]. simpl. intros r. rewrite restated_amount. specialize (Hw r). lia.
  - destruct (Hb _ _ Hn) as [Hw Hr]. apply put_books_ok; [done..|]. intros r. rewrite debited_amount. simpl.
    specialize (Hr r). specialize (Hfit r).
    pose proof (demand_nonneg z r (proj2 (size_keyed _ HL _ _ Hz))). lia.
  - destruct (Hb _ _ Hn) as [Hw Hr]. apply put_books_ok; [done..|]. intros r. rewrite credited_amount. simpl.
    specialize (Hr r). pose proof (demand_nonneg z r (proj2 (size_keyed _ HL _ _ Hz))). lia.
Qed.

Lemma step_refs_ok L L' : refs_ok L → step L L' → refs_ok L'.
Proof.
  intros HL Hs. pose proof (step_books _ _ HL Hs) as Hbooks. destruct (step_grows _ _ Hs) as [Hsz Hbk].
  assert (Hkey : ∀ i l, L'.(granted) !! i = Some l → l.(le_id) = i ∧ 0 < l.(le_generation)).
  { pose proof (lease_keyed _ HL) as Hk. destruct Hs; simpl; try done;
      intros i o [[<- <-]|[_ Ho]]%lookup_insert_Some; try (by apply Hk); simpl; split; try done;
      first [by eapply Hk|match goal with Hl : _ !! _ = Some _ |- _ => pose proof (Hk _ _ Hl) end; lia]. }
  assert (Hfrom : ∀ i l, L'.(granted) !! i = Some l →
    (∃ z, L.(sizes) !! l.(le_sandbox_id) = Some z ∧ z.(z_tenant) = l.(le_tenant_id)) ∧
    is_Some (L.(books) !! l.(le_node_id))).
  { pose proof (lease_sandbox _ HL) as H1. pose proof (lease_node _ HL) as H2.
    destruct Hs; simpl; try (by eauto); intros i o [[<- <-]|[_ Ho]]%lookup_insert_Some; simpl; eauto. }
  split; [|done| | | |done].
  - pose proof (size_keyed _ HL) as Hk. destruct Hs; simpl; try done.
    intros i o [[<- <-]|[_ Ho]]%lookup_insert_Some; [done|by apply Hk].
  - intros i l Hl. destruct (Hfrom _ _ Hl) as [(z & Hz & ?) _]. eauto.
  - intros i l Hl. apply Hbk. by apply (Hfrom _ _ Hl).
  - pose proof (one_active _ HL) as Ho. destruct Hs as [| | |l ? ? ? ? ? ? ? ? Hno|l ? ? ? ? ? ? ? Hf| |]; simpl; try done.
    + intros i j o o'. rewrite !lookup_insert_Some. intros [[<- <-]|[? Hx]] [[<- <-]|[? Hy]]; intros; [done| | |by eapply Ho];
        exfalso; eapply Hno; eauto; congruence.
    + apply put_one_active; try done. right. by apply final_not_active, settled_final.
    + apply put_one_active; try done. by left.
    + apply put_one_active; try done. by left.
Qed.

Lemma steps_refs_ok L L' : refs_ok L → lsteps kept timely L L' → refs_ok L'.
Proof. intros HL Hs. revert HL. induction Hs; eauto using step_refs_ok. Qed.

Lemma steps_grow L L' i z : lsteps kept timely L L' → L.(sizes) !! i = Some z → L'.(sizes) !! i = Some z.
Proof. intros Hs. induction Hs as [|L L1 L2 Hs _ IH]; [done|]. intros Hz. apply IH. by eapply step_grows. Qed.

End Ledger.

(** *** No worker is overcommitted *)
Definition balanced (L : Ledger) : Prop :=
  ∀ i b, L.(books) !! i = Some b →
    (∀ r, used (Uses r) i L ≤ amount r b.(b_total) - amount r b.(b_available)) ∧ b.(b_count) = used Leases i L.

Lemma load_held g node szs l z : is_held l = true → szs !! l.(le_sandbox_id) = Some z →
  load g node szs l = if (l.(le_node_id) =? node)%N then gauge g z else 0.
Proof. intros Hh Hz. unfold load. rewrite Hh, Hz. done. Qed.

Lemma load_released g node szs l : is_held l = false → load g node szs l = 0.
Proof. intros Hh. unfold load. by rewrite Hh. Qed.

Lemma load_same g node szs l l' : is_held l' = is_held l → identity l' = identity l → load g node szs l' = load g node szs l.
Proof. intros Hh (_ & _ & Hs & Hn & _)%identity_eq. unfold load. by rewrite Hh, Hs, Hn. Qed.

Lemma gauge_nonneg g z : size_valid z → 0 ≤ gauge g z.
Proof. destruct g as [r|]; [apply demand_nonneg|simpl; lia]. Qed.

Lemma load_nonneg g node L i l : refs_ok L → L.(granted) !! i = Some l → 0 ≤ load g node L.(sizes) l.
Proof.
  intros HL Hl. destruct (lease_sandbox _ HL _ _ Hl) as (z & Hz & _). unfold load. rewrite Hz. case_match; [|lia].
  by eapply gauge_nonneg, size_keyed.
Qed.

Lemma used_put g node szs bs ls l l' : ls !! l.(le_id) = Some l →
  used g node {| sizes := szs; granted := <[l.(le_id) := l']> ls; books := bs |} =
  msum (load g node szs) ls - load g node szs l + load g node szs l'.
Proof. apply msum_put. Qed.

Lemma used_unknown g node L : refs_ok L → L.(books) !! node = None → used g node L = 0.
Proof.
  intros HL Hn. unfold used. rewrite (msum_ext _ (λ _, 0)).
  - unfold msum. generalize (snd <$> map_to_list L.(granted)). intros ls. induction ls; simpl in *; lia.
  - intros i l Hl. unfold load. case_match eqn:Hb; [|done]. apply andb_true_iff in Hb as [_ Hb%N.eqb_eq].
    destruct (lease_node _ HL _ _ Hl) as [b Hb']. congruence.
Qed.

Lemma used_create g node L z : refs_ok L → L.(sizes) !! z.(z_id) = None →
  used g node {| sizes := <[z.(z_id) := z]> L.(sizes); granted := L.(granted); books := L.(books) |} = used g node L.
Proof.
  intros HL Hz. apply msum_ext. intros i l Hl. destruct (lease_sandbox _ HL _ _ Hl) as (z' & Hz' & _).
  simpl. unfold load. rewrite lookup_insert_ne; [done|congruence].
Qed.

Lemma used_grant g i L l z bs : L.(granted) !! l.(le_id) = None → is_active l = true →
  L.(sizes) !! l.(le_sandbox_id) = Some z →
  used g i {| sizes := L.(sizes); granted := <[l.(le_id) := l]> L.(granted); books := bs |} =
  used g i L + (if (l.(le_node_id) =? i)%N then gauge g z else 0).
Proof.
  intros Hl Ha Hz. unfold used. simpl. rewrite msum_new by done. f_equal. apply load_held; [by apply active_held|done].
Qed.

Lemma used_settle g i L l z bs status reason now : L.(granted) !! l.(le_id) = Some l → is_held l = true →
  L.(sizes) !! l.(le_sandbox_id) = Some z → status ∈ ["released"; "expired"]%string →
  used g i {| sizes := L.(sizes); granted := <[l.(le_id) := with_status l status reason now]> L.(granted); books := bs |} =
  used g i L + (if (l.(le_node_id) =? i)%N then - gauge g z else 0).
Proof.
  intros Hl Hh Hz Hst. rewrite used_put by done. rewrite (load_held _ _ _ l z) by done.
  rewrite (load_released _ _ _ (with_status _ _ _ _)) by (by apply final_not_held, settled_final).
  unfold used. case_match; lia.
Qed.

(** A lease that is held is part of what is used. *)
Lemma held_used g L l z : refs_ok L → L.(granted) !! l.(le_id) = Some l → is_held l = true →
  L.(sizes) !! l.(le_sandbox_id) = Some z → gauge g z ≤ used g l.(le_node_id) L.
Proof.
  intros HL Hl Hh Hz. pose proof (used_settle g l.(le_node_id) L l z L.(books) "released" None 0 Hl Hh Hz) as Hu.
  rewrite N.eqb_refl in Hu. specialize (Hu ltac:(left)).
  assert (0 ≤ used g l.(le_node_id) {| sizes := L.(sizes);
    granted := <[l.(le_id) := with_status l "released" None 0]> L.(granted); books := L.(books) |}) as Hp; [|lia].
  apply msum_nonneg. simpl. intros j o [[_ <-]|[_ Ho]]%lookup_insert_Some; [|by eapply load_nonneg].
  by rewrite load_released by (by apply final_not_held, settled_final; left).
Qed.

(** Entries that change the book of one worker. *)
Lemma balanced_move L L' n b' (d : Gauge → Z) : balanced L → L'.(books) = <[n := b']> L.(books) →
  (∀ g i, used g i L' = used g i L + (if (n =? i)%N then d g else 0)) →
  (∀ r, used (Uses r) n L + d (Uses r) ≤ amount r b'.(b_total) - amount r b'.(b_available)) →
  b'.(b_count) = used Leases n L + d Leases → balanced L'.
Proof.
  intros HB Hbs Hu Hr Hc i b. rewrite Hbs, lookup_insert_Some. setoid_rewrite Hu. intros [[<- <-]|[Hi Hb]].
  - rewrite N.eqb_refl. split; [exact Hr|exact Hc].
  - apply N.eqb_neq in Hi as ->. destruct (HB _ _ Hb) as [H1 H2]. split; [intros r; specialize (H1 r)|]; lia.
Qed.

(** Entries that change no load. *)
Lemma balanced_still L L' : balanced L → L'.(books) = L.(books) → (∀ g i, used g i L' = used g i L) → balanced L'.
Proof. intros HB Hbs Hu i b. rewrite Hbs. setoid_rewrite Hu. apply HB. Qed.

Lemma put_still L l l' : L.(granted) !! l.(le_id) = Some l → is_held l' = is_held l → identity l' = identity l → balanced L →
  balanced (with_granted (<[l.(le_id) := l']> L.(granted)) L).
Proof.
  intros Hl Hh Hi HB. apply (balanced_still L); [done..|]. intros g i. unfold with_granted. rewrite used_put by done.
  rewrite (load_same _ _ _ l l') by done. unfold used. lia.
Qed.

Lemma step_balanced timely L L' : refs_ok L → balanced L → lstep True timely L L' → balanced L'.
Proof.
  intros HL HB Hs. destruct Hs as [z Hz Hv|id total av Hid Hw Hav|id b total Hid Hw Hk|l z b Hl Ha Hg Hz Ht Hn Hno Hfit Hsu Hti
    |l z b status reason now Hl Hh Hst Hz Hn|l ttl now Hl Ha Hnow|l reason now Hl Ha].
  - apply (balanced_still L); [done..|]. intros g i. by apply used_create.
  - eapply (balanced_move L _ id _ (λ _, 0)); [done..| | |]; simpl; [| |by rewrite used_unknown].
    + intros g i. change (used g i (with_books _ _)) with (used g i L). case_match; lia.
    + intros r. rewrite used_unknown by done. specialize (Hav r). lia.
  - destruct (HB _ _ Hid) as [H1 H2]. eapply (balanced_move L _ id _ (λ _, 0)); [done..| | |]; simpl; [| |lia].
    + intros g i. change (used g i (with_books _ _)) with (used g i L). case_match; lia.
    + intros r. rewrite restated_amount. specialize (H1 r). specialize (Hk I r). specialize (Hw r).
      destruct (book_ok _ HL _ _ Hid) as [_ Hr]. specialize (Hr r). lia.
  - destruct (HB _ _ Hn) as [H1 H2]. eapply (balanced_move L _ _ _ (λ g, gauge g z)); [done..| | |].
    + intros g i. by apply used_grant.
    + intros r. rewrite debited_amount. simpl. specialize (H1 r). lia.
    + simpl. lia.
  - destruct (HB _ _ Hn) as [H1 H2]. eapply (balanced_move L _ _ _ (λ g, - gauge g z)); [done..| | |].
    + intros g i. by apply used_settle.
    + intros r. rewrite credited_amount. simpl. specialize (H1 r). destruct (book_ok _ HL _ _ Hn) as [_ Hr]. specialize (Hr r).
      pose proof (held_used (Uses r) L l z HL Hl Hh Hz). simpl in *. lia.
    + pose proof (held_used Leases L l z HL Hl Hh Hz). simpl in *. lia.
  - by apply put_still.
  - apply put_still; [done| |done..]. by rewrite (active_held l Ha).
Qed.

Lemma steps_balanced timely L L' : refs_ok L → balanced L → lsteps True timely L L' → balanced L'.
Proof. intros HL HB Hs. revert HL HB. induction Hs; eauto using step_balanced, step_refs_ok. Qed.

(** *** Generations grow with time *)
Definition earlier (l l' : WorkerLease) : Prop :=
  l.(le_created_at) < l'.(le_created_at) ∧ l.(le_generation) < l'.(le_generation) ∧ is_active l = false.

Definition ordered (ls : gmap Uuid WorkerLease) : Prop :=
  ∀ i j l l', ls !! i = Some l → ls !! j = Some l' → i ≠ j → l.(le_sandbox_id) = l'.(le_sandbox_id) →
    earlier l l' ∨ earlier l' l.

(** A change of one lease that leaves it in its place among the others. *)
Lemma put_ordered ls l l' : ls !! l.(le_id) = Some l → l'.(le_sandbox_id) = l.(le_sandbox_id) →
  (∀ o, earlier o l → earlier o l') → (∀ o, earlier l o → earlier l' o) → ordered ls → ordered (<[l.(le_id) := l']> ls).
Proof.
  intros Hl Hs H1 H2 HO i j o o' Ho Ho' Hij Heq. rewrite lookup_insert_Some in Ho, Ho'.
  destruct Ho as [[<- <-]|[Hi Ho]], Ho' as [[<- <-]|[Hj Ho']]; [done| | |by eapply HO].
  - destruct (HO _ _ l o' Hl Ho' Hij) as [?|?]; [congruence|left|right]; auto.
  - destruct (HO _ _ o l Ho Hl Hij) as [?|?]; [congruence|left|right]; auto.
Qed.

Lemma succeeds_above gen sandbox ls i o : ordered ls → succeeds gen sandbox ls → ls !! i = Some o →
  o.(le_sandbox_id) = sandbox → o.(le_generation) < gen.
Proof.
  intros HO [Hall|(j & l0 & Hj & Hs & -> & Hnew)] Ho Heq; [by eapply Hall|].
  destruct (decide (i = j)) as [->|Hij]; [simplify_eq; lia|].
  specialize (Hnew _ _ Ho Heq). destruct (HO _ _ o l0 Ho Hj Hij) as [(? & ? & _)|(? & ? & _)]; [congruence|lia..].
Qed.

Lemma step_ordered kept L L' : ordered L.(granted) → lstep kept True L L' → ordered L'.(granted).
Proof.
  intros HO Hs. destruct Hs as [| | |l z b Hl Ha Hg Hz Ht Hn Hno Hfit Hsu Hti|l z b status reason now Hl Hh Hst Hz Hn
    |l ttl now Hl Ha Hnow|l reason now Hl Ha]; simpl; try done.
  - assert (Hnew : ∀ i o, L.(granted) !! i = Some o → o.(le_sandbox_id) = l.(le_sandbox_id) → earlier o l).
    { intros i o Ho Heq. split_and!; [by eapply Hti|by eapply succeeds_above|].
      destruct (is_active o) eqn:Hao; [|done]. by destruct (Hno _ _ Ho Hao). }
    intros i j o o'. rewrite !lookup_insert_Some. intros [[<- <-]|[Hi Ho]] [[<- <-]|[Hj Ho']] Hij Heq;
      [done|right; by eapply Hnew|left; by eapply Hnew|by eapply HO].
  - assert (is_active (with_status l status reason now) = false) by (by apply final_not_active, settled_final).
    apply put_ordered; [done|done| | |done]; intros o (? & ? & ?); by split_and!.
  - apply put_ordered; [done|done| | |done]; intros o (? & ? & ?); [split_and!; simpl; [done|lia|done]|congruence].
  - apply put_ordered; [done|done| | |done]; intros o (? & ? & ?); [by split_and!|congruence].
Qed.

Lemma steps_ordered kept L L' : ordered L.(granted) → lsteps kept True L L' → ordered L'.(granted).
Proof. intros HO Hs. revert HO. induction Hs; eauto using step_ordered. Qed.

(** ** The operations *)
Section Operations.
Context `{HH : Heap, HN : Numeric, HD : Documents}.

(** The writers of the other tables: tenants and quotas, and the tables of runs. *)
Inductive op :=
| CreateSandbox (s : Sandbox)
| CreateIdempotent (tenant request : Uuid) (s : Sandbox)
| CreateAttempt (run attempt : Uuid) (s : Sandbox) (required : RuntimeCapabilities)
| UpdateState (wall : Instant) (tenant id : Uuid) (expected next : SandboxState) (path : option string)
| UpdateWithLease (c : Clock) (tenant id : Uuid) (expected next : SandboxState) (lease : Uuid) (gen : Z)
| DeleteSandbox (now : Instant) (tenant id : Uuid)
| MarkQuarantined (wall wall' : Instant) (tenant id : Uuid) (fence : GuardFence) (budgeted : bool)
| ReleaseQuarantine (now : Instant) (tenant id : Uuid) (identified : bool)
| Schedule (c : Clock) (views : Views) (fresh : Uuid) (q : ScheduleRequest)
| Reassign (c : Clock) (views : Views) (fresh lease : Uuid) (busy : bool)
| Reconcile (now : Instant) (locked : gset Uuid) (limit : Z)
| ReleaseOrphans (now : Instant) (locked : gset Uuid) (limit : Z)
| Claim (now : Instant) (node : Uuid) (limit ttl : Z) (before : Tables) (locked : gset Uuid) (taken : gset (Uuid * Uuid))
| RenewLease (now : Instant) (tenant id : Uuid) (gen ttl : Z)
| CompleteLease (now wall : Instant) (tenant id : Uuid) (gen : Z) (value : Value)
| ReleaseLease (now : Instant) (tenant id : Uuid) (gen : Z) (reason : string)
| ReleaseSandbox (now : Instant) (tenant sandbox : Uuid) (before : Tables)
| Register (value : WorkerRegistration) (blank : bool) (before : Tables)
| Heartbeat (now : Instant) (h : WorkerHeartbeat)
| Drain (node : Uuid) (draining : bool) (reason : option string) (long : bool)
| OtherTables (tenants : gset Uuid) (quotas : gmap Uuid Quota.QuotaLimits) (runs : RunStore.Database).

Definition perform (o : op) (t : Tables) : Tables :=
  match o with
  | CreateSandbox s => (create_sandbox s t).1
  | CreateIdempotent tenant request s => (create_sandbox_idempotent tenant request s t).1
  | CreateAttempt run attempt s required => (create_attempt_sandbox run attempt s required t).1
  | UpdateState wall tenant id expected next path => (update_state wall tenant id expected next path t).1
  | UpdateWithLease c tenant id expected next lease gen => (update_state_with_lease c tenant id expected next lease gen t).1
  | DeleteSandbox now tenant id => (delete_sandbox now tenant id t).1
  | MarkQuarantined wall wall' tenant id fence budgeted => (mark_guard_quarantined wall wall' tenant id fence budgeted t).1
  | ReleaseQuarantine now tenant id identified => (release_guard_quarantine now tenant id identified t).1
  | Schedule c views fresh q => (schedule_on_node c views fresh q t).1
  | Reassign c views fresh lease busy => (reassign_expired_lease c views fresh lease busy t).1
  | Reconcile now locked limit => (reconcile_expired_leases now locked limit t).1
  | ReleaseOrphans now locked limit => (release_orphaned_leases now locked limit t).1
  | Claim now node limit ttl before locked taken => (claim_worker_assignments now node limit ttl before locked taken t).1
  | RenewLease now tenant id gen ttl => (renew_worker_lease now tenant id gen ttl t).1
  | CompleteLease now wall tenant id gen value => (complete_worker_lease now wall tenant id gen value t).1
  | ReleaseLease now tenant id gen reason => (release_worker_lease now tenant id gen reason t).1
  | ReleaseSandbox now tenant sandbox before => (scheduler_release now tenant sandbox before t).1
  | Register value blank before => (register_worker value blank before t).1
  | Heartbeat now h => (heartbeat_worker now h t).1
  | Drain node draining reason long => (set_worker_draining node draining reason long t).1
  | OtherTables ts qs rs => {|
      t_tenants := ts; t_quotas := qs; t_sandboxes := t.(t_sandboxes); t_nodes := t.(t_nodes); t_leases := t.(t_leases);
      t_requests := t.(t_requests); t_assignments := t.(t_assignments); t_actions := t.(t_actions); t_runs := rs |}
  end.

Definition run (ops : list op) (t : Tables) : Tables := foldl (λ t o, perform o t) t ops.

(** *** Refinement *)
Lemma size_lookup t id row : t.(t_sandboxes) !! id = Some row → (ledger t).(sizes) !! id = Some (size_of row.(s_value)).
Proof. intros Hr. simpl. by rewrite lookup_fmap, Hr. Qed.

Lemma book_lookup t id n : t.(t_nodes) !! id = Some n → (ledger t).(books) !! id = Some (book_of n).
Proof. intros Hn. simpl. by rewrite lookup_fmap, Hn. Qed.

Lemma ledger_put_row id row row' t : t.(t_sandboxes) !! id = Some row → size_of row'.(s_value) = size_of row.(s_value) →
  ledger (put_row id row' t) = ledger t.
Proof.
  intros Hr Hs. unfold ledger. simpl. f_equal. rewrite fmap_insert, Hs. apply insert_id. by rewrite lookup_fmap, Hr.
Qed.

Lemma ledger_put_node id n n' t : t.(t_nodes) !! id = Some n → book_of n' = book_of n → ledger (put_node id n' t) = ledger t.
Proof.
  intros Hr Hs. unfold ledger. simpl. f_equal. rewrite fmap_insert, Hs. apply insert_id. by rewrite lookup_fmap, Hr.
Qed.

Lemma lock_sandbox_ok tenant id t row : lock_sandbox tenant id t = Ok row →
  t.(t_sandboxes) !! id = Some row ∧ row.(s_value).(sb_tenant_id) = tenant.
Proof. unfold lock_sandbox. intros Hl. case_match; [|done]. ok_inv Hl. simplify_eq. bools. by apply N.eqb_eq in Hif. Qed.

Lemma fetch_sandbox_ok tenant id t s : fetch_sandbox tenant id t = Ok s →
  ∃ row, t.(t_sandboxes) !! id = Some row ∧ row.(s_value) = s ∧ s.(sb_tenant_id) = tenant.
Proof. unfold fetch_sandbox. intros Hf. ok_inv Hf. apply lock_sandbox_ok in Hok as [? ?]. simplify_eq. eauto. Qed.

Lemma update_row_ok id old new t t' : update_row id old new t = Ok t' → t' = put_row id new t.
Proof. unfold update_row. intros Hu. ok_inv Hu. by simplify_eq. Qed.

Lemma clear_node_row now tenant id node t j : 
  (clear_node now tenant id node t).(t_sandboxes) !! j = t.(t_sandboxes) !! j ∨
  ∃ row, t.(t_sandboxes) !! j = Some row ∧ (clear_node now tenant id node t).(t_sandboxes) !! j =
    Some (with_value row (placed row.(s_value) None row.(s_value).(sb_state) row.(s_value).(sb_runtime_path) now)).
Proof.
  unfold clear_node. case_match eqn:Hr; [|by left]. case_match; [|by left]. simpl.
  destruct (decide (j = id)) as [->|?]; [|left; by rewrite lookup_insert_ne].
  right. rewrite lookup_insert_eq. eauto.
Qed.

Lemma ledger_clear_node now tenant id node t : ledger (clear_node now tenant id node t) = ledger t.
Proof. unfold clear_node. case_match eqn:Hr; [|done]. case_match; [|done]. by eapply ledger_put_row. Qed.

Lemma capacity_demand_ok s d : sandbox_capacity_demand s = Ok d → d = demand_of (size_of s).
Proof. unfold sandbox_capacity_demand. intros Hd. ok_inv Hd. by simplify_eq. Qed.

Lemma capacity_demand_valid s : size_valid (size_of s) → sandbox_capacity_demand s = Ok (demand_of (size_of s)).
Proof.
  intros (Hc & Hm & Hd). unfold sandbox_capacity_demand, u64_max, i64_max, i32_max in *. simpl in *.
  rewrite !(proj2 (Z.ltb_ge _ _)) by lia. done.
Qed.

Lemma apply_transition_ok wall row expected next path t t' v id :
  apply_state_transition wall row expected next path t = Ok (t', v) → refs_ok (ledger t) → t.(t_sandboxes) !! id = Some row →
  (t' = t ∨ ∃ row', t' = put_row id row' t ∧ row'.(s_value).(sb_state) = next ∧ next ≠ Quarantined
     ∧ size_of row'.(s_value) = size_of row.(s_value) ∧ can_transition_to row.(s_value).(sb_state) next = true).
Proof.
  unfold apply_state_transition. intros Ha HR Hr. ok_inv Ha. case_match; [left; by simplify_eq|]. ok_inv Ha. simplify_eq.
  apply update_row_ok in Hok as ->. simpl in *. bools. right.
  destruct (size_keyed _ HR _ _ (size_lookup _ _ _ Hr)) as [Hid _]. simpl in Hid. rewrite Hid. eexists. split_and!; [done..| |done|done].
  intros ->. apply andb_false_iff in Hif as [Hif|Hif]; bools; done.
Qed.

Lemma transaction_moves {A} (P : Tables → Prop) t (r : result LeaseError.t (Tables * A)) :
  P t → (∀ t' a, r = Ok (t', a) → P t') → P (transaction t r).1.
Proof. intros Ht Hr. unfold transaction. destruct r as [[t' a]|e]; [by eapply Hr|done]. Qed.

Section Refinement.
Context (kept timely : Prop).
Abbreviation moves t t' := (lsteps kept timely (ledger t) (ledger t')).

(** The table holds the lease that a copy of it names. *)
Definition names (t : Tables) (c : WorkerLease) : Prop := ∃ l, t.(t_leases) !! c.(le_id) = Some l ∧ identity l = identity c.

Lemma names_here t l : refs_ok (ledger t) → (∃ i, t.(t_leases) !! i = Some l) → names t l.
Proof. intros HR [i Hl]. destruct (lease_keyed _ HR _ _ Hl) as [<- _]. by exists l. Qed.

Lemma names_moves t t' c : moves t t' → names t c → names t' c.
Proof.
  intros Hm (l & Hl & Hi). destruct (steps_follow _ _ _ _ _ _ Hm Hl) as (l' & Hl' & Hf). exists l'. split; [done|].
  rewrite (follows_identity _ _ Hf). done.
Qed.

Lemma credit_ok id d t t' n : t.(t_nodes) !! id = Some n → credit_capacity id d t = Ok t' →
  ∃ n', t' = put_node id n' t ∧ book_of n' = credited (book_of n) d.
Proof. unfold credit_capacity. intros Hn Hc. rewrite Hn in Hc. ok_inv Hc. simplify_eq. eauto. Qed.

Lemma release_capacity_ok now c status reason t t' : refs_ok (ledger t) → status ∈ ["released"; "expired"]%string →
  names t c → release_capacity now c status reason t = Ok t' →
  ∃ l, t.(t_leases) !! c.(le_id) = Some l ∧ is_held l = true ∧ l.(le_generation) = c.(le_generation) ∧
    t'.(t_leases) = <[c.(le_id) := with_status l status (Some reason) now]> t.(t_leases) ∧ moves t t'.
Proof.
  intros HR Hst (l & Hl & Hi) Hrel. unfold release_capacity in Hrel. rewrite Hl in Hrel. simpl in Hrel.
  apply identity_eq in Hi as (Hid & Htn & Hsb & Hnd & _). ok_inv Hrel. simplify_eq. bools. rename Hok into Hf, Hok0 into Hd, Hok1 into Hc.
  apply fetch_sandbox_ok in Hf as (row & Hrow & <- & _). apply capacity_demand_ok in Hd as ->. simpl in Hrow.
  destruct (lease_node _ HR _ _ Hl) as [b Hb]. simpl in Hb. rewrite lookup_fmap, fmap_Some in Hb. destruct Hb as (n & Hn & _).
  rewrite Hnd in Hn. eapply (credit_ok _ _ (put_lease _ t)) in Hc as (n' & -> & Hn'); [|done].
  exists l. split_and!; [done..|by apply Z.eqb_eq| |].
  - unfold clear_node. simpl. repeat case_match; simpl; by rewrite Hid.
  - apply rtc_once. rewrite <-Hsb in Hrow.
    assert (ledger (on_lease c.(le_tenant_id) c.(le_id) (with_assignment_status status now)
      (clear_node now c.(le_tenant_id) c.(le_sandbox_id) c.(le_node_id)
        (put_node c.(le_node_id) n' (put_lease (with_status l status (Some reason) now) t)))) =
      ledger (put_node c.(le_node_id) n' (put_lease (with_status l status (Some reason) now) t))) as ->
      by (apply (ledger_clear_node now)).
    unfold ledger. simpl. rewrite fmap_insert, Hn'. rewrite <-Hnd in Hn |- *.
    eapply (Settle _ _ (ledger t)); [by rewrite Hid|done|done|by apply size_lookup|by apply book_lookup].
Qed.

Lemma existsb_rows_false {K A} `{Countable K} (p : K * A → bool) (m : gmap K A) i x :
  existsb p (map_to_list m) = false → m !! i = Some x → p (i, x) = false.
Proof.
  intros Hp%existsb_false Hx. rewrite Forall_forall in Hp. apply Hp. by apply elem_of_map_to_list.
Qed.

Lemma insert_lease_ok l t t' : insert_lease l t = Ok t' →
  t' = put_lease l t ∧ t.(t_leases) !! l.(le_id) = None ∧ 0 < l.(le_generation) ∧ is_Some (t.(t_nodes) !! l.(le_node_id)) ∧
  ∀ i o, t.(t_leases) !! i = Some o → is_active o = true → o.(le_sandbox_id) ≠ l.(le_sandbox_id).
Proof.
  unfold insert_lease. intros Hi. ok_inv Hi. simplify_eq. apply orb_false_iff in Hif0 as [Hn Hex], Hif1 as [Hnode _].
  split_and!; [done| |lia| |].
  - bools. by apply eq_None_not_Some.
  - bools. by apply not_eq_None_Some.
  - intros i o Ho Ha Heq. pose proof (existsb_rows_false _ _ _ _ Hex Ho) as Hf. simpl in Hf. rewrite Ha, Heq in Hf.
    by rewrite N.eqb_refl in Hf.
Qed.

Lemma debit_ok id d t t' n : t.(t_nodes) !! id = Some n → debit_capacity id d t = Ok t' →
  ∃ n', t' = put_node id n' t ∧ book_of n' = debited (book_of n) d ∧ ∀ r, amount r d ≤ amount r n.(n_available).
Proof.
  unfold debit_capacity. intros Hn Hc. rewrite Hn in Hc. ok_inv Hc. simplify_eq. eexists. split_and!; [done..|].
  apply negb_false_iff in Hif0. unfold capacity_storable in Hif0. bools.
  match goal with H : cap_all Z.leb no_capacity _ = true |- _ => rewrite cap_leb_spec in H; intros r; specialize (H r) end.
  simpl in *. rewrite amount_map, amount_none in *. lia.
Qed.

(** The entry a placement makes: a worker debited, a lease inserted, the sandbox moved. *)
Lemma grant_moves l z n t t' n' : refs_ok (ledger t) → (ledger t).(sizes) !! l.(le_sandbox_id) = Some z →
  z.(z_tenant) = l.(le_tenant_id) → t.(t_nodes) !! l.(le_node_id) = Some n →
  t.(t_leases) !! l.(le_id) = None → is_active l = true → 0 < l.(le_generation) →
  (∀ i o, t.(t_leases) !! i = Some o → is_active o = true → o.(le_sandbox_id) ≠ l.(le_sandbox_id)) →
  (∀ r, amount r (demand_of z) ≤ amount r n.(n_available)) → succeeds l.(le_generation) l.(le_sandbox_id) t.(t_leases) →
  (timely → ∀ i o, t.(t_leases) !! i = Some o → o.(le_created_at) < l.(le_created_at)) →
  book_of n' = debited (book_of n) (demand_of z) →
  ledger t' = ledger (put_lease l (put_node l.(le_node_id) n' t)) → moves t t'.
Proof.
  intros HR Hz Ht Hn Hl Ha Hg Hno Hfit Hsu Hti Hb ->. apply rtc_once. unfold ledger. simpl. rewrite fmap_insert, Hb.
  by eapply (Grant _ _ (ledger t)); [..|by apply book_lookup| | | |].
Qed.

Lemma select_from_ok rounds now runtime required demand preferred excluded p :
  select_from rounds now runtime required demand preferred excluded = Ok (Some p) →
  ∃ v excl host, v ∈ rounds ∧ candidate now runtime required demand preferred excl v = Some p ∧ host_locked v = true ∧
    p.2.(n_metadata).(host_id) = Some (HostString host) ∧ aiec_host_has_headroom (Some host) demand now v.(checked) = true.
Proof.
  revert excluded. induction rounds as [|v rounds IH]; intros excluded Hs; cbn [select_from] in Hs; [done|].
  destruct (candidate _ _ _ _ _ _ v) as [q|] eqn:Hc; [|done]. destruct q.2.(n_metadata).(host_id) as [[host|]|] eqn:Hh; [|done..].
  destruct (host_locked v && _) eqn:Hfit; simplify_eq.
  - apply andb_true_iff in Hfit as [? ?]. exists v, excluded, host. split_and!; try done. left.
  - apply IH in Hs as (w & excl & h & Hw & ?). exists w, excl, h. split; [by right|done].
Qed.

Lemma select_ok now views s preferred t p : select_schedulable_node now views s preferred t = Ok (Some p) →
  ∃ k excl host row, t.(t_sandboxes) !! s.(sb_id) = Some row ∧
    candidate now s.(sb_runtime) row.(s_required) (demand_of (size_of s)) preferred excl (views t.(t_nodes) k) = Some p ∧
    host_locked (views t.(t_nodes) k) = true ∧ p.2.(n_metadata).(host_id) = Some (HostString host) ∧
    aiec_host_has_headroom (Some host) (demand_of (size_of s)) now (views t.(t_nodes) k).(checked) = true.
Proof.
  unfold select_schedulable_node. intros Hs. ok_inv Hs. case_match eqn:Hrow; [|done].
  apply capacity_demand_ok in Hok as ->. apply select_from_ok in Hs as (v & excl & host & Hv & ? & ? & ? & ?).
  apply list_elem_of_fmap in Hv as (k & -> & _). by eauto 10.
Qed.

Lemma ok_or_ok {A} (o : option A) (e : LeaseError.t) a : ok_or o e = Ok a → o = Some a.
Proof. destruct o; simpl; congruence. Qed.

Lemma map_err_ok {A} (f : LeaseError.t → LeaseError.t) (r : result LeaseError.t A) a : map_err f r = Ok a → r = Ok a.
Proof. by destruct r. Qed.

Lemma reserve_moves c views fresh tenant s preferred retry gen expires t t' p : refs_ok (ledger t) →
  (ledger t).(sizes) !! s.(sb_id) = Some (size_of s) → succeeds gen s.(sb_id) t.(t_leases) →
  (timely → ∀ i o, t.(t_leases) !! i = Some o → o.(le_created_at) < c.(written)) →
  reserve c views fresh tenant s preferred retry gen expires t = Ok (t', p) →
  moves t t' ∧ select_schedulable_node c.(tx_now) views s preferred t = Ok (Some p) ∧ is_Some (t.(t_nodes) !! p.1) ∧
  t'.(t_leases) = <[fresh := new_lease fresh tenant s.(sb_id) p.1 gen expires c.(written)]> t.(t_leases).
Proof.
  intros HR Hz Hsu Hti Hr. unfold reserve in Hr. ok_inv Hr. injection Hr as <- <-.
  rename Hok into Hd, Hok0 into Hsel, Hok1 into Hp, Hok2 into Hdeb, Hok3 into Hrow, Hok4 into Hup, Hok5 into Hins.
  apply capacity_demand_ok in Hd as ->. apply ok_or_ok in Hp as ->.
  apply map_err_ok, lock_sandbox_ok in Hrow as [Hrow Htn]. apply update_row_ok in Hup as ->.
  apply insert_lease_ok in Hins as (-> & Hnone & Hg & Hnode & Hno). rename a1 into p, a3 into row.
  destruct (t.(t_nodes) !! p.1) as [n|] eqn:Hn;
    [|unfold debit_capacity in Hdeb; rewrite Hn in Hdeb; simplify_eq; destruct Hnode; simpl in *; congruence].
  eapply debit_ok in Hdeb as (n' & -> & Hb & Hfit); [|done]. cbn in Hnone, Hno, Hrow. split_and!; [|done|by eauto|done].
  assert (Hz' : size_of row.(s_value) = size_of s) by (apply size_lookup in Hrow; congruence).
  eapply (grant_moves (new_lease fresh tenant s.(sb_id) p.1 gen expires c.(written)) (size_of s) n _ _ n'); try done.
  - by rewrite <-Hz'.
  - by apply (ledger_put_row s.(sb_id) row _ (put_lease _ (put_node p.1 n' t))).
Qed.

Lemma succeeds_put gen sandbox ls l l' : ls !! l.(le_id) = Some l → identity l' = identity l →
  l'.(le_generation) = l.(le_generation) → succeeds gen sandbox ls → succeeds gen sandbox (<[l.(le_id) := l']> ls).
Proof.
  intros Hl (_ & _ & Hs & _ & Hc)%identity_eq Hg [Hall|(j & l0 & Hj & Hs0 & Hg0 & Hnew)].
  - left. intros i o [[<- <-]|[_ Ho]]%lookup_insert_Some Heq; [rewrite Hg; eapply Hall; [done|congruence]|by eapply Hall].
  - right. assert (Hle : ∀ i o, <[l.(le_id) := l']> ls !! i = Some o → o.(le_sandbox_id) = sandbox →
      o.(le_created_at) ≤ l0.(le_created_at)).
    { intros i o [[<- <-]|[_ Ho]]%lookup_insert_Some Heq; [rewrite Hc; eapply Hnew; [done|congruence]|by eapply Hnew]. }
    destruct (decide (j = l.(le_id))) as [->|Hne].
    + simplify_eq. exists l.(le_id), l'. rewrite lookup_insert_eq. split_and!; [done|congruence|congruence|].
      rewrite Hc. exact Hle.
    + exists j, l0. rewrite lookup_insert_ne by done. done.
Qed.

Lemma assign_ledger retry key sandbox node lease now t t' : assign retry key sandbox node lease now t = Ok t' →
  ledger t' = ledger t.
Proof. unfold assign. intros Ha. repeat case_match; simplify_eq; done. Qed.

Lemma link_ledger run attempt sandbox t t' : link_attempt_sandbox run attempt sandbox t = Ok t' → ledger t' = ledger t.
Proof. unfold link_attempt_sandbox. intros Ha. ok_inv Ha. by simplify_eq. Qed.

Lemma place_ok c views fresh q s retry gen t t' a : refs_ok (ledger t) →
  (ledger t).(sizes) !! s.(sb_id) = Some (size_of s) → succeeds gen s.(sb_id) t.(t_leases) →
  (timely → ∀ i o, t.(t_leases) !! i = Some o → o.(le_created_at) < c.(written)) →
  place c views fresh q s retry gen t = Ok (t', a) → moves t t'.
Proof.
  intros HR Hz Hsu Hti Hp. unfold place in Hp.
  destruct (reserve _ _ _ _ _ _ _ _ _ t) as [[t1 p]|] eqn:Hr; [|done]. ok_inv Hp. injection Hp as <- _.
  apply reserve_moves in Hr as (Hm & _); [|done..]. apply assign_ledger in Hok.
  assert (ledger a1 = ledger a0) as Hl by (case_match; [by eapply link_ledger|congruence]).
  by rewrite Hl, Hok.
Qed.

Lemma insert_sandbox_ok v required t t' : insert_sandbox v required t = Ok t' →
  moves t t' ∧ t'.(t_leases) = t.(t_leases) ∧ (ledger t').(sizes) !! v.(sb_id) = Some (size_of v) ∧
  (ledger t).(sizes) !! v.(sb_id) = None.
Proof.
  unfold insert_sandbox. intros Hi. ok_inv Hi. simplify_eq. bools.
  assert (Hnone : (ledger t).(sizes) !! v.(sb_id) = None).
  { simpl. rewrite lookup_fmap, fmap_None. by apply eq_None_not_Some. }
  split_and!; [|done|by simpl; rewrite fmap_insert, lookup_insert_eq|done].
  apply rtc_once. unfold ledger. simpl. rewrite fmap_insert. apply (Create _ _ (ledger t) (size_of v)); [done|].
  unfold size_valid. simpl. lia.
Qed.

Lemma insert_request_ledger key sandbox f t t' : insert_request key sandbox f t = Ok t' → ledger t' = ledger t.
Proof. unfold insert_request. intros Ha. ok_inv Ha. by simplify_eq. Qed.

Context {HL : HeapLaws HH}.

Lemma leases_where_elem p t l : l ∈ leases_where p t ↔ p l = true ∧ ∃ i, t.(t_leases) !! i = Some l.
Proof.
  unfold leases_where. rewrite list_elem_of_filter, list_elem_of_fmap. apply and_iff_compat_l. split.
  - intros ([i l'] & -> & Hl). rewrite heap_rows in Hl. apply elem_of_map_to_list in Hl. by exists i.
  - intros [i Hl]. exists (i, l). split; [done|]. rewrite heap_rows. by apply elem_of_map_to_list.
Qed.

Lemma newest_ok ls l : newest ls = Some l → l ∈ ls ∧ ∀ o, o ∈ ls → o.(le_created_at) ≤ l.(le_created_at).
Proof.
  unfold newest. intros Hn. set (leb := λ a b, le_created_at b <=? le_created_at a) in *.
  pose proof (sort_by_perm leb ls) as Hp.
  pose proof (sort_by_sorted leb ltac:(unfold leb; intros; lia) ltac:(unfold leb; intros; lia) ls) as Hs.
  destruct (sort_by leb ls) as [|x l'] eqn:He; simplify_eq/=. split; [rewrite <-Hp; left|].
  intros o Ho. rewrite <-Hp in Ho. apply elem_of_cons in Ho as [->|Ho]; [done|].
  apply StronglySorted_inv in Hs as [_ Hs]. rewrite Forall_forall in Hs. specialize (Hs _ Ho). unfold leb in Hs. lia.
Qed.

Lemma newest_where p t l : newest (leases_where p t) = Some l → p l = true ∧ ∃ i, t.(t_leases) !! i = Some l.
Proof. intros [Hl _]%newest_ok. by apply leases_where_elem. Qed.

(** The next generation after the newest lease of a sandbox. *)
Lemma newest_succeeds tenant sandbox t l : refs_ok (ledger t) → fetch_lease_for_sandbox tenant sandbox t = Ok l →
  succeeds (l.(le_generation) + 1) sandbox t.(t_leases) ∧ l.(le_sandbox_id) = sandbox ∧ l.(le_tenant_id) = tenant ∧
  t.(t_leases) !! l.(le_id) = Some l.
Proof.
  unfold fetch_lease_for_sandbox, ok_or. intros HR Hf. case_match eqn:Hn; simplify_eq.
  destruct (newest_ok _ _ Hn) as [Hl Hmax]. apply leases_where_elem in Hl as [Hof [i Hl]].
  destruct (lease_keyed _ HR _ _ Hl) as [<- _]. unfold of_sandbox in Hof. bools.
  assert (l.(le_tenant_id) = tenant ∧ l.(le_sandbox_id) = sandbox) as [<- <-] by (split; by apply N.eqb_eq).
  split_and!; [|done..]. right. exists l.(le_id), l. split_and!; [done..|]. intros j o Ho Heq. apply Hmax, leases_where_elem.
  split; [|by exists j]. unfold of_sandbox. rewrite Heq, N.eqb_refl, andb_true_r. apply N.eqb_eq.
  destruct (lease_sandbox _ HR _ _ Ho) as (z & Hz & <-), (lease_sandbox _ HR _ _ Hl) as (z' & Hz' & <-).
  congruence.
Qed.

(** [Utc::now()] of a placement is after every lease there is. *)
Definition punctual (c : Clock) (t : Tables) : Prop := ∀ i l, t.(t_leases) !! i = Some l → l.(le_created_at) < c.(written).

Lemma put_punctual c t (l l' : WorkerLease) ls : t.(t_leases) !! l.(le_id) = Some l → identity l' = identity l → punctual c t →
  ls = <[l.(le_id) := l']> t.(t_leases) → ∀ i o, ls !! i = Some o → o.(le_created_at) < c.(written).
Proof.
  intros Hl (_ & _ & _ & _ & Hc)%identity_eq Hp -> i o [[_ <-]|[_ Ho]]%lookup_insert_Some; [rewrite Hc|]; by eapply Hp.
Qed.

Lemma schedule_moves c views fresh q t : refs_ok (ledger t) → (timely → punctual c t) →
  moves t (schedule_on_node c views fresh q t).1.
Proof.
  intros HR Hti. unfold schedule_on_node. apply (transaction_moves (λ t', moves t t')); [done|]. intros t' a Hs. ok_inv Hs.
  case_match eqn:Hq.
  - ok_inv Hs. rename a0 into l, a1 into row, Hok0 into Hl, Hok1 into Hrow.
    apply lock_sandbox_ok in Hrow as [Hrow _]. apply newest_succeeds in Hl as (Hsu & Hsb & _ & Hl); [|done].
    case_match eqn:Hlive; [ok_inv Hs; by simplify_eq|]. ok_inv Hs. rename a0 into t1, a1 into gen, Hok0 into Hrel, Hok1 into Hgen.
    apply ok_or_ok, checked_add_Some in Hgen as [-> _].
    destruct (size_keyed _ HR _ _ (size_lookup _ _ _ Hrow)) as [Hid _]. simpl in Hid. rewrite <-Hid in Hsb, Hsu, Hrow.
    assert (Hmid : moves t t1 ∧ succeeds (l.(le_generation) + 1) row.(s_value).(sb_id) t1.(t_leases) ∧
      (timely → ∀ i o, t1.(t_leases) !! i = Some o → o.(le_created_at) < c.(written))).
    { case_match; [|by simplify_eq]. ok_inv Hrel. injection Hrel as <-. rewrite ledger_clear_node.
      apply release_capacity_ok in Hok0 as (l' & Hl' & _ & Hg & Hls & Hm);
        [|done|by right; left|by exists l]. simplify_eq. split_and!; [done| |].
      - unfold clear_node. repeat case_match; simpl; rewrite Hls; by apply succeeds_put.
      - intros Ht. eapply (put_punctual c t l (with_status l _ _ _)); [done..|by apply Hti|]. unfold clear_node. repeat case_match; exact Hls. }
    destruct Hmid as (Hm & Hsu' & Hti'). etrans; [exact Hm|].
    eapply place_ok; [by eapply steps_refs_ok| |done..].
    by eapply steps_grow, size_lookup.
  - ok_inv Hs. rename a1 into t1, a2 into t2, Hok1 into Hins, Hok2 into Hreq.
    apply insert_sandbox_ok in Hins as (Hm & Hls & Hz & Hnone). apply insert_request_ledger in Hreq as Hreq'.
    assert (Hls2 : t2.(t_leases) = t.(t_leases)) by (rewrite <-Hls; by apply (f_equal granted) in Hreq').
    etrans; [exact Hm|]. rewrite <-Hreq'. eapply place_ok; [rewrite Hreq'; by eapply steps_refs_ok|by rewrite Hreq'| |
      rewrite Hls2; exact Hti|done].
    left. rewrite Hls2. intros i l Hl Heq. destruct (lease_sandbox _ HR _ _ Hl) as (z & Hz' & _). congruence.
Qed.

Lemma retarget_ledger tenant sandbox expired node replacement now t t' :
  retarget_assignment tenant sandbox expired node replacement now t = Ok t' →
  ledger t' = ledger t ∧ t'.(t_sandboxes) = t.(t_sandboxes).
Proof. unfold retarget_assignment. intros Hr. case_match; [by simplify_eq|]. ok_inv Hr. by simplify_eq. Qed.

Lemma highest_above tenant sandbox t i l : refs_ok (ledger t) → t.(t_leases) !! i = Some l → l.(le_sandbox_id) = sandbox →
  l.(le_tenant_id) = tenant → l.(le_generation) ≤ highest_generation tenant sandbox t.
Proof.
  intros HR Hl Hs Ht. unfold highest_generation.
  assert (Hin : l ∈ leases_where (of_sandbox tenant sandbox) t).
  { apply leases_where_elem. split; [|by exists i]. unfold of_sandbox. by rewrite Hs, Ht, !N.eqb_refl. }
  revert Hin. generalize (leases_where (of_sandbox tenant sandbox) t). clear. intros ls.
  induction ls as [|o ls IH]; [by intros ?%elem_of_nil|]. intros Hin.
  rewrite fmap_cons, foldr_cons. apply elem_of_cons in Hin as [->|Hin]; [lia|]. specialize (IH Hin). lia.
Qed.

Lemma reassign_to_ok c fresh l s p t t' a : refs_ok (ledger t) → names t l →
  (ledger t).(sizes) !! l.(le_sandbox_id) = Some (size_of s) → (timely → punctual c t) →
  reassign_to c fresh l s p t = Ok (t', a) → moves t t'.
Proof.
  intros HR (o & Ho & Hid) Hz Hti Hr. unfold reassign_to in Hr. ok_inv Hr. injection Hr as <- _.
  rename Hok into Hd, Hok0 into Hdeb, Hok1 into Hgen, Hok2 into Hins, Hok3 into Hret, Hok4 into Hrow, Hok5 into Hup, Hok6 into Hl.
  apply capacity_demand_ok in Hd as ->. apply ok_or_ok, checked_add_Some in Hgen as [-> _]. apply update_row_ok in Hup as ->.
  apply retarget_ledger in Hret as [Hret Hrs]. apply lock_sandbox_ok in Hrow as [Hrow Htn].
  apply insert_lease_ok in Hins as (-> & Hnone & Hg & Hnode & Hno). apply identity_eq in Hid as (_ & Htn' & Hsb & _).
  destruct (t.(t_nodes) !! p.1) as [n|] eqn:Hn;
    [|unfold debit_capacity in Hdeb; rewrite Hn in Hdeb; simplify_eq; destruct Hnode; simpl in *; congruence].
  eapply debit_ok in Hdeb as (n' & -> & Hb & Hfit); [|done]. cbn in Hnone, Hno.
  destruct (lease_sandbox _ HR _ _ Ho) as (z & Hz' & Hzt). rewrite Hsb in Hz'. assert (z = size_of s) as -> by congruence.
  eapply (grant_moves (new_lease fresh l.(le_tenant_id) l.(le_sandbox_id) p.1 _ _ c.(written)) (size_of s) n _ _ n'); try done.
  - by rewrite Hzt.
  - left. intros i x Hx Heq. simpl in Heq |- *. unfold highest_generation, leases_where. simpl.
    fold (leases_where (of_sandbox l.(le_tenant_id) l.(le_sandbox_id)) t).
    fold (highest_generation l.(le_tenant_id) l.(le_sandbox_id) t).
    assert (x.(le_generation) ≤ highest_generation l.(le_tenant_id) l.(le_sandbox_id) t); [|lia].
    eapply highest_above; [done..|]. destruct (lease_sandbox _ HR _ _ Hx) as (z & Hz1 & <-). rewrite Heq in Hz1. congruence.
  - etrans; [|exact Hret]. by eapply ledger_put_row.
Qed.

Lemma reassign_moves c views fresh lease busy t : refs_ok (ledger t) → (timely → punctual c t) →
  moves t (reassign_expired_lease c views fresh lease busy t).1.
Proof.
  intros HR Hti. unfold reassign_expired_lease. apply (transaction_moves (λ t', moves t t')); [done|]. intros t' a Hs.
  case_match eqn:Hl; [|by simplify_eq]. case_match; [by simplify_eq|]. ok_inv Hs. rename a0 into row, Hok into Hrow.
  apply lock_sandbox_ok in Hrow as [Hrow _]. case_match; [by simplify_eq|]. ok_inv Hs. rename a0 into t1, Hok into Hrel, Hok0 into Hsel.
  assert (Hn : names t w) by (apply names_here; eauto). destruct (lease_keyed _ HR _ _ Hl) as [Hid _].
  assert (Hmid : moves t t1 ∧ (timely → punctual c t1)).
  { destruct (is_active w) eqn:Hact.
    - apply release_capacity_ok in Hrel as (l' & Hl' & _ & _ & Hls & Hm); [|done|by right; left|done]. split; [done|].
      rewrite Hid in Hl'. simplify_eq. intros Ht i o. eapply (put_punctual c t w (with_status w _ _ _)); [done|done|by apply Hti|exact Hls].
    - injection Hrel as <-. rewrite ledger_clear_node. split; [done|]. intros Ht. unfold clear_node. repeat case_match; by apply Hti. }
  destruct Hmid as [Hm Hti1]. case_match; [|by simplify_eq]. etrans; [exact Hm|].
  eapply reassign_to_ok; [by eapply steps_refs_ok|by eapply names_moves| |done..]. eapply steps_grow; [done|]. by apply size_lookup.
Qed.

Lemma leases_of_elem p limit locked t l : l ∈ leases_of p limit locked t →
  (∃ i, t.(t_leases) !! i = Some l) ∧
  ∃ row, t.(t_sandboxes) !! l.(le_sandbox_id) = Some row ∧ p l row.(s_value).(sb_state) = true.
Proof.
  unfold leases_of. intros (i & Hl%list_elem_of_lookup_2 & _)%elem_of_take.
  rewrite sort_by_perm, list_elem_of_filter in Hl. destruct Hl as [_ Hl]. apply leases_where_elem in Hl as [Hp Hl]. split; [done|]. case_match; [eauto|done].
Qed.

Lemma reconcile_all_ok now rows acc t t' acts : refs_ok (ledger t) → Forall (names t) rows →
  reconcile_all now rows acc t = Ok (t', acts) → moves t t'.
Proof.
  revert acc t. induction rows as [|l rows IH]; intros acc t HR Hn Hr; simpl in Hr; [by simplify_eq|].
  apply Forall_cons in Hn as [Hl Hn]. ok_inv Hr. case_match; [by eapply IH|]. ok_inv Hr. rename a0 into t1, Hok0 into Hrel.
  apply release_capacity_ok in Hrel as (_ & _ & _ & _ & _ & Hm); [|done|by right; left|done].
  etrans; [exact Hm|]. eapply IH in Hr; [exact Hr|by eapply steps_refs_ok|].
  eapply Forall_impl; [exact Hn|]. intros o Ho. by eapply (names_moves t t1).
Qed.

Lemma release_all_ok now rows acc t t' r : refs_ok (ledger t) → Forall (names t) rows →
  release_all now rows acc t = Ok (t', r) → moves t t'.
Proof.
  revert acc t. induction rows as [|l rows IH]; intros acc t HR Hn Hr; cbn [release_all] in Hr; [by simplify_eq|].
  apply Forall_cons in Hn as [Hl Hn]. destruct (release_capacity _ _ _ _ t) as [t1|e] eqn:Hrel.
  - apply release_capacity_ok in Hrel as (_ & _ & _ & _ & _ & Hm); [|done|by left|done].
    etrans; [exact Hm|]. eapply IH in Hr; [exact Hr|by eapply steps_refs_ok|].
    eapply Forall_impl; [exact Hn|]. intros o Ho. by eapply (names_moves t t1).
  - destruct e; try done. by eapply IH.
Qed.

Lemma leases_of_named p limit locked t : refs_ok (ledger t) → Forall (names t) (leases_of p limit locked t).
Proof. intros HR. apply Forall_forall. intros l [Hl _]%leases_of_elem. by apply names_here. Qed.

Lemma renew_moves t l ttl now : t.(t_leases) !! l.(le_id) = Some l → is_active l = true → now < l.(le_expires_at) →
  moves t (put_lease (renewed l ttl now) t).
Proof. intros Hl Ha He. apply rtc_once. by apply (Renew _ _ (ledger t) l ttl now). Qed.

Lemma ledger_mark_assigned now k t : ledger (mark_assigned now k t) = ledger t.
Proof. unfold mark_assigned. by repeat case_match. Qed.

Lemma claim_all_ok now ttl rows acc t t' r : refs_ok (ledger t) → claim_all now ttl rows acc t = Ok (t', r) → moves t t'.
Proof.
  revert acc t. induction rows as [|[k a] rows IH]; intros acc t HR Hr; cbn [claim_all] in Hr; [by simplify_eq|].
  destruct (t.(t_leases) !! _) as [l|] eqn:Hl; [|by eapply IH]. destruct (is_active l && _) eqn:Ha; [|by eapply IH]. ok_inv Hr.
  bools. destruct (lease_keyed _ HR _ _ Hl) as [Hid _]. rewrite <-Hid in Hl.
  assert (Hm : moves t (put_lease (renewed l ttl now) t)) by (apply renew_moves; [done..|lia]).
  etrans; [exact Hm|]. apply IH in Hr; rewrite ledger_mark_assigned in *; [done|by eapply steps_refs_ok].
Qed.

Lemma delete_moves now tenant id t : refs_ok (ledger t) → moves t (delete_sandbox now tenant id t).1.
Proof.
  intros HR. unfold delete_sandbox. apply (transaction_moves (λ t', moves t t')); [done|]. intros t' a Hd. ok_inv Hd.
  rename a1 into t1, Hok0 into Hrel. assert (Hm : moves t t1).
  { destruct (newest _) eqn:Hn; [|by simplify_eq]. apply newest_where in Hn as [_ Hl].
    apply release_capacity_ok in Hrel as (_ & _ & _ & _ & _ & ?); [done|done|by left|by apply names_here]. }
  case_match; [by simplify_eq|]. ok_inv Hd. simplify_eq. apply lock_sandbox_ok in Hok0 as [Hrow _].
  apply update_row_ok in Hok1 as ->. by erewrite ledger_put_row.
Qed.

Lemma release_lease_moves now tenant id gen reason t : refs_ok (ledger t) →
  moves t (release_worker_lease now tenant id gen reason t).1.
Proof.
  intros HR. unfold release_worker_lease. apply (transaction_moves (λ t', moves t t')); [done|]. intros t' a Hd. ok_inv Hd.
  case_match; [ok_inv Hd; by simplify_eq|]. ok_inv Hd. simplify_eq.
  unfold get_worker_lease in Hok. case_match eqn:Hl; [|done]. ok_inv Hok. simplify_eq.
  apply release_capacity_ok in Hok0 as (_ & _ & _ & _ & _ & ?); [done|done|by left|]. apply names_here; eauto.
Qed.

Lemma complete_moves now wall tenant id gen v t : refs_ok (ledger t) →
  moves t (complete_worker_lease now wall tenant id gen v t).1.
Proof.
  intros HR. unfold complete_worker_lease. apply (transaction_moves (λ t', moves t t')); [done|]. intros t' a Hd. ok_inv Hd.
  case_match; [ok_inv Hd; by simplify_eq|]. ok_inv Hd. simplify_eq. bools.
  unfold get_worker_lease in Hok. case_match eqn:Hl; [|done]. ok_inv Hok. simplify_eq.
  destruct (lease_keyed _ HR _ _ Hl) as [Hid _]. rewrite <-Hid in Hl. apply rtc_once. by apply (Complete _ _ (ledger t) a0 (Some (value_text v)) now).
Qed.

Lemma renew_lease_moves now tenant id gen ttl t : refs_ok (ledger t) → moves t (renew_worker_lease now tenant id gen ttl t).1.
Proof.
  intros HR. unfold renew_worker_lease. apply (transaction_moves (λ t', moves t t')); [done|]. intros t' a Hd. ok_inv Hd.
  case_match eqn:Hc; [|done]. ok_inv Hd. simplify_eq. bools.
  unfold get_worker_lease in Hok. case_match eqn:Hl; [|done]. ok_inv Hok. simplify_eq.
  destruct (lease_keyed _ HR _ _ Hl) as [Hid _]. rewrite <-Hid in Hl. apply renew_moves; [done..|lia].
Qed.

(** The worker a registration names restates no total below what it has in use. *)
Definition keeps_promises (value : WorkerRegistration) (before t : Tables) : Prop :=
  ∀ n, t.(t_nodes) !! default value.(wr_node_id) (head (named value.(wr_name) before.(t_nodes))) = Some n →
    ∀ r, amount r n.(n_total) - amount r n.(n_available) ≤ amount r value.(wr_total).

Lemma storable_available n : node_storable n = true → ∀ r, 0 ≤ amount r n.(n_available) ≤ amount r n.(n_total).
Proof.
  unfold node_storable, capacity_storable. intros Hs. bools.
  repeat match goal with H : cap_all Z.leb _ _ = true |- _ => rewrite cap_leb_spec in H end.
  intros r. split; [|done]. rewrite <-(amount_none r). done.
Qed.

Lemma put_registered_moves id value t : node_storable (registered value (t.(t_nodes) !! id)) = true →
  (∀ r, amount r value.(wr_total) ≤ amount r widths) → (kept → ∀ n, t.(t_nodes) !! id = Some n → ∀ r,
    amount r n.(n_total) - amount r n.(n_available) ≤ amount r value.(wr_total)) →
  moves t (put_node id (registered value (t.(t_nodes) !! id)) t).
Proof.
  intros Hst Hmax Hk. pose proof (storable_available _ Hst) as Hav.
  assert (Hw : within_widths value.(wr_total)) by (intros r; specialize (Hmax r); specialize (Hav r); simpl in Hav; lia).
  apply rtc_once. unfold ledger at 2. simpl. rewrite fmap_insert.
  destruct (t.(t_nodes) !! id) as [n|] eqn:Hn.
  - apply (Restate _ _ (ledger t) id (book_of n) value.(wr_total)); [by apply book_lookup|done|]. intros Hkept. by apply Hk.
  - apply (Join _ _ (ledger t) id value.(wr_total) value.(wr_available)); [|done..]. simpl. by rewrite lookup_fmap, Hn.
Qed.

Lemma register_moves value blank before t : refs_ok (ledger t) → (kept → keeps_promises value before t) →
  moves t (register_worker value blank before t).1.
Proof.
  intros HR Hk. unfold register_worker. apply (transaction_moves (λ t', moves t t')); [done|]. intros t' a Hd. ok_inv Hd.
  injection Hd as <- _. rename Hok into Hput.
  apply orb_false_iff in Hif3 as [Hwd _]. apply negb_false_iff in Hif2, Hwd. rewrite cap_leb_spec in Hif2, Hwd.
  set (id := default _ _) in Hput.
  assert (Hgo : a0 = t ∨
    node_storable (registered value (t.(t_nodes) !! id)) = true ∧ a0 = put_node id (registered value (t.(t_nodes) !! id)) t).
  { destruct (t.(t_nodes) !! id) as [n|]; [case_match|]; ok_inv Hput; simplify_eq; [right|by left|right];
      apply orb_false_iff in Hif3 as [_ ?%negb_false_iff]; done. }
  destruct Hgo as [->|[Hst ->]]; [done|]. by apply put_registered_moves.
Qed.

Lemma create_moves v t : moves t (create_sandbox v t).1.
Proof.
  apply (transaction_moves (λ t', moves t t')); [done|]. intros t' a Hc. ok_inv Hc. simplify_eq. by eapply insert_sandbox_ok.
Qed.

Lemma create_idempotent_moves tenant request v t : moves t (create_sandbox_idempotent tenant request v t).1.
Proof.
  apply (transaction_moves (λ t', moves t t')); [done|]. intros t' a Hc. ok_inv Hc. case_match; ok_inv Hc; simplify_eq; [done|].
  apply insert_request_ledger in Hok1 as ->. by eapply insert_sandbox_ok.
Qed.

Lemma create_attempt_moves run attempt v required t : moves t (create_attempt_sandbox run attempt v required t).1.
Proof.
  apply (transaction_moves (λ t', moves t t')); [done|]. intros t' a Hc. ok_inv Hc. simplify_eq.
  apply link_ledger in Hok2 as ->. by eapply insert_sandbox_ok.
Qed.

Lemma transition_ledger wall row expected next path t t' v id : refs_ok (ledger t) → t.(t_sandboxes) !! id = Some row →
  apply_state_transition wall row expected next path t = Ok (t', v) → ledger t' = ledger t.
Proof.
  intros HR Hrow Ha. eapply apply_transition_ok in Ha as [->|(row' & -> & _ & _ & Hz & _)]; [done|by eapply ledger_put_row|done..].
Qed.

Lemma update_state_moves wall tenant id expected next path t : refs_ok (ledger t) →
  moves t (update_state wall tenant id expected next path t).1.
Proof.
  intros HR. apply (transaction_moves (λ t', moves t t')); [done|]. intros t' a Hc. ok_inv Hc.
  apply lock_sandbox_ok in Hok as [Hrow _]. by eapply transition_ledger in Hc as ->.
Qed.

Lemma update_with_lease_moves c tenant id expected next lease gen t : refs_ok (ledger t) →
  moves t (update_state_with_lease c tenant id expected next lease gen t).1.
Proof.
  intros HR. apply (transaction_moves (λ t', moves t t')); [done|]. intros t' a Hc. ok_inv Hc.
  apply lock_sandbox_ok in Hok as [Hrow _]. case_match; [|done]. ok_inv Hc.
  destruct (apply_state_transition _ _ _ _ _ t) as [[t1 v]|] eqn:Ha; [|done]. simplify_eq.
  by eapply transition_ledger in Ha as ->.
Qed.

Lemma mark_quarantined_moves wall wall' tenant id fence budgeted t :
  moves t (mark_guard_quarantined wall wall' tenant id fence budgeted t).1.
Proof.
  apply (transaction_moves (λ t', moves t t')); [done|]. intros t' a Hc. cbv zeta in Hc. ok_inv Hc.
  apply lock_sandbox_ok in Hok as [Hrow _]. case_match; [by simplify_eq|].
  destruct (update_row _ _ _ t) eqn:Hup; [|done]. simplify_eq. apply update_row_ok in Hup as ->. by erewrite ledger_put_row.
Qed.

Lemma release_quarantine_moves now tenant id identified t : moves t (release_guard_quarantine now tenant id identified t).1.
Proof.
  apply (transaction_moves (λ t', moves t t')); [done|]. intros t' a Hc. cbv zeta in Hc. ok_inv Hc. simplify_eq.
  apply map_err_ok, lock_sandbox_ok in Hok as [Hrow _]. apply update_row_ok in Hok0 as ->. by erewrite ledger_put_row.
Qed.

Lemma reconcile_moves now locked limit t : refs_ok (ledger t) → moves t (reconcile_expired_leases now locked limit t).1.
Proof.
  intros HR. apply (transaction_moves (λ t', moves t t')); [done|]. intros t' a Hc.
  eapply reconcile_all_ok; [done| |exact Hc]. by apply leases_of_named.
Qed.

Lemma release_orphans_moves now locked limit t : refs_ok (ledger t) → moves t (release_orphaned_leases now locked limit t).1.
Proof.
  intros HR. apply (transaction_moves (λ t', moves t t')); [done|]. intros t' a Hc.
  eapply release_all_ok; [done| |exact Hc]. by apply leases_of_named.
Qed.

Lemma claim_moves now node limit ttl before locked taken t : refs_ok (ledger t) →
  moves t (claim_worker_assignments now node limit ttl before locked taken t).1.
Proof.
  intros HR. apply (transaction_moves (λ t', moves t t')); [done|]. intros t' a Hc. cbv zeta in Hc. ok_inv Hc.
  do 3 (case_match; [by simplify_eq|]). by eapply claim_all_ok.
Qed.

Lemma scheduler_release_moves now tenant sandbox before t : refs_ok (ledger t) →
  moves t (scheduler_release now tenant sandbox before t).1.
Proof.
  intros HR. unfold scheduler_release. destruct (newest _) as [l|]; [|done].
  pose proof (release_lease_moves now tenant l.(le_id) l.(le_generation) "released through scheduler" t HR) as Hm.
  by destruct (release_worker_lease _ _ _ _ _ t).
Qed.

Lemma heartbeat_moves now h t : moves t (heartbeat_worker now h t).1.
Proof.
  apply (transaction_moves (λ t', moves t t')); [done|]. intros t' a Hc. cbv zeta in Hc. ok_inv Hc. case_match eqn:Hn; [|done]. ok_inv Hc.
  simplify_eq. by erewrite ledger_put_node.
Qed.

Lemma drain_moves node draining reason long t : moves t (set_worker_draining node draining reason long t).1.
Proof.
  apply (transaction_moves (λ t', moves t t')); [done|]. intros t' a Hc. cbv zeta in Hc. ok_inv Hc. simplify_eq.
  apply ok_or_ok in Hok. by erewrite ledger_put_node.
Qed.

Definition punctual_op (o : op) (t : Tables) : Prop :=
  match o with Schedule c _ _ _ | Reassign c _ _ _ _ => punctual c t | _ => True end.

Definition promising_op (o : op) (t : Tables) : Prop :=
  match o with Register value _ before => keeps_promises value before t | _ => True end.

(** Every operation implements entries of the ledger. *)
Lemma perform_refines o t : refs_ok (ledger t) → (kept → promising_op o t) → (timely → punctual_op o t) → moves t (perform o t).
Proof.
  intros HR Hk Hti. destruct o; [
    apply create_moves|apply create_idempotent_moves|apply create_attempt_moves|by apply update_state_moves
    |by apply update_with_lease_moves|by apply delete_moves|apply mark_quarantined_moves|apply release_quarantine_moves
    |by apply schedule_moves|by apply reassign_moves|by apply reconcile_moves|by apply release_orphans_moves
    |by apply claim_moves|by apply renew_lease_moves|by apply complete_moves|by apply release_lease_moves
    |by apply scheduler_release_moves|by apply register_moves|apply heartbeat_moves|apply drain_moves|done].
Qed.

End Refinement.

(** *** Reachable tables *)
Definition empty_tables (tenants : gset Uuid) (quotas : gmap Uuid Quota.QuotaLimits) (runs : RunStore.Database) : Tables := {|
  t_tenants := tenants; t_quotas := quotas; t_sandboxes := ∅; t_nodes := ∅; t_leases := ∅; t_requests := ∅;
  t_assignments := ∅; t_actions := ∅; t_runs := runs |}.

Inductive reachable (kept timely : Prop) : Tables → Prop :=
| reach_empty ts qs rs : reachable kept timely (empty_tables ts qs rs)
| reach_step o t : reachable kept timely t → (kept → promising_op o t) → (timely → punctual_op o t) →
    reachable kept timely (perform o t).

Context {HL : HeapLaws HH}.

Lemma empty_refs_ok ts qs rs : refs_ok (ledger (empty_tables ts qs rs)).
Proof. split; intros i; intros; simpl in *; rewrite ?fmap_empty, ?lookup_empty in *; done. Qed.

Lemma reachable_refs_ok kept timely t : reachable kept timely t → refs_ok (ledger t).
Proof.
  induction 1 as [|o t Ht IH Hk Hti]; [apply empty_refs_ok|]. eapply steps_refs_ok; [done|]. by apply perform_refines.
Qed.

Lemma reachable_balanced timely t : reachable True timely t → balanced (ledger t).
Proof.
  induction 1 as [|o t Ht IH Hk Hti]; [intros i b; simpl; by rewrite fmap_empty, lookup_empty|].
  pose proof (reachable_refs_ok _ _ _ Ht) as HR. eapply steps_balanced; [done..|]. by apply perform_refines.
Qed.

Lemma reachable_ordered kept t : reachable kept True t → ordered t.(t_leases).
Proof.
  induction 1 as [|o t Ht IH Hk Hti]; [intros i j l l' Hl; simpl in Hl; by rewrite lookup_empty in Hl|].
  pose proof (reachable_refs_ok _ _ _ Ht) as HR. apply (steps_ordered kept (ledger t) (ledger (perform o t))); [done|]. by apply perform_refines.
Qed.

Lemma run_moves ops t : refs_ok (ledger t) → lsteps False False (ledger t) (ledger (run ops t)).
Proof.
  revert t. induction ops as [|o ops IH]; intros t HR; [done|]. simpl.
  assert (Hm : lsteps False False (ledger t) (ledger (perform o t))) by (by apply perform_refines).
  etrans; [exact Hm|]. apply IH. by eapply steps_refs_ok.
Qed.

Lemma reachable_steps kept timely t : reachable kept timely t →
  ∃ ts qs rs, lsteps kept timely (ledger (empty_tables ts qs rs)) (ledger t).
Proof.
  induction 1 as [ts qs rs|o t Ht (ts & qs & rs & IH) Hk Hti]; [by exists ts, qs, rs|]. exists ts, qs, rs. etrans; [exact IH|].
  pose proof (reachable_refs_ok _ _ _ Ht) as HR. by apply perform_refines.
Qed.


(** when the clock of a placement is ahead of the leases there are: the lease that owns a
    sandbox was created after every other lease of it and carries a higher generation. *)
Theorem owner_has_highest_generation t i j l l' : reachable False True t → t.(t_leases) !! i = Some l →
  t.(t_leases) !! j = Some l' → i ≠ j → l.(le_sandbox_id) = l'.(le_sandbox_id) → is_active l = true →
  l'.(le_generation) < l.(le_generation) ∧ l'.(le_created_at) < l.(le_created_at) ∧ is_active l' = false.
Proof.
  intros Ht Hl Hl' Hij Hs Ha. destruct (reachable_ordered _ _ Ht _ _ _ _ Hl Hl' Hij Hs) as [(_ & _ & ?)|(? & ? & ?)];
    [congruence|done].
Qed.

(** *** A lease that is lost *)
Lemma transaction_refused {A} t (r : result LeaseError.t (Tables * A)) :
  (∀ p, r ≠ Ok p) → is_ok (transaction t r).2 = false.
Proof. intros Hr. destruct r as [[t' a]|e]; [by destruct (Hr (t', a))|done]. Qed.

Lemma get_worker_lease_ok tenant id t l : get_worker_lease tenant id t = Ok l → t.(t_leases) !! id = Some l.
Proof. unfold get_worker_lease. intros Hg. case_match; [|done]. ok_inv Hg. by simplify_eq. Qed.

Lemma active_lease_ok now tenant sandbox t l : refs_ok (ledger t) → active_lease now tenant sandbox t = Some l →
  t.(t_leases) !! l.(le_id) = Some l ∧ is_active l = true ∧ of_sandbox tenant sandbox l = true ∧ now < l.(le_expires_at).
Proof.
  intros HR [Hp [i Hl]]%newest_where. destruct (lease_keyed _ HR _ _ Hl) as [<- _]. bools. split_and!; [done..|lia].
Qed.

Lemma final_completed l : is_final l = true → l.(le_status) ≠ "completed"%string.
Proof. intros Hf Hc. apply final_not_held in Hf. unfold is_held in Hf. rewrite Hc in Hf. done. Qed.

Section Lost.
Context (t : Tables) (id : Uuid) (l : WorkerLease).
Context (HR : refs_ok (ledger t)) (Hl : t.(t_leases) !! id = Some l) (Hf : is_final l = true).

Lemma lost_not_active i o : t.(t_leases) !! i = Some o → is_active o = true → i ≠ id.
Proof. intros Ho Ha ->. simplify_eq. by rewrite (final_not_active _ Hf) in Ha. Qed.

Lemma lost_renew now tenant gen ttl : is_ok (renew_worker_lease now tenant id gen ttl t).2 = false.
Proof.
  apply transaction_refused. intros p Hp. ok_inv Hp. apply get_worker_lease_ok in Hok. simplify_eq.
  rewrite (final_not_active _ Hf), andb_false_r in Hp. done.
Qed.

Lemma lost_complete now wall tenant gen v : is_ok (complete_worker_lease now wall tenant id gen v t).2 = false.
Proof.
  apply transaction_refused. intros p Hp. ok_inv Hp. apply get_worker_lease_ok in Hok. simplify_eq.
  rewrite bool_decide_eq_false_2 in Hp by (by apply final_completed). ok_inv Hp. by rewrite (final_not_active _ Hf) in Hif0.
Qed.

Lemma lost_update c tenant sandbox expected next gen :
  is_ok (update_state_with_lease c tenant sandbox expected next id gen t).2 = false.
Proof.
  apply transaction_refused. intros p Hp. ok_inv Hp. case_match eqn:Ha; [|done]. ok_inv Hp. bools.
  apply active_lease_ok in Ha as (Hw & Ha & _); [|done]. apply N.eqb_eq in Hif. by apply (lost_not_active _ _ Hw Ha).
Qed.

Lemma lost_quarantine wall wall' tenant sandbox fence budgeted : fence.(lease_id) = id →
  is_ok (mark_guard_quarantined wall wall' tenant sandbox fence budgeted t).2 = false.
Proof.
  intros Hfe. apply transaction_refused. intros p Hp. cbv zeta in Hp. ok_inv Hp. apply ok_or_ok, head_Some_elem_of in Hok0.
  apply list_elem_of_filter in Hok0 as [(_ & _ & Ha) Hin]. apply list_elem_of_fmap in Hin as ([i o] & -> & Ho%elem_of_map_to_list).
  clear Hp Hif0 Hif1. apply negb_false_iff in Hif. unfold validate_fence in Hif. case_match eqn:Hv; [done|]. bools. simpl in *.
  rewrite N.eqb_eq in *. destruct (lease_keyed _ HR _ _ Ho) as [Hi _].
  apply (lost_not_active _ _ Ho); [by apply bool_decide_eq_true|congruence].
Qed.

Lemma lost_dispatch now tenant sandbox d : dispatch_target now tenant sandbox t = Ok d → d.(wd_lease_id) ≠ id.
Proof.
  unfold dispatch_target. intros Hd. case_match eqn:Hn; [|done]. ok_inv Hd. simplify_eq. simpl.
  apply newest_where in Hn as [Hp [i Hi]]. bools. destruct (lease_keyed _ HR _ _ Hi) as [<- _]. by eapply lost_not_active.
Qed.

End Lost.

Lemma lost_claims now ttl id l rows acc t t' r : refs_ok (ledger t) → t.(t_leases) !! id = Some l → is_final l = true →
  claim_all now ttl rows acc t = Ok (t', r) → Forall (λ w, w.(wa_lease).(le_id) ≠ id) acc →
  Forall (λ w, w.(wa_lease).(le_id) ≠ id) r.
Proof.
  revert acc t. induction rows as [|[k a] rows IH]; intros acc t HR Hl Hf Hr Hacc; cbn [claim_all] in Hr; [by simplify_eq|].
  destruct (t.(t_leases) !! a.(as_lease_id)) as [o|] eqn:Ho; [|by eapply IH].
  destruct (is_active o && _) eqn:Ha; [|by eapply IH]. ok_inv Hr. bools.
  destruct (lease_keyed _ HR _ _ Ho) as [Hid _]. rewrite <-Hid in Ho.
  assert (Hne : o.(le_id) ≠ id) by (by eapply (lost_not_active t id l)).
  assert (Hm : lsteps False False (ledger t) (ledger (put_lease (renewed o ttl now) t))) by (apply renew_moves; [done..|lia]).
  pose proof (ledger_mark_assigned now k (put_lease (renewed o ttl now) t)) as Hmark.
  eapply IH; [| |done|exact Hr|].
  - rewrite Hmark. by eapply steps_refs_ok.
  - apply (f_equal granted) in Hmark. simpl in Hmark. rewrite Hmark. by rewrite lookup_insert_ne.
  - apply Forall_app_2; [done|]. by repeat constructor.
Qed.

(** C10: a lease that was released or expired is lost for good.  Whatever is done afterwards, its
    row stays as it is, and no call in its name succeeds: it cannot be renewed or completed, it
    changes no state, it quarantines nothing, no dispatch and no claim names it. *)
Theorem lost_lease_is_fenced ops t id l : reachable False False t → t.(t_leases) !! id = Some l → is_final l = true →
  let t' := run ops t in
  t'.(t_leases) !! id = Some l
  ∧ (∀ now tenant gen ttl, is_ok (renew_worker_lease now tenant id gen ttl t').2 = false)
  ∧ (∀ now wall tenant gen v, is_ok (complete_worker_lease now wall tenant id gen v t').2 = false)
  ∧ (∀ c tenant sandbox expected next gen, is_ok (update_state_with_lease c tenant sandbox expected next id gen t').2 = false)
  ∧ (∀ wall wall' tenant sandbox fence budgeted, fence.(lease_id) = id →
       is_ok (mark_guard_quarantined wall wall' tenant sandbox fence budgeted t').2 = false)
  ∧ (∀ now tenant sandbox d, dispatch_target now tenant sandbox t' = Ok d → d.(wd_lease_id) ≠ id)
  ∧ (∀ now node limit ttl before locked taken ws,
       (claim_worker_assignments now node limit ttl before locked taken t').2 = Ok ws →
       Forall (λ w, w.(wa_lease).(le_id) ≠ id) ws).
Proof.
  intros Ht Hl Hf t'. pose proof (reachable_refs_ok _ _ _ Ht) as HR. pose proof (run_moves ops t HR) as Hm.
  pose proof (steps_refs_ok _ _ _ _ HR Hm) as HR'.
  destruct (steps_follow _ _ _ _ _ _ Hm Hl) as (l' & Hl' & Hfo). rewrite (follows_final _ _ Hfo Hf) in Hl'.
  split_and!; [done|intros; by eapply lost_renew|intros; by eapply lost_complete|intros; by eapply lost_update
    |intros; by eapply lost_quarantine|intros; by eapply lost_dispatch|].
  intros now node limit ttl before locked taken ws Hc. unfold claim_worker_assignments in Hc.
  destruct (negb (ttl_valid ttl)); [done|]. destruct (negb (accepts node before)); [simpl in Hc; by simplify_eq|].
  cbv zeta in Hc. destruct (bool_decide (_ = [])); [simpl in Hc; by simplify_eq|].
  destruct (negb (accepts node _)); [simpl in Hc; by simplify_eq|].
  destruct (claim_all _ _ _ _ _) as [[t1 r]|] eqn:Hcl; simpl in Hc; simplify_eq. by eapply lost_claims.
Qed.

(** *** The sweep of expired leases *)
Definition states (t : Tables) : gmap Uuid SandboxState := (λ row, row.(s_value).(sb_state)) <$> t.(t_sandboxes).

Lemma states_put_row id row row' t : t.(t_sandboxes) !! id = Some row →
  row'.(s_value).(sb_state) = row.(s_value).(sb_state) → states (put_row id row' t) = states t.
Proof. intros Hr Hs. unfold states. simpl. rewrite fmap_insert, Hs. apply insert_id. by rewrite lookup_fmap, Hr. Qed.

Lemma states_clear_node now tenant id node t : states (clear_node now tenant id node t) = states t.
Proof. unfold clear_node. case_match eqn:Hr; [|done]. case_match; [|done]. by eapply states_put_row. Qed.

Lemma credit_states id d t t' : credit_capacity id d t = Ok t' → states t' = states t ∧ t'.(t_leases) = t.(t_leases).
Proof. unfold credit_capacity. intros Hc. case_match; ok_inv Hc; by simplify_eq. Qed.

Lemma debit_states id d t t' : debit_capacity id d t = Ok t' → states t' = states t ∧ t'.(t_leases) = t.(t_leases).
Proof. unfold debit_capacity. intros Hc. case_match; ok_inv Hc; by simplify_eq. Qed.

Lemma release_states now c status reason t t' : release_capacity now c status reason t = Ok t' →
  states t' = states t ∧ ∃ l, t.(t_leases) !! c.(le_id) = Some l ∧
    t'.(t_leases) = <[l.(le_id) := with_status l status (Some reason) now]> t.(t_leases).
Proof.
  unfold release_capacity. intros Hr. ok_inv Hr. injection Hr as <-. apply ok_or_ok in Hok.
  apply credit_states in Hok2 as [Hs Hl]. split; [|exists a; split; [done|]].
  - etrans; [apply (states_clear_node now)|exact Hs].
  - unfold clear_node. repeat case_match; exact Hl.
Qed.

Lemma credit_succeeds id d t n : t.(t_nodes) !! id = Some n → within_widths n.(n_total) →
  (∀ r, 0 ≤ amount r d ∧ 0 ≤ amount r n.(n_available) ∧ amount r n.(n_available) + amount r d ≤ amount r n.(n_total)) →
  ∃ t', credit_capacity id d t = Ok t'.
Proof.
  intros Hn Hw Hd. unfold credit_capacity. rewrite Hn. cbv zeta.
  assert (cap_all Z.leb (cap_map Z.add n.(n_available) d) widths = true) as ->.
  { apply cap_leb_spec. intros r. rewrite amount_map. specialize (Hd r). specialize (Hw r). lia. }
  assert (capacity_storable (with_capacity n (cap_map Z.min n.(n_total) (cap_map Z.add n.(n_available) d))
    (Z.max 0 (n.(n_sandbox_count) - 1))) = true) as ->; [|by eexists].
  unfold capacity_storable. simpl. rewrite !andb_true_iff, !cap_leb_spec. split_and!; [intros r|intros r|lia];
    rewrite !amount_map, ?amount_none; specialize (Hd r); lia.
Qed.

Lemma release_actions now c status reason t t' : release_capacity now c status reason t = Ok t' → t'.(t_actions) = t.(t_actions).
Proof.
  unfold release_capacity. intros Hr. ok_inv Hr. injection Hr as <-.
  assert (Ha : a2.(t_actions) = t.(t_actions)) by (unfold credit_capacity in Hok2; case_match; ok_inv Hok2; by simplify_eq).
  unfold clear_node. repeat case_match; exact Ha.
Qed.

(** A held lease can always be settled. *)
Lemma release_succeeds now l status reason t : refs_ok (ledger t) → balanced (ledger t) → t.(t_leases) !! l.(le_id) = Some l →
  is_held l = true → ∃ t', release_capacity now l status reason t = Ok t'.
Proof.
  intros HR HB Hl Hh. unfold release_capacity. rewrite Hl. cbn [ok_or]. rewrite Hh, Z.eqb_refl. cbv zeta. cbn [negb orb].
  destruct (lease_sandbox _ HR _ _ Hl) as (z & Hz & Ht), (lease_node _ HR _ _ Hl) as [b Hb].
  pose proof (held_used (Uses Vcpus) _ _ _ HR Hl Hh Hz) as _. pose proof (proj2 (size_keyed _ HR _ _ Hz)) as Hv.
  assert (Hu : ∀ r, amount r (demand_of z) ≤ amount r b.(b_total) - amount r b.(b_available)).
  { intros r. pose proof (held_used (Uses r) _ _ _ HR Hl Hh Hz). destruct (HB _ _ Hb) as [H1 _]. specialize (H1 r). simpl in *. lia. }
  destruct (book_ok _ HR _ _ Hb) as [Hw Hav]. simpl in Hz, Hb. rewrite lookup_fmap in Hz. rewrite lookup_fmap in Hb.
  apply fmap_Some in Hz as (row & Hrow & ->), Hb as (n & Hn & ->). simpl in *.
  unfold fetch_sandbox, lock_sandbox. simpl. rewrite Hrow, Ht, N.eqb_refl. simpl. rewrite capacity_demand_valid by done.
  destruct (credit_succeeds l.(le_node_id) (demand_of (size_of row.(s_value)))
    (put_lease (with_status l status (Some reason) now) t) n) as [t' ->]; [done|done| |by eexists].
  intros r. specialize (Hu r). specialize (Hav r). pose proof (demand_nonneg _ r Hv). lia.
Qed.

Definition due (now : Instant) (l : WorkerLease) (state : SandboxState) : bool :=
  is_active l && (l.(le_expires_at) <=? now) && swept state.

Lemma state_lookup t id st : states t !! id = Some st → ∃ row, t.(t_sandboxes) !! id = Some row ∧ row.(s_value).(sb_state) = st.
Proof. unfold states. rewrite lookup_fmap, fmap_Some. naive_solver. Qed.

(** What the loop asks of the leases it is given. *)
Record sweepable (t : Tables) (rows : list WorkerLease) : Prop := {
  sw_here : ∀ l, l ∈ rows → t.(t_leases) !! l.(le_id) = Some l ∧ is_held l = true;
  sw_swept : ∀ l, l ∈ rows → ∃ st, states t !! l.(le_sandbox_id) = Some st ∧ swept st = true;
  sw_distinct : NoDup (le_id <$> rows) }.

Lemma reconcile_all_total now rows acc t : refs_ok (ledger t) → balanced (ledger t) → sweepable t rows →
  ∃ t' acts, reconcile_all now rows acc t = Ok (t', acc ++ acts) ∧ length acts = length rows ∧
    (∀ l, l ∈ rows → t'.(t_leases) !! l.(le_id) = Some (with_status l "expired" (Some "lease expired"%string) now)) ∧
    (∀ i, i ∉ le_id <$> rows → t'.(t_leases) !! i = t.(t_leases) !! i) ∧
    Forall2 (λ l a, t'.(t_actions) !! (l.(le_id), l.(le_generation)) = Some a) rows acts ∧
    (∀ k, k.1 ∉ le_id <$> rows → t'.(t_actions) !! k = t.(t_actions) !! k).
Proof.
  revert acc t. induction rows as [|l rows IH]; intros acc t HR HB [Hh Hs Hd].
  { exists t, []. rewrite app_nil_r. split_and!; [done|done|by intros l ?%elem_of_nil|done|done|done]. }
  rewrite fmap_cons, NoDup_cons in Hd. destruct Hd as [Hnin Hd].
  destruct (Hh l ltac:(left)) as [Hl Hheld], (Hs l ltac:(left)) as (st & Hst & Hsw).
  destruct (state_lookup _ _ _ Hst) as (row & Hrow & Hstate), (release_succeeds now l "expired" "lease expired" t HR HB Hl Hheld) as [t1 Ht1].
  destruct (lease_sandbox _ HR _ _ Hl) as (z & Hz & Htn). rewrite (size_lookup _ _ _ Hrow) in Hz. injection Hz as <-.
  cbn [reconcile_all]. unfold lock_sandbox at 1. rewrite Hrow. simpl in Htn. rewrite Htn, N.eqb_refl. cbn [negb]. rewrite Hstate, Hsw. cbn [negb].
  rewrite Ht1. cbv zeta. pose proof (release_actions _ _ _ _ _ _ Ht1) as Hacts. destruct (release_states _ _ _ _ _ _ Ht1) as [Hst1 (l0 & Hl0 & Hls)]. simplify_eq.
  eapply (release_capacity_ok True False) in Ht1 as (_ & _ & _ & _ & _ & Hm); [|done|by right; left|by exists l].
  set (t2 := set_actions _ t1).
  destruct (IH (acc ++ [action_for l t1]) t2) as (t' & acts & He & Hlen & Hset & Hkeep & Hact & Hother); [by eapply steps_refs_ok|by eapply steps_balanced| |].
  { split; [| |done].
    - intros o Ho. simpl. rewrite Hls, lookup_insert_ne; [apply Hh; by right|]. intros Heq. apply Hnin. rewrite Heq.
      by apply list_elem_of_fmap_2.
    - intros o Ho. change (states t2) with (states t1). rewrite Hst1. apply Hs. by right. }
  exists t', (action_for l t1 :: acts). rewrite He, <-app_assoc. split_and!; [done|simpl; lia| | | |].
  - intros o [->|Ho]%elem_of_cons; [|by apply Hset]. rewrite Hkeep by done. simpl. by rewrite Hls, lookup_insert_eq.
  - intros i Hi. rewrite fmap_cons, not_elem_of_cons in Hi. destruct Hi as [Hi1 Hi2]. rewrite Hkeep by done. simpl. by rewrite Hls, lookup_insert_ne.
  - constructor; [|exact Hact]. rewrite Hother by done. apply lookup_insert_eq.
  - intros k Hk. rewrite fmap_cons, not_elem_of_cons in Hk. destruct Hk as [Hk1 Hk2]. rewrite Hother by done. simpl.
    rewrite lookup_insert_ne by (intros <-; done). by rewrite Hacts.
Qed.

(** What a page leaves out comes after everything it has, and the page is full. *)
Lemma take_sorted_rest {A} (R : A → A → Prop) n l x : StronglySorted R l → x ∈ l →
  x ∈ take n l ∨ length (take n l) = n ∧ ∀ y, y ∈ take n l → R y x.
Proof.
  intros Hs. revert n. induction Hs as [|z l Hs IH Hz]; intros n Hx; [by apply elem_of_nil in Hx|].
  destruct n as [|n]; [right; split; [done|by intros y ?%elem_of_nil]|]. cbn [take].
  apply elem_of_cons in Hx as [->|Hx]; [left; left|]. destruct (IH n Hx) as [Hn|[Hlen Hall]]; [left; by right|right].
  split; [cbn; by rewrite Hlen|]. intros y [->|Hy]%elem_of_cons; [|by apply Hall]. rewrite Forall_forall in Hz. by apply Hz.
Qed.

Lemma leases_of_due now locked limit t i l row : refs_ok (ledger t) → t.(t_leases) !! i = Some l →
  t.(t_sandboxes) !! l.(le_sandbox_id) = Some row → due now l row.(s_value).(sb_state) = true → i ∉ locked →
  l ∈ leases_of (due now) limit locked t
  ∨ length (leases_of (due now) limit locked t) = limit ∧ ∀ o, o ∈ leases_of (due now) limit locked t → o.(le_expires_at) ≤ l.(le_expires_at).
Proof.
  intros HR Hl Hrow Hdue Hlk. unfold leases_of. match goal with |- context [sort_by ?R ?L] => assert (Hin : l ∈ sort_by R L) end.
  { rewrite sort_by_perm, list_elem_of_filter. destruct (lease_keyed _ HR _ _ Hl) as [-> _]. split; [done|].
    apply leases_where_elem. rewrite Hrow. eauto. }
  eapply take_sorted_rest in Hin as [?|[Hlen Hall]]; [by left| |apply sort_by_sorted; cbn].
  - right. split; [exact Hlen|]. intros o Ho. by apply Z.leb_le, Hall.
  - intros a b. destruct (Z.leb_spec a.(le_expires_at) b.(le_expires_at)); [by left|right; apply Z.leb_le; lia].
  - intros a b c ?%Z.leb_le ?%Z.leb_le. apply Z.leb_le. lia.
Qed.

Lemma leases_of_unlocked p limit locked t l : l ∈ leases_of p limit locked t → l.(le_id) ∉ locked.
Proof.
  unfold leases_of. intros (i & Hl%list_elem_of_lookup_2 & _)%elem_of_take. rewrite sort_by_perm, list_elem_of_filter in Hl. by destruct Hl.
Qed.

Lemma leases_of_sweepable now locked limit t : refs_ok (ledger t) → sweepable t (leases_of (due now) limit locked t).
Proof.
  intros HR. split.
  - intros l [[i Hl] (row & _ & Hd)]%leases_of_elem. destruct (lease_keyed _ HR _ _ Hl) as [<- _]. split; [done|].
    unfold due in Hd. bools. by apply active_held.
  - intros l [_ (row & Hrow & Hd)]%leases_of_elem. exists row.(s_value).(sb_state). unfold states. rewrite lookup_fmap, Hrow.
    unfold due in Hd. by bools.
  - eapply (sublist_NoDup _ (le_id <$> sort_by _ _)); [|apply fmap_sublist, sublist_take]. rewrite sort_by_perm.
    eapply sublist_NoDup; [|apply fmap_sublist, sublist_filter]. unfold leases_where.
    eapply sublist_NoDup; [|apply fmap_sublist, sublist_filter]. rewrite heap_rows, <-list_fmap_compose.
    rewrite (list_fmap_ext _ fst (map_to_list t.(t_leases))); [apply NoDup_fst_map_to_list|].
    intros j [i l] Hj%list_elem_of_lookup_2%elem_of_map_to_list. simpl. by destruct (lease_keyed _ HR _ _ Hj).
Qed.

(** C23: the sweep never fails, as long as no worker restated a total below what it had in use.
    A lease is due when it is active, has expired and its sandbox is neither being torn down
    nor quarantined.  The sweep settles due leases that no other transaction has locked, and
    nothing else changes in the table of leases; it records and returns one action for each of
    them; and it settles them all, unless there are more than its page, which it then fills
    with the ones that expired first. *)
Theorem sweep_settles_expired_leases now locked limit t : reachable True False t →
  ∃ t' acts settled, reconcile_expired_leases now locked limit t = (t', Ok acts)
  ∧ NoDup (le_id <$> settled)
  ∧ (∀ l, l ∈ settled → t.(t_leases) !! l.(le_id) = Some l ∧ l.(le_id) ∉ locked ∧ is_active l = true ∧ l.(le_expires_at) ≤ now
      ∧ (∃ row, t.(t_sandboxes) !! l.(le_sandbox_id) = Some row ∧ row.(s_value).(sb_state) ∉ [Destroying; Quarantined])
      ∧ t'.(t_leases) !! l.(le_id) = Some (with_status l "expired" (Some "lease expired"%string) now))
  ∧ (∀ i, i ∉ le_id <$> settled → t'.(t_leases) !! i = t.(t_leases) !! i)
  ∧ Forall2 (λ l a, t'.(t_actions) !! (l.(le_id), l.(le_generation)) = Some a) settled acts
  ∧ ∀ i l row, t.(t_leases) !! i = Some l → t.(t_sandboxes) !! l.(le_sandbox_id) = Some row → is_active l = true →
      l.(le_expires_at) ≤ now → row.(s_value).(sb_state) ∉ [Destroying; Quarantined] → i ∉ locked →
      l ∈ settled ∨ Z.of_nat (length settled) = clamp 1 10000 limit ∧ ∀ o, o ∈ settled → o.(le_expires_at) ≤ l.(le_expires_at).
Proof.
  intros Ht. pose proof (reachable_refs_ok _ _ _ Ht) as HR. set (n := Z.to_nat (clamp 1 10000 limit)).
  pose proof (leases_of_sweepable now locked n t HR) as Hsw.
  destruct (reconcile_all_total now (leases_of (due now) n locked t) [] t HR (reachable_balanced _ _ Ht) Hsw)
    as (t' & acts & He & _ & Hset & Hkeep & Hact & _).
  exists t', acts, (leases_of (due now) n locked t). split_and!; [|apply Hsw| |done|done|].
  - change (transaction t (reconcile_all now (leases_of (due now) n locked t) [] t) = (t', Ok acts)). by rewrite He.
  - intros l Hl. destruct (sw_here _ _ Hsw l Hl) as [Hhere _]. pose proof (leases_of_unlocked _ _ _ _ _ Hl) as Hlk.
    destruct (leases_of_elem _ _ _ _ _ Hl) as [_ (row & Hrow & Hd)]. unfold due, swept in Hd. bools.
    split_and!; [done|done|done|lia|by exists row|by apply Hset].
  - intros i l row Hl Hrow Ha Hexp Hst Hlk. destruct (leases_of_due now locked n t i l row HR Hl Hrow) as [?|[Hlen Hall]]; [|done|by left|].
    + unfold due, swept. rewrite Ha, (bool_decide_false _ Hst), andb_true_r. by apply Z.leb_le.
    + right. split; [|done]. rewrite Hlen. unfold n, clamp. lia.
Qed.

(** *** Placement *)
Definition host_held (r : Resource) (host : string) (nodes : gmap Uuid NodeRow) : Z :=
  sum_of (λ n, amount r (held_by n)) (on_host host nodes).

Lemma sum_of_filter {A} (P : A → Prop) `{∀ x, base.Decision (P x)} (f : A → Z) l :
  sum_of f (filter P l) = sum_of (λ x, if decide (P x) then f x else 0) l.
Proof. induction l as [|x l IH]; [done|]. rewrite filter_cons. simpl. rewrite <-IH. by case_decide. Qed.

Lemma host_held_msum r host nodes :
  host_held r host nodes =
  msum (λ n, if decide (host_text n.(n_metadata) = Some host) then amount r (held_by n) else 0) nodes.
Proof. apply sum_of_filter. Qed.

Lemma min_of_le l m x : min_of l = Some m → x ∈ l → m ≤ x.
Proof.
  destruct l as [|y l]; [done|]. intros [= <-] [->|Hx]%elem_of_cons; [clear|revert Hx];
    induction l as [|z l IH]; simpl; [lia..|by intros ?%elem_of_nil|]. intros [->|Hx]%elem_of_cons; [lia|]. specialize (IH Hx). lia.
Qed.

Lemma fits_min l held demand x : fits (min_of l) held demand = true → x ∈ l → held + demand ≤ x.
Proof.
  unfold fits. destruct (min_of l) as [m|] eqn:Hm; [|done]. intros Hf Hx. pose proof (min_of_le _ _ _ Hm Hx). lia.
Qed.

Lemma fits_least a b held demand : fits (least a b) held demand = true → is_Some a → is_Some b →
  fits a held demand = true ∧ fits b held demand = true.
Proof. unfold fits, least. intros Hf [x ->] [y ->]. lia. Qed.

Lemma sum_of_fmap {A B} (f : B → Z) (g : A → B) l : sum_of f (g <$> l) = sum_of (λ x, f (g x)) l.
Proof. induction l as [|x l IH]; [done|]. rewrite fmap_cons. unfold sum_of in *. simpl. by rewrite IH. Qed.

(** What the function guarantees of a host that may take [demand]. *)
Lemma headroom_bound host demand now nodes m ceiling avail :
  aiec_host_has_headroom (Some host) demand now nodes = true → m ∈ on_host host nodes →
  (sibling_of now m).(measured) = Some (ceiling, avail) →
  (∀ r, host_held r host nodes + amount r demand ≤ amount r avail) ∧ host_held Vcpus host nodes + amount Vcpus demand ≤ ceiling.
Proof.
  intros Hh Hm Hme. unfold aiec_host_has_headroom in Hh. cbv zeta in Hh. rewrite !sum_of_fmap in Hh.
  set (readings := omap measured (sibling_of now <$> on_host host nodes)) in Hh.
  assert (Hin : (ceiling, avail) ∈ readings).
  { apply list_elem_of_omap. exists (sibling_of now m). split; [by apply list_elem_of_fmap_2|done]. }
  bools. assert (Hne : ∀ f : Z * Capacity → Z, is_Some (min_of (f <$> readings))).
  { intros f. by destruct readings as [|x l]; [apply elem_of_nil in Hin|eexists]. }
  match goal with Hl : fits (least _ _) _ _ = true |- _ => apply fits_least in Hl as [Hc1 Hc2]; [|apply Hne..] end.
  split; [intros []|].
  - eapply (fits_min _ _ _ avail.(c_vcpus)); [exact Hc2|]. by apply (list_elem_of_fmap_2 (λ p, p.2.(c_vcpus)) _ (ceiling, avail)).
  - eapply (fits_min _ _ _ avail.(c_memory)); [eassumption|]. by apply (list_elem_of_fmap_2 (λ p, p.2.(c_memory)) _ (ceiling, avail)).
  - eapply (fits_min _ _ _ avail.(c_disk)); [eassumption|]. by apply (list_elem_of_fmap_2 (λ p, p.2.(c_disk)) _ (ceiling, avail)).
  - eapply (fits_min _ _ _ ceiling); [exact Hc1|]. by apply (list_elem_of_fmap_2 fst _ (ceiling, avail)).
Qed.

Lemma on_host_elem host nodes n : n ∈ on_host host nodes ↔ host_text n.(n_metadata) = Some host ∧ ∃ i, nodes !! i = Some n.
Proof.
  unfold on_host. rewrite list_elem_of_filter, list_elem_of_fmap. apply and_iff_compat_l. split.
  - intros ([i m] & -> & Hm%elem_of_map_to_list). by exists i.
  - intros [i Hi]. exists (i, n). by rewrite elem_of_map_to_list.
Qed.

(** The debit of a worker on the host. *)
Lemma host_held_debit r host nodes id n demand count : nodes !! id = Some n → host_text n.(n_metadata) = Some host →
  amount r n.(n_available) ≤ amount r n.(n_total) → 0 ≤ amount r demand →
  host_held r host (<[id := with_capacity n (cap_map Z.sub n.(n_available) demand) count]> nodes) =
  host_held r host nodes + amount r demand.
Proof.
  intros Hn Hh Hle Hd. rewrite !host_held_msum, (msum_put _ _ _ _ _ Hn). simpl. rewrite !decide_True by done.
  unfold held_by. simpl. rewrite !amount_map. lia.
Qed.

(** While the lock of a host is held no placement on it commits: whatever else is written
    between two tables, a worker of the host holds no more than it did, and one that has
    joined it holds nothing. *)
Definition meanwhile (host : string) (nodes nodes' : gmap Uuid NodeRow) : Prop :=
  ∀ id n', nodes' !! id = Some n' → host_text n'.(n_metadata) = Some host → ∀ r,
    amount r (held_by n') ≤ match nodes !! id with
                            | Some n => if decide (host_text n.(n_metadata) = Some host) then amount r (held_by n) else 0
                            | None => 0
                            end.

(** What PostgreSQL's locks give a placement: the row a round picks is locked ([FOR UPDATE]),
    so it is still the one it debits; and from the moment the lock of the picked row's host
    is held, no other placement on that host commits. *)
Definition isolated (views : Views) : Prop := ∀ nodes k now runtime required demand preferred excl p,
  candidate now runtime required demand preferred excl (views nodes k) = Some p →
  nodes !! p.1 = Some p.2 ∧
  ∀ host, host_text p.2.(n_metadata) = Some host → host_locked (views nodes k) = true →
    meanwhile host (views nodes k).(checked) nodes.

Lemma msum_dominated {A} (f : A → Z) (m m' : gmap Uuid A) : (∀ x, 0 ≤ f x) →
  (∀ i x, m' !! i = Some x → f x ≤ from_option f 0 (m !! i)) → msum f m' ≤ msum f m.
Proof.
  intros Hf. revert m. induction m' as [|i x m' Hi IH] using map_ind; intros m Hm.
  { change (msum f ∅) with 0. apply sum_of_nonneg. intros y _. apply Hf. }
  rewrite msum_new by done. pose proof (Hm i x (lookup_insert_eq _ _ _)) as Hx.
  assert (Hle : msum f m' ≤ msum f (delete i m)).
  { apply IH. intros j y Hj. assert (j ≠ i) by congruence. rewrite lookup_delete_ne by done. apply Hm. by rewrite lookup_insert_ne. }
  destruct (m !! i) as [y|] eqn:Hy; cbn in Hx; [|rewrite delete_id in Hle by done; lia].
  rewrite <-(insert_delete_id m i y Hy), msum_new by apply lookup_delete_eq. lia.
Qed.

Lemma meanwhile_held r host nodes nodes' : meanwhile host nodes nodes' → host_held r host nodes' ≤ host_held r host nodes.
Proof.
  intros Hm. rewrite !host_held_msum.
  assert (Hnn : ∀ n : NodeRow, 0 ≤ amount r (held_by n)) by (intros n; unfold held_by; rewrite !amount_map; destruct r; cbn; lia).
  apply msum_dominated; [intros n; case_decide; [apply Hnn|done]|]. intros i n Hi. case_decide as Hh.
  - specialize (Hm i n Hi Hh r). by destruct (nodes !! i).
  - destruct (nodes !! i) as [n0|]; cbn; [|done]. case_decide; [apply Hnn|done].
Qed.

Lemma candidate_ok now runtime required demand preferred excl v p :
  candidate now runtime required demand preferred excl v = Some p →
  v.(seen) !! p.1 = Some p.2 ∧ p.1 ∉ v.(skipped) ∧ schedulable now runtime required demand preferred excl v.(seen) p = true.
Proof.
  unfold candidate. intros Hp%head_Some_elem_of. rewrite sort_by_perm, list_elem_of_filter, heap_rows in Hp.
  destruct Hp as [[Hs Hk] Hin], p as [i n]. by apply elem_of_map_to_list in Hin.
Qed.

Lemma reserve_ok_shape c views fresh tenant s preferred retry gen expires t t' p :
  reserve c views fresh tenant s preferred retry gen expires t = Ok (t', p) →
  select_schedulable_node c.(tx_now) views s preferred t = Ok (Some p) ∧
  ∃ n row v, t.(t_nodes) !! p.1 = Some n ∧
    t'.(t_nodes) = <[p.1 := with_capacity n (cap_map Z.sub n.(n_available) (demand_of (size_of s))) (n.(n_sandbox_count) + 1)]> t.(t_nodes) ∧
    t.(t_sandboxes) !! s.(sb_id) = Some row ∧ t'.(t_sandboxes) = <[s.(sb_id) := with_value row v]> t.(t_sandboxes) ∧
    v.(sb_node_id) = Some p.1 ∧ v.(sb_runtime) = row.(s_value).(sb_runtime) ∧ v.(sb_id) = row.(s_value).(sb_id) ∧
    size_of v = size_of row.(s_value) ∧
    t'.(t_leases) = <[fresh := new_lease fresh tenant s.(sb_id) p.1 gen expires c.(written)]> t.(t_leases).
Proof.
  intros Hr. unfold reserve in Hr. ok_inv Hr. injection Hr as <- <-.
  rename Hok into Hd, Hok0 into Hsel, Hok1 into Hp, Hok2 into Hdeb, Hok3 into Hrow, Hok4 into Hup, Hok5 into Hins.
  apply capacity_demand_ok in Hd as ->. apply ok_or_ok in Hp as ->. apply map_err_ok, lock_sandbox_ok in Hrow as [Hrow _].
  apply update_row_ok in Hup as ->. apply insert_lease_ok in Hins as (-> & _ & _ & Hnode & _). rename a1 into p, a3 into row.
  unfold debit_capacity in Hdeb. destruct (t.(t_nodes) !! p.1) as [n|] eqn:Hn;
    [|simplify_eq; destruct Hnode; simpl in *; congruence]. ok_inv Hdeb. injection Hdeb as <-. simpl in *.
  split; [done|]. exists n, row. eexists. by split_and!.
Qed.

Lemma assign_keeps retry key sandbox node lease now t t' : assign retry key sandbox node lease now t = Ok t' →
  t'.(t_nodes) = t.(t_nodes) ∧ t'.(t_sandboxes) = t.(t_sandboxes) ∧ t'.(t_leases) = t.(t_leases).
Proof. unfold assign. intros Ha. repeat case_match; simplify_eq; done. Qed.

Lemma link_keeps run attempt sandbox t t' : link_attempt_sandbox run attempt sandbox t = Ok t' →
  t'.(t_nodes) = t.(t_nodes) ∧ t'.(t_sandboxes) = t.(t_sandboxes) ∧ t'.(t_leases) = t.(t_leases).
Proof. unfold link_attempt_sandbox. intros Ha. ok_inv Ha. by simplify_eq. Qed.

(** What holds of a placement once it is made, in the round that chose: the worker [n] as it
    was, the debit, and the readings of the host at the check after the lock. *)
Record admissible (now : Instant) (a : ScheduledSandbox) (nodes : gmap Uuid NodeRow) (v : View) (t : Tables) : Prop := {
  ad_lease : ∃ l, t.(t_leases) !! a.(sc_lease_id) = Some l ∧ is_active l = true ∧ l.(le_generation) = a.(sc_generation) ∧
    l.(le_node_id) = a.(sc_worker_id) ∧ l.(le_sandbox_id) = a.(sc_sandbox).(sb_id);
  ad_worker : ∃ n row host, nodes !! a.(sc_worker_id) = Some n ∧ t.(t_sandboxes) !! a.(sc_sandbox).(sb_id) = Some row ∧
    t.(t_nodes) = <[a.(sc_worker_id) := with_capacity n (cap_map Z.sub n.(n_available) (demand_of (size_of row.(s_value))))
                                                      (n.(n_sandbox_count) + 1)]> nodes ∧
    row.(s_value).(sb_node_id) = Some a.(sc_worker_id) ∧ n.(n_healthy) = true ∧ is_fresh now n = true ∧
    n.(accepting_sandboxes) = true ∧ n.(n_runtime) = row.(s_value).(sb_runtime) ∧
    document_contains n.(n_capabilities) row.(s_required) = true ∧ n.(n_control_endpoint) = a.(sc_endpoint) ∧
    host_text n.(n_metadata) = Some host ∧
    (∃ m, m ∈ on_host host v.(checked) ∧ is_Some (sibling_of now m).(measured)) ∧
    ∀ m ceiling avail, m ∈ on_host host v.(checked) → (sibling_of now m).(measured) = Some (ceiling, avail) →
      host_held Vcpus host t.(t_nodes) ≤ ceiling ∧ ∀ r, host_held r host t.(t_nodes) ≤ amount r avail }.

Lemma headroom_measured host demand now nodes : aiec_host_has_headroom (Some host) demand now nodes = true →
  ∃ m, m ∈ on_host host nodes ∧ is_Some (sibling_of now m).(measured).
Proof.
  unfold aiec_host_has_headroom. cbv zeta. intros Hh. bools.
  destruct (omap measured (sibling_of now <$> on_host host nodes)) as [|x l] eqn:E; [done|].
  assert (Hx : x ∈ omap measured (sibling_of now <$> on_host host nodes)) by (rewrite E; left).
  apply list_elem_of_omap in Hx as (sb & (m & -> & Hm)%list_elem_of_fmap & Hs). by exists m.
Qed.

Lemma debited_headroom host demand now before nodes id n count :
  (∀ r, 0 ≤ amount r n.(n_available) ≤ amount r n.(n_total)) → (∀ r, 0 ≤ amount r demand) → nodes !! id = Some n →
  host_text n.(n_metadata) = Some host → aiec_host_has_headroom (Some host) demand now before = true → meanwhile host before nodes →
  let nodes' := <[id := with_capacity n (cap_map Z.sub n.(n_available) demand) count]> nodes in
  ∀ m ceiling avail, m ∈ on_host host before → (sibling_of now m).(measured) = Some (ceiling, avail) →
    host_held Vcpus host nodes' ≤ ceiling ∧ ∀ r, host_held r host nodes' ≤ amount r avail.
Proof.
  intros Hav Hd Hn Hh Hhead Hmw nodes' m ceiling avail Hm Hme. unfold nodes'.
  rewrite host_held_debit; [|done..|by apply Hav|done]. setoid_rewrite host_held_debit; [|done..|by apply Hav|done].
  destruct (headroom_bound _ _ _ _ _ _ _ Hhead Hm Hme) as [H1 H2]. pose proof (λ r, meanwhile_held r _ _ _ Hmw) as Hle. split.
  - specialize (Hle Vcpus). lia.
  - intros r. specialize (Hle r). specialize (H1 r). lia.
Qed.

Lemma place_admissible c views fresh q s retry gen t t' a : refs_ok (ledger t) → isolated views →
  (∃ row, t.(t_sandboxes) !! s.(sb_id) = Some row ∧ size_of row.(s_value) = size_of s ∧ row.(s_value).(sb_runtime) = s.(sb_runtime)) →
  place c views fresh q s retry gen t = Ok (t', a) →
  a.(acquired) = true ∧ ∃ nodes k, host_locked (views nodes k) = true ∧ admissible c.(tx_now) a.(scheduled) nodes (views nodes k) t'.
Proof.
  intros HR Hcur (row & Hrow & Hsz & Hrt) Hp. unfold place in Hp.
  destruct (size_keyed _ HR _ _ (size_lookup _ _ _ Hrow)) as [Hid Hv]. simpl in Hid. rewrite Hsz in Hv.
  destruct (reserve _ _ _ _ _ _ _ _ _ t) as [[t1 p]|] eqn:Hres; [|done]. ok_inv Hp. injection Hp as <- <-. split; [done|].
  rename a0 into t2, a1 into t3, a2 into s3, Hok into Has, Hok0 into Hli, Hok1 into Hf.
  apply reserve_ok_shape in Hres as (Hsel & n & row0 & v & Hn & Hns & Hr0 & Hsb & Hvn & Hvr & Hvi & Hvs & Hls). rewrite Hrow in Hr0. injection Hr0 as <-.
  assert (t3.(t_nodes) = t1.(t_nodes) ∧ t3.(t_sandboxes) = t1.(t_sandboxes) ∧ t3.(t_leases) = t1.(t_leases)) as (Hn3 & Hs3 & Hl3).
  { apply assign_keeps in Has as (<- & <- & <-). case_match; [by eapply link_keeps|by simplify_eq]. }
  apply fetch_sandbox_ok in Hf as (row3 & Hrow3 & <- & _). rewrite Hs3, Hsb, lookup_insert_eq in Hrow3. injection Hrow3 as <-.
  apply select_ok in Hsel as (k & excl & host & row1 & Hr1 & Hc & Hlock & Hh & Hhead). rewrite Hrow in Hr1. injection Hr1 as <-. exists t.(t_nodes), k. split; [done|].
  destruct (Hcur _ _ _ _ _ _ _ _ _ Hc) as [Hcn Hmw]. apply candidate_ok in Hc as (_ & _ & Hsch).
  destruct p as [i n0]. cbn [fst snd] in *. rewrite Hn in Hcn. injection Hcn as <-. unfold schedulable in Hsch. cbn [snd] in Hsch. bools.
  assert (Htext : host_text n.(n_metadata) = Some host) by (unfold host_text; by rewrite Hh).
  pose proof (book_ok _ HR _ _ (book_lookup _ _ _ Hn)) as [_ Hav].
  split; simpl; rewrite Hvi, Hid.
  - rewrite Hl3, Hls, lookup_insert_eq. eexists. by split_and!.
  - rewrite Hn3, Hns, Hs3, Hsb, lookup_insert_eq. eexists _, _, host. split_and!; try done; simpl; [by rewrite Hvs, Hsz|congruence|by eapply headroom_measured|].
    apply debited_headroom; try done; [|by apply Hmw]. intros r. by apply demand_nonneg.
Qed.

(** A row of [sandboxes] that differs in its placement only. *)
Definition same_sandbox (row row' : SandboxRow) : Prop :=
  size_of row'.(s_value) = size_of row.(s_value) ∧ row'.(s_value).(sb_runtime) = row.(s_value).(sb_runtime) ∧
  row'.(s_required) = row.(s_required).

Lemma clear_node_same now tenant id node t j row : t.(t_sandboxes) !! j = Some row →
  ∃ row', (clear_node now tenant id node t).(t_sandboxes) !! j = Some row' ∧ same_sandbox row row'.
Proof.
  intros Hj. destruct (clear_node_row now tenant id node t j) as [->|(row0 & Hr & ->)]; [by exists row|].
  simplify_eq. eexists. by split.
Qed.

Lemma release_same now l status reason t t' j row : release_capacity now l status reason t = Ok t' →
  t.(t_sandboxes) !! j = Some row → ∃ row', t'.(t_sandboxes) !! j = Some row' ∧ same_sandbox row row'.
Proof.
  unfold release_capacity. intros Hr Hj. ok_inv Hr. injection Hr as <-. simpl. apply clear_node_same.
  unfold credit_capacity in Hok2. case_match; ok_inv Hok2; by simplify_eq.
Qed.


(** *** Quarantine *)
Definition keeps_quarantine (t t' : Tables) : Prop :=
  ∀ id, states t !! id = Some Quarantined → states t' !! id = Some Quarantined.

#[local] Instance keeps_quarantine_preorder : PreOrder keeps_quarantine.
Proof. split; [by intros t id|]. intros t1 t2 t3 H12 H23 id Hq. auto. Qed.

Lemma keeps_same t t' : states t' = states t → keeps_quarantine t t'.
Proof. intros Hs id. by rewrite Hs. Qed.

Lemma keeps_quarantine_put id old new t : t.(t_sandboxes) !! id = Some old →
  (old.(s_value).(sb_state) = Quarantined → new.(s_value).(sb_state) = Quarantined) → keeps_quarantine t (put_row id new t).
Proof.
  intros Ho Hn j. unfold states. simpl. rewrite fmap_insert. destruct (decide (j = id)) as [->|?].
  - rewrite lookup_fmap, Ho, lookup_insert_eq. simpl. intros [= Hq]. f_equal. auto.
  - by rewrite lookup_insert_ne.
Qed.

Lemma keeps_insert v required t t' : insert_sandbox v required t = Ok t' → keeps_quarantine t t'.
Proof.
  intros Hi. unfold insert_sandbox in Hi. ok_inv Hi. simplify_eq. bools. intros j Hj. unfold states in *. simpl.
  rewrite fmap_insert, lookup_insert_ne; [done|]. intros <-. rewrite lookup_fmap, fmap_Some in Hj. naive_solver.
Qed.

Lemma states_request key sandbox f t t' : insert_request key sandbox f t = Ok t' → states t' = states t.
Proof. unfold insert_request. intros Ha. ok_inv Ha. by simplify_eq. Qed.

Lemma states_keep t t' : t'.(t_sandboxes) = t.(t_sandboxes) → states t' = states t.
Proof. unfold states. by intros ->. Qed.

Lemma keeps_update id old new t t' : t.(t_sandboxes) !! id = Some old → update_row id old new t = Ok t' →
  new.(s_value).(sb_state) ≠ Paused ∨ new.(s_value).(sb_state) = old.(s_value).(sb_state) → keeps_quarantine t t'.
Proof.
  intros Ho Hu Hn. pose proof (update_row_ok _ _ _ _ _ Hu) as ->. apply (keeps_quarantine_put _ old); [done|]. intros Hq.
  unfold update_row in Hu. case_match eqn:Hl; [done|]. unfold latched in Hl. rewrite Hq in Hl, Hn.
  destruct (new.(s_value).(sb_state)) eqn:Hs; try done; exfalso; destruct (bool_decide (s_released_at new = None)); simpl in Hl; naive_solver.
Qed.

Lemma keeps_reserve c views fresh tenant s preferred retry gen expires t t' p :
  reserve c views fresh tenant s preferred retry gen expires t = Ok (t', p) → keeps_quarantine t t'.
Proof.
  intros Hr. unfold reserve in Hr. ok_inv Hr. injection Hr as <- <-. rename Hok2 into Hdeb, Hok3 into Hrow, Hok4 into Hup, Hok5 into Hins.
  apply map_err_ok, lock_sandbox_ok in Hrow as [Hrow _]. apply insert_lease_ok in Hins as (-> & _). apply debit_states in Hdeb as [Hs _].
  transitivity a2; [by apply keeps_same|]. transitivity a4; [|by apply keeps_same].
  eapply keeps_update; [exact Hrow|exact Hup|]. simpl. destruct retry; [by left|by right].
Qed.

Lemma keeps_place c views fresh q s retry gen t t' a : place c views fresh q s retry gen t = Ok (t', a) → keeps_quarantine t t'.
Proof.
  intros Hp. unfold place in Hp. destruct (reserve _ _ _ _ _ _ _ _ _ t) as [[t1 p]|] eqn:Hres; [|done]. ok_inv Hp. injection Hp as <- _.
  etrans; [by eapply keeps_reserve|]. apply assign_keeps in Hok as (_ & Hs & _). apply keeps_same, states_keep. rewrite <-Hs.
  case_match; [by eapply link_keeps|by simplify_eq].
Qed.

Lemma keeps_schedule c views fresh q t : keeps_quarantine t (schedule_on_node c views fresh q t).1.
Proof.
  apply (transaction_moves (keeps_quarantine t)); [done|]. intros t' a Hs. cbv zeta in Hs. ok_inv Hs. case_match.
  - ok_inv Hs. case_match; ok_inv Hs; [by simplify_eq|]. etrans; [|by eapply keeps_place]. case_match; [|by simplify_eq].
    ok_inv Hok2. injection Hok2 as <-. apply keeps_same. rewrite states_clear_node. by eapply release_states.
  - ok_inv Hs. etrans; [by eapply keeps_insert|]. etrans; [by eapply keeps_same, states_request|]. by eapply keeps_place.
Qed.

Lemma keeps_reassign c views fresh lease busy t : keeps_quarantine t (reassign_expired_lease c views fresh lease busy t).1.
Proof.
  apply (transaction_moves (keeps_quarantine t)); [done|]. intros t' a Hs. case_match; [|by simplify_eq].
  cbv zeta in Hs. case_match; [by simplify_eq|]. ok_inv Hs. case_match eqn:Hrec; [by simplify_eq|]. ok_inv Hs.
  rename a1 into t1. transitivity t1.
  { apply keeps_same. destruct (is_active _); [by eapply release_states|]. injection Hok0 as <-. apply states_clear_node. }
  case_match; [|by simplify_eq]. unfold reassign_to in Hs. cbv zeta in Hs. ok_inv Hs. injection Hs as <- _.
  apply debit_states in Hok3 as [Hs1 _]. apply insert_lease_ok in Hok5 as (-> & _). apply retarget_ledger in Hok6 as [_ Hs3].
  apply lock_sandbox_ok in Hok7 as [Hrow _]. etrans; [by apply keeps_same, Hs1|]. etrans; [by apply keeps_same, states_keep, Hs3|].
  eapply keeps_update; [exact Hrow|exact Hok8|]. by left.
Qed.

Lemma keeps_reconcile_all now rows acc t t' acts : reconcile_all now rows acc t = Ok (t', acts) → states t' = states t.
Proof.
  revert acc t. induction rows as [|l rows IH]; intros acc t Hr; cbn [reconcile_all] in Hr; [by simplify_eq|]. ok_inv Hr.
  case_match; [by eapply IH|]. ok_inv Hr. apply IH in Hr. apply release_states in Hok0 as [<- _]. exact Hr.
Qed.

Lemma keeps_release_all now rows acc t t' r : release_all now rows acc t = Ok (t', r) → states t' = states t.
Proof.
  revert acc t. induction rows as [|l rows IH]; intros acc t Hr; cbn [release_all] in Hr; [by simplify_eq|].
  destruct (release_capacity _ _ _ _ t) as [t1|e] eqn:Hrel; [|destruct e; try done; by eapply IH].
  apply release_states in Hrel as [<- _]. by eapply IH.
Qed.

Lemma keeps_claim_all now ttl rows acc t t' r : claim_all now ttl rows acc t = Ok (t', r) → states t' = states t.
Proof.
  revert acc t. induction rows as [|[k a] rows IH]; intros acc t Hr; cbn [claim_all] in Hr; [by simplify_eq|].
  case_match; [|by eapply IH]. case_match; [|by eapply IH]. ok_inv Hr. apply IH in Hr. rewrite Hr.
  unfold mark_assigned. by repeat case_match.
Qed.

Lemma keeps_transition wall row expected next path t t' v id : refs_ok (ledger t) → t.(t_sandboxes) !! id = Some row →
  apply_state_transition wall row expected next path t = Ok (t', v) → keeps_quarantine t t'.
Proof.
  intros HR Hrow Ha. eapply apply_transition_ok in Ha as [->|(row' & -> & _ & _ & _ & Hc)]; [done| |done..].
  apply (keeps_quarantine_put _ row); [done|]. intros Hq. rewrite Hq in Hc. by destruct next.
Qed.

Lemma keeps_delete now tenant id t : keeps_quarantine t (delete_sandbox now tenant id t).1.
Proof.
  apply (transaction_moves (keeps_quarantine t)); [done|]. intros t' a Hd. cbv zeta in Hd. ok_inv Hd. rename a1 into t1.
  transitivity t1; [apply keeps_same; destruct (newest _); [by eapply release_states|by simplify_eq]|].
  case_match; [by simplify_eq|]. ok_inv Hd. injection Hd as <-. apply lock_sandbox_ok in Hok1 as [Hrow _].
  eapply keeps_update; [exact Hrow|exact Hok2|]. by left.
Qed.

Ltac open_transaction :=
  apply (transaction_moves (keeps_quarantine _)); [done|];
  let t' := fresh "t'" in let a := fresh "a" in intros t' a Hc; cbv zeta in Hc; ok_inv Hc.

Lemma keeps_creations t :
  (∀ s, keeps_quarantine t (create_sandbox s t).1)
  ∧ (∀ tenant request s, keeps_quarantine t (create_sandbox_idempotent tenant request s t).1)
  ∧ (∀ run attempt s required, keeps_quarantine t (create_attempt_sandbox run attempt s required t).1).
Proof.
  split_and!; intros; open_transaction.
  - simplify_eq. by eapply keeps_insert.
  - case_match; ok_inv Hc; simplify_eq; [done|]. etrans; [by eapply keeps_insert|]. by eapply keeps_same, states_request.
  - simplify_eq. etrans; [by eapply keeps_insert|]. by eapply keeps_same, states_keep, link_keeps.
Qed.

Lemma keeps_updates t : refs_ok (ledger t) →
  (∀ wall tenant id expected next path, keeps_quarantine t (update_state wall tenant id expected next path t).1)
  ∧ (∀ c tenant id expected next lease gen, keeps_quarantine t (update_state_with_lease c tenant id expected next lease gen t).1).
Proof.
  intros HR. split; intros; open_transaction; apply lock_sandbox_ok in Hok as [Hrow _].
  - by eapply keeps_transition.
  - case_match; [|done]. ok_inv Hc. destruct (apply_state_transition _ _ _ _ _ t) as [[t1 v]|] eqn:Ha; [|done]. simplify_eq.
    by eapply keeps_transition.
Qed.

Lemma keeps_quarantine_mark wall wall' tenant id fence budgeted t :
  keeps_quarantine t (mark_guard_quarantined wall wall' tenant id fence budgeted t).1.
Proof.
  open_transaction. apply lock_sandbox_ok in Hok as [Hrow _]. case_match; [by simplify_eq|].
  destruct (update_row _ _ _ t) eqn:Hup; [|done]. simplify_eq. eapply keeps_update; [exact Hrow|exact Hup|]. by left.
Qed.

Lemma keeps_sweeps t :
  (∀ now locked limit, keeps_quarantine t (reconcile_expired_leases now locked limit t).1)
  ∧ (∀ now locked limit, keeps_quarantine t (release_orphaned_leases now locked limit t).1)
  ∧ (∀ now node limit ttl before locked taken,
       keeps_quarantine t (claim_worker_assignments now node limit ttl before locked taken t).1).
Proof.
  split_and!; intros; open_transaction; apply keeps_same.
  - by eapply keeps_reconcile_all.
  - by eapply keeps_release_all.
  - do 3 (case_match; [by simplify_eq|]). by eapply keeps_claim_all.
Qed.

Lemma keeps_lease_calls t :
  (∀ now tenant id gen ttl, keeps_quarantine t (renew_worker_lease now tenant id gen ttl t).1)
  ∧ (∀ now wall tenant id gen v, keeps_quarantine t (complete_worker_lease now wall tenant id gen v t).1)
  ∧ (∀ now tenant id gen reason, keeps_quarantine t (release_worker_lease now tenant id gen reason t).1).
Proof.
  split_and!; intros; open_transaction; apply keeps_same; case_match; ok_inv Hc; simplify_eq; try done. by eapply release_states.
Qed.

Lemma keeps_scheduler_release now tenant sandbox before t : keeps_quarantine t (scheduler_release now tenant sandbox before t).1.
Proof.
  unfold scheduler_release. destruct (newest _) as [l|]; [|done].
  pose proof (proj2 (proj2 (keeps_lease_calls t)) now tenant l.(le_id) l.(le_generation) "released through scheduler"%string) as Hk.
  by destruct (release_worker_lease _ _ _ _ _ t).
Qed.

Lemma keeps_worker_calls t :
  (∀ value blank before, keeps_quarantine t (register_worker value blank before t).1)
  ∧ (∀ now h, keeps_quarantine t (heartbeat_worker now h t).1)
  ∧ (∀ node draining reason long, keeps_quarantine t (set_worker_draining node draining reason long t).1).
Proof.
  split_and!; intros; open_transaction; apply keeps_same.
  - injection Hc as <- _. repeat case_match; ok_inv Hok; by simplify_eq.
  - case_match; [|done]. ok_inv Hc. by simplify_eq.
  - by simplify_eq.
Qed.

(** The operation of a named operator that releases the sandbox. *)
Definition releases (id : Uuid) (o : op) : Prop :=
  match o with ReleaseQuarantine _ _ id' identified => id' = id ∧ identified = true | _ => False end.

Lemma release_other now tenant id' identified t id : ¬ releases id (ReleaseQuarantine now tenant id' identified) →
  states t !! id = Some Quarantined → states (release_guard_quarantine now tenant id' identified t).1 !! id = Some Quarantined.
Proof.
  intros Hrel Hq. apply (transaction_moves (λ t', states t' !! id = Some Quarantined)); [done|]. intros t' a Hc. cbv zeta in Hc.
  ok_inv Hc. simplify_eq. apply update_row_ok in Hok0 as ->. simpl in Hrel. bools. unfold states in *. simpl.
  rewrite fmap_insert, lookup_insert_ne; [done|]. naive_solver.
Qed.

Lemma keeps_perform o t id : refs_ok (ledger t) → ¬ releases id o → states t !! id = Some Quarantined →
  states (perform o t) !! id = Some Quarantined.
Proof.
  intros HR Hrel Hq.
  destruct (keeps_creations t) as (H1 & H2 & H3), (keeps_updates t HR) as (H4 & H5), (keeps_sweeps t) as (H6 & H7 & H8),
    (keeps_lease_calls t) as (H9 & H10 & H11), (keeps_worker_calls t) as (H12 & H13 & H14).
  destruct o; [by apply H1|by apply H2|by apply H3|by apply H4|by apply H5|by apply keeps_delete|by apply keeps_quarantine_mark
    |by apply release_other|by apply keeps_schedule|by apply keeps_reassign|by apply H6|by apply H7|by apply H8|by apply H9
    |by apply H10|by apply H11|by apply keeps_scheduler_release|by apply H12|by apply H13|by apply H14|done].
Qed.

Lemma keeps_run ops t id : refs_ok (ledger t) → Forall (λ o, ¬ releases id o) ops → states t !! id = Some Quarantined →
  states (run ops t) !! id = Some Quarantined.
Proof.
  revert t. induction ops as [|o ops IH]; intros t HR Hops Hq; [done|]. apply Forall_cons in Hops as [Ho Hops]. simpl.
  apply IH; [|done|by apply keeps_perform]. eapply steps_refs_ok; [done|]. by apply (perform_refines False False).
Qed.

(** C20: a quarantined sandbox stays so through every sequence of placements, leases, sweeps,
    recoveries, deletions and state changes in which no named operator releases it; while it
    is quarantined it cannot be deleted, moved to another state, or placed again by a retry of
    its request. *)
Theorem quarantine_outlasts_scheduling ops t id row : reachable False False t → t.(t_sandboxes) !! id = Some row →
  row.(s_value).(sb_state) = Quarantined → Forall (λ o, ¬ releases id o) ops →
  let t' := run ops t in
  (∃ row', t'.(t_sandboxes) !! id = Some row' ∧ row'.(s_value).(sb_state) = Quarantined)
  ∧ (∀ now tenant, is_ok (delete_sandbox now tenant id t').2 = false)
  ∧ (∀ wall tenant expected next path, next ≠ Quarantined → is_ok (update_state wall tenant id expected next path t').2 = false)
  ∧ (∀ c views fresh q known, t'.(t_requests) !! (q.(sr_tenant), q.(sr_request)) = Some known → known.(rq_sandbox_id) = id →
       is_ok (schedule_on_node c views fresh q t').2 = false).
Proof.
  intros Ht Hrow Hst Hops t'. pose proof (reachable_refs_ok _ _ _ Ht) as HR.
  assert (Hq : states t' !! id = Some Quarantined).
  { apply keeps_run; [done..|]. unfold states. by rewrite lookup_fmap, Hrow, <-Hst. }
  destruct (state_lookup _ _ _ Hq) as (row' & Hrow' & Hs'). split_and!; [by eauto|..].
  - intros now tenant. apply transaction_refused. intros p Hp. cbv zeta in Hp. ok_inv Hp.
    apply lock_sandbox_ok in Hok as [Hr _]. simplify_eq. bools. done.
  - intros wall tenant expected next path Hn. apply transaction_refused. intros p Hp. ok_inv Hp.
    apply lock_sandbox_ok in Hok as [Hr _]. simplify_eq. unfold apply_state_transition in Hp. cbv zeta in Hp. rewrite Hs' in Hp.
    ok_inv Hp. rewrite bool_decide_eq_false_2 in Hp by done. ok_inv Hp. bools. by destruct next.
  - intros c views fresh q known Hk Hid. apply transaction_refused. intros p Hp. cbv zeta in Hp. ok_inv Hp. rewrite Hk in Hp. ok_inv Hp.
    apply lock_sandbox_ok in Hok1 as [Hr _]. rewrite Hid in Hr. simplify_eq. by rewrite Hs' in Hif2.
Qed.

(** *** Retries *)

(** A worker may repeat the report of its result, late and with any generation: the answer is
    the same and nothing changes. *)
Theorem completion_can_be_repeated `{!DocumentsLaws HD} now wall tenant id gen v t t' l : reachable False False t →
  complete_worker_lease now wall tenant id gen v t = (t', Ok l) →
  ∀ now' wall' gen', complete_worker_lease now' wall' tenant id gen' v t' = (t', Ok l).
Proof.
  intros Ht Hc now' wall' gen'. pose proof (reachable_refs_ok _ _ _ Ht) as HR. unfold complete_worker_lease, transaction in *.
  destruct (get_worker_lease tenant id t) as [l0|] eqn:Hg; [|done]. pose proof (get_worker_lease_ok _ _ _ _ Hg) as Hl.
  unfold get_worker_lease in Hg. rewrite Hl in Hg. destruct (negb (l0.(le_tenant_id) =? tenant)%N) eqn:Htn; [done|]. clear Hg.
  destruct (bool_decide (l0.(le_status) = "completed"%string)) eqn:Hs.
  - destruct (negb _) eqn:Hv in Hc; [done|]. injection Hc as <- <-. unfold get_worker_lease. by rewrite Hl, Htn, Hs, Hv.
  - destruct (_ <=? wall); [done|]. destruct (_ || _); [done|]. injection Hc as <- <-.
    destruct (lease_keyed _ HR _ _ Hl) as [Hid _]. unfold get_worker_lease. simpl. rewrite Hid, lookup_insert_eq. simpl.
    rewrite Htn. simpl. by rewrite value_round_trip, bool_decide_eq_true_2.
Qed.

End Operations.

(** The isolation class a request asks for is never part of what a worker must have: only the
    fields equal to [true] are kept, and the class is a text. *)
Lemma isolation_not_required c : ∀ f, f ∈ capability_predicate (Some c) → f.1.1 ≠ "isolation"%string.
Proof.
  intros f. simpl. rewrite !list_elem_of_filter. intros (_ & (Hn & _) & Hin). unfold capability_document in Hin.
  repeat (apply elem_of_cons in Hin as [->|Hin]; [done|]). by apply elem_of_nil in Hin.
Qed.

(** ** A concrete deployment *)
Module SampleWorkers.

#[local] Instance sample_heap : Heap := {| heap := λ K _ _ A m, map_to_list m |}.
#[local] Instance sample_heap_laws : HeapLaws sample_heap.
Proof. by split. Qed.

(** Twenty digits after the point. *)
#[local] Instance sample_numeric : Numeric := {|
  numeric := Z; literal := λ m n, m * 10 ^ (20 - n); num_add := Z.add; num_mul := λ a b, a * b / 10 ^ 20;
  num_div := λ a b, a * 10 ^ 20 / b; greatest := Z.max; num_leb := Z.leb |}.

#[local] Instance sample_documents : Documents := {|
  Value := string; value_text := id; value_of := Some; digest_sandbox := λ p, p.1.1.1.1.1.1.1.1.2;
  digest_schedule := λ p, p.1.1.1.1; https_endpoint := λ _, false |}.
#[local] Instance sample_documents_laws : DocumentsLaws sample_documents.
Proof. by split. Qed.

Definition capacity (n : Z) : Capacity := {| c_vcpus := n; c_memory := n * 1073741824; c_disk := n * 1073741824 |}.

Definition metadata : Metadata := {|
  host_id := Some (HostString "host"); p_total_vcpus := Some "8"%string; p_available_vcpus := Some "8"%string;
  p_memory := Some "68719476736"%string; p_disk := Some "68719476736"%string; m_rest := "" |}.

Definition worker (id : Uuid) (name : string) (version size : Z) : WorkerRegistration := {|
  wr_node_id := id; wr_name := name; wr_runtime := Docker; wr_capabilities := with_exec_and_files no_capabilities;
  wr_control_endpoint := name; wr_total := capacity size; wr_available := capacity size; wr_healthy := true;
  wr_version := version; wr_metadata := metadata; wr_started_at := 0; wr_last_heartbeat := 0 |}.

Definition sandbox (id : Uuid) : Sandbox := {|
  sb_id := id; sb_tenant_id := 1; sb_node_id := None; sb_image_id := "img"; sb_state := Creating; sb_runtime := Docker;
  sb_cpu := 4; sb_memory_mb := 1024; sb_disk_mb := 1024; sb_timeout_seconds := 900; sb_network := Disabled;
  sb_environment := {| workspace := Empty; toolkits := []; layers := []; guard := None; guard_policy_hash := None |};
  sb_created_at := 0; sb_updated_at := 0; sb_runtime_path := None |}.

Definition request (id : Uuid) : ScheduleRequest := {|
  sr_tenant := 1; sr_request := id; sr_sandbox := sandbox id; sr_ttl := 60; sr_preferred := None;
  sr_required := no_capabilities; sr_run := None |}.

Definition at_ (now : Instant) : Clock := {| tx_now := now; decided := now; written := now |}.

Definition no_runs : RunStore.Database := {|
  RunStore.tenants := {[1%N]}; machines := ∅; runs := ∅; attempts := ∅; events := ∅; links := ∅; queue := ∅; dispatched := ∅ |}.

Definition start : Tables := empty_tables {[1%N]} {[1%N := {|
  Quota.max_active_sandboxes := 8; Quota.max_vcpus := 32; Quota.max_memory_mb := 65536; Quota.max_disk_mb := 65536 |}]} no_runs.

(** A placement that sees the table as it is and gets the lock of the host at once. *)
Definition schedule (now : Instant) (fresh id : Uuid) (t : Tables) : op :=
  Schedule (at_ now) (λ _ _, {| seen := t.(t_nodes); skipped := ∅; lock_answers := [true]; checked := t.(t_nodes) |}) fresh (request id).

Definition registered_worker : Tables := perform (Register (worker 10 "w" 1 8) false start) start.
Definition placed_once : Tables := perform (schedule 1 50 100 registered_worker) registered_worker.
Definition placed_twice : Tables := perform (schedule 2 51 101 placed_once) placed_once.
Definition refused_third : Tables := perform (schedule 3 52 102 placed_twice) placed_twice.

(** The lease of the first sandbox runs out and is swept. *)
Definition swept_tables : Tables := perform (Reconcile (seconds 120) ∅ 100) placed_twice.

Definition placed_twice_answer :=
  (n_available <$> placed_twice.(t_nodes) !! 10%N, n_sandbox_count <$> placed_twice.(t_nodes) !! 10%N,
   (λ l, (l.(le_status), l.(le_generation))) <$> placed_twice.(t_leases) !! 51%N,
   bool_decide (refused_third.(t_leases) !! 52%N = None),
   (λ l, (l.(le_status), l.(le_generation))) <$> swept_tables.(t_leases) !! 50%N).

Lemma sample_answer : placed_twice_answer =
  (Some {| c_vcpus := 0; c_memory := 6442450944; c_disk := 6442450944 |}, Some 2, Some ("active"%string, 1), true,
   Some ("expired"%string, 1)).
Proof. vm_compute. reflexivity. Qed.

Lemma leases_once : map_to_list placed_once.(t_leases) = [(50%N, new_lease 50 1 100 10 1 (1 + seconds 60) 1)].
Proof. vm_compute. reflexivity. Qed.

Lemma sample_reachable kept timely : reachable kept timely placed_twice.
Proof.
  apply reach_step; [apply reach_step; [apply reach_step; [apply reach_empty|..]|..]|..].
  - intros _ n Hn. exfalso. revert Hn. vm_compute. discriminate.
  - exact (λ _, I).
  - exact (λ _, I).
  - intros _ i l Hl. assert (Hnone : registered_worker.(t_leases) = ∅) by (vm_compute; reflexivity).
    rewrite Hnone in Hl. by rewrite lookup_empty in Hl.
  - exact (λ _, I).
  - intros _ i l Hl. apply elem_of_map_to_list in Hl. rewrite leases_once in Hl.
    apply elem_of_cons in Hl as [[= -> ->]|Hl%elem_of_nil]; [reflexivity|done].
Qed.

Lemma swept_reachable : reachable False False swept_tables.
Proof. apply reach_step; [apply sample_reachable|exact (λ _, I)|exact (λ _, I)]. Qed.


Definition swept_lease : WorkerLease :=
  with_status (new_lease 50 1 100 10 1 (1 + seconds 60) 1) "expired" (Some "lease expired"%string) (seconds 120).

Lemma swept_lease_here : swept_tables.(t_leases) !! 50%N = Some swept_lease.
Proof. vm_compute. reflexivity. Qed.

Lemma lost_lease_is_fenced_witness :
  is_ok (renew_worker_lease 2 1 50 1 60 (run [Drain 10 true None false] swept_tables)).2 = false
  ∧ is_ok (renew_worker_lease 2 1 51 1 60 placed_twice).2 = true.
Proof.
  split; [|vm_compute; reflexivity].
  destruct (lost_lease_is_fenced [Drain 10 true None false] swept_tables 50 swept_lease swept_reachable swept_lease_here eq_refl)
    as (_ & Hr & _).
  exact (Hr 2 1%N 1 60).
Defined.

Lemma sweep_settles_expired_leases_witness : ∃ t' acts settled,
  reconcile_expired_leases (seconds 120) ∅ 100 placed_twice = (t', Ok acts) ∧ length acts = 2%nat ∧ length settled = 2%nat
  ∧ ∀ l, l ∈ settled → t'.(t_leases) !! l.(le_id) = Some (with_status l "expired" (Some "lease expired"%string) (seconds 120)).
Proof.
  assert (Hn : match (reconcile_expired_leases (seconds 120) ∅ 100 placed_twice).2 with Ok acts => length acts | Err _ => 0%nat end = 2%nat)
    by (vm_compute; reflexivity).
  destruct (sweep_settles_expired_leases (seconds 120) ∅ 100 placed_twice (sample_reachable True False))
    as (t' & acts & settled & He & _ & Hset & _ & Hact & _).
  rewrite He in Hn. exists t', acts, settled. split; [exact He|]. split; [exact Hn|].
  split; [rewrite (Forall2_length _ _ _ Hact); exact Hn|]. intros l Hl. apply (Hset l Hl).
Defined.

(** Alone on the database. *)
Definition views : Views := λ nodes _, {| seen := nodes; skipped := ∅; lock_answers := [true]; checked := nodes |}.

Lemma views_isolated : isolated views.
Proof.
  intros nodes k now runtime required demand preferred excl p Hc. apply candidate_ok in Hc as (Hn & _ & _). split; [exact Hn|].
  intros host _ _ id n Hi Hh r. cbn. rewrite Hi. by case_decide.
Qed.

Lemma once_reachable : reachable False False placed_once.
Proof.
  apply reach_step; [apply reach_step; [apply reach_empty|..]|..]; intros [].
Qed.

Definition second : Tables * result LeaseError.t ProvisionAdmission :=
  schedule_on_node (at_ 2) views 51 (request 101) placed_once.


Definition quarantined : Tables :=
  perform (MarkQuarantined 3 3 1 101 {| lease_id := 51; generation := 1 |} true) placed_twice.

Lemma quarantined_reachable : reachable False False quarantined.
Proof. apply reach_step; [apply sample_reachable|exact (λ _, I)|exact (λ _, I)]. Qed.

(** Its lease runs out, the sweep passes it over, and deletion and retry are refused. *)
Lemma quarantine_outlasts_scheduling_witness :
  is_ok (delete_sandbox 5 1 101 (run [Reconcile (seconds 120) ∅ 100; ReleaseQuarantine 4 1 101 false] quarantined)).2 = false.
Proof.
  assert (Hst : (λ row, row.(s_value).(sb_state)) <$> quarantined.(t_sandboxes) !! 101%N = Some Quarantined) by (vm_compute; reflexivity).
  destruct (quarantined.(t_sandboxes) !! 101%N) as [row|] eqn:Hrow; [|discriminate Hst]. injection Hst as Hst.
  assert (Hops : Forall (λ o, ¬ releases 101 o) [Reconcile (seconds 120) ∅ 100; ReleaseQuarantine 4 1 101 false]).
  { constructor; [intros []|]. constructor; [intros [_ Hf]; discriminate Hf|constructor]. }
  destruct (quarantine_outlasts_scheduling _ quarantined 101 row quarantined_reachable Hrow Hst Hops) as (_ & Hd & _).
  exact (Hd 5 1%N).
Defined.

(** A worker of eight processors, all in use, comes back with four; when a lease of four is
    released, its four are available although a sandbox of four still runs. *)
Definition shrunk : Tables := perform (Register (worker 10 "w" 2 4) false placed_twice) placed_twice.
Definition freed : Tables := perform (ReleaseLease 5 1 50 1 "done") shrunk.
Definition overcommitted : Tables := perform (schedule 6 60 102 freed) freed.

(** Eight processors are in use on a worker that has four. *)
Theorem shrunk_worker_is_overcommitted :
  used (Uses Vcpus) 10 (ledger overcommitted) = 8 ∧ (λ n, n.(n_total).(c_vcpus)) <$> overcommitted.(t_nodes) !! 10%N = Some 4.
Proof. vm_compute. split; reflexivity. Qed.

End SampleWorkers.
